(* ===== verification/_CoqProject ===== *)
-Q . S2P
Prelude.v
Text.v
Status.v
Timestamp.v
TimeBase.v
Values.v
BoundedQueue.v
Streaming.v
Buffer.v
Telemetry.v
DoubleText.v
Contract.v
Node.v
Registry.v
Services.v
BuiltinNodes.v
NodeTestRunner.v
GraphConfig.v
GraphConfigFacts.v
Graph.v
GraphFacts.v
Scheduler.v
InputSync.v
Observers.v
Sources.v
Atomic.v
RunnerState.v
Runner.v
RunnerSettings.v
RunnerFacts.v
Admission.v
Lifecycle.v
Starting.v
Throwing.v
Typing.v
Subgraph.v
Device.v
Backends.v
RknnBackend.v
ModuleNodes.v
CaptureNodes.v
V4l2Backend.v
AlsaBackend.v
RgaBackend.v
OpenClBackend.v
MppBackend.v
ZlmInput.v
ZlmOutput.v
HardwareContext.v
Logging.v
HostSystem.v
Platform.v
CtkTool.v
RunTool.v
HelloGraph.v
PythonValues.v
PythonObserver.v
PythonSession.v
