(* ===== verification/Prelude.v ===== *)
(** * RK-AVP: a verification library

    RK-AVP is a C++17 framework for multimedia graphs: nodes with typed ports are
    wired by a configuration, packets travel along bounded queues, and a runner
    executes the nodes on pools of worker threads; modules add nodes for codecs, cameras,
    microphones, streams and accelerators; command line tools and Python bindings drive the
    whole.  This library models the core of the program ([src/core/] and [include/rkavp/]),
    its modules ([src/modules/]), its tools ([tools/]) and its bindings ([python/]) as Rocq
    definitions and proves what makes their parts correct.  Paths below are relative to the repository.

    ** The parts of the program and where they are modelled

    Values and basic types.
    - [Prelude]: machine widths, tactics and list lemmas the other files share.
    - [Text]: the string operations the code uses of the standard library: search, splitting,
      decimal numbers, file names, sorted lists of names.
    - [Status] ([status.hpp]): status codes; [Res] for a status with an output.
    - [Timestamp], [TimeBase] ([timestamp.hpp]): timestamps, and the conversion of ticks in
      [long double] arithmetic; [Values] ([config_value.hpp], [metadata.hpp],
      [media_types.hpp], [tensor.hpp], [packet.hpp], [packet_batch.hpp]).
    - [Contract] ([media_caps.hpp], [node.hpp], [node.cpp]): capabilities, ports,
      options.

    Components with a state of their own, each operation one function.
    - [BoundedQueue] ([bounded_queue.hpp]): the queue of every stream.
    - [Streaming] ([streaming_primitives.cpp]): RTP and RTCP time mapping, the
      reconnect backoff, the jitter buffer.
    - [Buffer] ([buffer.cpp]): DMA buffers and the buffer pool.
    - [Telemetry] ([metrics.cpp], [trace.cpp]), [DoubleText] (the text of numbers, of option
      values and of the metrics: [config_value.cpp], [metrics.cpp]), [Services] ([services.cpp]),
      [Registry] ([node_registry.cpp], [plugin.cpp]).
    - [Scheduler] ([scheduler.cpp]): worker threads, at the granularity of the
      mutex, the atomics and the condition variables.

    Nodes.
    - [Node] ([node.hpp], [node.cpp]): a hook is a program ([NodeM]) of accesses to
      private state and of calls that leave the node; [NodeClass] is the interface
      of the hooks, and the life cycle guards them.
    - [BuiltinNodes] ([builtin_nodes.cpp]): the six node classes of the core.
    - [NodeTestRunner] ([src/testing/node_test_runner.cpp]): the harness that drives one
      node without a graph.

    Graphs.
    - [GraphConfig], [GraphConfigFacts] ([graph_config.cpp]): the YAML loader with
      subgraphs, over an interface ([YamlCpp], [Host]) for yaml-cpp, the environment
      and the file system.
    - [Graph], [GraphFacts] ([graph.cpp]): validation and the search for cycles.

    The runner ([graph_runner.cpp], [graph_runner.hpp]).
    - [InputSync]: how packets at the ports of a node become invocations
      ([PrepareInvocation], [PruneImpossibleSyncPacketsLocked]).
    - [Observers]: output observers.  [Sources]: dynamic sources and their drain.
    - [Atomic]: programs of atomic actions, their interleaving, and a weakest
      precondition with ghost obligations.
    - [RunnerState], [Runner]: the members and the operations of [GraphRunner]; each
      operation is a program whose actions are the critical sections and the atomic
      accesses of the code.
    - [RunnerSettings]: the clock, the resource manager and the services of a runner.
    - [RunnerFacts], [Admission], [Lifecycle], [Starting]: the theorems about them;
      [Throwing]: a hook that throws inside a task.
    - [Typing]: disciplines, what the ports and the private states of a graph may hold; the worker
      of an observer.  [Subgraph]: a source with a subgraph of its own, as two runners with the
      observer and the mutex between them.

    The modules ([src/modules/]).
    - [Device]: programs that call a library or the kernel ([dprog]), their runs against any
      such outside ([drun]), a weakest precondition over what the calls need and leave, and
      the accounting of handles as a multiset.
    - [Backends] ([include/rkavp/backends/]): configurations, and the abstract classes as
      records of operations.
    - [ModuleNodes], [CaptureNodes] ([rockchip/nodes.cpp], [streaming/nodes.cpp],
      [audio/nodes.cpp], [opencl/nodes.cpp]): the node classes over these interfaces; the
      capture threads and their owners.
    - [RknnBackend] ([rockchip/rknn/backend.cpp]), [V4l2Backend] ([rockchip/v4l2/backend.cpp]),
      [AlsaBackend] ([audio/backend.cpp]), [RgaBackend] ([rockchip/rga/backend.cpp]),
      [OpenClBackend] ([opencl/backend.cpp]), [MppBackend] ([rockchip/mpp/backend.cpp]): the
      fields of each backend and one program per operation.
    - [ZlmInput], [ZlmOutput] ([streaming/backend.cpp]): the two sides of the ZLMediaKit
      backend; the input side as threads that interleave with the library's callbacks.
    - [HardwareContext] ([clock.hpp], [hardware_context.hpp]): the clock for tests and the
      service through which backends share pools, contexts and imports.

    Around the graph.
    - [Logging] ([logging.hpp], [logging.cpp]): levels, sinks, the context of a thread and its
      scopes, the rendering of a message and of its time.
    - [HostSystem]: programs that read files, run commands and look into directories, with
      what they may do recorded; [Platform] ([platform.cpp]): the probe of the board;
      [CtkTool] ([tools/rkavp-ctk/main.cpp]): the container device interface;
      [RunTool] ([tools/rkavp-run/main.cpp]): the command line runner;
      [HelloGraph] ([examples/hello_graph/main.cpp], [graphs/hello_graph.yaml]): the example
      application, a thread of the runner it drives.
    - [PythonValues], [PythonObserver], [PythonSession] ([python/bindings.cpp]): conversion of
      values, the observer thread and its lock against the interpreter's, and the objects
      with their calls.

    ** What the theorems show

    - Running graphs: whatever the interleaving, no packet stays in a queue once all
      threads are done, unless the graph is cancelled ([no_packet_stranded]); at most
      one drain task per stream ([one_drain_task]); a stream admits packets in
      timestamp order ([admission_ordered]); a synchronised node is invoked with
      complete sets of one timestamp and exactly one end of stream ([sync_joins],
      [prune_exact]); observers and sources are accounted for ([observer_history],
      [sources_accounted]); [Start] has the whole graph in place or leaves nothing behind
      ([start_all_or_nothing]) and [Stop] closes every node ([stop_closes_every_node]);
      after a hook that throws a stream is abandoned ([throwing_hook_strands],
      [abandoned_never_idle]).
    - What graphs carry: obligations of single edges and of single node classes compose to an
      invariant of the whole runner, from [Start] to [Stop] ([typed_streams]), and of a graph
      together with the subgraph of a source ([typed_subgraph]); the removal of such a source can
      block for good ([remove_source_deadlocks]).  The example application prints what it sent
      through its graph, or one error ([hello_outcome]).
    - Scheduling and queues: tasks are started in order, each once, and all of them
      after a draining stop ([scheduler_history]); queues are FIFO, bounded, lossless
      where the policy says so, and never block for good ([queue_fifo_history],
      [queue_lossless], [drop_oldest_keeps_recent], [queue_progress]).
    - Graphs: validation accepts exactly the valid graphs ([validate_exact]), the
      cycle search terminates and is exact ([cycle_search_exact]); loading terminates
      ([load_terminates]), yields well-formed configurations ([loaded_config_ok]) and
      merges subgraphs, environment variables, endpoints and scalars as documented.
    - Nodes: the order of the hooks of any node ([lifecycle_order]); conservation,
      limits and windows of the built-in nodes; a round of the test runner closes its
      node on every path and collects exactly what the node sent ([run_once_spec]).
    - Module nodes: a decoder node hands on all that is left at the end of its input
      ([decoder_flush]), emptying a codec ends ([drain_terminates]), options are checked
      ([codec_options_exact]); the three capture threads refine one abstract source
      ([capture_loops_refine]) and never outlive their node ([capture_thread_owned]).
    - Backends: for any sequence of operations and any answers of the outside that its
      documentation allows, nothing is used that is not held, nothing is released twice or
      lost, and copies stay inside their memory ([rknn_backend_safe], [v4l2_backend_safe],
      [alsa_backend_safe], [rga_backend_safe], [opencl_backend_safe], [mpp_backend_safe]);
      opening a codec is all or nothing ([mpp_open_all_or_nothing]).  A streaming session is
      safe against callbacks that come at any time ([zlm_input_safe]), and a publisher has a
      whole session or none ([zlm_output_safe]).  The shared table of imports implements one
      keyed by backend and descriptor ([hardware_imports_refine]).
    - Around the graph: contexts of log scopes nest ([log_scopes_lexical]) and times read back
      ([log_timestamp_roundtrip]); the probe reports exactly what the host shows
      ([platform_probe_exact]); the generated container specifications list the devices of the
      host, each in one group ([cdi_generate_exact]); the command line runner loads the plugins
      that are named and found, in order ([plugins_exact]), starts a graph at most once, stops
      what it started and reports errors by its exit code ([run_tool_protocol]); values survive
      the way into Python and back ([python_value_roundtrip]); an observer gets what was queued
      in order, all of it at shutdown ([python_observer_history], [python_shutdown_delivers]),
      and a graph object keeps to the discipline of the interpreter lock
      ([python_session_safe]).
    - Numbers: the conversion of ticks to microseconds is exact and never yields a reserved
      timestamp ([from_ticks_exact]); a [double] is written with six digits, correctly rounded
      ([significant_spec], [format_double_integer]), and exported metrics can be read back
      ([export_text_reads_back]).
    - The other components: exclusive and bounded buffer pool, no leaked descriptors,
      exact time mapping, bounded delays, atomic plugin loading, stable services, the
      window of the trace.

    ** Conventions

    - Integers keep their width where it matters: [u32], [u64] and [i64] write the
      wrap-around out; sizes and counters that cannot overflow in practice are [nat].
      A [double] is a [spec_float].
    - An output pointer is part of the result; the tests for null pointers are not
      modelled.  A function that returns a [Status] and fills an output is a [Res].
    - Containers without an order are [gmap] and [gset]; where the code traverses one,
      the model either traverses it in some order or the theorem quantifies over all
      orders.
    - A wait on a condition variable is a [None] result: blocked until the state
      changes.  [Scheduler] models the waits in two steps, because there the code
      notifies without the mutex; in [Runner] a wait is its predicate.
    - Code outside the repository is a parameter: yaml-cpp, the environment, the file
      system, the dynamic loader, the allocators and system calls of buffers, the vendor
      libraries and the kernel interfaces of the modules.  A
      callback of the application is recorded and not interpreted.
    - Fuel: the loader, the expansion of environment variables, the cycle search and
      [UnloadAll] take fuel; [load_terminates], [expand_environment_spec],
      [cycle_search_exact] and [unload_all_empties] show that what the entry points
      supply is enough.  [WaitUntilIdle] takes the number of rounds that fit into its timeout.
      The loop that empties a codec takes the rounds of its drain timeout, which
      [drain_terminates] shows to be enough.  A capture thread runs until it is stopped, a
      system call is repeated while a signal interrupts it and a wait for an OpenCL event lasts
      as long as the kernel runs: they take fuel too, and the theorems hold for every amount.
      The worker of an observer takes the number of packets it delivers; its theorems hold for
      every number.
      The waiting loop of the command line runner takes the number of polls that are made before
      a signal or the end of the graph; [run_tool_protocol] says what happened when it is used up.
      Everything else is structural.

    ** What is not modelled

    Within the runner: hooks that throw, except inside a task that drains a stream; the limit of
    waiting control operations.  In [Runner] itself only the outcome of the [Start] of a source's
    subgraph enters; [Subgraph] has one such source, and its theorem leaves out the restart of a
    source, for which the tables of the subgraph are made a second time.  Within the scheduler: priorities of threads.  Within the modules: the contents of
    frames and tensors.  Within the bindings: Python objects that contain themselves, and what
    the handler of callback errors prints. *)

From stdpp Require Export base gmap strings list fin_maps sets relations sorting.
From Stdlib Require Export ZArith Lia Sorted.

Declare Scope rkavp_scope.
Delimit Scope rkavp_scope with rkavp.
Global Open Scope string_scope.
Global Open Scope list_scope.
Global Open Scope Z_scope.

Create HintDb rkavp.

(** ** Machine integers *)

Definition u32_mod : Z := 2 ^ 32.
Definition u64_mod : Z := 2 ^ 64.
Definition u32 (z : Z) : Z := z mod u32_mod.
Definition u64 (z : Z) : Z := z mod u64_mod.
Definition int64_min : Z := - 2 ^ 63.
Definition int64_max : Z := 2 ^ 63 - 1.

(** The conversion of an unsigned 64-bit value to [std::int64_t] (two's
    complement, as every supported target does). *)
Definition i64 (z : Z) : Z :=
  let w := z mod u64_mod in if decide (w <= int64_max) then w else w - u64_mod.

Definition is_u32 (z : Z) : Prop := 0 <= z < u32_mod.
Definition is_u64 (z : Z) : Prop := 0 <= z < u64_mod.
Definition is_i64 (z : Z) : Prop := int64_min <= z <= int64_max.

Lemma u32_mod_eq : u32_mod = 4294967296. Proof. reflexivity. Qed.
Lemma u64_mod_eq : u64_mod = 18446744073709551616. Proof. reflexivity. Qed.
Lemma int64_min_eq : int64_min = -9223372036854775808. Proof. reflexivity. Qed.
Lemma int64_max_eq : int64_max = 9223372036854775807. Proof. reflexivity. Qed.

(** [widths] makes the constants of the machine widths visible to [lia]. *)
Ltac widths :=
  unfold is_u32, is_u64, is_i64, u32, u64 in *;
  rewrite ?u32_mod_eq, ?u64_mod_eq, ?int64_min_eq, ?int64_max_eq in *.

Lemma u32_range z : is_u32 (u32 z).
Proof. widths. apply Z.mod_pos_bound. lia. Qed.
Lemma u64_range z : is_u64 (u64 z).
Proof. widths. apply Z.mod_pos_bound. lia. Qed.
Lemma u32_small z : is_u32 z -> u32 z = z.
Proof. widths. intros. apply Z.mod_small. lia. Qed.
Lemma u64_small z : is_u64 z -> u64 z = z.
Proof. widths. intros. apply Z.mod_small. lia. Qed.
Lemma i64_range z : is_i64 (i64 z).
Proof.
  unfold i64. pose proof (u64_range z). widths.
  case_decide; lia.
Qed.
Lemma i64_small z : is_i64 z -> 0 <= z -> i64 z = z.
Proof.
  unfold i64. intros Hz Hp. pose proof (u64_small z) as Hs. widths.
  rewrite Hs by lia. case_decide; lia.
Qed.
#[export] Hint Resolve u32_range u64_range i64_range : rkavp.

(** ** Case analysis

    [cases] splits on every [match] and [decide] of the goal and of the
    hypotheses and closes the branches that congruence refutes. *)

Ltac cases_step :=
  match goal with
  | |- context [match ?x with _ => _ end] =>
      lazymatch x with
      | context [match _ with _ => _ end] => fail
      | _ => destruct x eqn:?
      end
  | H : context [match ?x with _ => _ end] |- _ =>
      lazymatch x with
      | context [match _ with _ => _ end] => fail
      | _ => destruct x eqn:?
      end
  end; simplify_eq/=; try done.

Ltac cases := repeat cases_step.

(** [invert H] is [inversion] followed by substitution. *)
Ltac invert H := inversion H; subst; clear H; simplify_eq/=.

(** ** Lists *)

Section lists.
Context {A : Type}.
Implicit Types (l k : list A) (x : A).

(** The elements a bounded container keeps when it only remembers the most
    recent [n]. *)
Definition lastn (n : nat) l : list A := drop (length l - n) l.

Lemma length_lastn n l : length (lastn n l) = Nat.min n (length l).
Proof. unfold lastn. rewrite length_drop. lia. Qed.

Lemma lastn_all n l : (length l <= n)%nat -> lastn n l = l.
Proof. intros. unfold lastn. by replace (length l - n)%nat with 0%nat by lia. Qed.

Lemma lastn_snoc_lt n l x :
  (length l < n)%nat -> lastn n (l ++ [x]) = lastn n l ++ [x].
Proof.
  intros. rewrite !lastn_all; [done|lia|].
  rewrite length_app; simpl; lia.
Qed.

Lemma lastn_snoc_ge n l x :
  (0 < n)%nat -> (n <= length l)%nat ->
  lastn n (l ++ [x]) = tail (lastn n l) ++ [x].
Proof.
  intros Hn Hl. unfold lastn. rewrite length_app; simpl.
  rewrite drop_app_le by lia. f_equal.
  replace (length l + 1 - n)%nat with (S (length l - n)) by lia.
  destruct (drop (length l - n) l) eqn:E.
  - assert (length (drop (length l - n) l) = 0)%nat as H0 by by rewrite E.
    rewrite length_drop in H0. lia.
  - simpl. replace (S (length l - n)) with ((length l - n) + 1)%nat by lia.
    rewrite <- drop_drop, E. done.
Qed.
End lists.

Lemma Forall_tail {A} (P : A -> Prop) l : Forall P l -> Forall P (tail l).
Proof. destruct 1; simpl; auto. Qed.

Lemma StronglySorted_tail {A} (R : A -> A -> Prop) l :
  StronglySorted R l -> StronglySorted R (tail l).
Proof. destruct 1; simpl; auto using StronglySorted. Qed.

Lemma filter_all {A} (P : A -> Prop) `{!forall x, Decision (P x)} (l : list A) :
  Forall P l -> filter P l = l.
Proof. induction 1; [done|]. rewrite filter_cons, decide_True by done. congruence. Qed.
