(* ===== verification/Text.v ===== *)
(** * Text

    Strings as the code uses them: characters, prefixes and substrings, decimal numbers,
    lower case, the parts of a path, and the sorting and removal of duplicates of lists
    of names.  These model the operations of [std::string], [std::filesystem::path] and
    [<algorithm>] that several components share. *)

From S2P Require Import Prelude.
From stdpp Require Import pretty.
From Stdlib Require Import Ascii.
Local Open Scope Z_scope.

Definition newline : string := String "010"%char EmptyString.

Fixpoint chars (s : string) : list ascii :=
  match s with EmptyString => [] | String c t => c :: chars t end.
Fixpoint of_chars (l : list ascii) : string :=
  match l with [] => EmptyString | c :: t => String c (of_chars t) end.

Lemma of_chars_chars s : of_chars (chars s) = s.
Proof. induction s as [|c s IH]; simpl; [done|]. by rewrite IH. Qed.
Lemma chars_of_chars l : chars (of_chars l) = l.
Proof. induction l; simpl; congruence. Qed.
Lemma chars_app s t : chars (s +:+ t) = chars s ++ chars t.
Proof. induction s as [|c s IH]; simpl; [done|]. by rewrite IH. Qed.
Lemma of_chars_app l k : of_chars (l ++ k) = of_chars l +:+ of_chars k.
Proof. induction l as [|c l IH]; simpl; [done|]. by rewrite IH. Qed.
Lemma chars_inj a b : chars a = chars b -> a = b.
Proof. intros H. by rewrite <- (of_chars_chars a), H, of_chars_chars. Qed.

(** ** Searching *)

(** [rfind]: the parts before and after the last occurrence of a character. *)
Fixpoint rsplit (c : ascii) (l : list ascii) : option (list ascii * list ascii) :=
  match l with
  | [] => None
  | x :: t =>
      match rsplit c t with
      | Some (a, b) => Some (x :: a, b)
      | None => if bool_decide (x = c) then Some ([], t) else None
      end
  end.

Lemma rsplit_None c l : rsplit c l = None <-> c ∉ l.
Proof.
  induction l as [|x t IH]; simpl; [set_solver|].
  destruct (rsplit c t) as [[a b]|].
  - split; [done|]. intros Hn. destruct IH as [_ IH]. discriminate IH. set_solver.
  - case_bool_decide; set_solver.
Qed.

Lemma rsplit_Some c l a b : rsplit c l = Some (a, b) <-> l = a ++ c :: b /\ c ∉ b.
Proof.
  revert a. induction l as [|x t IH]; intros a; simpl.
  - split; [done|]. intros [H _]. by destruct a.
  - destruct (rsplit c t) as [[a' b']|] eqn:E.
    + split.
      * intros [= <- <-]. destruct (IH a') as [IH' _]. destruct (IH' eq_refl) as [-> Hb]. done.
      * intros [Heq Hb]. destruct a as [|y a]; simplify_eq/=.
        -- exfalso. apply rsplit_None in Hb. congruence.
        -- destruct (IH a) as [_ IH']. specialize (IH' (conj eq_refl Hb)). by simplify_eq.
    + apply rsplit_None in E. case_bool_decide as Hx.
      * subst. split; [intros [= <- <-]; done|].
        intros [Heq Hb]. destruct a as [|y a]; simplify_eq/=; [done|]. set_solver.
      * split; [done|]. intros [Heq Hb]. destruct a as [|y a]; simplify_eq/=. set_solver.
Qed.

Fixpoint span (f : ascii -> bool) (l : list ascii) : list ascii * list ascii :=
  match l with
  | c :: t => if f c then let '(a, b) := span f t in (c :: a, b) else ([], l)
  | [] => ([], [])
  end.

(** [s.rfind(p, 0) == 0]. *)
Definition has_prefix (p s : string) : bool := String.prefix p s.

Lemma has_prefix_spec p s : has_prefix p s = true <-> exists t, s = p +:+ t.
Proof.
  unfold has_prefix. revert s. induction p as [|c p IH]; intros s; simpl.
  - split; [by exists s|by destruct s].
  - destruct s as [|d s]; [split; [done|by intros [t Ht]]|]. simpl.
    destruct (ascii_dec c d) as [->|Hne].
    + rewrite IH. split; intros [t Ht]; exists t; [by rewrite Ht|by injection Ht].
    + split; [done|]. intros [t [= -> _]]. done.
Qed.

(** [s.find(sub) != npos]. *)
Fixpoint contains (sub s : string) : bool :=
  has_prefix sub s || match s with EmptyString => false | String _ t => contains sub t end.

Lemma contains_spec sub s : contains sub s = true <-> exists a b, s = a +:+ sub +:+ b.
Proof.
  induction s as [|c s IH]; cbn [contains]; rewrite orb_true_iff, has_prefix_spec.
  - split; [intros [[t Ht]|]; [by exists "", t|done]|]. intros (a & b & Hab). left.
    destruct a; [by exists b|done].
  - rewrite IH. split.
    + intros [[t Ht]|(a & b & ->)]; [by exists "", t|by exists (String c a), b].
    + intros ([|d a] & b & Hab); [left; by exists b|right]. exists a, b. by injection Hab.
Qed.

(** The text after the last character that satisfies [f], or the whole text. *)
Fixpoint after_last (f : ascii -> bool) (s : string) : string :=
  match s with
  | EmptyString => EmptyString
  | String c t => if existsb f (chars t) then after_last f t else if f c then t else s
  end.

Lemma after_last_spec f s :
  Forall (fun c => f c = false) (chars (after_last f s)) /\
  (after_last f s = s \/ exists p c, f c = true /\ s = p +:+ String c (after_last f s)).
Proof.
  induction s as [|c s [IH1 IH2]]; [simpl; auto|]. cbn [after_last].
  destruct (existsb f (chars s)) eqn:E.
  - split; [done|]. destruct IH2 as [IH2|(p & d & Hd & IH2)].
    + exfalso. rewrite IH2 in IH1. apply existsb_exists in E as (x & Hx & Hf).
      rewrite Forall_forall in IH1. rewrite IH1 in Hf; [done|]. by apply list_elem_of_In.
    + right. exists (String c p), d. split; [done|]. by rewrite IH2 at 1.
  - assert (Forall (fun c => f c = false) (chars s)) as Hs.
    { apply Forall_forall. intros x Hx. destruct (f x) eqn:Hf; [|done].
      assert (existsb f (chars s) = true) as H; [|congruence].
      apply existsb_exists. exists x. by rewrite <- list_elem_of_In. }
    destruct (f c) eqn:Hc; (split; [simpl; auto|]); [right; by exists "", c|by left].
Qed.

(** [std::filesystem::path(p).filename()]. *)
Definition is_slash (c : ascii) : bool := bool_decide (c = "/"%char).
Definition filename (p : string) : string := after_last is_slash p.
(** [directory / name] for the name of a file. *)
Definition path_append (directory name : string) : string :=
  match last (chars directory) with
  | None => name
  | Some c => if is_slash c then directory +:+ name else directory +:+ "/" +:+ name
  end.

(** ** Numbers and case *)

Definition is_digit (c : ascii) : bool :=
  (48 <=? Z.of_N (N_of_ascii c)) && (Z.of_N (N_of_ascii c) <=? 57).
Definition digit_value (c : ascii) : Z := Z.of_N (N_of_ascii c) - 48.
Definition decimal (l : list ascii) : Z := fold_left (fun n c => 10 * n + digit_value c) l 0.

Lemma decimal_snoc l c : decimal (l ++ [c]) = 10 * decimal l + digit_value c.
Proof. unfold decimal. by rewrite fold_left_app. Qed.

Lemma pretty_digit n : (n < 10)%N ->
  is_digit (pretty_N_char n) = true /\ digit_value (pretty_N_char n) = Z.of_N n.
Proof.
  intros Hn. assert (n ∈ [0;1;2;3;4;5;6;7;8;9]%N) as Hin.
  { destruct n as [|p]; [set_solver|].
    do 10 (destruct p as [p|p|]; try lia; try set_solver). }
  repeat (apply elem_of_cons in Hin as [->|Hin]; [done|]). by apply elem_of_nil in Hin.
Qed.

Lemma pretty_N_go_chars (x : N) s :
  exists ds, chars (pretty_N_go x s) = ds ++ chars s /\
    Forall (fun c => is_digit c = true) ds /\ decimal ds = Z.of_N x /\ (x <> 0%N -> ds <> []).
Proof.
  revert s. induction (N.lt_wf_0 x) as [x _ IH]; intros s.
  destruct (decide (x = 0%N)) as [->|Hx].
  - exists []. rewrite pretty_N_go_0. split_and!; auto.
  - rewrite pretty_N_go_step by lia.
    destruct (IH (x `div` 10)%N ltac:(apply N.div_lt; lia)
      (String (pretty_N_char (x `mod` 10)) s)) as (ds & Hc & Hf & Hd & _).
    destruct (pretty_digit (x `mod` 10)%N) as [Hdig Hval]; [apply N.mod_lt; lia|].
    exists (ds ++ [pretty_N_char (x `mod` 10)]). split_and!.
    + rewrite Hc, <- app_assoc. done.
    + by apply Forall_app_2; [|apply Forall_singleton].
    + rewrite decimal_snoc, Hd, Hval. pose proof (N.div_mod x 10 ltac:(lia)). lia.
    + intros _. by destruct ds.
Qed.

Lemma pretty_N_chars (x : N) :
  Forall (fun c => is_digit c = true) (chars (pretty x)) /\
  decimal (chars (pretty x)) = Z.of_N x /\ chars (pretty x) <> [].
Proof.
  unfold pretty, pretty_N. case_decide as Hx.
  - subst. simpl. split_and!; [|done|done]. by repeat constructor.
  - destruct (pretty_N_go_chars x "") as (ds & Hc & Hf & Hd & Hne). simpl in Hc.
    rewrite app_nil_r in Hc. rewrite Hc. auto.
Qed.

(** A text of [w] digits is a number below [10 ^ w], and conversely. *)
Lemma decimal_bound l : Forall (fun c => is_digit c = true) l -> 0 <= decimal l < 10 ^ Z.of_nat (length l).
Proof.
  induction l as [|c l IH] using rev_ind; [simpl; unfold decimal; simpl; lia|].
  intros [Hl [Hc _]%Forall_cons]%Forall_app. specialize (IH Hl). rewrite decimal_snoc, length_app; simpl.
  rewrite Nat2Z.inj_add, Z.pow_add_r by lia. unfold is_digit in Hc.
  apply andb_true_iff in Hc as [H1%Z.leb_le H2%Z.leb_le]. unfold digit_value.
  change (10 ^ Z.of_nat 1) with 10. nia.
Qed.

Lemma pretty_N_go_length (x : N) s w : Z.of_N x < 10 ^ Z.of_nat w ->
  (length (chars (pretty_N_go x s)) <= w + length (chars s))%nat.
Proof.
  revert s w. induction (N.lt_wf_0 x) as [x _ IH]; intros s w Hx.
  destruct (decide (x = 0%N)) as [->|Hx0]; [rewrite pretty_N_go_0; lia|].
  rewrite pretty_N_go_step by lia. destruct w as [|w]; [simpl in Hx; lia|].
  rewrite Nat2Z.inj_succ, Z.pow_succ_r in Hx by lia.
  assert (Z.of_N (x `div` 10) < 10 ^ Z.of_nat w) as Hd.
  { rewrite N2Z.inj_div. apply Z.div_lt_upper_bound; simpl; lia. }
  pose proof (IH (x `div` 10)%N ltac:(apply N.div_lt; lia) (String (pretty_N_char (x `mod` 10)) s) w Hd) as Hl.
  simpl in Hl. lia.
Qed.

(** [std::setw(w)] with [std::setfill('0')]. *)
Definition pad (w : nat) (z : Z) : string :=
  of_chars (replicate (w - length (chars (pretty z))) "0"%char) +:+ pretty z.

Lemma decimal_zeros n l : decimal (replicate n "0"%char ++ l) = decimal l.
Proof. unfold decimal. rewrite fold_left_app. f_equal. by induction n. Qed.

Lemma pretty_Z_digits z : 0 <= z ->
  Forall (fun c => is_digit c = true) (chars (pretty z)) /\ decimal (chars (pretty z)) = z.
Proof.
  intros Hz. destruct z as [|p|p]; [|change (pretty (Z.pos p)) with (pretty (N.pos p))|lia].
  - change (pretty 0) with (pretty 0%N). destruct (pretty_N_chars 0) as (? & ? & _). done.
  - destruct (pretty_N_chars (N.pos p)) as (? & ? & _). done.
Qed.

Lemma pretty_Z_length z w : (0 < w)%nat -> 0 <= z < 10 ^ Z.of_nat w -> (length (chars (pretty z)) <= w)%nat.
Proof.
  intros Hw Hz. destruct z as [|p|p]; [simpl; lia|change (pretty (Z.pos p)) with (pretty (N.pos p))|lia].
  unfold pretty, pretty_N. rewrite decide_False by lia.
  pose proof (pretty_N_go_length (N.pos p) "" w). simpl in *. lia.
Qed.

Lemma pad_spec w z : (0 < w)%nat -> 0 <= z < 10 ^ Z.of_nat w ->
  length (chars (pad w z)) = w /\ decimal (chars (pad w z)) = z.
Proof.
  intros Hw Hz. unfold pad. rewrite chars_app, chars_of_chars, decimal_zeros, length_app, length_replicate.
  pose proof (pretty_Z_length z w Hw Hz). destruct (pretty_Z_digits z) as [_ Hd]; [lia|]. split; [lia|done].
Qed.

(** Without padding when the number is wide enough. *)
Lemma pretty_width w z : 10 ^ Z.of_nat w <= z < 10 ^ Z.of_nat (S w) -> length (chars (pretty z)) = S w.
Proof.
  intros Hz. pose proof (Z.pow_nonneg 10 (Z.of_nat w)).
  pose proof (pretty_Z_length z (S w) ltac:(lia) ltac:(lia)).
  destruct (pretty_Z_digits z) as [Hf Hd]; [lia|]. pose proof (decimal_bound _ Hf) as Hb. rewrite Hd in Hb.
  destruct (decide (length (chars (pretty z)) <= w)%nat) as [Hle|]; [|lia].
  assert (10 ^ Z.of_nat (length (chars (pretty z))) <= 10 ^ Z.of_nat w) by (apply Z.pow_le_mono_r; lia). lia.
Qed.

(** [std::tolower] in the C locale. *)
Definition lower (c : ascii) : ascii :=
  let n := N_of_ascii c in
  if ((65 <=? n) && (n <=? 90))%N then ascii_of_N (n + 32) else c.
Fixpoint to_lower (s : string) : string :=
  match s with EmptyString => "" | String c s => String (lower c) (to_lower s) end.

Lemma lower_idem c : lower (lower c) = lower c.
Proof. destruct c as [[] [] [] [] [] [] [] []]; reflexivity. Qed.
Lemma to_lower_idem s : to_lower (to_lower s) = to_lower s.
Proof. induction s as [|c s IH]; simpl; [done|]. by rewrite lower_idem, IH. Qed.

(** ** Sorted lists without duplicates *)

Section unique.
Context {A : Type} (eqb : A -> A -> bool).

(** [std::unique]: of every run of equal elements the first one stays. *)
Fixpoint unique_from (x : A) (l : list A) : list A :=
  match l with
  | [] => []
  | y :: t => if eqb x y then unique_from x t else y :: unique_from y t
  end.
Definition unique (l : list A) : list A :=
  match l with [] => [] | x :: t => x :: unique_from x t end.

Lemma unique_from_sublist x l : unique_from x l `sublist_of` l.
Proof.
  revert x. induction l as [|y t IH]; intros x; simpl; [done|].
  destruct (eqb x y); [by apply sublist_cons|by apply sublist_skip].
Qed.
Lemma unique_sublist l : unique l `sublist_of` l.
Proof. destruct l; simpl; [done|]. apply sublist_skip, unique_from_sublist. Qed.
End unique.

(** Names: [std::sort] and the removal of the duplicates. *)
Definition sort_unique (l : list string) : list string :=
  unique (fun a b => bool_decide (a = b)) (merge_sort String.le l).

(** The strict order of strings. *)
Definition string_lt (a b : string) : Prop := String.le a b /\ a <> b.

Lemma string_lt_trans a b c : String.le a b -> string_lt b c -> string_lt a c.
Proof.
  intros Hab [Hbc Hne]. split; [by transitivity b|]. intros ->. apply Hne.
  by apply (anti_symm String.le).
Qed.

Section unique_key.
Context {A : Type} (key : A -> string).
Let same (a b : A) : bool := bool_decide (key a = key b).
Let le (a b : A) : Prop := String.le (key a) (key b).

Lemma unique_from_sorted x l : StronglySorted le (x :: l) ->
  StronglySorted (fun a b => string_lt (key a) (key b)) (x :: unique_from same x l).
Proof.
  revert x. induction l as [|y t IH]; intros x Hs; simpl; [by repeat constructor|].
  apply StronglySorted_inv in Hs as [Hs Hx]. apply Forall_cons in Hx as [Hxy Hx].
  unfold same at 1. case_bool_decide as Heq.
  - apply IH. constructor; [by apply StronglySorted_inv in Hs as [Hs _]|done].
  - pose proof (IH y Hs) as H. constructor; [done|].
    apply StronglySorted_inv in H as [_ Hy]. constructor; [done|].
    eapply Forall_impl; [exact Hy|]. intros z Hz. by apply (string_lt_trans _ (key y)).
Qed.

Lemma unique_sorted l : StronglySorted le l ->
  StronglySorted (fun a b => string_lt (key a) (key b)) (unique same l).
Proof. destruct l; simpl; [constructor|]. apply unique_from_sorted. Qed.

(** No key is lost. *)
Lemma unique_from_keys x l y : y ∈ l -> key y = key x \/ key y ∈ key <$> unique_from same x l.
Proof.
  revert x. induction l as [|z t IH]; intros x; simpl; [by intros ?%elem_of_nil|].
  unfold same at 1. intros [->|Hy]%elem_of_cons.
  - case_bool_decide as E; [by left|right]. rewrite fmap_cons. apply list_elem_of_here.
  - case_bool_decide as E; [by apply IH|]. right. rewrite fmap_cons.
    destruct (IH z Hy) as [->|H]; [apply list_elem_of_here|by apply list_elem_of_further].
Qed.
Lemma unique_keys l y : y ∈ l -> key y ∈ key <$> unique same l.
Proof.
  destruct l as [|x t]; [by intros ?%elem_of_nil|]. intros [->|Hy]%elem_of_cons; simpl.
  - apply list_elem_of_here.
  - destruct (unique_from_keys x t y Hy) as [->|H]; [apply list_elem_of_here|by apply list_elem_of_further].
Qed.
End unique_key.

Lemma string_lt_NoDup {A} (key : A -> string) l :
  StronglySorted (fun a b => string_lt (key a) (key b)) l -> NoDup (key <$> l).
Proof.
  induction 1 as [|x l _ IH Hx]; [constructor|]. rewrite fmap_cons. constructor; [|done].
  intros (y & Hy & Hin)%list_elem_of_fmap. rewrite Forall_forall in Hx. destruct (Hx y Hin) as [_ Hne].
  congruence.
Qed.

Lemma sort_unique_elem l x : x ∈ sort_unique l <-> x ∈ l.
Proof.
  unfold sort_unique. rewrite <- (merge_sort_Permutation String.le l) at 2. split.
  - intros Hx. eapply sublist_subseteq; [|exact Hx]. apply unique_sublist.
  - intros Hx. apply (unique_keys (fun x => x)) in Hx. by rewrite list_fmap_id in Hx.
Qed.

Lemma sort_unique_sorted l : StronglySorted string_lt (sort_unique l).
Proof. apply (unique_sorted (fun x => x)). apply StronglySorted_merge_sort; apply _. Qed.

Lemma string_lt_le l : StronglySorted string_lt l -> StronglySorted String.le l.
Proof.
  induction 1 as [|x l _ IH Hx]; constructor; [done|]. eapply Forall_impl; [exact Hx|]. by intros a [].
Qed.

(** A strictly sorted list is determined by its elements. *)
Lemma sort_unique_ext l k : (forall x, x ∈ l <-> x ∈ k) -> sort_unique l = sort_unique k.
Proof.
  intros H. assert (forall l, NoDup (sort_unique l)) as Hnd.
  { intros l'. rewrite <- (list_fmap_id (sort_unique l')). apply (string_lt_NoDup (fun x => x)), sort_unique_sorted. }
  apply (StronglySorted_unique String.le).
  - apply string_lt_le, sort_unique_sorted.
  - apply string_lt_le, sort_unique_sorted.
  - apply NoDup_Permutation; [done..|]. intros x. by rewrite !sort_unique_elem.
Qed.
