(* ===== verification/Status.v ===== *)
(** * Status codes and results

    [include/rkavp/status.hpp]: the error type every operation of the framework
    returns.  [Res] is the model of an operation that returns a [Status] and
    writes its result through an output pointer: the value is there exactly
    when the status is ok. *)

From S2P Require Import Prelude.

(* [include/rkavp/status.hpp:8-17] StatusCode *)
Inductive StatusCode :=
| kOk
| kInvalidArgument
| kNotFound
| kAlreadyExists
| kFailedPrecondition
| kUnavailable
| kInternal
| kCancelled.

#[export] Instance StatusCode_eq_dec : EqDecision StatusCode.
Proof. solve_decision. Defined.

(* [include/rkavp/status.hpp:19-55] Status *)
Record Status := mkStatus { code : StatusCode; message : string }.

#[export] Instance Status_eq_dec : EqDecision Status.
Proof. solve_decision. Defined.

(* [include/rkavp/status.hpp:24-24] Status::Ok *)
Definition Ok : Status := mkStatus kOk "".
(* [include/rkavp/status.hpp:25-27] Status::Invalid *)
Definition Invalid (m : string) : Status := mkStatus kInvalidArgument m.
(* [include/rkavp/status.hpp:28-30] Status::NotFound *)
Definition NotFound (m : string) : Status := mkStatus kNotFound m.
(* [include/rkavp/status.hpp:31-33] Status::AlreadyExists *)
Definition AlreadyExists (m : string) : Status := mkStatus kAlreadyExists m.
(* [include/rkavp/status.hpp:34-36] Status::FailedPrecondition *)
Definition FailedPrecondition (m : string) : Status := mkStatus kFailedPrecondition m.
(* [include/rkavp/status.hpp:37-39] Status::Internal *)
Definition Internal (m : string) : Status := mkStatus kInternal m.
(* [include/rkavp/status.hpp:40-42] Status::Cancelled *)
Definition Cancelled (m : string) : Status := mkStatus kCancelled m.
(* [include/rkavp/status.hpp:43-45] Status::Unavailable *)
Definition Unavailable (m : string) : Status := mkStatus kUnavailable m.

(* [include/rkavp/status.hpp:47-47] Status::ok *)
Definition ok (s : Status) : bool := bool_decide (code s = kOk).

Lemma ok_Ok : ok Ok = true.
Proof. reflexivity. Qed.

Lemma ok_code s : ok s = true <-> code s = kOk.
Proof. unfold ok. apply bool_decide_eq_true. Qed.

(** ** Fallible computations *)

Inductive Res (A : Type) :=
| Okay (a : A)
| Err (s : Status).
Arguments Okay {A} _.
Arguments Err {A} _.

Definition res_bind {A B} (r : Res A) (f : A -> Res B) : Res B :=
  match r with Okay a => f a | Err s => Err s end.

Definition res_status {A} (r : Res A) : Status :=
  match r with Okay _ => Ok | Err s => s end.

Definition guard_res (b : bool) (s : Status) : Res unit :=
  if b then Okay tt else Err s.

Notation "x <-? r ; k" := (res_bind r (fun x => k))
  (at level 100, r at next level, right associativity) : rkavp_scope.
Notation "'require' b 'else' s ; k" := (if b then k else Err s)
  (at level 100, b at next level, s at next level, right associativity) : rkavp_scope.

Lemma res_bind_Okay {A B} (r : Res A) (f : A -> Res B) b :
  res_bind r f = Okay b <-> exists a, r = Okay a /\ f a = Okay b.
Proof. destruct r; naive_solver. Qed.

(** A left-to-right traversal that stops at the first error, the shape of the
    loader's and the validator's loops. *)
Fixpoint res_fold {A B} (f : B -> A -> Res B) (l : list A) (b : B) : Res B :=
  match l with
  | [] => Okay b
  | a :: l' => res_bind (f b a) (res_fold f l')
  end.

Lemma res_fold_app {A B} (f : B -> A -> Res B) l k b :
  res_fold f (l ++ k) b = res_bind (res_fold f l b) (res_fold f k).
Proof. revert b. induction l; intros; simpl; [done|]. destruct (f b a); simpl; auto. Qed.

(** An invariant of every step is an invariant of the traversal. *)
Lemma res_fold_ind {A B} (f : B -> A -> Res B) (P : B -> Prop) l b b' :
  (forall x y y', x ∈ l -> P y -> f y x = Okay y' -> P y') ->
  P b -> res_fold f l b = Okay b' -> P b'.
Proof.
  revert b. induction l as [|a l IH]; intros b Hf Hb; simpl.
  - by intros [= ->].
  - rewrite res_bind_Okay. intros (y & Hy & Hl).
    eapply IH; [|eapply Hf; [| |exact Hy]|exact Hl]; try set_solver.
Qed.

(** The same with the processed prefix in view. *)
Lemma res_fold_prefix_ind {A B} (f : B -> A -> Res B) (P : list A -> B -> Prop) l b b' :
  (forall k x y y', k ++ [x] `prefix_of` l -> P k y -> f y x = Okay y' -> P (k ++ [x]) y') ->
  P [] b -> res_fold f l b = Okay b' -> P l b'.
Proof.
  intros Hf. induction l as [|a l IH] using rev_ind in b', Hf |- *; intros Hb.
  - by intros [= ->].
  - rewrite res_fold_app, res_bind_Okay. intros (y & Hy & Hl).
    simpl in Hl. rewrite res_bind_Okay in Hl. destruct Hl as (z & Hz & [= ->]).
    eapply Hf; [done| |exact Hz].
    eapply IH; [|done|done]. intros k x u u' Hpre. apply Hf. by apply prefix_app_r.
Qed.
