(* ===== verification/Timestamp.v ===== *)
(** * Timestamps

    [include/rkavp/timestamp.hpp]: microsecond timestamps with the two
    reserved values [Unset] and [Done] at the ends of the 64-bit range. *)

From S2P Require Import Prelude.

(* [include/rkavp/timestamp.hpp:58-60] Timestamp (fields) *)
Record Timestamp := mkTs { microseconds : Z }.

#[export] Instance Timestamp_eq_dec : EqDecision Timestamp.
Proof. solve_decision. Defined.

(* [include/rkavp/timestamp.hpp:18-18] Timestamp::kUnsetValue *)
Definition kUnsetValue : Z := int64_min.
(* [include/rkavp/timestamp.hpp:19-19] Timestamp::kDoneValue *)
Definition kDoneValue : Z := int64_max.
(* [include/rkavp/timestamp.hpp:24-24] Timestamp::Unset *)
Definition Unset : Timestamp := mkTs kUnsetValue.
(* [include/rkavp/timestamp.hpp:25-25] Timestamp::Done *)
Definition Done : Timestamp := mkTs kDoneValue.
(* [include/rkavp/timestamp.hpp:26-26] Timestamp::FromMicroseconds *)
Definition FromMicroseconds (v : Z) : Timestamp := mkTs v.
(* [include/rkavp/timestamp.hpp:40-40] Timestamp::is_unset *)
Definition is_unset (t : Timestamp) : bool := microseconds t =? kUnsetValue.
(* [include/rkavp/timestamp.hpp:41-41] Timestamp::is_done *)
Definition is_done (t : Timestamp) : bool := microseconds t =? kDoneValue.
(* [include/rkavp/timestamp.hpp:42-42] Timestamp::is_range_value *)
Definition is_range_value (t : Timestamp) : bool := negb (is_unset t) && negb (is_done t).
(* [include/rkavp/timestamp.hpp:45-47] operator== *)
Definition ts_eqb (a b : Timestamp) : bool := microseconds a =? microseconds b.
(* [include/rkavp/timestamp.hpp:49-51] operator< *)
Definition ts_ltb (a b : Timestamp) : bool := microseconds a <? microseconds b.
(* [include/rkavp/timestamp.hpp:52-54] operator<= *)
Definition ts_leb (a b : Timestamp) : bool := microseconds a <=? microseconds b.

(** The order of timestamps as a relation, for statements. *)
Definition ts_le (a b : Timestamp) : Prop := microseconds a <= microseconds b.
Definition ts_lt (a b : Timestamp) : Prop := microseconds a < microseconds b.

Lemma ts_ltb_lt a b : ts_ltb a b = true <-> ts_lt a b.
Proof. apply Z.ltb_lt. Qed.
Lemma ts_ltb_ge a b : ts_ltb a b = false <-> ts_le b a.
Proof. apply Z.ltb_ge. Qed.
Lemma ts_leb_le a b : ts_leb a b = true <-> ts_le a b.
Proof. apply Z.leb_le. Qed.

#[export] Instance ts_le_preorder : PreOrder ts_le.
Proof. split; unfold ts_le; [intros ?|intros ???]; lia. Qed.

#[export] Instance ts_le_dec : RelDecision ts_le.
Proof. intros a b. unfold ts_le. apply _. Defined.
#[export] Instance ts_lt_dec : RelDecision ts_lt.
Proof. intros a b. unfold ts_lt. apply _. Defined.

Lemma is_unset_spec t : is_unset t = true <-> t = Unset.
Proof. destruct t. unfold is_unset, Unset. simpl. rewrite Z.eqb_eq. naive_solver. Qed.
Lemma is_done_spec t : is_done t = true <-> t = Done.
Proof. destruct t. unfold is_done, Done. simpl. rewrite Z.eqb_eq. naive_solver. Qed.
