(* ===== verification/TimeBase.v ===== *)
(** * Time bases

    [include/rkavp/timestamp.hpp]: ticks of a stream's time base as microseconds.  The code
    computes in [long double], whose significand has 113 bits on 64-bit ARM and 64 bits on x86;
    the model takes the number of bits as a parameter.  The values that occur lie between
    [2^-63] and [2^147] and so far from the ends of the range of exponents of either format
    that only the rounding of the significand matters. *)

From S2P Require Import Prelude Timestamp.

(** ** Arithmetic with rounded significands *)

(** A finite [long double] as a fraction with a positive denominator. *)
Record LongDouble := mkLong { num : Z; den : Z }.

(** The integer nearest to [n / d], ties to the even one. *)
Definition nearest (n d : Z) : Z :=
  let q := n / d in
  let r := n mod d in
  if 2 * r <? d then q else if d <? 2 * r then q + 1 else if Z.even q then q else q + 1.

(** [2^e] as a fraction. *)
Definition up (e : Z) : Z := 2 ^ Z.max 0 e.
Definition down (e : Z) : Z := 2 ^ Z.max 0 (- e).

(** The exponent of the last bit of a significand of [p] bits for [a / d]. *)
Definition last_bit (p a d : Z) : Z :=
  let e := Z.log2 a - Z.log2 d - p in
  if a * down (e + p) <? d * up (e + p) then e else e + 1.

Definition round (p n d : Z) : LongDouble :=
  if n =? 0 then mkLong 0 1
  else let e := last_bit p (Z.abs n) d in
       mkLong (Z.sgn n * nearest (Z.abs n * down e) (d * up e) * up e) (down e).

Definition of_int (p z : Z) : LongDouble := round p z 1.
Definition lmul (p : Z) (x y : LongDouble) : LongDouble := round p (num x * num y) (den x * den y).
(** The quotient by a positive number. *)
Definition ldiv (p : Z) (x y : LongDouble) : LongDouble := round p (num x * den y) (den x * num y).
Definition lgt (x y : LongDouble) : bool := num y * den x <? num x * den y.
(** The conversion to an integer type drops the fraction. *)
Definition to_int (x : LongDouble) : Z := Z.quot (num x) (den x).

(** ** The code *)

(* [include/rkavp/timestamp.hpp:9-14] TimeBase *)
Record TimeBase := mkTimeBase { numerator : Z; denominator : Z }.
Definition default_time_base : TimeBase := mkTimeBase 1 1000000.
(* [include/rkavp/timestamp.hpp:13-13] TimeBase::valid *)
Definition valid (tb : TimeBase) : bool := (0 <? numerator tb) && (0 <? denominator tb).

Inductive Exception := invalid_argument (what : string) | overflow_error (what : string).

(* [include/rkavp/timestamp.hpp:27-38] Timestamp::FromTicks *)
Definition FromTicks (p ticks : Z) (time_base : TimeBase) : Exception + Timestamp :=
  if negb (valid time_base) then inl (invalid_argument "invalid time base")
  else
    let us := ldiv p (lmul p (lmul p (of_int p ticks) (of_int p (numerator time_base))) (of_int p 1000000))
                     (of_int p (denominator time_base)) in
    if lgt us (of_int p (kDoneValue - 1)) || lgt (of_int p (kUnsetValue + 1)) us
    then inl (overflow_error "timestamp conversion overflow")
    else inr (mkTs (to_int us)).

(** ** Rounding *)

Lemma up_down_pos e : 0 < up e /\ 0 < down e.
Proof. unfold up, down. split; apply Z.pow_pos_nonneg; lia. Qed.

Lemma up_down_cases e : (0 <= e /\ up e = 2 ^ e /\ down e = 1) \/ (e < 0 /\ up e = 1 /\ down e = 2 ^ (- e)).
Proof.
  unfold up, down. destruct (decide (0 <= e)).
  - left. rewrite Z.max_r, Z.max_l by lia. done.
  - right. rewrite Z.max_l, Z.max_r by lia. split_and!; [lia|done|done].
Qed.

Lemma nearest_spec n d : 0 < d -> 2 * Z.abs (nearest n d * d - n) <= d.
Proof.
  intros Hd. unfold nearest. pose proof (Z.div_mod n d ltac:(lia)). pose proof (Z.mod_pos_bound n d Hd).
  repeat case_match; rewrite ?Z.ltb_lt, ?Z.ltb_ge in *; nia.
Qed.

Lemma nearest_exact k d : 0 < d -> nearest (k * d) d = k.
Proof.
  intros Hd. unfold nearest. rewrite Z.div_mul, Z.mod_mul by lia.
  by rewrite (proj2 (Z.ltb_lt (2 * 0) d)) by lia.
Qed.

(** [up] and [down] turn an inequality between powers of two into one between integers. *)
Lemma up_down_shift e k : 0 <= k -> up (e + k) * down e = 2 ^ k * up e * down (e + k).
Proof.
  intros Hk. destruct (up_down_cases e) as [(H1&->&->)|(H1&->&->)],
    (up_down_cases (e + k)) as [(H2&->&->)|(H2&->&->)]; try lia.
  - rewrite Z.pow_add_r by lia. lia.
  - rewrite Z.mul_1_r, Z.mul_1_r, <- Z.pow_add_r by lia. f_equal. lia.
  - rewrite Z.mul_1_l, Z.mul_1_r, <- Z.pow_add_r by lia. f_equal. lia.
Qed.

Lemma below_power a d x y : 0 <= x -> 0 <= y -> a < 2 ^ x -> 2 ^ y <= d ->
  a * down (x - y) < d * up (x - y).
Proof.
  intros Hx Hy Ha Hd. destruct (up_down_cases (x - y)) as [(H1&->&->)|(H1&->&->)].
  - assert (2 ^ x = 2 ^ y * 2 ^ (x - y)) as E by (rewrite <- Z.pow_add_r by lia; f_equal; lia). nia.
  - assert (2 ^ y = 2 ^ x * 2 ^ (- (x - y))) as E by (rewrite <- Z.pow_add_r by lia; f_equal; lia). nia.
Qed.

Lemma above_power a d x y : 0 <= x -> 0 <= y -> 2 ^ x <= a -> d < 2 ^ y ->
  d * up (x - y) < a * down (x - y).
Proof.
  intros Hx Hy Ha Hd. destruct (up_down_cases (x - y)) as [(H1&->&->)|(H1&->&->)].
  - assert (2 ^ x = 2 ^ y * 2 ^ (x - y)) as E by (rewrite <- Z.pow_add_r by lia; f_equal; lia). nia.
  - assert (2 ^ y = 2 ^ x * 2 ^ (- (x - y))) as E by (rewrite <- Z.pow_add_r by lia; f_equal; lia). nia.
Qed.

(** The significand has [p] bits. *)
Lemma last_bit_spec p a d : 0 < a -> 0 < d ->
  let e := last_bit p a d in
  d * up (e + (p - 1)) <= a * down (e + (p - 1)) /\ a * down (e + p) < d * up (e + p).
Proof.
  intros Ha Hd. simpl. unfold last_bit.
  pose proof (Z.log2_spec a Ha) as [A1 A2]. pose proof (Z.log2_spec d Hd) as [D1 D2].
  pose proof (Z.log2_nonneg a). pose proof (Z.log2_nonneg d).
  destruct (_ <? _) eqn:E; [apply Z.ltb_lt in E; split; [|exact E]|apply Z.ltb_ge in E; split].
  - replace (_ + (p - 1)) with (Z.log2 a - Z.succ (Z.log2 d)) by lia.
    apply Z.lt_le_incl, above_power; lia.
  - by replace (_ + 1 + (p - 1)) with (Z.log2 a - Z.log2 d - p + p) by lia.
  - replace (_ + 1 + p) with (Z.succ (Z.log2 a) - Z.log2 d) by lia. apply below_power; lia.
Qed.

Lemma round_den p n d : 0 < den (round p n d).
Proof. unfold round. destruct (n =? 0); [done|]. apply up_down_pos. Qed.

(** The relative error is at most half a unit of the last bit. *)
Lemma round_error p n d : 0 < p -> 0 < d ->
  Z.abs (num (round p n d) * d - n * den (round p n d)) * 2 ^ p <= Z.abs n * den (round p n d).
Proof.
  intros Hp Hd. unfold round. destruct (n =? 0) eqn:En; [apply Z.eqb_eq in En; subst; simpl; lia|].
  apply Z.eqb_neq in En. simpl. set (a := Z.abs n). assert (0 < a) as Ha by lia.
  destruct (last_bit_spec p a d Ha Hd) as [Hlow _]. set (e := last_bit p a d) in *.
  pose proof (up_down_shift e (p - 1) ltac:(lia)) as Hs.
  destruct (up_down_pos e) as [U D]. destruct (up_down_pos (e + (p - 1))) as [U' D'].
  pose proof (nearest_spec (a * down e) (d * up e) ltac:(nia)) as Hn.
  set (m := nearest _ _) in *.
  assert (Z.abs (Z.sgn n * m * up e * d - n * down e) = Z.abs (m * (d * up e) - a * down e)) as -> by lia.
  assert (2 ^ p = 2 * 2 ^ (p - 1)) as -> by (rewrite <- Z.pow_succ_r by lia; f_equal; lia).
  assert (2 ^ (p - 1) * (d * up e) <= a * down e) as Hk; [|nia].
  apply (Z.mul_le_mono_pos_r _ _ (down (e + (p - 1))) D'). nia.
Qed.

(** Integers of at most [p] bits are not changed. *)
Lemma round_exact p k d : 0 < p -> 0 < d -> Z.abs k < 2 ^ p ->
  num (round p (k * d) d) = k * den (round p (k * d) d).
Proof.
  intros Hp Hd Hk. unfold round. destruct (k * d =? 0) eqn:En; [apply Z.eqb_eq in En; simpl; nia|].
  apply Z.eqb_neq in En. simpl. rewrite Z.abs_mul, (Z.abs_eq d) by lia.
  set (a := Z.abs k) in *. assert (0 < a) as Ha by (unfold a; nia).
  destruct (last_bit_spec p (a * d) d ltac:(nia) Hd) as [Hlow _]. set (e := last_bit p (a * d) d) in *.
  assert (e <= 0) as He.
  { destruct (decide (e <= 0)); [done|exfalso].
    destruct (up_down_cases (e + (p - 1))) as [(_&E1&E2)|(?&_)]; [|lia]. rewrite E1, E2 in Hlow.
    assert (2 ^ p <= 2 ^ (e + (p - 1))) by (apply Z.pow_le_mono_r; lia). nia. }
  assert (up e = 1) as -> by (unfold up; by rewrite Z.max_l).
  replace (a * d * down e) with (a * down e * (d * 1)) by lia. rewrite nearest_exact by lia.
  rewrite Z.sgn_mul, (Z.sgn_pos d) by lia. unfold a. rewrite Z.mul_1_r, Z.mul_1_r, Z.mul_assoc.
  by rewrite (Z.mul_comm (Z.sgn k)), Z.abs_sgn.
Qed.

(** ** The conversion *)

Definition is_int (x : LongDouble) (k : Z) : Prop := 0 < den x /\ num x = k * den x.

Lemma of_int_exact p k : 0 < p -> Z.abs k < 2 ^ p -> is_int (of_int p k) k.
Proof.
  intros Hp Hk. split; [apply round_den|].
  pose proof (round_exact p k 1 Hp ltac:(lia) Hk) as E. by rewrite Z.mul_1_r in E.
Qed.

Lemma lmul_exact p x y a b : 0 < p -> is_int x a -> is_int y b -> Z.abs (a * b) < 2 ^ p ->
  is_int (lmul p x y) (a * b).
Proof.
  intros Hp [Dx Nx] [Dy Ny] Hab. split; [apply round_den|]. unfold lmul.
  replace (num x * num y) with (a * b * (den x * den y)) by (rewrite Nx, Ny; ring).
  apply round_exact; [done|nia|done].
Qed.

(** [x] is on the same side of every integer as [n / d]. *)
Definition same_side (x : LongDouble) (n d : Z) : Prop :=
  forall k, (k * den x < num x <-> k * d < n) /\ (num x < k * den x <-> n < k * d).

Lemma ldiv_same_side p x y n d : 0 < p -> is_int x n -> is_int y d -> 0 < d -> Z.abs n < 2 ^ p ->
  0 < den (ldiv p x y) /\ same_side (ldiv p x y) n d.
Proof.
  intros Hp [Dx Nx] [Dy Ny] Hd Hn. split; [apply round_den|].
  set (c := den x * den y). assert (0 < c) as Hc by (unfold c; nia).
  assert (ldiv p x y = round p (n * c) (d * c)) as -> by (unfold ldiv, c; f_equal; nia).
  pose proof (round_den p (n * c) (d * c)) as HD.
  pose proof (round_error p (n * c) (d * c) Hp ltac:(nia)) as He.
  pose proof (fun k => round_exact p k (d * c) Hp ltac:(nia)) as Hx.
  set (q := round p (n * c) (d * c)) in *.
  assert (Z.abs (num q * d - n * den q) < den q) as Hnear.
  { apply (Z.mul_lt_mono_pos_r (c * 2 ^ p)); [nia|].
    replace (num q * (d * c) - n * c * den q) with ((num q * d - n * den q) * c) in He by ring.
    rewrite !Z.abs_mul, (Z.abs_eq c) in He by lia. nia. }
  intros k. destruct (Z.lt_trichotomy n (k * d)) as [Hlt|[Heq|Hgt]].
  - assert (num q < k * den q) by nia. lia.
  - assert (num q = k * den q); [|lia]. subst n. unfold q.
    rewrite <- Z.mul_assoc. apply Hx. nia.
  - assert (k * den q < num q) by nia. lia.
Qed.

Lemma same_side_quot x n d : 0 < den x -> 0 < d -> same_side x n d -> to_int x = Z.quot n d.
Proof.
  intros Hx Hd Hs. unfold to_int. set (k := Z.quot n d).
  pose proof (Z.quot_rem' n d) as E. fold k in E.
  destruct (decide (0 <= n)) as [Hn|Hn].
  - pose proof (Z.rem_bound_pos n d Hn Hd). symmetry.
    apply (Z.quot_unique (num x) (den x) k (num x - k * den x)); [| |lia].
    + destruct (Hs 0). lia.
    + destruct (Hs k), (Hs (k + 1)). split; nia.
  - pose proof (Z.rem_bound_pos_neg n d Hd ltac:(lia)).
    assert (num x < 0) by (destruct (Hs 0); lia). apply Z.opp_inj. rewrite <- Z.quot_opp_l by lia. symmetry.
    apply (Z.quot_unique (- num x) (den x) (- k) (- num x + k * den x)); [lia| |lia].
    destruct (Hs k), (Hs (k - 1)). split; nia.
Qed.

Lemma lgt_int x y k : is_int y k -> lgt x y = (k * den x <? num x).
Proof.
  intros [Dy Ny]. unfold lgt. rewrite Ny. apply eq_true_iff_eq. rewrite !Z.ltb_lt. nia.
Qed.
Lemma int_lgt x y k : is_int x k -> lgt x y = (num y <? k * den y).
Proof.
  intros [Dx Nx]. unfold lgt. rewrite Nx. apply eq_true_iff_eq. rewrite !Z.ltb_lt. nia.
Qed.

Definition ticks_ok (p ticks : Z) (tb : TimeBase) : Prop :=
  64 <= p /\ is_i64 ticks /\ is_i64 (numerator tb) /\ is_i64 (denominator tb).

Lemma i64_bits p z : 64 <= p -> is_i64 z -> Z.abs z < 2 ^ p.
Proof.
  intros Hp Hz. assert (2 ^ 64 <= 2 ^ p) by (apply Z.pow_le_mono_r; lia). widths. lia.
Qed.

(** C14: Ticks of a stream become microseconds.  An invalid time base is refused.  A conversion that
    succeeds never yields one of the two reserved timestamps.  And as long as
    [ticks * numerator * 1000000] fits into the significand, although the code divides in floating
    point the result is exact: the quotient in microseconds, cut off towards zero, if it lies strictly
    between the reserved values, and an overflow error otherwise. *)
Theorem from_ticks_exact p ticks tb : ticks_ok p ticks tb ->
  let n := ticks * numerator tb * 1000000 in
  let d := denominator tb in
  (valid tb = false -> FromTicks p ticks tb = inl (invalid_argument "invalid time base")) /\
  (forall t, FromTicks p ticks tb = inr t -> is_range_value t = true) /\
  (valid tb = true -> Z.abs n < 2 ^ p -> FromTicks p ticks tb =
     if decide ((kUnsetValue + 1) * d <= n <= (kDoneValue - 1) * d) then inr (mkTs (Z.quot n d))
     else inl (overflow_error "timestamp conversion overflow")).
Proof.
  intros (Hp & Ht & Hnum & Hden). cbv zeta. unfold FromTicks.
  destruct (valid tb) eqn:Hv; cbn [negb]; [|by split_and!].
  assert (is_int (of_int p (kDoneValue - 1)) (kDoneValue - 1)) as Hmax
    by (apply of_int_exact; [lia|]; apply i64_bits; [done|]; unfold kDoneValue; widths; lia).
  assert (is_int (of_int p (kUnsetValue + 1)) (kUnsetValue + 1)) as Hmin
    by (apply of_int_exact; [lia|]; apply i64_bits; [done|]; unfold kUnsetValue; widths; lia).
  rewrite (lgt_int _ _ _ Hmax), (int_lgt _ _ _ Hmin).
  set (us := ldiv p _ _). assert (0 < den us) as Hus by apply round_den.
  split_and!; [done| |].
  - intros t. destruct (_ || _) eqn:E; [done|]. intros [= <-].
    apply orb_false_iff in E as [E1 E2]. rewrite Z.ltb_ge in E1, E2.
    unfold is_range_value, is_unset, is_done, to_int. simpl.
    assert (kUnsetValue < Z.quot (num us) (den us) < kDoneValue); [|lia].
    pose proof (Z.quot_le_mono (num us) ((kDoneValue - 1) * den us) (den us) Hus E1) as Q1.
    pose proof (Z.quot_le_mono ((kUnsetValue + 1) * den us) (num us) (den us) Hus E2) as Q2.
    rewrite Z.quot_mul in Q1, Q2 by lia. lia.
  - intros _ Hn. unfold valid in Hv. apply andb_true_iff in Hv as [V1 V2]. rewrite Z.ltb_lt in V1, V2.
    destruct (ldiv_same_side p (lmul p (lmul p (of_int p ticks) (of_int p (numerator tb))) (of_int p 1000000))
      (of_int p (denominator tb)) (ticks * numerator tb * 1000000) (denominator tb)) as [_ Hs]; [lia| | |done|done|].
    { apply lmul_exact; [lia|apply lmul_exact; [lia| | |lia]| |done]; apply of_int_exact; try lia;
        apply i64_bits; try done; widths; lia. }
    { apply of_int_exact; [lia|]. by apply i64_bits. }
    fold us in Hs. rewrite (same_side_quot us _ _ Hus V2 Hs).
    destruct (Hs (kDoneValue - 1)) as [H1 _], (Hs (kUnsetValue + 1)) as [_ H2].
    case_decide as Hr.
    + rewrite (proj2 (Z.ltb_ge _ _)), (proj2 (Z.ltb_ge _ _)); [done|lia|lia].
    + apply Decidable.not_and in Hr; [|unfold Decidable.decidable; lia].
      destruct (_ || _) eqn:E; [done|]. apply orb_false_iff in E as [E1 E2]. rewrite Z.ltb_ge in E1, E2. lia.
Qed.

(** Ten seconds at the 90 kHz of a video stream, and a third of a microsecond below zero. *)
Lemma from_ticks_exact_witness :
  ticks_ok 113 900007 (mkTimeBase 1 90000) /\
  FromTicks 113 900007 (mkTimeBase 1 90000) = inr (mkTs 10000077) /\
  FromTicks 64 (-1) (mkTimeBase 1 3000000) = inr (mkTs 0).
Proof.
  assert (ticks_ok 113 900007 (mkTimeBase 1 90000)) as H1
    by (unfold ticks_ok; simpl; widths; split_and!; lia).
  assert (ticks_ok 64 (-1) (mkTimeBase 1 3000000)) as H2
    by (unfold ticks_ok; simpl; widths; split_and!; lia).
  destruct (from_ticks_exact _ _ _ H1) as (_ & _ & E1). destruct (from_ticks_exact _ _ _ H2) as (_ & _ & E2).
  split; [exact H1|]. rewrite E1, E2 by reflexivity.
  rewrite !decide_True by (unfold kUnsetValue, kDoneValue; simpl; widths; lia). split; reflexivity.
Defined.
