(* ===== verification/Values.v ===== *)
(** * Values that travel through a graph

    [include/rkavp/config_value.hpp], [metadata.hpp], [media_types.hpp],
    [tensor.hpp], [packet.hpp], [packet_batch.hpp]: option values, packet
    metadata, media payloads and the [Packet] itself.

    A [double] is an IEEE value of [SpecFloat]; a [std::shared_ptr<Buffer>] is
    the identity of the buffer or nothing.  The type-erased payload of a packet
    is a sum over the payload types of the framework, with [PlOther] for the
    types of the application; [std::type_index] is the constructor. *)

From S2P Require Import Prelude Status Timestamp.
From Stdlib Require Import SpecFloat.
From stdpp Require Import pretty.

(** [static_cast<double>] of an integer. *)
Definition double_of_Z (z : Z) : spec_float := binary_normalize 53 1024 z 0 false.

(** ** Option values *)

(* [include/rkavp/config_value.hpp:14-49] ConfigValue *)
Inductive ConfigValue :=
| CNull
| CBool (b : bool)
| CInt (z : Z)
| CDouble (d : spec_float)
| CString (s : string)
| CArray (a : list ConfigValue)
| CObject (o : gmap string ConfigValue).

(* [include/rkavp/config_value.hpp:31-31] ConfigValue::is_null *)
Definition is_null (v : ConfigValue) : bool := match v with CNull => true | _ => false end.

(** [Is<T>] with [As<T>]: the value when the variant holds that alternative. *)
Definition as_string (v : ConfigValue) : option string :=
  match v with CString s => Some s | _ => None end.
Definition as_int (v : ConfigValue) : option Z :=
  match v with CInt z => Some z | _ => None end.
Definition as_bool (v : ConfigValue) : option bool :=
  match v with CBool b => Some b | _ => None end.
(* [include/rkavp/config_value.hpp:43-43] ConfigValue::AsArray *)
Definition AsArray (v : ConfigValue) : option (list ConfigValue) :=
  match v with CArray a => Some a | _ => None end.
(* [include/rkavp/config_value.hpp:44-44] ConfigValue::AsObject *)
Definition AsObject (v : ConfigValue) : option (gmap string ConfigValue) :=
  match v with CObject o => Some o | _ => None end.

Abbreviation NodeOptions := (gmap string ConfigValue).

(** ** Packet metadata *)

(* [include/rkavp/metadata.hpp:11-11] MetadataValue *)
Inductive MetadataValue :=
| MInt (z : Z)
| MDouble (d : spec_float)
| MBool (b : bool)
| MString (s : string).

Abbreviation MetadataSet := (gmap string MetadataValue).

(* [include/rkavp/metadata.hpp:15-15] MetadataSet::Set *)
Definition metadata_set (m : MetadataSet) (key : string) (v : MetadataValue) : MetadataSet :=
  <[key := v]> m.
(* [include/rkavp/metadata.hpp:16-16] MetadataSet::Contains *)
Definition metadata_contains (m : MetadataSet) (key : string) : bool :=
  bool_decide (is_Some (m !! key)).
(* [include/rkavp/metadata.hpp:19-29] MetadataSet::Get<std::string> *)
Definition metadata_get_string (m : MetadataSet) (key : string) : option string :=
  match m !! key with
  | None => None
  | Some (MString s) => Some s
  | Some _ => None
  end.

(** ** Media payloads *)

Abbreviation BufferId := Z (only parsing).
Abbreviation BufferPtr := (option BufferId) (only parsing).

(* [include/rkavp/media_types.hpp:11-20] VideoFrame *)
Record VideoFrame := mkVideoFrame {
  vf_frame_id : Z;
  vf_pts : Timestamp;
  vf_width : Z;
  vf_height : Z;
  vf_horizontal_stride : Z;
  vf_vertical_stride : Z;
  vf_format : string;
  vf_buffer : BufferPtr }.

(* [include/rkavp/media_types.hpp:22-29] AudioFrame *)
Record AudioFrame := mkAudioFrame {
  af_pts : Timestamp;
  af_sample_rate : Z;
  af_channels : Z;
  af_samples_per_channel : Z;
  af_format : string;
  af_buffer : BufferPtr }.

(* [include/rkavp/media_types.hpp:31-37] EncodedPacket *)
Record EncodedPacket := mkEncodedPacket {
  ep_pts : Timestamp;
  ep_dts : Timestamp;
  ep_codec : string;
  ep_key_frame : bool;
  ep_buffer : BufferPtr }.

(* [include/rkavp/tensor.hpp:12-22] TensorDataType *)
Inductive TensorDataType :=
| kUnknown | kFloat32 | kFloat16 | kInt64 | kInt32 | kInt16 | kInt8 | kUInt8 | kBool.
(* [include/rkavp/tensor.hpp:23-23] TensorLayout *)
Inductive TensorLayout := kAnyLayout | kNchw | kNhwc | kNc1hwc2.
(* [include/rkavp/tensor.hpp:24-24] QuantizationType *)
Inductive QuantizationType := kNoQuantization | kAffineAsymmetric | kDynamicFixedPoint.
(* [include/rkavp/tensor.hpp:26-31] QuantizationParams *)
Record QuantizationParams := mkQuantization {
  q_type : QuantizationType;
  q_zero_point : Z;
  q_scale : spec_float;
  q_fractional_length : Z }.
(* [include/rkavp/tensor.hpp:33-43] TensorDesc *)
Record TensorDesc := mkTensorDesc {
  td_name : string;
  td_shape : list Z;
  td_data_type : TensorDataType;
  td_layout : TensorLayout;
  td_quantization : QuantizationParams;
  td_byte_size : Z;
  td_byte_size_with_stride : Z;
  td_width_stride : Z;
  td_dynamic : bool }.
(* [include/rkavp/tensor.hpp:45-48] Tensor *)
Record Tensor := mkTensor { t_desc : TensorDesc; t_buffer : BufferPtr }.

(** ** Packets *)

(* [include/rkavp/packet.hpp:15-24] ControlEvent *)
Inductive ControlEvent :=
| kNone
| kEndOfStream
| kTimestampBound
| kFlush
| kPause
| kResume
| kReconfigure
| kForceKeyFrame.

#[export] Instance ControlEvent_eq_dec : EqDecision ControlEvent.
Proof. solve_decision. Defined.

(** A lifetime token is the identity of a shared object that a packet keeps
    alive. *)
Abbreviation Token := nat (only parsing).

(* [include/rkavp/packet.hpp:72-79] Packet (fields) *)
Record PacketOf (P : Type) := mkPacket {
  data : P;
  timestamp : Timestamp;
  metadata : MetadataSet;
  event : ControlEvent;
  lifetime_tokens : list Token }.
Arguments mkPacket {P} _ _ _ _ _.
Arguments data {P} _.
Arguments timestamp {P} _.
Arguments metadata {P} _.
Arguments event {P} _.
Arguments lifetime_tokens {P} _.

(* [include/rkavp/packet_batch.hpp:12-16] BatchItem *)
Record BatchItemOf (P : Type) := mkBatchItem {
  source_id : string;
  packet : PacketOf P;
  batch_index : nat }.
Arguments mkBatchItem {P} _ _ _.
Arguments source_id {P} _.
Arguments packet {P} _.
Arguments batch_index {P} _.

(* [include/rkavp/packet_batch.hpp:18-32] PacketBatch *)
Record PacketBatchOf (P : Type) := mkPacketBatch {
  items : list (BatchItemOf P);
  batch_timestamp : Timestamp }.
Arguments mkPacketBatch {P} _ _.
Arguments items {P} _.
Arguments batch_timestamp {P} _.

Inductive Payload :=
| PlVoid
| PlEvent (e : ControlEvent)
| PlConfig (v : ConfigValue)
| PlVideo (f : VideoFrame)
| PlAudio (f : AudioFrame)
| PlEncoded (p : EncodedPacket)
| PlTensors (ts : list Tensor)
| PlBatch (b : PacketBatchOf Payload)
| PlOther (type_name : string) (value : Z).

Abbreviation Packet := (PacketOf Payload).
Abbreviation BatchItem := (BatchItemOf Payload).
Abbreviation PacketBatch := (PacketBatchOf Payload).
Abbreviation PacketSet := (gmap string Packet).

(** The default constructor: no data. *)
(* [include/rkavp/packet.hpp:28-28] Packet::Packet *)
Definition EmptyPacket : Packet := mkPacket PlVoid Unset ∅ kNone [].
(* [include/rkavp/packet.hpp:30-38] Packet::Make *)
Definition Make (v : Payload) (ts : Timestamp) : Packet := mkPacket v ts ∅ kNone [].
(* [include/rkavp/packet.hpp:40-44] Packet::Event *)
Definition Event (e : ControlEvent) (ts : Timestamp) : Packet :=
  mkPacket (PlEvent e) ts ∅ e [].
(* [include/rkavp/packet.hpp:46-46] Packet::empty *)
Definition packet_empty (p : Packet) : bool :=
  match data p with PlVoid => true | _ => false end.
(* [include/rkavp/packet.hpp:51-53] Packet::AddLifetimeToken *)
Definition AddLifetimeToken (p : Packet) (t : option Token) : Packet :=
  match t with
  | Some t =>
      mkPacket (data p) (timestamp p) (metadata p) (event p) (lifetime_tokens p ++ [t])
  | None => p
  end.
(* [include/rkavp/packet.hpp:54-57] Packet::InheritLifetimeTokens *)
Definition InheritLifetimeTokens (p q : Packet) : Packet :=
  mkPacket (data p) (timestamp p) (metadata p) (event p)
           (lifetime_tokens p ++ lifetime_tokens q).
(** [packet.mutable_metadata().Set(key, value)]. *)
Definition set_metadata (p : Packet) (key : string) (v : MetadataValue) : Packet :=
  mkPacket (data p) (timestamp p) (metadata_set (metadata p) key v) (event p)
           (lifetime_tokens p).

(* [include/rkavp/packet_batch.hpp:34-41] MakePacketBatch *)
Definition MakePacketBatch (its : list BatchItem) (ts : Timestamp) : Packet :=
  let lifetime := fold_left (fun l it => InheritLifetimeTokens l (packet it)) its EmptyPacket in
  InheritLifetimeTokens (Make (PlBatch (mkPacketBatch its ts)) ts) lifetime.

Definition is_control (e : ControlEvent) : bool := negb (bool_decide (e = kNone)).

Lemma MakePacketBatch_tokens its ts :
  lifetime_tokens (MakePacketBatch its ts) =
  concat (map (fun it => lifetime_tokens (packet it)) its).
Proof.
  unfold MakePacketBatch; simpl.
  assert (forall l, lifetime_tokens
     (fold_left (fun l it => InheritLifetimeTokens l (packet it)) its l) =
     lifetime_tokens l ++ concat (map (fun it => lifetime_tokens (packet it)) its)) as ->.
  { induction its as [|it its IH]; intros l; simpl.
    - by rewrite app_nil_r.
    - rewrite IH. simpl. by rewrite <- app_assoc. }
  done.
Qed.
