(* ===== verification/BoundedQueue.v ===== *)
(** * The bounded queue

    [include/rkavp/bounded_queue.hpp]: the queue of every edge and graph
    input.  Each member function runs under the queue's mutex, so each is one
    atomic transition of the state.  A condition-variable wait is a result
    [None]: the caller is blocked, the state is as before, and the call is
    evaluated again when another thread has changed the state (re-evaluating
    from the start is what the wake-up does, because the tests before the wait
    are implied by its predicate).

    [Section history] relates any sequence of operations to the FIFO
    specification: what was accepted is what was removed, oldest first,
    followed by what is still queued. *)

From S2P Require Import Prelude.

(* [include/rkavp/bounded_queue.hpp:11-11] QueuePolicy *)
Inductive QueuePolicy := kBlock | kDropOldest | kDropNewest.

#[export] Instance QueuePolicy_eq_dec : EqDecision QueuePolicy.
Proof. solve_decision. Defined.

(* [include/rkavp/bounded_queue.hpp:101-109] BoundedQueue (fields) *)
Record BoundedQueue (T : Type) := mkQueue {
  capacity : nat;
  policy : QueuePolicy;
  queue : list T;
  closed : bool }.
Arguments mkQueue {T} _ _ _ _.
Arguments capacity {T} _.
Arguments policy {T} _.
Arguments queue {T} _.
Arguments closed {T} _.

(** What a push reports: the return value and the [dropped] flag. *)
Record PushResult := mkPushResult { pushed : bool; dropped : bool }.

Section operations.
Context {T : Type}.
Implicit Types (q : BoundedQueue T) (v : T).

(* [include/rkavp/bounded_queue.hpp:16-16] BoundedQueue::BoundedQueue *)
Definition NewQueue (cap : nat) (pol : QueuePolicy) : BoundedQueue T :=
  mkQueue cap pol [] false.

Definition with_queue q (l : list T) : BoundedQueue T :=
  mkQueue (capacity q) (policy q) l (closed q).

Definition full q : bool := bool_decide (capacity q <= length (queue q))%nat.

(** The insertion both pushes end with: evict the front when the queue is
    full, then append. *)
Definition evict_push q v : PushResult * BoundedQueue T :=
  if full q then (mkPushResult true true, with_queue q (tail (queue q) ++ [v]))
  else (mkPushResult true false, with_queue q (queue q ++ [v])).

(* [include/rkavp/bounded_queue.hpp:18-46] BoundedQueue::Push *)
Definition Push q v : option (PushResult * BoundedQueue T) :=
  if bool_decide (capacity q = 0%nat) || closed q then Some (mkPushResult false false, q)
  else match policy q with
       | kBlock => if full q then None
                   else Some (mkPushResult true false, with_queue q (queue q ++ [v]))
       | kDropNewest => if full q then Some (mkPushResult false true, q)
                        else Some (mkPushResult true false, with_queue q (queue q ++ [v]))
       | kDropOldest => Some (evict_push q v)
       end.

(* [include/rkavp/bounded_queue.hpp:48-59] BoundedQueue::PushControl *)
Definition PushControl q v : PushResult * BoundedQueue T :=
  if bool_decide (capacity q = 0%nat) || closed q then (mkPushResult false false, q)
  else evict_push q v.

(* [include/rkavp/bounded_queue.hpp:61-71] BoundedQueue::WaitPop *)
Definition WaitPop q : option (option T * BoundedQueue T) :=
  match queue q with
  | [] => if closed q then Some (None, q) else None
  | v :: rest => Some (Some v, with_queue q rest)
  end.

(* [include/rkavp/bounded_queue.hpp:73-80] BoundedQueue::TryPop *)
Definition TryPop q : option T * BoundedQueue T :=
  match queue q with
  | [] => (None, q)
  | v :: rest => (Some v, with_queue q rest)
  end.

(* [include/rkavp/bounded_queue.hpp:82-87] BoundedQueue::Close *)
Definition Close q : BoundedQueue T := mkQueue (capacity q) (policy q) (queue q) true.

(* [include/rkavp/bounded_queue.hpp:89-92] BoundedQueue::size *)
Definition queue_size q : nat := length (queue q).

(** ** The capacity invariant *)

Definition queue_wf q : Prop := (length (queue q) <= capacity q)%nat.

#[export] Instance queue_wf_dec q : Decision (queue_wf q).
Proof. unfold queue_wf. apply _. Defined.

Lemma full_spec q : full q = true <-> (capacity q <= length (queue q))%nat.
Proof. unfold full. apply bool_decide_eq_true. Qed.

Lemma full_false q : full q = false <-> (length (queue q) < capacity q)%nat.
Proof. unfold full. rewrite bool_decide_eq_false. lia. Qed.

Lemma NewQueue_wf cap pol : queue_wf (NewQueue cap pol).
Proof. unfold queue_wf. simpl. lia. Qed.

Lemma evict_push_wf q v r q' :
  queue_wf q -> capacity q <> 0%nat -> evict_push q v = (r, q') -> queue_wf q'.
Proof.
  unfold evict_push, queue_wf. intros Hwf Hcap. destruct (full q) eqn:Hf;
    intros [= <- <-]; simpl; rewrite length_app; simpl.
  - rewrite length_tl. lia.
  - apply full_false in Hf. lia.
Qed.

Lemma Push_wf q v r q' : queue_wf q -> Push q v = Some (r, q') -> queue_wf q'.
Proof.
  unfold Push. intros Hwf. case_bool_decide as Hc; simpl; [naive_solver|].
  destruct (closed q); [naive_solver|].
  destruct (policy q), (full q) eqn:Hf; intros; simplify_eq; try done;
    try (by eapply evict_push_wf);
    apply full_false in Hf; unfold queue_wf; simpl; rewrite length_app; simpl; lia.
Qed.

Lemma PushControl_wf q v r q' : queue_wf q -> PushControl q v = (r, q') -> queue_wf q'.
Proof.
  unfold PushControl. intros Hwf. case_bool_decide as Hc; simpl; [naive_solver|].
  destruct (closed q); [naive_solver|]. by apply evict_push_wf.
Qed.

Lemma TryPop_wf q o q' : queue_wf q -> TryPop q = (o, q') -> queue_wf q'.
Proof.
  unfold TryPop, queue_wf. destruct (queue q) as [|x l] eqn:E; intros Hwf [= <- <-]; simpl in *;
    rewrite ?E; simpl; lia.
Qed.

Lemma Close_wf q : queue_wf q -> queue_wf (Close q).
Proof. done. Qed.
End operations.

#[export] Hint Resolve NewQueue_wf Push_wf PushControl_wf TryPop_wf Close_wf : rkavp.

(** ** Histories

    The events of a queue shared by any number of threads, in the order in
    which the mutex serialises them. *)

Section history.
Context {T : Type}.
Implicit Types (q : BoundedQueue T) (v : T).

Inductive QOp := OpPush (v : T) | OpPushControl (v : T) | OpWaitPop | OpTryPop | OpClose.

Inductive QEvent :=
| Accepted (v : T)
| Rejected (v : T)
| Evicted (v : T)
| Delivered (v : T).

Definition push_events q v (r : PushResult) : list QEvent :=
  if pushed r then
    (if dropped r then match queue q with x :: _ => [Evicted x] | [] => [] end else [])
    ++ [Accepted v]
  else [Rejected v].

(** One call, by any thread: [None] when the caller has to wait. *)
Definition exec_op (op : QOp) q : option (list QEvent * BoundedQueue T) :=
  match op with
  | OpPush v => '(r, q') ← Push q v; Some (push_events q v r, q')
  | OpPushControl v => let '(r, q') := PushControl q v in Some (push_events q v r, q')
  | OpWaitPop => '(o, q') ← WaitPop q;
                 Some (match o with Some v => [Delivered v] | None => [] end, q')
  | OpTryPop => let '(o, q') := TryPop q in
                Some (match o with Some v => [Delivered v] | None => [] end, q')
  | OpClose => Some ([], Close q)
  end.

(** A schedule: the operations that completed, in order, with their events. *)
Inductive qtrace : BoundedQueue T -> list QOp -> list QEvent -> BoundedQueue T -> Prop :=
| qtrace_nil q : qtrace q [] [] q
| qtrace_snoc q ops evs q' op evs' q'' :
    qtrace q ops evs q' -> exec_op op q' = Some (evs', q'') ->
    qtrace q (ops ++ [op]) (evs ++ evs') q''.

Definition accepted_of (evs : list QEvent) : list T :=
  omap (fun e => match e with Accepted v => Some v | _ => None end) evs.
Definition removed_of (evs : list QEvent) : list T :=
  omap (fun e => match e with Evicted v | Delivered v => Some v | _ => None end) evs.
Definition delivered_of (evs : list QEvent) : list T :=
  omap (fun e => match e with Delivered v => Some v | _ => None end) evs.
Definition evicted_of (evs : list QEvent) : list T :=
  omap (fun e => match e with Evicted v => Some v | _ => None end) evs.

Definition conserved q evs q' : Prop :=
  queue q ++ accepted_of evs = removed_of evs ++ queue q'.

Lemma evict_push_conserved q v r q' :
  capacity q <> 0%nat -> evict_push q v = (r, q') ->
  conserved q (push_events q v r) q'.
Proof.
  unfold evict_push, conserved, push_events. intros Hc.
  destruct (full q) eqn:Hf; intros [= <- <-]; simpl; [|done].
  apply full_spec in Hf. destruct (queue q); simpl in *; [lia|done].
Qed.

Lemma Push_conserved q v r q' :
  Push q v = Some (r, q') -> conserved q (push_events q v r) q'.
Proof.
  unfold Push. case_bool_decide as Hc; simpl.
  { intros [= <- <-]. unfold conserved; simpl. by rewrite app_nil_r. }
  destruct (closed q).
  { intros [= <- <-]. unfold conserved; simpl. by rewrite app_nil_r. }
  destruct (policy q); [| |]; [destruct (full q)| |destruct (full q)];
    intros H; simplify_eq; try (by apply evict_push_conserved);
    unfold conserved; simpl; by rewrite ?app_nil_r.
Qed.

Lemma PushControl_conserved q v r q' :
  PushControl q v = (r, q') -> conserved q (push_events q v r) q'.
Proof.
  unfold PushControl. case_bool_decide as Hc; simpl; [|destruct (closed q)];
    [intros [= <- <-].. | by apply evict_push_conserved];
    unfold conserved; simpl; by rewrite app_nil_r.
Qed.

Lemma exec_op_conserved op q evs q' :
  exec_op op q = Some (evs, q') -> conserved q evs q'.
Proof.
  destruct op as [v|v| | |]; simpl.
  - destruct (Push q v) as [[r q1]|] eqn:E; simpl; [|done].
    intros [= <- <-]. by apply Push_conserved.
  - destruct (PushControl q v) as [r q1] eqn:E. intros [= <- <-].
    by apply PushControl_conserved.
  - unfold WaitPop, conserved. destruct (queue q) eqn:E; [destruct (closed q)|];
      simpl; intros; simplify_eq/=; by rewrite ?E, ?app_nil_r.
  - unfold TryPop, conserved. destruct (queue q) eqn:E; simpl; intros; simplify_eq/=;
      by rewrite ?E, ?app_nil_r.
  - intros [= <- <-]. unfold conserved. simpl. by rewrite app_nil_r.
Qed.

Lemma exec_op_wf op q evs q' :
  queue_wf q -> exec_op op q = Some (evs, q') -> queue_wf q'.
Proof.
  intros Hwf. destruct op as [v|v| | |]; simpl.
  - destruct (Push q v) as [[r q1]|] eqn:E; simpl; [|done].
    intros [= <- <-]. eauto with rkavp.
  - destruct (PushControl q v) as [r q1] eqn:E. intros [= <- <-]. eauto with rkavp.
  - unfold WaitPop, queue_wf in *. destruct (queue q) eqn:E; [destruct (closed q)|];
      simpl in *; intros; simplify_eq/=; rewrite ?E; simpl; lia.
  - destruct (TryPop q) eqn:E. intros [= <- <-]. eauto with rkavp.
  - intros [= <- <-]. done.
Qed.

Lemma conserved_trans q evs q' evs' q'' :
  conserved q evs q' -> conserved q' evs' q'' -> conserved q (evs ++ evs') q''.
Proof.
  unfold conserved, accepted_of, removed_of. intros H1 H2.
  rewrite !omap_app, app_assoc, H1, <- app_assoc, H2. by rewrite app_assoc.
Qed.

Lemma qtrace_conserved q ops evs q' : qtrace q ops evs q' -> conserved q evs q'.
Proof.
  induction 1 as [q|q ops evs q' op evs' q'' _ IH Hop].
  - unfold conserved. simpl. by rewrite app_nil_r.
  - eapply conserved_trans; eauto using exec_op_conserved.
Qed.

Lemma qtrace_wf q ops evs q' : qtrace q ops evs q' -> queue_wf q -> queue_wf q'.
Proof. induction 1; eauto using exec_op_wf. Qed.

Lemma delivered_sublist evs : delivered_of evs `sublist_of` removed_of evs.
Proof.
  induction evs as [|[] evs IH]; simpl; [constructor|done|done|by constructor|by constructor].
Qed.

(** C34: For every schedule of operations by any number of threads on a
    fresh queue, the values accepted are, in order, the values removed (delivered or
    evicted) followed by the values still queued; the queue never exceeds its capacity;
    and the values delivered to consumers are an in-order subsequence of the accepted
    ones: nothing is duplicated, reordered or invented. *)
Theorem queue_fifo_history cap pol ops evs q :
  qtrace (NewQueue cap pol) ops evs q ->
  accepted_of evs = removed_of evs ++ queue q /\
  (length (queue q) <= capacity q)%nat /\
  delivered_of evs `sublist_of` accepted_of evs.
Proof.
  intros Ht. pose proof (qtrace_conserved _ _ _ _ Ht) as Hc.
  unfold conserved in Hc. simpl in Hc. split_and!; [done| |].
  - eapply qtrace_wf; eauto using NewQueue_wf.
  - rewrite Hc. etrans; [apply delivered_sublist|]. by apply sublist_inserts_r.
Qed.

(** ** Overflow policies *)

Definition no_control (ops : list QOp) : Prop :=
  Forall (fun op => match op with OpPushControl _ => False | _ => True end) ops.

Lemma exec_op_params op q evs q' :
  exec_op op q = Some (evs, q') -> capacity q' = capacity q /\ policy q' = policy q.
Proof.
  destruct op as [v|v| | |]; simpl; unfold Push, PushControl, evict_push, WaitPop, TryPop.
  - destruct (_ || _); simpl; [naive_solver|].
    destruct (policy q) eqn:Hp; repeat case_match; simplify_eq/=; naive_solver.
  - destruct (_ || _); simpl; [naive_solver|]. repeat case_match; naive_solver.
  - repeat case_match; naive_solver.
  - repeat case_match; naive_solver.
  - naive_solver.
Qed.

Lemma qtrace_params q ops evs q' :
  qtrace q ops evs q' -> capacity q' = capacity q /\ policy q' = policy q.
Proof.
  induction 1 as [|q ops evs q' op evs' q'' _ [IH1 IH2] Hop]; [done|].
  apply exec_op_params in Hop as [-> ->]. done.
Qed.

(** A data push only evicts under [kDropOldest]. *)
Lemma exec_op_no_evict op q evs q' :
  policy q <> kDropOldest ->
  match op with OpPushControl _ => False | _ => True end ->
  exec_op op q = Some (evs, q') -> evicted_of evs = [].
Proof.
  intros Hp. destruct op as [v|v| | |]; simpl; [|done| | |naive_solver]; intros _.
  - unfold Push. destruct (_ || _); simpl; [naive_solver|].
    destruct (policy q); [| |]; [|done|]; case_match; naive_solver.
  - unfold WaitPop. repeat case_match; naive_solver.
  - unfold TryPop. repeat case_match; naive_solver.
Qed.

Lemma removed_no_evict evs : evicted_of evs = [] -> removed_of evs = delivered_of evs.
Proof. induction evs as [|[] evs IH]; simpl; intros; simplify_eq; by rewrite ?IH. Qed.

(** A queue that blocks or drops the newest value never loses an
    accepted one: as long as no control packet is forced in, what was accepted is
    exactly what was delivered followed by what is still queued. *)
Theorem queue_lossless cap pol ops evs q :
  pol <> kDropOldest -> no_control ops ->
  qtrace (NewQueue cap pol) ops evs q ->
  accepted_of evs = delivered_of evs ++ queue q.
Proof.
  intros Hp Hc Ht. rewrite <- removed_no_evict.
  { pose proof (qtrace_conserved _ _ _ _ Ht) as H. exact H. }
  remember (NewQueue cap pol) as q0 eqn:E.
  induction Ht as [|q ops evs q' op evs' q'' Ht IH Hop]; [done|].
  apply Forall_app in Hc as [Hc1 [Hc2 _]%Forall_cons]. subst.
  unfold evicted_of in *. rewrite omap_app, IH by done. simpl.
  eapply exec_op_no_evict; [|exact Hc2|exact Hop].
  apply qtrace_params in Ht as [_ ->]. done.
Qed.

Definition pushes (vs : list T) : list QOp := map OpPush vs.

Lemma qtrace_drop_oldest cap vs evs q :
  (0 < cap)%nat -> qtrace (NewQueue cap kDropOldest) (pushes vs) evs q ->
  closed q = false /\ queue q = lastn cap vs.
Proof.
  intros Hcap Ht. remember (NewQueue cap kDropOldest) as q0 eqn:E.
  remember (pushes vs) as ops eqn:Eo.
  induction Ht as [|q1 ops evs q' op evs' q'' Ht IH Hop] in vs, E, Eo |- *; subst.
  { destruct vs; [done|done]. }
  destruct vs as [|v vs _] using rev_ind; [by destruct ops|].
  unfold pushes in Eo. rewrite map_app in Eo. simpl in Eo.
  apply app_inj_tail in Eo as [-> ->].
  destruct (IH vs eq_refl eq_refl) as [Hcl Hq].
  pose proof (qtrace_params _ _ _ _ Ht) as [Hcp Hpol]. simpl in Hcp, Hpol.
  simpl in Hop. unfold Push in Hop. rewrite Hcl, Hcp, Hpol in Hop.
  rewrite bool_decide_eq_false_2 in Hop by lia. simpl in Hop.
  unfold evict_push in Hop. destruct (full q') eqn:Hf; injection Hop as <- <-; simpl.
  - apply full_spec in Hf. rewrite Hcp, Hq, length_lastn in Hf.
    split; [done|]. rewrite Hq, lastn_snoc_ge; [done|lia|lia].
  - apply full_false in Hf. rewrite Hcp, Hq, length_lastn in Hf.
    split; [done|]. rewrite Hq, lastn_snoc_lt; [done|lia].
Qed.

(** Under [kDropOldest] a burst of pushes leaves exactly the [cap] most
    recent values in the queue, in order. *)
Theorem drop_oldest_keeps_recent cap vs evs q :
  (0 < cap)%nat -> qtrace (NewQueue cap kDropOldest) (pushes vs) evs q ->
  queue q = lastn cap vs.
Proof. intros Hc Ht. by apply (qtrace_drop_oldest cap vs evs q). Qed.

(** ** Blocking

    A producer blocks only on a full open [kBlock] queue and a
    consumer only on an empty open one, so with a positive capacity the two are never
    blocked together; after [Close] nobody is. *)
Theorem queue_progress q v :
  (Push q v = None -> WaitPop q <> None) /\
  Push (Close q) v <> None /\ WaitPop (Close q) <> None.
Proof.
  split_and!.
  - unfold Push, WaitPop. case_bool_decide as Hc; simpl; [done|].
    destruct (closed q); [done|]. destruct (policy q); [|done|by destruct (full q)].
    destruct (full q) eqn:Hf; [|done]. apply full_spec in Hf.
    destruct (queue q); simpl in *; [lia|done].
  - unfold Push; simpl. by rewrite orb_true_r.
  - unfold WaitPop; simpl. by destruct (queue q).
Qed.
End history.
Arguments QOp : clear implicits.
Arguments QEvent : clear implicits.

(** ** Witnesses *)

Lemma queue_fifo_history_witness :
  queue (mkQueue 2 kDropOldest [2; 3] false) = [2; 3] /\
  delivered_of (T := Z) [Accepted 1; Accepted 2; Evicted 1; Accepted 3]
    `sublist_of` [1; 2; 3].
Proof.
  split; [reflexivity|].
  apply (queue_fifo_history 2 kDropOldest (pushes [1; 2; 3])
           [Accepted 1; Accepted 2; Evicted 1; Accepted 3] (mkQueue 2 kDropOldest [2; 3] false)).
  change (qtrace (NewQueue 2 kDropOldest) ((([] ++ [OpPush 1]) ++ [OpPush 2]) ++ [OpPush 3])
            ((([] ++ [Accepted 1]) ++ [Accepted 2]) ++ [Evicted 1; Accepted 3])
            (mkQueue 2 kDropOldest [2; 3] false)).
  repeat econstructor.
Defined.

Lemma queue_lossless_witness :
  accepted_of (T := Z) [Accepted 7; Delivered 7] = delivered_of [Accepted 7; Delivered 7] ++ [].
Proof.
  apply (queue_lossless 1 kBlock [OpPush 7; OpWaitPop] [Accepted 7; Delivered 7]
           (mkQueue 1 kBlock [] false)).
  - discriminate.
  - repeat constructor.
  - change (qtrace (NewQueue 1 kBlock) (([] ++ [OpPush 7]) ++ [OpWaitPop])
              (([] ++ [Accepted 7]) ++ [Delivered 7]) (mkQueue 1 kBlock [] false)).
    repeat econstructor.
Defined.

Lemma drop_oldest_keeps_recent_witness :
  [2; 3] = lastn 2 [1; 2; 3].
Proof.
  apply (drop_oldest_keeps_recent 2 [1; 2; 3] [Accepted 1; Accepted 2; Evicted 1; Accepted 3]
           (mkQueue 2 kDropOldest [2; 3] false)).
  - lia.
  - change (qtrace (NewQueue 2 kDropOldest) ((([] ++ [OpPush 1]) ++ [OpPush 2]) ++ [OpPush 3])
              ((([] ++ [Accepted 1]) ++ [Accepted 2]) ++ [Evicted 1; Accepted 3])
              (mkQueue 2 kDropOldest [2; 3] false)).
    repeat econstructor.
Defined.
