(* ===== verification/Streaming.v ===== *)
(** * Streaming primitives

    [include/rkavp/streaming_primitives.hpp], [src/core/streaming_primitives.cpp]:
    RTP timestamp unwrapping, the RTCP clock mapper, reconnect back-off and the
    encoded jitter buffer.  Unsigned arithmetic is written with its width;
    [std::upper_bound] is the position of the first element the comparison
    puts after the value, which is what it returns on a sorted range. *)

From S2P Require Import Prelude Status Timestamp Values.
From Stdlib Require Import SpecFloat.

(** ** RTP timestamps *)

Module Rtp.

(* [include/rkavp/streaming_primitives.hpp:13-25] RtpTimestampMapper *)
Record RtpTimestampMapper := mkRtp {
  clock_rate : Z;
  initialized : bool;
  last : Z;
  cycles : Z;
  origin : Z }.

(* [src/core/streaming_primitives.cpp:8-8] RtpTimestampMapper::RtpTimestampMapper *)
Definition NewRtp (rate : Z) : RtpTimestampMapper := mkRtp rate false 0 0 0.

(** The wrap test and the update of the unwrapping state for one packet. *)
(* [src/core/streaming_primitives.cpp:13-23] RtpTimestampMapper::Map (state) *)
Definition advance (m : RtpTimestampMapper) (rtp : Z) : RtpTimestampMapper :=
  if negb (initialized m) then mkRtp (clock_rate m) true rtp (cycles m) rtp
  else
    let cyc :=
      if (rtp <? last m) && ((u32_mod - 1) / 2 <? last m - rtp)
      then u64 (cycles m + u32_mod) else cycles m in
    mkRtp (clock_rate m) true rtp cyc (origin m).

(* [src/core/streaming_primitives.cpp:10-29] RtpTimestampMapper::Map *)
Definition RtpMap (m : RtpTimestampMapper) (rtp : Z) : Res Timestamp * RtpTimestampMapper :=
  if clock_rate m =? 0 then (Err (Invalid "RTP clock rate must be positive"), m)
  else
    let m' := advance m rtp in
    let extended := u64 (cycles m' + rtp) in
    let ticks := u64 (extended - origin m') in
    (Okay (FromMicroseconds (i64 (u64 (ticks * 1000000) / clock_rate m'))), m').

(* [src/core/streaming_primitives.cpp:31-36] RtpTimestampMapper::Reset *)
Definition RtpReset (m : RtpTimestampMapper) : RtpTimestampMapper :=
  mkRtp (clock_rate m) false 0 0 0.

(** The mapper fed with a stream of packets. *)
Fixpoint map_stream (m : RtpTimestampMapper) (rtps : list Z) : list (Res Timestamp) :=
  match rtps with
  | [] => []
  | r :: rest => let '(t, m') := RtpMap m r in t :: map_stream m' rest
  end.

(** The sender's clock: tick counts that never go back and never jump by more
    than half the 32-bit range between packets. *)
Definition steady (ticks : list Z) : Prop :=
  forall i t t', ticks !! i = Some t -> ticks !! S i = Some t' -> 0 <= t' - t <= 2 ^ 31.

(** What the mapper remembers after the packet of tick [t] of a stream that
    began at tick [t0]. *)
Definition tracks (t0 t : Z) (m : RtpTimestampMapper) : Prop :=
  initialized m = true /\ last m = t mod u32_mod /\ origin m = t0 mod u32_mod /\
  cycles m = (t / u32_mod - t0 / u32_mod) * u32_mod.

Definition representable (rate t0 t : Z) : Prop :=
  0 <= t - t0 /\ (t - t0) * 1000000 < u64_mod /\ (t - t0) * 1000000 / rate <= int64_max.

Lemma advance_first m t : initialized m = false -> cycles m = 0 ->
  tracks t t (advance m (t mod u32_mod)) /\ clock_rate (advance m (t mod u32_mod)) = clock_rate m.
Proof.
  unfold advance, tracks. intros -> ->; simpl. split_and!; try done. lia.
Qed.

Lemma advance_next m t0 t t' :
  0 <= t0 <= t -> tracks t0 t m -> 0 <= t' - t <= 2 ^ 31 -> (t' - t0) * 1000000 < u64_mod ->
  tracks t0 t' (advance m (t' mod u32_mod)) /\
  clock_rate (advance m (t' mod u32_mod)) = clock_rate m.
Proof.
  unfold tracks, advance. intros Ht0 (-> & -> & -> & ->) Hd Hb; simpl. split_and!; try done.
  rewrite !u32_mod_eq in *.
  pose proof (Z.div_mod t 4294967296 ltac:(lia)).
  pose proof (Z.mod_pos_bound t 4294967296 ltac:(lia)).
  pose proof (Z.div_mod t' 4294967296 ltac:(lia)).
  pose proof (Z.mod_pos_bound t' 4294967296 ltac:(lia)).
  pose proof (Z.div_mod t0 4294967296 ltac:(lia)).
  pose proof (Z.mod_pos_bound t0 4294967296 ltac:(lia)).
  destruct (andb _ _) eqn:E.
  - apply andb_true_iff in E as [E1%Z.ltb_lt E2%Z.ltb_lt].
    rewrite u64_small; [lia|]. widths. lia.
  - apply andb_false_iff in E as [E%Z.ltb_ge|E%Z.ltb_ge];
      change ((4294967296 - 1) / 2) with 2147483647 in *; lia.
Qed.

Lemma Map_tracks m t0 t :
  0 <= t0 <= t -> clock_rate m <> 0 -> 0 < clock_rate m -> representable (clock_rate m) t0 t ->
  tracks t0 t (advance m (t mod u32_mod)) ->
  clock_rate (advance m (t mod u32_mod)) = clock_rate m ->
  fst (RtpMap m (t mod u32_mod)) = Okay (mkTs ((t - t0) * 1000000 / clock_rate m)).
Proof.
  intros Ht Hr0 Hr (Hr1 & Hr2 & Hr3) (_ & _ & Ho & Hc) Hcr. unfold RtpMap.
  rewrite (proj2 (Z.eqb_neq _ _)) by done. simpl. rewrite Hcr, Ho, Hc.
  unfold FromMicroseconds. do 2 f_equal.
  assert (u64 (u64 ((t / u32_mod - t0 / u32_mod) * u32_mod + t mod u32_mod) - t0 mod u32_mod)
          = t - t0) as ->.
  { pose proof (Z.div_mod t u32_mod ltac:(done)).
    pose proof (Z.div_mod t0 u32_mod ltac:(done)).
    unfold u64 at 1 2. rewrite Zminus_mod_idemp_l.
    rewrite Z.mod_small; [lia|]. widths. lia. }
  rewrite (u64_small ((t - t0) * 1000000)) by (split; lia).
  rewrite i64_small; [done| |].
  - split; [|done]. transitivity 0; [done|]. apply Z.div_pos; lia.
  - apply Z.div_pos; lia.
Qed.

Lemma map_stream_tracks m t0 t ts :
  0 <= t0 <= t -> 0 < clock_rate m -> tracks t0 t m ->
  (forall i u, ts !! i = Some u -> representable (clock_rate m) t0 u) ->
  steady (t :: ts) ->
  map_stream m (map (fun u => u mod u32_mod) ts) =
  map (fun u => Okay (mkTs ((u - t0) * 1000000 / clock_rate m))) ts.
Proof.
  revert m t. induction ts as [|u ts IH]; intros m t Ht Hr Htr Hrep Hst; [done|].
  pose proof (Hst 0%nat t u eq_refl eq_refl) as Hstep.
  pose proof (Hrep 0%nat u eq_refl) as Hru. destruct (id Hru) as (H1 & H2 & H3).
  destruct (advance_next m t0 t u) as [Htr' Hcr]; [done..|].
  simpl. destruct (RtpMap m (u mod u32_mod)) as [r m'] eqn:E.
  assert (m' = advance m (u mod u32_mod)) as ->.
  { unfold RtpMap in E. rewrite (proj2 (Z.eqb_neq _ _)) in E by lia. by simplify_eq. }
  f_equal.
  - change r with (fst (r, advance m (u mod u32_mod))). rewrite <- E.
    apply Map_tracks; auto; lia.
  - rewrite <- Hcr. apply (IH _ u); auto; [lia|lia| |].
    + rewrite Hcr. intros i v Hv. by apply (Hrep (S i)).
    + intros i v v' Hv Hv'. by apply (Hst (S i)).
Qed.

(** RTP unwrapping is exact.  When the packets carry the low 32 bits of a sender
    clock that never goes back and never advances by more than 2^31 ticks between two
    packets, the mapper returns, for every packet and across any number of wrap-arounds,
    the elapsed time since the first packet in microseconds. *)
Theorem rtp_unwrap_exact rate t0 ts :
  0 < rate -> 0 <= t0 ->
  (forall i t, (t0 :: ts) !! i = Some t -> representable rate t0 t) ->
  steady (t0 :: ts) ->
  map_stream (NewRtp rate) (map (fun t => t mod u32_mod) (t0 :: ts)) =
  map (fun t => Okay (mkTs ((t - t0) * 1000000 / rate))) (t0 :: ts).
Proof.
  intros Hr Ht0 Hrep Hst. simpl.
  destruct (advance_first (NewRtp rate) t0 eq_refl eq_refl) as [Htr Hcr].
  destruct (RtpMap (NewRtp rate) (t0 mod u32_mod)) as [r m'] eqn:E.
  assert (m' = advance (NewRtp rate) (t0 mod u32_mod)) as ->.
  { unfold RtpMap in E. simpl in E. rewrite (proj2 (Z.eqb_neq _ _)) in E by lia. by simplify_eq. }
  f_equal.
  - change r with (fst (r, advance (NewRtp rate) (t0 mod u32_mod))). rewrite <- E.
    apply (Map_tracks (NewRtp rate)); simpl; auto; try lia.
    apply (Hrep 0%nat). done.
  - rewrite (map_stream_tracks _ t0 t0); auto; rewrite ?Hcr; simpl; auto; [lia|].
    intros i t Ht. by apply (Hrep (S i)).
Qed.

Lemma rtp_unwrap_exact_witness :
  map_stream (NewRtp 90000) [4294967295; 89999] =
  [Okay (mkTs 0); Okay (mkTs 1000000)].
Proof.
  apply (rtp_unwrap_exact 90000 4294967295 [4295057295]).
  - lia.
  - lia.
  - intros [|[|i]] t; simpl; intros H; simplify_eq; unfold representable; vm_compute; auto;
      intuition discriminate.
  - intros [|[|i]] t t'; simpl; intros H H'; simplify_eq. lia.
Defined.

(** Two inputs outside [steady].  A packet from before the first one is not
    mapped to a time shortly before zero: its tick difference wraps modulo 2^64. *)
Example rtp_reordered_start :
  map_stream (NewRtp 90000) [1000; 910] = [Okay (mkTs 0); Okay (mkTs 204963823040217)].
Proof. vm_compute. reflexivity. Qed.

(** A late packet from before a wrap-around, received after it, is taken for a
    packet of the new cycle, and the next packet then counts one cycle too many
    (26 us have elapsed when the last packet comes, and its result is 2^32 us more). *)
Example rtp_reordered_wrap :
  map_stream (NewRtp 1000000) [4294967290; 10; 4294967291; 20] =
  [Okay (mkTs 0); Okay (mkTs 16); Okay (mkTs 4294967297); Okay (mkTs 4294967322)].
Proof. vm_compute. reflexivity. Qed.

End Rtp.

(** ** RTCP sender reports *)

Module Rtcp.

(* [include/rkavp/streaming_primitives.hpp:27-39] RtcpClockMapper *)
Record RtcpClockMapper := mkRtcp {
  mapper : Rtp.RtpTimestampMapper;
  anchored : bool;
  ntp_anchor_us : Z;
  drift_us : Z }.

(* [include/rkavp/streaming_primitives.hpp:29-29] RtcpClockMapper::RtcpClockMapper *)
Definition NewRtcp (rate : Z) : RtcpClockMapper := mkRtcp (Rtp.NewRtp rate) false 0 0.

(** The drift measurement of an update on an anchored mapper. *)
(* [src/core/streaming_primitives.cpp:39-44] RtcpClockMapper::Update (drift) *)
Definition measure_drift (m : RtcpClockMapper) (rtp ntp_time_us : Z) : Status * RtcpClockMapper :=
  if anchored m then
    let '(r, mp) := Rtp.RtpMap (mapper m) rtp in
    match r with
    | Err s => (s, mkRtcp mp (anchored m) (ntp_anchor_us m) (drift_us m))
    | Okay relative =>
        (Ok, mkRtcp mp (anchored m) (ntp_anchor_us m)
                    (ntp_time_us - (ntp_anchor_us m + microseconds relative)))
    end
  else (Ok, m).

(* [src/core/streaming_primitives.cpp:38-52] RtcpClockMapper::Update *)
Definition Update (m : RtcpClockMapper) (rtp ntp_time_us : Z) : Status * RtcpClockMapper :=
  let '(s, m1) := measure_drift m rtp ntp_time_us in
  if negb (ok s) then (s, m1)
  else
    let '(r, mp) := Rtp.RtpMap (Rtp.RtpReset (mapper m1)) rtp in
    match r with
    | Err s' => (s', mkRtcp mp (anchored m1) (ntp_anchor_us m1) (drift_us m1))
    | Okay _ => (Ok, mkRtcp mp true ntp_time_us (drift_us m1))
    end.

(* [src/core/streaming_primitives.cpp:54-62] RtcpClockMapper::Map *)
Definition RtcpMap (m : RtcpClockMapper) (rtp : Z) : Res Timestamp * RtcpClockMapper :=
  if negb (anchored m) then
    (Err (FailedPrecondition "RTCP clock mapper has no sender-report anchor"), m)
  else
    let '(r, mp) := Rtp.RtpMap (mapper m) rtp in
    let m' := mkRtcp mp (anchored m) (ntp_anchor_us m) (drift_us m) in
    match r with
    | Err s => (Err s, m')
    | Okay relative => (Okay (FromMicroseconds (ntp_anchor_us m + microseconds relative)), m')
    end.

(** The mapper is synchronised with a report taken at tick [t0]. *)
Definition anchored_at (m : RtcpClockMapper) (t0 ntp : Z) : Prop :=
  anchored m = true /\ ntp_anchor_us m = ntp /\ Rtp.tracks t0 t0 (mapper m).

Lemma Rtp_Map_rate m r : Rtp.clock_rate (snd (Rtp.RtpMap m r)) = Rtp.clock_rate m.
Proof.
  unfold Rtp.RtpMap, Rtp.advance. destruct (_ =? _); [done|].
  destruct (Rtp.initialized m); done.
Qed.

Lemma Rtp_Map_ok m r : 0 < Rtp.clock_rate m -> exists t, fst (Rtp.RtpMap m r) = Okay t.
Proof.
  intros. unfold Rtp.RtpMap. rewrite (proj2 (Z.eqb_neq _ _)) by lia. simpl. eauto.
Qed.

Lemma Update_anchors m t0 ntp :
  0 < Rtp.clock_rate (mapper m) ->
  exists m', Update m (t0 mod u32_mod) ntp = (Ok, m') /\ anchored_at m' t0 ntp /\
    Rtp.clock_rate (mapper m') = Rtp.clock_rate (mapper m) /\
    drift_us m' = drift_us (snd (measure_drift m (t0 mod u32_mod) ntp)).
Proof.
  intros Hr. unfold Update.
  assert (exists m1, measure_drift m (t0 mod u32_mod) ntp = (Ok, m1) /\
            Rtp.clock_rate (mapper m1) = Rtp.clock_rate (mapper m)) as (m1 & -> & Hm1).
  { unfold measure_drift. destruct (anchored m); [|eauto].
    destruct (Rtp_Map_ok (mapper m) (t0 mod u32_mod) Hr) as [t Ht].
    pose proof (Rtp_Map_rate (mapper m) (t0 mod u32_mod)) as Hrate.
    destruct (Rtp.RtpMap _ _) as [r mp]. simpl in *. subst. eauto. }
  simpl. unfold Rtp.RtpMap. simpl. rewrite (proj2 (Z.eqb_neq _ _)) by lia. simpl.
  eexists. split_and!; [done| |simpl; done|done].
  unfold anchored_at; simpl. split_and!; try done.
  apply (Rtp.advance_first (Rtp.RtpReset (mapper m1)) t0); done.
Qed.

(** After a sender report (tick [t0] of the sender's clock at wall-clock time [ntp])
    a packet of tick [t], up to 2^31 ticks later, is mapped to the wall-clock time of the
    report plus the elapsed time, across a wrap of the 32-bit counter; and the next report
    records as drift exactly the difference between its own wall-clock time and the time
    the mapper predicted. *)
Theorem rtcp_maps_wallclock m t0 ntp t ntp' :
  0 < Rtp.clock_rate (mapper m) -> 0 <= t0 -> 0 <= t - t0 <= 2 ^ 31 ->
  Rtp.representable (Rtp.clock_rate (mapper m)) t0 t ->
  let m1 := snd (Update m (t0 mod u32_mod) ntp) in
  let expected := ntp + (t - t0) * 1000000 / Rtp.clock_rate (mapper m) in
  fst (RtcpMap m1 (t mod u32_mod)) = Okay (mkTs expected) /\
  drift_us (snd (Update m1 (t mod u32_mod) ntp')) = ntp' - expected.
Proof.
  intros Hr Ht0 Hd Hrep. simpl.
  destruct (Update_anchors m t0 ntp Hr) as (m1 & -> & (Ha & Hn & Htr) & Hr1 & _). simpl.
  destruct (Rtp.advance_next (mapper m1) t0 t0 t) as [Htr' Hcr]; [lia|done|done| |].
  { destruct Hrep as (_ & ? & _). done. }
  assert (fst (Rtp.RtpMap (mapper m1) (t mod u32_mod)) =
          Okay (mkTs ((t - t0) * 1000000 / Rtp.clock_rate (mapper m)))) as HM.
  { rewrite <- Hr1. apply Rtp.Map_tracks; rewrite ?Hr1; try done; lia. }
  split.
  - unfold RtcpMap. rewrite Ha. simpl. destruct (Rtp.RtpMap _ _) as [r mp]. simpl in *. subst. done.
  - destruct (Update_anchors m1 t ntp') as (m2 & -> & _ & _ & Hdr); [lia|].
    simpl. rewrite Hdr. unfold measure_drift. rewrite Ha. destruct (Rtp.RtpMap _ _) as [r mp]. simpl in *.
    subst. done.
Qed.

Lemma rtcp_maps_wallclock_witness :
  fst (RtcpMap (snd (Update (NewRtcp 90000) 4294967295 5000000)) 89999) = Okay (mkTs 6000000) /\
  drift_us (snd (Update (snd (Update (NewRtcp 90000) 4294967295 5000000)) 89999 6000250)) = 250.
Proof.
  apply (rtcp_maps_wallclock (NewRtcp 90000) 4294967295 5000000 4295057295 6000250).
  - reflexivity.
  - lia.
  - lia.
  - unfold Rtp.representable. vm_compute. intuition discriminate.
Defined.

End Rtcp.

(** ** Reconnect back-off *)

Module Backoff.

(** [static_cast<std::int64_t>(double)]: truncation, undefined outside the
    range of the target type. *)
Definition i64_of_double (d : spec_float) : option Z :=
  match d with
  | S754_zero _ => Some 0
  | S754_finite s m e =>
      let a := if 0 <=? e then Z.pos m * 2 ^ e else Z.pos m / 2 ^ (- e) in
      let v := if s then - a else a in
      if (int64_min <=? v) && (v <=? int64_max) then Some v else None
  | _ => None
  end.

Definition one : spec_float := double_of_Z 1.

(* [include/rkavp/streaming_primitives.hpp:41-55] ReconnectBackoff *)
Record ReconnectBackoff := mkBackoff {
  initial_delay_ms : Z;
  max_delay_ms : Z;
  multiplier : spec_float;
  next_delay_ms : Z;
  attempts : Z }.

(* [src/core/streaming_primitives.cpp:64-69] ReconnectBackoff::ReconnectBackoff *)
Definition NewBackoff (initial max : Z) (mult : spec_float) : ReconnectBackoff :=
  let i := Z.max 0 initial in
  mkBackoff i (Z.max i max) (if SFltb one mult then mult else one) i 0.

(* [src/core/streaming_primitives.cpp:71-77] ReconnectBackoff::NextDelayMs *)
Definition NextDelayMs (b : ReconnectBackoff) : option (Z * ReconnectBackoff) :=
  let scaled := SFmul 53 1024 (double_of_Z (next_delay_ms b)) (multiplier b) in
  v ← i64_of_double scaled;
  Some (next_delay_ms b,
        mkBackoff (initial_delay_ms b) (max_delay_ms b) (multiplier b)
                  (Z.min (max_delay_ms b) v) (u64 (attempts b + 1))).

(* [src/core/streaming_primitives.cpp:79-82] ReconnectBackoff::Reset *)
Definition BackoffReset (b : ReconnectBackoff) : ReconnectBackoff :=
  mkBackoff (initial_delay_ms b) (max_delay_ms b) (multiplier b) (initial_delay_ms b) 0.

Fixpoint delays (n : nat) (b : ReconnectBackoff) : option (list Z) :=
  match n with
  | O => Some []
  | S n' => '(d, b') ← NextDelayMs b; ds ← delays n' b'; Some (d :: ds)
  end.

Definition positive_sign (d : spec_float) : Prop :=
  match d with S754_zero s | S754_infinity s | S754_finite s _ _ => s = false | S754_nan => True end.

Lemma binary_round_aux_sign prec emax s m e l :
  match binary_round_aux prec emax s m e l with
  | S754_zero s' | S754_infinity s' | S754_finite s' _ _ => s' = s
  | S754_nan => True
  end.
Proof.
  unfold binary_round_aux. destruct (shr_fexp _ _ m e l) as [[m1 ? ?] e1].
  destruct (shr_fexp _ _ _ _ _) as [[m2 ? ?] e2]. simpl.
  destruct m2; simpl; auto. destruct (_ <=? _); simpl; auto.
Qed.

Lemma SFmul_sign x y : positive_sign x -> positive_sign y -> positive_sign (SFmul 53 1024 x y).
Proof.
  destruct x as [s|s| |s m e], y as [s'|s'| |s' m' e']; simpl; intros; subst; try done.
  pose proof (binary_round_aux_sign 53 1024 (xorb false false) (Z.pos (m * m')) (e + e')
                loc_Exact) as H.
  simpl in H. destruct (binary_round_aux _ _ _ _ _ _); simpl in *; auto.
Qed.

Lemma double_of_Z_sign z : 0 <= z -> positive_sign (double_of_Z z).
Proof.
  intros Hz. unfold double_of_Z, binary_normalize. destruct z; [done| |lia].
  unfold binary_round. destruct (shl_align _ _ _) as [m e].
  pose proof (binary_round_aux_sign 53 1024 false (Z.pos m) e loc_Exact) as H.
  destruct (binary_round_aux _ _ _ _ _ _); simpl in *; auto.
Qed.

Lemma i64_of_double_nonneg d v : positive_sign d -> i64_of_double d = Some v -> 0 <= v.
Proof.
  destruct d as [s|s| |s m e]; simpl; intros Hs H; simplify_eq; [lia|].
  destruct (0 <=? e) eqn:He; destruct (andb _ _) eqn:Hb; simplify_eq.
  - apply Z.leb_le in He. apply Z.mul_nonneg_nonneg; [lia|]. apply Z.pow_nonneg. lia.
  - apply Z.leb_gt in He. apply Z.div_pos; [lia|]. apply Z.pow_pos_nonneg; lia.
Qed.

(** The state every constructed and every advanced back-off is in. *)
Definition backoff_wf (b : ReconnectBackoff) : Prop :=
  0 <= initial_delay_ms b <= max_delay_ms b /\ 0 <= next_delay_ms b <= max_delay_ms b /\
  positive_sign (multiplier b).

Lemma NewBackoff_wf i m mult : backoff_wf (NewBackoff i m mult).
Proof.
  unfold backoff_wf, NewBackoff; simpl. split_and!; try lia.
  destruct (SFltb one mult) eqn:E; [|done].
  unfold SFltb in E. destruct mult as [[]|[]| |[] ? ?]; done.
Qed.

Lemma NextDelayMs_wf b d b' :
  backoff_wf b -> NextDelayMs b = Some (d, b') ->
  backoff_wf b' /\ 0 <= d <= max_delay_ms b /\ max_delay_ms b' = max_delay_ms b.
Proof.
  intros (Hi & Hn & Hm) H. unfold NextDelayMs in H.
  apply bind_Some in H as (v & Hv & [= <- <-]).
  apply i64_of_double_nonneg in Hv; [|by apply SFmul_sign; [apply double_of_Z_sign; lia|]].
  unfold backoff_wf; simpl. split_and!; try done; lia.
Qed.

(** For every configuration (also a negative or inverted one, or a multiplier below
    one or not a number) every delay the back-off yields, for any number of attempts, is
    between zero and the configured maximum (raised to the initial delay if that is
    larger). *)
Theorem backoff_delays_bounded n i m mult ds :
  delays n (NewBackoff i m mult) = Some ds ->
  Forall (fun d => 0 <= d <= Z.max (Z.max 0 i) m) ds.
Proof.
  pose proof (NewBackoff_wf i m mult) as Hwf.
  change (Z.max (Z.max 0 i) m) with (max_delay_ms (NewBackoff i m mult)).
  revert Hwf ds. generalize (NewBackoff i m mult).
  induction n as [|n IH]; intros b Hwf ds; simpl; [intros [= <-]; constructor|].
  intros ([d b'] & Hd & (ds' & Hds & [= <-])%bind_Some)%bind_Some.
  destruct (NextDelayMs_wf b d b' Hwf Hd) as (Hwf' & Hb & Hmax).
  constructor; [done|]. rewrite <- Hmax. by apply IH.
Qed.

(** With the defaults of the streaming session the delays double up to the
    maximum and are defined for every attempt shown. *)
Lemma backoff_delays_bounded_witness :
  delays 8 (NewBackoff 500 30000 (double_of_Z 2)) =
    Some [500; 1000; 2000; 4000; 8000; 16000; 30000; 30000] /\
  Forall (fun d => 0 <= d <= Z.max (Z.max 0 500) 30000)
    [500; 1000; 2000; 4000; 8000; 16000; 30000; 30000].
Proof.
  split; [vm_compute; reflexivity|].
  apply (backoff_delays_bounded 8 500 30000 (double_of_Z 2)). vm_compute. reflexivity.
Defined.

End Backoff.

(** ** The jitter buffer *)

Module Jitter.

(* [include/rkavp/streaming_primitives.hpp:57-72] EncodedJitterBuffer *)
Record EncodedJitterBuffer := mkJitter {
  capacity : nat;
  max_latency_us : Z;
  packets : list EncodedPacket;
  last_output_pts : Timestamp;
  closed : bool }.

(* [src/core/streaming_primitives.cpp:84-86] EncodedJitterBuffer::EncodedJitterBuffer *)
Definition NewJitter (cap : nat) (latency : Z) : EncodedJitterBuffer :=
  mkJitter (if decide (cap = 0%nat) then 1%nat else cap) (Z.max 0 latency) [] Unset false.

(** Insertion at [std::upper_bound(packets, pts)]: after every packet that is
    not later. *)
(* [src/core/streaming_primitives.cpp:97-100] EncodedJitterBuffer::Push (insertion) *)
Fixpoint insert_upper (p : EncodedPacket) (l : list EncodedPacket) : list EncodedPacket :=
  match l with
  | [] => [p]
  | x :: l' => if ts_ltb (ep_pts p) (ep_pts x) then p :: l else x :: insert_upper p l'
  end.

(** The status, the [dropped] flag and the new state. *)
(* [src/core/streaming_primitives.cpp:88-106] EncodedJitterBuffer::Push *)
Definition Push (b : EncodedJitterBuffer) (p : EncodedPacket) :
    Status * bool * EncodedJitterBuffer :=
  if closed b then (Cancelled "jitter buffer is closed", false, b)
  else if negb (is_range_value (ep_pts p)) then (Invalid "jitter packet requires PTS", false, b)
  else if is_range_value (last_output_pts b) && ts_leb (ep_pts p) (last_output_pts b)
  then (Ok, true, b)
  else
    let l := insert_upper p (packets b) in
    let with_packets l' :=
      mkJitter (capacity b) (max_latency_us b) l' (last_output_pts b) (closed b) in
    if decide (capacity b < length l)%nat then (Ok, true, with_packets (tail l))
    else (Ok, false, with_packets l).

(* [src/core/streaming_primitives.cpp:108-118] EncodedJitterBuffer::PopReady *)
Definition PopReady (b : EncodedJitterBuffer) (watermark : Timestamp) :
    option EncodedPacket * EncodedJitterBuffer :=
  match packets b with
  | [] => (None, b)
  | p :: rest =>
      if negb (is_range_value watermark) then (None, b)
      else
        let deadline := FromMicroseconds (microseconds watermark - max_latency_us b) in
        if ts_ltb deadline (ep_pts p) then (None, b)
        else (Some p, mkJitter (capacity b) (max_latency_us b) rest (ep_pts p) (closed b))
  end.

(* [src/core/streaming_primitives.cpp:120-124] EncodedJitterBuffer::Close *)
Definition Close (b : EncodedJitterBuffer) : EncodedJitterBuffer :=
  mkJitter (capacity b) (max_latency_us b) [] (last_output_pts b) true.

Definition pts_le (a b : EncodedPacket) : Prop := ts_le (ep_pts a) (ep_pts b).

#[export] Instance pts_le_preorder : PreOrder pts_le.
Proof. split; unfold pts_le; [intros ?; done|intros ???; apply transitivity]. Qed.

(** ** Representation invariant *)

Definition jitter_wf (b : EncodedJitterBuffer) : Prop :=
  StronglySorted pts_le (packets b) /\
  Forall (fun p => is_range_value (ep_pts p) = true) (packets b) /\
  (is_range_value (last_output_pts b) = true ->
   Forall (fun p => ts_le (last_output_pts b) (ep_pts p)) (packets b)) /\
  (length (packets b) <= capacity b)%nat.

Lemma insert_upper_perm p l : insert_upper p l ≡ₚ p :: l.
Proof.
  induction l as [|x l IH]; simpl; [done|]. case_match; [done|]. rewrite IH.
  apply Permutation_swap.
Qed.

Lemma insert_upper_sorted p l :
  StronglySorted pts_le l -> StronglySorted pts_le (insert_upper p l).
Proof.
  induction 1 as [|x l Hs IH Hx]; simpl; [repeat constructor|].
  destruct (ts_ltb (ep_pts p) (ep_pts x)) eqn:E.
  - apply ts_ltb_lt in E. assert (pts_le p x) by (unfold pts_le, ts_le, ts_lt in *; lia).
    constructor; [by constructor|]. constructor; [done|].
    eapply Forall_impl; [exact Hx|]. intros y Hy. by trans x.
  - apply ts_ltb_ge in E. constructor; [done|].
    rewrite insert_upper_perm. by constructor.
Qed.

Lemma NewJitter_wf cap lat : jitter_wf (NewJitter cap lat).
Proof. unfold jitter_wf; simpl. split_and!; repeat constructor. simpl. lia. Qed.

Lemma Jitter_Push_wf b p s d b' :
  jitter_wf b -> Push b p = (s, d, b') -> jitter_wf b'.
Proof.
  intros Hwf. pose proof Hwf as (Hs & Hr & Hl & Hc). unfold Push.
  destruct (closed b); [by intros [= <- <- <-]|].
  destruct (is_range_value (ep_pts p)) eqn:Hp; simpl; [|by intros [= <- <- <-]].
  destruct (_ && _) eqn:Ho; [by intros [= <- <- <-]|].
  assert (Forall (fun q => is_range_value (ep_pts q) = true) (insert_upper p (packets b))) as Hr'
    by (rewrite insert_upper_perm; by constructor).
  assert (is_range_value (last_output_pts b) = true ->
          Forall (fun q => ts_le (last_output_pts b) (ep_pts q)) (insert_upper p (packets b))) as Hl'.
  { intros Hlo. rewrite insert_upper_perm. constructor; [|by apply Hl].
    rewrite Hlo in Ho. simpl in Ho. unfold ts_leb in Ho. apply Z.leb_gt in Ho.
    unfold ts_le. lia. }
  pose proof (insert_upper_sorted p _ Hs) as Hs'.
  pose proof (Permutation_length (insert_upper_perm p (packets b))) as Hlen. simpl in Hlen.
  case_decide; intros [= <- <- <-]; unfold jitter_wf; simpl;
    split_and!; auto using StronglySorted_tail, Forall_tail.
  - rewrite length_tl. lia.
  - lia.
Qed.

Lemma PopReady_wf b w o b' : jitter_wf b -> PopReady b w = (o, b') -> jitter_wf b'.
Proof.
  intros Hwf. pose proof Hwf as (Hs & Hr & Hl & Hc). unfold PopReady.
  destruct (packets b) as [|p rest] eqn:E; [by intros [= <- <-]|].
  destruct (is_range_value w); simpl; [|by intros [= <- <-]].
  destruct (ts_ltb _ _); intros [= <- <-]; [done|].
  unfold jitter_wf; simpl in *. apply StronglySorted_inv in Hs as [Hs1 Hs2].
  inversion Hr; subst. split_and!; auto. lia.
Qed.

(** ** Sequences of operations *)

Inductive JOp := JPush (p : EncodedPacket) | JPop (watermark : Timestamp) | JClose.

(** One operation: the packet it hands out, if any, and the new state. *)
Definition exec_jop (op : JOp) (b : EncodedJitterBuffer) :
    option EncodedPacket * EncodedJitterBuffer :=
  match op with
  | JPush p => (None, snd (Push b p))
  | JPop w => PopReady b w
  | JClose => (None, Close b)
  end.

Fixpoint run_jitter (ops : list JOp) (b : EncodedJitterBuffer) :
    list EncodedPacket * EncodedJitterBuffer :=
  match ops with
  | [] => ([], b)
  | op :: rest =>
      let '(o, b') := exec_jop op b in
      let '(out, b'') := run_jitter rest b' in
      (option_list o ++ out, b'')
  end.

Lemma exec_jop_wf op b o b' : jitter_wf b -> exec_jop op b = (o, b') -> jitter_wf b'.
Proof.
  intros Hwf. destruct op as [p|w|]; simpl.
  - destruct (Push b p) as [[s d] b1] eqn:E. intros [= <- <-]. by eapply Jitter_Push_wf.
  - by apply PopReady_wf.
  - intros [= <- <-]. destruct Hwf as (_ & _ & _ & _). unfold jitter_wf; simpl.
    split_and!; [constructor|constructor|constructor|lia].
Qed.

(** The last output only moves forward, and it is the packet handed out. *)
Lemma exec_jop_output op b o b' :
  jitter_wf b -> exec_jop op b = (o, b') ->
  match o with
  | Some p => last_output_pts b' = ep_pts p /\ is_range_value (ep_pts p) = true /\
              (is_range_value (last_output_pts b) = true -> ts_le (last_output_pts b) (ep_pts p))
  | None => last_output_pts b' = last_output_pts b
  end.
Proof.
  intros (Hs & Hr & Hl & Hc). destruct op as [p|w|]; simpl.
  - unfold Push. destruct (closed b); [by intros [= <- <-]|].
    destruct (is_range_value (ep_pts p)); simpl; [|by intros [= <- <-]].
    destruct (_ && _); [by intros [= <- <-]|].
    case_decide; by intros [= <- <-].
  - unfold PopReady. destruct (packets b) as [|p rest] eqn:E; [by intros [= <- <-]|].
    destruct (is_range_value w); simpl; [|by intros [= <- <-]].
    destruct (ts_ltb _ _); intros [= <- <-]; [done|]. simpl.
    inversion Hr; subst. split_and!; auto. intros Hlo. specialize (Hl Hlo). by inversion Hl.
  - by intros [= <- <-].
Qed.

Lemma run_jitter_sorted ops b out b' :
  jitter_wf b -> run_jitter ops b = (out, b') ->
  jitter_wf b' /\ StronglySorted pts_le out /\
  (is_range_value (last_output_pts b) = true ->
   Forall (fun p => ts_le (last_output_pts b) (ep_pts p)) out).
Proof.
  revert b out. induction ops as [|op ops IH]; intros b out Hwf; simpl.
  { intros [= <- <-]. split_and!; [done|constructor|intros; constructor]. }
  destruct (exec_jop op b) as [o b1] eqn:E1. destruct (run_jitter ops b1) as [out1 b2] eqn:E2.
  intros [= <- <-].
  pose proof (exec_jop_output _ _ _ _ Hwf E1) as Ho.
  destruct (IH b1 out1 (exec_jop_wf _ _ _ _ Hwf E1) E2) as (Hwf' & Hs & Hf).
  destruct o as [p|]; simpl.
  - destruct Ho as (Hlast & Hrange & Hle). rewrite Hlast in Hf. specialize (Hf Hrange).
    split_and!; [done|by constructor|].
    intros Hlo. specialize (Hle Hlo). constructor; [done|].
    eapply Forall_impl; [exact Hf|]. intros q Hq. simpl in Hq. by trans (ep_pts p).
  - rewrite Ho in Hf. done.
Qed.

(** Whatever the order in which packets arrive and whenever the buffer is polled or
    closed, the packets the jitter buffer hands out have non-decreasing presentation
    times, and it never holds more packets than its capacity. *)
Theorem jitter_output_sorted cap latency ops out b :
  run_jitter ops (NewJitter cap latency) = (out, b) ->
  StronglySorted pts_le out /\ (length (packets b) <= Nat.max 1 cap)%nat.
Proof.
  intros H. pose proof (run_jitter_sorted _ _ _ _ (NewJitter_wf cap latency) H) as (Hwf & Hs & _).
  split; [done|]. destruct Hwf as (_ & _ & _ & Hc).
  assert (capacity b = capacity (NewJitter cap latency)) as Hcap.
  { revert H. generalize (NewJitter cap latency). clear.
    induction ops as [|op ops IH] in out |- *; intros b0; simpl; [by intros [= <- <-]|].
    destruct (exec_jop op b0) as [o b1] eqn:E1. destruct (run_jitter ops b1) eqn:E2.
    intros [= <- <-]. rewrite (IH _ _ E2).
    destruct op as [p|w|]; simpl in E1; [| |by simplify_eq].
    - injection E1 as _ <-. unfold Push. repeat case_match; simplify_eq/=; done.
    - unfold PopReady in E1. repeat case_match; simplify_eq/=; done. }
  rewrite Hcap in Hc. simpl in Hc. case_decide; lia.
Qed.

Definition sample (us : Z) : EncodedPacket :=
  mkEncodedPacket (mkTs us) (mkTs us) "h264" false None.

Lemma jitter_output_sorted_witness :
  StronglySorted pts_le [sample 10; sample 20] /\ (1 <= Nat.max 1 4)%nat.
Proof.
  apply (jitter_output_sorted 4 5
    [JPush (sample 20); JPush (sample 10); JPop (mkTs 30); JPop (mkTs 30); JPush (sample 15);
     JPush (sample 40); JPop (mkTs 30)] _
    (mkJitter 4 5 [sample 40] (mkTs 20) false)).
  vm_compute. reflexivity.
Defined.

(** Handing a packet out respects the latency window: [PopReady] yields the earliest
    buffered packet, and it does so exactly when the watermark is a range value that is at
    least [max_latency_us] past that packet's presentation time. *)
Theorem jitter_pop_ready b w p rest :
  jitter_wf b -> packets b = p :: rest ->
  (fst (PopReady b w) = Some p <->
   is_range_value w = true /\ microseconds (ep_pts p) + max_latency_us b <= microseconds w) /\
  Forall (pts_le p) rest.
Proof.
  intros (Hs & _) E. unfold PopReady. rewrite E in *. split.
  - destruct (is_range_value w); simpl; [|naive_solver].
    unfold ts_ltb, FromMicroseconds; simpl. destruct (_ <? _) eqn:El; simpl;
      [apply Z.ltb_lt in El|apply Z.ltb_ge in El]; split; intros; try done;
      [destruct_and!; lia|split; [done|lia]].
  - by apply StronglySorted_inv in Hs as [_ ?].
Qed.

Lemma jitter_pop_ready_witness :
  (fst (PopReady (mkJitter 4 5 [sample 10; sample 20] Unset false) (mkTs 15)) = Some (sample 10) <->
   is_range_value (mkTs 15) = true /\ 10 + 5 <= 15) /\ Forall (pts_le (sample 10)) [sample 20].
Proof.
  apply (jitter_pop_ready (mkJitter 4 5 [sample 10; sample 20] Unset false) (mkTs 15)
           (sample 10) [sample 20]).
  - unfold jitter_wf; simpl. split_and!.
    + repeat constructor. unfold pts_le, ts_le; simpl. lia.
    + repeat constructor.
    + intros H. vm_compute in H. discriminate.
    + lia.
  - reflexivity.
Defined.

End Jitter.
