(* ===== verification/Buffer.v ===== *)
(** * Buffers

    [include/rkavp/buffer.hpp], [src/core/buffer.cpp]: buffers in host memory, DMA buffers, with the
    descriptors they own and their cache synchronisation, and the buffer pool.

    The kernel is a parameter: [dup] stands for [fcntl(F_DUPFD_CLOEXEC)] on a
    table of open descriptors and [ioctl] for the DMA-BUF synchronisation call,
    whose result may depend on the calls made before.  [std::unordered_set] is
    a list without duplicates in insertion order: no statement below depends on
    the order in which it is traversed. *)

From S2P Require Import Prelude Status.

(* [include/rkavp/buffer.hpp:17-17] MemoryType *)
Inductive MemoryType := kHost | kDmaBuf | kMpp | kRknn | kOpenCl.
#[export] Instance MemoryType_eq_dec : EqDecision MemoryType.
Proof. solve_decision. Defined.
(* [include/rkavp/buffer.hpp:18-18] MapAccess *)
Inductive MapAccess := kRead | kWrite | kReadWrite.
(* [include/rkavp/buffer.hpp:19-19] SyncDirection *)
Inductive SyncDirection := kDeviceToCpu | kCpuToDevice.

(* [include/rkavp/buffer.hpp:21-28] BufferPlane *)
Record BufferPlane := mkPlane {
  pl_fd : Z;
  pl_offset : Z;
  pl_size : Z;
  pl_row_stride : Z;
  pl_pixel_stride : Z;
  pl_modifier : Z }.

Definition plane_with_fd (p : BufferPlane) (fd : Z) : BufferPlane :=
  mkPlane fd (pl_offset p) (pl_size p) (pl_row_stride p) (pl_pixel_stride p) (pl_modifier p).

(** ** Buffers in host memory *)

Module Host.

(** The pointer that [Map] and [data] return is the sequence of bytes itself. *)
(* [include/rkavp/buffer.hpp:67-69] HostBuffer (fields) *)
Record HostBuffer := mkHost { bytes : list Z; planes : list BufferPlane }.

(* [include/rkavp/buffer.hpp:56-56] HostBuffer::HostBuffer *)
Definition NewHost (size : nat) : HostBuffer :=
  mkHost (replicate size 0) [mkPlane (-1) 0 (Z.of_nat size) 0 0 0].
(* [include/rkavp/buffer.hpp:57-58] HostBuffer::HostBuffer (bytes) *)
Definition OfBytes (l : list Z) : HostBuffer := mkHost l [mkPlane (-1) 0 (Z.of_nat (length l)) 0 0 0].
(* [include/rkavp/buffer.hpp:60-60] HostBuffer::memory_type *)
Definition memory_type (b : HostBuffer) : MemoryType := kHost.
(* [include/rkavp/buffer.hpp:61-61] HostBuffer::size *)
Definition size (b : HostBuffer) : nat := length (bytes b).
(* [include/rkavp/buffer.hpp:63-65] HostBuffer::Map, data *)
Definition data (b : HostBuffer) : list Z := bytes b.

(* [src/core/buffer.cpp:139-144] HostBufferAllocator::Allocate *)
Definition Allocate (n : nat) : Res HostBuffer :=
  if bool_decide (n = 0%nat) then Err (Invalid "buffer output and positive size are required")
  else Okay (NewHost n).

(** The planes lie inside the memory that is mapped. *)
Definition planes_inside (b : HostBuffer) : Prop :=
  Forall (fun p => 0 <= pl_offset p /\ pl_offset p + pl_size p <= Z.of_nat (length (data b))) (planes b).

Lemma allocate_inside n b : Allocate n = Okay b -> size b = n /\ (0 < n)%nat /\ planes_inside b.
Proof.
  unfold Allocate. case_bool_decide; [done|]. intros [= <-]. unfold size, planes_inside, data. simpl.
  rewrite length_replicate. split_and!; [done|lia|]. repeat constructor; simpl; lia.
Qed.
Lemma of_bytes_inside l : size (OfBytes l) = length l /\ planes_inside (OfBytes l).
Proof. split; [done|]. repeat constructor; simpl; lia. Qed.
End Host.

(** ** DMA buffers: descriptor ownership *)

Module Dma.

(* [include/rkavp/buffer.hpp:93-99] DmaBuffer (fields) *)
Record DmaBuffer := mkDma {
  fd : Z;
  size : Z;
  planes : list BufferPlane;
  owned_fds : list Z;
  mapped : bool }.

(* [src/core/buffer.cpp:50-60] DmaBuffer::DmaBuffer *)
Definition NewDma (fd0 size0 : Z) (pls : list BufferPlane) : DmaBuffer :=
  let pls1 := match pls with [] => [mkPlane fd0 0 size0 0 0 0] | _ => pls end in
  let pls2 := map (fun p => if pl_fd p <? 0 then plane_with_fd p fd0 else p) pls1 in
  let fds := fd0 :: map pl_fd (filter (fun p => 0 <= pl_fd p) pls2) in
  mkDma fd0 size0 pls2 (remove_dups fds) false.

(** A C++ exception. *)
Inductive Thrown := invalid_argument (what : string) | runtime_error (what : string).

(* [src/core/buffer.cpp:62-66] DmaBuffer::Adopt *)
Definition Adopt (fd0 size0 : Z) (pls : list BufferPlane) : Thrown + DmaBuffer :=
  if fd0 <? 0 then inl (invalid_argument "cannot adopt invalid dma-buf fd")
  else inr (NewDma fd0 size0 pls).

Section duplicate.
Context (dup : gset Z -> Z -> option Z).

(** The table of open descriptors of the process, and the local map
    [duplicates] from source to duplicate. *)
Record FdState := mkFdState { open_fds : gset Z; duplicates : list (Z * Z) }.

Definition find_dup (l : list (Z * Z)) (src : Z) : option Z :=
  snd <$> List.find (fun p => fst p =? src) l.

(* [src/core/buffer.cpp:72-78] DmaBuffer::Duplicate (duplicate_fd) *)
Definition duplicate_fd (s : FdState) (src : Z) : Z * FdState :=
  match find_dup (duplicates s) src with
  | Some d => (d, s)
  | None =>
      match dup (open_fds s) src with
      | Some d => (d, mkFdState ({[d]} ∪ open_fds s) (duplicates s ++ [(src, d)]))
      | None => (-1, s)
      end
  end.

(* [src/core/buffer.cpp:81-88] DmaBuffer::Duplicate (plane loop) *)
Fixpoint duplicate_planes (fd0 : Z) (pls : list BufferPlane) (s : FdState) :
    option (list BufferPlane) * FdState :=
  match pls with
  | [] => (Some [], s)
  | p :: rest =>
      let '(d, s1) := duplicate_fd s (if pl_fd p <? 0 then fd0 else pl_fd p) in
      if d <? 0 then (None, s1)
      else let '(r, s2) := duplicate_planes fd0 rest s1 in
           (cons (plane_with_fd p d) <$> r, s2)
  end.

Definition close_all (l : list Z) (open : gset Z) : gset Z :=
  fold_left (fun o d => o ∖ {[d]}) l open.

(* [src/core/buffer.cpp:68-90] DmaBuffer::Duplicate *)
Definition Duplicate (open : gset Z) (fd0 size0 : Z) (pls : list BufferPlane) :
    (Thrown + DmaBuffer) * gset Z :=
  if fd0 <? 0 then (inl (invalid_argument "cannot duplicate invalid dma-buf fd"), open)
  else
    let '(owned, s1) := duplicate_fd (mkFdState open []) fd0 in
    if owned <? 0 then (inl (runtime_error "dup failed for dma-buf fd"), open_fds s1)
    else
      let '(r, s2) := duplicate_planes fd0 pls s1 in
      match r with
      | None => (inl (runtime_error "dup failed for dma-buf plane fd"),
                 close_all (map snd (duplicates s2)) (open_fds s2))
      | Some pls' => (Adopt owned size0 pls', open_fds s2)
      end.

(* [src/core/buffer.cpp:92-96] DmaBuffer::~DmaBuffer *)
Definition Destroy (b : DmaBuffer) (open : gset Z) : gset Z :=
  close_all (List.filter (fun d => 0 <=? d) (owned_fds b)) open.

(** What [fcntl] documents: the new descriptor is non-negative and was not
    open. *)
Context (dup_fresh : forall open src d, dup open src = Some d -> 0 <= d /\ d ∉ open).

(** The descriptors created so far are exactly what distinguishes the table
    from the one the call started with. *)
Definition created (open : gset Z) (s : FdState) : Prop :=
  open_fds s = open ∪ list_to_set (map snd (duplicates s)) /\
  (forall d, d ∈ map snd (duplicates s) -> 0 <= d /\ d ∉ open).

Lemma close_all_spec l open : close_all l open = open ∖ list_to_set l.
Proof.
  revert open. induction l as [|d l IH]; intros open; simpl; [set_solver|].
  unfold close_all in *. simpl. rewrite IH. set_solver.
Qed.

Lemma close_created open s : created open s ->
  close_all (map snd (duplicates s)) (open_fds s) = open.
Proof.
  intros [-> Hd]. rewrite close_all_spec. apply set_eq. intros x.
  rewrite elem_of_difference, elem_of_union, elem_of_list_to_set.
  split; [naive_solver|]. intros Hx. split; [by left|]. intros Hin. by apply Hd in Hin as [_ ?].
Qed.

Lemma find_dup_elem l src d : find_dup l src = Some d -> d ∈ map snd l.
Proof.
  unfold find_dup. destruct (List.find _ l) as [[a b]|] eqn:E; simpl; [|done].
  intros [= <-]. apply List.find_some in E as [E _]. rewrite list_elem_of_In, in_map_iff.
  by exists (a, b).
Qed.

Lemma duplicate_fd_created open s src d s' :
  created open s -> duplicate_fd s src = (d, s') ->
  created open s' /\ (0 <= d -> d ∈ map snd (duplicates s')) /\
  (forall x, x ∈ map snd (duplicates s) -> x ∈ map snd (duplicates s')) /\
  (forall x, x ∈ map snd (duplicates s') -> x ∈ map snd (duplicates s) \/ x = d).
Proof.
  intros [Ho Hd]. unfold duplicate_fd. destruct (find_dup _ _) eqn:Ef.
  { intros [= <- <-]. split_and!; try done; [eauto using find_dup_elem|by left]. }
  destruct (dup _ _) eqn:Ed; intros [= <- <-].
  - apply dup_fresh in Ed as [Hz Hf]. rewrite Ho in Hf.
    unfold created. simpl. rewrite map_app. simpl. rewrite list_to_set_app_L. simpl.
    split_and!; [rewrite Ho; set_solver|set_solver|set_solver|set_solver|set_solver].
  - split_and!; try done; try lia; by left.
Qed.

Lemma duplicate_planes_created open fd0 pls s r s' :
  created open s -> duplicate_planes fd0 pls s = (r, s') ->
  created open s' /\
  (forall x, x ∈ map snd (duplicates s) -> x ∈ map snd (duplicates s')) /\
  (forall pls', r = Some pls' ->
     Forall (fun p => 0 <= pl_fd p /\ pl_fd p ∈ map snd (duplicates s')) pls' /\
     forall x, x ∈ map snd (duplicates s') ->
       x ∈ map snd (duplicates s) \/ x ∈ map pl_fd pls').
Proof.
  revert s r. induction pls as [|p pls IH]; intros s r Hc; simpl.
  { intros [= <- <-]. split_and!; [done|done|]. intros ? [= <-]. split; [done|by left]. }
  destruct (duplicate_fd s _) as [d s1] eqn:E1.
  destruct (duplicate_fd_created _ _ _ _ _ Hc E1) as (Hc1 & Hd1 & Hm1 & Hn1).
  destruct (d <? 0) eqn:Hneg; [intros [= <- <-]; naive_solver|].
  destruct (duplicate_planes fd0 pls s1) as [r2 s2] eqn:E2. intros [= <- <-].
  destruct (IH _ _ Hc1 E2) as (Hc2 & Hm2 & Hp2). apply Z.ltb_ge in Hneg.
  split_and!; [done|set_solver|]. intros pls' Hpls'.
  destruct r2 as [l|]; simpl in Hpls'; simplify_eq/=.
  destruct (Hp2 l eq_refl) as [Hf Hn2]. split.
  - constructor; [simpl; auto|done].
  - intros x Hx. destruct (Hn2 x Hx) as [Hx1|Hx1]; [|set_solver].
    destruct (Hn1 x Hx1) as [Hx2| ->]; set_solver.
Qed.

Lemma NewDma_owned fd0 size0 pls :
  Forall (fun p => 0 <= pl_fd p) pls -> 0 <= fd0 ->
  forall x, x ∈ owned_fds (NewDma fd0 size0 pls) <-> x = fd0 \/ x ∈ map pl_fd pls.
Proof.
  intros Hp Hf x. unfold NewDma; cbn [owned_fds]. rewrite elem_of_remove_dups, elem_of_cons.
  destruct pls as [|p pls]; simpl.
  - rewrite (proj2 (Z.ltb_ge fd0 0) Hf). simpl.
    rewrite filter_cons, decide_True by done. simpl. set_solver.
  - assert (map (fun p0 => if pl_fd p0 <? 0 then plane_with_fd p0 fd0 else p0) (p :: pls) = p :: pls)
      as Heq.
    { clear -Hp. induction Hp as [|q l Hq _ IH]; [done|]. cbn [map].
      rewrite (proj2 (Z.ltb_ge (pl_fd q) 0) Hq). by rewrite IH. }
    simpl in Heq. rewrite Heq. by rewrite filter_all.
Qed.

Lemma Duplicate_ok_created open fd0 size0 pls b open' :
  Duplicate open fd0 size0 pls = (inr b, open') ->
  exists s, open' = open_fds s /\ created open s /\
    forall x, x ∈ owned_fds b <-> x ∈ map snd (duplicates s).
Proof.
  unfold Duplicate. destruct (fd0 <? 0) eqn:Hz; [done|].
  destruct (duplicate_fd _ fd0) as [owned s1] eqn:E1. destruct (owned <? 0) eqn:Ho; [done|].
  assert (created open (mkFdState open [])) as Hc0 by (split; simpl; set_solver).
  destruct (duplicate_fd_created _ _ _ _ _ Hc0 E1) as (Hc1 & Hd1 & _ & Hn1).
  destruct (duplicate_planes fd0 pls s1) as [[pls'|] s2] eqn:E2; [|done].
  destruct (duplicate_planes_created _ _ _ _ _ _ Hc1 E2) as (Hc2 & Hm2 & Hp2).
  destruct (Hp2 pls' eq_refl) as [Hf Hn2]. apply Z.ltb_ge in Ho.
  unfold Adopt. rewrite (proj2 (Z.ltb_ge owned 0) Ho). intros [= <- <-].
  exists s2. split_and!; [done|done|]. intros x.
  rewrite NewDma_owned; [|by eapply Forall_impl; [exact Hf|naive_solver]|done]. split.
  - intros [->|Hx]; [auto|]. apply list_elem_of_fmap in Hx as (p & -> & Hp).
    rewrite Forall_forall in Hf. by apply Hf.
  - intros Hx. destruct (Hn2 x Hx) as [Hx1|Hx1]; [|by right].
    destruct (Hn1 x Hx1) as [Hx0| ->]; [simpl in Hx0; set_solver|by left].
Qed.

(** Duplicating a DMA buffer never leaks or steals a descriptor.  Whichever of the
    [dup] calls fails, a failed [Duplicate] leaves the table of open descriptors as it
    was; a successful one creates a buffer whose destructor closes exactly the descriptors
    it created, so that the table is again what it was before. *)
Theorem duplicate_no_leak open fd0 size0 pls :
  match Duplicate open fd0 size0 pls with
  | (inl _, open') => open' = open
  | (inr b, open') =>
      Destroy b open' = open /\ Forall (fun d => d ∈ open' /\ d ∉ open) (owned_fds b)
  end.
Proof.
  destruct (Duplicate open fd0 size0 pls) as [[e|b] open'] eqn:E.
  - revert E. unfold Duplicate. destruct (fd0 <? 0) eqn:Hz; [naive_solver|].
    assert (created open (mkFdState open [])) as Hc0 by (split; simpl; set_solver).
    destruct (duplicate_fd _ fd0) as [owned s1] eqn:E1.
    destruct (duplicate_fd_created _ _ _ _ _ Hc0 E1) as (Hc1 & Hd1 & _ & Hn1).
    destruct (owned <? 0) eqn:Ho.
    + intros [= _ <-]. revert E1. unfold duplicate_fd; simpl.
      destruct (dup open fd0) as [d|] eqn:Ed; intros [= <- <-]; [|done].
      apply dup_fresh in Ed as [? _]. apply Z.ltb_lt in Ho. lia.
    + destruct (duplicate_planes fd0 pls s1) as [[pls'|] s2] eqn:E2.
      * unfold Adopt. by rewrite Ho.
      * intros [= _ <-].
        destruct (duplicate_planes_created _ _ _ _ _ _ Hc1 E2) as (Hc2 & _ & _).
        by apply close_created.
  - destruct (Duplicate_ok_created _ _ _ _ _ _ E) as (s & -> & Hc & Hown). split.
    + pose proof Hc as [Ho Hd]. unfold Destroy. rewrite close_all_spec, Ho. apply set_eq.
      intros x. rewrite elem_of_difference, elem_of_union, !elem_of_list_to_set.
      rewrite !list_elem_of_In, List.filter_In, <- !list_elem_of_In, Hown, Z.leb_le.
      specialize (Hd x). naive_solver.
    + apply Forall_forall. intros x Hx%Hown. destruct Hc as [-> Hd].
      apply Hd in Hx as Hx'. set_solver.
Qed.
End duplicate.

(** A kernel that refuses to duplicate descriptor 7 and otherwise hands out the
    first number above 100 that is not in use. *)
Definition demo_dup (open : gset Z) (src : Z) : option Z :=
  if src =? 7 then None else Some (101 + set_fold Z.max 0 open).

Lemma demo_dup_fresh open src d : demo_dup open src = Some d -> 0 <= d /\ d ∉ open.
Proof.
  unfold demo_dup. destruct (src =? 7); [done|]. intros [= <-].
  assert (forall (X : gset Z), 0 <= set_fold Z.max 0 X /\
            forall x, x ∈ X -> x <= set_fold Z.max 0 X) as HX.
  { intros X. apply (set_fold_ind_L (fun r X => 0 <= r /\ forall x, x ∈ X -> x <= r));
      [set_solver by lia|]. intros x X' r Hx [H0 IH]. split; [lia|].
    intros y [->%elem_of_singleton|Hy]%elem_of_union; [lia|]. specialize (IH y Hy). lia. }
  destruct (HX open) as [H0 H]. split; [lia|]. intros Hin. specialize (H _ Hin). lia.
Qed.

Lemma duplicate_no_leak_witness :
  match Duplicate demo_dup {[3; 5]} 3 64 [mkPlane 5 0 32 0 0 0; mkPlane (-1) 32 32 0 0 0] with
  | (inl _, open') => open' = {[3; 5]}
  | (inr b, open') =>
      Destroy b open' = {[3; 5]} /\ Forall (fun d => d ∈ open' /\ d ∉ ({[3; 5]} : gset Z)) (owned_fds b)
  end /\ (fst (Duplicate demo_dup {[3; 7]} 3 64 [mkPlane 7 0 32 0 0 0]) =
          inl (runtime_error "dup failed for dma-buf plane fd")).
Proof.
  split.
  - apply (duplicate_no_leak demo_dup demo_dup_fresh {[3; 5]} 3 64
             [mkPlane 5 0 32 0 0 0; mkPlane (-1) 32 32 0 0 0]).
  - vm_compute. reflexivity.
Defined.

(** ** Cache synchronisation *)

(* [src/core/buffer.cpp:17-17] kSyncRead *)
Definition kSyncRead : Z := Z.shiftl 1 0.
(* [src/core/buffer.cpp:18-18] kSyncWrite *)
Definition kSyncWrite : Z := Z.shiftl 2 0.
(* [src/core/buffer.cpp:19-19] kSyncStart *)
Definition kSyncStart : Z := Z.shiftl 0 2.
(* [src/core/buffer.cpp:20-20] kSyncEnd *)
Definition kSyncEnd : Z := Z.shiftl 1 2.

(* [src/core/buffer.cpp:28-38] AccessFlags *)
Definition AccessFlags (a : MapAccess) : Z :=
  match a with
  | kRead => kSyncRead
  | kWrite => kSyncWrite
  | kReadWrite => Z.lor kSyncRead kSyncWrite
  end.

(** A synchronisation call: the descriptor and the flags. *)
Definition SyncCall : Type := Z * Z.

Section sync.
(** The result of the next [ioctl] given the calls made before: [None] for
    success or the text of [errno]. *)
Context (ioctl : list SyncCall -> SyncCall -> option string).

(* [src/core/buffer.cpp:40-46] SyncFd *)
Definition SyncFd (calls : list SyncCall) (fd0 : Z) (a : MapAccess) (phase : Z) :
    Status * list SyncCall :=
  let c := (fd0, Z.lor (AccessFlags a) phase) in
  (match ioctl calls c with
   | Some e => Internal ("DMA-BUF sync failed: " +:+ e)
   | None => Ok
   end, calls ++ [c]).

(** The roll-back loop: end the accesses already started, last first, ignoring
    the results. *)
Fixpoint end_started (started : list Z) (a : MapAccess) (calls : list SyncCall) : list SyncCall :=
  match started with
  | [] => calls
  | f :: rest => end_started rest a (snd (SyncFd calls f a kSyncEnd))
  end.

Fixpoint begin_from (started rest : list Z) (a : MapAccess) (calls : list SyncCall) :
    Status * list SyncCall :=
  match rest with
  | [] => (Ok, calls)
  | f :: rest' =>
      let '(st, calls') := SyncFd calls f a kSyncStart in
      if ok st then begin_from (f :: started) rest' a calls'
      else (st, end_started started a calls')
  end.

(* [src/core/buffer.cpp:98-107] DmaBuffer::BeginCpuAccess *)
Definition BeginCpuAccess (b : DmaBuffer) (a : MapAccess) (calls : list SyncCall) :
    Status * list SyncCall := begin_from [] (owned_fds b) a calls.

Fixpoint end_from (fds : list Z) (a : MapAccess) (first_error : Status) (calls : list SyncCall) :
    Status * list SyncCall :=
  match fds with
  | [] => (first_error, calls)
  | f :: rest =>
      let '(st, calls') := SyncFd calls f a kSyncEnd in
      end_from rest a (if negb (ok st) && ok first_error then st else first_error) calls'
  end.

(* [src/core/buffer.cpp:109-116] DmaBuffer::EndCpuAccess *)
Definition EndCpuAccess (b : DmaBuffer) (a : MapAccess) (calls : list SyncCall) :
    Status * list SyncCall := end_from (owned_fds b) a Ok calls.

(* [src/core/buffer.cpp:118-121] DmaBuffer::Sync *)
Definition Sync (b : DmaBuffer) (d : SyncDirection) (calls : list SyncCall) :
    Status * list SyncCall :=
  match d with
  | kDeviceToCpu => BeginCpuAccess b kReadWrite calls
  | kCpuToDevice => EndCpuAccess b kReadWrite calls
  end.

Definition starts (a : MapAccess) (fds : list Z) : list SyncCall :=
  map (fun f => (f, Z.lor (AccessFlags a) kSyncStart)) fds.
Definition ends (a : MapAccess) (fds : list Z) : list SyncCall :=
  map (fun f => (f, Z.lor (AccessFlags a) kSyncEnd)) fds.

Lemma end_started_calls started a calls :
  end_started started a calls = calls ++ ends a started.
Proof.
  revert calls. induction started as [|f l IH]; intros calls; simpl.
  - by rewrite app_nil_r.
  - rewrite IH. by rewrite <- app_assoc.
Qed.

Lemma end_from_calls fds a e calls : snd (end_from fds a e calls) = calls ++ ends a fds.
Proof.
  revert e calls. induction fds as [|f l IH]; intros e calls; simpl.
  - by rewrite app_nil_r.
  - rewrite IH. by rewrite <- app_assoc.
Qed.

Lemma begin_from_calls started rest a calls st calls' :
  begin_from started rest a calls = (st, calls') ->
  (st = Ok /\ calls' = calls ++ starts a rest) \/
  (ok st = false /\ exists done f todo, rest = done ++ f :: todo /\
     calls' = calls ++ starts a (done ++ [f]) ++ ends a (rev done ++ started)).
Proof.
  revert started calls. induction rest as [|f rest IH]; intros started calls; simpl.
  { intros [= <- <-]. left. by rewrite app_nil_r. }
  destruct (ioctl calls _) as [e|]; simpl.
  - intros [= <- <-]. right. split; [done|]. exists [], f, rest. split; [done|].
    rewrite end_started_calls. by rewrite <- app_assoc.
  - intros H. apply IH in H as [[-> ->]|(Hst & done & g & todo & -> & ->)].
    + left. by rewrite <- app_assoc.
    + right. split; [done|]. exists (f :: done), g, todo. split; [done|]. simpl.
      by rewrite <- !app_assoc.
Qed.

(** Beginning CPU access is all or nothing.  On success every owned descriptor has
    been started exactly once, in order.  When the start of some descriptor fails, exactly
    the descriptors started before it are ended, in reverse order, and the error is
    returned: no descriptor is left in the started state. *)
Theorem begin_cpu_access_all_or_nothing b a calls st calls' :
  BeginCpuAccess b a calls = (st, calls') ->
  (st = Ok /\ calls' = calls ++ starts a (owned_fds b)) \/
  (ok st = false /\ exists done f todo, owned_fds b = done ++ f :: todo /\
     calls' = calls ++ starts a (done ++ [f]) ++ ends a (rev done)).
Proof.
  intros [H|(Hst & done & f & todo & E & ->)]%begin_from_calls; [by left|right].
  split; [done|]. exists done, f, todo. by rewrite app_nil_r.
Qed.

End sync.

Lemma begin_cpu_access_all_or_nothing_witness :
  let b := mkDma 3 64 [] [3; 5; 9] false in
  let r := BeginCpuAccess (fun _ c => if fst c =? 9 then Some "EIO" else None) b kRead [] in
  snd r = [(3, 1); (5, 1); (9, 1); (5, 5); (3, 5)] /\
  ((fst r = Ok /\ snd r = [] ++ starts kRead [3; 5; 9]) \/
   (ok (fst r) = false /\ exists done f todo, [3; 5; 9] = done ++ f :: todo /\
      snd r = [] ++ starts kRead (done ++ [f]) ++ ends kRead (rev done))).
Proof.
  split; [vm_compute; reflexivity|].
  apply (begin_cpu_access_all_or_nothing
    (fun _ c => if fst c =? 9 then Some "EIO" else None) (mkDma 3 64 [] [3; 5; 9] false) kRead []).
  reflexivity.
Defined.

(** ** Mapping *)

(** [mmap_ok] is the outcome of the [mmap] call, if one is made. *)
(* [src/core/buffer.cpp:123-130] DmaBuffer::Map *)
Definition Map (b : DmaBuffer) (mmap_ok : bool) : bool * DmaBuffer :=
  if mapped b then (true, b)
  else (mmap_ok, mkDma (fd b) (size b) (planes b) (owned_fds b) mmap_ok).

(* [src/core/buffer.cpp:132-137] DmaBuffer::Unmap *)
Definition Unmap (b : DmaBuffer) : DmaBuffer :=
  if mapped b then mkDma (fd b) (size b) (planes b) (owned_fds b) false else b.

End Dma.

(** ** The buffer pool *)

Module Pool.

(* [include/rkavp/buffer.hpp:125-134] BufferPool (fields) *)
Record BufferPool := mkPool {
  buffer_size : nat;
  capacity : nat;
  available : list Z;
  allocated : nat;
  closed : bool }.

(* [src/core/buffer.cpp:146-148] BufferPool::BufferPool *)
Definition NewPool (size cap : nat) : BufferPool := mkPool size cap [] 0 false.

(* [src/core/buffer.cpp:199-202] BufferPool::available *)
Definition available_count (p : BufferPool) : nat := length (available p).

Inductive AcquireStep :=
| Returned (r : Res Z)
| Allocating
| Waiting.

(** The first critical section of [Acquire]: a buffer is available, or a slot is
    reserved for an allocation made outside the lock, or the caller starts to
    wait. *)
(* [src/core/buffer.cpp:150-162] BufferPool::Acquire (entry) *)
Definition acquire_enter (p : BufferPool) : AcquireStep * BufferPool :=
  if bool_decide (capacity p = 0%nat) || bool_decide (buffer_size p = 0%nat)
  then (Returned (Err (Invalid "invalid buffer pool configuration")), p)
  else match available p with
       | b :: rest =>
           (Returned (Okay b), mkPool (buffer_size p) (capacity p) rest (allocated p) (closed p))
       | [] =>
           if decide (allocated p < capacity p)%nat
           then (Allocating,
                 mkPool (buffer_size p) (capacity p) [] (S (allocated p)) (closed p))
           else (Waiting, p)
       end.

(** The outcome of the allocator. *)
(* [src/core/buffer.cpp:163-169] BufferPool::Acquire (allocation) *)
Definition acquire_allocated (p : BufferPool) (r : Res Z) : Res Z * BufferPool :=
  match r with
  | Okay b => (Okay b, p)
  | Err s => (Err s, mkPool (buffer_size p) (capacity p) (available p) (allocated p - 1) (closed p))
  end.

(** The waiting caller, each time it is woken; [timed_out] when the time given
    to [wait_for] has passed. [None]: it goes on waiting. *)
(* [src/core/buffer.cpp:170-181] BufferPool::Acquire (wait) *)
Definition acquire_wake (p : BufferPool) (timed_out : bool) : option (Res Z * BufferPool) :=
  if closed p then Some (Err (Cancelled "buffer pool is closed"), p)
  else match available p with
       | b :: rest =>
           Some (Okay b, mkPool (buffer_size p) (capacity p) rest (allocated p) (closed p))
       | [] =>
           if timed_out then Some (Err (Unavailable "buffer pool acquire timed out"), p) else None
       end.

(* [src/core/buffer.cpp:183-190] BufferPool::Release *)
Definition Release (p : BufferPool) (b : option Z) : Status * BufferPool :=
  match b with
  | None => (Invalid "cannot release an empty buffer", p)
  | Some b =>
      if closed p then (Cancelled "buffer pool is closed", p)
      else (Ok, mkPool (buffer_size p) (capacity p) (available p ++ [b]) (allocated p) (closed p))
  end.

(* [src/core/buffer.cpp:192-197] BufferPool::Close *)
Definition Close (p : BufferPool) : BufferPool :=
  mkPool (buffer_size p) (capacity p) [] (allocated p) true.

(** ** The pool with its clients

    [lent] are the buffers clients hold, [allocating] and [waiting] count the
    calls of [Acquire] that are between their critical sections.  Clients give
    back only what they hold. *)

Record PoolSystem := mkSystem {
  pool : BufferPool;
  lent : list Z;
  allocating : nat;
  waiting : nat }.

Inductive pool_step : PoolSystem -> PoolSystem -> Prop :=
| step_acquire_now p l a w b p' :
    acquire_enter p = (Returned (Okay b), p') ->
    pool_step (mkSystem p l a w) (mkSystem p' (b :: l) a w)
| step_acquire_reserve p l a w p' :
    acquire_enter p = (Allocating, p') ->
    pool_step (mkSystem p l a w) (mkSystem p' l (S a) w)
| step_acquire_wait p l a w p' :
    acquire_enter p = (Waiting, p') ->
    pool_step (mkSystem p l a w) (mkSystem p' l a (S w))
| step_allocated p l a w b p' :
    b ∉ l -> b ∉ available p ->
    acquire_allocated p (Okay b) = (Okay b, p') ->
    pool_step (mkSystem p l (S a) w) (mkSystem p' (b :: l) a w)
| step_allocation_failed p l a w s p' :
    acquire_allocated p (Err s) = (Err s, p') ->
    pool_step (mkSystem p l (S a) w) (mkSystem p' l a w)
| step_wake_ok p l a w t b p' :
    acquire_wake p t = Some (Okay b, p') ->
    pool_step (mkSystem p l a (S w)) (mkSystem p' (b :: l) a w)
| step_wake_err p l a w t s p' :
    acquire_wake p t = Some (Err s, p') ->
    pool_step (mkSystem p l a (S w)) (mkSystem p' l a w)
| step_release p l1 b l2 a w s p' :
    Release p (Some b) = (s, p') ->
    pool_step (mkSystem p (l1 ++ b :: l2) a w) (mkSystem p' (l1 ++ l2) a w)
| step_close p l a w :
    pool_step (mkSystem p l a w) (mkSystem (Close p) l a w).

(** No buffer is in two hands, and the slots in use are within the capacity. *)
Definition system_wf (s : PoolSystem) : Prop :=
  NoDup (lent s ++ available (pool s)) /\
  (length (lent s) + length (available (pool s)) + allocating s <= allocated (pool s))%nat /\
  (allocated (pool s) <= capacity (pool s))%nat.

Lemma acquire_enter_take p r p' b :
  acquire_enter p = (r, p') -> r = Returned (Okay b) ->
  available p = b :: available p' /\ allocated p' = allocated p /\ capacity p' = capacity p.
Proof.
  unfold acquire_enter. intros H ->. destruct (_ || _); [done|].
  destruct (available p) eqn:E; [by case_decide|]. by simplify_eq/=.
Qed.

Lemma acquire_wake_take p t b p' :
  acquire_wake p t = Some (Okay b, p') ->
  available p = b :: available p' /\ allocated p' = allocated p /\ capacity p' = capacity p.
Proof.
  unfold acquire_wake. destruct (closed p); [done|].
  destruct (available p) eqn:E; [by destruct t|]. intros [= <- <-]. done.
Qed.

Lemma NoDup_take_available (l k : list Z) b :
  NoDup (l ++ b :: k) -> NoDup ((b :: l) ++ k).
Proof. intros H. simpl. by rewrite <- Permutation_middle in H. Qed.

Lemma pool_step_wf s s' : pool_step s s' -> system_wf s -> system_wf s'.
Proof.
  unfold system_wf. destruct 1 as
    [p l a w b p' H|p l a w p' H|p l a w p' H|p l a w b p' Hl Ha H|p l a w st p' H
    |p l a w t b p' H|p l a w t st p' H|p l1 b l2 a w st p' H|p l a w];
    cbn [pool lent allocating]; intros (Hnd & Hle & Hcap).
  - apply (acquire_enter_take _ _ _ b) in H as (E & Hal & Hc); [|done].
    rewrite E in *. rewrite Hal, Hc. cbn [length] in *.
    split_and!; [by apply NoDup_take_available|lia|lia].
  - unfold acquire_enter in H. destruct (_ || _); [done|].
    destruct (available p); [|done]. case_decide; simplify_eq/=. split_and!; [done|lia|lia].
  - unfold acquire_enter in H. destruct (_ || _); [done|].
    destruct (available p) eqn:E; [|done]. case_decide; [done|]. simplify_eq/=.
    rewrite E. done.
  - injection H as <-. cbn [length]. split_and!; [|lia|lia].
    simpl. constructor; [|done]. rewrite elem_of_app. tauto.
  - injection H as <-. simpl. split_and!; [done|lia|lia].
  - apply acquire_wake_take in H as (E & Hal & Hc).
    rewrite E in *. rewrite Hal, Hc. cbn [length] in *.
    split_and!; [by apply NoDup_take_available|lia|lia].
  - unfold acquire_wake in H. destruct (closed p); [by simplify_eq|].
    destruct (available p) eqn:E; [|done]. destruct t; simplify_eq/=. rewrite E. done.
  - rewrite <- app_assoc in Hnd. simpl in Hnd.
    rewrite length_app in *. cbn [length] in *. unfold Release in H.
    destruct (closed p); simplify_eq/=.
    + split_and!; [|lia|lia]. rewrite <- app_assoc.
      rewrite <- Permutation_middle in Hnd. by apply NoDup_cons in Hnd as [_ ?].
    + rewrite length_app. simpl. split_and!; [|lia|lia].
      rewrite app_assoc, <- Permutation_cons_append. rewrite <- Permutation_middle in Hnd.
      by rewrite <- app_assoc.
  - simpl. split_and!; [|lia|lia]. rewrite app_nil_r. by apply NoDup_app in Hnd as [? _].
Qed.

Definition initial_system (size cap : nat) : PoolSystem := mkSystem (NewPool size cap) [] 0 0.

(** C39: In every reachable state of a pool shared by any number of clients, whatever the
    interleaving of their critical sections, of failing allocations, time-outs and a
    close, no buffer is held by two clients or by a client and the pool at once, and
    clients and pool together never hold more buffers than the capacity. *)
Theorem pool_exclusive_bounded size cap s :
  rtc pool_step (initial_system size cap) s ->
  NoDup (lent s ++ available (pool s)) /\
  (length (lent s) + length (available (pool s)) <= capacity (pool s))%nat.
Proof.
  intros H. assert (system_wf s) as (Hnd & Hle & Hcap).
  { assert (system_wf (initial_system size cap)) as H0
      by (unfold system_wf; simpl; split_and!; [constructor|lia|lia]).
    induction H as [|x y z Hxy _ IH]; [done|]. apply IH. by eapply pool_step_wf. }
  split; [done|lia].
Qed.

Lemma pool_exclusive_bounded_witness :
  NoDup ([7] ++ []) /\ (1 + 0 <= 1)%nat.
Proof.
  apply (pool_exclusive_bounded 64 1 (mkSystem (mkPool 64 1 [] 1 false) [7] 0 1)).
  eapply rtc_l. { apply (step_acquire_reserve _ [] 0 0 (mkPool 64 1 [] 1 false)). reflexivity. }
  eapply rtc_l. { apply (step_acquire_wait _ [] 1 0 (mkPool 64 1 [] 1 false)). reflexivity. }
  eapply rtc_l. { apply (step_allocated _ [] 0 1 7 (mkPool 64 1 [] 1 false)); [set_solver..|reflexivity]. }
  apply rtc_refl.
Defined.

(** Two corners of the pool.  A waiting client is not woken by the failed
    allocation of another client, although a slot is free again. *)
Example waiter_not_woken_by_failed_allocation :
  exists s, rtc pool_step (initial_system 64 1) s /\ waiting s = 1%nat /\
    (allocated (pool s) < capacity (pool s))%nat /\ acquire_wake (pool s) false = None.
Proof.
  exists (mkSystem (mkPool 64 1 [] 0 false) [] 0 1). split; [|repeat split; simpl; lia].
  eapply rtc_l. { apply (step_acquire_reserve _ [] 0 0 (mkPool 64 1 [] 1 false)). reflexivity. }
  eapply rtc_l. { apply (step_acquire_wait _ [] 1 0 (mkPool 64 1 [] 1 false)). reflexivity. }
  eapply rtc_l. { by apply (step_allocation_failed _ [] 0 1 (Internal "out of memory")). }
  apply rtc_refl.
Qed.

(** And a closed pool still allocates while it is below its capacity. *)
Example acquire_after_close : fst (acquire_enter (Close (NewPool 64 1))) = Allocating.
Proof. reflexivity. Qed.

End Pool.
