(* ===== verification/Telemetry.v ===== *)
(** * Metrics and trace

    [include/rkavp/metrics.hpp], [src/core/metrics.cpp]: counters and gauges.
    [include/rkavp/trace.hpp], [src/core/trace.cpp]: the ring buffer of trace
    events and its Chrome trace export. *)

From S2P Require Import Prelude Values.
From Stdlib Require Import SpecFloat Ascii.
From stdpp Require Import pretty.

(** ** Metrics *)

Module Metrics.

(* [include/rkavp/metrics.hpp:10-22] MetricsRegistry *)
Record MetricsRegistry := mkMetrics {
  counters : gmap string Z;
  gauges : gmap string spec_float }.

Definition NewMetrics : MetricsRegistry := mkMetrics ∅ ∅.

(* [src/core/metrics.cpp:18-22] MetricsRegistry::Counter *)
Definition Counter (m : MetricsRegistry) (name : string) : Z :=
  match counters m !! name with Some v => v | None => 0 end.

(* [src/core/metrics.cpp:7-10] MetricsRegistry::Increment *)
Definition Increment (m : MetricsRegistry) (name : string) (amount : Z) : MetricsRegistry :=
  mkMetrics (<[name := u64 (Counter m name + amount)]> (counters m)) (gauges m).

(* [src/core/metrics.cpp:12-15] MetricsRegistry::SetGauge *)
Definition SetGauge (m : MetricsRegistry) (name : string) (v : spec_float) : MetricsRegistry :=
  mkMetrics (counters m) (<[name := v]> (gauges m)).

(* [src/core/metrics.cpp:24-28] MetricsRegistry::Gauge *)
Definition Gauge (m : MetricsRegistry) (name : string) : spec_float :=
  match gauges m !! name with Some v => v | None => S754_zero false end.

Lemma Counter_Increment m n n' a :
  Counter (Increment m n a) n' =
  if decide (n = n') then u64 (Counter m n + a) else Counter m n'.
Proof.
  unfold Counter at 1. unfold Increment; simpl. rewrite lookup_insert. by case_decide.
Qed.

Lemma Counter_SetGauge m n v n' : Counter (SetGauge m n v) n' = Counter m n'.
Proof. done. Qed.

End Metrics.

(** ** Trace *)

Module Trace.

(* [include/rkavp/trace.hpp:12-20] TraceEvent *)
Record TraceEvent := mkEvent {
  name : string;
  category : string;
  node : string;
  executor : string;
  timestamp_us : Z;
  duration_us : Z;
  thread_id : Z }.

(* [include/rkavp/trace.hpp:22-35] TraceBuffer *)
Record TraceBuffer := mkTrace {
  capacity : nat;
  events : list TraceEvent;
  next : nat;
  wrapped : bool }.

(* [src/core/trace.cpp:18-20] TraceBuffer::TraceBuffer *)
Definition NewTrace (cap : nat) : TraceBuffer :=
  mkTrace (if decide (cap = 0%nat) then 1%nat else cap) [] 0 false.

(* [src/core/trace.cpp:22-31] TraceBuffer::Add *)
Definition Add (t : TraceBuffer) (e : TraceEvent) : TraceBuffer :=
  if decide (length (events t) < capacity t)%nat
  then mkTrace (capacity t) (events t ++ [e]) (next t) (wrapped t)
  else mkTrace (capacity t) (<[next t := e]> (events t)) ((next t + 1) mod capacity t) true.

(* [src/core/trace.cpp:33-42] TraceBuffer::Snapshot *)
Definition Snapshot (t : TraceBuffer) : list TraceEvent :=
  if negb (wrapped t) then events t
  else drop (next t) (events t) ++ take (next t) (events t).

(** The ring [next, next+1, ..., next-1] holds the most recent events. *)
Definition trace_repr (cap : nat) (evs : list TraceEvent) (t : TraceBuffer) : Prop :=
  capacity t = cap /\ (0 < cap)%nat /\ (next t < cap)%nat /\
  length (events t) = Nat.min cap (length evs) /\
  drop (next t) (events t) ++ take (next t) (events t) = lastn cap evs /\
  (wrapped t = false -> next t = 0%nat) /\ (wrapped t = true -> (cap <= length evs)%nat).

Lemma NewTrace_repr cap : trace_repr (Nat.max 1 cap) [] (NewTrace cap).
Proof. unfold trace_repr, NewTrace; simpl. case_decide; split_and!; try done; try lia. Qed.

(** Overwriting the oldest slot of a full ring drops the head of the rotation
    and appends the new event. *)
Lemma rotate_insert {A} (l : list A) n (x : A) :
  (n < length l)%nat ->
  let n' := ((n + 1) mod length l)%nat in
  drop n' (<[n := x]> l) ++ take n' (<[n := x]> l) = tail (drop n l ++ take n l) ++ [x].
Proof.
  intros Hn n'. destruct (drop n l) as [|y rest] eqn:E.
  { apply (f_equal length) in E. rewrite length_drop in E. simpl in E. lia. }
  assert (<[n := x]> l = take n l ++ x :: rest) as ->.
  { rewrite insert_take_drop by done. f_equal. f_equal.
    replace (S n) with (n + 1)%nat by lia. rewrite <- drop_drop, E. done. }
  simpl. assert (length (take n l) = n) as Ht by (rewrite length_take; lia).
  assert (length l = (n + S (length rest))%nat) as Hl.
  { rewrite <- (take_drop n l) at 1. rewrite length_app, Ht, E. done. }
  subst n'. destruct rest as [|z rest].
  - replace (length l) with (n + 1)%nat by (simpl in Hl; lia). rewrite Nat.Div0.mod_same.
    simpl. by rewrite app_nil_r.
  - rewrite Nat.mod_small by (simpl in Hl; lia).
    rewrite drop_app_ge, take_app_ge by (rewrite Ht; lia). rewrite Ht.
    replace (n + 1 - n)%nat with 1%nat by lia. simpl. by rewrite app_assoc.
Qed.

Lemma Add_repr cap evs t e : trace_repr cap evs t -> trace_repr cap (evs ++ [e]) (Add t e).
Proof.
  intros (Hc & Hp & Hn & Hl & Hr & Hw & Hw'). unfold Add. rewrite Hc.
  case_decide as Hd; unfold trace_repr; simpl.
  - assert (next t = 0%nat) as Hn0.
    { destruct (wrapped t); [|by auto]. specialize (Hw' eq_refl). lia. }
    rewrite Hn0, drop_0, take_0, app_nil_r in Hr. rewrite Hn0, drop_0, take_0, app_nil_r, Hr.
    rewrite lastn_snoc_lt, !length_app, length_lastn by lia. cbn [length].
    split_and!; try done; try lia. intros Hwt. specialize (Hw' Hwt). lia.
  - assert (length (events t) = cap) as Hlc by lia.
    pose proof (rotate_insert (events t) (next t) e) as Hrot. simpl in Hrot. rewrite Hlc in Hrot.
    rewrite Hrot by done. rewrite Hr, lastn_snoc_ge by lia.
    rewrite length_insert, Hlc, length_app. simpl. split_and!; try done; try lia.
    apply Nat.mod_upper_bound. lia.
Qed.

(** The trace ring buffer is a sliding window: after any sequence of events a
    snapshot is exactly the most recent ones, oldest first, as many as fit. *)
Theorem trace_snapshot_window cap evs :
  Snapshot (fold_left Add evs (NewTrace cap)) = lastn (Nat.max 1 cap) evs.
Proof.
  assert (trace_repr (Nat.max 1 cap) evs (fold_left Add evs (NewTrace cap)))
    as (Hc & Hp & Hn & Hl & Hr & Hw & Hw').
  { induction evs as [|e evs IH] using rev_ind; [apply NewTrace_repr|].
    rewrite fold_left_app. simpl. by apply Add_repr. }
  unfold Snapshot. destruct (wrapped _) eqn:Ew; simpl; [done|].
  rewrite Hw in Hr by done. by rewrite drop_0, take_0, app_nil_r in Hr.
Qed.

(** ** Export *)

Definition quote : Ascii.ascii := "034"%char.
Definition backslash : Ascii.ascii := "092"%char.

(* [src/core/trace.cpp:8-15] Escape *)
Fixpoint Escape (s : string) : string :=
  match s with
  | EmptyString => EmptyString
  | String c s' =>
      if bool_decide (c = quote) || bool_decide (c = backslash)
      then String backslash (String c (Escape s'))
      else String c (Escape s')
  end.

Definition quoted (s : string) : string := String quote (s +:+ String quote EmptyString).

Definition export_event (e : TraceEvent) : string :=
  "{" +:+ quoted "name" +:+ ":" +:+ quoted (Escape (name e)) +:+
  "," +:+ quoted "cat" +:+ ":" +:+ quoted (Escape (category e)) +:+
  "," +:+ quoted "ph" +:+ ":" +:+ quoted "X" +:+
  "," +:+ quoted "ts" +:+ ":" +:+ pretty (timestamp_us e) +:+
  "," +:+ quoted "dur" +:+ ":" +:+ pretty (duration_us e) +:+
  "," +:+ quoted "pid" +:+ ":1" +:+
  "," +:+ quoted "tid" +:+ ":" +:+ pretty (thread_id e) +:+
  "," +:+ quoted "args" +:+ ":{" +:+ quoted "node" +:+ ":" +:+ quoted (Escape (node e)) +:+
  "," +:+ quoted "executor" +:+ ":" +:+ quoted (Escape (executor e)) +:+ "}}".

(* [src/core/trace.cpp:44-58] TraceBuffer::ToChromeTraceJson *)
Definition ToChromeTraceJson (t : TraceBuffer) : string :=
  "{" +:+ quoted "traceEvents" +:+ ":[" +:+
  String.concat "," (map export_event (Snapshot t)) +:+ "]}".

(** A JSON string reader: the text up to the first quote that is not escaped. *)
Fixpoint read_string (s : string) : option (string * string) :=
  match s with
  | EmptyString => None
  | String c s' =>
      if bool_decide (c = quote) then Some (EmptyString, s')
      else if bool_decide (c = backslash) then
        match s' with
        | String c' s'' => '(a, rest) ← read_string s''; Some (String c' a, rest)
        | EmptyString => None
        end
      else '(a, rest) ← read_string s'; Some (String c a, rest)
  end.

(** Exported names round-trip: reading an escaped string up to its closing quote
    gives back the original text and stops exactly at that quote, whatever quotes and
    backslashes a node or executor name contains. *)
Theorem escape_roundtrip s rest :
  read_string (Escape s +:+ String quote rest) = Some (s, rest).
Proof.
  induction s as [|c s IH]; [done|]. cbn [Escape].
  destruct (bool_decide (c = quote)) eqn:Eq; simpl; [by rewrite IH|].
  destruct (bool_decide (c = backslash)) eqn:Eb; simpl; [by rewrite IH|].
  by rewrite Eq, Eb, IH.
Qed.

End Trace.
