(* ===== verification/DoubleText.v ===== *)
(** * Numbers as text

    What [operator<<] of a stream makes of a [double]: six significant digits, correctly rounded,
    without trailing zeros, with an exponent for very large and very small numbers.  With it the
    texts of option values ([src/core/config_value.cpp]) and of the metrics
    ([src/core/metrics.cpp]). *)

From Stdlib Require Import SpecFloat Ascii.
From stdpp Require Import pretty.
From S2P Require Import Prelude Text Timestamp TimeBase Values Telemetry.

(** ** The formatting of the standard library *)

(** [10^e] as a fraction. *)
Definition tens_up (e : Z) : Z := 10 ^ Z.max 0 e.
Definition tens_down (e : Z) : Z := 10 ^ Z.max 0 (- e).

Definition digits (z : Z) : Z := Z.of_nat (length (chars (pretty z))).

(** The [x] with [10^x <= n / d < 10^(x + 1)]. *)
Definition decimal_exponent (n d : Z) : Z :=
  if d <=? n then digits (n / d) - 1 else - digits ((d - 1) / n).

(** The six leading digits of [n / d] and the exponent of the first. *)
Definition significant (n d : Z) : Z * Z :=
  let x := decimal_exponent n d in
  let s := nearest (n * tens_down (x - 5)) (d * tens_up (x - 5)) in
  if s =? 1000000 then (100000, x + 1) else (s, x).

Fixpoint drop_zeros (l : list ascii) : list ascii :=
  match l with
  | c :: l' => if bool_decide (c = "0"%char) then drop_zeros l' else l
  | [] => []
  end.
Definition strip_zeros (l : list ascii) : list ascii := reverse (drop_zeros (reverse l)).

Definition with_fraction (whole fraction : list ascii) : list ascii :=
  match strip_zeros fraction with [] => whole | f => whole ++ "."%char :: f end.

Definition render (s x : Z) : list ascii :=
  let ds := chars (pretty s) in
  if (-4 <=? x) && (x <? 6) then
    if 0 <=? x then with_fraction (take (Z.to_nat (x + 1)) ds) (drop (Z.to_nat (x + 1)) ds)
    else with_fraction ["0"%char] (replicate (Z.to_nat (- x - 1)) "0"%char ++ ds)
  else
    with_fraction (take 1 ds) (drop 1 ds) ++
    "e"%char :: (if x <? 0 then "-"%char else "+"%char) :: chars (pad 2 (Z.abs x)).

(** The sign of a NaN is not part of a [spec_float]; it is taken to be positive. *)
Definition format_double (v : spec_float) : string :=
  let signed (s : bool) (l : list ascii) := of_chars (if s then "-"%char :: l else l) in
  match v with
  | S754_zero s => signed s ["0"%char]
  | S754_infinity s => signed s (chars "inf")
  | S754_nan => "nan"
  | S754_finite s m e =>
      signed s (let '(sig, x) := significant (Z.pos m * up e) (down e) in render sig x)
  end.

(** ** The code *)

(* [src/core/config_value.cpp:7-18] ConfigValue::ToString *)
Definition ToString (v : ConfigValue) : string :=
  match v with
  | CNull => ""
  | CBool b => if b then "true" else "false"
  | CInt z => pretty z
  | CDouble d => format_double d
  | CString s => s
  | CArray _ => "[array]"
  | CObject _ => "{object}"
  end.

Import Telemetry.Metrics.

(** The tables are traversed in the orders [cs] and [gs]. *)
(* [src/core/metrics.cpp:29-35] MetricsRegistry::ExportText *)
Definition ExportText (cs : list (string * Z)) (gs : list (string * spec_float)) : string :=
  foldr (fun item text => item.1 +:+ " " +:+ pretty item.2 +:+ newline +:+ text)
    (foldr (fun item text => item.1 +:+ " " +:+ format_double item.2 +:+ newline +:+ text) "" gs) cs.

Definition double_of_ratio (n d : Z) : spec_float := SFdiv 53 1024 (double_of_Z n) (double_of_Z d).

Example texts_of_doubles :
  map format_double [double_of_ratio 1 10; double_of_Z 1000000; double_of_Z 999999; double_of_ratio (-1234567) 1;
    double_of_ratio 1 100000; double_of_ratio 12345 100000000; double_of_ratio 9999995 10; S754_zero true;
    S754_infinity true; double_of_ratio 5 2; double_of_ratio 2000001 2; double_of_ratio 1234565 10] =
  ["0.1"; "1e+06"; "999999"; "-1.23457e+06"; "1e-05"; "0.00012345"; "1e+06"; "-0"; "-inf"; "2.5"; "1e+06"; "123456"].
Proof. vm_compute. reflexivity. Qed.

(** ** Correct rounding to six digits *)

Lemma digits_spec z : 0 < z -> 1 <= digits z /\ 10 ^ (digits z - 1) <= z < 10 ^ digits z.
Proof.
  intros Hz. unfold digits. destruct (pretty_Z_digits z) as [Hf Hd]; [lia|].
  pose proof (decimal_bound _ Hf) as Hb. rewrite Hd in Hb.
  destruct (length (chars (pretty z))) as [|w] eqn:Hw; [simpl in Hb; lia|].
  split_and!; [lia| |lia]. replace (Z.of_nat (S w) - 1) with (Z.of_nat w) by lia.
  destruct w as [|w]; [simpl; lia|].
  destruct (decide (10 ^ Z.of_nat (S w) <= z)) as [|Hlt]; [done|].
  pose proof (pretty_Z_length z (S w) ltac:(lia) ltac:(lia)). lia.
Qed.

Lemma tens_pos e : 0 < tens_up e /\ 0 < tens_down e.
Proof. unfold tens_up, tens_down. split; apply Z.pow_pos_nonneg; lia. Qed.

Lemma tens_cases e :
  (0 <= e /\ tens_up e = 10 ^ e /\ tens_down e = 1) \/ (e < 0 /\ tens_up e = 1 /\ tens_down e = 10 ^ (- e)).
Proof.
  unfold tens_up, tens_down. destruct (decide (0 <= e)).
  - left. rewrite Z.max_r, Z.max_l by lia. done.
  - right. rewrite Z.max_l, Z.max_r by lia. split_and!; [lia|done|done].
Qed.

Lemma tens_shift e k : 0 <= k -> tens_up (e + k) * tens_down e = 10 ^ k * tens_up e * tens_down (e + k).
Proof.
  intros Hk. destruct (tens_cases e) as [(H1&->&->)|(H1&->&->)],
    (tens_cases (e + k)) as [(H2&->&->)|(H2&->&->)]; try lia.
  - rewrite Z.pow_add_r by lia. lia.
  - rewrite Z.mul_1_r, Z.mul_1_r, <- Z.pow_add_r by lia. f_equal. lia.
  - rewrite Z.mul_1_l, Z.mul_1_r, <- Z.pow_add_r by lia. f_equal. lia.
Qed.

Lemma decimal_exponent_spec n d : 0 < n -> 0 < d ->
  let x := decimal_exponent n d in
  d * tens_up x <= n * tens_down x /\ n * tens_down (x + 1) < d * tens_up (x + 1).
Proof.
  intros Hn Hd. simpl. unfold decimal_exponent. destruct (d <=? n) eqn:E; [apply Z.leb_le in E|apply Z.leb_gt in E].
  - assert (0 < n / d) as Hq by (apply Z.div_str_pos; lia).
    destruct (digits_spec _ Hq) as (H1 & H2 & H3). pose proof (Z.div_mod n d ltac:(lia)).
    pose proof (Z.mod_pos_bound n d Hd). set (k := digits (n / d)) in *.
    replace (k - 1 + 1) with k by lia.
    destruct (tens_cases (k - 1)) as [(_&->&->)|(?&_)]; [|lia].
    destruct (tens_cases k) as [(_&->&->)|(?&_)]; [|lia]. split; nia.
  - assert (0 < (d - 1) / n) as Hq by (apply Z.div_str_pos; lia).
    destruct (digits_spec _ Hq) as (H1 & H2 & H3). pose proof (Z.div_mod (d - 1) n ltac:(lia)).
    pose proof (Z.mod_pos_bound (d - 1) n Hn). set (k := digits ((d - 1) / n)) in *.
    destruct (tens_cases (- k)) as [(?&_)|(_&->&->)]; [lia|]. rewrite Z.opp_involutive.
    split; [nia|]. destruct (tens_cases (- k + 1)) as [(?&->&->)|(?&->&->)].
    + replace (- k + 1) with 0 by lia. lia.
    + replace (- (- k + 1)) with (k - 1) by lia. nia.
Qed.

(** The digits are those of the nearest number with six of them. *)
Lemma significant_spec n d : 0 < n -> 0 < d ->
  let '(s, x) := significant n d in
  100000 <= s < 1000000 /\
  2 * Z.abs (s * d * tens_up (x - 5) - n * tens_down (x - 5)) <= d * tens_up (x - 5).
Proof.
  intros Hn Hd. unfold significant. destruct (decimal_exponent_spec n d Hn Hd) as [Hlow Hhigh].
  set (x := decimal_exponent n d) in *.
  destruct (tens_pos (x - 5)) as [U D], (tens_pos x) as [Ux Dx], (tens_pos (x + 1)) as [Ux1 Dx1].
  pose proof (nearest_spec (n * tens_down (x - 5)) (d * tens_up (x - 5)) ltac:(nia)) as He.
  set (s := nearest _ _) in *.
  pose proof (tens_shift (x - 5) 5 ltac:(lia)) as S5. replace (x - 5 + 5) with x in S5 by lia.
  pose proof (tens_shift (x - 5) 6 ltac:(lia)) as S6. replace (x - 5 + 6) with (x + 1) in S6 by lia.
  change (10 ^ 5) with 100000 in S5. change (10 ^ 6) with 1000000 in S6.
  set (A := n * tens_down (x - 5)) in *. set (B := d * tens_up (x - 5)) in *.
  assert (0 < B) as HB by (unfold B; nia).
  assert (100000 * B <= A) as HA1.
  { apply (Z.mul_le_mono_pos_r _ _ (tens_down x) Dx). unfold A, B. nia. }
  assert (A < 1000000 * B) as HA2.
  { apply (Z.mul_lt_mono_pos_r (tens_down (x + 1)) _ _ Dx1). unfold A, B. nia. }
  assert (100000 <= s <= 1000000) as Hs by (split; nia).
  destruct (s =? 1000000) eqn:Es; [apply Z.eqb_eq in Es|apply Z.eqb_neq in Es; split; [lia|]].
  - split; [lia|]. rewrite Es in He. replace (x + 1 - 5) with (x - 5 + 1) by lia.
    pose proof (tens_shift (x - 5) 1 ltac:(lia)) as S1. change (10 ^ 1) with 10 in S1.
    destruct (tens_pos (x - 5 + 1)) as [U1 D1].
    apply (Z.mul_le_mono_pos_r _ _ (tens_down (x - 5)) D).
    rewrite <- Z.mul_assoc, <- (Z.abs_eq (tens_down (x - 5))) at 1 by lia. rewrite <- Z.abs_mul.
    rewrite <- (Z.mul_assoc d), S1.
    replace ((100000 * d * tens_up (x - 5 + 1) - n * tens_down (x - 5 + 1)) * tens_down (x - 5))
      with ((1000000 * B - A) * tens_down (x - 5 + 1)); [rewrite Z.abs_mul, (Z.abs_eq (tens_down (x - 5 + 1))) by lia; unfold B in *; nia|].
    replace ((100000 * d * tens_up (x - 5 + 1) - n * tens_down (x - 5 + 1)) * tens_down (x - 5))
      with (100000 * d * (tens_up (x - 5 + 1) * tens_down (x - 5)) - A * tens_down (x - 5 + 1)) by (unfold A; ring).
    rewrite S1. unfold B. ring.
  - unfold B in He. by rewrite Z.mul_assoc in He.
Qed.

(** ** Whole numbers *)

Lemma decimal_inj l k : length l = length k -> Forall (fun c => is_digit c = true) l ->
  Forall (fun c => is_digit c = true) k -> decimal l = decimal k -> l = k.
Proof.
  revert k. induction l as [|c l IH] using rev_ind; intros k Hlen Hl Hk Hd; [by destruct k|].
  destruct k as [|c' k _] using rev_ind; [rewrite length_app in Hlen; simpl in Hlen; lia|].
  rewrite !length_app in Hlen. simpl in Hlen.
  apply Forall_app in Hl as [Hl [Hc _]%Forall_cons]. apply Forall_app in Hk as [Hk [Hc' _]%Forall_cons].
  rewrite !decimal_snoc in Hd. unfold is_digit in Hc, Hc'.
  apply andb_true_iff in Hc as [A1%Z.leb_le A2%Z.leb_le], Hc' as [B1%Z.leb_le B2%Z.leb_le].
  unfold digit_value in Hd.
  assert (decimal l = decimal k) as Hlk by lia. rewrite (IH k) by (done || lia).
  assert (N_of_ascii c = N_of_ascii c') as E by lia. by rewrite <- (ascii_N_embedding c), E, ascii_N_embedding.
Qed.

Lemma decimal_app_zeros l n : decimal (l ++ replicate n "0"%char) = decimal l * 10 ^ Z.of_nat n.
Proof.
  induction n as [|n IH]; [by rewrite app_nil_r, Z.mul_1_r|].
  rewrite replicate_S_end, app_assoc, decimal_snoc, IH, Nat2Z.inj_succ, Z.pow_succ_r by lia.
  change (digit_value "0") with 0. lia.
Qed.

Lemma pretty_tens k n : 0 < k -> chars (pretty (k * 10 ^ Z.of_nat n)) = chars (pretty k) ++ replicate n "0"%char.
Proof.
  intros Hk. destruct (pretty_Z_digits k) as [Hf Hd]; [lia|]. destruct (digits_spec k Hk) as (H1 & H2 & H3).
  assert (0 < 10 ^ Z.of_nat n) as Hp by (apply Z.pow_pos_nonneg; lia).
  destruct (pretty_Z_digits (k * 10 ^ Z.of_nat n)) as [Hf' Hd']; [nia|].
  unfold digits in *. destruct (length (chars (pretty k))) as [|w] eqn:Hw; [lia|].
  replace (Z.of_nat (S w) - 1) with (Z.of_nat w) in H2 by lia.
  apply decimal_inj; [|done| |by rewrite Hd', decimal_app_zeros, Hd].
  - rewrite length_app, length_replicate, Hw, (pretty_width (w + n)); [lia|].
    rewrite !Nat2Z.inj_succ, !Nat2Z.inj_add, Z.pow_succ_r, Z.pow_add_r by lia.
    rewrite Nat2Z.inj_succ, Z.pow_succ_r in H3 by lia. nia.
  - apply Forall_app. split; [done|]. by apply Forall_replicate.
Qed.

Lemma strip_zeros_replicate n : strip_zeros (replicate n "0"%char) = [].
Proof.
  unfold strip_zeros. rewrite reverse_replicate. by induction n.
Qed.

(** A [double] that holds an integer of up to six digits is written as that integer. *)
Theorem format_double_integer s m e k : 0 < k < 1000000 -> Z.pos m * up e = k * down e ->
  format_double (S754_finite s m e) = pretty (if s then - k else k).
Proof.
  intros Hk Hm. destruct (up_down_pos e) as [_ D]. unfold format_double. rewrite Hm.
  assert (0 < k * down e) by nia. unfold significant, decimal_exponent.
  rewrite (proj2 (Z.leb_le (down e) (k * down e))) by nia. rewrite Z.div_mul by lia.
  destruct (digits_spec k ltac:(lia)) as (H1 & H2 & H3). set (x := digits k - 1) in *.
  assert (x <= 5) as Hx.
  { destruct (decide (x <= 5)); [done|]. assert (10 ^ 6 <= 10 ^ x) by (apply Z.pow_le_mono_r; lia). lia. }
  assert (tens_up (x - 5) = 1) as -> by (unfold tens_up; by rewrite Z.max_l by lia).
  assert (tens_down (x - 5) = 10 ^ Z.of_nat (Z.to_nat (5 - x))) as ->
    by (unfold tens_down; rewrite Z.max_r by lia; f_equal; lia).
  set (n := Z.to_nat (5 - x)).
  replace (k * down e * 10 ^ Z.of_nat n) with (k * 10 ^ Z.of_nat n * (down e * 1)) by ring.
  rewrite nearest_exact by lia.
  assert ((k * 10 ^ Z.of_nat n =? 1000000) = false) as ->.
  { apply Z.eqb_neq. assert (10 ^ digits k * 10 ^ Z.of_nat n = 1000000); [|nia].
    rewrite <- Z.pow_add_r by lia. unfold n, x. replace (digits k + _) with 6 by lia. done. }
  unfold render. rewrite (proj2 (Z.leb_le (-4) x)), (proj2 (Z.ltb_lt x 6)), (proj2 (Z.leb_le 0 x)) by lia.
  simpl andb. cbn iota. rewrite pretty_tens by lia.
  assert (Z.to_nat (x + 1) = length (chars (pretty k))) as -> by (unfold x, digits; lia).
  rewrite take_app_length, drop_app_length. unfold with_fraction. rewrite strip_zeros_replicate.
  destruct s; [|by rewrite of_chars_chars]. destruct k as [|p|p]; [lia| |lia]. simpl.
  change (pretty (Z.pos p)) with (pretty (N.pos p)). by rewrite of_chars_chars.
Qed.

(** ** Reading the metrics back *)

(** No blank and no end of a line. *)
Definition word (l : list ascii) : Prop := (" "%char ∉ l) /\ ("010"%char ∉ l).

Lemma word_app l k : word (l ++ k) <-> word l /\ word k.
Proof. unfold word. rewrite !not_elem_of_app. naive_solver. Qed.
Lemma word_cons c l : word (c :: l) <-> c <> " "%char /\ c <> "010"%char /\ word l.
Proof. unfold word. rewrite !not_elem_of_cons. naive_solver. Qed.
Lemma word_nil : word [].
Proof. split; apply not_elem_of_nil. Qed.

Lemma word_digits l : Forall (fun c => is_digit c = true) l -> word l.
Proof. rewrite Forall_forall. intros H. by split; intros Hin%H. Qed.
Lemma word_pretty (z : Z) : word (chars (pretty z)).
Proof.
  destruct (decide (0 <= z)); [by apply word_digits, pretty_Z_digits|].
  destruct z as [|p|p]; try lia. change (chars (pretty (Z.neg p))) with ("-"%char :: chars (pretty (N.pos p))).
  apply word_cons. split_and!; [done..|]. by apply word_digits, pretty_N_chars.
Qed.
Lemma word_zeros n : word (replicate n "0"%char).
Proof. apply word_digits. by apply Forall_replicate. Qed.

Lemma word_strip_zeros l : word l -> word (strip_zeros l).
Proof.
  unfold word, strip_zeros. rewrite !elem_of_reverse.
  assert (forall c k, c ∈ drop_zeros k -> c ∈ k) as Hd.
  { intros c k. induction k as [|x k IH]; simpl; [done|]. case_bool_decide; set_solver. }
  intros [H1 H2]. split; intros Hin%Hd; rewrite elem_of_reverse in Hin; done.
Qed.

Lemma word_with_fraction w f : word w -> word f -> word (with_fraction w f).
Proof.
  intros Hw Hf. unfold with_fraction. pose proof (word_strip_zeros f Hf) as Hs.
  destruct (strip_zeros f); [done|]. apply word_app. split; [done|]. by apply word_cons.
Qed.

Lemma word_render s x : word (render s x).
Proof.
  pose proof (word_pretty s) as Hs. unfold render.
  assert (forall n, word (take n (chars (pretty s))) /\ word (drop n (chars (pretty s)))) as Hc
    by (intros n; apply word_app; by rewrite take_drop).
  destruct (_ && _); [destruct (0 <=? x)|].
  - apply word_with_fraction; apply Hc.
  - apply word_with_fraction; [by apply word_digits; constructor|]. apply word_app. split; [apply word_zeros|done].
  - apply word_app. split; [apply word_with_fraction; apply Hc|]. apply word_cons. split_and!; [done..|].
    apply word_cons. split_and!; [by destruct (x <? 0)..|]. unfold pad. rewrite chars_app, chars_of_chars.
    apply word_app. split; [apply word_zeros|apply word_pretty].
Qed.

Lemma word_format_double v : word (chars (format_double v)).
Proof.
  assert (forall (s : bool) l, word l -> word (chars (of_chars (if s then "-"%char :: l else l)))) as Hs.
  { intros s l Hl. rewrite chars_of_chars. destruct s; [by apply word_cons|done]. }
  destruct v as [s|s| |s m e]; simpl; try apply Hs.
  - by apply word_digits; constructor.
  - repeat (apply word_cons; split_and!; [done..|]). apply word_nil.
  - repeat (apply word_cons; split_and!; [done..|]). apply word_nil.
  - destruct (significant _ _). apply word_render.
Qed.

(** A reader of the exported text: lines, each a name and, behind its last blank, a value. *)
Fixpoint lines (current : list ascii) (l : list ascii) : list (list ascii) :=
  match l with
  | [] => []
  | c :: l => if bool_decide (c = "010"%char) then current :: lines [] l else lines (current ++ [c]) l
  end.
Definition read_line (l : list ascii) : option (string * string) :=
  (fun nv => (of_chars nv.1, of_chars nv.2)) <$> rsplit " "%char l.
Definition read_metrics (text : string) : list (option (string * string)) :=
  map read_line (lines [] (chars text)).

Lemma lines_line current l rest : "010"%char ∉ l ->
  lines current (l ++ "010"%char :: rest) = (current ++ l) :: lines [] rest.
Proof.
  revert current. induction l as [|c l IH]; intros current Hl; simpl; [by rewrite app_nil_r|].
  apply not_elem_of_cons in Hl as [Hc Hl]. rewrite bool_decide_eq_false_2 by done.
  by rewrite IH, <- app_assoc.
Qed.

Lemma read_entry n v rest : "010"%char ∉ chars n -> word (chars v) ->
  read_metrics (n +:+ " " +:+ v +:+ newline +:+ rest) = Some (n, v) :: read_metrics rest.
Proof.
  intros Hn [Hv1 Hv2]. unfold read_metrics, newline. rewrite !chars_app. cbn [chars app].
  replace (chars n ++ " "%char :: chars v ++ "010"%char :: chars rest)
    with ((chars n ++ " "%char :: chars v) ++ "010"%char :: chars rest) by by rewrite <- app_assoc.
  rewrite lines_line by (rewrite not_elem_of_app, not_elem_of_cons; done). simpl. f_equal.
  unfold read_line. rewrite (proj2 (rsplit_Some _ _ (chars n) (chars v))) by done.
  simpl. by rewrite !of_chars_chars.
Qed.

Definition single_line (name : string) : Prop := "010"%char ∉ chars name.

Lemma read_entries {V} (text : V -> string) (l : list (string * V)) rest :
  (forall v, word (chars (text v))) -> Forall (fun item => single_line item.1) l ->
  read_metrics (foldr (fun item t => item.1 +:+ " " +:+ text item.2 +:+ newline +:+ t) rest l) =
  map (fun item => Some (item.1, text item.2)) l ++ read_metrics rest.
Proof.
  intros Ht. induction 1 as [|item l Hi _ IH]; simpl; [done|]. by rewrite read_entry, IH.
Qed.

(** The exported metrics can be read back, in whatever order the tables are traversed and whatever
    the names without a line break are: the lines are, up to their order, the counters with
    their decimal values followed by the gauges with their texts. *)
Theorem export_text_reads_back m cs gs :
  cs ≡ₚ map_to_list (counters m) -> gs ≡ₚ map_to_list (gauges m) ->
  (forall name, is_Some (counters m !! name) \/ is_Some (gauges m !! name) -> single_line name) ->
  read_metrics (ExportText cs gs) ≡ₚ
    map (fun item => Some (item.1, pretty item.2)) (map_to_list (counters m)) ++
    map (fun item => Some (item.1, format_double item.2)) (map_to_list (gauges m)).
Proof.
  intros Hcs Hgs Hn. unfold ExportText. rewrite !read_entries.
  - change (read_metrics "") with (@nil (option (string * string))). by rewrite app_nil_r, Hcs, Hgs.
  - apply word_format_double.
  - apply Forall_forall. intros [k v] Hin. rewrite Hgs in Hin. apply elem_of_map_to_list in Hin. apply Hn. right. by exists v.
  - intros v. apply word_pretty.
  - apply Forall_forall. intros [k v] Hin. rewrite Hcs in Hin. apply elem_of_map_to_list in Hin. apply Hn. left. by exists v.
Qed.
