(* ===== verification/Contract.v ===== *)
(** * Node contracts and options

    [include/rkavp/media_caps.hpp]: capabilities of a port and their
    compatibility.  [include/rkavp/node.hpp], [src/core/node.cpp]: port
    specifications, node contracts and the typed access to node options. *)

From S2P Require Import Prelude Status Values Buffer.

(** ** Media capabilities *)

(* [include/rkavp/media_caps.hpp:12-12] MediaKind *)
Inductive MediaKind := kAnyMedia | kEncodedVideo | kVideo | kAudio | kTensor | kMetadata.
#[export] Instance MediaKind_eq_dec : EqDecision MediaKind.
Proof. solve_decision. Defined.

(* [include/rkavp/media_caps.hpp:14-22] MediaCaps *)
Record MediaCaps := mkCaps {
  kind : MediaKind;
  format : string;
  width : Z;
  height : Z;
  sample_rate : Z;
  channels : Z;
  memory_types : list MemoryType;
  tensor_shape : list Z }.

(* [include/rkavp/media_caps.hpp:24-24] MediaCaps::Any *)
Definition AnyCaps : MediaCaps := mkCaps kAnyMedia "" 0 0 0 0 [] [].

(** A capability [{kind}] with everything else left open. *)
Definition caps_of_kind (k : MediaKind) : MediaCaps := mkCaps k "" 0 0 0 0 [] [].

(** Two dimensions conflict when both are given and differ. *)
Definition dim_conflict (a b : Z) : bool := (0 <? a) && (0 <? b) && negb (a =? b).

(* [include/rkavp/media_caps.hpp:26-55] MediaCaps::CompatibleWith *)
Definition CompatibleWith (a b : MediaCaps) : bool :=
  if negb (bool_decide (kind a = kAnyMedia)) && negb (bool_decide (kind b = kAnyMedia)) &&
     negb (bool_decide (kind a = kind b)) then false
  else if negb (bool_decide (format a = "")) && negb (bool_decide (format b = "")) &&
          negb (bool_decide (format a = format b)) then false
  else if dim_conflict (width a) (width b) then false
  else if dim_conflict (height a) (height b) then false
  else if dim_conflict (sample_rate a) (sample_rate b) then false
  else if dim_conflict (channels a) (channels b) then false
  else if negb (bool_decide (memory_types a = [])) && negb (bool_decide (memory_types b = []))
  then existsb (fun t => existsb (fun u => bool_decide (t = u)) (memory_types b)) (memory_types a)
  else true.

Lemma dim_conflict_sym a b : dim_conflict a b = dim_conflict b a.
Proof. unfold dim_conflict. rewrite (Z.eqb_sym a b). by destruct (0 <? a), (0 <? b). Qed.

Lemma dim_conflict_refl a : dim_conflict a a = false.
Proof. unfold dim_conflict. by rewrite Z.eqb_refl, andb_false_r. Qed.

Lemma conflict_sym {A} `{EqDecision A} (a b none : A) :
  negb (bool_decide (a = none)) && negb (bool_decide (b = none)) && negb (bool_decide (a = b)) =
  negb (bool_decide (b = none)) && negb (bool_decide (a = none)) && negb (bool_decide (b = a)).
Proof. repeat case_bool_decide; simpl; naive_solver. Qed.

Lemma share_spec {A} `{EqDecision A} (l k : list A) :
  existsb (fun t => existsb (fun u => bool_decide (t = u)) k) l = true <->
  exists t, t ∈ l /\ t ∈ k.
Proof.
  rewrite existsb_exists. split.
  - intros (t & Ht & (u & Hu & Hb)%existsb_exists). apply bool_decide_eq_true in Hb as ->.
    exists u. by rewrite !list_elem_of_In.
  - intros (t & Ht & Hk). exists t. rewrite <- list_elem_of_In, existsb_exists.
    split; [done|]. exists t. rewrite <- list_elem_of_In, bool_decide_eq_true. done.
Qed.

Lemma share_sym {A} `{EqDecision A} (l k : list A) :
  existsb (fun t => existsb (fun u => bool_decide (t = u)) k) l =
  existsb (fun t => existsb (fun u => bool_decide (t = u)) l) k.
Proof. apply eq_true_iff_eq. rewrite !share_spec. naive_solver. Qed.

(** Compatibility of media capabilities does not depend on which end of an edge asks:
    it is symmetric, every capability is compatible with itself, and the unconstrained
    capability is compatible with every other. *)
Theorem caps_compatible_symmetric a b :
  CompatibleWith a b = CompatibleWith b a /\ CompatibleWith a a = true /\
  CompatibleWith AnyCaps a = true.
Proof.
  split_and!.
  - unfold CompatibleWith. rewrite (conflict_sym (kind a)), (conflict_sym (format a)).
    rewrite (dim_conflict_sym (width a)), (dim_conflict_sym (height a)).
    rewrite (dim_conflict_sym (sample_rate a)), (dim_conflict_sym (channels a)).
    rewrite (andb_comm (negb (bool_decide (memory_types a = [])))), share_sym. done.
  - unfold CompatibleWith. rewrite !dim_conflict_refl.
    rewrite (bool_decide_eq_true_2 (kind a = kind a)), (bool_decide_eq_true_2 (format a = format a)) by done.
    rewrite !andb_false_r. destruct (memory_types a) as [|t l]; [done|].
    rewrite bool_decide_eq_false_2 by done. simpl. by rewrite bool_decide_eq_true_2.
  - unfold CompatibleWith, dim_conflict; simpl. done.
Qed.

(** ** Contracts *)

(* [include/rkavp/node.hpp:22-26] PortSpec *)
Record PortSpec := mkPort { port_name : string; port_caps : MediaCaps; port_required : bool }.

(* [include/rkavp/node.hpp:28-28] InputPolicy *)
Inductive InputPolicy := kAny | kSync | kLatest.
#[export] Instance InputPolicy_eq_dec : EqDecision InputPolicy.
Proof. solve_decision. Defined.

(* [include/rkavp/node.hpp:30-40] NodeContract *)
Record NodeContract := mkContract {
  inputs : list PortSpec;
  outputs : list PortSpec;
  required_options : list string;
  input_policy : InputPolicy;
  trigger_port : string }.

Definition find_port (l : list PortSpec) (name : string) : option PortSpec :=
  List.find (fun p => bool_decide (port_name p = name)) l.

(* [src/core/node.cpp:7-11] NodeContract::FindInput *)
Definition FindInput (c : NodeContract) (name : string) : option PortSpec :=
  find_port (inputs c) name.
(* [src/core/node.cpp:13-17] NodeContract::FindOutput *)
Definition FindOutput (c : NodeContract) (name : string) : option PortSpec :=
  find_port (outputs c) name.

(** The loop over [required_options]: the first missing one. *)
Definition missing_option (c : NodeContract) (o : NodeOptions) : option string :=
  List.find (fun n => bool_decide (o !! n = None)) (required_options c).

(* [src/core/node.cpp:19-29] NodeContract::ValidateOptions *)
Definition ValidateOptions (c : NodeContract) (o : NodeOptions) : Status :=
  match missing_option c o with
  | Some name => Invalid ("missing required option: " +:+ name)
  | None =>
      if bool_decide (input_policy c = kLatest) && negb (bool_decide (trigger_port c = "")) &&
         bool_decide (FindInput c (trigger_port c) = None)
      then Invalid ("latest input policy trigger port does not exist: " +:+ trigger_port c)
      else Ok
  end.

Lemma ValidateOptions_ok c o :
  ok (ValidateOptions c o) = true -> Forall (fun n => is_Some (o !! n)) (required_options c).
Proof.
  unfold ValidateOptions. destruct (missing_option c o) eqn:E; [done|]. intros _.
  apply Forall_forall. intros n Hn. rewrite list_elem_of_In in Hn.
  pose proof (List.find_none _ _ E n Hn) as Hf. simpl in Hf.
  apply bool_decide_eq_false in Hf. by apply not_eq_None_Some.
Qed.

(** ** Options *)

(* [src/core/node.cpp:120-123] FindOption *)
Definition FindOption (o : NodeOptions) (key : string) : option ConfigValue := o !! key.

(* [src/core/node.cpp:125-132] GetStringOption *)
Definition GetStringOption (o : NodeOptions) (key : string) : Res string :=
  match FindOption o key with
  | None => Err (NotFound ("option not found: " +:+ key))
  | Some v => match as_string v with
              | None => Err (Invalid ("option must be a string: " +:+ key))
              | Some s => Okay s
              end
  end.

(* [src/core/node.cpp:134-143] GetIntegerOption *)
Definition GetIntegerOption (o : NodeOptions) (key : string) : Res Z :=
  match FindOption o key with
  | None => Err (NotFound ("option not found: " +:+ key))
  | Some v => match as_int v with
              | Some z => Okay z
              | None => Err (Invalid ("option must be an integer: " +:+ key))
              end
  end.

(* [src/core/node.cpp:145-152] GetBoolOption *)
Definition GetBoolOption (o : NodeOptions) (key : string) : Res bool :=
  match FindOption o key with
  | None => Err (NotFound ("option not found: " +:+ key))
  | Some v => match as_bool v with
              | None => Err (Invalid ("option must be a boolean: " +:+ key))
              | Some b => Okay b
              end
  end.
