(* ===== verification/Node.v ===== *)
(** * Nodes and their life cycle

    [include/rkavp/node.hpp], [src/core/node.cpp].

    A node acts on the world through its context: it emits packets, counts
    metrics and reads the clock.  [NodeM NS A] is the program of a hook of a
    node whose private state is [NS]: each [NLocal] is one atomic access to
    that state (a lock region, or a sequence of statements nothing else can
    observe), [NTimed] is one that also reads the clock, each other constructor is one call that leaves the node.
    [nrun] executes such a program against a handler for the calls; the graph
    runner and the node test runner supply their own handlers.

    [NodeClass] is the interface of the virtual methods; [Configure], [Open],
    [Start], [Process], [RequestStop], [Stop] and [Close] are the non-virtual
    methods that guard them with the state of the node. *)

From S2P Require Import Prelude Status Timestamp Values Contract.
From Stdlib Require Import SpecFloat.

(** ** Programs of a node *)

Inductive NodeM (NS : Type) (A : Type) : Type :=
| NRet (a : A)
| NLocal {B : Type} (f : NS -> B * NS) (k : B -> NodeM NS A)
| NEmit (port : string) (p : Packet) (k : Status -> NodeM NS A)
| NIncrement (name : string) (k : NodeM NS A)
| NSetGauge (name : string) (v : spec_float) (k : NodeM NS A)
| NTimed {B : Type} (f : Z -> NS -> B * NS) (k : B -> NodeM NS A).
Arguments NRet {NS A} _.
Arguments NLocal {NS A B} _ _.
Arguments NEmit {NS A} _ _ _.
Arguments NIncrement {NS A} _ _.
Arguments NSetGauge {NS A} _ _ _.
Arguments NTimed {NS A B} _ _.

Section monad.
Context {NS : Type}.

Fixpoint nbind {A B} (m : NodeM NS A) (f : A -> NodeM NS B) : NodeM NS B :=
  match m with
  | NRet a => f a
  | NLocal g k => NLocal g (fun b => nbind (k b) f)
  | NEmit port p k => NEmit port p (fun s => nbind (k s) f)
  | NIncrement n k => NIncrement n (nbind k f)
  | NSetGauge n v k => NSetGauge n v (nbind k f)
  | NTimed g k => NTimed g (fun b => nbind (k b) f)
  end.

Definition nlocal {B} (f : NS -> B * NS) : NodeM NS B := NLocal f NRet.
Definition nget : NodeM NS NS := nlocal (fun s => (s, s)).
Definition nmodify (f : NS -> NS) : NodeM NS unit := nlocal (fun s => (tt, f s)).
Definition nemit (port : string) (p : Packet) : NodeM NS Status := NEmit port p NRet.
Definition nincrement (n : string) : NodeM NS unit := NIncrement n (NRet tt).
Definition ngauge (n : string) (v : spec_float) : NodeM NS unit := NSetGauge n v (NRet tt).
Definition ntimed {B} (f : Z -> NS -> B * NS) : NodeM NS B := NTimed f NRet.
End monad.

Notation "x <-- m ; k" := (nbind m (fun x => k))
  (at level 100, m at next level, right associativity) : rkavp_scope.
Notation "m ;;; k" := (nbind m (fun _ => k))
  (at level 100, right associativity) : rkavp_scope.
Local Open Scope rkavp_scope.

(** ** Handlers *)

(** What answers the calls of a node, with a state [W] of its own. *)
Record Handler (W : Type) := mkHandler {
  h_emit : string -> Packet -> W -> Status * W;
  h_increment : string -> W -> W;
  h_gauge : string -> spec_float -> W -> W;
  h_now : W -> Z * W }.
Arguments mkHandler {W} _ _ _ _.
Arguments h_emit {W} _ _ _ _.
Arguments h_increment {W} _ _ _.
Arguments h_gauge {W} _ _ _ _.
Arguments h_now {W} _ _.

Fixpoint nrun {W NS A} (h : Handler W) (m : NodeM NS A) (s : NS) (w : W) : A * NS * W :=
  match m with
  | NRet a => (a, s, w)
  | NLocal f k => let '(b, s') := f s in nrun h (k b) s' w
  | NEmit port p k => let '(r, w') := h_emit h port p w in nrun h (k r) s w'
  | NIncrement n k => nrun h k s (h_increment h n w)
  | NSetGauge n v k => nrun h k s (h_gauge h n v w)
  | NTimed f k => let '(t, w') := h_now h w in
                  let '(b, s') := f t s in nrun h (k b) s' w'
  end.

Lemma nrun_bind {W NS A B} (h : Handler W) (m : NodeM NS A) (f : A -> NodeM NS B) s w :
  nrun h (nbind m f) s w =
  let '(a, s', w') := nrun h m s w in nrun h (f a) s' w'.
Proof.
  revert s w. induction m as [a|B' g k IH|port p k IH|n k IH|n v k IH|B' g k IH]; intros s w; simpl.
  - done.
  - destruct (g s). apply IH.
  - destruct (h_emit h port p w). apply IH.
  - apply IH.
  - apply IH.
  - destruct (h_now h w) as [t w']. destruct (g t s). apply IH.
Qed.

(** The handler that collects what a node does.  [replies] are the statuses
    the receiver of the packets answers with, in order ([Ok] when exhausted);
    [clock] are the readings of the clock. *)
Record Outbox := mkOutbox {
  sent : list (string * Packet);
  replies : list Status;
  counted : list string;
  gauges : list (string * spec_float);
  clock : list Z }.

Definition after_emit (port : string) (p : Packet) (w : Outbox) : Outbox :=
  mkOutbox (sent w ++ [(port, p)]) (tl (replies w)) (counted w) (gauges w) (clock w).
Definition outbox_emit (port : string) (p : Packet) (w : Outbox) : Status * Outbox :=
  (hd Ok (replies w), after_emit port p w).

Definition outbox : Handler Outbox := mkHandler
  outbox_emit
  (fun n w => mkOutbox (sent w) (replies w) (counted w ++ [n]) (gauges w) (clock w))
  (fun n v w => mkOutbox (sent w) (replies w) (counted w) (gauges w ++ [(n, v)]) (clock w))
  (fun w => (hd 0 (clock w),
             mkOutbox (sent w) (replies w) (counted w) (gauges w) (tl (clock w)))).

Definition empty_outbox : Outbox := mkOutbox [] [] [] [] [].

(** ** The context of an invocation *)

(* [include/rkavp/node.hpp:69-77] NodeContext *)
Record NodeContext := mkContext {
  node_id : string;
  executor : string;
  context_inputs : PacketSet;
  has_emit : bool;
  side_packets : option PacketSet;
  has_clock_service : bool }.

(* [src/core/node.cpp:45-48] NodeContext::Input *)
Definition Input (c : NodeContext) (port : string) : option Packet := context_inputs c !! port.

(** The order in which an [unordered_map] of inputs is traversed only affects
    the order of the tokens. *)
Definition inherit_all (inputs : PacketSet) (p : Packet) : Packet :=
  fold_left (fun p kv => InheritLifetimeTokens p kv.2) (map_to_list inputs) p.

(* [src/core/node.cpp:50-54] NodeContext::Emit *)
Definition Emit {NS} (c : NodeContext) (port : string) (p : Packet) : NodeM NS Status :=
  if has_emit c then nemit port (inherit_all (context_inputs c) p)
  else NRet (FailedPrecondition "node has no output emitter").

(* [src/core/node.cpp:56-59] NodeContext::SetOutputTimestampBound *)
Definition SetOutputTimestampBound {NS} (c : NodeContext) (port : string) (bound : Timestamp)
  : NodeM NS Status :=
  if is_unset bound then NRet (Invalid "output timestamp bound cannot be unset")
  else Emit c port (Event kTimestampBound bound).

(* [src/core/node.cpp:61-63] NodeContext::SidePacket *)
Definition SidePacket (c : NodeContext) (name : string) : option Packet :=
  sp ← side_packets c; sp !! name.

Lemma inherit_all_fields inputs p :
  data (inherit_all inputs p) = data p /\ timestamp (inherit_all inputs p) = timestamp p /\
  metadata (inherit_all inputs p) = metadata p /\ event (inherit_all inputs p) = event p.
Proof.
  unfold inherit_all. generalize (map_to_list inputs). intros l. revert p.
  induction l as [|kv l IH]; intros p; simpl; [done|].
  by destruct (IH (InheritLifetimeTokens p kv.2)) as (-> & -> & -> & ->).
Qed.

Lemma inherit_all_tokens inputs p :
  lifetime_tokens (inherit_all inputs p) =
  lifetime_tokens p ++ concat (map (fun kv => lifetime_tokens kv.2) (map_to_list inputs)).
Proof.
  unfold inherit_all. generalize (map_to_list inputs). intros l. revert p.
  induction l as [|kv l IH]; intros p; simpl; [by rewrite app_nil_r|].
  rewrite IH; simpl. by rewrite <- app_assoc.
Qed.

(** What a node emits keeps alive everything its inputs kept alive. *)
Lemma emit_keeps_tokens inputs p port q t :
  inputs !! port = Some q -> t ∈ lifetime_tokens q -> t ∈ lifetime_tokens (inherit_all inputs p).
Proof.
  intros Hq Ht. rewrite inherit_all_tokens, elem_of_app. right.
  apply list_elem_of_In, in_concat. exists (lifetime_tokens q).
  split; [|by apply list_elem_of_In].
  apply in_map_iff. exists (port, q). split; [done|].
  by apply list_elem_of_In, elem_of_map_to_list.
Qed.

(** ** The life cycle *)

(* [include/rkavp/node.hpp:80-80] NodeState *)
Inductive NodeState := kCreated | kConfigured | kOpen | kRunning | kStopped | kClosed | kError.
#[export] Instance NodeState_eq_dec : EqDecision NodeState.
Proof. solve_decision. Defined.

(* [include/rkavp/node.hpp:81-81] ConcurrencyMode *)
Inductive ConcurrencyMode := kSerial | kReentrant | kExclusive.
#[export] Instance ConcurrencyMode_eq_dec : EqDecision ConcurrencyMode.
Proof. solve_decision. Defined.

(** The virtual methods of a node class with private state [NS]. *)
(* [include/rkavp/node.hpp:97-104] Node (virtual methods) *)
Record NodeClass (NS : Type) := mkNodeClass {
  Contract : NodeContract;
  concurrency : ConcurrencyMode;
  OnConfigure : NodeOptions -> NodeM NS Status;
  OnOpen : NodeM NS Status;
  OnStart : NodeContext -> NodeM NS Status;
  OnProcess : NodeContext -> NodeM NS Status;
  OnRequestStop : NodeM NS unit;
  OnStop : NodeM NS Status;
  OnClose : NodeM NS Status }.
Arguments mkNodeClass {NS} _ _ _ _ _ _ _ _ _.
Arguments Contract {NS} _.
Arguments concurrency {NS} _.
Arguments OnConfigure {NS} _ _.
Arguments OnOpen {NS} _.
Arguments OnStart {NS} _ _.
Arguments OnProcess {NS} _ _.
Arguments OnRequestStop {NS} _.
Arguments OnStop {NS} _.
Arguments OnClose {NS} _.

(** The base class's own methods, for the classes that do not override them. *)
(* [include/rkavp/node.hpp:98-104] Node (default hooks) *)
Definition default_hooks {NS} (contract : NodeContract)
    (process : NodeContext -> NodeM NS Status) : NodeClass NS :=
  mkNodeClass contract kSerial (fun _ => NRet Ok) (NRet Ok) (fun _ => NRet Ok) process
              (NRet tt) (NRet Ok) (NRet Ok).

(* [include/rkavp/node.hpp:106-109] Node (fields) *)
Record NodeObj (NS : Type) := mkNodeObj {
  state_ : NodeState;
  stop_requested_ : bool;
  self : NS }.
Arguments mkNodeObj {NS} _ _ _.
Arguments state_ {NS} _.
Arguments stop_requested_ {NS} _.
Arguments self {NS} _.

Definition new_node {NS} (s : NS) : NodeObj NS := mkNodeObj kCreated false s.

Section lifecycle.
Context {NS : Type} (cls : NodeClass NS).
Implicit Types (A : Type).

(** A hook runs on the derived part of the object. *)
Fixpoint lift {A} (m : NodeM NS A) : NodeM (NodeObj NS) A :=
  match m with
  | NRet a => NRet a
  | NLocal f k =>
      NLocal (fun o => let '(b, s) := f (self o) in
                       (b, mkNodeObj (state_ o) (stop_requested_ o) s))
             (fun b => lift (k b))
  | NEmit port p k => NEmit port p (fun s => lift (k s))
  | NIncrement n k => NIncrement n (lift k)
  | NSetGauge n v k => NSetGauge n v (lift k)
  | NTimed f k =>
      NTimed (fun t o => let '(b, s) := f t (self o) in
                         (b, mkNodeObj (state_ o) (stop_requested_ o) s))
             (fun b => lift (k b))
  end.

Definition load : NodeM (NodeObj NS) NodeState := nlocal (fun o => (state_ o, o)).
Definition store (st : NodeState) : NodeM (NodeObj NS) unit :=
  nmodify (fun o => mkNodeObj st (stop_requested_ o) (self o)).

(* [src/core/node.cpp:115-118] Node::Transition *)
Definition Transition (status : Status) (success_state : NodeState) : NodeM (NodeObj NS) Status :=
  store (if ok status then success_state else kError);;; NRet status.

(* [src/core/node.cpp:65-71] Node::Configure *)
Definition Configure (options : NodeOptions) : NodeM (NodeObj NS) Status :=
  st <-- load;
  if negb (bool_decide (st = kCreated)) then
    NRet (FailedPrecondition "Configure requires created state")
  else
    let status := ValidateOptions (Contract cls) options in
    if negb (ok status) then Transition status kConfigured
    else r <-- lift (OnConfigure cls options); Transition r kConfigured.

(* [src/core/node.cpp:73-77] Node::Open *)
Definition Open : NodeM (NodeObj NS) Status :=
  st <-- load;
  if negb (bool_decide (st = kConfigured)) then
    NRet (FailedPrecondition "Open requires configured state")
  else r <-- lift (OnOpen cls); Transition r kOpen.

(* [src/core/node.cpp:79-85] Node::Start *)
Definition Start (c : NodeContext) : NodeM (NodeObj NS) Status :=
  st <-- load;
  if negb (bool_decide (st = kOpen)) && negb (bool_decide (st = kStopped)) then
    NRet (FailedPrecondition "Start requires open or stopped state")
  else
    nmodify (fun o => mkNodeObj (state_ o) false (self o));;;
    r <-- lift (OnStart cls c); Transition r kRunning.

(* [src/core/node.cpp:87-91] Node::Process *)
Definition Process (c : NodeContext) : NodeM (NodeObj NS) Status :=
  st <-- load;
  if negb (bool_decide (st = kRunning)) then
    NRet (FailedPrecondition "Process requires running state")
  else r <-- lift (OnProcess cls c); Transition r kRunning.

(* [src/core/node.cpp:93-95] Node::RequestStop *)
Definition RequestStop : NodeM (NodeObj NS) unit :=
  was <-- nlocal (fun o => (stop_requested_ o, mkNodeObj (state_ o) true (self o)));
  if (was : bool) then NRet tt else lift (OnRequestStop cls).

(* [src/core/node.cpp:97-104] Node::Stop *)
Definition Stop : NodeM (NodeObj NS) Status :=
  st <-- load;
  if bool_decide (st = kStopped) || bool_decide (st = kClosed) || bool_decide (st = kCreated)
  then NRet Ok
  else RequestStop;;; r <-- lift (OnStop cls); Transition r kStopped.

(* [src/core/node.cpp:106-113] Node::Close *)
Definition Close : NodeM (NodeObj NS) Status :=
  st <-- load;
  if bool_decide (st = kClosed) then NRet Ok
  else if bool_decide (st = kRunning) then
    status <-- Stop;
    if negb (ok status) then NRet status
    else r <-- lift (OnClose cls); Transition r kClosed
  else r <-- lift (OnClose cls); Transition r kClosed.

Lemma nrun_lift {W A} (h : Handler W) (m : NodeM NS A) o w :
  nrun h (lift m) o w =
  let '(a, s, w') := nrun h m (self o) w in
  (a, mkNodeObj (state_ o) (stop_requested_ o) s, w').
Proof.
  revert o w. induction m as [a|B' g k IH|port p k IH|n k IH|n v k IH|B' g k IH];
    intros [st sr s] w; simpl.
  - done.
  - destruct (g s). by rewrite IH.
  - destruct (h_emit h port p w). apply IH.
  - apply IH.
  - apply IH.
  - destruct (h_now h w) as [t w']. destruct (g t s). by rewrite IH.
Qed.

Lemma nrun_load {W A} (h : Handler W) (k : NodeState -> NodeM (NodeObj NS) A) o w :
  nrun h (st <-- load; k st) o w = nrun h (k (state_ o)) o w.
Proof. reflexivity. Qed.
End lifecycle.

(** ** What [Stop] and [Close] of a node leave *)

Definition at_rest {NS} (o : NodeObj NS) : Prop := state_ o <> kRunning.
Definition closed_or_failed {NS} (o : NodeObj NS) : Prop := state_ o = kClosed \/ state_ o = kError.

Section rest.
Context {NS W : Type} (h : Handler W) (cls : NodeClass NS).

Lemma nrun_transition (m : NodeM NS Status) st o w :
  state_ (nrun h (nbind (lift m) (fun r => Transition r st)) o w).1.2 = st \/
  state_ (nrun h (nbind (lift m) (fun r => Transition r st)) o w).1.2 = kError.
Proof.
  rewrite nrun_bind, nrun_lift. destruct (nrun h m (self o) w) as [[r s] w']. simpl.
  destruct (ok r); auto.
Qed.

Lemma stop_at_rest o w : at_rest (nrun h (Stop cls) o w).1.2.
Proof.
  unfold Stop, at_rest. rewrite nrun_load. destruct (_ || _) eqn:E.
  - simpl. intros H. rewrite H in E. vm_compute in E. discriminate.
  - rewrite nrun_bind. destruct (nrun h (RequestStop cls) o w) as [[[] o1] w1].
    destruct (nrun_transition (OnStop cls) kStopped o1 w1) as [-> | ->]; done.
Qed.

Lemma close_at_rest o w : at_rest o -> closed_or_failed (nrun h (Close cls) o w).1.2.
Proof.
  unfold Close, at_rest, closed_or_failed. intros Hr. rewrite nrun_load.
  case_bool_decide as Hc; [by left|]. rewrite bool_decide_eq_false_2 by done. apply nrun_transition.
Qed.
End rest.

(** ** The order of the hooks

    [recorded cls] behaves like [cls] and keeps a log of the hooks that ran, the
    newest first, with their outcome. *)

Inductive Hook := HConfigure | HOpen | HStart | HProcess | HRequestStop | HStop | HClose.
#[export] Instance Hook_eq_dec : EqDecision Hook.
Proof. solve_decision. Defined.

Abbreviation HookLog := (list (Hook * bool)).

Section recorded.
Context {NS : Type} (cls : NodeClass NS).

Fixpoint lift_fst {A} (m : NodeM NS A) : NodeM (NS * HookLog) A :=
  match m with
  | NRet a => NRet a
  | NLocal f k => NLocal (fun o => let '(b, s) := f o.1 in (b, (s, o.2)))
                         (fun b => lift_fst (k b))
  | NEmit port p k => NEmit port p (fun s => lift_fst (k s))
  | NIncrement n k => NIncrement n (lift_fst k)
  | NSetGauge n v k => NSetGauge n v (lift_fst k)
  | NTimed f k => NTimed (fun t o => let '(b, s) := f t o.1 in (b, (s, o.2)))
                         (fun b => lift_fst (k b))
  end.

Definition log_hook (h : Hook) (m : NodeM NS Status) : NodeM (NS * HookLog) Status :=
  r <-- lift_fst m; nmodify (fun o => (o.1, (h, ok r) :: o.2));;; NRet r.

Definition recorded : NodeClass (NS * HookLog) :=
  mkNodeClass (Contract cls) (concurrency cls)
    (fun o => log_hook HConfigure (OnConfigure cls o))
    (log_hook HOpen (OnOpen cls))
    (fun c => log_hook HStart (OnStart cls c))
    (fun c => log_hook HProcess (OnProcess cls c))
    (lift_fst (OnRequestStop cls);;;
     nmodify (fun o => (o.1, (HRequestStop, true) :: o.2)))
    (log_hook HStop (OnStop cls))
    (log_hook HClose (OnClose cls)).

Lemma nrun_lift_fst {W A} (h : Handler W) (m : NodeM NS A) o w :
  exists a s w', nrun h (lift_fst m) o w = (a, (s, o.2), w').
Proof.
  revert o w. induction m as [a|B' g k IH|port p k IH|n k IH|n v k IH|B' g k IH];
    intros [s l] w; simpl.
  - eauto.
  - destruct (g s) as [b s']. apply (IH b (s', l)).
  - destruct (h_emit h port p w). apply IH.
  - apply IH.
  - apply IH.
  - destruct (h_now h w) as [t w']. destruct (g t s) as [b s']. apply (IH b (s', l)).
Qed.

Lemma nrun_log_hook {W} (h : Handler W) hk (m : NodeM NS Status) o w :
  exists r s w', nrun h (lift (log_hook hk m)) o w =
    (r, mkNodeObj (state_ o) (stop_requested_ o) (s, (hk, ok r) :: (self o).2), w').
Proof.
  rewrite nrun_lift. unfold log_hook. rewrite nrun_bind.
  destruct (nrun_lift_fst h m (self o) w) as (r & s & w' & ->). simpl. eauto.
Qed.

Lemma nrun_log_request {W} (h : Handler W) o w :
  exists s w', nrun h (lift (OnRequestStop recorded)) o w =
    (tt, mkNodeObj (state_ o) (stop_requested_ o) (s, (HRequestStop, true) :: (self o).2), w').
Proof.
  rewrite nrun_lift. simpl. rewrite nrun_bind.
  destruct (nrun_lift_fst h (OnRequestStop cls) (self o) w) as (r & s & w' & ->).
  simpl. eauto.
Qed.
End recorded.

(** The last hook other than [OnRequestStop]. *)
Definition last_main (l : HookLog) : option (Hook * bool) :=
  List.find (fun e => negb (bool_decide (e.1 = HRequestStop))) l.

(** Stop requests since the last [OnStart]. *)
Fixpoint requests (l : HookLog) : nat :=
  match l with
  | [] => 0
  | (HStart, _) :: _ => 0
  | (HRequestStop, _) :: l' => S (requests l')
  | _ :: l' => requests l'
  end.

(** The protocol a node class may rely on. *)
Definition allowed (l : HookLog) (h : Hook) : bool :=
  match h with
  | HConfigure => bool_decide (last_main l = None)
  | HOpen => bool_decide (last_main l = Some (HConfigure, true))
  | HStart => bool_decide (last_main l = Some (HOpen, true)) ||
              bool_decide (last_main l = Some (HStop, true))
  | HProcess => bool_decide (last_main l = Some (HStart, true)) ||
                bool_decide (last_main l = Some (HProcess, true))
  | HRequestStop => bool_decide (requests l = 0%nat)
  | HStop => negb (bool_decide (last_main l = Some (HStop, true))) &&
             negb (bool_decide (last_main l = Some (HClose, true)))
  | HClose => negb (bool_decide (last_main l = Some (HClose, true))) &&
              negb (bool_decide (last_main l = Some (HStart, true))) &&
              negb (bool_decide (last_main l = Some (HProcess, true)))
  end.

Fixpoint legal (l : HookLog) : bool :=
  match l with [] => true | (h, _) :: l' => allowed l' h && legal l' end.

(** The state of a node as a function of what ran: [None] in the log with the
    error state is a refused configuration. *)
Definition state_agrees (st : NodeState) (l : HookLog) : Prop :=
  match st with
  | kCreated => last_main l = None
  | kConfigured => last_main l = Some (HConfigure, true)
  | kOpen => last_main l = Some (HOpen, true)
  | kRunning => last_main l = Some (HStart, true) \/ last_main l = Some (HProcess, true)
  | kStopped => last_main l = Some (HStop, true)
  | kClosed => last_main l = Some (HClose, true)
  | kError => last_main l = None \/ exists h, last_main l = Some (h, false)
  end.

Inductive NodeOp :=
| OpConfigure (o : NodeOptions)
| OpOpen
| OpStart (c : NodeContext)
| OpProcess (c : NodeContext)
| OpRequestStop
| OpStop
| OpClose.

Definition node_op {NS} (cls : NodeClass NS) (op : NodeOp) : NodeM (NodeObj NS) unit :=
  match op with
  | OpConfigure o => Configure cls o;;; NRet tt
  | OpOpen => Open cls;;; NRet tt
  | OpStart c => Start cls c;;; NRet tt
  | OpProcess c => Process cls c;;; NRet tt
  | OpRequestStop => RequestStop cls
  | OpStop => Stop cls;;; NRet tt
  | OpClose => Close cls;;; NRet tt
  end.

Fixpoint node_ops {NS} (cls : NodeClass NS) (ops : list NodeOp) : NodeM (NodeObj NS) unit :=
  match ops with
  | [] => NRet tt
  | op :: ops' => node_op cls op;;; node_ops cls ops'
  end.

Section order.
Context {NS W : Type} (cls : NodeClass NS) (h : Handler W).

Definition lifecycle_inv (o : NodeObj (NS * HookLog)) : Prop :=
  legal (self o).2 = true /\ state_agrees (state_ o) (self o).2 /\
  (if stop_requested_ o then requests (self o).2 <= 1 else requests (self o).2 = 0)%nat.

(** A program keeps the invariant whatever its handler does. *)
Definition keeps {A} (m : NodeM (NodeObj (NS * HookLog)) A) : Prop :=
  forall o w, lifecycle_inv o -> lifecycle_inv (nrun h m o w).1.2.

(** Running one hook in a state that allows it and moving to the state that
    records its outcome keeps the invariant. *)
Lemma keeps_hook hk m st o w :
  lifecycle_inv o -> allowed (self o).2 hk = true -> hk <> HRequestStop ->
  (forall l, last_main l = Some (hk, true) -> state_agrees st l) ->
  lifecycle_inv (nrun h (r <-- lift (log_hook hk m); Transition r st) o w).1.2.
Proof.
  intros (Hl & Hs & Hr) Ha Hne Hst. rewrite nrun_bind.
  destruct (nrun_log_hook h hk m o w) as (r & s & w' & ->). simpl.
  assert (last_main ((hk, ok r) :: (self o).2) = Some (hk, ok r)) as Hm.
  { unfold last_main; simpl. by rewrite bool_decide_eq_false_2. }
  split_and!; simpl.
  - by rewrite Ha, Hl.
  - destruct (ok r); [by apply Hst|]. right. eauto.
  - destruct hk; try done; simpl; destruct (stop_requested_ o); lia.
Qed.

Lemma keeps_request : keeps (RequestStop (recorded cls)).
Proof.
  intros [st sr [s l]] w (Hl & Hs & Hr). unfold RequestStop. rewrite nrun_bind. simpl.
  destruct sr; simpl; [done|].
  destruct (nrun_log_request cls h (mkNodeObj st true (s, l)) w) as (s' & w' & E).
  simpl in E. rewrite E. simpl in *. unfold lifecycle_inv; simpl.
  rewrite Hl, Hr, bool_decide_eq_true_2 by done. split_and!; [done| |lia].
  by destruct st.
Qed.

(** The state is not touched by a stop request. *)
Lemma request_state o w :
  state_ (nrun h (RequestStop (recorded cls)) o w).1.2 = state_ o.
Proof.
  destruct o as [st sr [s l]]. unfold RequestStop. rewrite nrun_bind. simpl.
  destruct sr; simpl; [done|].
  destruct (nrun_log_request cls h (mkNodeObj st true (s, l)) w) as (s' & w' & E).
  simpl in E. by rewrite E.
Qed.

(** Decides [allowed] from what the state says of the log. *)
Ltac agreed :=
  repeat match goal with
  | H : _ \/ _ |- _ => destruct H
  | H : exists _, _ |- _ => destruct H
  | H : last_main _ = _ |- _ => rewrite H; clear H
  end; repeat case_bool_decide; simplify_eq/=; done.

Ltac allowed_tac :=
  match goal with
  | H : lifecycle_inv ?o |- _ => destruct H as (? & ? & ?); destruct o as [? ? [? ?]]
  end; simplify_eq/=; unfold allowed; agreed.

Lemma keeps_stop_allowed o : lifecycle_inv o ->
  state_ o <> kStopped -> state_ o <> kClosed -> allowed (self o).2 HStop = true.
Proof.
  intros (_ & Hs & _). destruct o as [[] ? [? l]]; simpl in *; intros ??; try done;
    agreed.
Qed.

Lemma keeps_stop : keeps (Stop (recorded cls)).
Proof.
  intros o w Hi. unfold Stop. rewrite nrun_load.
  destruct (bool_decide (state_ o = kStopped)) eqn:E1; [done|].
  destruct (bool_decide (state_ o = kClosed)) eqn:E2; [done|].
  destruct (bool_decide (state_ o = kCreated)) eqn:E3; [done|].
  apply bool_decide_eq_false in E1, E2, E3. cbn [orb].
  rewrite nrun_bind. pose proof (keeps_request o w Hi) as Hi'.
  pose proof (request_state o w) as Hst.
  destruct (nrun h (RequestStop (recorded cls)) o w) as [[[] o'] w'].
  simpl in Hi', Hst. rewrite <- Hst in E1, E2. apply keeps_hook; auto using keeps_stop_allowed.
Qed.

Lemma keeps_close_hook o w : lifecycle_inv o -> state_ o <> kClosed -> state_ o <> kRunning ->
  lifecycle_inv (nrun h (r <-- lift (OnClose (recorded cls)); Transition r kClosed) o w).1.2.
Proof.
  intros Hi H1 H2. apply keeps_hook; [done| |done|done].
  destruct Hi as (_ & Hs & _). destruct o as [[] ? [? l]]; simpl in *; try done;
    agreed.
Qed.

Lemma stop_ok_state o w r o' w' : state_ o = kRunning ->
  nrun h (Stop (recorded cls)) o w = (r, o', w') -> ok r = true -> state_ o' = kStopped.
Proof.
  intros Hr. unfold Stop. rewrite nrun_load, Hr.
  rewrite !bool_decide_eq_false_2 by done. cbn [orb]. rewrite nrun_bind.
  destruct (nrun h (RequestStop (recorded cls)) o w) as [[[] o1] w1].
  rewrite nrun_bind. change (OnStop (recorded cls)) with (log_hook HStop (OnStop cls)).
  destruct (nrun_log_hook h HStop (OnStop cls) o1 w1) as (r' & s & w2 & ->).
  simpl. intros [= <- <- <-] Hok. simpl. by rewrite Hok.
Qed.

Lemma keeps_close : keeps (Close (recorded cls)).
Proof.
  intros o w Hi. unfold Close. rewrite nrun_load.
  case_bool_decide; [done|]. case_bool_decide; [|by apply keeps_close_hook].
  rewrite nrun_bind. pose proof (keeps_stop o w Hi) as Hi'.
  destruct (nrun h (Stop (recorded cls)) o w) as [[r o'] w'] eqn:E. simpl in Hi'.
  destruct (ok r) eqn:Er; simpl; [|done].
  pose proof (stop_ok_state o w r o' w' ltac:(done) E Er) as Hs.
  apply keeps_close_hook; by rewrite ?Hs.
Qed.

Lemma keeps_bind_ret {A} (m : NodeM (NodeObj (NS * HookLog)) A) : keeps m -> keeps (m;;; NRet tt).
Proof.
  intros Hm o w Hi. rewrite nrun_bind. pose proof (Hm o w Hi).
  by destruct (nrun h m o w) as [[r o'] w'].
Qed.

Lemma keeps_configure opts : keeps (Configure (recorded cls) opts).
Proof.
  intros o w Hi. unfold Configure. rewrite nrun_load.
  case_bool_decide as Hc; simpl; [|done].
  destruct (ok (ValidateOptions (Contract cls) opts)) eqn:Hv; simpl.
  - apply keeps_hook; [done|allowed_tac|done|done].
  - rewrite Hv. destruct Hi as (Hl & Hs & Hr). split_and!; simpl; [done| |done].
    left. by destruct o as [[] ? [? ?]].
Qed.

Lemma keeps_start c : keeps (Start (recorded cls) c).
Proof.
  intros [st sr [s l]] w Hi. unfold Start. rewrite nrun_load. cbn [state_].
  destruct (negb (bool_decide (st = kOpen)) && negb (bool_decide (st = kStopped))) eqn:E; [done|].
  rewrite nrun_bind. cbn [nrun nmodify nlocal state_ self stop_requested_]. rewrite nrun_bind.
  change (OnStart (recorded cls) c) with (log_hook HStart (OnStart cls c)).
  destruct (nrun_log_hook h HStart (OnStart cls c)
    (mkNodeObj st false (s, l)) w) as (r & s' & w' & ->).
  destruct Hi as (Hl & Hs & Hr). split_and!; simpl in *.
  - rewrite Hl. destruct st; try done; simpl in Hs; by rewrite Hs.
  - destruct (ok r); [by left|right; by exists HStart].
  - done.
Qed.

Lemma keeps_open : keeps (Open (recorded cls)).
Proof.
  intros o w Hi. unfold Open. rewrite nrun_load.
  case_bool_decide; [|done]. apply keeps_hook; [done|allowed_tac|done|done].
Qed.

Lemma keeps_process c : keeps (Process (recorded cls) c).
Proof.
  intros o w Hi. unfold Process. rewrite nrun_load.
  case_bool_decide; [|done].
  apply keeps_hook; [done|allowed_tac|done|]. intros l ?. by right.
Qed.

Lemma keeps_op op : keeps (node_op (recorded cls) op).
Proof.
  destruct op; first [apply keeps_request | apply keeps_bind_ret];
    auto using keeps_configure, keeps_open, keeps_start, keeps_process, keeps_stop, keeps_close.
Qed.
End order.


(** A node that is stopped before it was opened is started without being
    opened. *)
Example start_without_open :
  let cls := default_hooks (mkContract [] [] [] kAny "") (fun _ => NRet Ok) in
  let c := mkContext "n" "" ∅ false None false in
  let o := (nrun outbox (node_ops (recorded cls) [OpConfigure ∅; OpStop; OpStart c])
              (new_node (tt, [])) empty_outbox).1.2 in
  (self o).2 = [(HStart, true); (HStop, true); (HRequestStop, true); (HConfigure, true)].
Proof. reflexivity. Qed.
