(* ===== verification/Registry.v ===== *)
(** * Node types and plugins

    [src/core/node_registry.cpp]: the factories of node types by name.
    [src/core/plugin.cpp]: plugins that add factories and can be unloaded.

    A factory makes a fresh node of a class; it is the class and the initial
    private state.  What is in a plugin file is a parameter: [dlopen] either
    fails, or gives a library without the entry point, or one whose entry point
    is a function on the registry. *)

From S2P Require Import Prelude Status Values Contract Node.
Local Open Scope rkavp_scope.

(** A node class with its private state packed away. *)
Record NodeType := mkNodeType {
  nt_state : Type;
  nt_class : NodeClass nt_state;
  nt_init : nt_state }.

(** ** The registry *)

Module NodeRegistry.

(* [include/rkavp/node_registry.hpp:14-27] NodeRegistry *)
Record Registry := mkRegistry { factories_ : gmap string NodeType }.

Definition empty_registry : Registry := mkRegistry ∅.

(** An empty [std::function] is [None]. *)
(* [src/core/node_registry.cpp:7-17] NodeRegistry::Register *)
Definition Register (type : string) (factory : option NodeType) (r : Registry) : Status * Registry :=
  match factory with
  | None => (Invalid "node type and factory are required", r)
  | Some f =>
      if bool_decide (type = "") then (Invalid "node type and factory are required", r)
      else match factories_ r !! type with
           | Some _ => (AlreadyExists ("node type is already registered: " +:+ type), r)
           | None => (Ok, mkRegistry (<[type := f]> (factories_ r)))
           end
  end.

(* [src/core/node_registry.cpp:19-25] NodeRegistry::Unregister *)
Definition Unregister (type : string) (r : Registry) : Status * Registry :=
  match factories_ r !! type with
  | None => (NotFound ("node type is not registered: " +:+ type), r)
  | Some _ => (Ok, mkRegistry (delete type (factories_ r)))
  end.

(* [src/core/node_registry.cpp:27-31] NodeRegistry::Create *)
Definition Create (type : string) (r : Registry) : option NodeType := factories_ r !! type.

(* [src/core/node_registry.cpp:33-36] NodeRegistry::Contains *)
Definition Contains (type : string) (r : Registry) : bool :=
  bool_decide (is_Some (factories_ r !! type)).

(* [src/core/node_registry.cpp:38-47] NodeRegistry::Types *)
Definition Types (r : Registry) : list string :=
  merge_sort String.le (map_to_list (factories_ r)).*1.

Lemma Types_elem r t : t ∈ Types r <-> is_Some (factories_ r !! t).
Proof.
  unfold Types. rewrite merge_sort_Permutation, list_elem_of_fmap. split.
  - intros ([k v] & -> & Hin). apply elem_of_map_to_list in Hin. eauto.
  - intros [v Hv]. exists (t, v). split; [done|]. by apply elem_of_map_to_list.
Qed.

Lemma Types_NoDup r : NoDup (Types r).
Proof. unfold Types. rewrite merge_sort_Permutation. apply NoDup_fst_map_to_list. Qed.

Lemma Types_sorted r : StronglySorted String.le (Types r).
Proof. apply StronglySorted_merge_sort; apply _. Qed.

Definition unregister_all (ts : list string) (r : Registry) : Registry :=
  fold_left (fun r t => (Unregister t r).2) ts r.

Lemma factories_unregister t r :
  factories_ (Unregister t r).2 = delete t (factories_ r).
Proof.
  unfold Unregister. destruct (factories_ r !! t) eqn:E; simpl; [done|].
  by rewrite delete_id.
Qed.

Lemma lookup_unregister_all ts r t :
  factories_ (unregister_all ts r) !! t =
  if decide (t ∈ ts) then None else factories_ r !! t.
Proof.
  revert r. induction ts as [|u ts IH]; intros r.
  - done.
  - cbn [unregister_all fold_left]. fold (unregister_all ts (Unregister u r).2). rewrite IH, factories_unregister.
    destruct (decide (t ∈ ts)), (decide (t ∈ u :: ts)); try done; [set_solver| |].
    + destruct (decide (t = u)) as [->|]; [apply lookup_delete_eq|set_solver].
    + rewrite lookup_delete_ne; [done|set_solver].
Qed.

Lemma registry_ext r r' : (forall t, factories_ r !! t = factories_ r' !! t) -> r = r'.
Proof. destruct r, r'; simpl. intros H. f_equal. by apply map_eq. Qed.
End NodeRegistry.

(** ** [std::set_difference] *)

Section set_difference.

(** The two-pointer walk of the standard library over sorted ranges. *)
Fixpoint set_difference (l1 : list string) : list string -> list string :=
  match l1 with
  | [] => fun _ => []
  | x :: t1 =>
      fix go (l2 : list string) : list string :=
        match l2 with
        | [] => x :: t1
        | y :: t2 =>
            if String.ltb x y then x :: set_difference t1 (y :: t2)
            else if String.ltb y x then go t2
            else set_difference t1 t2
        end
  end.

Lemma ltb_le x y : String.ltb x y = true <-> String.le x y /\ x <> y.
Proof.
  unfold String.ltb, String.le, String.leb.
  destruct (String.compare x y) eqn:E; simpl; split; try done.
  - intros [_ Hn]. by apply String.compare_eq_iff in E.
  - intros _. split; [done|]. intros ->.
    pose proof (String.compare_antisym y y) as Ha. by rewrite E in Ha.
  - by intros [? _].
Qed.

Lemma set_difference_spec l1 l2 z :
  StronglySorted String.le l1 -> NoDup l1 -> StronglySorted String.le l2 -> NoDup l2 ->
  z ∈ set_difference l1 l2 <-> z ∈ l1 /\ z ∉ l2.
Proof.
  intros S1 N1. revert l2. induction l1 as [|x t1 IH]; intros l2 S2 N2; [simpl; set_solver|].
  apply StronglySorted_inv in S1 as [S1 F1]. apply NoDup_cons in N1 as [X1 N1].
  specialize (IH S1 N1).
  induction l2 as [|y t2 IH2]; [simpl; set_solver|].
  pose proof S2 as [S2' F2]%StronglySorted_inv. pose proof N2 as [Y2 N2']%NoDup_cons.
  rewrite Forall_forall in F1, F2. cbn [set_difference].
  destruct (String.ltb x y) eqn:Exy; [|destruct (String.ltb y x) eqn:Eyx].
  - apply ltb_le in Exy as [Hle Hne]. rewrite elem_of_cons, IH by done.
    assert (x ∉ y :: t2) as Hx.
    { rewrite not_elem_of_cons. split; [done|]. intros Hin.
      apply Hne. apply (anti_symm String.le); [done|]. by apply F2. }
    set_solver.
  - apply ltb_le in Eyx as [Hle Hne].
    transitivity (z ∈ x :: t1 /\ z ∉ t2); [by apply IH2|].
    assert (y ∉ x :: t1) as Hy.
    { rewrite not_elem_of_cons. split; [done|]. intros Hin.
      apply Hne. apply (anti_symm String.le); [done|]. by apply F1. }
    set_solver.
  - assert (x = y) as <-.
    { destruct (decide (x = y)) as [|Hn]; [done|].
      destruct (total String.le x y) as [H|H].
      - by rewrite (proj2 (ltb_le x y)) in Exy.
      - by rewrite (proj2 (ltb_le y x)) in Eyx. }
    rewrite IH by done. set_solver.
Qed.
End set_difference.

(** ** Plugins *)

Module Plugins.
Import NodeRegistry.

(** What the dynamic loader makes of a path. *)
Inductive PluginFile :=
| DlopenFails (dlerror : string)
| NoEntryPoint
| EntryPoint (init : Registry -> Z * Registry).

(* [src/core/plugin.cpp:10-14] PluginManager::Plugin *)
Record Plugin := mkPlugin { path : string; registered_types : list string }.

(** The manager with the registry it points to; [handles] are the libraries
    the loader still counts as open. *)
(* [include/rkavp/plugin.hpp:18-31] PluginManager *)
Record Manager := mkManager {
  registry_ : Registry;
  plugins_ : list Plugin;
  handles : list string }.

Definition remove_one (x : string) (l : list string) : list string :=
  match list_find (eq x) l with
  | Some (i, _) => take i l ++ drop (S i) l
  | None => l
  end.

Section manager.
Variable dlopen : string -> PluginFile.

(* [src/core/plugin.cpp:19-54] PluginManager::Load *)
Definition Load (p : string) (m : Manager) : Status * Manager :=
  if bool_decide (p = "") then (Invalid "plugin registry and path are required", m)
  else if existsb (fun q => bool_decide (path q = p)) (plugins_ m) then
    (AlreadyExists ("plugin is already loaded: " +:+ p), m)
  else match dlopen p with
  | DlopenFails e => (Unavailable ("dlopen failed: " +:+ e), m)
  | NoEntryPoint =>
      (Invalid ("incompatible plugin API; expected rkavp_plugin_init_v2: " +:+ p),
       mkManager (registry_ m) (plugins_ m) (remove_one p (p :: handles m)))
  | EntryPoint init =>
      let before := Types (registry_ m) in
      let '(rc, r') := init (registry_ m) in
      let after := Types r' in
      let new_types := set_difference after before in
      if negb (rc =? 0) then
        (Internal ("plugin initialization failed: " +:+ p),
         mkManager (unregister_all new_types r') (plugins_ m) (remove_one p (p :: handles m)))
      else
        (Ok, mkManager r' (plugins_ m ++ [mkPlugin p new_types]) (p :: handles m))
  end.

(* [src/core/plugin.cpp:56-64] PluginManager::Unload *)
Definition Unload (p : string) (m : Manager) : Status * Manager :=
  match list_find (fun q => path q = p) (plugins_ m) with
  | None => (NotFound ("plugin is not loaded: " +:+ p), m)
  | Some (i, q) =>
      (Ok, mkManager (unregister_all (registered_types q) (registry_ m))
                     (take i (plugins_ m) ++ drop (S i) (plugins_ m))
                     (remove_one p (handles m)))
  end.

(** [while (!plugins_.empty()) Unload(plugins_.back()->path)], with as much fuel
    as there are plugins. *)
Fixpoint unload_all (fuel : nat) (m : Manager) : Manager :=
  match fuel, last (plugins_ m) with
  | S fuel', Some q => unload_all fuel' (Unload (path q) m).2
  | _, _ => m
  end.

(* [src/core/plugin.cpp:66-68] PluginManager::UnloadAll *)
Definition UnloadAll (m : Manager) : Manager := unload_all (length (plugins_ m)) m.

(* [src/core/plugin.cpp:70-74] PluginManager::LoadedPaths *)
Definition LoadedPaths (m : Manager) : list string := map path (plugins_ m).

Lemma remove_one_head p l : remove_one p (p :: l) = l.
Proof. unfold remove_one; simpl. rewrite decide_True by done. done. Qed.

(** Removing the difference of the types undoes an entry point that only
    registers. *)
Lemma unregister_difference r r' : factories_ r ⊆ factories_ r' ->
  unregister_all (set_difference (Types r') (Types r)) r' = r.
Proof.
  intros Hsub. apply registry_ext. intros t. rewrite lookup_unregister_all.
  assert (t ∈ set_difference (Types r') (Types r) <->
          is_Some (factories_ r' !! t) /\ factories_ r !! t = None) as Hiff.
  { rewrite set_difference_spec, !Types_elem, eq_None_not_Some; try done;
      auto using Types_sorted, Types_NoDup. }
  case_decide as Hd.
  - apply Hiff in Hd. symmetry. apply Hd.
  - destruct (factories_ r !! t) as [f|] eqn:E; [by eapply lookup_weaken|].
    destruct (factories_ r' !! t) eqn:E'; [|done].
    exfalso. apply Hd, Hiff. eauto.
Qed.

Lemma list_find_snoc (l : list Plugin) p q : path q = p ->
  existsb (fun x => bool_decide (path x = p)) l = false ->
  list_find (fun x => path x = p) (l ++ [q]) = Some (length l, q).
Proof.
  intros <- H. rewrite list_find_app_r.
  - simpl. rewrite decide_True by done. done.
  - apply list_find_None, Forall_forall. intros x Hx Hp.
    apply not_true_iff_false in H. apply H, existsb_exists. exists x.
    rewrite bool_decide_eq_true. by rewrite <- list_elem_of_In.
Qed.

(** C40: Loading a plugin whose entry point only adds node types is atomic and
    reversible: a load that fails, at whatever step, leaves the node types, the list of
    plugins and the open libraries exactly as they were, and a load that succeeds is
    undone exactly by unloading the same path. *)
Theorem plugin_load_atomic p m
  (init_only_registers : forall q init r, dlopen q = EntryPoint init ->
     factories_ r ⊆ factories_ (init r).2) :
  (ok (Load p m).1 = false -> (Load p m).2 = m) /\
  (ok (Load p m).1 = true -> Unload p (Load p m).2 = (Ok, m)).
Proof.
  unfold Load. destruct m as [r ps hs]; simpl.
  case_bool_decide; [done|].
  destruct (existsb _ ps) eqn:Eex; [done|].
  destruct (dlopen p) as [e| |init] eqn:Ed; [done| |].
  - simpl. by rewrite remove_one_head.
  - specialize (init_only_registers p init r Ed).
    destruct (init r) as [rc r'] eqn:Ei; simpl in *.
    destruct (rc =? 0); simpl; (split; [|try done]); try done; intros _.
    + unfold Unload; simpl.
      rewrite list_find_snoc by done. simpl. rewrite unregister_difference, remove_one_head by done.
      by rewrite take_app_length, drop_ge, app_nil_r by (rewrite length_app; simpl; lia).
    + rewrite remove_one_head, unregister_difference; done.
Qed.

Lemma unload_last m q : last (plugins_ m) = Some q ->
  length (plugins_ (Unload (path q) m).2) = pred (length (plugins_ m)).
Proof.
  intros Hl. unfold Unload. destruct (list_find _ (plugins_ m)) as [[i x]|] eqn:E; simpl.
  - apply list_find_Some in E as (Hi & _). apply lookup_lt_Some in Hi.
    rewrite length_app, length_take, length_drop. lia.
  - exfalso. apply list_find_None in E. rewrite Forall_forall in E.
    apply (E q); [|done]. by apply last_Some_elem_of.
Qed.

(** [UnloadAll] (the destructor's loop) terminates with no plugin left. *)
Theorem unload_all_empties m : LoadedPaths (UnloadAll m) = [].
Proof.
  unfold UnloadAll, LoadedPaths. remember (length (plugins_ m)) as n eqn:Hn.
  revert m Hn. induction n as [|n IH]; intros m Hn; simpl.
  - by destruct (plugins_ m).
  - destruct (last (plugins_ m)) as [q|] eqn:El.
    + apply IH. rewrite (unload_last _ _ El). lia.
    + apply last_None in El. by rewrite El in Hn.
Qed.
End manager.

(** A plugin that registers one type, one that fails after registering. *)
Definition demo_type : NodeType :=
  mkNodeType unit (default_hooks (mkContract [] [] [] kAny "") (fun _ => NRet Ok)) tt.
Definition demo_init (type : string) (rc : Z) (r : Registry) : Z * Registry :=
  (rc, (Register type (Some demo_type) r).2).
Definition demo_dlopen (p : string) : PluginFile :=
  if bool_decide (p = "good.so") then EntryPoint (demo_init "Demo" 0)
  else if bool_decide (p = "bad.so") then EntryPoint (demo_init "Bad" 1)
  else DlopenFails "no such file".

Lemma register_grows t f r : factories_ r ⊆ factories_ (Register t f r).2.
Proof.
  unfold Register. destruct f as [f|]; [|done]. case_bool_decide; [done|].
  destruct (factories_ r !! t) eqn:E; simpl; [done|]. by apply insert_subseteq.
Qed.

Lemma plugin_load_atomic_witness :
  let m := mkManager empty_registry [] [] in
  Types (registry_ (Load demo_dlopen "good.so" m).2) = ["Demo"] /\
  Unload "good.so" (Load demo_dlopen "good.so" m).2 = (Ok, m) /\
  (Load demo_dlopen "bad.so" m).2 = m.
Proof.
  assert (forall q init r, demo_dlopen q = EntryPoint init ->
     factories_ r ⊆ factories_ (init r).2) as Hinit.
  { intros q init r. unfold demo_dlopen. repeat case_bool_decide; intros [= <-];
      apply (register_grows _ (Some demo_type)). }
  split_and!.
  - reflexivity.
  - apply (plugin_load_atomic demo_dlopen "good.so"); [exact Hinit|reflexivity].
  - apply (plugin_load_atomic demo_dlopen "bad.so"); [exact Hinit|reflexivity].
Defined.
End Plugins.
