(* ===== verification/Services.v ===== *)
(** * Services shared by the nodes of a graph

    [include/rkavp/services.hpp], [src/core/services.cpp]: side packets, typed
    services and file resources.  The file system is a parameter: the contents
    a path opens to, or nothing. *)

From S2P Require Import Prelude Status Timestamp Values.
From Stdlib Require Import Ascii.

(** ** Side packets *)

Module SidePackets.

(* [include/rkavp/services.hpp:14-21] SidePacketSet *)
Record SidePacketSet := mkSide { packets_ : PacketSet }.

(* [src/core/services.cpp:8-15] SidePacketSet::Set *)
Definition SideSet (name : string) (p : Packet) (s : SidePacketSet) : Status * SidePacketSet :=
  if bool_decide (name = "") || packet_empty p then
    (Invalid "side packet name and value are required", s)
  else match packets_ s !! name with
       | Some _ => (AlreadyExists "side packet is immutable and already set", s)
       | None => (Ok, mkSide (<[name := p]> (packets_ s)))
       end.

(* [src/core/services.cpp:17-20] SidePacketSet::Find *)
Definition SideFind (name : string) (s : SidePacketSet) : option Packet := packets_ s !! name.
End SidePackets.

(** ** Services *)

Module ServiceRegistry.

(** A service entry: the type it was registered under and the identity of the
    instance. *)
(* [include/rkavp/services.hpp:56-59] ServiceEntry *)
Record ServiceEntry := mkEntry { entry_type : string; entry_value : nat }.

Abbreviation Services := (gmap string ServiceEntry).

(* [include/rkavp/services.hpp:25-34] GraphServiceRegistry::Set *)
Definition ServiceSet (T name : string) (service : option nat) (s : Services) : Status * Services :=
  match service with
  | None => (Invalid "service name and instance are required", s)
  | Some v =>
      if bool_decide (name = "") then (Invalid "service name and instance are required", s)
      else match s !! name with
           | Some _ => (AlreadyExists "service is already registered", s)
           | None => (Ok, <[name := mkEntry T v]> s)
           end
  end.

(* [include/rkavp/services.hpp:36-42] GraphServiceRegistry::Get *)
Definition ServiceGet (T name : string) (s : Services) : option nat :=
  match s !! name with
  | Some e => if bool_decide (entry_type e = T) then Some (entry_value e) else None
  | None => None
  end.

(* [include/rkavp/services.hpp:44-51] GraphServiceRegistry::Replace *)
Definition ServiceReplace (T name : string) (service : option nat) (s : Services)
  : Status * Services :=
  match service with
  | None => (Invalid "service name and instance are required", s)
  | Some v =>
      if bool_decide (name = "") then (Invalid "service name and instance are required", s)
      else (Ok, <[name := mkEntry T v]> s)
  end.
End ServiceRegistry.

(** ** Write-once and typed access *)

Import SidePackets ServiceRegistry.

Inductive ServiceOp :=
| OpSideSet (name : string) (p : Packet)
| OpServiceSet (T name : string) (v : option nat)
| OpServiceReplace (T name : string) (v : option nat).

Definition service_op (op : ServiceOp) (st : SidePacketSet * Services) : SidePacketSet * Services :=
  match op with
  | OpSideSet n p => ((SideSet n p st.1).2, st.2)
  | OpServiceSet T n v => (st.1, (ServiceSet T n v st.2).2)
  | OpServiceReplace T n v => (st.1, (ServiceReplace T n v st.2).2)
  end.

Definition service_ops (ops : list ServiceOp) (st : SidePacketSet * Services)
  : SidePacketSet * Services := fold_left (fun st op => service_op op st) ops st.

(** The latest accepted binding of a service name in a sequence of operations. *)
Definition accepted (name : string) (op : ServiceOp) (cur : option (string * nat))
  : option (string * nat) :=
  match op with
  | OpServiceSet T n (Some v) =>
      if bool_decide (n = name /\ n <> "" /\ cur = None) then Some (T, v) else cur
  | OpServiceReplace T n (Some v) =>
      if bool_decide (n = name /\ n <> "") then Some (T, v) else cur
  | _ => cur
  end.

Lemma service_op_entry op st name :
  (fun e => (entry_type e, entry_value e)) <$> (service_op op st).2 !! name =
  accepted name op ((fun e => (entry_type e, entry_value e)) <$> st.2 !! name).
Proof.
  destruct op as [n p|T n v|T n v], st as [sp sv]; simpl.
  - done.
  - unfold ServiceSet. destruct v as [v|]; [|done].
    case_bool_decide as Hn; [by rewrite bool_decide_eq_false_2 by naive_solver|].
    destruct (decide (n = name)) as [<-|Hne].
    + destruct (sv !! n) eqn:E; simpl.
      * rewrite E; simpl. by rewrite bool_decide_eq_false_2 by naive_solver.
      * rewrite lookup_insert_eq. by rewrite bool_decide_eq_true_2 by naive_solver.
    + rewrite (bool_decide_eq_false_2 (n = name /\ _)) by naive_solver.
      destruct (sv !! n); simpl; [done|]. by rewrite lookup_insert_ne.
  - unfold ServiceReplace. destruct v as [v|]; [|done].
    case_bool_decide as Hn; [by rewrite bool_decide_eq_false_2 by naive_solver|]. simpl.
    destruct (decide (n = name)) as [<-|Hne].
    + rewrite lookup_insert_eq. by rewrite bool_decide_eq_true_2.
    + rewrite lookup_insert_ne by done. by rewrite bool_decide_eq_false_2 by naive_solver.
Qed.

Lemma side_op_mono op st name p :
  SideFind name st.1 = Some p -> SideFind name (service_op op st).1 = Some p.
Proof.
  destruct op as [n q|T n v|T n v], st as [[sp] sv]; simpl; try done.
  unfold SideSet, SideFind; simpl. destruct (_ || _); [done|].
  destruct (sp !! n) eqn:E; simpl; [done|]. intros Hp.
  rewrite lookup_insert_ne; [done|]. congruence.
Qed.

(** Side packets are immutable: once a name is bound, no later sequence of
    operations changes or removes its packet.  A service lookup answers with the latest
    accepted registration of that name, and only for the type it was registered under. *)
Theorem services_stable ops st name p T :
  (SideFind name st.1 = Some p -> SideFind name (service_ops ops st).1 = Some p) /\
  ServiceGet T name (service_ops ops st).2 =
    match fold_left (fun cur op => accepted name op cur) ops
            ((fun e => (entry_type e, entry_value e)) <$> st.2 !! name) with
    | Some (T', v) => if bool_decide (T' = T) then Some v else None
    | None => None
    end.
Proof.
  unfold service_ops. revert st. induction ops as [|op ops IH]; intros st; simpl.
  - split; [done|]. unfold ServiceGet. by destruct (st.2 !! name) as [[]|].
  - destruct (IH (service_op op st)) as [IH1 IH2]. split.
    + intros Hp. by apply IH1, side_op_mono.
    + by rewrite IH2, service_op_entry.
Qed.

Lemma services_stable_witness :
  let st := ((SideSet "k" (Make (PlOther "int" 1) Unset) (mkSide ∅)).2, ∅ : Services) in
  let st' := service_ops [OpSideSet "k" (Make (PlOther "int" 2) Unset);
                          OpServiceSet "IClock" "rkavp.clock" (Some 7%nat)] st in
  SideFind "k" st'.1 = Some (Make (PlOther "int" 1) Unset) /\
  ServiceGet "IClock" "rkavp.clock" st'.2 = Some 7%nat.
Proof.
  intros st st'. split.
  - apply (services_stable _ st "k" (Make (PlOther "int" 1) Unset) "IClock"). reflexivity.
  - unfold st'. rewrite (proj2 (services_stable _ st "rkavp.clock" EmptyPacket "IClock")).
    reflexivity.
Defined.

(** ** File resources *)

Module FileResources.

Fixpoint has_dotdot (s : string) : bool :=
  match s with
  | String "."%char (String "."%char _) => true
  | String _ t => has_dotdot t
  | EmptyString => false
  end.

Definition starts_with_slash (s : string) : bool :=
  match s with String "/"%char _ => true | _ => false end.

(** [file_system path] is what opening [path] for reading gives. *)
(* [src/core/services.cpp:24-33] FileResourceManager::Read *)
Definition ResourceRead (file_system : string -> option string) (root_ uri : string) : Res string :=
  if bool_decide (uri = "") || has_dotdot uri then Err (Invalid "invalid resource URI")
  else
    let path := if bool_decide (root_ = "") || starts_with_slash uri then uri
                else root_ +:+ "/" +:+ uri in
    match file_system path with
    | None => Err (NotFound ("resource not found: " +:+ uri))
    | Some data => Okay data
    end.

(** An absolute URI leaves the root. *)
Example absolute_uri_escapes_root :
  ResourceRead (fun p => if bool_decide (p = "/etc/passwd") then Some "secret" else None)
    "/srv/models" "/etc/passwd" = Okay "secret".
Proof. reflexivity. Qed.
End FileResources.
