(* ===== verification/BuiltinNodes.v ===== *)
(** * The built-in nodes

    [src/core/builtin_nodes.cpp]: passthrough, sink, flow limiter, adaptive
    batching, demultiplexing and the ring buffer of encoded packets.  Each
    class is a [NodeClass] over a record of its fields; a lock region, or a run
    of statements of a serial node, is one [nlocal]. *)

From S2P Require Import Prelude Status Timestamp Values BoundedQueue Contract Node Registry.
From Stdlib Require Import SpecFloat.
Local Open Scope rkavp_scope.

Definition any_port (name : string) (required : bool) : PortSpec := mkPort name AnyCaps required.

(** [if (FindOption(...)) { GetIntegerOption; if (!ok || bad) return Invalid(msg); }]. *)
Definition int_option (o : NodeOptions) (key : string) (bad : Z -> bool) (msg : string)
  : Res (option Z) :=
  match FindOption o key with
  | None => Okay None
  | Some _ => match GetIntegerOption o key with
              | Okay v => if bad v then Err (Invalid msg) else Okay (Some v)
              | Err _ => Err (Invalid msg)
              end
  end.

(** Applies an option that was read, or returns its error. *)
Definition set_option {NS A} (r : Res (option A)) (set : A -> NS -> NS) (k : NodeM NS Status)
  : NodeM NS Status :=
  match r with
  | Err s => NRet s
  | Okay None => k
  | Okay (Some v) => nmodify (set v);;; k
  end.

(** One invocation after another, as the runner makes them on a serial node. *)
Fixpoint process_all {NS} (cls : NodeClass NS) (cs : list NodeContext) : NodeM NS unit :=
  match cs with
  | [] => NRet tt
  | c :: cs' => OnProcess cls c;;; process_all cls cs'
  end.

(** A packet without the tokens it keeps alive. *)
Definition content (p : Packet) : Packet :=
  mkPacket (data p) (timestamp p) (metadata p) (event p) [].

Lemma content_inherit inputs p : content (inherit_all inputs p) = content p.
Proof.
  unfold content. by destruct (inherit_all_fields inputs p) as (-> & -> & -> & ->).
Qed.

Lemma event_inherit inputs p : event (inherit_all inputs p) = event p.
Proof. apply inherit_all_fields. Qed.

Lemma run_emit {NS} (c : NodeContext) port p (s : NS) w : has_emit c = true ->
  nrun outbox (Emit c port p) s w =
  (hd Ok (replies w), s, after_emit port (inherit_all (context_inputs c) p) w).
Proof. intros H. unfold Emit. by rewrite H. Qed.

Definition tick (w : Outbox) : Outbox :=
  mkOutbox (sent w) (replies w) (counted w) (gauges w) (tl (clock w)).

Lemma run_timed {NS A B} (f : Z -> NS -> B * NS) (k : B -> NodeM NS A) s w :
  nrun outbox (b <-- ntimed f; k b) s w =
  let '(b, s') := f (hd 0 (clock w)) s in nrun outbox (k b) s' (tick w).
Proof. reflexivity. Qed.

(** An invocation with one packet on one port. *)
Definition demo_context (port : string) (n : Z) : NodeContext :=
  mkContext "n" "" {[ port := Make (PlOther "int" n) (mkTs n) ]} true None false.

(** ** Passthrough and sink *)

(* [src/core/builtin_nodes.cpp:18-34] PassthroughNode *)
Definition PassthroughNode : NodeClass unit :=
  default_hooks (mkContract [any_port "in" true] [any_port "out" true] [] kAny "")
    (fun c => match Input c "in" with
              | None => NRet (Invalid "Passthrough requires input")
              | Some p => Emit c "out" p
              end).

(* [src/core/builtin_nodes.cpp:36-44] NullSinkNode *)
Definition NullSinkNode : NodeClass unit :=
  default_hooks (mkContract [any_port "in" true] [] [] kAny "") (fun _ => NRet Ok).

(* [src/core/builtin_nodes.cpp:46-53] QueuePolicyOption *)
Definition QueuePolicyOption (o : NodeOptions) (name : string) (fallback : QueuePolicy)
  : QueuePolicy :=
  match FindOption o name with
  | Some (CString s) =>
      if bool_decide (s = "block") then kBlock
      else if bool_decide (s = "drop_newest") then kDropNewest
      else kDropOldest
  | _ => fallback
  end.

(** ** Flow limiter *)

Module Limiter.

(* [src/core/builtin_nodes.cpp:112-117] FlowLimiterNode (fields) *)
Record FlowLimiter := mkLimiter {
  max_in_flight_ : nat;
  queue_capacity_ : nat;
  policy_ : QueuePolicy;
  in_flight_ : nat;
  pending_ : list Packet }.

Definition new_limiter : FlowLimiter := mkLimiter 1 1 kDropOldest 0 [].

(* [src/core/builtin_nodes.cpp:66-80] FlowLimiterNode::OnConfigure *)
Definition LimiterOnConfigure (o : NodeOptions) : NodeM FlowLimiter Status :=
  set_option (int_option o "max_in_flight" (fun v => v <=? 0) "max_in_flight must be positive")
    (fun v s => mkLimiter (Z.to_nat v) (queue_capacity_ s) (policy_ s) (in_flight_ s) (pending_ s))
  (set_option (int_option o "queue_capacity" (fun v => v <? 0) "queue_capacity must be non-negative")
    (fun v s => mkLimiter (max_in_flight_ s) (Z.to_nat v) (policy_ s) (in_flight_ s) (pending_ s))
  (nmodify (fun s => mkLimiter (max_in_flight_ s) (queue_capacity_ s)
                       (QueuePolicyOption o "queue_policy" kDropOldest)
                       (in_flight_ s) (pending_ s));;;
   NRet Ok)).

Definition with_flight (s : FlowLimiter) (n : nat) (l : list Packet) : FlowLimiter :=
  mkLimiter (max_in_flight_ s) (queue_capacity_ s) (policy_ s) n l.

(** What the limiter does with a packet. *)
Inductive Verdict := VForward | VDrop | VKeep.

(** The branch on [finished]. *)
Definition on_finished (s : FlowLimiter) : option Packet * FlowLimiter :=
  let n := if bool_decide (in_flight_ s = 0%nat) then 0%nat else (in_flight_ s - 1)%nat in
  match pending_ s with
  | p :: rest =>
      if bool_decide (n < max_in_flight_ s)%nat then (Some p, with_flight s (S n) rest)
      else (None, with_flight s n (pending_ s))
  | [] => (None, with_flight s n [])
  end.

(** The branch on a data packet. *)
Definition on_data (p : Packet) (s : FlowLimiter) : Verdict * FlowLimiter :=
  if bool_decide (in_flight_ s < max_in_flight_ s)%nat then
    (VForward, with_flight s (S (in_flight_ s)) (pending_ s))
  else if bool_decide (queue_capacity_ s = 0%nat) then (VDrop, s)
  else if bool_decide (queue_capacity_ s <= length (pending_ s))%nat then
    if bool_decide (policy_ s = kDropNewest) || bool_decide (policy_ s = kBlock) then (VDrop, s)
    else (VDrop, with_flight s (in_flight_ s) (tail (pending_ s) ++ [p]))
  else (VKeep, with_flight s (in_flight_ s) (pending_ s ++ [p])).

(* [src/core/builtin_nodes.cpp:82-110] FlowLimiterNode::OnProcess *)
Definition LimiterOnProcess (c : NodeContext) : NodeM FlowLimiter Status :=
  match Input c "finished" with
  | Some _ =>
      r <-- nlocal on_finished;
      match r with Some p => Emit c "out" p | None => NRet Ok end
  | None =>
      match Input c "in" with
      | None => NRet (Invalid "FlowLimiter requires in or finished input")
      | Some p =>
          if is_control (event p) then Emit c "out" p
          else v <-- nlocal (on_data p);
               match v with
               | VForward => Emit c "out" p
               | VDrop => nincrement "flow_limiter.dropped";;; NRet Ok
               | VKeep => NRet Ok
               end
      end
  end.

(* [src/core/builtin_nodes.cpp:55-63] FlowLimiterNode *)
Definition FlowLimiterNode : NodeClass FlowLimiter :=
  mkNodeClass
    (mkContract [any_port "in" true; any_port "finished" false] [any_port "out" true] [] kAny "")
    kSerial LimiterOnConfigure (NRet Ok) (fun _ => NRet Ok) LimiterOnProcess
    (NRet tt) (NRet Ok) (NRet Ok).

(** *** What the limiter guarantees *)

Definition is_data (p : Packet) : bool := negb (is_control (event p)).

(** The data packets that arrived, the acknowledgements, the data packets that
    left. *)
Definition arrivals (cs : list NodeContext) : list Packet :=
  flat_map (fun c => match Input c "finished", Input c "in" with
                     | None, Some p => if is_data p then [content p] else []
                     | _, _ => []
                     end) cs.
Definition acks (cs : list NodeContext) : nat :=
  length (List.filter (fun c => bool_decide (is_Some (Input c "finished"))) cs).
Definition departures (w : Outbox) : list Packet :=
  map (fun e => content e.2) (List.filter (fun e => is_data e.2) (sent w)).

Definition limiter_inv (arr : list Packet) (a : nat) (s : FlowLimiter) (w : Outbox) : Prop :=
  departures w ++ map content (pending_ s) `sublist_of` arr /\
  (length (departures w) <= in_flight_ s + a)%nat /\
  (in_flight_ s <= max_in_flight_ s)%nat /\
  (length (pending_ s) <= queue_capacity_ s)%nat /\
  (pending_ s = [] \/ in_flight_ s = max_in_flight_ s) /\
  Forall (fun p => is_data p = true) (pending_ s) /\
  (0 < max_in_flight_ s)%nat.

Lemma departures_emit c port p w : 
  departures (after_emit port (inherit_all (context_inputs c) p) w) =
  departures w ++ (if is_data p then [content p] else []).
Proof.
  unfold departures, is_data; simpl.
  rewrite List.filter_app, List.map_app. simpl. rewrite event_inherit.
  destruct (negb (is_control (event p))); simpl; [|done]. by rewrite content_inherit.
Qed.

Lemma finished_inv arr a s w c : has_emit c = true -> limiter_inv arr a s w ->
  let '(r, s') := on_finished s in
  match r with
  | Some p => limiter_inv arr (S a) s' (after_emit "out" (inherit_all (context_inputs c) p) w)
  | None => limiter_inv arr (S a) s' w
  end.
Proof.
  intros Hc (Hsub & Hlen & Hmax & Hcap & Hwork & Hdata & Hpos). unfold on_finished.
  destruct s as [mx cap pol fl pend]; simpl in *.
  destruct pend as [|p rest]; simpl in *.
  - unfold limiter_inv; simpl. case_bool_decide; split_and!; auto; lia.
  - destruct Hwork as [?| ->]; [done|]. rewrite (bool_decide_eq_false_2 (mx = 0%nat)) by lia.
    rewrite bool_decide_eq_true_2 by lia. apply Forall_cons in Hdata as [Hp Hdata].
    unfold limiter_inv. rewrite departures_emit, Hp. simpl.
    rewrite length_app, <- app_assoc. simpl. split_and!; try done; try lia.
Qed.

Lemma data_inv arr a s w c p : has_emit c = true -> is_data p = true -> limiter_inv arr a s w ->
  let '(v, s') := on_data p s in
  match v with
  | VForward => limiter_inv (arr ++ [content p]) a s'
                  (after_emit "out" (inherit_all (context_inputs c) p) w)
  | VDrop | VKeep => limiter_inv (arr ++ [content p]) a s' w
  end.
Proof.
  intros Hc Hp (Hsub & Hlen & Hmax & Hcap & Hwork & Hdata & Hpos). unfold on_data.
  destruct s as [mx cap pol fl pend]; simpl in *.
  case_bool_decide as Hfl.
  { destruct Hwork as [->|]; [|lia]. unfold limiter_inv. rewrite departures_emit, Hp; simpl.
    rewrite length_app; simpl in *. rewrite app_nil_r in *.
    split_and!; auto; try lia; by apply sublist_app. }
  assert (fl = mx) as -> by lia.
  assert (departures w ++ map content pend `sublist_of` arr ++ [content p]) as Hskip
    by (by apply sublist_inserts_r).
  case_bool_decide; [by split_and!; auto|].
  case_bool_decide as Hfull.
  - assert (departures w ++ map content (tail pend ++ [p]) `sublist_of` arr ++ [content p]) as Hev.
    { rewrite List.map_app, app_assoc. simpl. apply sublist_app; [|done].
      etrans; [|exact Hsub]. apply sublist_app; [done|].
      destruct pend; simpl; [done|]. by apply sublist_cons. }
    repeat case_bool_decide; simpl; unfold limiter_inv; simpl; split_and!; auto.
    + rewrite length_app, length_tl; simpl; lia.
    + apply Forall_app; split; [by apply Forall_tail|]. by constructor.
  - unfold limiter_inv; simpl. rewrite length_app, List.map_app; simpl.
    rewrite app_assoc. split_and!; auto; try lia; [by apply sublist_app|].
    apply Forall_app; split; [done|]. by constructor.
Qed.

Lemma acks_cons c cs : acks (c :: cs) = (acks [c] + acks cs)%nat.
Proof. unfold acks; simpl. by case_bool_decide. Qed.

Lemma process_inv arr a s w c : has_emit c = true -> limiter_inv arr a s w ->
  let '(_, s', w') := nrun outbox (OnProcess FlowLimiterNode c) s w in
  limiter_inv (arr ++ arrivals [c]) (a + acks [c]) s' w'.
Proof.
  intros Hc Hi. simpl. unfold LimiterOnProcess, arrivals, acks; simpl.
  destruct (Input c "finished") as [f|] eqn:Ef; simpl.
  - rewrite app_nil_r. pose proof (finished_inv arr a s w c Hc Hi) as H.
    destruct (on_finished s) as [[p|] s']; simpl.
    + rewrite run_emit by done. simpl in *. by rewrite Nat.add_1_r.
    + by rewrite Nat.add_1_r.
  - destruct (Input c "in") as [p|] eqn:Ep; simpl; rewrite ?app_nil_r, ?Nat.add_0_r; [|done].
    unfold is_data. destruct (is_control (event p)) eqn:Eev; simpl.
    + rewrite app_nil_r, run_emit by done. simpl.
      destruct Hi as (H1 & H2 & H3). split; [|split; [|exact H3]].
      * rewrite departures_emit. unfold is_data. rewrite Eev; simpl. by rewrite app_nil_r.
      * rewrite departures_emit. unfold is_data. rewrite Eev; simpl. by rewrite app_nil_r.
    + pose proof (data_inv arr a s w c p Hc ltac:(unfold is_data; by rewrite Eev) Hi) as H.
      destruct (on_data p s) as [[] s']; simpl; [by rewrite run_emit|done|done].
Qed.

(** Over any sequence of invocations the flow limiter never has more than
    [max_in_flight] unacknowledged data packets downstream, never queues more than
    [queue_capacity], forwards the data packets in arrival order without duplicating or
    inventing any, and holds a packet back only while the limit is reached. *)
Theorem flow_limiter_spec o s0 cs rs :
  (nrun outbox (OnConfigure FlowLimiterNode o) new_limiter empty_outbox).1 = (Ok, s0) ->
  Forall (fun c => has_emit c = true) cs ->
  let '(_, s, w) := nrun outbox (process_all FlowLimiterNode cs) s0
                      (mkOutbox [] rs [] [] []) in
  departures w ++ map content (pending_ s) `sublist_of` arrivals cs /\
  (length (departures w) <= max_in_flight_ s + acks cs)%nat /\
  (length (pending_ s) <= queue_capacity_ s)%nat /\
  (pending_ s <> [] -> in_flight_ s = max_in_flight_ s).
Proof.
  intros Hcfg Hcs.
  assert (limiter_inv [] 0 s0 (mkOutbox [] rs [] [] [])) as Hi0.
  { revert Hcfg. simpl. unfold LimiterOnConfigure, int_option, set_option.
    repeat (case_match; simpl; try done); intros; simplify_eq/=;
      unfold limiter_inv; simpl; split_and!; try done; try lia; auto;
      repeat match goal with H : context [Z.leb] |- _ => apply Z.leb_gt in H end; lia. }
  assert (forall cs arr a s w, Forall (fun c => has_emit c = true) cs -> limiter_inv arr a s w ->
    let '(_, s', w') := nrun outbox (process_all FlowLimiterNode cs) s w in
    limiter_inv (arr ++ arrivals cs) (a + acks cs) s' w') as Hall.
  { clear. induction cs as [|c cs IH]; intros arr a s w Hcs Hi.
    - simpl. by rewrite app_nil_r, Nat.add_0_r.
    - apply Forall_cons in Hcs as [Hc Hcs]. cbn [process_all]. rewrite nrun_bind.
      pose proof (process_inv arr a s w c Hc Hi) as Hp.
      destruct (nrun outbox (OnProcess FlowLimiterNode c) s w) as [[r s1] w1].
      specialize (IH _ _ _ _ Hcs Hp).
      destruct (nrun outbox (process_all FlowLimiterNode cs) s1 w1) as [[r2 s2] w2].
      rewrite acks_cons, Nat.add_assoc. unfold arrivals in *. simpl in *.
      by rewrite app_nil_r, <- app_assoc in IH. }
  specialize (Hall cs [] 0%nat s0 _ Hcs Hi0).
  destruct (nrun outbox (process_all FlowLimiterNode cs) s0 _) as [[r s] w].
  destruct Hall as (H1 & H2 & H3 & H4 & H5 & _). split_and!; [done|lia|done|naive_solver].
Qed.

Lemma flow_limiter_spec_witness :
  let cs := [demo_context "in" 1; demo_context "in" 2; demo_context "in" 3;
             demo_context "finished" 0] in
  let '(_, s, w) := nrun outbox (process_all FlowLimiterNode cs)
        (mkLimiter 1 1 kDropOldest 0 []) (mkOutbox [] [] [] [] []) in
  departures w ++ map content (pending_ s) `sublist_of` arrivals cs /\
  departures w = [Make (PlOther "int" 1) (mkTs 1); Make (PlOther "int" 3) (mkTs 3)].
Proof.
  intros cs.
  assert ((nrun outbox (OnConfigure FlowLimiterNode (∅ : NodeOptions)) new_limiter empty_outbox).1
          = (Ok, mkLimiter 1 1 kDropOldest 0 [])) as Hcfg by (vm_compute; reflexivity).
  pose proof (flow_limiter_spec _ _ cs [] Hcfg ltac:(repeat constructor)) as H.
  destruct (nrun outbox (process_all FlowLimiterNode cs) (mkLimiter 1 1 kDropOldest 0 [])
             (mkOutbox [] [] [] [] [])) as [[r s] w] eqn:E.
  split; [apply H|]. vm_compute in E. inversion E. reflexivity.
Defined.
End Limiter.

(** ** Adaptive batching *)

Module Batch.

(* [src/core/builtin_nodes.cpp:281-294] AdaptiveBatchNode (fields) *)
Record AdaptiveBatch := mkBatch {
  max_batch_size_ : nat;
  max_per_source_ : nat;
  timeout_us_ : Z;
  allow_partial_ : bool;
  pending_ : list BatchItem;
  first_packet_time_us_ : Z;
  stopped_ : bool;
  worker_running : bool }.

Definition new_batch : AdaptiveBatch := mkBatch 4 1 10000 true [] 0 true false.

Definition with_pending (s : AdaptiveBatch) (l : list BatchItem) : AdaptiveBatch :=
  mkBatch (max_batch_size_ s) (max_per_source_ s) (timeout_us_ s) (allow_partial_ s) l
          (first_packet_time_us_ s) (stopped_ s) (worker_running s).
Definition with_partial (s : AdaptiveBatch) (b : bool) : AdaptiveBatch :=
  mkBatch (max_batch_size_ s) (max_per_source_ s) (timeout_us_ s) b (pending_ s)
          (first_packet_time_us_ s) (stopped_ s) (worker_running s).
Definition with_stopped (s : AdaptiveBatch) (b worker : bool) : AdaptiveBatch :=
  mkBatch (max_batch_size_ s) (max_per_source_ s) (timeout_us_ s) (allow_partial_ s) (pending_ s)
          (first_packet_time_us_ s) b worker.

Definition allow_partial_option (o : NodeOptions) : Res (option bool) :=
  match FindOption o "allow_partial" with
  | None => Okay None
  | Some _ => match GetBoolOption o "allow_partial" with
              | Okay b => Okay (Some b)
              | Err e => Err e
              end
  end.

Definition mode_option (o : NodeOptions) : Res (option bool) :=
  match FindOption o "mode" with
  | None => Okay None
  | Some _ =>
      match GetStringOption o "mode" with
      | Err e => Err e
      | Okay mode =>
          if bool_decide (mode = "low_latency") then Okay (Some true)
          else if bool_decide (mode = "high_utilization") then Okay (Some false)
          else Err (Invalid "batch mode must be low_latency or high_utilization")
      end
  end.

(* [src/core/builtin_nodes.cpp:132-166] AdaptiveBatchNode::OnConfigure *)
Definition BatchOnConfigure (o : NodeOptions) : NodeM AdaptiveBatch Status :=
  set_option (int_option o "max_batch_size" (fun v => v <=? 0) "max_batch_size must be positive")
    (fun v s => mkBatch (Z.to_nat v) (max_per_source_ s) (timeout_us_ s) (allow_partial_ s)
                  (pending_ s) (first_packet_time_us_ s) (stopped_ s) (worker_running s))
  (set_option (int_option o "timeout_us" (fun v => v <? 0) "timeout_us must be non-negative")
    (fun v s => mkBatch (max_batch_size_ s) (max_per_source_ s) v (allow_partial_ s)
                  (pending_ s) (first_packet_time_us_ s) (stopped_ s) (worker_running s))
  (set_option (int_option o "max_per_source" (fun v => v <=? 0) "max_per_source must be positive")
    (fun v s => mkBatch (max_batch_size_ s) (Z.to_nat v) (timeout_us_ s) (allow_partial_ s)
                  (pending_ s) (first_packet_time_us_ s) (stopped_ s) (worker_running s))
  (set_option (allow_partial_option o) (fun b s => with_partial s b)
  (set_option (mode_option o) (fun b s => with_partial s b)
  (NRet Ok))))).

(** The worker thread is started when there is a timeout to watch. *)
(* [src/core/builtin_nodes.cpp:168-175] AdaptiveBatchNode::OnStart *)
Definition BatchOnStart (c : NodeContext) : NodeM AdaptiveBatch Status :=
  nmodify (fun s => with_stopped s false
                      (if (0 <? timeout_us_ s) && allow_partial_ s then true
                       else worker_running s));;;
  NRet Ok.

(** *** Flush *)

(** The sources in the order of their first pending packet. *)
Definition source_order (pending : list BatchItem) : list string :=
  fold_left (fun order it => if bool_decide (source_id it ∈ order) then order
                             else order ++ [source_id it]) pending [].

(** [find_if] the first item of a source and [erase] it. *)
Fixpoint take_source (src : string) (pending : list BatchItem)
  : option (BatchItem * list BatchItem) :=
  match pending with
  | [] => None
  | it :: rest =>
      if bool_decide (source_id it = src) then Some (it, rest)
      else match take_source src rest with
           | Some (x, rest') => Some (x, it :: rest')
           | None => None
           end
  end.

Definition take_one (acc : list BatchItem * list BatchItem) (src : string)
  : list BatchItem * list BatchItem :=
  match take_source src acc.2 with
  | Some (it, rest) => (acc.1 ++ [it], rest)
  | None => acc
  end.

(** The [while] loop around the pass over the sources; each pass takes at least
    one item, so the number of pending items is enough fuel. *)
Fixpoint take_all (fuel : nat) (order : list string) (items pending : list BatchItem)
  : list BatchItem * list BatchItem :=
  match fuel, pending with
  | S fuel', _ :: _ =>
      let acc := fold_left take_one order (items, pending) in take_all fuel' order acc.1 acc.2
  | _, _ => (items, pending)
  end.

Definition round_robin (pending : list BatchItem) : list BatchItem * list BatchItem :=
  take_all (length pending) (source_order pending) [] pending.

Definition renumber (its : list BatchItem) : list BatchItem :=
  imap (fun i it => mkBatchItem (source_id it) (packet it) i) its.

(* [src/core/builtin_nodes.cpp:226-255] AdaptiveBatchNode::Flush *)
Definition Flush (c : NodeContext) : NodeM AdaptiveBatch Status :=
  items <-- nlocal (fun s => let '(its, rest) := round_robin (pending_ s) in
                             (its, with_pending s rest));
  match renumber items with
  | [] => NRet Ok
  | (it :: _) as its =>
      nincrement "batch.emitted";;;
      ngauge "batch.last_size" (double_of_Z (Z.of_nat (length its)));;;
      Emit c "batch" (MakePacketBatch its (timestamp (packet it)))
  end.

(** *** Processing *)

Inductive Admission := ALimited | APending | AFull.

Definition source_of (p : Packet) : string :=
  default "default" (metadata_get_string (metadata p) "source_id").

Definition of_source (src : string) (it : BatchItem) : bool := bool_decide (source_id it = src).

(** The second lock region: admission the packet under the limit of its source. *)
Definition admission (p : Packet) (now : Z) (s : AdaptiveBatch) : Admission * AdaptiveBatch :=
  let src := source_of p in
  if bool_decide (max_per_source_ s <= length (List.filter (of_source src) (pending_ s)))%nat
  then (ALimited, s)
  else
    let pending := pending_ s ++ [mkBatchItem src p (length (pending_ s))] in
    let first := if bool_decide (length pending = 1%nat) then now else first_packet_time_us_ s in
    let s' := mkBatch (max_batch_size_ s) (max_per_source_ s) (timeout_us_ s) (allow_partial_ s)
                      pending first (stopped_ s) (worker_running s) in
    (if bool_decide (max_batch_size_ s <= length pending)%nat then AFull else APending, s').

(** The first lock region. *)
Definition batch_expired (now : Z) (s : AdaptiveBatch) : bool :=
  negb (bool_decide (pending_ s = [])) && (0 <? timeout_us_ s) &&
  (timeout_us_ s <=? now - first_packet_time_us_ s).

(* [src/core/builtin_nodes.cpp:177-217] AdaptiveBatchNode::OnProcess *)
Definition BatchOnProcess (c : NodeContext) : NodeM AdaptiveBatch Status :=
  match Input c "flush" with
  | Some _ => Flush c
  | None =>
      match Input c "in" with
      | None => NRet (Invalid "AdaptiveBatch requires input")
      | Some p =>
          if bool_decide (event p = kEndOfStream) then
            status <-- Flush c;
            if ok status then Emit c "batch" p else NRet status
          else if is_control (event p) then Emit c "batch" p
          else
            expired <-- ntimed (fun now s => (batch_expired now s, s));
            status <-- (if (expired : bool) then Flush c else NRet Ok);
            if negb (ok status) then NRet status
            else
              a <-- ntimed (admission p);
              match a with
              | ALimited => nincrement "batch.source_limited";;; NRet Ok
              | APending => NRet Ok
              | AFull => Flush c
              end
      end
  end.

(** One round of the worker thread: it has something to flush when it is not
    stopped, packets are pending and the deadline has passed ([expired]);
    otherwise it goes on waiting. *)
(* [src/core/builtin_nodes.cpp:257-271] AdaptiveBatchNode::TimerLoop *)
Definition TimerRound (c : NodeContext) (expired cancelled : bool) : NodeM AdaptiveBatch unit :=
  due <-- nlocal (fun s => (negb (stopped_ s) && negb (bool_decide (pending_ s = [])) && expired, s));
  if due && negb cancelled then Flush c;;; NRet tt else NRet tt.

(** Asks the worker to stop and joins it. *)
(* [src/core/builtin_nodes.cpp:273-280] AdaptiveBatchNode::StopWorker *)
Definition StopWorker : NodeM AdaptiveBatch unit :=
  nmodify (fun s => with_stopped s true (worker_running s));;;
  nmodify (fun s => with_stopped s (stopped_ s) false).

(* [src/core/builtin_nodes.cpp:219-222] AdaptiveBatchNode::OnStop *)
Definition BatchOnStop : NodeM AdaptiveBatch Status := StopWorker;;; NRet Ok.

(* [src/core/builtin_nodes.cpp:120-129] AdaptiveBatchNode *)
Definition AdaptiveBatchNode : NodeClass AdaptiveBatch :=
  mkNodeClass
    (mkContract [any_port "in" true; any_port "flush" false] [any_port "batch" true] [] kAny "")
    kSerial BatchOnConfigure (NRet Ok) BatchOnStart BatchOnProcess (NRet tt) BatchOnStop (NRet Ok).

(** *** The order of a batch *)

Definition by_source (src : string) (l : list BatchItem) : list BatchItem :=
  List.filter (of_source src) l.

Lemma by_source_app src l k : by_source src (l ++ k) = by_source src l ++ by_source src k.
Proof. apply List.filter_app. Qed.

Lemma take_source_spec src pending :
  match take_source src pending with
  | Some (it, rest) =>
      source_id it = src /\ it :: rest ≡ₚ pending /\ rest `sublist_of` pending /\
      forall s, by_source s (it :: rest) = by_source s pending
  | None => by_source src pending = []
  end.
Proof.
  induction pending as [|it l IH]; simpl; [done|]. unfold by_source, of_source in *.
  case_bool_decide as Hs; simpl.
  - split_and!; try done. by apply sublist_cons.
  - destruct (take_source src l) as [[x rest]|]; simpl.
    + destruct IH as (Hx & Hp & Hsub & Hf). split_and!; [done| | |].
      * etrans; [apply Permutation_swap|]. by rewrite Hp.
      * by apply sublist_skip.
      * intros s. rewrite <- Hf. simpl. repeat case_bool_decide; congruence.
    + done.
Qed.

Definition pass_inv (items pending items' pending' : list BatchItem) : Prop :=
  items' ++ pending' ≡ₚ items ++ pending /\ pending' `sublist_of` pending /\
  (length items <= length items')%nat /\
  forall s, by_source s (items' ++ pending') = by_source s (items ++ pending).

Lemma take_one_inv acc src : pass_inv acc.1 acc.2 (take_one acc src).1 (take_one acc src).2.
Proof.
  destruct acc as [items pending]; simpl. unfold take_one; simpl.
  pose proof (take_source_spec src pending) as H.
  destruct (take_source src pending) as [[it rest]|]; simpl; [|by split_and!].
  destruct H as (_ & Hp & Hsub & Hf). unfold pass_inv. rewrite <- app_assoc; simpl.
  split_and!; [by rewrite Hp|done|rewrite length_app; lia|].
  intros s. by rewrite !by_source_app, Hf.
Qed.

Lemma pass_inv_trans a b c d e f : pass_inv a b c d -> pass_inv c d e f -> pass_inv a b e f.
Proof.
  intros (H1 & H2 & H3 & H4) (H5 & H6 & H7 & H8). split_and!.
  - by rewrite H5. - by etrans. - lia. - intros s. by rewrite H8.
Qed.

Lemma pass_spec order acc :
  let acc' := fold_left take_one order acc in
  pass_inv acc.1 acc.2 acc'.1 acc'.2 /\
  (forall it, it ∈ acc.2 -> source_id it ∈ order -> (length acc.1 < length acc'.1)%nat).
Proof.
  revert acc. induction order as [|src order IH]; intros acc; simpl.
  - split; [by split_and!|set_solver].
  - destruct (IH (take_one acc src)) as [Hinv Hlt].
    pose proof (take_one_inv acc src) as Hone.
    split; [by eapply pass_inv_trans|]. intros it Hit Hin.
    destruct Hinv as (_ & _ & Hle & _).
    unfold take_one in *. pose proof (take_source_spec src acc.2) as Hs.
    destruct (take_source src acc.2) as [[x rest]|]; simpl in *.
    + rewrite length_app in Hle. simpl in Hle. lia.
    + apply (Hlt it); [done|]. apply elem_of_cons in Hin as [Heq|]; [|done].
      exfalso. apply (elem_of_nil it). rewrite <- Hs. unfold by_source.
      apply list_elem_of_In, filter_In. split; [by apply list_elem_of_In|].
      unfold of_source. by apply bool_decide_eq_true.
Qed.

Lemma take_all_spec fuel order items pending :
  (length pending <= fuel)%nat -> (forall it, it ∈ pending -> source_id it ∈ order) ->
  let acc := take_all fuel order items pending in
  pass_inv items pending acc.1 acc.2 /\ acc.2 = [].
Proof.
  revert items pending. induction fuel as [|fuel IH]; intros items pending Hlen Hord; simpl.
  - assert (pending = []) as -> by (destruct pending; simpl in *; [done|lia]). by split_and!.
  - destruct pending as [|it l]; [by split_and!|].
    destruct (pass_spec order (items, it :: l)) as [Hinv Hlt].
    specialize (Hlt it ltac:(set_solver) (Hord it ltac:(set_solver))).
    set (acc := fold_left take_one order (items, it :: l)) in *. simpl in *.
    destruct (IH acc.1 acc.2) as [Hinv2 Hnil].
    + destruct Hinv as (Hp & _ & _ & _). apply Permutation_length in Hp.
      rewrite !length_app in Hp. simpl in Hp. lia.
    + intros x Hx. apply Hord. destruct Hinv as (_ & Hsub & _).
      eapply elem_of_submseteq; [exact Hx|by apply sublist_submseteq].
    + split; [by eapply pass_inv_trans|done].
Qed.

Lemma source_order_complete pending it : it ∈ pending -> source_id it ∈ source_order pending.
Proof.
  unfold source_order.
  assert (forall order, (it ∈ pending \/ source_id it ∈ order) ->
    source_id it ∈ fold_left (fun order it => if bool_decide (source_id it ∈ order) then order
                                else order ++ [source_id it]) pending order) as H.
  { induction pending as [|x l IH]; intros order Hin; simpl.
    - destruct Hin as [Hin|]; [by apply elem_of_nil in Hin|done].
    - apply IH. case_bool_decide; set_solver. }
  intros. apply H. by left.
Qed.

(** The whole of the pending packets is taken, each source in its own order. *)
Lemma round_robin_spec pending :
  let acc := round_robin pending in
  acc.2 = [] /\ acc.1 ≡ₚ pending /\ forall s, by_source s acc.1 = by_source s pending.
Proof.
  destruct (take_all_spec (length pending) (source_order pending) [] pending) as
    [(Hp & _ & _ & Hf) Hnil]; [done|auto using source_order_complete|].
  unfold round_robin. rewrite Hnil in *. split_and!; [done| |].
  - by rewrite app_nil_r in Hp.
  - intros s. specialize (Hf s). by rewrite app_nil_r in Hf.
Qed.

(** *** What batching guarantees *)

(** A packet with the source it came from. *)
Definition key (it : BatchItem) : string * Packet := (source_id it, packet it).
Definition by_key (src : string) (l : list (string * Packet)) : list (string * Packet) :=
  List.filter (fun k => bool_decide (k.1 = src)) l.

Lemma by_key_map src l : by_key src (map key l) = map key (by_source src l).
Proof.
  induction l as [|it l IH]; simpl; [done|]. unfold by_key, by_source, of_source in *; simpl.
  case_bool_decide; simpl; by rewrite IH.
Qed.

Lemma by_key_app src l k : by_key src (l ++ k) = by_key src l ++ by_key src k.
Proof. apply List.filter_app. Qed.

Definition batch_of (e : string * Packet) : list (list BatchItem) :=
  match event e.2, data e.2 with
  | kNone, PlBatch b => [items b]
  | _, _ => []
  end.

(** The batches that left the node, and the packets in them. *)
Definition batches (w : Outbox) : list (list BatchItem) := flat_map batch_of (sent w).
Definition batched (w : Outbox) : list (string * Packet) := map key (concat (batches w)).

Inductive BatchOp :=
| BProcess (c : NodeContext)
| BTimer (c : NodeContext) (expired cancelled : bool).

Definition batch_op (op : BatchOp) : NodeM AdaptiveBatch unit :=
  match op with
  | BProcess c => OnProcess AdaptiveBatchNode c;;; NRet tt
  | BTimer c e x => TimerRound c e x
  end.
Fixpoint batch_ops (ops : list BatchOp) : NodeM AdaptiveBatch unit :=
  match ops with [] => NRet tt | op :: ops' => batch_op op;;; batch_ops ops' end.

Definition op_context (op : BatchOp) : NodeContext :=
  match op with BProcess c => c | BTimer c _ _ => c end.

(** The data packets offered to the node. *)
Definition offered (op : BatchOp) : list (string * Packet) :=
  match op with
  | BProcess c =>
      match Input c "flush", Input c "in" with
      | None, Some p => if is_control (event p) then [] else [(source_of p, p)]
      | _, _ => []
      end
  | BTimer _ _ _ => []
  end.

Section conservation.
Variables mb mp : nat.

Definition good_batch (b : list BatchItem) : Prop :=
  (1 <= length b <= mb)%nat /\ map batch_index b = seq 0 (length b) /\
  forall src, (length (by_source src b) <= mp)%nat.

Definition batch_inv (acc : list (string * Packet)) (s : AdaptiveBatch) (w : Outbox) : Prop :=
  max_batch_size_ s = mb /\ max_per_source_ s = mp /\
  (forall src, by_key src (batched w ++ map key (pending_ s)) = by_key src acc) /\
  (length (pending_ s) <= mb)%nat /\
  (forall src, (length (by_source src (pending_ s)) <= mp)%nat) /\
  Forall good_batch (batches w).

Lemma renumber_key l : map key (renumber l) = map key l.
Proof.
  unfold renumber. assert (forall f, map key (imap (fun i it =>
    mkBatchItem (source_id it) (packet it) (f i)) l) = map key l) as H.
  { induction l as [|it l IH]; intros f; simpl; [done|]. f_equal. apply (IH (f ∘ S)). }
  apply (H id).
Qed.

Lemma renumber_index l : map batch_index (renumber l) = seq 0 (length l).
Proof.
  unfold renumber. assert (forall n, map batch_index (imap (fun i it =>
    mkBatchItem (source_id it) (packet it) (n + i)%nat) l) = seq n (length l)) as H.
  { induction l as [|it l IH]; intros n; simpl; [done|]. f_equal; [lia|].
    rewrite <- (IH (S n)). f_equal. apply imap_ext. intros. simpl. f_equal; lia. }
  rewrite <- (H 0%nat). f_equal.
Qed.

Lemma length_by_source src l : length (by_source src l) = length (by_key src (map key l)).
Proof. by rewrite by_key_map, length_map. Qed.

Lemma batches_emit port c p w :
  batches (after_emit port (inherit_all (context_inputs c) p) w) = batches w ++ batch_of (port, p).
Proof.
  unfold batches, after_emit, batch_of; simpl. rewrite flat_map_app; simpl.
  destruct (inherit_all_fields (context_inputs c) p) as (-> & _ & _ & ->). by rewrite app_nil_r.
Qed.

Lemma flush_inv acc c s w : has_emit c = true -> batch_inv acc s w ->
  let '(_, s', w') := nrun outbox (Flush c) s w in batch_inv acc s' w' /\ pending_ s' = [].
Proof.
  intros Hc (Hmb & Hmp & Hacc & Hlen & Hsrc & Hgood). unfold Flush. rewrite nrun_bind. simpl.
  pose proof (round_robin_spec (pending_ s)) as (Hnil & Hperm & Hf).
  destruct (round_robin (pending_ s)) as [its rest]; simpl in *; subst rest.
  pose proof (renumber_key its) as Hk. pose proof (renumber_index its) as Hi.
  assert (length (renumber its) = length its) as Hl by (apply length_imap).
  assert (forall src, by_key src (map key (renumber its)) = by_key src (map key (pending_ s))) as Hbk.
  { intros src. by rewrite Hk, !by_key_map, Hf. }
  destruct (renumber its) as [|it0 r0] eqn:Er; simpl.
  - split; [|done]. split_and!; simpl; auto; try lia.
    intros src. rewrite <- Hacc, !by_key_app, <- Hbk. done.
  - rewrite run_emit by done. simpl. split; [|done].
    unfold batch_inv, batched. simpl. rewrite batches_emit. simpl. split_and!; auto; try lia.
    + intros src. rewrite <- Hacc. rewrite app_nil_r, concat_app, List.map_app, !by_key_app.
      f_equal. simpl. rewrite app_nil_r. apply (Hbk src).
    + apply Forall_app; split; [done|]. constructor; [|done].
      pose proof (Permutation_length Hperm).
      split_and!; [simpl; lia|simpl in *; lia|etrans; [exact Hi|by rewrite <- Hl]|].
      intros src. rewrite length_by_source. etrans; [|apply (Hsrc src)].
      rewrite length_by_source. simpl in *. by rewrite Hbk.
Qed.

Lemma key_source p n : key (mkBatchItem (source_of p) p n) = (source_of p, p).
Proof. done. Qed.

(** Admission under the limits: the packet joins the history, or nothing
    changes. *)
Lemma admission_inv acc p now s w : batch_inv acc s w -> (length (pending_ s) < mb)%nat ->
  let '(a, s') := admission p now s in
  match a with
  | ALimited => s' = s
  | APending => batch_inv (acc ++ [(source_of p, p)]) s' w /\ (length (pending_ s') < mb)%nat
  | AFull => batch_inv (acc ++ [(source_of p, p)]) s' w
  end.
Proof.
  intros (Hmb & Hmp & Hacc & Hlen & Hsrc & Hgood) Hlt. unfold admission.
  case_bool_decide as Hlim; [done|].
  set (s' := mkBatch _ _ _ _ _ _ _ _).
  assert (batch_inv (acc ++ [(source_of p, p)]) s' w) as Hinv.
  { unfold s', batch_inv; simpl. rewrite length_app; simpl. split_and!; auto; try lia.
    - intros src. rewrite List.map_app; simpl. rewrite key_source, app_assoc.
      rewrite (by_key_app src (_ ++ _)), (by_key_app src acc). by rewrite Hacc.
    - intros src. rewrite by_source_app, length_app. specialize (Hsrc src).
      unfold by_source at 2, of_source; simpl.
      case_bool_decide as Hs; simpl; [|lia]. unfold by_source in *. rewrite <- Hs in *. lia. }
  case_bool_decide as Hfull; [done|]. split; [done|]. unfold s' in *; simpl in *. lia.
Qed.

Lemma flush_empty acc c s w : (0 < mb)%nat -> has_emit c = true -> batch_inv acc s w ->
  let '(_, s', w') := nrun outbox (Flush c) s w in
  batch_inv acc s' w' /\ (length (pending_ s') < mb)%nat.
Proof.
  intros Hpos Hc Hi. pose proof (flush_inv acc c s w Hc Hi) as H.
  destruct (nrun outbox (Flush c) s w) as [[r s'] w']. destruct H as [? ->].
  split; [done|simpl; lia].
Qed.

(** Emitting a control packet does not touch the batches. *)
Lemma control_inv acc c p s w : has_emit c = true -> is_control (event p) = true ->
  batch_inv acc s w ->
  batch_inv acc s (after_emit "batch" (inherit_all (context_inputs c) p) w).
Proof.
  intros Hc He (H1 & H2 & H3 & H4 & H5 & H6). unfold batch_inv, batched.
  rewrite batches_emit. unfold batch_of; simpl.
  destruct (event p); try done; rewrite app_nil_r; by split_and!.
Qed.

Definition step_ok acc (off : list (string * Packet)) s w : Prop :=
  exists acc', acc' `sublist_of` off /\ batch_inv (acc ++ acc') s w /\
               (length (pending_ s) < mb)%nat.

Lemma step_skip acc off s w : batch_inv acc s w -> (length (pending_ s) < mb)%nat ->
  step_ok acc off s w.
Proof. intros. exists []. rewrite app_nil_r. split; [apply sublist_nil_l|done]. Qed.

Lemma admission_ok acc c p s w : (0 < mb)%nat -> has_emit c = true ->
  batch_inv acc s w -> (length (pending_ s) < mb)%nat ->
  let '(_, s', w') := nrun outbox (a <-- ntimed (admission p);
              match a with
              | ALimited => nincrement "batch.source_limited";;; NRet Ok
              | APending => NRet Ok
              | AFull => Flush c
              end) s w in
  step_ok acc [(source_of p, p)] s' w'.
Proof.
  intros Hpos Hc Hi Hlt. rewrite run_timed. set (w1 := tick w).
  assert (batch_inv acc s w1) as Hi1 by done.
  pose proof (admission_inv acc p (hd 0 (clock w)) s w1 Hi1 Hlt) as H.
  destruct (admission p (hd 0 (clock w)) s) as [[] s1].
  - subst. by apply step_skip.
  - destruct H. by exists [(source_of p, p)].
  - pose proof (flush_empty _ c s1 w1 Hpos Hc H) as Hf.
    destruct (nrun outbox (Flush c) s1 w1) as [[r s2] w2]. by exists [(source_of p, p)].
Qed.

Lemma process_ok acc c s w : (0 < mb)%nat -> has_emit c = true ->
  batch_inv acc s w -> (length (pending_ s) < mb)%nat ->
  let '(_, s', w') := nrun outbox (OnProcess AdaptiveBatchNode c) s w in
  step_ok acc (offered (BProcess c)) s' w'.
Proof.
  intros Hpos Hc Hi Hlt.
  assert (forall s w off, batch_inv acc s w -> 
    let '(_, s', w') := nrun outbox (Flush c) s w in step_ok acc off s' w') as Hflush.
  { intros s0 w0 off Hi0. pose proof (flush_empty acc c s0 w0 Hpos Hc Hi0) as Hf.
    destruct (nrun outbox (Flush c) s0 w0) as [[r s'] w']. destruct Hf. by apply step_skip. }
  cbn [OnProcess AdaptiveBatchNode]. unfold BatchOnProcess, offered.
  destruct (Input c "flush"); [by apply Hflush|].
  destruct (Input c "in") as [p|]; [|by apply step_skip].
  case_bool_decide as Heos.
  { rewrite nrun_bind. pose proof (flush_empty acc c s w Hpos Hc Hi) as Hf.
    destruct (nrun outbox (Flush c) s w) as [[r s'] w']. destruct Hf.
    destruct (ok r); [rewrite run_emit by done|by apply step_skip].
    apply step_skip; [|done]. apply control_inv; try done. by rewrite Heos. }
  destruct (is_control (event p)) eqn:Hev.
  { rewrite run_emit by done. apply step_skip; [|done]. by apply control_inv. }
  rewrite run_timed. set (w1 := tick w).
  assert (batch_inv acc s w1) as Hi1 by done.
  rewrite nrun_bind.
  destruct (batch_expired (hd 0 (clock w)) s).
  - pose proof (flush_empty acc c s w1 Hpos Hc Hi1) as Hf.
    destruct (nrun outbox (Flush c) s w1) as [[r s'] w']. destruct Hf.
    destruct (ok r); [by apply admission_ok|by apply step_skip].
  - by apply admission_ok.
Qed.

Lemma op_ok acc op s w : (0 < mb)%nat -> has_emit (op_context op) = true ->
  batch_inv acc s w -> (length (pending_ s) < mb)%nat ->
  let '(_, s', w') := nrun outbox (batch_op op) s w in step_ok acc (offered op) s' w'.
Proof.
  intros Hpos Hc Hi Hlt. destruct op as [c|c e x]; cbn [batch_op].
  - rewrite nrun_bind. pose proof (process_ok acc c s w Hpos Hc Hi Hlt).
    by destruct (nrun outbox (OnProcess AdaptiveBatchNode c) s w) as [[r s'] w'].
  - unfold TimerRound. rewrite nrun_bind. cbn [nlocal nrun].
    destruct (_ && negb x); [|by apply step_skip].
    rewrite nrun_bind. pose proof (flush_empty acc c s w Hpos Hc Hi) as Hf.
    destruct (nrun outbox (Flush c) s w) as [[r s'] w']. destruct Hf. by apply step_skip.
Qed.

Lemma ops_ok ops acc s w : (0 < mb)%nat ->
  Forall (fun op => has_emit (op_context op) = true) ops ->
  batch_inv acc s w -> (length (pending_ s) < mb)%nat ->
  let '(_, s', w') := nrun outbox (batch_ops ops) s w in
  step_ok acc (flat_map offered ops) s' w'.
Proof.
  intros Hpos. revert acc s w. induction ops as [|op ops IH]; intros acc s w Hops Hi Hlt.
  - by apply step_skip.
  - apply Forall_cons in Hops as [Hop Hops]. cbn [batch_ops]. rewrite nrun_bind.
    pose proof (op_ok acc op s w Hpos Hop Hi Hlt) as H1.
    destruct (nrun outbox (batch_op op) s w) as [[r s1] w1].
    destruct H1 as (a1 & Hs1 & Hi1 & Hl1). specialize (IH (acc ++ a1) s1 w1 Hops Hi1 Hl1).
    destruct (nrun outbox (batch_ops ops) s1 w1) as [[r2 s2] w2].
    destruct IH as (a2 & Hs2 & Hi2 & Hl2). exists (a1 ++ a2). rewrite app_assoc.
    split; [|done]. by apply sublist_app.
Qed.
End conservation.

(** Over any sequence of invocations and timer rounds, adaptive batching neither
    loses, duplicates nor reorders the packets of a source among those it accepted:
    the packets of a source in the batches, in the order they left, followed by those
    still pending, are exactly the accepted packets of that source in arrival order.
    Every batch is non-empty, holds at most [max_batch_size] packets and at most
    [max_per_source] of one source, and numbers its items by position. *)
Theorem batch_conservation s0 ops rs ticks :
  pending_ s0 = [] -> (0 < max_batch_size_ s0)%nat ->
  Forall (fun op => has_emit (op_context op) = true) ops ->
  let '(_, s, w) := nrun outbox (batch_ops ops) s0 (mkOutbox [] rs [] [] ticks) in
  (exists accepted, accepted `sublist_of` flat_map offered ops /\
     forall src, by_key src (batched w ++ map key (pending_ s)) = by_key src accepted) /\
  Forall (good_batch (max_batch_size_ s0) (max_per_source_ s0)) (batches w) /\
  (length (pending_ s) < max_batch_size_ s0)%nat.
Proof.
  intros Hp Hpos Hops.
  pose proof (ops_ok (max_batch_size_ s0) (max_per_source_ s0) ops [] s0
    (mkOutbox [] rs [] [] ticks) Hpos Hops) as H.
  destruct (nrun outbox (batch_ops ops) s0 _) as [[r s] w].
  destruct H as (acc & Hsub & Hi & Hlt).
  - unfold batch_inv. rewrite Hp. split_and!; try done; simpl; lia.
  - rewrite Hp. simpl. lia.
  - destruct Hi as (_ & _ & Hacc & _ & _ & Hgood). split_and!; [by exists acc|done|done].
Qed.

Definition camera_context (src : string) (n : Z) : NodeContext :=
  mkContext "b" "" {[ "in" := set_metadata (Make (PlOther "int" n) (mkTs n)) "source_id" (MString src) ]}
            true None false.

Lemma batch_conservation_witness :
  let s0 := mkBatch 3 2 10000 true [] 0 false true in
  let ops := [BProcess (camera_context "a" 1); BProcess (camera_context "a" 2);
              BProcess (camera_context "b" 3); BProcess (camera_context "b" 4);
              BTimer (demo_context "in" 0) true false] in
  let '(_, s, w) := nrun outbox (batch_ops ops) s0 (mkOutbox [] [] [] [] []) in
  Forall (good_batch 3 2) (batches w) /\
  map (fun k => (k.1, timestamp k.2)) (batched w) =
    [("a", mkTs 1); ("b", mkTs 3); ("a", mkTs 2); ("b", mkTs 4)].
Proof.
  intros s0 ops.
  assert (Forall (fun op => has_emit (op_context op) = true) ops) as Hops by repeat constructor.
  pose proof (batch_conservation s0 ops [] [] ltac:(reflexivity) ltac:(simpl; lia) Hops) as H.
  destruct (nrun outbox (batch_ops ops) s0 (mkOutbox [] [] [] [] [])) as [[r s] w] eqn:E.
  split; [apply H|]. vm_compute in E. inversion E. reflexivity.
Defined.
End Batch.

(** ** Demultiplexing *)

Module Demux.
Import Batch.

(** The loop over the items: it ends at the first packet that is refused. *)
Fixpoint emit_items {NS} (c : NodeContext) (its : list BatchItem) : NodeM NS Status :=
  match its with
  | [] => NRet Ok
  | it :: rest =>
      status <-- Emit c "out" (packet it);
      if ok status then emit_items c rest else NRet status
  end.

(* [src/core/builtin_nodes.cpp:308-318] StreamDemuxNode::OnProcess *)
Definition DemuxOnProcess (c : NodeContext) : NodeM unit Status :=
  match Input c "batch" with
  | None => NRet (Invalid "StreamDemux requires batch input")
  | Some p =>
      if is_control (event p) then Emit c "out" p
      else match data p with
           | PlBatch b => emit_items c (items b)
           | _ => NRet (Invalid "StreamDemux expects PacketBatch")
           end
  end.

(* [src/core/builtin_nodes.cpp:297-305] StreamDemuxNode *)
Definition StreamDemuxNode : NodeClass unit :=
  default_hooks (mkContract [any_port "batch" true] [any_port "out" true] [] kAny "")
                DemuxOnProcess.

(** How many items go out: up to and including the first refused one. *)
Fixpoint accepted_prefix (rs : list Status) (n : nat) : nat :=
  match n, rs with
  | 0, _ => 0
  | S n', [] => n
  | S n', r :: rs' => if ok r then S (accepted_prefix rs' n') else 1
  end%nat.

Lemma emit_items_sent c its w : has_emit c = true ->
  map (fun e => content e.2) (sent (nrun outbox (emit_items c its) tt w).2) =
  map (fun e => content e.2) (sent w) ++
  map (fun it => content (packet it)) (take (accepted_prefix (replies w) (length its)) its).
Proof.
  intros Hc. revert w. induction its as [|it its IH]; intros w; cbn [emit_items].
  - cbn. by rewrite take_nil, app_nil_r.
  - rewrite nrun_bind, run_emit by done.
    destruct w as [snt rs cnt gs ck]; cbn [replies hd].
    destruct rs as [|r rs]; cbn [hd accepted_prefix length].
    + change (ok Ok) with true. cbn [take]. rewrite IH. unfold after_emit; cbn [sent replies tl].
      rewrite List.map_app, <- app_assoc. simpl. rewrite content_inherit.
      by destruct its.
    + destruct (ok r); cbn [take].
      * rewrite IH. unfold after_emit; cbn [sent replies tl].
        rewrite List.map_app, <- app_assoc. simpl. by rewrite content_inherit.
      * simpl. rewrite List.map_app. simpl. by rewrite content_inherit.
Qed.

(** Demultiplexing a batch emits the packets of its items in the order of the batch,
    unchanged, up to and including the first one the receiver refuses. *)
Theorem demux_emits_batch c p b w :
  has_emit c = true -> Input c "batch" = Some p -> event p = kNone -> data p = PlBatch b ->
  map (fun e => content e.2) (sent (nrun outbox (OnProcess StreamDemuxNode c) tt w).2) =
  map (fun e => content e.2) (sent w) ++
  map (fun it => content (packet it))
      (take (accepted_prefix (replies w) (length (items b))) (items b)).
Proof.
  intros Hc Hin He Hd. cbn [OnProcess StreamDemuxNode default_hooks].
  unfold DemuxOnProcess. rewrite Hin, He, Hd. by apply emit_items_sent.
Qed.

Definition demo_batch : Packet :=
  MakePacketBatch [mkBatchItem "a" (Make (PlOther "int" 1) (mkTs 1)) 0;
                   mkBatchItem "b" (Make (PlOther "int" 2) (mkTs 2)) 1] (mkTs 1).

Lemma demux_emits_batch_witness :
  let c := mkContext "d" "" {[ "batch" := demo_batch ]} true None false in
  map (fun e => content e.2) (sent (nrun outbox (OnProcess StreamDemuxNode c) tt empty_outbox).2)
  = [Make (PlOther "int" 1) (mkTs 1); Make (PlOther "int" 2) (mkTs 2)].
Proof.
  intros c. rewrite (demux_emits_batch c demo_batch
    (mkPacketBatch [mkBatchItem "a" (Make (PlOther "int" 1) (mkTs 1)) 0;
                    mkBatchItem "b" (Make (PlOther "int" 2) (mkTs 2)) 1] (mkTs 1)));
    vm_compute; reflexivity.
Defined.
End Demux.

(** ** Ring buffer of encoded packets *)

Module Ring.
Import Batch.

(* [src/core/builtin_nodes.cpp:380-386] EncodedPacketRingBufferNode (fields) *)
Record RingBuffer := mkRing {
  capacity_ : nat;
  post_packets_ : nat;
  remaining_post_packets_ : nat;
  recording_ : bool;
  packets_ : list Packet;
  clip_ : list Packet }.

Definition new_ring : RingBuffer := mkRing 300 0 0 false [] [].

(* [src/core/builtin_nodes.cpp:333-346] EncodedPacketRingBufferNode::OnConfigure *)
Definition RingOnConfigure (o : NodeOptions) : NodeM RingBuffer Status :=
  set_option (int_option o "capacity" (fun v => v <=? 0) "capacity must be positive")
    (fun v s => mkRing (Z.to_nat v) (post_packets_ s) (remaining_post_packets_ s) (recording_ s)
                       (packets_ s) (clip_ s))
  (set_option (int_option o "post_packets" (fun v => v <? 0) "post_packets must be non-negative")
    (fun v s => mkRing (capacity_ s) (Z.to_nat v) (remaining_post_packets_ s) (recording_ s)
                       (packets_ s) (clip_ s))
  (NRet Ok)).

Definition clip_items (clip : list Packet) : list BatchItem :=
  imap (fun i p => mkBatchItem (source_of p) p i) clip.

(* [src/core/builtin_nodes.cpp:374-384] EncodedPacketRingBufferNode::EmitClip *)
Definition EmitClip (c : NodeContext) : NodeM RingBuffer Status :=
  clip <-- nlocal (fun s => (clip_ s, mkRing (capacity_ s) (post_packets_ s)
                              (remaining_post_packets_ s) (recording_ s) (packets_ s) []));
  match clip_items clip with
  | [] => NRet Ok
  | (it :: _) as its => Emit c "clip" (MakePacketBatch its (timestamp (packet it)))
  end.

Definition on_trigger (s : RingBuffer) : bool * RingBuffer :=
  let recording := negb (bool_decide (post_packets_ s = 0%nat)) in
  (recording, mkRing (capacity_ s) (post_packets_ s) (post_packets_ s) recording
                     (packets_ s) (packets_ s)).

Definition is_encoded (p : Packet) : bool :=
  match data p with PlEncoded _ => true | _ => false end.

(** A packet is stored, and added to the clip while recording; the result says
    whether the clip is complete. *)
Definition on_packet (p : Packet) (s : RingBuffer) : bool * RingBuffer :=
  let kept := if bool_decide (length (packets_ s) = capacity_ s) then tail (packets_ s)
              else packets_ s in
  if recording_ s then
    let remaining := if bool_decide (remaining_post_packets_ s = 0%nat) then 0%nat
                     else (remaining_post_packets_ s - 1)%nat in
    let last := bool_decide (remaining = 0%nat) in
    (last, mkRing (capacity_ s) (post_packets_ s) remaining (negb last) (kept ++ [p])
                  (clip_ s ++ [p]))
  else
    (false, mkRing (capacity_ s) (post_packets_ s) (remaining_post_packets_ s) false (kept ++ [p])
                   (clip_ s)).

(* [src/core/builtin_nodes.cpp:347-371] EncodedPacketRingBufferNode::OnProcess *)
Definition RingOnProcess (c : NodeContext) : NodeM RingBuffer Status :=
  match Input c "trigger" with
  | Some _ =>
      recording <-- nlocal on_trigger;
      if (recording : bool) then NRet Ok else EmitClip c
  | None =>
      match Input c "packet" with
      | None => NRet (Invalid "EncodedPacketRingBuffer requires packet or trigger")
      | Some p =>
          if is_control (event p) then NRet Ok
          else if negb (is_encoded p) then NRet (Invalid "ring buffer expects EncodedPacket")
          else
            complete <-- nlocal (on_packet p);
            if (complete : bool) then EmitClip c else NRet Ok
      end
  end.

(* [src/core/builtin_nodes.cpp:321-330] EncodedPacketRingBufferNode *)
Definition EncodedPacketRingBufferNode : NodeClass RingBuffer :=
  mkNodeClass
    (mkContract [mkPort "packet" (caps_of_kind kEncodedVideo) true; any_port "trigger" false]
                [any_port "clip" true] [] kAny "")
    kSerial RingOnConfigure (NRet Ok) (fun _ => NRet Ok) RingOnProcess (NRet tt) (NRet Ok) (NRet Ok).

(** Invocations with one encoded packet, and with a trigger. *)
Definition packet_context (p : Packet) : NodeContext :=
  mkContext "r" "" {[ "packet" := p ]} true None false.
Definition trigger_context (p : Packet) : NodeContext :=
  mkContext "r" "" {[ "trigger" := p ]} true None false.

Definition encoded_data (p : Packet) : Prop := event p = kNone /\ is_encoded p = true.

Lemma run_packet p s w : encoded_data p ->
  nrun outbox (OnProcess EncodedPacketRingBufferNode (packet_context p)) s w =
  let '(complete, s') := on_packet p s in
  if complete then nrun outbox (EmitClip (packet_context p)) s' w else (Ok, s', w).
Proof.
  intros [He Hd]. cbn [OnProcess EncodedPacketRingBufferNode]. unfold RingOnProcess.
  replace (Input (packet_context p) "trigger") with (@None Packet) by done.
  replace (Input (packet_context p) "packet") with (Some p) by done.
  rewrite He, Hd. simpl. by destruct (on_packet p s) as [[] s'].
Qed.

(** While nothing is recorded the node keeps the most recent packets. *)
Lemma ring_keeps_recent cap post vs hist w : Forall encoded_data vs -> (0 < cap)%nat ->
  nrun outbox (process_all EncodedPacketRingBufferNode (map packet_context vs))
       (mkRing cap post 0 false (lastn cap hist) []) w =
  (tt, mkRing cap post 0 false (lastn cap (hist ++ vs)) [], w).
Proof.
  intros Hvs Hcap. revert hist. induction Hvs as [|p vs Hp Hvs IH]; intros hist.
  - by rewrite app_nil_r.
  - cbn [map process_all]. rewrite nrun_bind, run_packet by done. unfold on_packet; simpl.
    replace (_ ++ [p]) with (lastn cap (hist ++ [p])).
    + rewrite IH. by rewrite <- app_assoc.
    + rewrite length_lastn. case_bool_decide; [apply lastn_snoc_ge|apply lastn_snoc_lt]; lia.
Qed.

(** While recording, the packets after the trigger go to the clip as well. *)
Lemma ring_records cap post vs w rest pk clip : Forall encoded_data vs ->
  (length vs < rest)%nat ->
  exists pk', nrun outbox (process_all EncodedPacketRingBufferNode (map packet_context vs))
       (mkRing cap post rest true pk clip) w =
  (tt, mkRing cap post (rest - length vs) true pk' (clip ++ vs), w).
Proof.
  intros Hvs. revert rest pk clip. induction Hvs as [|p vs Hp Hvs IH]; intros rest pk clip Hlt.
  - exists pk. simpl. by rewrite app_nil_r, Nat.sub_0_r.
  - cbn [map process_all length] in *. rewrite nrun_bind, run_packet by done.
    unfold on_packet; cbn [recording_ remaining_post_packets_ packets_ capacity_ post_packets_ clip_].
    rewrite (bool_decide_eq_false_2 (rest = 0%nat)) by lia.
    rewrite (bool_decide_eq_false_2 ((rest - 1)%nat = 0%nat)) by lia. cbn [negb].
    edestruct (IH (rest - 1)%nat) as [pk' Hrun]; [lia|]. exists pk'. rewrite Hrun.
    rewrite <- app_assoc. simpl. do 3 f_equal. lia.
Qed.

Lemma run_EmitClip c s w : has_emit c = true -> clip_ s <> [] ->
  exists q, sent (nrun outbox (EmitClip c) s w).2 = sent w ++ [("clip", q)] /\
    data q = PlBatch (mkPacketBatch (clip_items (clip_ s)) (timestamp (hd EmptyPacket (clip_ s)))) /\
    event q = kNone.
Proof.
  intros Hc Hne. unfold EmitClip. rewrite nrun_bind. cbn [nlocal nrun].
  destruct (clip_ s) as [|p l]; [done|]. simpl. rewrite run_emit by done. simpl.
  eexists. split; [done|].
  set (b := MakePacketBatch _ _).
  destruct (inherit_all_fields (context_inputs c) b) as (-> & _ & _ & ->). done.
Qed.

Lemma process_all_app {NS} (cls : NodeClass NS) cs ds s w :
  nrun outbox (process_all cls (cs ++ ds)) s w =
  let '(_, s', w') := nrun outbox (process_all cls cs) s w in
  nrun outbox (process_all cls ds) s' w'.
Proof.
  revert s w. induction cs as [|c cs IH]; intros s w; [done|].
  cbn [app process_all]. rewrite !nrun_bind.
  destruct (nrun outbox (OnProcess cls c) s w) as [[r s1] w1]. apply IH.
Qed.

Lemma run_trigger t s w :
  nrun outbox (OnProcess EncodedPacketRingBufferNode (trigger_context t)) s w =
  let '(recording, s') := on_trigger s in
  if recording then (Ok, s', w) else nrun outbox (EmitClip (trigger_context t)) s' w.
Proof.
  cbn [OnProcess EncodedPacketRingBufferNode]. unfold RingOnProcess.
  replace (Input (trigger_context t) "trigger") with (Some t) by done.
  simpl. by case_bool_decide.
Qed.

Lemma nil_or_snoc {A} (l : list A) : l = [] \/ exists k x, l = k ++ [x].
Proof. destruct l using rev_ind; eauto. Qed.

(** A triggered clip is the recent past and the requested future: after any packets
    [vs], a trigger and then exactly [post_packets] further packets [ws], the ring buffer
    has emitted one clip, made of the last [capacity] packets before the trigger followed
    by those after it, in order. *)
Theorem ring_clip cap vs ws t :
  (0 < cap)%nat -> Forall encoded_data vs -> Forall encoded_data ws -> lastn cap vs ++ ws <> [] ->
  exists q,
    sent (nrun outbox (process_all EncodedPacketRingBufferNode
            (map packet_context vs ++ trigger_context t :: map packet_context ws))
            (mkRing cap (length ws) 0 false [] []) empty_outbox).2 = [("clip", q)] /\
    data q = PlBatch (mkPacketBatch (clip_items (lastn cap vs ++ ws))
                        (timestamp (hd EmptyPacket (lastn cap vs ++ ws)))) /\
    event q = kNone.
Proof.
  intros Hcap Hvs Hws Hne. rewrite process_all_app.
  rewrite (ring_keeps_recent cap _ vs []) by done. cbn [app process_all].
  rewrite nrun_bind, run_trigger. unfold on_trigger; cbn [post_packets_ packets_ capacity_].
  destruct (nil_or_snoc ws) as [->|(ws' & last & ->)].
  - rewrite app_nil_r in *. cbn [length map process_all].
    rewrite bool_decide_eq_true_2 by done. cbn [negb].
    edestruct (run_EmitClip (trigger_context t)
      (mkRing cap 0 0 false (lastn cap vs) (lastn cap vs)) empty_outbox) as (q & Hq & Hd & He);
      [done|done|].
    destruct (nrun outbox (EmitClip _) _ _) as [[r s] w]. by exists q.
  - rewrite length_app; cbn [length].
    rewrite bool_decide_eq_false_2 by lia. cbn [negb].
    apply Forall_app in Hws as [Hws Hlast]. apply Forall_cons in Hlast as [Hlast _].
    rewrite List.map_app, process_all_app.
    destruct (ring_records cap (length ws' + 1) ws' empty_outbox (length ws' + 1)
      (lastn cap vs) (lastn cap vs) Hws ltac:(lia)) as [pk' ->].
    cbn [map process_all]. rewrite nrun_bind, run_packet by done.
    unfold on_packet; cbn [recording_ remaining_post_packets_ packets_ capacity_ post_packets_ clip_].
    replace (length ws' + 1 - length ws')%nat with 1%nat by lia. cbn [Nat.sub].
    rewrite (bool_decide_eq_false_2 (1%nat = 0%nat)) by lia.
    rewrite (bool_decide_eq_true_2 (0%nat = 0%nat)) by lia. cbn [negb].
    match goal with |- context [nrun outbox (EmitClip ?c) ?s ?w] =>
      destruct (run_EmitClip c s w) as (q & Hq & Hd & He) end.
    { done. } { simpl. by destruct (lastn cap vs), ws'. }
    destruct (nrun outbox (EmitClip _) _ _) as [[r s] w].
    exists q. simpl in *. by rewrite <- app_assoc in Hd.
Qed.

Definition frame (n : Z) : Packet :=
  Make (PlEncoded (mkEncodedPacket (mkTs n) (mkTs n) "h264" false None)) (mkTs n).

Lemma ring_clip_witness :
  exists q, sent (nrun outbox (process_all EncodedPacketRingBufferNode
      (map packet_context [frame 1; frame 2; frame 3] ++
       trigger_context (Make (PlOther "int" 0) (mkTs 0)) :: map packet_context [frame 4]))
      (mkRing 2 1 0 false [] []) empty_outbox).2 = [("clip", q)] /\
    data q = PlBatch (mkPacketBatch (clip_items [frame 2; frame 3; frame 4]) (mkTs 2)) /\
    event q = kNone.
Proof.
  apply (ring_clip 2 [frame 1; frame 2; frame 3] [frame 4] (Make (PlOther "int" 0) (mkTs 0)));
    [lia|repeat constructor|repeat constructor|discriminate].
Defined.
End Ring.

(** ** Registration *)

(** A null registry is not modelled; the statuses are ignored as in the code. *)
(* [src/core/builtin_nodes.cpp:391-403] RegisterBuiltinNodes *)
Definition RegisterBuiltinNodes (r : NodeRegistry.Registry) : NodeRegistry.Registry :=
  let reg t f r := (NodeRegistry.Register t (Some f) r).2 in
  reg "EncodedPacketRingBuffer" (mkNodeType _ Ring.EncodedPacketRingBufferNode Ring.new_ring)
  (reg "StreamDemux" (mkNodeType _ Demux.StreamDemuxNode tt)
  (reg "AdaptiveBatch" (mkNodeType _ Batch.AdaptiveBatchNode Batch.new_batch)
  (reg "FlowLimiter" (mkNodeType _ Limiter.FlowLimiterNode Limiter.new_limiter)
  (reg "NullSink" (mkNodeType _ NullSinkNode tt)
  (reg "Passthrough" (mkNodeType _ PassthroughNode tt) r))))).

Example builtin_types :
  NodeRegistry.Types (RegisterBuiltinNodes NodeRegistry.empty_registry) =
  ["AdaptiveBatch"; "EncodedPacketRingBuffer"; "FlowLimiter"; "NullSink"; "Passthrough";
   "StreamDemux"].
Proof. vm_compute. reflexivity. Qed.
