(* ===== verification/NodeTestRunner.v ===== *)
(** * The node test runner

    [src/testing/node_test_runner.cpp], [include/rkavp/testing/node_test_runner.hpp].

    A harness that drives one node through its life cycle without a graph.  It
    answers the calls of the node itself: packets are collected per output port,
    metrics go to a registry of its own.  [capture] is that handler; every
    operation of the runner is a function on [TestRunner].  The node is run to
    completion by each operation, so packets that a thread of the node emits
    between two operations enter only through [WaitForOutput]. *)

From S2P Require Import Prelude Status Timestamp Values Telemetry Contract Node Services BuiltinNodes.
From Stdlib Require Import SpecFloat.
Import Metrics SidePackets ServiceRegistry.
Local Open Scope rkavp_scope.

(** ** What the runner collects *)

(* [include/rkavp/testing/node_test_runner.hpp:64-71] NodeTestRunner (outputs and metrics) *)
Record Captured := mkCaptured {
  outputs_ : gmap string (list Packet);
  metrics_ : MetricsRegistry;
  ticks : list Z }.

(** The packets of a port; [Outputs] and [outputs_[port]] agree on an unknown
    port. *)
Definition packets_at (m : gmap string (list Packet)) (port : string) : list Packet :=
  match m !! port with Some l => l | None => [] end.

(* [src/testing/node_test_runner.cpp:158-167] NodeTestRunner::CaptureOutput *)
Definition CaptureOutput (contract : NodeContract) (port : string) (p : Packet) (w : Captured)
  : Status * Captured :=
  match FindOutput contract port with
  | None => (NotFound ("unknown output port: " +:+ port), w)
  | Some _ => (Ok, mkCaptured (<[port := packets_at (outputs_ w) port ++ [p]]> (outputs_ w))
                              (metrics_ w) (ticks w))
  end.

(** The handler of the contexts that [MakeContext] makes. *)
Definition capture (contract : NodeContract) : Handler Captured := mkHandler
  (CaptureOutput contract)
  (fun n w => mkCaptured (outputs_ w) (Increment (metrics_ w) n 1) (ticks w))
  (fun n v w => mkCaptured (outputs_ w) (SetGauge (metrics_ w) n v) (ticks w))
  (fun w => (hd 0 (ticks w), mkCaptured (outputs_ w) (metrics_ w) (tl (ticks w)))).

(* [include/rkavp/testing/node_test_runner.hpp:55-65] NodeTestRunner (fields) *)
Record TestRunner (NS : Type) := mkTestRunner {
  node_ : option (NodeObj NS);
  node_id_ : string;
  executor_ : string;
  contract_ : NodeContract;
  inputs_ : PacketSet;
  side_packets_ : SidePacketSet;
  services_ : Services;
  resources_ : option nat;
  cancelled_ : bool;
  start_context_ : option NodeContext;
  captured_ : Captured }.
Arguments mkTestRunner {NS} _ _ _ _ _ _ _ _ _ _ _.
Arguments node_ {NS} _.
Arguments node_id_ {NS} _.
Arguments executor_ {NS} _.
Arguments contract_ {NS} _.
Arguments inputs_ {NS} _.
Arguments side_packets_ {NS} _.
Arguments services_ {NS} _.
Arguments resources_ {NS} _.
Arguments cancelled_ {NS} _.
Arguments start_context_ {NS} _.
Arguments captured_ {NS} _.

Section runner.
Context {NS : Type} (cls : NodeClass NS).
Implicit Types r : TestRunner NS.

Definition with_node (o : option (NodeObj NS)) (w : Captured) r : TestRunner NS :=
  mkTestRunner o (node_id_ r) (executor_ r) (contract_ r) (inputs_ r) (side_packets_ r)
    (services_ r) (resources_ r) (cancelled_ r) (start_context_ r) w.
Definition with_inputs (i : PacketSet) r : TestRunner NS :=
  mkTestRunner (node_ r) (node_id_ r) (executor_ r) (contract_ r) i (side_packets_ r)
    (services_ r) (resources_ r) (cancelled_ r) (start_context_ r) (captured_ r).
Definition with_side (s : SidePacketSet) (v : Services) r : TestRunner NS :=
  mkTestRunner (node_ r) (node_id_ r) (executor_ r) (contract_ r) (inputs_ r) s v
    (resources_ r) (cancelled_ r) (start_context_ r) (captured_ r).
Definition with_cancelled (b : bool) r : TestRunner NS :=
  mkTestRunner (node_ r) (node_id_ r) (executor_ r) (contract_ r) (inputs_ r) (side_packets_ r)
    (services_ r) (resources_ r) b (start_context_ r) (captured_ r).
Definition with_context (c : option NodeContext) r : TestRunner NS :=
  mkTestRunner (node_ r) (node_id_ r) (executor_ r) (contract_ r) (inputs_ r) (side_packets_ r)
    (services_ r) (resources_ r) (cancelled_ r) c (captured_ r).
Definition with_outputs (m : gmap string (list Packet)) r : TestRunner NS :=
  with_node (node_ r) (mkCaptured m (metrics_ (captured_ r)) (ticks (captured_ r))) r.

(** A call of a method of the node. *)
Definition call {A} (m : NodeM (NodeObj NS) A) (o : NodeObj NS) r : A * TestRunner NS :=
  let '(a, o', w') := nrun (capture (contract_ r)) m o (captured_ r) in
  (a, with_node (Some o') w' r).

(* [src/testing/node_test_runner.cpp:8-12] NodeTestRunner::NodeTestRunner *)
Definition NewTestRunner (node : option (NodeObj NS)) (id executor : string) (clock : list Z)
  : TestRunner NS :=
  mkTestRunner node id executor
    (match node with Some _ => Contract cls | None => mkContract [] [] [] kAny "" end)
    ∅ (mkSide ∅) ∅ None false None (mkCaptured ∅ NewMetrics clock).

(* [src/testing/node_test_runner.cpp:19-26] NodeTestRunner::Configure *)
Definition Configure (options : ConfigValue) r : Status * TestRunner NS :=
  match node_ r with
  | None => (Invalid "node is required", r)
  | Some o =>
      if is_null options then call (Node.Configure cls ∅) o r
      else match AsObject options with
           | None => (Invalid "node options must be an object", r)
           | Some opts => call (Node.Configure cls opts) o r
           end
  end.

(* [src/testing/node_test_runner.cpp:28-38] NodeTestRunner::SetInput *)
Definition SetInput (port : string) (p : Packet) r : Status * TestRunner NS :=
  match node_ r with
  | None => (Invalid "node is required", r)
  | Some o =>
      if bool_decide (port = "") || packet_empty p then
        (Invalid "input port and packet are required", r)
      else match FindInput (contract_ r) port with
           | None => (NotFound ("unknown input port: " +:+ port), r)
           | Some _ =>
               if bool_decide (state_ o = kClosed) || bool_decide (state_ o = kError) then
                 (FailedPrecondition "cannot set input on a closed or failed node", r)
               else (Ok, with_inputs (<[port := p]> (inputs_ r)) r)
           end
  end.

(* [src/testing/node_test_runner.cpp:40-42] NodeTestRunner::SetSidePacket *)
Definition SetSidePacket (name : string) (p : Packet) r : Status * TestRunner NS :=
  let '(s, side) := SideSet name p (side_packets_ r) in (s, with_side side (services_ r) r).

(* [include/rkavp/testing/node_test_runner.hpp:32-35] NodeTestRunner::SetService *)
Definition SetService (T name : string) (service : option nat) r : Status * TestRunner NS :=
  let '(s, services) := ServiceSet T name service (services_ r) in
  (s, with_side (side_packets_ r) services r).

(** A resource manager is its identity. *)
(* [src/testing/node_test_runner.cpp:44-46] NodeTestRunner::SetResourceManager *)
Definition SetResourceManager (resources : option nat) r : TestRunner NS :=
  mkTestRunner (node_ r) (node_id_ r) (executor_ r) (contract_ r) (inputs_ r) (side_packets_ r)
    (services_ r) resources (cancelled_ r) (start_context_ r) (captured_ r).

(* [src/testing/node_test_runner.cpp:151-154] NodeTestRunner::Cancel *)
Definition Cancel r : TestRunner NS := with_cancelled true r.

(* [src/testing/node_test_runner.cpp:156-156] NodeTestRunner::state *)
Definition runner_state r : NodeState :=
  match node_ r with Some o => state_ o | None => kError end.

(* [src/testing/node_test_runner.cpp:169-176] NodeTestRunner::MakeContext *)
Definition MakeContext (ins : PacketSet) r : NodeContext :=
  mkContext (node_id_ r) (executor_ r) ins true (Some (packets_ (side_packets_ r)))
    (bool_decide (is_Some (ServiceGet "IClock" "rkavp.clock" (services_ r)))).

(** The methods of the node as operations of the runner; without a node they are
    not reached. *)
Definition on_node {A} (dflt : A) (m : NodeM (NodeObj NS) A) r : A * TestRunner NS :=
  match node_ r with None => (dflt, r) | Some o => call m o r end.

(* [src/testing/node_test_runner.cpp:178-184] NodeTestRunner::CleanupAfterFailure *)
Definition CleanupAfterFailure (status : Status) r : Status * TestRunner NS :=
  let '(_, r1) := on_node Ok (Node.Stop cls) (Cancel r) in
  let '(_, r2) := on_node Ok (Node.Close cls) r1 in
  (status, with_context None r2).

(** The last three statements of [Start]. *)
Definition start_node r : Status * TestRunner NS :=
  let r0 := with_cancelled false r in
  let c := MakeContext ∅ r0 in
  let '(status, r1) := on_node Ok (Node.Start cls c) (with_context (Some c) r0) in
  if ok status then (status, r1) else CleanupAfterFailure status r1.

Definition open_node r : Status * TestRunner NS :=
  if bool_decide (runner_state r = kConfigured) then
    let '(status, r1) := on_node Ok (Node.Open cls) r in
    if ok status then start_node r1 else CleanupAfterFailure status r1
  else start_node r.

(* [src/testing/node_test_runner.cpp:48-63] NodeTestRunner::Start *)
Definition Start r : Status * TestRunner NS :=
  match node_ r with
  | None => (Invalid "node is required", r)
  | Some _ =>
      if bool_decide (runner_state r = kCreated) then
        let '(status, r1) := Configure CNull r in
        if ok status then open_node r1 else CleanupAfterFailure status r1
      else open_node r
  end.

(** The loop over the input ports: the first required one without a packet. *)
Definition missing_input (c : NodeContract) (ins : PacketSet) : option PortSpec :=
  List.find (fun p => port_required p && bool_decide (ins !! port_name p = None)) (inputs c).

(* [src/testing/node_test_runner.cpp:65-81] NodeTestRunner::Process *)
Definition Process r : Status * TestRunner NS :=
  match node_ r with
  | None => (Invalid "node is required", r)
  | Some o =>
      if negb (bool_decide (state_ o = kRunning)) then
        (FailedPrecondition "Process requires a running node", r)
      else
        let current := inputs_ r in
        let r0 := with_inputs ∅ r in
        match missing_input (contract_ r) current with
        | Some p => (Invalid ("missing required input: " +:+ port_name p), with_inputs current r0)
        | None =>
            let '(status, r1) := call (Node.Process cls (MakeContext current r0)) o r0 in
            if ok status then (status, r1) else CleanupAfterFailure status r1
        end
  end.

(* [src/testing/node_test_runner.cpp:83-94] NodeTestRunner::Stop *)
Definition Stop r : Status * TestRunner NS :=
  match node_ r with
  | None => (Invalid "node is required", r)
  | Some o =>
      match state_ o with
      | kCreated | kConfigured | kOpen | kClosed => (Ok, r)
      | _ => let '(status, r1) := call (Node.Stop cls) o (Cancel r) in
             (status, with_context None r1)
      end
  end.

(** [Close] after the node was stopped. *)
Definition close_node r : Status * TestRunner NS :=
  if bool_decide (runner_state r = kCreated) || bool_decide (runner_state r = kClosed)
  then (Ok, r)
  else let '(status, r1) := on_node Ok (Node.Close cls) r in (status, with_context None r1).

(* [src/testing/node_test_runner.cpp:96-108] NodeTestRunner::Close *)
Definition Close r : Status * TestRunner NS :=
  match node_ r with
  | None => (Ok, r)
  | Some o =>
      if bool_decide (state_ o = kRunning) then
        let '(status, r1) := Stop r in
        if ok status then close_node r1 else (status, r1)
      else close_node r
  end.

(* [src/testing/node_test_runner.cpp:110-118] NodeTestRunner::RunOnce *)
Definition RunOnce r : Status * TestRunner NS :=
  let '(s0, r0) := Start r in
  let '(status, r1) := if ok s0 then Process r0 else (s0, r0) in
  let '(stop_status, r2) := Stop r1 in
  let '(close_status, r3) := Close r2 in
  (if negb (ok status) then status
   else if negb (ok stop_status) then stop_status else close_status, r3).

(* [src/testing/node_test_runner.cpp:14-17] NodeTestRunner::~NodeTestRunner *)
Definition destroy r : TestRunner NS := (Close (Cancel r)).2.

(* [src/testing/node_test_runner.cpp:120-124] NodeTestRunner::Outputs *)
Definition Outputs (port : string) r : list Packet := packets_at (outputs_ (captured_ r)) port.

(* [src/testing/node_test_runner.cpp:126-133] NodeTestRunner::TakeOutputs *)
Definition TakeOutputs (port : string) r : list Packet * TestRunner NS :=
  match outputs_ (captured_ r) !! port with
  | None => ([], r)
  | Some l => (l, with_outputs (<[port := []]> (outputs_ (captured_ r))) r)
  end.

(** The predicate of the wait in [WaitForOutput]. *)
Definition output_ready (port : string) (count : nat) r : bool :=
  cancelled_ r ||
  match outputs_ (captured_ r) !! port with Some l => (count <=? length l)%nat | None => false end.

(** The wait reads the state at the call and then each time it is woken, at the
    latest when the timeout expires: [wakes] are these states after the first.  It
    ends in the first one that is ready. *)
Fixpoint wait_output (port : string) (count : nat) r (wakes : list (TestRunner NS))
  : option (TestRunner NS) :=
  if output_ready port count r then Some r
  else match wakes with [] => None | r' :: ws => wait_output port count r' ws end.

(* [src/testing/node_test_runner.cpp:135-149] NodeTestRunner::WaitForOutput *)
Definition WaitForOutput (port : string) (count : nat) (timeout_ms : Z) r
    (wakes : list (TestRunner NS)) : Status :=
  if timeout_ms <? 0 then Invalid "output wait timeout must be non-negative"
  else match FindOutput (contract_ r) port with
       | None => NotFound ("unknown output port: " +:+ port)
       | Some _ =>
           match wait_output port count r wakes with
           | None => Unavailable ("timed out waiting for output: " +:+ port)
           | Some r' => if cancelled_ r' then Cancelled "output wait was cancelled" else Ok
           end
       end.
End runner.

(** ** The capture is faithful *)

Definition answer (contract : NodeContract) (e : string * Packet) : Status :=
  match FindOutput contract e.1 with
  | None => NotFound ("unknown output port: " +:+ e.1) | Some _ => Ok end.

(** What a list of calls leaves in the outputs and in the metrics. *)
Definition collect (contract : NodeContract) (l : list (string * Packet))
    (m : gmap string (list Packet)) : gmap string (list Packet) :=
  fold_left (fun m e => match FindOutput contract e.1 with
                        | None => m | Some _ => <[e.1 := packets_at m e.1 ++ [e.2]]> m end) l m.
Definition meter (counted : list string) (gs : list (string * spec_float)) (m : MetricsRegistry)
  : MetricsRegistry :=
  fold_left (fun m g => SetGauge m g.1 g.2) gs (fold_left (fun m n => Increment m n 1) counted m).

Lemma meter_gauge cs gs n v m : meter cs gs (SetGauge m n v) = meter cs ((n, v) :: gs) m.
Proof.
  unfold meter. simpl. f_equal. revert m.
  induction cs as [|c cs IH]; intros m; simpl; [done|]. by rewrite <- IH.
Qed.

(** A node cannot tell the test runner from any other receiver that refuses the
    same ports: every run under [capture] is a run under the plain recorder
    [outbox], and what the runner collected is what that run sent and counted. *)
Lemma capture_simulates {NS A} c (m : NodeM NS A) s w sent0 cnt0 g0 :
  exists L C G k,
    let '(a, s', o) := nrun outbox m s (mkOutbox sent0 (map (answer c) L) cnt0 g0 (ticks w)) in
    o = mkOutbox (sent0 ++ L) [] (cnt0 ++ C) (g0 ++ G) k /\
    nrun (capture c) m s w =
      (a, s', mkCaptured (collect c L (outputs_ w)) (meter C G (metrics_ w)) k).
Proof.
  revert s w sent0 cnt0 g0.
  induction m as [a|B g k IH|port p k IH|n k IH|n v k IH|B g k IH]; intros s w sent0 cnt0 g0; simpl.
  - exists [], [], [], (ticks w). rewrite !app_nil_r. by destruct w.
  - destruct (g s) as [b s']. apply IH.
  - unfold CaptureOutput. destruct (FindOutput c port) eqn:E.
    + edestruct (IH Ok s (mkCaptured (<[port := packets_at (outputs_ w) port ++ [p]]> (outputs_ w))
        (metrics_ w) (ticks w)) (sent0 ++ [(port, p)]) cnt0 g0) as (L & C & G & t & H).
      exists ((port, p) :: L), C, G, t. simpl. unfold answer at 1 2. simpl. rewrite E.
      unfold after_emit. simpl in *. by rewrite <- app_assoc in H.
    + edestruct (IH (NotFound ("unknown output port: " +:+ port)) s w (sent0 ++ [(port, p)]) cnt0 g0)
        as (L & C & G & t & H).
      exists ((port, p) :: L), C, G, t. simpl. unfold answer at 1 2. simpl. rewrite E.
      unfold after_emit. simpl in *. by rewrite <- app_assoc in H.
  - edestruct (IH s (mkCaptured (outputs_ w) (Increment (metrics_ w) n 1) (ticks w))
      sent0 (cnt0 ++ [n]) g0) as (L & C & G & t & H).
    exists L, (n :: C), G, t. simpl in *. by rewrite <- app_assoc in H.
  - edestruct (IH s (mkCaptured (outputs_ w) (SetGauge (metrics_ w) n v) (ticks w))
      sent0 cnt0 (g0 ++ [(n, v)])) as (L & C & G & t & H).
    exists L, C, ((n, v) :: G), t. simpl in *. by rewrite <- app_assoc, meter_gauge in H.
  - destruct (g (hd 0 (ticks w)) s) as [b s'].
    edestruct (IH b s' (mkCaptured (outputs_ w) (metrics_ w) (tl (ticks w))) sent0 cnt0 g0)
      as (L & C & G & t & H).
    exists L, C, G, t. exact H.
Qed.

Definition sent_to (port : string) (l : list (string * Packet)) : list Packet :=
  map snd (List.filter (fun e => bool_decide (e.1 = port)) l).

Lemma collect_at c l m port :
  packets_at (collect c l m) port =
  packets_at m port ++ match FindOutput c port with Some _ => sent_to port l | None => [] end.
Proof.
  revert m. induction l as [|[q p] l IH]; intros m; simpl.
  - unfold sent_to. simpl. destruct (FindOutput c port); by rewrite app_nil_r.
  - rewrite IH. unfold sent_to. simpl. destruct (FindOutput c q) eqn:Eq.
    + unfold packets_at at 1. destruct (decide (q = port)) as [->|Hne].
      * rewrite lookup_insert_eq, Eq, bool_decide_eq_true_2 by done. simpl. by rewrite <- app_assoc.
      * rewrite lookup_insert_ne, bool_decide_eq_false_2 by done. done.
    + case_bool_decide as Hq; [|done]. subst. by rewrite Eq.
Qed.

(** ** Runs of the runner as runs of the node *)

Section runs.
Context {NS : Type} (cls : NodeClass NS).
Implicit Types r : TestRunner NS.

(** What the contexts that the runner makes depend on. *)
Definition frame r r' : Prop :=
  contract_ r' = contract_ r /\ forall ins, MakeContext ins r' = MakeContext ins r.

(** The runner called these methods of its node, in this order, and nothing
    else. *)
Definition runs r (ops : list NodeOp) r' : Prop :=
  frame r r' /\
  exists o o', node_ r = Some o /\ node_ r' = Some o' /\
    nrun (capture (contract_ r)) (node_ops cls ops) o (captured_ r) = (tt, o', captured_ r').

(** The node is closed or failed and nothing refers to the start any more. *)
Definition ended r : Prop :=
  (exists o, node_ r = Some o /\ closed_or_failed o) /\ cancelled_ r = true /\ start_context_ r = None.

Lemma runs_nil r r' : node_ r' = node_ r -> is_Some (node_ r) -> captured_ r' = captured_ r ->
  frame r r' -> runs r [] r'.
Proof. intros Hn [o Ho] Hc Hf. split; [done|]. exists o, o. rewrite Hn, Hc. done. Qed.

Lemma runs_app r ops1 r1 ops2 r2 : runs r ops1 r1 -> runs r1 ops2 r2 -> runs r (ops1 ++ ops2) r2.
Proof.
  intros [[Hc1 Hm1] (o & o1 & Ho & Ho1 & E1)] [[Hc2 Hm2] (o1' & o2 & Ho1' & Ho2 & E2)].
  simplify_eq. split.
  { split; [congruence|]. intros ins. by rewrite Hm2. }
  exists o, o2. split_and!; [done..|]. rewrite Hc1 in E2. revert Ho E1.
  generalize (captured_ r) as w. clear Hm1 Hm2 Hc1 Hc2. intros w _. revert o w.
  induction ops1 as [|op ops IH]; intros o w; simpl; [by intros [= -> ->]|].
  rewrite !nrun_bind. destruct (nrun _ (node_op cls op) o w) as [[[] o'] w']. apply IH.
Qed.

(** One call; [post] only touches the flags of the runner. *)
Lemma call_runs (m : NodeM (NodeObj NS) Status) op r0 r o a r1 r2 :
  (forall x, nrun (capture (contract_ r)) (node_op cls op) o x =
             let '(_, o', w') := nrun (capture (contract_ r)) m o x in (tt, o', w')) ->
  node_ r0 = Some o -> captured_ r0 = captured_ r -> frame r0 r ->
  call m o r = (a, r1) ->
  node_ r2 = node_ r1 -> captured_ r2 = captured_ r1 -> frame r1 r2 ->
  runs r0 [op] r2.
Proof.
  unfold call. intros Hop Hn Hw [Hc Hm] E Hn2 Hw2 [Hc2 Hm2].
  destruct (nrun (capture (contract_ r)) m o (captured_ r)) as [[a' o'] w'] eqn:En.
  injection E as <- <-. split.
  { split; [by rewrite Hc2|]. intros ins. rewrite Hm2, <- Hm. done. }
  exists o, o'. split_and!; [done|done|]. rewrite Hw2, Hw, <- Hc. simpl. rewrite nrun_bind, Hop, En. done.
Qed.
End runs.

Section specs.
Context {NS : Type} (cls : NodeClass NS).
Implicit Types r : TestRunner NS.

(** The state of a node after a method that succeeded. *)
Lemma transition_ok {W} (h : Handler W) (m : NodeM NS Status) st o w s o' w' :
  nrun h (nbind (lift m) (fun q => Transition q st)) o w = (s, o', w') ->
  ok s = true -> state_ o' = st.
Proof.
  rewrite nrun_bind, nrun_lift. destruct (nrun h m (self o) w) as [[q t] w1]. simpl.
  intros [= <- <- <-] Hok. simpl. by rewrite Hok.
Qed.

Lemma node_start_ok {W} (h : Handler W) c o w s o' w' :
  nrun h (Node.Start cls c) o w = (s, o', w') -> ok s = true -> state_ o' = kRunning.
Proof.
  unfold Node.Start. rewrite nrun_load. destruct (_ && _); [by intros [= <- <- <-]|].
  rewrite nrun_bind. apply transition_ok.
Qed.

Lemma node_process_ok {W} (h : Handler W) c o w s o' w' :
  nrun h (Node.Process cls c) o w = (s, o', w') -> ok s = true -> state_ o' = kRunning.
Proof.
  unfold Node.Process. rewrite nrun_load. destruct (negb _); [by intros [= <- <- <-]|].
  apply transition_ok.
Qed.

Lemma node_open_ok {W} (h : Handler W) o w s o' w' :
  nrun h (Node.Open cls) o w = (s, o', w') -> ok s = true -> state_ o' = kOpen.
Proof.
  unfold Node.Open. rewrite nrun_load. destruct (negb _); [by intros [= <- <- <-]|].
  apply transition_ok.
Qed.

Lemma node_configure_ok {W} (h : Handler W) opts o w s o' w' :
  nrun h (Node.Configure cls opts) o w = (s, o', w') -> ok s = true -> state_ o' = kConfigured.
Proof.
  unfold Node.Configure. rewrite nrun_load. destruct (negb _); [by intros [= <- <- <-]|].
  destruct (ok (ValidateOptions _ _)) eqn:E; simpl; [apply transition_ok|].
  intros [= <- <- <-]. by rewrite E.
Qed.

Lemma node_stop_running {W} (h : Handler W) o w s o' w' :
  state_ o = kRunning \/ state_ o = kStopped \/ state_ o = kError ->
  nrun h (Node.Stop cls) o w = (s, o', w') ->
  (state_ o' = kStopped \/ state_ o' = kError) /\ (ok s = true -> state_ o' = kStopped).
Proof.
  unfold Node.Stop. intros Hs. rewrite nrun_load. destruct (_ || _) eqn:Ec.
  - intros [= <- <- <-]. destruct Hs as [Hs|[Hs|Hs]]; rewrite Hs in Ec |- *; auto; done.
  - rewrite nrun_bind. destruct (nrun h (Node.RequestStop cls) o w) as [[[] o1] w1]. intros E.
    split; [|by eapply transition_ok].
    pose proof (nrun_transition h (OnStop cls) kStopped o1 w1) as Ht. by rewrite E in Ht.
Qed.

Lemma node_close_ok {W} (h : Handler W) o w s o' w' : at_rest o ->
  nrun h (Node.Close cls) o w = (s, o', w') ->
  closed_or_failed o' /\ (ok s = true -> state_ o' = kClosed).
Proof.
  intros Hr E. split.
  { pose proof (close_at_rest h cls o w Hr) as H. by rewrite E in H. }
  revert E. unfold Node.Close. rewrite nrun_load. case_bool_decide as Hc; [by intros [= <- <- <-]|].
  rewrite bool_decide_eq_false_2 by done. apply transition_ok.
Qed.

(** A call through the runner, as a run of one method. *)
Definition method (op : NodeOp) : NodeM (NodeObj NS) Status :=
  match op with
  | OpConfigure o => Node.Configure cls o
  | OpOpen => Node.Open cls
  | OpStart c => Node.Start cls c
  | OpProcess c => Node.Process cls c
  | OpRequestStop => Node.RequestStop cls;;; NRet Ok
  | OpStop => Node.Stop cls
  | OpClose => Node.Close cls
  end.

Lemma node_op_method {W} (h : Handler W) op o w :
  nrun h (node_op cls op) o w =
  let '(_, o', w') := nrun h (method op) o w in (tt, o', w').
Proof.
  destruct op; cbn [node_op method]; rewrite nrun_bind; try by destruct (nrun h _ o w) as [[? ?] ?].
  by destruct (nrun h (Node.RequestStop cls) o w) as [[[] ?] ?].
Qed.

Lemma frame_refl r : frame r r.
Proof. done. Qed.

Lemma on_node_runs op r0 r o a r1 r2 :
  node_ r0 = Some o -> node_ r = Some o -> captured_ r0 = captured_ r -> frame r0 r ->
  on_node Ok (method op) r = (a, r1) ->
  node_ r2 = node_ r1 -> captured_ r2 = captured_ r1 -> frame r1 r2 ->
  runs cls r0 [op] r2.
Proof.
  unfold on_node. intros H0 Hn Hw Hf E. rewrite Hn in E.
  eapply call_runs; eauto. intros x. apply node_op_method.
Qed.

(** What a call leaves in the runner. *)
Lemma on_node_fields op r o a r1 : node_ r = Some o -> on_node Ok (method op) r = (a, r1) ->
  inputs_ r1 = inputs_ r /\ cancelled_ r1 = cancelled_ r /\ start_context_ r1 = start_context_ r /\
  exists o', node_ r1 = Some o' /\
    nrun (capture (contract_ r)) (method op) o (captured_ r) = (a, o', captured_ r1).
Proof.
  unfold on_node, call. intros ->.
  destruct (nrun _ (method op) o _) as [[a' o'] w'] eqn:E. intros [= <- <-]. simpl. eauto 8.
Qed.

Lemma cleanup_spec st r o st' r' : node_ r = Some o ->
  CleanupAfterFailure cls st r = (st', r') ->
  st' = st /\ ended r' /\ runs cls r [OpStop; OpClose] r'.
Proof.
  unfold CleanupAfterFailure. intros Hn.
  destruct (on_node Ok (Node.Stop cls) (Cancel r)) as [s1 r1] eqn:E1.
  destruct (on_node Ok (Node.Close cls) r1) as [s2 r2] eqn:E2. intros [= <- <-].
  destruct (on_node_fields OpStop (Cancel r) o s1 r1 Hn E1) as (_ & Hc1 & _ & o1 & Hn1 & N1).
  destruct (on_node_fields OpClose r1 o1 s2 r2 Hn1 E2) as (_ & Hc2 & _ & o2 & Hn2 & N2).
  split; [done|]. split.
  - unfold ended. simpl in *. split_and!; [|congruence|done]. exists o2. split; [done|].
    refine (proj1 (node_close_ok _ o1 _ _ _ _ _ N2)).
    pose proof (stop_at_rest (capture (contract_ (Cancel r))) cls o (captured_ (Cancel r))) as Hr.
    simpl in N1, Hr. by rewrite N1 in Hr.
  - apply (runs_app cls r [OpStop] r1 [OpClose]).
    + by eapply (on_node_runs OpStop r (Cancel r)).
    + by eapply (on_node_runs OpClose r1 r1).
Qed.

Lemma cleanup_inputs st r st' r' : CleanupAfterFailure cls st r = (st', r') -> inputs_ r' = inputs_ r.
Proof.
  unfold CleanupAfterFailure, on_node, call, with_context, with_node, Cancel, with_cancelled.
  intros E. repeat (case_match; simplify_eq/=); done.
Qed.

(** What [Start] and its tails promise: [pre] is what runs before the [Start] of
    the node. *)
Definition started (pre : list NodeOp) r (st : Status) r' : Prop :=
  if ok st then
    runs cls r (pre ++ [OpStart (MakeContext ∅ r)]) r' /\ runner_state r' = kRunning /\
    inputs_ r' = inputs_ r
  else ended r' /\ exists ops, runs cls r ops r'.

Lemma start_node_spec r o st r' : node_ r = Some o ->
  start_node cls r = (st, r') -> started [] r st r'.
Proof.
  unfold start_node, started. intros Hn.
  set (r0 := with_context _ _). set (c := MakeContext ∅ _).
  destruct (on_node Ok (Node.Start cls c) r0) as [s1 r1] eqn:E1.
  destruct (on_node_fields (OpStart c) r0 o s1 r1 Hn E1) as (Hi & _ & _ & o1 & Hn1 & N1).
  assert (runs cls r [OpStart c] r1) by (by eapply (on_node_runs (OpStart c) r r0)).
  destruct (ok s1) eqn:Eok.
  - intros [= <- <-]. rewrite Eok. split_and!; [done| |done].
    unfold runner_state. rewrite Hn1. by eapply node_start_ok.
  - intros E. destruct (cleanup_spec s1 r1 o1 st r' Hn1 E) as (-> & Hend & Hruns).
    rewrite Eok. split; [done|]. eexists. by eapply runs_app.
Qed.

(** A method that precedes the rest of [Start]. *)
Lemma started_step op pre r o s1 r1 st r' k :
  node_ r = Some o -> on_node Ok (method op) r = (s1, r1) ->
  (forall o1, node_ r1 = Some o1 -> ok s1 = true -> k r1 = (st, r') -> started pre r1 st r') ->
  (if ok s1 then k r1 else CleanupAfterFailure cls s1 r1) = (st, r') ->
  started (op :: pre) r st r'.
Proof.
  intros Hn E1 Hk E.
  destruct (on_node_fields op r o s1 r1 Hn E1) as (Hi & _ & _ & o1 & Hn1 & N1).
  assert (runs cls r [op] r1) as Hr by (by eapply (on_node_runs op r r)).
  destruct (ok s1) eqn:Eok.
  - specialize (Hk o1 Hn1 eq_refl E). unfold started in *. destruct (ok st).
    + destruct Hk as (Hrun & Hst & Hin). split_and!; [|done|congruence].
      destruct Hr as [[Hc Hm] Hr]. rewrite <- Hm.
      apply (runs_app cls r [op] r1); [by split|done].
    + destruct Hk as (Hend & ops & Hrun). split; [done|]. eexists. by eapply runs_app.
  - destruct (cleanup_spec s1 r1 o1 st r' Hn1 E) as (-> & Hend & Hruns). unfold started.
    rewrite Eok. split; [done|]. eexists. by eapply runs_app.
Qed.

(** The methods [Start] calls before the [Start] of the node. *)
Definition opening (st : NodeState) : list NodeOp :=
  match st with
  | kCreated => [OpConfigure ∅; OpOpen] | kConfigured => [OpOpen] | _ => [] end.

Lemma open_node_spec r o st r' : node_ r = Some o -> state_ o <> kCreated ->
  open_node cls r = (st, r') -> started (opening (state_ o)) r st r'.
Proof.
  unfold open_node, runner_state. intros Hn Hne. rewrite Hn. case_bool_decide as Hs.
  - rewrite Hs. destruct (on_node Ok (Node.Open cls) r) as [s1 r1] eqn:E1.
    eapply (started_step OpOpen []); [done|exact E1|]. intros o1 H1 _. by apply start_node_spec with o1.
  - replace (opening (state_ o)) with (@nil NodeOp) by (by destruct (state_ o)).
    by eapply start_node_spec.
Qed.

Lemma start_spec r o st r' : node_ r = Some o ->
  Start cls r = (st, r') -> started (opening (state_ o)) r st r'.
Proof.
  unfold Start, runner_state, Configure. intros Hn. rewrite Hn. case_bool_decide as Hs.
  - rewrite Hs. simpl. destruct (call (Node.Configure cls ∅) o r) as [s1 r1] eqn:E1.
    assert (on_node Ok (Node.Configure cls ∅) r = (s1, r1)) as E1'.
    { unfold on_node. by rewrite Hn. }
    eapply (started_step (OpConfigure ∅) [OpOpen]); [done|exact E1'|]. intros o1 H1 Hok E.
    destruct (on_node_fields (OpConfigure ∅) r o s1 r1 Hn E1') as (_ & _ & _ & o1' & Hn1 & N1).
    simplify_eq. pose proof (node_configure_ok _ _ _ _ _ _ _ N1 Hok) as Hconf.
    apply (open_node_spec r1 o1) in E; [|done|by rewrite Hconf]. by rewrite Hconf in E.
  - by apply open_node_spec.
Qed.

Lemma missing_input_none c ins p : missing_input c ins = None -> p ∈ inputs c ->
  port_required p = true -> is_Some (ins !! port_name p).
Proof.
  intros Hm Hp Hr. rewrite list_elem_of_In in Hp.
  pose proof (List.find_none _ _ Hm p Hp) as Hf. simpl in Hf. rewrite Hr in Hf.
  apply bool_decide_eq_false in Hf. by apply not_eq_None_Some.
Qed.

(** [Process] of a running node: refused for want of an input with everything as
    before, or the node has processed the inputs, or it is ended. *)
Lemma process_spec r o st r' : node_ r = Some o -> state_ o = kRunning ->
  Process cls r = (st, r') ->
  match missing_input (contract_ r) (inputs_ r) with
  | Some p => st = Invalid ("missing required input: " +:+ port_name p) /\ r' = r
  | None => inputs_ r' = ∅ /\
      if ok st then runs cls r [OpProcess (MakeContext (inputs_ r) r)] r' /\
                    runner_state r' = kRunning
      else ended r' /\ exists ops, runs cls r ops r'
  end.
Proof.
  unfold Process. intros Hn Hs. rewrite Hn, Hs. simpl.
  destruct (missing_input (contract_ r) (inputs_ r)) as [p|].
  { intros [= <- <-]. split; [done|]. by destruct r. }
  set (c := MakeContext _ _). set (r0 := with_inputs ∅ r).
  destruct (call (Node.Process cls c) o r0) as [s1 r1] eqn:E1.
  assert (on_node Ok (Node.Process cls c) r0 = (s1, r1)) as E1'.
  { unfold on_node, r0. simpl. rewrite Hn. exact E1. }
  destruct (on_node_fields (OpProcess c) r0 o s1 r1 Hn E1') as (Hi & _ & _ & o1 & Hn1 & N1).
  assert (runs cls r [OpProcess c] r1) as Hr by (by eapply (on_node_runs (OpProcess c) r r0)).
  destruct (ok s1) eqn:Eok.
  - intros [= <- <-]. rewrite Eok. split_and!; [done..|].
    unfold runner_state. rewrite Hn1. by eapply node_process_ok.
  - intros E. pose proof (cleanup_inputs s1 r1 st r' E) as Hci.
    destruct (cleanup_spec s1 r1 o1 st r' Hn1 E) as (-> & Hend & Hruns). rewrite Eok.
    split; [by rewrite Hci|]. split; [done|]. eexists. by eapply runs_app.
Qed.

(** The states in which [Stop] leaves a node that was started once. *)
Definition halted r : Prop :=
  exists o, node_ r = Some o /\ (state_ o = kStopped \/ closed_or_failed o).

Lemma stop_spec r o st r' : node_ r = Some o -> Stop cls r = (st, r') ->
  (state_ o = kRunning -> halted r' /\ cancelled_ r' = true /\ start_context_ r' = None /\
    inputs_ r' = inputs_ r /\ runs cls r [OpStop] r' /\
    (ok st = true -> runner_state r' = kStopped)) /\
  (ended r -> halted r' /\ cancelled_ r' = true /\ start_context_ r' = None /\
    exists ops, runs cls r ops r').
Proof.
  unfold Stop. intros Hn. rewrite Hn.
  assert (forall st1 r1, on_node Ok (method OpStop) (Cancel r) = (st1, r1) ->
    state_ o = kRunning \/ state_ o = kError ->
    halted r1 /\ cancelled_ r1 = true /\ inputs_ r1 = inputs_ r /\
    runs cls r [OpStop] (with_context None r1) /\
    (ok st1 = true -> runner_state r1 = kStopped)) as Hcall.
  { intros st1 r1 E Hs. unfold halted, runner_state.
    destruct (on_node_fields OpStop (Cancel r) o st1 r1 Hn E) as (Hi & Hc & _ & o1 & Hn1 & N1).
    destruct (node_stop_running _ o _ _ _ _ ltac:(tauto) N1) as [Ho Hok]. rewrite Hn1.
    split_and!; [|done|done| |done].
    - exists o1. split; [done|]. unfold closed_or_failed. tauto.
    - by eapply (on_node_runs OpStop r (Cancel r)). }
  unfold on_node in Hcall. simpl in Hcall. rewrite Hn in Hcall.
  intros E. split.
  - intros Hs. rewrite Hs in E. destruct (call (Node.Stop cls) o (Cancel r)) as [s1 r1] eqn:E1.
    injection E as <- <-. destruct (Hcall s1 r1 eq_refl) as (? & ? & ? & ? & ?);
      [by left|by split_and!].
  - intros [(o' & Hn' & [Hc|He]) (Hcan & Hctx)]; simplify_eq.
    + rewrite Hc in E. injection E as <- <-. split_and!; [|done|done|].
      * exists o. unfold closed_or_failed. auto.
      * exists []. by apply runs_nil.
    + rewrite He in E. destruct (call (Node.Stop cls) o (Cancel r)) as [s1 r1] eqn:E1.
      injection E as <- <-. destruct (Hcall s1 r1 eq_refl) as (? & ? & ? & ? & ?);
      [by right|]. split_and!; [done..|by eexists].
Qed.

Lemma close_spec r st r' : halted r -> cancelled_ r = true -> start_context_ r = None ->
  Close cls r = (st, r') ->
  ended r' /\ inputs_ r' = inputs_ r /\ (ok st = true -> runner_state r' = kClosed) /\
  (exists ops, runs cls r ops r') /\ (runner_state r = kStopped -> runs cls r [OpClose] r').
Proof.
  intros (o & Hn & Hs) Hc Hx. unfold Close, close_node, runner_state. rewrite Hn.
  assert (state_ o <> kRunning /\ state_ o <> kCreated) as [H1 H2].
  { unfold closed_or_failed in Hs. destruct (state_ o); naive_solver. }
  rewrite !bool_decide_eq_false_2 by done. simpl. case_bool_decide as Hcl.
  - intros [= <- <-]. rewrite Hn. split_and!; [|done|done| |by rewrite Hcl].
    + split; [|done]. exists o. split; [done|by left].
    + exists []. by apply runs_nil.
  - destruct (on_node Ok (Node.Close cls) r) as [s1 r1] eqn:E1. intros [= <- <-].
    destruct (on_node_fields OpClose r o s1 r1 Hn E1) as (Hi & Hc1 & _ & o1 & Hn1 & N1).
    destruct (node_close_ok _ o _ _ _ _ H1 N1) as [Ho Hok].
    assert (runs cls r [OpClose] (with_context None r1)) by (by eapply (on_node_runs OpClose r r)).
    simpl. rewrite Hn1. split_and!; [|done|done|by eexists|done].
    split; [|by rewrite <- Hc]. by exists o1.
Qed.

Lemma running_node r : runner_state r = kRunning ->
  exists o, node_ r = Some o /\ state_ o = kRunning.
Proof. unfold runner_state. destruct (node_ r) as [o|]; [eauto|done]. Qed.

(** [Start] and then [Process]. *)
Lemma start_process_spec r o s0 r0 st r1 : node_ r = Some o -> Start cls r = (s0, r0) ->
  (if ok s0 then Process cls r0 else (s0, r0)) = (st, r1) ->
  if ok st then
    runner_state r1 = kRunning /\ inputs_ r1 = ∅ /\ missing_input (contract_ r) (inputs_ r) = None /\
    runs cls r (opening (state_ o) ++
                [OpStart (MakeContext ∅ r); OpProcess (MakeContext (inputs_ r) r)]) r1
  else (runner_state r1 = kRunning \/ ended r1) /\ exists ops, runs cls r ops r1.
Proof.
  intros Hn E0. pose proof (start_spec r o s0 r0 Hn E0) as H0. unfold started in H0.
  destruct (ok s0) eqn:Eok0.
  - destruct H0 as (Hr0 & Hs0 & Hi0). pose proof Hr0 as [[Hc Hm] _].
    destruct (running_node r0 Hs0) as (o0 & Hn0 & Hst0). intros E1.
    pose proof (process_spec r0 o0 st r1 Hn0 Hst0 E1) as H1. rewrite Hc, Hi0, Hm in H1.
    destruct (missing_input (contract_ r) (inputs_ r)) as [p|].
    + destruct H1 as [-> ->]. simpl. eauto.
    + destruct H1 as [Hi1 H1]. destruct (ok st).
      * destruct H1 as [Hr1 Hs1]. split_and!; [done..|].
        pose proof (runs_app cls r _ r0 _ r1 Hr0 Hr1) as Hr. by rewrite <- app_assoc in Hr.
      * destruct H1 as (Hend & ops & Hr1). split; [by right|]. eexists. by eapply runs_app.
  - intros [= <- <-]. rewrite Eok0. destruct H0 as [? ?]. auto.
Qed.

(** [Stop] and then [Close]. *)
Lemma stop_close_spec r1 s2 r2 s3 r3 : runner_state r1 = kRunning \/ ended r1 ->
  Stop cls r1 = (s2, r2) -> Close cls r2 = (s3, r3) ->
  ended r3 /\ exists ops, runs cls r1 ops r3 /\
    (runner_state r1 = kRunning -> ok s2 = true ->
     ops = [OpStop; OpClose] /\ inputs_ r3 = inputs_ r1 /\
     (ok s3 = true -> runner_state r3 = kClosed)).
Proof.
  intros Hs E2 E3. assert (exists o1, node_ r1 = Some o1) as [o1 Hn1].
  { destruct Hs as [(? & ? & _)%running_node|((? & ? & _) & _)]; eauto. }
  destruct (stop_spec r1 o1 s2 r2 Hn1 E2) as [Hrun Hend]. destruct Hs as [Hs|Hs].
  - apply running_node in Hs as (? & ? & Hs). simplify_eq.
    destruct (Hrun Hs) as (Hh & Hc & Hx & Hi & Hr & Hok).
    destruct (close_spec r2 s3 r3 Hh Hc Hx E3) as (He & Hi3 & Hok3 & [ops3 Hr3] & Hcl).
    split; [done|]. destruct (ok s2) eqn:Eok.
    + exists [OpStop; OpClose]. split; [|intros _ _; split_and!; [done|congruence|done]].
      apply (runs_app cls r1 [OpStop] r2); auto.
    + eexists. split; [by eapply runs_app|done].
  - destruct (Hend Hs) as (Hh & Hc & Hx & ops2 & Hr).
    destruct (close_spec r2 s3 r3 Hh Hc Hx E3) as (He & Hi3 & Hok3 & [ops3 Hr3] & Hcl).
    split; [done|]. eexists. split; [by eapply runs_app|].
    intros (? & Hn & Hst)%running_node. destruct Hs as [(? & ? & [?|?]) _]; simplify_eq; congruence.
Qed.

(** The status of a round is ok when each of its parts is. *)
Lemma first_failure (a b c : Status) :
  ok (if negb (ok a) then a else if negb (ok b) then b else c) = true ->
  ok a = true /\ ok b = true /\ ok c = true.
Proof. destruct (ok a) eqn:Ea; simpl; [|congruence]. destruct (ok b) eqn:Eb; simpl; [done|congruence]. Qed.

Lemma runs_outputs r ops r' : runs cls r ops r' ->
  exists o replies, node_ r = Some o /\
    let ob := (nrun outbox (node_ops cls ops) o
                 (mkOutbox [] replies [] [] (ticks (captured_ r)))).2 in
    replies = map (answer (contract_ r)) (sent ob) /\
    forall port, Outputs port r' = Outputs port r ++
      match FindOutput (contract_ r) port with Some _ => sent_to port (sent ob) | None => [] end.
Proof.
  intros [_ (o & o' & Hn & Hn' & E)].
  destruct (capture_simulates (contract_ r) (node_ops cls ops) o (captured_ r) [] [] [])
    as (L & C & G & k & H).
  exists o, (map (answer (contract_ r)) L). split; [done|]. simpl.
  destruct (nrun outbox _ _ _) as [[[] o1] ob]. destruct H as [-> H]. simpl. split; [done|].
  rewrite E in H. injection H as -> Hw. intros port. unfold Outputs. rewrite Hw. simpl. apply collect_at.
Qed.
End specs.

(** C36: One round of the test runner on any node, in whatever state, ends with the node
    closed or failed, the runner cancelled and no start context left, on every path of errors.
    Whatever happens the runner only calls methods of the node, and its outputs grow by exactly
    what those calls sent to ports of the contract, per port and in order, while a packet to
    any other port is answered with an error.  When the round succeeds the calls were:
    configure and open where still needed, start, process with the inputs that were set, stop
    and close; the node is closed, every required input was there and all of them are
    consumed. *)
Theorem run_once_spec {NS} (cls : NodeClass NS) (r : TestRunner NS) o : node_ r = Some o ->
  let '(status, r') := RunOnce cls r in
  (exists o', node_ r' = Some o' /\ closed_or_failed o') /\
  cancelled_ r' = true /\ start_context_ r' = None /\
  (exists ops replies, runs cls r ops r' /\
    let ob := (nrun outbox (node_ops cls ops) o
                 (mkOutbox [] replies [] [] (ticks (captured_ r)))).2 in
    replies = map (answer (contract_ r)) (sent ob) /\
    (forall port, Outputs port r' = Outputs port r ++
      match FindOutput (contract_ r) port with Some _ => sent_to port (sent ob) | None => [] end) /\
    (ok status = true ->
     ops = opening (state_ o) ++ [OpStart (MakeContext ∅ r);
                                  OpProcess (MakeContext (inputs_ r) r); OpStop; OpClose])) /\
  (ok status = true ->
   runner_state r' = kClosed /\ inputs_ r' = ∅ /\
   forall p, p ∈ inputs (contract_ r) -> port_required p = true ->
             is_Some (inputs_ r !! port_name p)).
Proof.
  intros Hn. unfold RunOnce. destruct (Start cls r) as [s0 r0] eqn:E0.
  destruct (if ok s0 then Process cls r0 else (s0, r0)) as [st r1] eqn:E1.
  destruct (Stop cls r1) as [s2 r2] eqn:E2. destruct (Close cls r2) as [s3 r3] eqn:E3.
  pose proof (start_process_spec cls r o s0 r0 st r1 Hn E0 E1) as H1.
  assert (runner_state r1 = kRunning \/ ended r1) as Hs1 by (destruct (ok st); tauto).
  destruct (stop_close_spec cls r1 s2 r2 s3 r3 Hs1 E2 E3) as ((Ho & Hc & Hx) & ops2 & Hr2 & Hok2).
  split_and!; [done..| |].
  - assert (exists ops1, runs cls r ops1 r1 /\ (ok st = true ->
      runner_state r1 = kRunning /\ ops1 = opening (state_ o) ++
        [OpStart (MakeContext ∅ r); OpProcess (MakeContext (inputs_ r) r)])) as (ops1 & Hr1 & Hops1).
    { destruct (ok st); [|naive_solver]. eexists. split; [apply H1|]. split; [apply H1|done]. }
    pose proof (runs_app cls r _ r1 _ r3 Hr1 Hr2) as Hall.
    destruct (runs_outputs cls r _ r3 Hall) as (? & replies & ? & Hrep & Hout). simplify_eq.
    exists (ops1 ++ ops2), replies. split_and!; [exact Hall|exact Hrep|exact Hout|].
    intros (Eok & Eok2 & _)%first_failure. destruct (Hops1 Eok) as [Hrun ->].
    destruct (Hok2 Hrun Eok2) as [-> _]. by rewrite <- app_assoc.
  - intros (Eok & Eok2 & Eok3)%first_failure. rewrite Eok in H1.
    destruct H1 as (Hrun & Hi1 & Hmiss & _). destruct (Hok2 Hrun Eok2) as (_ & Hi3 & Hcl).
    split_and!; [by apply Hcl|congruence|]. intros p. by apply missing_input_none.
Qed.

(** A passthrough node with one packet. *)
Definition demo_runner : TestRunner unit :=
  (SetInput "in" (Make (PlOther "int" 7) (mkTs 7))
     (NewTestRunner PassthroughNode (Some (new_node tt)) "node_under_test" "test" [])).2.

Lemma run_once_spec_witness :
  let '(status, r') := RunOnce PassthroughNode demo_runner in
  status = Ok /\ Outputs "out" r' = [Make (PlOther "int" 7) (mkTs 7)] /\
  runner_state r' = kClosed /\ inputs_ r' = ∅.
Proof.
  pose proof (run_once_spec PassthroughNode demo_runner (new_node tt) eq_refl) as H.
  destruct (RunOnce PassthroughNode demo_runner) as [status r'] eqn:E.
  assert (status = (RunOnce PassthroughNode demo_runner).1 /\
          r' = (RunOnce PassthroughNode demo_runner).2) as [-> ->] by (rewrite E; split; reflexivity).
  destruct H as (_ & _ & _ & _ & Hok). destruct (Hok ltac:(vm_compute; reflexivity)) as (Hs & Hi & _).
  split_and!; [vm_compute; reflexivity|vm_compute; reflexivity|exact Hs|exact Hi].
Defined.

(** ** Misuse and waiting *)

(** Starting a running node again is refused, and the refusal ends the node. *)
Lemma restart_ends {NS} (cls : NodeClass NS) r o : node_ r = Some o -> state_ o = kRunning ->
  let '(status, r') := Start cls r in
  status = FailedPrecondition "Start requires open or stopped state" /\ ended r'.
Proof.
  intros Hn Hs. destruct (Start cls r) as [st r'] eqn:E. revert E.
  unfold Start, open_node, runner_state. rewrite Hn, Hs. simpl.
  unfold start_node, on_node. simpl. rewrite Hn. unfold call, Node.Start. rewrite nrun_load, Hs. simpl.
  intros E. eapply cleanup_spec in E as (-> & Hend & _); [by split|reflexivity].
Qed.

(** An output wait succeeds only in a state with enough packets, and times out only
    if no state it looked at had enough and none was cancelled. *)
Lemma wait_for_output_spec {NS} port count timeout (r : TestRunner NS) wakes :
  0 <= timeout -> is_Some (FindOutput (contract_ r) port) ->
  (WaitForOutput port count timeout r wakes = Ok ->
   exists r', r' ∈ r :: wakes /\ cancelled_ r' = false /\
     is_Some (outputs_ (captured_ r') !! port) /\ (count <= length (Outputs port r'))%nat) /\
  (code (WaitForOutput port count timeout r wakes) = kUnavailable <->
   Forall (fun r' => output_ready port count r' = false) (r :: wakes)).
Proof.
  intros Ht [q Hq]. unfold WaitForOutput. rewrite Hq.
  replace (timeout <? 0) with false by lia. clear Hq.
  revert r. induction wakes as [|r1 ws IH]; intros r; simpl;
    (destruct (output_ready port count r) eqn:Er;
      [split;
        [destruct (cancelled_ r) eqn:Ec; [done|]; intros _; exists r; split; [by left|];
         unfold output_ready in Er; rewrite Ec in Er; simpl in Er; unfold Outputs, packets_at;
         destruct (outputs_ (captured_ r) !! port); [|done]; apply Nat.leb_le in Er; eauto
        |destruct (cancelled_ r); (split; [done|]); intros Hf; inversion Hf; congruence]|]).
  - split; [done|]. split; [|done]. intros _. by repeat constructor.
  - destruct (IH r1) as [IH1 IH2]. split.
    + intros H. destruct (IH1 H) as (r' & Hin & ?). exists r'. split; [by right|done].
    + rewrite IH2, (Forall_cons _ r). tauto.
Qed.

Lemma close_node_at_rest {NS} (cls : NodeClass NS) r : runner_state r <> kRunning ->
  runner_state (close_node cls r).2 <> kRunning.
Proof.
  unfold close_node. intros Hr. destruct (_ || _); [done|].
  destruct (on_node Ok (Node.Close cls) r) as [s1 r1] eqn:E. simpl. revert Hr E.
  unfold runner_state at 1. destruct (node_ r) as [o|] eqn:Hn.
  - intros Hr E. destruct (on_node_fields cls OpClose r o s1 r1 Hn E) as (_ & _ & _ & o1 & Hn1 & N1).
    destruct (node_close_ok cls _ o _ _ _ _ Hr N1) as [[Ho|Ho] _];
      unfold runner_state; simpl; by rewrite Hn1, Ho.
  - unfold on_node. rewrite Hn. intros _ [= <- <-]. unfold runner_state. simpl. by rewrite Hn.
Qed.

(** No node outlives its runner while running, even if its [OnStop] fails. *)
Lemma destroy_at_rest {NS} (cls : NodeClass NS) r : runner_state (destroy cls r) <> kRunning.
Proof.
  unfold destroy, Close. destruct (node_ (Cancel r)) as [o|] eqn:Hn.
  - case_bool_decide as Hs.
    + destruct (Stop cls (Cancel r)) as [s1 r1] eqn:E.
      destruct (stop_spec cls (Cancel r) o s1 r1 Hn E) as [Hrun _].
      destruct (Hrun Hs) as ((o1 & Hn1 & Ho) & _).
      assert (runner_state r1 <> kRunning) as H.
      { unfold runner_state, closed_or_failed in *. rewrite Hn1. intros H. naive_solver congruence. }
      destruct (ok s1); [by apply close_node_at_rest|done].
    + apply close_node_at_rest. unfold runner_state. by rewrite Hn.
  - unfold runner_state. simpl in *. by rewrite Hn.
Qed.
