(* ===== verification/GraphConfig.v ===== *)
(** * Graph configurations and their loader

    [include/rkavp/graph_config.hpp], [src/core/graph_config.cpp].

    The YAML library, the environment and the file system are parameters:
    [YamlCpp] is the part of the yaml-cpp node interface the loader uses,
    [Host] is the process environment, the path operations and what the files
    contain.  A conversion or a subscript may throw a [YAML::Exception]; the
    loader's functions therefore end in a value, in a status, or in an
    exception that travels to [LoadFile] or [LoadString].

    The inclusion of subgraph files is recursive; the recursion runs on fuel
    and [load_terminates] shows that the [loading] set keeps it within the
    number of files. *)

From S2P Require Import Prelude Text Status Values BoundedQueue Contract Node.
From Stdlib Require Import SpecFloat Ascii.
From stdpp Require Import pretty.
Local Open Scope Z_scope.
Local Open Scope rkavp_scope.

(** ** Configuration records *)

(* [include/rkavp/graph_config.hpp:15-18] QueueConfig *)
Record QueueConfig := mkQueueConfig { qc_capacity : nat; qc_policy : QueuePolicy }.

(* [include/rkavp/graph_config.hpp:20-25] FlowControlConfig *)
Record FlowControlConfig := mkFlowControl {
  input_queue : QueueConfig;
  edge_queue : QueueConfig;
  observer_queue : QueueConfig;
  observe_timestamp_bounds : bool }.
Definition default_flow_control : FlowControlConfig :=
  mkFlowControl (mkQueueConfig 8 kBlock) (mkQueueConfig 2 kDropOldest)
                (mkQueueConfig 64 kDropOldest) false.

(* [include/rkavp/graph_config.hpp:27-32] ExecutorConfig *)
Record ExecutorConfig := mkExecutor {
  ex_name : string;
  ex_threads : nat;
  ex_queue_capacity : nat;
  ex_priority : Z }.
Definition default_executor : ExecutorConfig := mkExecutor "default" 1 256 0.

(* [include/rkavp/graph_config.hpp:34-42] NodeConfig *)
Record NodeConfig := mkNodeConfig {
  nc_id : string;
  nc_type : string;
  nc_executor : string;
  nc_options : NodeOptions;
  nc_has_input_policy : bool;
  nc_input_policy : InputPolicy;
  nc_trigger_port : string }.

(* [include/rkavp/graph_config.hpp:44-52] EdgeConfig *)
Record EdgeConfig := mkEdge {
  from_node : string;
  from_port : string;
  to_node : string;
  to_port : string;
  e_queue : QueueConfig;
  back_edge : bool;
  initial_packet : ConfigValue }.

(* [include/rkavp/graph_config.hpp:54-59] GraphPortConfig *)
Record GraphPortConfig := mkGraphPort {
  gp_name : string;
  gp_node : string;
  gp_port : string;
  gp_queue : QueueConfig }.

(* [include/rkavp/graph_config.hpp:61-66] SourceSlotConfig *)
Record SourceSlotConfig := mkSlot {
  slot_name : string;
  input_stream : string;
  subgraph_template : string;
  output_stream : string }.

(* [include/rkavp/graph_config.hpp:68-79] GraphConfig *)
Record GraphConfig := mkGraphConfig {
  version : Z;
  gname : string;
  executors : list ExecutorConfig;
  nodes : list NodeConfig;
  edges : list EdgeConfig;
  ginputs : list GraphPortConfig;
  goutputs : list GraphPortConfig;
  source_slots : list SourceSlotConfig;
  gside_packets : gmap string ConfigValue;
  flow_control : FlowControlConfig }.
Definition empty_config : GraphConfig :=
  mkGraphConfig 1 "" [default_executor] [] [] [] [] [] ∅ default_flow_control.

(** ** YAML *)

(** The node kinds of yaml-cpp; an absent node is [YUndefined]. *)
Inductive Yaml :=
| YUndefined
| YNull
| YScalar (s : string)
| YSeq (l : list Yaml)
| YMap (m : list (Yaml * Yaml)).

Definition is_map (y : Yaml) : bool := match y with YMap _ => true | _ => false end.
Definition is_sequence (y : Yaml) : bool := match y with YSeq _ => true | _ => false end.
Definition is_scalar (y : Yaml) : bool := match y with YScalar _ => true | _ => false end.
(** The conversion to [bool]. *)
Definition defined (y : Yaml) : bool := match y with YUndefined => false | _ => true end.
(** The entries a range-[for] visits. *)
Definition seq_items (y : Yaml) : list Yaml := match y with YSeq l => l | _ => [] end.
Definition map_items (y : Yaml) : list (Yaml * Yaml) := match y with YMap m => m | _ => [] end.

(** Outcomes: a value, an error status, an exception with its [what()], or no
    fuel left. *)
Inductive Parse (A : Type) :=
| PVal (a : A)
| PErr (s : Status)
| PThrow (what : string)
| PFuel.
Arguments PVal {A} _.
Arguments PErr {A} _.
Arguments PThrow {A} _.
Arguments PFuel {A}.

Definition pbind {A B} (m : Parse A) (f : A -> Parse B) : Parse B :=
  match m with
  | PVal a => f a
  | PErr s => PErr s
  | PThrow w => PThrow w
  | PFuel => PFuel
  end.
Notation "x <-! m ; k" := (pbind m (fun x => k))
  (at level 100, m at next level, right associativity) : rkavp_scope.
Notation "'demand' b 'else' s ; k" := (if b then k else PErr s)
  (at level 100, b at next level, s at next level, right associativity) : rkavp_scope.

(** A [for] loop that returns at the first error. *)
Fixpoint pfold {A B} (f : B -> A -> Parse B) (l : list A) (b : B) : Parse B :=
  match l with
  | [] => PVal b
  | a :: l' => b' <-! f b a; pfold f l' b'
  end.

Lemma pbind_PVal {A B} (m : Parse A) (f : A -> Parse B) b :
  pbind m f = PVal b <-> exists a, m = PVal a /\ f a = PVal b.
Proof. destruct m; naive_solver. Qed.

Lemma pfold_ind {A B} (f : B -> A -> Parse B) (P : B -> Prop) l b b' :
  (forall x y y', x ∈ l -> P y -> f y x = PVal y' -> P y') ->
  P b -> pfold f l b = PVal b' -> P b'.
Proof.
  revert b. induction l as [|a l IH]; intros b Hf Hb; simpl.
  - by intros [= ->].
  - rewrite pbind_PVal. intros (y & Hy & Hl).
    eapply IH; [|eapply Hf; [| |exact Hy]|exact Hl]; try set_solver.
Qed.

Lemma pfold_fuel {A B} (f : B -> A -> Parse B) l b :
  (forall x y, x ∈ l -> f y x <> PFuel) -> pfold f l b <> PFuel.
Proof.
  revert b. induction l as [|a l IH]; intros b Hf; simpl; [done|].
  destruct (f b a) eqn:E; simpl; try done.
  - apply IH. set_solver.
  - exfalso. by apply (Hf a b); [set_solver|].
Qed.

(** What the loader uses of yaml-cpp; [inl] is the text of an exception. *)
Class YamlCpp := {
  subscript : Yaml -> string -> string + Yaml;
  as_string_of : Yaml -> string + string;
  as_size_of : Yaml -> string + nat;
  as_int_of : Yaml -> string + Z;
  as_bool_of : Yaml -> string + bool }.

(** The process around the loader. *)
Class Host := {
  getenv : string -> option string;
  stod : string -> option spec_float;
  path_join : string -> string -> string;
  parent_path : string -> string;
  weakly_canonical : string -> string;
  lexically_normal : string -> string;
  current_path : string;
  parse_yaml : string -> string + Yaml;
  bad_file : string -> string;
  (** The files that can be read, with what parsing them gives. *)
  files : gmap string (string + Yaml) }.

Definition of_sum {A} (x : string + A) : Parse A :=
  match x with inl w => PThrow w | inr a => PVal a end.

(** ** Scalars *)

(* [src/core/graph_config.cpp:13-17] ParsePolicy *)
Definition ParsePolicy (value : string) : QueuePolicy :=
  if bool_decide (value = "block") then kBlock
  else if bool_decide (value = "drop_newest") then kDropNewest
  else kDropOldest.

(* [src/core/graph_config.cpp:34-44] ParseInputPolicy *)
Definition ParseInputPolicy (value : string) : Res InputPolicy :=
  if bool_decide (value = "any") then Okay kAny
  else if bool_decide (value = "sync") then Okay kSync
  else if bool_decide (value = "latest") then Okay kLatest
  else Err (Invalid ("unknown input policy: " +:+ value)).

(* [src/core/graph_config.cpp:46-54] SplitEndpoint *)
Definition SplitEndpoint (endpoint : string) : Res (string * string) :=
  match rsplit "."%char (chars endpoint) with
  | Some (((_ :: _) as node), ((_ :: _) as port)) => Okay (of_chars node, of_chars port)
  | _ => Err (Invalid ("endpoint must use node.port syntax: " +:+ endpoint))
  end.

Definition is_sign (c : ascii) : bool := bool_decide (c = "-"%char) || bool_decide (c = "+"%char).

Definition drop_sign (l : list ascii) : list ascii :=
  match l with c :: t => if is_sign c then t else l | [] => [] end.

(** An optional sign and at least one digit. *)
Definition integer_pattern (l : list ascii) : bool :=
  let d := drop_sign l in negb (bool_decide (d = [])) && forallb is_digit d.

(** An optional sign, digits around a dot with at least one of them, an
    optional exponent. *)
Definition exponent_pattern (l : list ascii) : bool :=
  match l with
  | [] => true
  | c :: t => (bool_decide (c = "e"%char) || bool_decide (c = "E"%char)) && integer_pattern t
  end.
Definition float_pattern (l : list ascii) : bool :=
  let '(int, rest) := span is_digit (drop_sign l) in
  match rest with
  | c :: t =>
      bool_decide (c = "."%char) &&
      (let '(frac, e) := span is_digit t in
       negb (bool_decide (int = [] /\ frac = [])) && exponent_pattern e)
  | [] => false
  end.

(** [std::stoll] on a text that matches the integer pattern: [None] is
    [std::out_of_range]. *)
Definition stoll (l : list ascii) : option Z :=
  let z := match l with
           | c :: t => if bool_decide (c = "-"%char) then - decimal t
                       else if bool_decide (c = "+"%char) then decimal t else decimal l
           | [] => 0
           end in
  if bool_decide (int64_min <= z <= int64_max) then Some z else None.

(** ** Environment variables *)

Definition is_name_start (c : ascii) : bool :=
  let n := Z.of_N (N_of_ascii c) in
  ((65 <=? n) && (n <=? 90)) || ((97 <=? n) && (n <=? 122)) || (n =? 95).
Definition is_name_char (c : ascii) : bool := is_name_start c || is_digit c.

(** A match of the variable pattern at the start of a text: a dollar and an
    opening brace, a name, optionally [:-] with a default that has no closing
    brace, a closing brace.  The result is the name, the default if there is
    one, and the text after the match.  The longest run of name characters is
    the only one that can be followed by [:-] or the brace, so the match needs
    no backtracking. *)
Definition match_variable (l : list ascii)
  : option (list ascii * option (list ascii) * list ascii) :=
  match l with
  | "$"%char :: "{"%char :: c :: t =>
      if is_name_start c then
        let '(name, rest) := span is_name_char t in
        match rest with
        | "}"%char :: after => Some (c :: name, None, after)
        | ":"%char :: "-"%char :: u =>
            let '(dflt, rest') := span (fun c => negb (bool_decide (c = "}"%char))) u in
            match rest' with
            | _ :: after => Some (c :: name, Some dflt, after)
            | [] => None
            end
        | _ => None
        end
      else None
  | _ => None
  end.

Section environment.
Context `{Host}.

Definition variable_value (name : list ascii) (dflt : option (list ascii)) : list ascii :=
  match getenv (of_chars name) with
  | Some v => if bool_decide (v = "") then default [] dflt else chars v
  | None => default [] dflt
  end.

(** The iteration over the matches; a step consumes at least one character. *)
Fixpoint expand (fuel : nat) (l : list ascii) : list ascii :=
  match fuel, l with
  | S fuel', c :: t =>
      match match_variable l with
      | Some (name, dflt, after) => variable_value name dflt ++ expand fuel' after
      | None => c :: expand fuel' t
      end
  | _, _ => []
  end.

(* [src/core/graph_config.cpp:320-336] YamlGraphLoader::ExpandEnvironment *)
Definition ExpandEnvironment (input : string) : string :=
  of_chars (expand (length (chars input)) (chars input)).

(** The classification of an expanded scalar. *)
Definition scalar_value (scalar : string) : ConfigValue :=
  let l := chars scalar in
  if bool_decide (scalar = "true") then CBool true
  else if bool_decide (scalar = "false") then CBool false
  else match (if integer_pattern l then stoll l else None) with
       | Some z => CInt z
       | None => match (if float_pattern l then stod scalar else None) with
                 | Some d => CDouble d
                 | None => CString scalar
                 end
       end.
End environment.

(** ** The loader *)

Section loader.
Context `{Y : YamlCpp} `{HO : Host}.

Definition field_of (y : Yaml) (k : string) : Parse Yaml := of_sum (subscript y k).
Definition as_string_p (y : Yaml) : Parse string := of_sum (as_string_of y).
Definition as_size_p (y : Yaml) : Parse nat := of_sum (as_size_of y).
Definition as_int_p (y : Yaml) : Parse Z := of_sum (as_int_of y).
Definition as_bool_p (y : Yaml) : Parse bool := of_sum (as_bool_of y).

(** [y[k] ? y[k].as<T>() : dflt]. *)
Definition field_or {A} (conv : Yaml -> Parse A) (y : Yaml) (k : string) (dflt : A) : Parse A :=
  n <-! field_of y k; if defined n then conv n else PVal dflt.

(** [emplace]: an existing key keeps its value. *)
Definition emplace {V} (m : gmap string V) (k : string) (v : V) : gmap string V :=
  match m !! k with Some _ => m | None => <[k := v]> m end.

(* [src/core/graph_config.cpp:56-88] ParseValue *)
Fixpoint ParseValue (value : Yaml) : Parse ConfigValue :=
  match value with
  | YUndefined | YNull => PVal CNull
  | YSeq l =>
      array <-! (fix go l := match l with
                             | [] => PVal []
                             | item :: rest =>
                                 v <-! ParseValue item; vs <-! go rest; PVal (v :: vs)
                             end) l;
      PVal (CArray array)
  | YMap m =>
      object <-! (fix go m acc := match m with
                                  | [] => PVal acc
                                  | (k, item) :: rest =>
                                      key <-! as_string_p k; v <-! ParseValue item;
                                      go rest (emplace acc key v)
                                  end) m ∅;
      PVal (CObject object)
  | YScalar s => PVal (scalar_value (ExpandEnvironment s))
  end.

(* [src/core/graph_config.cpp:19-32] ParseQueue *)
Definition ParseQueue (value : Yaml) (defaults : QueueConfig) (field : string) : Parse QueueConfig :=
  if negb (defined value) then PVal defaults
  else
    demand is_map value else Invalid (field +:+ " must be a map");
    capacity <-! field_or as_size_p value "capacity" (qc_capacity defaults);
    policy <-! field_or as_string_p value "policy"
                 match qc_policy defaults with
                 | kBlock => "block"
                 | kDropNewest => "drop_newest"
                 | kDropOldest => "drop_oldest"
                 end;
    demand negb (bool_decide (capacity = 0%nat))
      else Invalid (field +:+ " capacity must be positive");
    PVal (mkQueueConfig capacity (ParsePolicy policy)).

Definition of_res {A} (r : Res A) : Parse A :=
  match r with Okay a => PVal a | Err s => PErr s end.

(** One entry of the map of graph ports. *)
Definition parse_port (field : string) (allow_queue : bool) (default_queue : QueueConfig)
    (out : list GraphPortConfig) (item : Yaml * Yaml) : Parse (list GraphPortConfig) :=
  let '(k, v) := item in
  name <-! as_string_p k;
  endpoint <-! (if is_map v then field_of v "to" else PVal v);
  demand defined endpoint && is_scalar endpoint
    else Invalid (field +:+ " endpoint must be node.port or {to, queue}");
  text <-! as_string_p endpoint;
  np <-! of_res (SplitEndpoint text);
  queue <-! (if allow_queue && is_map v then
               q <-! field_of v "queue";
               if defined q then ParseQueue q default_queue (field +:+ " queue")
               else PVal default_queue
             else PVal default_queue);
  PVal (out ++ [mkGraphPort name np.1 np.2 queue]).

(* [src/core/graph_config.cpp:90-112] ParseGraphPorts *)
Definition ParseGraphPorts (ports : Yaml) (field : string) (allow_queue : bool)
    (default_queue : QueueConfig) : Parse (list GraphPortConfig) :=
  if negb (defined ports) then PVal []
  else
    demand is_map ports else Invalid (field +:+ " must be a map of name: node.port");
    pfold (parse_port field allow_queue default_queue) (map_items ports) [].

(* [src/core/graph_config.cpp:168-182] ParseRoot (flow control) *)
Definition ParseFlowControl (graph : Yaml) (ver : Z) : Parse FlowControlConfig :=
  flow <-! field_of graph "flow_control";
  if negb (defined flow) then PVal default_flow_control
  else
    demand 2 <=? ver else Invalid "graph.flow_control requires version: 2";
    demand is_map flow else Invalid "graph.flow_control must be a map";
    yi <-! field_of flow "input_queue";
    qi <-! ParseQueue yi (input_queue default_flow_control) "graph.flow_control.input_queue";
    ye <-! field_of flow "edge_queue";
    qe <-! ParseQueue ye (edge_queue default_flow_control) "graph.flow_control.edge_queue";
    yo <-! field_of flow "observer_queue";
    qo <-! ParseQueue yo (observer_queue default_flow_control) "graph.flow_control.observer_queue";
    b <-! field_or as_bool_p flow "observe_timestamp_bounds" false;
    PVal (mkFlowControl qi qe qo b).

Definition parse_executor (out : list ExecutorConfig) (item : Yaml) : Parse (list ExecutorConfig) :=
  name <-! field_or as_string_p item "name" "";
  threads <-! field_or as_size_p item "threads" 1%nat;
  capacity <-! field_or as_size_p item "queue_capacity" 256%nat;
  priority <-! field_or as_int_p item "priority" 0;
  demand negb (bool_decide (name = "") || bool_decide (threads = 0%nat) ||
               bool_decide (capacity = 0%nat))
    else Invalid "executor name, threads and queue_capacity must be valid";
  PVal (out ++ [mkExecutor name threads capacity priority]).

(* [src/core/graph_config.cpp:183-199] ParseRoot (executors) *)
Definition ParseExecutors (graph : Yaml) : Parse (list ExecutorConfig) :=
  executors <-! field_of graph "executors";
  l <-! (if defined executors then
           demand is_sequence executors else Invalid "graph.executors must be a sequence";
           pfold parse_executor (seq_items executors) []
         else PVal []);
  PVal (if bool_decide (length l = 0%nat) then [default_executor] else l).

Definition parse_option (acc : NodeOptions) (option : Yaml * Yaml) : Parse NodeOptions :=
  key <-! as_string_p option.1; v <-! ParseValue option.2; PVal (emplace acc key v).

Definition parse_node (out : list NodeConfig) (item : Yaml) : Parse (list NodeConfig) :=
  yid <-! field_of item "id";
  ytype <-! field_of item "type";
  demand defined yid && defined ytype else Invalid "each node requires id and type";
  id <-! as_string_p yid;
  type <-! as_string_p ytype;
  executor <-! field_or as_string_p item "executor" "default";
  ypolicy <-! field_of item "input_policy";
  policy <-! (if defined ypolicy then
                text <-! as_string_p ypolicy;
                match ParseInputPolicy text with
                | Okay p => PVal (Some p)
                | Err s => PErr (Invalid ("node " +:+ id +:+ ": " +:+ message s))
                end
              else PVal None);
  trigger <-! field_or as_string_p item "trigger_port" "";
  yoptions <-! field_of item "options";
  options <-! (if defined yoptions then
                 demand is_map yoptions else Invalid ("node options must be a map: " +:+ id);
                 pfold parse_option (map_items yoptions) ∅
               else PVal ∅);
  PVal (out ++ [mkNodeConfig id type executor options (bool_decide (is_Some policy))
                             (default kAny policy) trigger]).

(* [src/core/graph_config.cpp:201-221] ParseRoot (nodes) *)
Definition ParseNodes (graph : Yaml) : Parse (list NodeConfig) :=
  ynodes <-! field_of graph "nodes";
  demand defined ynodes && is_sequence ynodes else Invalid "graph.nodes must be a sequence";
  pfold parse_node (seq_items ynodes) [].

Definition parse_slot (base_path : string) (out : list SourceSlotConfig) (item : Yaml * Yaml)
  : Parse (list SourceSlotConfig) :=
  let '(k, v) := item in
  name <-! as_string_p k;
  parts <-! (match v with
             | YScalar _ => s <-! as_string_p v; PVal (s, "", "")
             | YMap _ =>
                 input <-! field_or as_string_p v "input" "";
                 ytemplate <-! field_of v "template";
                 template <-! (if defined ytemplate then
                                 t <-! as_string_p ytemplate;
                                 PVal (lexically_normal (path_join base_path t))
                               else PVal "");
                 output <-! field_or as_string_p v "output" "";
                 PVal (input, template, output)
             | _ => PErr (Invalid "source slot must be input_stream or {input, template, output}")
             end);
  let '(input, template, output) := parts in
  demand negb (bool_decide (name = "") || bool_decide (input = ""))
    else Invalid "source slot name and input stream are required";
  demand bool_decide (template = "") || negb (bool_decide (output = ""))
    else Invalid "source slot with template requires output stream";
  PVal (out ++ [mkSlot name input template output]).

(* [src/core/graph_config.cpp:229-253] ParseRoot (source slots) *)
Definition ParseSlots (graph : Yaml) (base_path : string) : Parse (list SourceSlotConfig) :=
  slots <-! field_of graph "source_slots";
  if defined slots then
    demand is_map slots else Invalid "graph.source_slots must be a map";
    pfold (parse_slot base_path) (map_items slots) []
  else PVal [].

(* [src/core/graph_config.cpp:254-259] ParseRoot (side packets) *)
Definition ParseSidePackets (graph : Yaml) : Parse (gmap string ConfigValue) :=
  y <-! field_of graph "side_packets";
  if defined y then
    v <-! ParseValue y;
    match AsObject v with
    | Some o => PVal o
    | None => PErr (Invalid "graph.side_packets must be a map")
    end
  else PVal ∅.

(** *** Subgraphs *)

(** The part of a key after a prefix. *)
Fixpoint strip_string (p s : string) : option string :=
  match p, s with
  | EmptyString, _ => Some s
  | String a p', String b s' => if bool_decide (a = b) then strip_string p' s' else None
  | String _ _, EmptyString => None
  end.

(** The overrides of one node: those whose key starts with its name and a dot.
    Two overrides of one option cannot meet, because the prefix determines the
    key. *)
Definition apply_overrides (id : string) (overrides : gmap string ConfigValue) (o : NodeOptions)
  : NodeOptions :=
  fold_left (fun o kv => match strip_string (id +:+ ".") kv.1 with
                         | Some name => <[name := kv.2]> o
                         | None => o
                         end) (map_to_list overrides) o.

Definition merge_node (prefix : string) (overrides : gmap string ConfigValue) (n : NodeConfig)
  : NodeConfig :=
  mkNodeConfig (prefix +:+ "." +:+ nc_id n) (nc_type n) (nc_executor n)
    (apply_overrides (nc_id n) overrides (nc_options n))
    (nc_has_input_policy n) (nc_input_policy n) (nc_trigger_port n).

Definition merge_edge (prefix : string) (e : EdgeConfig) : EdgeConfig :=
  mkEdge (prefix +:+ "." +:+ from_node e) (from_port e) (prefix +:+ "." +:+ to_node e) (to_port e)
         (e_queue e) (back_edge e) (initial_packet e).

(* [src/core/graph_config.cpp:338-360] MergeSubgraph *)
Definition MergeSubgraph (parent child : GraphConfig) (prefix : string)
    (overrides : gmap string ConfigValue) : Res GraphConfig :=
  if bool_decide (prefix = "") then Err (Invalid "parent graph and prefix are required")
  else Okay (mkGraphConfig (version parent) (gname parent) (executors parent)
               (nodes parent ++ map (merge_node prefix overrides) (nodes child))
               (edges parent ++ map (merge_edge prefix) (edges child))
               (ginputs parent) (goutputs parent) (source_slots parent) (gside_packets parent)
               (flow_control parent)).

(** The aliases of the graph inputs and outputs of the subgraphs. *)
Record Aliases := mkAliases {
  input_aliases : gmap string string;
  output_aliases : gmap string string }.

Definition add_aliases (id : string) (ports : list GraphPortConfig) (m : gmap string string)
  : gmap string string :=
  fold_left (fun m p => emplace m (id +:+ "." +:+ gp_name p)
                                  (id +:+ "." +:+ gp_node p +:+ "." +:+ gp_port p)) ports m.

(** [YAML::LoadFile]. *)
Definition load_yaml (path : string) : string + Yaml :=
  default (inl (bad_file path)) (files !! path).

(** [ParseRoot] for the included file, with its name and the [loading] set, is
    the argument [parse_child].  The set is restored after every item. *)
Definition parse_subgraph
    (parse_child : Yaml -> string -> gset string -> Parse GraphConfig)
    (base_path : string) (loading : gset string)
    (acc : GraphConfig * Aliases) (item : Yaml) : Parse (GraphConfig * Aliases) :=
  yid <-! field_of item "id";
  yfile <-! field_of item "file";
  demand defined yid && defined yfile else Invalid "subgraph requires id and file";
  id <-! as_string_p yid;
  file <-! as_string_p yfile;
  let path := path_join base_path file in
  let canonical := weakly_canonical path in
  demand bool_decide (canonical ∉ loading) else Invalid ("recursive subgraph include: " +:+ canonical);
  match load_yaml canonical with
  | inl what => PErr (Invalid ("subgraph YAML error: " +:+ what))
  | inr child_root =>
      match parse_child child_root (parent_path path) ({[canonical]} ∪ loading) with
      | PErr s => PErr (Invalid ("subgraph " +:+ id +:+ ": " +:+ message s))
      | PThrow w => PThrow w
      | PFuel => PFuel
      | PVal child =>
          yoptions <-! field_of item "options";
          overrides <-! (if defined yoptions then
                           v <-! ParseValue yoptions;
                           match AsObject v with
                           | Some o => PVal o
                           | None => PErr (Invalid "subgraph options must be a map")
                           end
                         else PVal ∅);
          config <-! of_res (MergeSubgraph acc.1 child id overrides);
          PVal (config, mkAliases (add_aliases id (ginputs child) (input_aliases acc.2))
                                  (add_aliases id (goutputs child) (output_aliases acc.2)))
      end
  end.

(* [src/core/graph_config.cpp:117-156] ParseSubgraphs *)
Definition ParseSubgraphs
    (parse_child : Yaml -> string -> gset string -> Parse GraphConfig)
    (subgraphs : Yaml) (base_path : string) (config : GraphConfig) (loading : gset string)
  : Parse (GraphConfig * Aliases) :=
  if negb (defined subgraphs) then PVal (config, mkAliases ∅ ∅)
  else
    demand is_sequence subgraphs else Invalid "graph.subgraphs must be a sequence";
    pfold (parse_subgraph parse_child base_path loading) (seq_items subgraphs)
          (config, mkAliases ∅ ∅).

Definition parse_edge (flow : FlowControlConfig) (al : Aliases) (out : list EdgeConfig) (item : Yaml)
  : Parse (list EdgeConfig) :=
  yfrom <-! field_of item "from";
  yto <-! field_of item "to";
  demand defined yfrom && defined yto else Invalid "each edge requires from and to";
  from <-! as_string_p yfrom;
  to <-! as_string_p yto;
  let from := default from (output_aliases al !! from) in
  let to := default to (input_aliases al !! to) in
  f <-! of_res (SplitEndpoint from);
  t <-! of_res (SplitEndpoint to);
  yqueue <-! field_of item "queue";
  queue <-! (if defined yqueue then ParseQueue yqueue (edge_queue flow) "edge queue"
             else PVal (edge_queue flow));
  back <-! field_or as_bool_p item "back_edge" false;
  yinitial <-! field_of item "initial_packet";
  initial <-! (if defined yinitial then ParseValue yinitial else PVal CNull);
  PVal (out ++ [mkEdge f.1 f.2 t.1 t.2 queue back initial]).

(* [src/core/graph_config.cpp:267-291] ParseRoot (edges) *)
Definition ParseEdges (graph : Yaml) (flow : FlowControlConfig) (al : Aliases)
    (es : list EdgeConfig) : Parse (list EdgeConfig) :=
  yedges <-! field_of graph "edges";
  if defined yedges then
    demand is_sequence yedges else Invalid "graph.edges must be a sequence";
    pfold (parse_edge flow al) (seq_items yedges) es
  else PVal es.

(* [src/core/graph_config.cpp:158-293] ParseRoot *)
Fixpoint ParseRoot (fuel : nat) (root : Yaml) (base_path : string) (loading : gset string)
  : Parse GraphConfig :=
  match fuel with
  | O => PFuel
  | S fuel' =>
      demand is_map root else Invalid "YAML root must be a map";
      ver <-! field_or as_int_p root "version" 1;
      demand (1 <=? ver) && (ver <=? 2)
        else Invalid ("unsupported graph version: " +:+ pretty ver);
      graph <-! field_of root "graph";
      demand defined graph && is_map graph else Invalid "missing graph map";
      name <-! field_or as_string_p graph "name" "unnamed";
      flow <-! ParseFlowControl graph ver;
      exs <-! ParseExecutors graph;
      ns <-! ParseNodes graph;
      yin <-! field_of graph "inputs";
      ins <-! ParseGraphPorts yin "graph.inputs" true (input_queue flow);
      yout <-! field_of graph "outputs";
      outs <-! ParseGraphPorts yout "graph.outputs" false (observer_queue flow);
      slots <-! ParseSlots graph base_path;
      side <-! ParseSidePackets graph;
      ysub <-! field_of graph "subgraphs";
      sub <-! ParseSubgraphs (ParseRoot fuel') ysub base_path
                (mkGraphConfig ver name exs ns [] ins outs slots side flow) loading;
      es <-! ParseEdges graph flow sub.2 (edges sub.1);
      PVal (mkGraphConfig ver name exs (nodes sub.1) es ins outs slots side flow)
  end.

(** The fuel of a load: one level per file that can be included, and one for
    the root. *)
Definition load_fuel : nat := S (size files).

(** The handlers of [LoadFile] and [LoadString]: the status, and the
    configuration when it is ok. *)
Definition catch (p : Parse GraphConfig) : option (Res GraphConfig) :=
  match p with
  | PVal c => Some (Okay c)
  | PErr s => Some (Err s)
  | PThrow w => Some (Err (Invalid ("YAML error: " +:+ w)))
  | PFuel => None
  end.

(* [src/core/graph_config.cpp:297-307] YamlGraphLoader::LoadFile *)
Definition LoadFile (path : string) : option (Res GraphConfig) :=
  catch (root <-! of_sum (load_yaml path);
         ParseRoot load_fuel root (parent_path path) {[weakly_canonical path]}).

(* [src/core/graph_config.cpp:309-318] YamlGraphLoader::LoadString *)
Definition LoadString (yaml : string) : option (Res GraphConfig) :=
  catch (root <-! of_sum (parse_yaml yaml); ParseRoot load_fuel root current_path ∅).
End loader.
