(* ===== verification/GraphConfigFacts.v ===== *)
(** * Facts about the loader

    Termination of nested inclusion, well-formedness of what is loaded,
    endpoints, environment variables, integer scalars and the merging of
    subgraphs. *)

From S2P Require Import Prelude Text Status Values BoundedQueue Contract Node GraphConfig.
From Stdlib Require Import SpecFloat Ascii.
From stdpp Require Import pretty.
Local Open Scope Z_scope.
Local Open Scope rkavp_scope.

(** ** Induction on documents *)

Section yaml_induction.
Variable P : Yaml -> Prop.
Hypothesis P_undefined : P YUndefined.
Hypothesis P_null : P YNull.
Hypothesis P_scalar : forall s, P (YScalar s).
Hypothesis P_seq : forall l, Forall P l -> P (YSeq l).
Hypothesis P_map : forall m, Forall (fun kv => P kv.2) m -> P (YMap m).

Fixpoint yaml_ind (y : Yaml) : P y :=
  match y with
  | YUndefined => P_undefined
  | YNull => P_null
  | YScalar s => P_scalar s
  | YSeq l => P_seq l ((fix go l : Forall P l :=
                 match l with
                 | [] => Forall_nil_2 P
                 | x :: t => Forall_cons_2 P x t (yaml_ind x) (go t)
                 end) l)
  | YMap m => P_map m ((fix go m : Forall (fun kv => P kv.2) m :=
                 match m with
                 | [] => Forall_nil_2 _
                 | kv :: t => Forall_cons_2 (fun kv : Yaml * Yaml => P kv.2) kv t
                                (yaml_ind kv.2) (go t)
                 end) m)
  end.
End yaml_induction.

(** ** Nothing but inclusion consumes fuel *)

Section fuel.
Context `{Y : YamlCpp} `{HO : Host}.

Lemma pbind_fuel {A B} (m : Parse A) (f : A -> Parse B) :
  m <> PFuel -> (forall a, f a <> PFuel) -> pbind m f <> PFuel.
Proof. destruct m; simpl; auto; done. Qed.

Lemma of_sum_fuel {A} (x : string + A) : of_sum x <> PFuel.
Proof. by destruct x. Qed.

Lemma of_res_fuel {A} (x : Res A) : of_res x <> PFuel.
Proof. by destruct x. Qed.

Lemma field_or_fuel {A} (conv : Yaml -> Parse A) y k d :
  (forall n, conv n <> PFuel) -> field_or conv y k d <> PFuel.
Proof.
  intros H. apply pbind_fuel; [apply of_sum_fuel|]. intros n. by destruct (defined n).
Qed.

(** Walks through the binds of a parser. *)
Ltac no_fuel_step :=
  match goal with
  | |- pbind _ _ <> PFuel => apply pbind_fuel
  | |- of_sum _ <> PFuel => apply of_sum_fuel
  | |- of_res _ <> PFuel => apply of_res_fuel
  | |- field_of _ _ <> PFuel => apply of_sum_fuel
  | |- as_string_p _ <> PFuel => apply of_sum_fuel
  | |- as_size_p _ <> PFuel => apply of_sum_fuel
  | |- as_int_p _ <> PFuel => apply of_sum_fuel
  | |- as_bool_p _ <> PFuel => apply of_sum_fuel
  | |- field_or _ _ _ _ <> PFuel => apply field_or_fuel
  | |- pfold _ _ _ <> PFuel => apply pfold_fuel
  | |- forall _, _ => intros
  | |- (if ?b then _ else _) <> PFuel => destruct b
  | |- (match ?x with _ => _ end) <> PFuel => destruct x eqn:?
  | |- PVal _ <> PFuel => done
  | |- PErr _ <> PFuel => done
  | |- PThrow _ <> PFuel => done
  end.
Ltac no_fuel := repeat no_fuel_step; eauto with rkavp.

Lemma ParseValue_fuel y : ParseValue y <> PFuel.
Proof.
  induction y as [| |s|l IH|m IH] using yaml_ind; try done.
  - cbn [ParseValue]. apply pbind_fuel; [|done].
    induction IH as [|x l Hx _ IHl]; [done|].
    apply pbind_fuel; [done|]. intros v. apply pbind_fuel; [exact IHl|done].
  - cbn [ParseValue]. apply pbind_fuel; [|done]. generalize (∅ : gmap string ConfigValue).
    induction IH as [|[k x] m Hx _ IHm]; intros acc; [done|].
    apply pbind_fuel; [apply of_sum_fuel|]. intros key.
    apply pbind_fuel; [done|]. intros v. apply IHm.
Qed.
#[local] Hint Resolve ParseValue_fuel : rkavp.

Lemma ParseQueue_fuel y d f : ParseQueue y d f <> PFuel.
Proof. unfold ParseQueue. no_fuel. Qed.
#[local] Hint Resolve ParseQueue_fuel : rkavp.

Lemma parts_fuel g v f al es b p :
  ParseFlowControl g v <> PFuel /\ ParseExecutors g <> PFuel /\ ParseNodes g <> PFuel /\
  ParseSlots g b <> PFuel /\ ParseSidePackets g <> PFuel /\ ParseEdges g f al es <> PFuel /\
  (forall s q d, ParseGraphPorts p s q d <> PFuel).
Proof.
  split_and!.
  - unfold ParseFlowControl. no_fuel.
  - unfold ParseExecutors, parse_executor. no_fuel.
  - unfold ParseNodes, parse_node, parse_option. no_fuel.
  - unfold ParseSlots, parse_slot. no_fuel.
  - unfold ParseSidePackets. no_fuel.
  - unfold ParseEdges, parse_edge. no_fuel.
  - intros s q d. unfold ParseGraphPorts, parse_port. no_fuel.
Qed.

(** The files that may still be included. *)
Definition unloaded (loading : gset string) : nat := size (dom files ∖ loading).

Lemma unloaded_shrinks loading c :
  c ∉ loading -> is_Some (files !! c) ->
  (unloaded ({[c]} ∪ loading) < unloaded loading)%nat.
Proof.
  intros Hc Hf. apply elem_of_dom in Hf. unfold unloaded. apply subset_size.
  split; [set_solver|]. intros Hs. assert (c ∈ dom files ∖ ({[c]} ∪ loading)) by set_solver.
  set_solver.
Qed.

Lemma ParseSubgraphs_fuel child y b c loading :
  (forall r p l, (unloaded l < unloaded loading)%nat -> child r p l <> PFuel) ->
  ParseSubgraphs child y b c loading <> PFuel.
Proof.
  intros Hchild. unfold ParseSubgraphs. destruct (negb (defined y)); [done|].
  destruct (is_sequence y); [|done]. apply pfold_fuel. intros item acc _.
  unfold parse_subgraph. do 2 (apply pbind_fuel; [apply of_sum_fuel|intros ?]).
  destruct (_ && _); [|done]. do 2 (apply pbind_fuel; [apply of_sum_fuel|intros ?]).
  case_bool_decide as Hin; [|done]. unfold load_yaml.
  destruct (files !! _) as [[w|root]|] eqn:Ef; simpl; try done.
  specialize (Hchild root (parent_path (path_join b a2))
    ({[weakly_canonical (path_join b a2)]} ∪ loading)).
  destruct (child _ _ _) eqn:Ec.
  - no_fuel.
  - done.
  - done.
  - exfalso. apply Hchild; [|done]. by apply unloaded_shrinks.
Qed.

Lemma ParseRoot_fuel fuel root b loading :
  (unloaded loading < fuel)%nat -> ParseRoot fuel root b loading <> PFuel.
Proof.
  revert root b loading. induction fuel as [|fuel IH]; intros root b loading Hlt; [lia|].
  cbn [ParseRoot].
  destruct (is_map root); [|done].
  apply pbind_fuel; [no_fuel|intros ver]. destruct (_ && _); [|done].
  apply pbind_fuel; [no_fuel|intros graph]. destruct (_ && _); [|done].
  pose proof (fun v f al es p => parts_fuel graph v f al es b p) as Hp.
  apply pbind_fuel; [no_fuel|intros name].
  apply pbind_fuel; [by apply (Hp _ default_flow_control (mkAliases ∅ ∅) [] graph)|intros flow].
  apply pbind_fuel; [by apply (Hp 0 flow (mkAliases ∅ ∅) [] graph)|intros exs].
  apply pbind_fuel; [by apply (Hp 0 flow (mkAliases ∅ ∅) [] graph)|intros ns].
  apply pbind_fuel; [no_fuel|intros yin].
  apply pbind_fuel; [by apply (Hp 0 flow (mkAliases ∅ ∅) [] yin)|intros ins].
  apply pbind_fuel; [no_fuel|intros yout].
  apply pbind_fuel; [by apply (Hp 0 flow (mkAliases ∅ ∅) [] yout)|intros outs].
  apply pbind_fuel; [by apply (Hp 0 flow (mkAliases ∅ ∅) [] graph)|intros slots].
  apply pbind_fuel; [by apply (Hp 0 flow (mkAliases ∅ ∅) [] graph)|intros side].
  apply pbind_fuel; [no_fuel|intros ysub].
  apply pbind_fuel; [|intros sub].
  - apply ParseSubgraphs_fuel. intros r p l Hl. apply IH. lia.
  - apply pbind_fuel; [by apply (Hp 0 flow sub.2 (edges sub.1) graph)|done].
Qed.

Lemma unloaded_fuel loading : (unloaded loading < load_fuel)%nat.
Proof.
  unfold unloaded, load_fuel. rewrite <- size_dom.
  assert (size (dom files ∖ loading) <= size (dom files))%nat; [|lia].
  apply subseteq_size. set_solver.
Qed.

Definition returns {A} (r : option A) : Prop := exists a, r = Some a.

Lemma load_file_returns path : returns (LoadFile path).
Proof.
  unfold LoadFile. match goal with |- returns (catch ?p) => assert (p <> PFuel) as H; [|destruct p; unfold returns; simpl; eauto; done] end.
  apply pbind_fuel; [apply of_sum_fuel|]. intros. apply ParseRoot_fuel, unloaded_fuel.
Qed.
Lemma load_string_returns yaml : returns (LoadString yaml).
Proof.
  unfold LoadString. match goal with |- returns (catch ?p) => assert (p <> PFuel) as H; [|destruct p; unfold returns; simpl; eauto; done] end.
  apply pbind_fuel; [apply of_sum_fuel|]. intros. apply ParseRoot_fuel, unloaded_fuel.
Qed.

End fuel.

(** ** Endpoints *)

Definition no_dot (s : string) : Prop := "."%char ∉ chars s.

Lemma SplitEndpoint_inv e n p :
  SplitEndpoint e = Okay (n, p) ->
  e = n +:+ "." +:+ p /\ n <> "" /\ p <> "" /\ no_dot p.
Proof.
  unfold SplitEndpoint. destruct (rsplit _ _) as [[[|a l] [|b r]]|] eqn:E; try done.
  intros [= <- <-]. apply rsplit_Some in E as [He Hd].
  split_and!; [|done|done|].
  - rewrite <- (of_chars_chars e), He. simpl. by rewrite of_chars_app.
  - unfold no_dot. simpl. by rewrite chars_of_chars.
Qed.

(** Endpoints are parsed exactly: [node.port] splits into its node and port whenever
    neither is empty and the port has no dot (the node may have dots, as the names of
    merged subgraphs do), and whatever the parser accepts is the text of its result. *)
Theorem endpoint_roundtrip n p e :
  (n <> "" -> p <> "" -> no_dot p -> SplitEndpoint (n +:+ "." +:+ p) = Okay (n, p)) /\
  (SplitEndpoint e = Okay (n, p) -> e = n +:+ "." +:+ p /\ n <> "" /\ p <> "" /\ no_dot p).
Proof.
  split; [|apply SplitEndpoint_inv]. intros Hn Hp Hd. unfold SplitEndpoint.
  rewrite (proj2 (rsplit_Some "."%char _ (chars n) (chars p))).
  - destruct n, p; try done. simpl. by rewrite !of_chars_chars.
  - rewrite chars_app. done.
Qed.

Lemma endpoint_roundtrip_witness :
  SplitEndpoint "cam.decoder.out" = Okay ("cam.decoder", "out") /\
  ("cam.decoder" <> "" /\ "out" <> "" /\ no_dot "out").
Proof.
  assert (no_dot "out") as Hd by (unfold no_dot; simpl; set_solver).
  split.
  - by apply (endpoint_roundtrip "cam.decoder" "out" "").
  - destruct (endpoint_roundtrip "cam.decoder" "out" "cam.decoder.out") as [_ H].
    by destruct H as (_ & ? & ? & ?).
Defined.

(** ** Well-formed configurations *)

Definition queue_ok (q : QueueConfig) : Prop := (0 < qc_capacity q)%nat.
Definition executor_ok (e : ExecutorConfig) : Prop :=
  ex_name e <> "" /\ (0 < ex_threads e)%nat /\ (0 < ex_queue_capacity e)%nat.
Definition edge_ok (e : EdgeConfig) : Prop :=
  from_node e <> "" /\ from_port e <> "" /\ no_dot (from_port e) /\
  to_node e <> "" /\ to_port e <> "" /\ no_dot (to_port e) /\ queue_ok (e_queue e).
Definition port_ok (p : GraphPortConfig) : Prop :=
  gp_node p <> "" /\ gp_port p <> "" /\ no_dot (gp_port p) /\ queue_ok (gp_queue p).
Definition slot_ok (s : SourceSlotConfig) : Prop :=
  slot_name s <> "" /\ input_stream s <> "" /\ (subgraph_template s <> "" -> output_stream s <> "").
Definition flow_ok (f : FlowControlConfig) : Prop :=
  queue_ok (input_queue f) /\ queue_ok (edge_queue f) /\ queue_ok (observer_queue f).

Record config_ok (c : GraphConfig) : Prop := mkConfigOk {
  ok_version : 1 <= version c <= 2;
  ok_executors : executors c <> [] /\ Forall executor_ok (executors c);
  ok_edges : Forall edge_ok (edges c);
  ok_inputs : Forall port_ok (ginputs c);
  ok_outputs : Forall port_ok (goutputs c);
  ok_slots : Forall slot_ok (source_slots c);
  ok_flow : flow_ok (flow_control c) }.

Section wellformed.
Context `{Y : YamlCpp} `{HO : Host}.

(** Takes a successful parse apart. *)
Ltac parse_step :=
  match goal with
  | H : pbind _ _ = PVal _ |- _ => apply pbind_PVal in H; destruct H as (? & ? & ?)
  | H : (if ?b then _ else _) = PVal _ |- _ => destruct b eqn:?
  | H : of_res ?r = PVal _ |- _ => destruct r eqn:?; simpl in H
  | H : PVal _ = PVal _ |- _ => injection H as <-
  | H : PErr _ = PVal _ |- _ => discriminate H
  | H : PThrow _ = PVal _ |- _ => discriminate H
  end.
Ltac parse_inv := repeat parse_step.

Lemma ParseQueue_ok y d f q : queue_ok d -> ParseQueue y d f = PVal q -> queue_ok q.
Proof.
  intros Hd. unfold ParseQueue. intros. parse_inv; try done.
  unfold queue_ok; simpl. apply negb_true_iff, bool_decide_eq_false in Heqb1. lia.
Qed.

Lemma ParseFlowControl_ok g v f : ParseFlowControl g v = PVal f -> flow_ok f.
Proof.
  unfold ParseFlowControl. intros. parse_inv.
  - unfold flow_ok, queue_ok; simpl; lia.
  - split_and!; simpl; eapply ParseQueue_ok; [|eassumption| |eassumption| |eassumption];
      unfold queue_ok; simpl; lia.
Qed.

Lemma Forall_snoc {A} (P : A -> Prop) l x : Forall P l -> P x -> Forall P (l ++ [x]).
Proof. intros. apply Forall_app. auto. Qed.

Lemma default_executor_ok : executor_ok default_executor.
Proof. unfold executor_ok; simpl. split_and!; [done|lia|lia]. Qed.

Lemma parse_executor_ok item out out' :
  Forall executor_ok out -> parse_executor out item = PVal out' -> Forall executor_ok out'.
Proof.
  unfold parse_executor. intros Hout Hp. parse_inv.
  apply Forall_snoc; [done|]. apply negb_true_iff in Heqb.
  apply orb_false_iff in Heqb as [[? ?]%orb_false_iff ?].
  repeat match goal with H : bool_decide _ = false |- _ => apply bool_decide_eq_false in H end.
  unfold executor_ok; simpl. split_and!; [done|lia|lia].
Qed.

Lemma ParseExecutors_ok g l : ParseExecutors g = PVal l -> l <> [] /\ Forall executor_ok l.
Proof.
  unfold ParseExecutors. intros. parse_inv.
  - case_bool_decide as Hl.
    + split; [done|]. constructor; [apply default_executor_ok|done].
    + split; [by destruct x0|].
      eapply (pfold_ind parse_executor (Forall executor_ok)); [|done|eassumption].
      eauto using parse_executor_ok.
  - split; [done|]. constructor; [apply default_executor_ok|done].
Qed.

Lemma split_ok e np : SplitEndpoint e = Okay np -> np.1 <> "" /\ np.2 <> "" /\ no_dot np.2.
Proof. destruct np. intros H. by apply SplitEndpoint_inv in H as (_ & ? & ? & ?). Qed.

Lemma ParseGraphPorts_ok y f aq d l : queue_ok d ->
  ParseGraphPorts y f aq d = PVal l -> Forall port_ok l.
Proof.
  intros Hd. unfold ParseGraphPorts. intros. parse_inv; [done|].
  eapply (pfold_ind (parse_port f aq d) (Forall port_ok)); [|done|eassumption].
  intros [k v] out out' _ Hout Hp. unfold parse_port in Hp. parse_inv;
    (apply Forall_snoc; [done|]); unfold port_ok; simpl;
    match goal with H : SplitEndpoint _ = Okay _ |- _ => apply split_ok in H as (? & ? & ?) end;
    split_and!; try done; eapply ParseQueue_ok; eassumption.
Qed.

Lemma ParseSlots_ok g b l : ParseSlots g b = PVal l -> Forall slot_ok l.
Proof.
  unfold ParseSlots. intros. parse_inv; [|done].
  eapply (pfold_ind (parse_slot b) (Forall slot_ok)); [|done|eassumption].
  intros [k v] out out' _ Hout Hp. unfold parse_slot in Hp.
  apply pbind_PVal in Hp as (name & _ & Hp). apply pbind_PVal in Hp as ([[i t] o] & _ & Hp).
  parse_inv. apply Forall_snoc; [done|]. unfold slot_ok; simpl.
  match goal with H : negb (_ || _) = true |- _ =>
    apply negb_true_iff, orb_false_iff in H as [?%bool_decide_eq_false ?%bool_decide_eq_false] end.
  split_and!; [done|done|]. intros Ht.
  match goal with H : _ || negb _ = true |- _ => apply orb_true_iff in H as [Hb|Hb] end.
  - by apply bool_decide_eq_true in Hb.
  - by apply negb_true_iff, bool_decide_eq_false in Hb.
Qed.

Lemma ParseEdges_ok g f al es l : queue_ok (edge_queue f) -> Forall edge_ok es ->
  ParseEdges g f al es = PVal l -> Forall edge_ok l.
Proof.
  intros Hq Hes. unfold ParseEdges. intros. parse_inv; [|done].
  eapply (pfold_ind (parse_edge f al) (Forall edge_ok)); [|done|eassumption].
  intros item out out' _ Hout Hp. unfold parse_edge in Hp. cbv zeta in Hp. parse_inv;
    (apply Forall_snoc; [done|]); unfold edge_ok; simpl;
    repeat match goal with H : SplitEndpoint _ = Okay _ |- _ => apply split_ok in H as (? & ? & ?) end;
    split_and!; try done; eapply ParseQueue_ok; eassumption.
Qed.

Lemma append_ne s t : s <> "" -> s +:+ t <> "".
Proof. by destruct s. Qed.

Lemma merge_edges_ok prefix es : prefix <> "" -> Forall edge_ok es ->
  Forall edge_ok (map (merge_edge prefix) es).
Proof.
  intros Hp Hes. apply Forall_forall. intros e. rewrite list_elem_of_In, in_map_iff.
  intros (x & <- & Hx). rewrite Forall_forall in Hes.
  destruct (Hes x) as (? & ? & ? & ? & ? & ? & ?); [by apply list_elem_of_In|].
  unfold edge_ok; simpl. split_and!; auto using append_ne.
Qed.

Lemma MergeSubgraph_ok c child prefix ov c' :
  Forall edge_ok (edges c) -> Forall edge_ok (edges child) ->
  MergeSubgraph c child prefix ov = Okay c' -> Forall edge_ok (edges c').
Proof.
  intros Hc Hed. unfold MergeSubgraph. case_bool_decide; [done|]. intros [= <-]; simpl.
  apply Forall_app. split; [done|]. by apply merge_edges_ok.
Qed.

Lemma ParseSubgraphs_ok child y b c loading r :
  (forall root p l c', child root p l = PVal c' -> config_ok c') ->
  Forall edge_ok (edges c) -> ParseSubgraphs child y b c loading = PVal r ->
  Forall edge_ok (edges r.1).
Proof.
  intros Hchild Hc. unfold ParseSubgraphs. intros. parse_inv; [done|].
  eapply (pfold_ind (parse_subgraph child b loading) (fun acc => Forall edge_ok (edges acc.1)));
    [| |eassumption]; [|exact Hc].
  intros item acc acc' _ Hacc Hp. unfold parse_subgraph in Hp. cbv zeta in Hp. parse_inv.
  destruct (load_yaml _); [done|]. destruct (child _ _ _) eqn:Ec; try done.
  apply Hchild in Ec as [_ _ Hed _ _ _ _].
  parse_inv; simpl; eauto using MergeSubgraph_ok.
Qed.

Lemma ParseRoot_ok fuel root b loading c : ParseRoot fuel root b loading = PVal c -> config_ok c.
Proof.
  revert root b loading c. induction fuel as [|fuel IH]; intros root b loading c; [done|].
  cbn [ParseRoot]. intros H. parse_inv.
  match goal with H : (1 <=? _) && _ = true |- _ =>
    apply andb_true_iff in H as [Hv1%Z.leb_le Hv2%Z.leb_le] end.
  match goal with H : ParseFlowControl _ _ = _ |- _ => apply ParseFlowControl_ok in H as Hf end.
  destruct Hf as (Hf1 & Hf2 & Hf3).
  constructor; simpl; try done.
  - eapply ParseExecutors_ok. eassumption.
  - eapply ParseEdges_ok; [| |eassumption]; [done|].
    eapply ParseSubgraphs_ok; [exact IH| |eassumption]. done.
  - eapply (ParseGraphPorts_ok _ _ _ (input_queue _)); [exact Hf1|eassumption].
  - eapply (ParseGraphPorts_ok _ _ _ (observer_queue _)); [exact Hf3|eassumption].
  - eapply ParseSlots_ok. eassumption.
Qed.

(** C38: Every configuration the loader returns is well formed: a supported version, at
    least one executor and each with a name, threads and room for tasks; positive
    capacities for the queues of the defaults, the edges (those of included files as
    well), and the graph ports; endpoints with a node and a dot-free port; source slots
    with a name and an input, and an output whenever they have a template. *)
Theorem loaded_config_ok path yaml c :
  LoadFile path = Some (Okay c) \/ LoadString yaml = Some (Okay c) -> config_ok c.
Proof.
  assert (forall p : Parse GraphConfig, catch p = Some (Okay c) -> p = PVal c) as Hcatch.
  { intros []; simpl; naive_solver. }
  intros [H|H]; apply Hcatch in H; apply pbind_PVal in H as (root & _ & H);
    by apply ParseRoot_ok in H.
Qed.
End wellformed.

(** ** Environment variables *)

Inductive Segment :=
| SLit (c : ascii)
| SVar (name : list ascii) (dflt : option (list ascii)).

(** A literal character is not a dollar; a name is a name; a default has no
    closing brace. *)
Definition segment_ok (s : Segment) : Prop :=
  match s with
  | SLit c => c <> "$"%char
  | SVar name dflt =>
      (exists c t, name = c :: t /\ is_name_start c = true /\ Forall (fun c => is_name_char c = true) t) /\
      match dflt with Some d => Forall (fun c => c <> "}"%char) d | None => True end
  end.

Definition print_segment (s : Segment) : list ascii :=
  match s with
  | SLit c => [c]
  | SVar name None => "$"%char :: "{"%char :: name ++ ["}"%char]
  | SVar name (Some d) => "$"%char :: "{"%char :: name ++ ":"%char :: "-"%char :: d ++ ["}"%char]
  end.
Definition print_template (l : list Segment) : list ascii := concat (map print_segment l).

Lemma span_app f l c r : Forall (fun c => f c = true) l -> f c = false ->
  span f (l ++ c :: r) = (l, c :: r).
Proof.
  intros Hl Hc. induction Hl as [|x l Hx Hl IH]; simpl; [by rewrite Hc|].
  by rewrite Hx, IH.
Qed.

Lemma match_print name dflt rest : segment_ok (SVar name dflt) ->
  match_variable (print_segment (SVar name dflt) ++ rest) = Some (name, dflt, rest).
Proof.
  intros [(c & t & -> & Hc & Ht) Hd]. destruct dflt as [d|]; simpl; rewrite Hc.
  - rewrite <- app_assoc. simpl. rewrite (span_app is_name_char t ":"%char) by done.
    rewrite <- app_assoc. simpl. rewrite span_app; [done| |done].
    eapply Forall_impl; [exact Hd|]. intros x Hx; simpl. by rewrite bool_decide_eq_false_2.
  - rewrite <- app_assoc. simpl. by rewrite (span_app is_name_char t "}"%char) by done.
Qed.

Lemma match_literal c rest : c <> "$"%char -> match_variable (c :: rest) = None.
Proof.
  intros Hc. destruct c as [[] [] [] [] [] [] [] []]; try reflexivity. done.
Qed.

Section expansion.
Context `{HO : Host}.

Definition segment_value (s : Segment) : list ascii :=
  match s with SLit c => [c] | SVar name dflt => variable_value name dflt end.

Lemma expand_step fuel l : l <> [] ->
  expand (S fuel) l = match match_variable l with
                      | Some (name, dflt, after) => variable_value name dflt ++ expand fuel after
                      | None => match l with c :: t => c :: expand fuel t | [] => [] end
                      end.
Proof. by destruct l. Qed.

Lemma expand_template segs fuel : Forall segment_ok segs ->
  (length (print_template segs) <= fuel)%nat ->
  expand fuel (print_template segs) = concat (map segment_value segs).
Proof.
  intros Hs. revert fuel. induction Hs as [|s segs Hs Hsegs IH]; intros fuel Hf.
  - by destruct fuel.
  - unfold print_template in *. cbn [map concat] in *. rewrite length_app in Hf.
    destruct s as [c|name dflt].
    + simpl in Hf. destruct fuel as [|fuel]; [lia|]. cbn [print_segment app].
      rewrite expand_step, match_literal by done. simpl. rewrite IH by lia. done.
    + assert (2 <= length (print_segment (SVar name dflt)))%nat as Hlen
        by (destruct dflt; simpl; lia).
      destruct fuel as [|fuel]; [lia|].
      rewrite expand_step, match_print; [|done|by destruct dflt].
      cbn [segment_value]. rewrite IH by lia. done.
Qed.

(** Environment expansion substitutes exactly the variables: in a text made of
    literal characters other than a dollar and of variables with or without default,
    each variable becomes its non-empty value in the environment, or else its default,
    or else nothing, and every other character is kept. *)
Theorem expand_environment_spec segs : Forall segment_ok segs ->
  ExpandEnvironment (of_chars (print_template segs)) =
  of_chars (concat (map segment_value segs)).
Proof.
  intros Hs. unfold ExpandEnvironment. rewrite chars_of_chars.
  by rewrite expand_template.
Qed.

Lemma print_literals l : print_template (map SLit l) = l.
Proof.
  unfold print_template. induction l as [|c l IH]; simpl; [done|]. by rewrite IH.
Qed.
Lemma value_literals l : concat (map segment_value (map SLit l)) = l.
Proof. induction l as [|c l IH]; simpl; [done|]. by rewrite IH. Qed.

Lemma expand_no_dollar s : "$"%char ∉ chars s -> ExpandEnvironment s = s.
Proof.
  intros Hs. rewrite <- (of_chars_chars s) at 1. rewrite <- (print_literals (chars s)).
  unfold ExpandEnvironment. rewrite chars_of_chars, expand_template; [| |done].
  - by rewrite value_literals, of_chars_chars.
  - apply Forall_forall. intros x Hx. apply list_elem_of_fmap in Hx as (c & -> & Hc).
    simpl. intros ->. done.
Qed.
End expansion.

(** ** Integers *)

Lemma digit_facts c : is_digit c = true ->
  c <> "$"%char /\ c <> "-"%char /\ c <> "+"%char /\ is_sign c = false /\ c <> "."%char.
Proof.
  intros H. assert (forall d, is_digit d = false -> c <> d) as Hne by (intros d Hd ->; congruence).
  split_and!; try (by apply Hne). unfold is_sign.
  by rewrite !bool_decide_eq_false_2 by (by apply Hne).
Qed.

(** A text of digits, with a minus sign in front or not, is an integer. *)
Lemma pretty_Z_chars (z : Z) :
  integer_pattern (chars (pretty z)) = true /\ float_pattern (chars (pretty z)) = false /\
  stoll (chars (pretty z)) = (if bool_decide (int64_min <= z <= int64_max) then Some z else None) /\
  "$"%char ∉ chars (pretty z).
Proof.
  assert (forall ds, Forall (fun c => is_digit c = true) ds -> span is_digit ds = (ds, [])) as Hspan.
  { induction 1 as [|c ds Hc _ IH]; simpl; [done|]. by rewrite Hc, IH. }
  assert (forall ds, Forall (fun c => is_digit c = true) ds -> "$"%char ∉ ds) as Hdollar.
  { intros ds H Hin. rewrite Forall_forall in H. by apply H in Hin. }
  assert (forall ds, Forall (fun c => is_digit c = true) ds -> forallb is_digit ds = true) as Hall.
  { induction 1 as [|c ds Hc _ IH]; simpl; [done|]. by rewrite Hc. }
  assert (forall n : N, drop_sign (chars (pretty n)) = chars (pretty n)) as Hds.
  { intros n. destruct (pretty_N_chars n) as (Hf & _ & Hne).
    destruct (chars (pretty n)) as [|c t]; [done|]. apply Forall_cons in Hf as [Hc _].
    simpl. apply digit_facts in Hc as (_ & _ & _ & -> & _). done. }
  assert (forall n : N, stoll (chars (pretty n)) =
    if bool_decide (int64_min <= Z.of_N n <= int64_max) then Some (Z.of_N n) else None) as Hst.
  { intros n. destruct (pretty_N_chars n) as (Hf & Hd & Hne). unfold stoll. rewrite Hd.
    destruct (chars (pretty n)) as [|c t]; [done|]. apply Forall_cons in Hf as [Hc _].
    apply digit_facts in Hc as (_ & ? & ? & _). by rewrite !(bool_decide_eq_false_2 (c = _)). }
  unfold pretty at 1 2 3 4, pretty_Z. destruct z as [|p|p].
  - simpl. split_and!; try done. set_solver.
  - destruct (pretty_N_chars (Npos p)) as (Hf & Hd & Hne).
    change (pretty p) with (pretty (Npos p)). unfold integer_pattern, float_pattern.
    rewrite Hds, Hspan by done. split_and!.
    + rewrite Hall by done. by rewrite bool_decide_eq_false_2.
    + done.
    + by rewrite Hst.
    + by apply Hdollar.
  - destruct (pretty_N_chars (Npos p)) as (Hf & Hd & Hne).
    change (pretty p) with (pretty (Npos p)). cbn [String.append chars].
    unfold integer_pattern, float_pattern.
    change (drop_sign ("-"%char :: chars (pretty (N.pos p)))) with (chars (pretty (N.pos p))).
    rewrite Hspan by done. split_and!.
    + rewrite Hall by done. by rewrite bool_decide_eq_false_2.
    + done.
    + change (chars ("-" +:+ pretty (N.pos p))) with ("-"%char :: chars (pretty (N.pos p))).
      unfold stoll. rewrite (bool_decide_eq_true_2 ("-"%char = "-"%char)) by done. by rewrite Hd.
    + apply Hdollar in Hf. set_solver.
Qed.

(** An integer as a configuration value: a string when it is out of range. *)
Definition integer_value (z : Z) : ConfigValue :=
  if bool_decide (int64_min <= z <= int64_max) then CInt z else CString (pretty z).

(** Integers survive the loader: the decimal text of an integer is read back as that
    integer when it fits 64 bits, and is kept as a string otherwise. *)
Theorem integer_scalar_roundtrip `{YamlCpp} `{Host} (z : Z) :
  ParseValue (YScalar (pretty z)) = PVal (integer_value z).
Proof.
  destruct (pretty_Z_chars z) as (Hi & Hf & Hs & Hd). cbn [ParseValue].
  rewrite expand_no_dollar by done. unfold scalar_value, integer_value. rewrite Hi, Hf, Hs.
  rewrite !(bool_decide_eq_false_2 (pretty z = _)).
  - by case_bool_decide.
  - intros E. by rewrite E in Hi.
  - intros E. by rewrite E in Hi.
Qed.

(** ** Merging subgraphs *)

Lemma strip_string_Some p s t : strip_string p s = Some t <-> s = p +:+ t.
Proof.
  revert s. induction p as [|a p IH]; intros s; simpl; [split; [by intros [= ->]|by intros ->]|].
  destruct s as [|b s]; [done|]. case_bool_decide as Hab; simpl.
  - subst. rewrite IH. split; [by intros ->|by intros [= ->]].
  - split; [done|]. intros [= -> ?]. done.
Qed.

Lemma append_assoc (a b c : string) : a +:+ b +:+ c = (a +:+ b) +:+ c.
Proof.
  induction a as [|x a IH]; [done|].
  change (String x (a +:+ b +:+ c) = String x ((a +:+ b) +:+ c)). by rewrite IH.
Qed.

Lemma apply_overrides_lookup id ov o name :
  apply_overrides id ov o !! name =
  match ov !! (id +:+ "." +:+ name) with Some v => Some v | None => o !! name end.
Proof.
  unfold apply_overrides.
  assert (forall (l : list (string * ConfigValue)) (m : gmap string ConfigValue), NoDup l.*1 ->
    fold_left (fun o kv => match strip_string (id +:+ ".") kv.1 with
                           | Some name => <[name := kv.2]> o | None => o end) l m !! name =
    match (list_to_map l : gmap string ConfigValue) !! (id +:+ "." +:+ name) with
    | Some v => Some v | None => m !! name end) as H.
  { induction l as [|[k v] l IH]; intros m Hnd; simpl; [done|].
    apply NoDup_cons in Hnd as [Hk Hnd]. rewrite IH by done.
    assert (id +:+ "." +:+ name = (id +:+ ".") +:+ name) as Eapp
      by apply append_assoc.
    destruct (decide (k = id +:+ "." +:+ name)) as [->|Hne].
    - rewrite lookup_insert_eq. rewrite not_elem_of_list_to_map_1 by done.
      rewrite (proj2 (strip_string_Some _ _ name)) by done. by rewrite lookup_insert_eq.
    - rewrite lookup_insert_ne by done. destruct (list_to_map l !! _); [done|].
      destruct (strip_string (id +:+ ".") k) as [n|] eqn:E; [|done].
      apply strip_string_Some in E. rewrite lookup_insert_ne; [done|]. intros ->. congruence. }
  rewrite H by apply NoDup_fst_map_to_list. by rewrite list_to_map_to_list.
Qed.

Lemma append_inj (p a b : string) : p +:+ a = p +:+ b -> a = b.
Proof.
  induction p as [|c p IH]; [done|].
  change (String c (p +:+ a) = String c (p +:+ b) -> a = b). intros [= H]. auto.
Qed.

Definition ids (c : GraphConfig) : list string := map nc_id (nodes c).

(** The endpoints of the edges are nodes of the graph. *)
Definition edges_closed (c : GraphConfig) : Prop :=
  Forall (fun e => from_node e ∈ ids c /\ to_node e ∈ ids c) (edges c).

(** Merging a subgraph renames consistently and overrides precisely: the parent's
    nodes and edges are kept and followed by the child's under the prefix; an option of a
    merged node is the override keyed by the node and the option if there is one and the
    child's own otherwise; edges between nodes stay edges between nodes; and node names
    stay distinct when no parent node already lives under the prefix. *)
Theorem merge_subgraph_spec parent child prefix ov c :
  MergeSubgraph parent child prefix ov = Okay c ->
  nodes c = nodes parent ++ map (merge_node prefix ov) (nodes child) /\
  (forall n name, n ∈ nodes child ->
     nc_options (merge_node prefix ov n) !! name =
     match ov !! (nc_id n +:+ "." +:+ name) with
     | Some v => Some v
     | None => nc_options n !! name
     end) /\
  (edges_closed parent -> edges_closed child -> edges_closed c) /\
  (NoDup (ids parent) -> NoDup (ids child) ->
   (forall i, prefix +:+ "." +:+ i ∉ ids parent) -> NoDup (ids c)).
Proof.
  unfold MergeSubgraph. case_bool_decide; [done|]. intros [= <-].
  assert (map nc_id (map (merge_node prefix ov) (nodes child)) =
          map (fun i => prefix +:+ "." +:+ i) (ids child)) as Hids.
  { unfold ids. rewrite !List.map_map. by apply map_ext. }
  split_and!; [done| | |].
  - intros n name _. apply apply_overrides_lookup.
  - unfold edges_closed, ids; simpl. rewrite List.map_app, Hids. intros Hp Hc.
    apply Forall_app. split.
    + eapply Forall_impl; [exact Hp|]. intros e [? ?]. rewrite !elem_of_app. auto.
    + rewrite Forall_map. eapply Forall_impl; [exact Hc|]. intros e [? ?]; simpl.
      rewrite !elem_of_app. split; right;
        by apply (list_elem_of_fmap_2 (fun i => prefix +:+ "." +:+ i)).
  - unfold ids at 4; simpl. rewrite List.map_app, Hids. intros Hp Hc Hfresh.
    apply NoDup_app. split_and!; [done| |].
    + intros i Hi Hin. apply list_elem_of_fmap in Hin as (j & -> & _).
      by apply (Hfresh j).
    + assert (Inj (=) (=) (fun i => prefix +:+ "." +:+ i)) as Hinj.
      { intros a b Hab. by apply append_inj, (append_inj ".") in Hab. }
      by apply (NoDup_fmap_2 (fun i => prefix +:+ "." +:+ i)).
Qed.

(** ** A concrete host *)

(** yaml-cpp's documented subscript and conversions on the documents used
    below, and a host with two files: one that includes the other, and one that
    includes itself. *)
Definition demo_subscript (y : Yaml) (k : string) : string + Yaml :=
  match y with
  | YScalar _ => inl "operator[] call on a scalar"
  | YMap m => match List.find (fun kv => match kv.1 with
                                         | YScalar s => bool_decide (s = k)
                                         | _ => false
                                         end) m with
              | Some (_, v) => inr v
              | None => inr YUndefined
              end
  | _ => inr YUndefined
  end.
Definition demo_string (y : Yaml) : string + string :=
  match y with YScalar s => inr s | _ => inl "bad conversion" end.
Definition demo_int (y : Yaml) : string + Z :=
  match y with
  | YScalar s => if integer_pattern (chars s) then inr (default 0 (stoll (chars s)))
                 else inl "bad conversion"
  | _ => inl "bad conversion"
  end.
Definition demo_yaml : YamlCpp := Build_YamlCpp
  demo_subscript demo_string
  (fun y => match demo_int y with inr z => inr (Z.to_nat z) | inl w => inl w end)
  demo_int
  (fun y => match y with YScalar "true" => inr true | YScalar "false" => inr false
                    | _ => inl "bad conversion" end).

Definition entry (k : string) (v : Yaml) : Yaml * Yaml := (YScalar k, v).
Definition demo_child : Yaml :=
  YMap [entry "graph" (YMap
    [entry "nodes" (YSeq [YMap [entry "id" (YScalar "p"); entry "type" (YScalar "Passthrough")]]);
     entry "inputs" (YMap [entry "in" (YScalar "p.in")]);
     entry "outputs" (YMap [entry "out" (YScalar "p.out")])])].
Definition demo_root : Yaml :=
  YMap [entry "version" (YScalar "2");
    entry "graph" (YMap
    [entry "nodes" (YSeq [YMap [entry "id" (YScalar "sink"); entry "type" (YScalar "NullSink")]]);
     entry "subgraphs" (YSeq [YMap [entry "id" (YScalar "sub"); entry "file" (YScalar "child.yaml")]]);
     entry "edges" (YSeq [YMap [entry "from" (YScalar "sub.out"); entry "to" (YScalar "sink.in")]])])].
Definition demo_loop : Yaml :=
  YMap [entry "graph" (YMap
    [entry "nodes" (YSeq []);
     entry "subgraphs" (YSeq [YMap [entry "id" (YScalar "me"); entry "file" (YScalar "loop.yaml")]])])].
Definition demo_host : Host := Build_Host
  (fun n => if bool_decide (n = "HOST") then Some "cam" else None) (fun _ => None)
  (fun a b => b) (fun p => "") (fun p => p) (fun p => p) "" (fun _ => inr demo_root)
  (fun p => "bad file: " +:+ p)
  {[ "root.yaml" := inr demo_root; "child.yaml" := inr demo_child; "loop.yaml" := inr demo_loop ]}.

(** A file that includes itself is refused, one level down. *)
Example self_inclusion_refused :
  @LoadFile demo_yaml demo_host "loop.yaml" =
  Some (Err (Invalid "recursive subgraph include: loop.yaml")).
Proof. vm_compute. reflexivity. Qed.

Definition demo_config : GraphConfig :=
  Eval vm_compute in
  match @LoadFile demo_yaml demo_host "root.yaml" with
  | Some (Okay c) => c
  | _ => empty_config
  end.

Lemma loaded_config_ok_witness :
  map (fun e => (from_node e, from_port e, to_node e, to_port e)) (edges demo_config) =
    [("sub.p", "out", "sink", "in")] /\ config_ok demo_config.
Proof.
  split; [reflexivity|].
  apply (@loaded_config_ok demo_yaml demo_host "root.yaml" ""). left. vm_compute. reflexivity.
Defined.

Lemma expand_environment_spec_witness :
  @ExpandEnvironment demo_host "rtsp://${HOST}:${PORT:-554}" = "rtsp://cam:554".
Proof.
  change "rtsp://${HOST}:${PORT:-554}" with (of_chars (print_template
    (map SLit (chars "rtsp://") ++ [SVar (chars "HOST") None; SLit ":"%char;
       SVar (chars "PORT") (Some (chars "554"))]))).
  rewrite (@expand_environment_spec demo_host); [vm_compute; reflexivity|].
  repeat (first [apply Forall_nil_2 | apply Forall_cons_2]); simpl; try discriminate.
  - split; [|done]. exists "H"%char, (chars "OST"). by repeat constructor.
  - split; [|by repeat constructor]. exists "P"%char, (chars "ORT"). by repeat constructor.
Defined.

Lemma merge_subgraph_spec_witness :
  exists c, MergeSubgraph demo_config demo_config "x" ∅ = Okay c /\ NoDup (ids c).
Proof.
  eexists. split; [reflexivity|].
  eapply (merge_subgraph_spec demo_config demo_config "x" ∅); [reflexivity| | |].
  - by apply (bool_decide_unpack (NoDup (ids demo_config))).
  - by apply (bool_decide_unpack (NoDup (ids demo_config))).
  - intros i Hi. simpl in Hi. repeat (apply elem_of_cons in Hi as [Hi|Hi]; [discriminate Hi|]).
    by apply elem_of_nil in Hi.
Defined.
