(* ===== verification/GraphFacts.v ===== *)
(** * Validation accepts exactly the valid graphs

    The declarative specification of a valid graph and its equivalence with
    [Validate] of [src/core/graph.cpp]. *)

From S2P Require Import Prelude Text Status Values BoundedQueue Contract Node Registry GraphConfig Graph.
Local Open Scope Z_scope.
Local Open Scope rkavp_scope.

(** ** Loops that refuse a second use of a key *)

Section unique_loop.
Context {A S : Type} (key : A -> string) (has : S -> string -> Prop) (add : S -> A -> S)
        (P : A -> Prop) (step : S -> A -> Res S).
Hypothesis has_add : forall s a k, has (add s a) k <-> k = key a \/ has s k.
Hypothesis step_spec : forall s a s', step s a = Okay s' <-> ~ has s (key a) /\ P a /\ s' = add s a.

Lemma unique_loop l s s' :
  res_fold step l s = Okay s' <->
  NoDup (map key l) /\ Forall (fun a => ~ has s (key a)) l /\ Forall P l /\ s' = fold_left add l s.
Proof.
  revert s. induction l as [|a l IH]; intros s; simpl.
  - split; [intros [= ->]|intros (_ & _ & _ & ->); done]. split_and!; auto using NoDup_nil_2.
  - rewrite res_bind_Okay. setoid_rewrite IH. setoid_rewrite step_spec.
    rewrite NoDup_cons, !Forall_cons. split.
    + intros (b & (Hn & Hp & ->) & Hnd & Hf & HP & ->). rewrite Forall_forall in Hf.
      split_and!; try done.
      * intros Hin. apply list_elem_of_In, in_map_iff in Hin as (x & Hk & Hx%list_elem_of_In).
        apply (Hf x Hx), has_add. by left.
      * apply Forall_forall. intros x Hx Hh. apply (Hf x Hx), has_add. by right.
    + intros ((Hk & Hnd) & (Hn & Hf) & (Hp & HP) & ->). exists (add s a).
      split_and!; try done. apply Forall_forall. intros x Hx [Heq|Hh]%has_add.
      * apply Hk. rewrite <- Heq. by apply (list_elem_of_fmap_2 key).
      * rewrite Forall_forall in Hf. by apply (Hf x).
Qed.
End unique_loop.

(** The loops that collect names in a set. *)
Lemma seen_loop {A} (key : A -> string) (P : A -> Prop) (step : gset string -> A -> Res (gset string)) l s' :
  (forall s a s', step s a = Okay s' <-> ~ key a ∈ s /\ P a /\ s' = {[key a]} ∪ s) ->
  res_fold step l ∅ = Okay s' <->
  NoDup (map key l) /\ Forall P l /\ s' = fold_left (fun s a => {[key a]} ∪ s) l ∅.
Proof.
  intros Hstep.
  rewrite (unique_loop key (fun s k => k ∈ s) (fun s a => {[key a]} ∪ s) P step).
  - assert (Forall (fun a => key a ∉ (∅ : gset string)) l).
    { apply Forall_forall. set_solver. }
    naive_solver.
  - set_solver.
  - exact Hstep.
Qed.

Lemma seen_set {A} (key : A -> string) l (s : gset string) k :
  k ∈ fold_left (fun s a => {[key a]} ∪ s) l s <-> k ∈ map key l \/ k ∈ s.
Proof.
  revert s. induction l as [|a l IH]; intros s; simpl; [set_solver|]. rewrite IH. set_solver.
Qed.

(** Lookups in a map filled by such a loop. *)
Lemma add_all_lookup {A V} (key : A -> string) (val : A -> option V) l (m : gmap string V) k v :
  NoDup (map key l) -> Forall (fun a => is_Some (val a)) l ->
  fold_left (fun m a => match val a with Some x => <[key a := x]> m | None => m end) l m !! k = Some v <->
  (exists a, a ∈ l /\ key a = k /\ val a = Some v) \/ (m !! k = Some v /\ k ∉ map key l).
Proof.
  revert m. induction l as [|a l IH]; intros m Hnd Hv; simpl; [set_solver|].
  apply NoDup_cons in Hnd as [Ha Hnd]. apply Forall_cons in Hv as [[x Hx] Hv].
  rewrite IH by done. rewrite Hx. split.
  - intros [(b & Hb & Hk & Hvb)|[Hm Hk]]; [left; exists b; set_solver|].
    destruct (decide (k = key a)) as [->|Hne].
    + rewrite lookup_insert_eq in Hm. simplify_eq. left. exists a. set_solver.
    + rewrite lookup_insert_ne in Hm by done. right. set_solver.
  - intros [(b & Hb & Hk & Hvb)|[Hm Hk]].
    + apply elem_of_cons in Hb as [->|Hb]; [|left; exists b; set_solver].
      right. rewrite <- Hk. rewrite lookup_insert_eq. split; [congruence|done].
    + right. rewrite lookup_insert_ne by set_solver. set_solver.
Qed.

(** ** The specification *)

Section spec.
Variable config_ : GraphConfig.
Variable registry_ : NodeRegistry.Registry.

(** Node [i] of the graph, its contract. *)
Definition node_contract (i : string) (n : NodeConfig) (c : NodeContract) : Prop :=
  n ∈ nodes config_ /\ nc_id n = i /\ contract_of registry_ (nc_type n) = Some c.

Definition executor_named (name : string) (x : ExecutorConfig) : Prop :=
  x ∈ executors config_ /\ ex_name x = name.

Definition valid_node (n : NodeConfig) : Prop :=
  nc_id n <> "" /\ nc_type n <> "" /\ (exists x, executor_named (nc_executor n) x) /\
  exists c, contract_of registry_ (nc_type n) = Some c /\
    ok (ValidateOptions c (nc_options n)) = true /\
    (effective_policy n c = kLatest -> effective_trigger n c <> "" ->
     is_Some (FindInput c (effective_trigger n c))).

(** Both endpoints exist with compatible capabilities; a back edge has an
    initial packet; an edge that blocks its producer does not join two nodes of
    one single-thread executor. *)
Definition valid_edge (e : EdgeConfig) : Prop :=
  exists n1 c1 n2 c2 output input,
    node_contract (from_node e) n1 c1 /\ node_contract (to_node e) n2 c2 /\
    FindOutput c1 (from_port e) = Some output /\ FindInput c2 (to_port e) = Some input /\
    CompatibleWith (port_caps output) (port_caps input) = true /\
    (back_edge e = true -> initial_packet e <> CNull) /\
    ~ (qc_policy (e_queue e) = kBlock /\ nc_executor n1 = nc_executor n2 /\
       exists x, executor_named (nc_executor n1) x /\ ex_threads x = 1%nat).

Definition has_input (p : GraphPortConfig) : Prop :=
  exists n c, node_contract (gp_node p) n c /\ is_Some (FindInput c (gp_port p)).
Definition has_output (p : GraphPortConfig) : Prop :=
  exists n c, node_contract (gp_node p) n c /\ is_Some (FindOutput c (gp_port p)).

Record valid_graph : Prop := mkValid {
  vg_nodes_nonempty : nodes config_ <> [];
  vg_observer : qc_capacity (observer_queue (flow_control config_)) <> 0%nat /\
                qc_policy (observer_queue (flow_control config_)) <> kBlock;
  vg_executor_names : NoDup (map ex_name (executors config_));
  vg_node_ids : NoDup (map nc_id (nodes config_));
  vg_nodes : Forall valid_node (nodes config_);
  vg_edges : Forall valid_edge (edges config_);
  vg_input_names : NoDup (map gp_name (ginputs config_));
  vg_inputs : Forall (fun p => qc_capacity (gp_queue p) <> 0%nat /\ has_input p) (ginputs config_);
  vg_slot_names : NoDup (map slot_name (source_slots config_));
  vg_slots : Forall (fun s => input_stream s ∈ map gp_name (ginputs config_)) (source_slots config_);
  vg_output_names : NoDup (map gp_name (goutputs config_));
  vg_outputs : Forall has_output (goutputs config_);
  vg_acyclic : ~ cyclic config_ }.

(** ** The loops *)

Lemma executor_loop m : res_fold executor_step (executors config_) ∅ = Okay m <->
  NoDup (map ex_name (executors config_)) /\
  m = fold_left (fun m e => <[ex_name e := e]> m) (executors config_) ∅.
Proof.
  rewrite (unique_loop ex_name (fun m k => is_Some (m !! k)) (fun m e => <[ex_name e := e]> m)
             (fun _ => True) executor_step).
  - assert (Forall (fun a => ~ is_Some ((∅ : gmap string ExecutorConfig) !! ex_name a)) (executors config_)).
    { apply Forall_forall. intros x _ [? H]. by rewrite lookup_empty in H. }
    assert (Forall (fun _ : ExecutorConfig => True) (executors config_)) as HT
      by (apply Forall_forall; intros; exact I).
    split; [intros (H1 & _ & _ & H2); done|intros (H1 & H2); done].
  - intros s a k. destruct (decide (k = ex_name a)) as [->|Hne].
    + rewrite lookup_insert_eq. naive_solver.
    + rewrite lookup_insert_ne by done. naive_solver.
  - intros s a s'. unfold executor_step. destruct (s !! ex_name a) eqn:E.
    + split; [done|]. intros [H _]. destruct H. by eexists.
    + split; [intros [= <-]|by intros (_ & _ & ->)]. split; [by intros [? ?]|done].
Qed.

Definition execs_map : gmap string ExecutorConfig :=
  fold_left (fun m e => <[ex_name e := e]> m) (executors config_) ∅.

Lemma execs_lookup k x : NoDup (map ex_name (executors config_)) ->
  execs_map !! k = Some x <-> executor_named k x.
Proof.
  intros Hnd. unfold execs_map.
  rewrite (add_all_lookup ex_name (fun e => Some e) (executors config_) ∅ k x Hnd).
  - rewrite lookup_empty. unfold executor_named. naive_solver.
  - apply Forall_forall. by eexists.
Qed.

(** The local conditions of the node loop. *)
Definition node_passes (execs : gmap string ExecutorConfig) (n : NodeConfig) : Prop :=
  nc_id n <> "" /\ nc_type n <> "" /\ is_Some (execs !! nc_executor n) /\
  exists c, contract_of registry_ (nc_type n) = Some c /\
    ok (ValidateOptions c (nc_options n)) = true /\ bad_trigger n c = false.

Definition add_node (m : NodeMaps) (n : NodeConfig) : NodeMaps :=
  mkNodeMaps (<[nc_id n := n]> (node_map m))
             match contract_of registry_ (nc_type n) with
             | Some c => <[nc_id n := c]> (contracts m)
             | None => contracts m
             end.

Lemma node_step_spec execs m n m' :
  node_step registry_ execs m n = Okay m' <->
  ~ is_Some (node_map m !! nc_id n) /\ node_passes execs n /\ m' = add_node m n.
Proof.
  unfold node_step, node_passes, add_node.
  destruct (bool_decide (nc_id n = "")) eqn:E1; [apply bool_decide_eq_true in E1; naive_solver|].
  destruct (bool_decide (nc_type n = "")) eqn:E2; [apply bool_decide_eq_true in E2; naive_solver|].
  apply bool_decide_eq_false in E1, E2. simpl.
  destruct (node_map m !! nc_id n) eqn:E3; [naive_solver|].
  destruct (execs !! nc_executor n) eqn:E4; [|split; [done|intros (_ & (_ & _ & [? ?] & _) & _); done]].
  destruct (contract_of registry_ (nc_type n)) as [c|] eqn:E5;
    [|split; [done|by intros (_ & (_ & _ & _ & ? & ? & _) & _)]].
  destruct (ok (ValidateOptions c (nc_options n))) eqn:E6;
    [|split; [done|intros (_ & (_ & _ & _ & ? & [= <-] & ? & _) & _); congruence]].
  destruct (bad_trigger n c) eqn:E7; simpl;
    [split; [done|intros (_ & (_ & _ & _ & ? & [= <-] & _ & ?) & _); congruence]|].
  split; [intros [= <-]|by intros (_ & _ & ->)].
  split; [by intros [? ?]|]. split; [|done]. split_and!; eauto.
Qed.

Lemma bad_trigger_spec n c : bad_trigger n c = false <->
  (effective_policy n c = kLatest -> effective_trigger n c <> "" ->
   is_Some (FindInput c (effective_trigger n c))).
Proof.
  unfold bad_trigger. rewrite <- not_eq_None_Some.
  repeat case_bool_decide; simpl; naive_solver.
Qed.

Lemma node_loop execs m :
  res_fold (node_step registry_ execs) (nodes config_) (mkNodeMaps ∅ ∅) = Okay m <->
  NoDup (map nc_id (nodes config_)) /\ Forall (node_passes execs) (nodes config_) /\
  m = fold_left add_node (nodes config_) (mkNodeMaps ∅ ∅).
Proof.
  rewrite (unique_loop nc_id (fun m k => is_Some (node_map m !! k)) add_node (node_passes execs)).
  - assert (Forall (fun n => ~ is_Some (node_map (mkNodeMaps ∅ ∅) !! nc_id n)) (nodes config_)).
    { apply Forall_forall. intros x _ [? H]. simpl in H. by rewrite lookup_empty in H. }
    naive_solver.
  - intros s a k. simpl. destruct (decide (k = nc_id a)) as [->|Hne].
    + rewrite lookup_insert_eq. naive_solver.
    + rewrite lookup_insert_ne by done. naive_solver.
  - apply node_step_spec.
Qed.

Definition final_maps : NodeMaps := fold_left add_node (nodes config_) (mkNodeMaps ∅ ∅).

Lemma final_maps_split l m :
  node_map (fold_left add_node l m) =
    fold_left (fun m n => match Some n with Some x => <[nc_id n := x]> m | None => m end) l (node_map m) /\
  contracts (fold_left add_node l m) =
    fold_left (fun m n => match contract_of registry_ (nc_type n) with
                          | Some x => <[nc_id n := x]> m | None => m end) l (contracts m).
Proof. revert m. induction l as [|n l IH]; intros m; [done|]. apply (IH (add_node m n)). Qed.

Lemma node_lookup i n : NoDup (map nc_id (nodes config_)) ->
  node_map final_maps !! i = Some n <-> n ∈ nodes config_ /\ nc_id n = i.
Proof.
  intros Hnd. unfold final_maps. rewrite (proj1 (final_maps_split _ _)).
  pose proof (add_all_lookup nc_id (fun n => Some n) (nodes config_) ∅ i n Hnd) as H.
  etrans; [apply H, Forall_forall; by eexists|]. rewrite lookup_empty. naive_solver.
Qed.

Lemma contract_lookup i c : NoDup (map nc_id (nodes config_)) ->
  Forall (fun n => is_Some (contract_of registry_ (nc_type n))) (nodes config_) ->
  contracts final_maps !! i = Some c <-> exists n, node_contract i n c.
Proof.
  intros Hnd Hc. unfold final_maps. rewrite (proj2 (final_maps_split _ _)).
  rewrite add_all_lookup by done. simpl. rewrite lookup_empty. unfold node_contract.
  split; [intros [(a & ? & ? & ?)|[? _]]; [by exists a|done]|intros (a & ? & ? & ?); left; by exists a].
Qed.

(** From here on the nodes and executors are the checked ones. *)
Section checked.
Hypothesis executor_names : NoDup (map ex_name (executors config_)).
Hypothesis node_ids : NoDup (map nc_id (nodes config_)).
Hypothesis nodes_pass : Forall (node_passes execs_map) (nodes config_).

Lemma have_contracts :
  Forall (fun n => is_Some (contract_of registry_ (nc_type n))) (nodes config_).
Proof.
  eapply Forall_impl; [exact nodes_pass|]. intros n (_ & _ & _ & c & -> & _). by eexists.
Qed.

Lemma same_node i n n' c c' : node_contract i n c -> node_contract i n' c' -> n = n' /\ c = c'.
Proof.
  intros (Hn & Hi & Hc) (Hn' & Hi' & Hc').
  assert (node_map final_maps !! i = Some n) as H1 by (by apply node_lookup).
  assert (node_map final_maps !! i = Some n') as H2 by (by apply node_lookup).
  rewrite H1 in H2. simplify_eq. split; [done|]. congruence.
Qed.

Lemma deadlock_edge_spec e n1 c1 n2 c2 :
  node_contract (from_node e) n1 c1 -> node_contract (to_node e) n2 c2 ->
  deadlock_edge execs_map final_maps e = false <->
  ~ (qc_policy (e_queue e) = kBlock /\ nc_executor n1 = nc_executor n2 /\
     exists x, executor_named (nc_executor n1) x /\ ex_threads x = 1%nat).
Proof.
  intros (H1 & I1 & _) (H2 & I2 & _). unfold deadlock_edge.
  rewrite (proj2 (node_lookup (from_node e) n1 node_ids)) by done.
  rewrite (proj2 (node_lookup (to_node e) n2 node_ids)) by done.
  destruct (bool_decide (qc_policy (e_queue e) = kBlock)) eqn:E1;
    [apply bool_decide_eq_true in E1|apply bool_decide_eq_false in E1; naive_solver].
  destruct (bool_decide (nc_executor n1 = nc_executor n2)) eqn:E2;
    [apply bool_decide_eq_true in E2|apply bool_decide_eq_false in E2; naive_solver]. simpl.
  destruct (execs_map !! nc_executor n1) as [x|] eqn:Ex.
  - pose proof (proj1 (execs_lookup _ _ executor_names) Ex) as Hx. rewrite bool_decide_eq_false.
    split; [|naive_solver]. intros Ht (_ & _ & x' & Hx' & Hthr).
    apply (execs_lookup _ _ executor_names) in Hx'. rewrite Ex in Hx'. by simplify_eq.
  - split; [|done]. intros _ (_ & _ & x' & Hx' & _).
    apply (execs_lookup _ _ executor_names) in Hx'. by rewrite Ex in Hx'.
Qed.

Lemma edge_step_spec e : edge_step execs_map final_maps tt e = Okay tt <-> valid_edge e.
Proof.
  pose proof (fun i c => contract_lookup i c node_ids have_contracts) as Hlk.
  unfold edge_step, valid_edge. split.
  - destruct (contracts final_maps !! from_node e) as [c1|] eqn:E1; [|done].
    destruct (contracts final_maps !! to_node e) as [c2|] eqn:E2; [|done].
    destruct (FindOutput c1 (from_port e)) as [o|] eqn:Eo; [|done].
    destruct (FindInput c2 (to_port e)) as [i|] eqn:Ei; [|done].
    destruct (CompatibleWith _ _) eqn:Ec; [|done].
    destruct (back_edge e && is_null (initial_packet e)) eqn:Eb; [done|].
    destruct (deadlock_edge execs_map final_maps e) eqn:Ed; [done|]. intros _.
    apply Hlk in E1 as [n1 H1]. apply Hlk in E2 as [n2 H2].
    exists n1, c1, n2, c2, o, i. split_and!; try done.
    + intros Hbk Hnull. rewrite Hbk, Hnull in Eb. done.
    + by eapply deadlock_edge_spec.
  - intros (n1 & c1 & n2 & c2 & o & i & H1 & H2 & Ho & Hi & Hc & Hb & Hd).
    rewrite (proj2 (Hlk (from_node e) c1)), (proj2 (Hlk (to_node e) c2)) by eauto.
    rewrite Ho, Hi, Hc. destruct (back_edge e && is_null (initial_packet e)) eqn:Eb; simpl.
    { apply andb_true_iff in Eb as [Eb1 Eb2]. exfalso. apply (Hb Eb1).
      by destruct (initial_packet e). }
    by rewrite (proj2 (deadlock_edge_spec e n1 c1 n2 c2 H1 H2) Hd).
Qed.

Lemma unit_loop {A} (f : unit -> A -> Res unit) (P : A -> Prop) l :
  (forall a, f tt a = Okay tt <-> P a) -> res_fold f l tt = Okay tt <-> Forall P l.
Proof.
  intros Hf. induction l as [|a l IH]; simpl; [by split|].
  rewrite res_bind_Okay, Forall_cons, <- Hf, <- IH. split.
  - intros ([] & ? & ?). done.
  - intros [? ?]. by exists tt.
Qed.

Lemma endpoint_spec find node port :
  is_Some (endpoint final_maps find node port) <->
  exists n c, node_contract node n c /\ is_Some (find c port).
Proof.
  pose proof (fun i c => contract_lookup i c node_ids have_contracts) as Hlk.
  unfold endpoint. split.
  - intros [p (c & Hc & Hp)%bind_Some]. apply Hlk in Hc as [n Hn]. eauto.
  - intros (n & c & Hn & p & Hp). exists p. apply bind_Some. exists c.
    split; [apply Hlk; eauto|done].
Qed.

Lemma input_step_spec s p s' : input_step final_maps s p = Okay s' <->
  ~ gp_name p ∈ s /\ (qc_capacity (gp_queue p) <> 0%nat /\ has_input p) /\ s' = {[gp_name p]} ∪ s.
Proof.
  unfold input_step, has_input. rewrite <- (endpoint_spec FindInput).
  case_bool_decide; [|naive_solver]. case_bool_decide; simpl; [naive_solver|].
  destruct (endpoint _ _ _ _); [|split; [done|by intros (_ & (_ & [? ?]) & _)]].
  split; [intros [= <-]; split_and!; eauto|by intros (_ & _ & ->)].
Qed.

Lemma port_step_spec (input : bool) s p s' : port_step final_maps input s p = Okay s' <->
  ~ gp_name p ∈ s /\ (if input then has_input p else has_output p) /\ s' = {[gp_name p]} ∪ s.
Proof.
  assert (port_step final_maps input s p = Okay s' <-> ~ gp_name p ∈ s /\
    is_Some (endpoint final_maps (if input then FindInput else FindOutput) (gp_node p) (gp_port p)) /\
    s' = {[gp_name p]} ∪ s) as ->.
  { unfold port_step, endpoint. case_bool_decide; [|naive_solver].
    destruct (contracts final_maps !! gp_node p) as [c|]; simpl; [|split; [done|by intros (_ & [? ?] & _)]].
    destruct input; destruct (_ c (gp_port p)); simpl;
      try (split; [done|by intros (_ & [? ?] & _)]);
      (split; [intros [= <-]; split_and!; eauto|by intros (_ & _ & ->)]). }
  rewrite endpoint_spec. by destruct input.
Qed.

Lemma slot_step_spec gi s x s' : slot_step gi s x = Okay s' <->
  ~ slot_name x ∈ s /\ input_stream x ∈ gi /\ s' = {[slot_name x]} ∪ s.
Proof. unfold slot_step. repeat case_bool_decide; naive_solver. Qed.
End checked.

Lemma node_passes_valid n : NoDup (map ex_name (executors config_)) ->
  node_passes execs_map n <-> valid_node n.
Proof.
  intros Hnd. unfold node_passes, valid_node.
  assert (is_Some (execs_map !! nc_executor n) <-> exists x, executor_named (nc_executor n) x) as ->.
  { split; intros [x Hx]; exists x; by apply execs_lookup. }
  setoid_rewrite bad_trigger_spec. done.
Qed.

Lemma negb_decide (P : Prop) `{Decision P} : negb (bool_decide P) = true <-> ~ P.
Proof. case_bool_decide; naive_solver. Qed.

Lemma valid_edge_from e : valid_edge e -> from_node e ∈ map nc_id (nodes config_).
Proof.
  intros (n1 & c1 & _ & _ & _ & _ & (Hn & <- & _) & _).
  by apply (list_elem_of_fmap_2 nc_id).
Qed.

Definition name_set {A} (key : A -> string) (l : list A) : gset string :=
  fold_left (fun s a => {[key a]} ∪ s) l ∅.

(** The verdict of the search when the edges are valid. *)
Lemma acyclic_verdict : Forall valid_edge (edges config_) ->
  match ValidateAcyclic config_ with
  | Some s => require ok s else s; Okay tt
  | None => Err (Internal "unreachable")
  end = Okay tt <-> ~ cyclic config_.
Proof.
  intros Hedges. destruct (acyclic_search config_) as (st & -> & Hst).
  - intros e He. rewrite Forall_forall in Hedges. by apply valid_edge_from, Hedges.
  - rewrite <- Hst. by destruct (ok st).
Qed.

Lemma slots_loop : Forall (fun s => input_stream s ∈ name_set gp_name (ginputs config_)) (source_slots config_) <->
  Forall (fun s => input_stream s ∈ map gp_name (ginputs config_)) (source_slots config_).
Proof.
  rewrite !Forall_forall. split; intros H x Hx; specialize (H x Hx); revert H;
    unfold name_set; rewrite seen_set; set_solver.
Qed.

Lemma validate_sound : ValidateRes config_ registry_ = Okay tt -> valid_graph.
Proof.
  unfold ValidateRes.
  destruct (negb (bool_decide (length (nodes config_) = 0%nat))) eqn:E1; [|done].
  destruct (negb (bool_decide (qc_capacity _ = 0%nat))) eqn:E2; [|done].
  destruct (negb (bool_decide (qc_policy _ = kBlock))) eqn:E3; [|done].
  apply negb_decide in E1, E2, E3.
  intros (execs & [Hex ->]%executor_loop & H)%res_bind_Okay. fold execs_map in H.
  apply res_bind_Okay in H as (m & (Hid & Hpass & ->)%node_loop & H). fold final_maps in H.
  apply res_bind_Okay in H as ([] & He & H).
  apply (unit_loop _ valid_edge) in He; [|by apply edge_step_spec].
  apply res_bind_Okay in H as (gi & Hin & H).
  apply (seen_loop _ _ _ _ _ (input_step_spec Hid Hpass)) in Hin as (Hin1 & Hin2 & ->).
  apply res_bind_Okay in H as (sl & Hsl & H).
  apply (seen_loop _ _ _ _ _ (slot_step_spec _)) in Hsl as (Hsl1 & Hsl2 & _).
  apply res_bind_Okay in H as (p1 & _ & H).
  apply res_bind_Okay in H as (p2 & Hout & H).
  apply (seen_loop _ _ _ _ _ (port_step_spec Hid Hpass false)) in Hout as (Hout1 & Hout2 & _).
  apply acyclic_verdict in H; [|done].
  constructor; try done.
  - by destruct (nodes config_).
  - eapply Forall_impl; [exact Hpass|]. intros n. by apply node_passes_valid.
  - by apply slots_loop.
Qed.

Lemma validate_complete : valid_graph -> ValidateRes config_ registry_ = Okay tt.
Proof.
  intros [H1 [H2 H3] Hex Hid Hn He Hin1 Hin2 Hsl1 Hsl2 Hout1 Hout2 Hac]. unfold ValidateRes.
  rewrite !(proj2 (negb_decide _)); [|done|done|by destruct (nodes config_)].
  assert (Forall (node_passes execs_map) (nodes config_)) as Hpass.
  { eapply Forall_impl; [exact Hn|]. intros n. by apply node_passes_valid. }
  apply res_bind_Okay. exists execs_map. split; [by apply executor_loop|].
  apply res_bind_Okay. exists final_maps. split; [by apply node_loop|].
  apply res_bind_Okay. exists tt. split.
  { apply (unit_loop _ valid_edge); [by apply edge_step_spec|done]. }
  apply res_bind_Okay. exists (name_set gp_name (ginputs config_)). split.
  { apply (seen_loop _ _ _ _ _ (input_step_spec Hid Hpass)). by split_and!. }
  apply res_bind_Okay. exists (name_set slot_name (source_slots config_)). split.
  { apply (seen_loop _ _ _ _ _ (slot_step_spec _)). split_and!; try done. by apply slots_loop. }
  apply res_bind_Okay. exists (name_set gp_name (ginputs config_)). split.
  { apply (seen_loop _ _ _ _ _ (port_step_spec Hid Hpass true)). split_and!; try done.
    eapply Forall_impl; [exact Hin2|]. by intros p [_ ?]. }
  apply res_bind_Okay. exists (name_set gp_name (goutputs config_)). split.
  { apply (seen_loop _ _ _ _ _ (port_step_spec Hid Hpass false)). by split_and!. }
  by apply acyclic_verdict.
Qed.

(** An error is never reported with the status ok. *)
Definition honest {A} (r : Res A) : Prop := forall s, r = Err s -> ok s = false.

Lemma honest_bind {A B} (r : Res A) (f : A -> Res B) :
  honest r -> (forall a, honest (f a)) -> honest (res_bind r f).
Proof. intros Hr Hf. destruct r; [apply Hf|]. intros s' [= <-]. by apply Hr. Qed.

Lemma honest_fold {A B} (f : B -> A -> Res B) l b :
  (forall b a, honest (f b a)) -> honest (res_fold f l b).
Proof.
  intros Hf. revert b. induction l as [|a l IH]; intros b; simpl; [done|].
  by apply honest_bind.
Qed.

Ltac honest_cases := intros; intros ? ?; repeat case_match; simplify_eq/=; done.

Lemma validate_honest : honest (ValidateRes config_ registry_).
Proof.
  unfold ValidateRes.
  destruct (negb (bool_decide (length (nodes config_) = 0%nat))); [|by intros s [= <-]].
  destruct (negb (bool_decide (qc_capacity _ = 0%nat))); [|by intros s [= <-]].
  destruct (negb (bool_decide (qc_policy _ = kBlock))); [|by intros s [= <-]].
  apply honest_bind; [apply honest_fold; unfold executor_step; honest_cases|intros ?].
  apply honest_bind; [apply honest_fold; unfold node_step; honest_cases|intros ?].
  apply honest_bind; [apply honest_fold; unfold edge_step; honest_cases|intros _].
  apply honest_bind; [apply honest_fold; unfold input_step; honest_cases|intros ?].
  apply honest_bind; [apply honest_fold; unfold slot_step; honest_cases|intros _].
  apply honest_bind; [apply honest_fold; unfold port_step; honest_cases|intros _].
  apply honest_bind; [apply honest_fold; unfold port_step; honest_cases|intros _].
  intros s. destruct (ValidateAcyclic config_) as [st|]; [|by intros [= <-]].
  destruct (ok st) eqn:E; [done|]. by intros [= <-].
Qed.

Lemma validate_ok_valid : ok (Validate config_ registry_) = true -> valid_graph.
Proof.
  unfold Validate. destruct (ValidateRes config_ registry_) as [[]|s] eqn:E; simpl.
  - intros _. by apply validate_sound.
  - intros Hs. apply validate_honest in E. congruence.
Qed.

End spec.
