(* ===== verification/Scheduler.v ===== *)
(** * The scheduler

    [src/core/scheduler.cpp]: a pool of worker threads over a queue of tasks,
    from [Start] to the end of [Stop].

    The threads are modelled at the granularity of the code's synchronisation:
    [mutex] is the scheduler's mutex, [running_], [drain_] and [active_tasks_]
    are atomics that are accessed with or without it, and waiting on a
    condition variable is two steps, the evaluation of the predicate and the
    blocking, because a variable the predicate reads can change between them
    when the writer does not hold the mutex.  A blocked thread goes on when it
    is notified, or spuriously.  The ghost lists [accepted], [started] and
    [discarded] record the history of the tasks. *)

From S2P Require Import Prelude Status.
Local Open Scope Z_scope.

Section scheduler.
Context {T : Type}.

(* [include/rkavp/scheduler.hpp:46-49] Scheduler::TaskEntry *)
Record TaskEntry := mkEntry { task : T; enqueued_us : Z }.

(** Where a thread is.  The [W] positions are those of [WorkerLoop], the [P]
    positions those of [PostImpl], the [S] positions those of [Stop], the [I]
    positions those of [WaitIdle], which waits for a limited time when [timed]. *)
Inductive pc :=
| WLock
| WTest
| WSleepy
| WAsleep
| WTake
| WRun (e : TaskEntry)
| WFinish
| WNotifyIdle
| WExited
| PBegin (t : T) (enforce : bool)
| PLock (t : T) (enforce : bool)
| PHold (t : T) (enforce : bool)
| PPush (t : T)
| PNotify
| SBegin (d : bool)
| SSet (d : bool)
| SLock
| SClear
| SNotify
| SJoin
| ILock (timed : bool)
| ITest (timed : bool)
| ISleepy (timed : bool)
| IAsleep (timed : bool)
| IExpired
| IRetest
| Finished (s : Status).

(* [include/rkavp/scheduler.hpp:50-68] Scheduler (fields) *)
Record Scheduler := mkScheduler {
  queue_capacity_ : nat;
  name_ : string;
  running_ : bool;
  drain_ : bool;
  mutex_ : option nat;
  tasks_ : list TaskEntry;
  active_tasks_ : nat;
  last_error_ : Status;
  starvation_events_ : Z;
  max_wait_us_ : Z;
  threads : list pc;
  accepted : list T;
  started : list T;
  discarded : list T;
  stop_mode : option bool }.

(** Updates of the fields. *)
Definition set_thread (i : nat) (p : pc) (s : Scheduler) : Scheduler :=
  mkScheduler (queue_capacity_ s) (name_ s) (running_ s) (drain_ s) (mutex_ s) (tasks_ s)
    (active_tasks_ s) (last_error_ s) (starvation_events_ s) (max_wait_us_ s)
    (<[i := p]> (threads s)) (accepted s) (started s) (discarded s) (stop_mode s).
Definition set_mutex (m : option nat) (s : Scheduler) : Scheduler :=
  mkScheduler (queue_capacity_ s) (name_ s) (running_ s) (drain_ s) m (tasks_ s)
    (active_tasks_ s) (last_error_ s) (starvation_events_ s) (max_wait_us_ s)
    (threads s) (accepted s) (started s) (discarded s) (stop_mode s).
Definition set_threads (l : list pc) (s : Scheduler) : Scheduler :=
  mkScheduler (queue_capacity_ s) (name_ s) (running_ s) (drain_ s) (mutex_ s) (tasks_ s)
    (active_tasks_ s) (last_error_ s) (starvation_events_ s) (max_wait_us_ s)
    l (accepted s) (started s) (discarded s) (stop_mode s).
Definition set_drain (d : bool) (s : Scheduler) : Scheduler :=
  mkScheduler (queue_capacity_ s) (name_ s) (running_ s) d (mutex_ s) (tasks_ s)
    (active_tasks_ s) (last_error_ s) (starvation_events_ s) (max_wait_us_ s)
    (threads s) (accepted s) (started s) (discarded s) (stop_mode s).
Definition set_active (n : nat) (s : Scheduler) : Scheduler :=
  mkScheduler (queue_capacity_ s) (name_ s) (running_ s) (drain_ s) (mutex_ s) (tasks_ s)
    n (last_error_ s) (starvation_events_ s) (max_wait_us_ s)
    (threads s) (accepted s) (started s) (discarded s) (stop_mode s).

(** [running_.exchange(false)]. *)
Definition begin_stop (d : bool) (s : Scheduler) : Scheduler :=
  mkScheduler (queue_capacity_ s) (name_ s) false (drain_ s) (mutex_ s) (tasks_ s)
    (active_tasks_ s) (last_error_ s) (starvation_events_ s) (max_wait_us_ s)
    (threads s) (accepted s) (started s) (discarded s) (Some d).

(** [tasks_.push]. *)
Definition push (t : T) (now : Z) (s : Scheduler) : Scheduler :=
  mkScheduler (queue_capacity_ s) (name_ s) (running_ s) (drain_ s) (mutex_ s)
    (tasks_ s ++ [mkEntry t now]) (active_tasks_ s) (last_error_ s) (starvation_events_ s)
    (max_wait_us_ s) (threads s) (accepted s ++ [t]) (started s) (discarded s) (stop_mode s).

(** [tasks_.pop] with [++active_tasks_]. *)
Definition pop (e : TaskEntry) (rest : list TaskEntry) (s : Scheduler) : Scheduler :=
  mkScheduler (queue_capacity_ s) (name_ s) (running_ s) (drain_ s) (mutex_ s) rest
    (S (active_tasks_ s)) (last_error_ s) (starvation_events_ s)
    (max_wait_us_ s) (threads s) (accepted s) (started s ++ [task e]) (discarded s) (stop_mode s).

(** [tasks_.swap(empty)]. *)
Definition clear (s : Scheduler) : Scheduler :=
  mkScheduler (queue_capacity_ s) (name_ s) (running_ s) (drain_ s) (mutex_ s) []
    (active_tasks_ s) (last_error_ s) (starvation_events_ s) (max_wait_us_ s)
    (threads s) (accepted s) (started s) (discarded s ++ map task (tasks_ s)) (stop_mode s).

(* [include/rkavp/scheduler.hpp:68-68] Scheduler::kStarvationThresholdUs *)
Definition kStarvationThresholdUs : Z := 100000.

(** What a task may end with instead of returning. *)
Inductive Exception := std_exception (what : string) | unknown_exception.

(** The wait of an entry is measured and the task runs: [outcome] is the exception it ends
    with, if it ends with one. *)
(* [src/core/scheduler.cpp:118-133] Scheduler::WorkerLoop (task) *)
Definition run_task (e : TaskEntry) (now : Z) (outcome : option Exception) (s : Scheduler) : Scheduler :=
  let wait_us := Z.max 0 (now - enqueued_us e) in
  mkScheduler (queue_capacity_ s) (name_ s) (running_ s) (drain_ s) (mutex_ s) (tasks_ s)
    (active_tasks_ s)
    (match outcome with
     | None => last_error_ s
     | Some (std_exception what) =>
         if ok (last_error_ s) then Internal ("scheduler task failed: " +:+ what) else last_error_ s
     | Some unknown_exception =>
         if ok (last_error_ s) then Internal "scheduler task failed with an unknown exception"
         else last_error_ s
     end)
    (if kStarvationThresholdUs <=? wait_us then starvation_events_ s + 1 else starvation_events_ s)
    (if max_wait_us_ s <? wait_us then wait_us else max_wait_us_ s)
    (threads s) (accepted s) (started s) (discarded s) (stop_mode s).

(** Notifications. *)
Definition wake_worker (p : pc) : pc := match p with WAsleep => WLock | _ => p end.
Definition wake_waiter (p : pc) : pc := match p with IAsleep b => ILock b | _ => p end.

Definition is_worker (p : pc) : bool :=
  match p with
  | WLock | WTest | WSleepy | WAsleep | WTake | WRun _ | WFinish | WNotifyIdle | WExited => true
  | _ => false
  end.
Definition exited (p : pc) : bool := match p with WExited => true | _ => false end.

Definition idle (s : Scheduler) : bool :=
  bool_decide (length (tasks_ s) = 0%nat) && bool_decide (active_tasks_ s = 0%nat).

(** The predicate of the workers' wait. *)
Definition work_predicate (s : Scheduler) : bool :=
  negb (running_ s) || negb (bool_decide (length (tasks_ s) = 0%nat)).

(** A thread that is about to take the mutex, and where it is when it has it. *)
Definition lock_target (p : pc) : option pc :=
  match p with
  | WLock => Some WTest
  | PLock t e => Some (PHold t e)
  | SLock => Some SClear
  | ILock b => Some (ITest b)
  | IExpired => Some IRetest
  | _ => None
  end.

Definition unlocked (i : nat) (p : pc) (s : Scheduler) : Scheduler :=
  set_thread i p (set_mutex None s).

(** The last thing a worker does under the mutex: it leaves, waits again, or
    takes the next task. *)
(* [src/core/scheduler.cpp:112-117] Scheduler::WorkerLoop (decision) *)
Definition worker_take (i : nat) (s : Scheduler) : Scheduler :=
  if negb (running_ s) && (negb (drain_ s) || bool_decide (length (tasks_ s) = 0%nat)) then
    unlocked i WExited s
  else match tasks_ s with
       | [] => unlocked i WLock s
       | e :: rest => unlocked i (WRun e) (pop e rest s)
       end.

(** The part of [PostImpl] under the mutex, up to the push. *)
(* [src/core/scheduler.cpp:52-58] Scheduler::PostImpl (critical section) *)
Definition post_check (i : nat) (t : T) (enforce : bool) (s : Scheduler) : Scheduler :=
  if negb (running_ s) then
    unlocked i (Finished (FailedPrecondition "scheduler is not running")) s
  else if enforce && bool_decide (queue_capacity_ s <= length (tasks_ s))%nat then
    unlocked i (Finished (Unavailable ("executor queue is full: " +:+ name_ s))) s
  else set_thread i (PPush t) s.

(** The last test of a wait whose time is over. *)
(* [src/core/scheduler.cpp:66-72] Scheduler::WaitIdle (result) *)
Definition idle_retest (i : nat) (s : Scheduler) : Scheduler :=
  unlocked i (Finished (if idle s then last_error_ s
                        else Unavailable ("executor wait idle timed out: " +:+ name_ s))) s.

(** One step of thread [i]. *)
(* [src/core/scheduler.cpp:49-137] Scheduler::PostImpl, WaitIdle, Stop, WorkerLoop *)
Inductive step (i : nat) (s : Scheduler) : Scheduler -> Prop :=
| step_lock p q :
    threads s !! i = Some p -> lock_target p = Some q -> mutex_ s = None ->
    step i s (set_thread i q (set_mutex (Some i) s))
| step_test : threads s !! i = Some WTest ->
    step i s (set_thread i (if work_predicate s then WTake else WSleepy) s)
| step_sleep : threads s !! i = Some WSleepy -> step i s (unlocked i WAsleep s)
| step_take : threads s !! i = Some WTake -> step i s (worker_take i s)
| step_run e now outcome : threads s !! i = Some (WRun e) ->
    step i s (set_thread i WFinish (run_task e now outcome s))
| step_finish : threads s !! i = Some WFinish ->
    step i s (set_thread i WNotifyIdle (set_active (active_tasks_ s - 1) s))
| step_notify_idle : threads s !! i = Some WNotifyIdle ->
    step i s (set_thread i WLock (set_threads (map wake_waiter (threads s)) s))
| step_post t e : threads s !! i = Some (PBegin t e) ->
    step i s (set_thread i (if running_ s then PLock t e
                            else Finished (FailedPrecondition "scheduler is not running")) s)
| step_check t e : threads s !! i = Some (PHold t e) -> step i s (post_check i t e s)
| step_push t now : threads s !! i = Some (PPush t) -> step i s (unlocked i PNotify (push t now s))
| step_notify_one j : threads s !! i = Some PNotify -> threads s !! j = Some WAsleep ->
    step i s (set_thread i (Finished Ok) (set_thread j WLock s))
| step_notify_none : threads s !! i = Some PNotify ->
    Forall (fun p => p <> WAsleep) (threads s) -> step i s (set_thread i (Finished Ok) s)
| step_stop d : threads s !! i = Some (SBegin d) ->
    step i s (if running_ s then set_thread i (SSet d) (begin_stop d s)
              else set_thread i (Finished Ok) s)
| step_set d : threads s !! i = Some (SSet d) ->
    step i s (set_thread i (if d then SNotify else SLock) (set_drain d s))
| step_clear : threads s !! i = Some SClear -> step i s (unlocked i SNotify (clear s))
| step_notify_all : threads s !! i = Some SNotify ->
    step i s (set_thread i SJoin (set_threads (map wake_worker (threads s)) s))
| step_join : threads s !! i = Some SJoin ->
    Forall (fun p => is_worker p = true -> exited p = true) (threads s) ->
    step i s (set_thread i (Finished Ok) s)
| step_idle_test b : threads s !! i = Some (ITest b) ->
    step i s (if idle s then unlocked i (Finished (last_error_ s)) s else set_thread i (ISleepy b) s)
| step_idle_sleep b : threads s !! i = Some (ISleepy b) -> step i s (unlocked i (IAsleep b) s)
| step_spurious_worker : threads s !! i = Some WAsleep -> step i s (set_thread i WLock s)
| step_spurious b : threads s !! i = Some (IAsleep b) -> step i s (set_thread i (ILock b) s)
| step_timeout : threads s !! i = Some (IAsleep true) -> step i s (set_thread i IExpired s)
| step_retest : threads s !! i = Some IRetest -> step i s (idle_retest i s).

(** Both numbers are at least one. *)
(* [src/core/scheduler.cpp:18-18] Scheduler::worker_count_ *)
Definition workers (n : nat) : nat := if bool_decide (n = 0%nat) then 1 else n.
(* [src/core/scheduler.cpp:19-19] Scheduler::queue_capacity_ *)
Definition queue_capacity (cap : nat) : nat := if bool_decide (cap = 0%nat) then 1 else cap.

(** [Start] with [n] workers and the clients of one session. *)
(* [src/core/scheduler.cpp:26-41] Scheduler::Start *)
Definition started_session (n cap : nat) (name : string) (clients : list pc) : Scheduler :=
  mkScheduler (queue_capacity cap) name true true None [] 0 Ok 0 0
    (replicate (workers n) WLock ++ clients) [] [] [] None.

(** The calls of the clients, before they begin. *)
(* [src/core/scheduler.cpp:43-43] Scheduler::Post *)
Definition Post (t : T) : pc := PBegin t true.
(* [src/core/scheduler.cpp:45-47] Scheduler::PostGuaranteed *)
Definition PostGuaranteed (t : T) : pc := PBegin t false.
(* [src/core/scheduler.cpp:63-69] Scheduler::WaitIdle *)
Definition WaitIdle (timeout_ms : Z) : pc := ILock (negb (timeout_ms <? 0)).
(* [src/core/scheduler.cpp:75-76] Scheduler::Stop *)
Definition Stop (drain : bool) : pc := SBegin drain.

Definition fresh_client (p : pc) : bool :=
  match p with PBegin _ _ | SBegin _ | ILock _ => true | _ => false end.

Inductive reachable (s0 : Scheduler) : Scheduler -> Prop :=
| reach_refl : reachable s0 s0
| reach_step s i s' : reachable s0 s -> step i s s' -> reachable s0 s'.

(** ** Safety *)

Definition holds (p : pc) : bool :=
  match p with
  | WTest | WSleepy | WTake | PHold _ _ | PPush _ | SClear | ITest _ | ISleepy _ | IRetest => true
  | _ => false
  end.
Definition busy (p : pc) : bool := match p with WRun _ | WFinish => true | _ => false end.

Definition count (f : pc -> bool) (l : list pc) : nat := length (List.filter f l).

Lemma count_cons f p l : count f (p :: l) = (Nat.b2n (f p) + count f l)%nat.
Proof. unfold count; simpl. by destruct (f p). Qed.

Lemma count_insert f l i p q : l !! i = Some p ->
  (count f (<[i := q]> l) + Nat.b2n (f p) = count f l + Nat.b2n (f q))%nat.
Proof.
  revert i. induction l as [|x l IH]; intros [|i]; simpl; [done|done| |].
  - intros [= ->]. rewrite !count_cons. lia.
  - intros H. rewrite !count_cons. specialize (IH i H). lia.
Qed.

Lemma count_map f g l : (forall p, f (g p) = f p) -> count f (map g l) = count f l.
Proof. intros H. induction l as [|p l IH]; [done|]. simpl. rewrite !count_cons, H. lia. Qed.

Lemma count_zero f l : count f l = 0%nat <-> Forall (fun p => f p = false) l.
Proof.
  induction l as [|p l IH]; [by split|]. rewrite count_cons, Forall_cons, <- IH.
  destruct (f p); simpl; [|naive_solver]. split; [lia|by intros [? _]].
Qed.

Lemma count_app f l k : count f (l ++ k) = (count f l + count f k)%nat.
Proof. unfold count. by rewrite List.filter_app, length_app. Qed.

(** What the position of a thread says of the shared state. *)
Definition local_inv (s : Scheduler) (p : pc) : Prop :=
  match p with
  | PPush _ => discarded s = [] /\ count exited (threads s) = 0%nat
  | SSet d => stop_mode s = Some d
  | SLock | SClear => stop_mode s = Some false
  | WExited => running_ s = false /\ (drain_ s = false \/ tasks_ s = [])
  | _ => True
  end.

Record sched_inv (n : nat) (s : Scheduler) : Prop := mkInv {
  inv_mutex : forall i p, threads s !! i = Some p -> holds p = true -> mutex_ s = Some i;
  inv_local : Forall (local_inv s) (threads s);
  inv_history : accepted s = started s ++ discarded s ++ map task (tasks_ s);
  inv_discarded : discarded s <> [] -> tasks_ s = [] /\ stop_mode s = Some false;
  inv_running : running_ s = true -> stop_mode s = None /\ count exited (threads s) = 0%nat;
  inv_stopped : running_ s = false -> stop_mode s <> None;
  inv_drain : drain_ s = false -> stop_mode s = Some false;
  inv_active : active_tasks_ s = count busy (threads s);
  inv_workers : count is_worker (threads s) = n }.

(** Only the thread that holds the mutex is in a critical section. *)
Lemma inv_exclusive n s i j p q : sched_inv n s ->
  threads s !! i = Some p -> threads s !! j = Some q -> holds p = true -> holds q = true -> i = j.
Proof.
  intros [Hm _ _ _ _ _ _ _ _] Hi Hj Hp Hq.
  pose proof (Hm i p Hi Hp) as E1. pose proof (Hm j q Hj Hq) as E2. congruence.
Qed.

Lemma Forall_other {A} (P Q : A -> Prop) l i x :
  Forall P l -> Q x -> (forall j y, j <> i -> l !! j = Some y -> P y -> Q y) ->
  Forall Q (<[i := x]> l).
Proof.
  intros HP Hx H. apply Forall_lookup. intros j y. rewrite list_lookup_insert_Some.
  intros [(-> & <- & _)|[Hne Hj]]; [done|]. rewrite Forall_lookup in HP.
  apply (H j); [congruence|done|by eapply HP].
Qed.

Lemma mutex_insert (l : list pc) m m' i q :
  (forall j p, l !! j = Some p -> holds p = true -> m = Some j) ->
  (forall j, j <> i -> m = Some j -> m' = Some j) -> (holds q = true -> m' = Some i) ->
  forall j p, <[i := q]> l !! j = Some p -> holds p = true -> m' = Some j.
Proof.
  intros H Hother Hq j p. rewrite list_lookup_insert_Some. intros [(-> & <- & _)|[Hne Hj]] Hp; auto.
  apply Hother; [done|]. by apply (H j p).
Qed.

(** A thread moves between two positions of the same kind. *)
Lemma inv_move n s i p q m : sched_inv n s -> threads s !! i = Some p ->
  (forall j, j <> i -> mutex_ s = Some j -> m = Some j) -> (holds q = true -> m = Some i) ->
  exited p = false -> exited q = false -> busy p = busy q -> is_worker p = is_worker q ->
  local_inv s q -> sched_inv n (set_thread i q (set_mutex m s)).
Proof.
  intros [Hm Hl Hh Hd Hr Hs Hdr Ha Hw] Hi Hm1 Hm2 Hep Heq Hb Hwk Hq.
  assert (count exited (<[i := q]> (threads s)) = count exited (threads s)) as Hex.
  { pose proof (count_insert exited (threads s) i p q Hi) as E. rewrite Hep, Heq in E. lia. }
  constructor; simpl; try done.
  - by eapply mutex_insert.
  - eapply Forall_other; [exact Hl| |].
    + destruct q; simpl in *; try done. by rewrite Hex.
    + intros j y _ _. destruct y; simpl; try done. by rewrite Hex.
  - by rewrite Hex.
  - pose proof (count_insert busy (threads s) i p q Hi) as E. rewrite Hb in E. lia.
  - pose proof (count_insert is_worker (threads s) i p q Hi) as E. rewrite Hwk in E. lia.
Qed.

(** The same when the mutex is not touched. *)
Lemma inv_stay n s i p q : sched_inv n s -> threads s !! i = Some p ->
  holds p = holds q -> exited p = false -> exited q = false -> busy p = busy q ->
  is_worker p = is_worker q -> local_inv s q -> sched_inv n (set_thread i q s).
Proof.
  intros Hi Hp Hh He1 He2 Hb Hw Hq.
  replace (set_thread i q s) with (set_thread i q (set_mutex (mutex_ s) s)) by (by destruct s).
  eapply inv_move; try done. intros Hq'. apply (inv_mutex _ _ Hi i p Hp). congruence.
Qed.

(** The same when the mutex is released. *)
Lemma inv_unlock n s i p q : sched_inv n s -> threads s !! i = Some p -> holds p = true ->
  holds q = false -> exited p = false -> exited q = false -> busy p = busy q ->
  is_worker p = is_worker q -> local_inv s q -> sched_inv n (unlocked i q s).
Proof.
  intros Hi Hp Hh Hq He1 He2 Hb Hw Hl. eapply inv_move; try done.
  - intros j Hne Hj. pose proof (inv_mutex _ _ Hi i p Hp Hh). congruence.
  - congruence.
Qed.

(** Changes of the shared state that no thread's position depends on. *)
Lemma inv_run_task n s e now o : sched_inv n s -> sched_inv n (run_task e now o s).
Proof. intros []. by constructor. Qed.

Lemma local_set_drain s d p : stop_mode s = Some d -> drain_ s = true \/ d = false ->
  local_inv s p -> local_inv (set_drain d s) p.
Proof. destruct p; simpl; try done. intros _ [Hd|Hd] [? [?|?]]; subst; auto; congruence. Qed.

Lemma inv_set_drain n s d : sched_inv n s -> stop_mode s = Some d -> sched_inv n (set_drain d s).
Proof.
  intros [Hm Hl Hh Hd Hr Hs Hdr Ha Hw] Hmode. constructor; simpl; try done.
  - eapply Forall_impl; [exact Hl|]. intros p. apply local_set_drain; [done|].
    destruct (drain_ s) eqn:E; [by left|right]. specialize (Hdr eq_refl). congruence.
  - intros ->. done.
Qed.

Lemma inv_begin_stop n s d : sched_inv n s -> running_ s = true ->
  Forall (fun p => match p with SSet _ | SLock | SClear => False | _ => True end) (threads s) ->
  sched_inv n (begin_stop d s).
Proof.
  intros [Hm Hl Hh Hd Hr Hs Hdr Ha Hw] Hrun Hno. destruct (Hr Hrun) as [Hmode Hex].
  constructor; simpl; try done.
  - apply Forall_lookup. intros j p Hj. rewrite Forall_lookup in Hl, Hno.
    specialize (Hl j p Hj). specialize (Hno j p Hj). destruct p; simpl in *; try done.
    destruct Hl. congruence.
  - intros Hne. destruct (Hd Hne). congruence.
  - intros Hdf. specialize (Hdr Hdf). congruence.
Qed.

(** While the scheduler runs nobody is stopping it. *)
Lemma running_no_stopper n s : sched_inv n s -> running_ s = true ->
  Forall (fun p => match p with SSet _ | SLock | SClear => False | _ => True end) (threads s).
Proof.
  intros Hi Hrun. destruct (inv_running _ _ Hi Hrun) as [Hmode _].
  eapply Forall_impl; [exact (inv_local _ _ Hi)|]. intros p Hp. destruct p; simpl in *; try done; congruence.
Qed.

Lemma inv_wake n s g : sched_inv n s ->
  (forall p, holds (g p) = holds p /\ exited (g p) = exited p /\ busy (g p) = busy p /\
             is_worker (g p) = is_worker p) ->
  (forall p, g p = p \/ g p = WLock \/ exists b, g p = ILock b) -> sched_inv n (set_threads (map g (threads s)) s).
Proof.
  intros [Hm Hl Hh Hd Hr Hs Hdr Ha Hw] Hg Hgp.
  assert (count exited (map g (threads s)) = count exited (threads s)) as Hex
    by (apply count_map; intros; apply Hg).
  constructor; simpl; try done.
  - intros i p. rewrite list_lookup_fmap_Some. intros (q & -> & Hq) Hp.
    apply (Hm i q Hq). rewrite <- Hp. symmetry. apply Hg.
  - apply Forall_map. eapply Forall_impl; [exact Hl|]. intros p Hp; simpl.
    destruct (Hgp p) as [->|[->|[b ->]]]; [|done|done].
    destruct p; simpl in *; try done. by rewrite Hex.
  - by rewrite Hex.
  - rewrite Ha. symmetry. apply count_map. intros; apply Hg.
  - rewrite <- Hw. apply count_map. intros; apply Hg.
Qed.

(** A worker leaves. *)
Lemma inv_exit n s i : sched_inv n s -> threads s !! i = Some WTake -> running_ s = false ->
  drain_ s = false \/ tasks_ s = [] -> sched_inv n (unlocked i WExited s).
Proof.
  intros Hinv Hi Hrun Hdt. pose proof Hinv as [Hm Hl Hh Hd Hr Hs Hdr Ha Hw].
  constructor; simpl; try done.
  - eapply mutex_insert; [exact Hm| |done]. intros j Hne Hj.
    pose proof (Hm i WTake Hi eq_refl). congruence.
  - eapply Forall_other; [exact Hl|by simpl|]. intros j y Hne Hj. destruct y; simpl; try done.
    exfalso. apply Hne. by eapply (inv_exclusive n s).
  - congruence.
  - pose proof (count_insert busy (threads s) i WTake WExited Hi) as E. simpl in E. lia.
  - pose proof (count_insert is_worker (threads s) i WTake WExited Hi) as E. simpl in E. lia.
Qed.

(** A worker takes a task. *)
Lemma inv_pop n s i e rest : sched_inv n s -> threads s !! i = Some WTake -> tasks_ s = e :: rest ->
  (running_ s = false -> drain_ s = true) -> sched_inv n (unlocked i (WRun e) (pop e rest s)).
Proof.
  intros Hinv Hi Ht Hcond. pose proof Hinv as [Hm Hl Hh Hd Hr Hs Hdr Ha Hw].
  assert (discarded s = []) as Hdisc.
  { destruct (discarded s) eqn:E; [done|]. destruct Hd as [Hd _]; [done|]. congruence. }
  assert (count exited (<[i := WRun e]> (threads s)) = count exited (threads s)) as Hex.
  { pose proof (count_insert exited (threads s) i WTake (WRun e) Hi) as E. simpl in E. lia. }
  constructor; simpl; try done.
  - eapply mutex_insert; [exact Hm| |done]. intros j Hne Hj.
    pose proof (Hm i WTake Hi eq_refl). congruence.
  - eapply Forall_other; [exact Hl|done|]. intros j y Hne Hj.
    destruct y; simpl; try done; [|by rewrite Hex].
    intros [Hrun [Hd'|Ht']]; [|congruence]. specialize (Hcond Hrun). congruence.
  - rewrite Hh, Ht, Hdisc. simpl. by rewrite <- app_assoc.
  - by rewrite Hex.
  - pose proof (count_insert busy (threads s) i WTake (WRun e) Hi) as E. simpl in E. lia.
  - pose proof (count_insert is_worker (threads s) i WTake (WRun e) Hi) as E. simpl in E. lia.
Qed.

(** A post goes through. *)
Lemma inv_push n s i t now : sched_inv n s -> threads s !! i = Some (PPush t) ->
  sched_inv n (unlocked i PNotify (push t now s)).
Proof.
  intros Hinv Hi. pose proof Hinv as [Hm Hl Hh Hd Hr Hs Hdr Ha Hw].
  assert (local_inv s (PPush t)) as [Hdisc Hex0] by (rewrite Forall_lookup in Hl; by apply (Hl i)).
  assert (count exited (<[i := PNotify]> (threads s)) = count exited (threads s)) as Hex.
  { pose proof (count_insert exited (threads s) i (PPush t) PNotify Hi) as E. simpl in E. lia. }
  constructor; simpl; try done.
  - eapply mutex_insert; [exact Hm| |done]. intros j Hne Hj.
    pose proof (Hm i _ Hi eq_refl). congruence.
  - apply count_zero in Hex0. rewrite Forall_lookup in Hex0.
    eapply Forall_other; [exact Hl|done|]. intros j y Hne Hj.
    destruct y; simpl; try done; [|by rewrite Hex].
    specialize (Hex0 j WExited Hj). done.
  - rewrite Hh, Hdisc. simpl. by rewrite map_app, app_assoc.
  - by rewrite Hex.
  - pose proof (count_insert busy (threads s) i (PPush t) PNotify Hi) as E. simpl in E. lia.
  - pose proof (count_insert is_worker (threads s) i (PPush t) PNotify Hi) as E. simpl in E. lia.
Qed.

(** A stop without drain empties the queue. *)
Lemma inv_clear n s i : sched_inv n s -> threads s !! i = Some SClear ->
  sched_inv n (unlocked i SNotify (clear s)).
Proof.
  intros Hinv Hi. pose proof Hinv as [Hm Hl Hh Hd Hr Hs Hdr Ha Hw].
  assert (stop_mode s = Some false) as Hmode by (rewrite Forall_lookup in Hl; by apply (Hl i SClear)).
  assert (count exited (<[i := SNotify]> (threads s)) = count exited (threads s)) as Hex.
  { pose proof (count_insert exited (threads s) i SClear SNotify Hi) as E. simpl in E. lia. }
  constructor; simpl; try done.
  - eapply mutex_insert; [exact Hm| |done]. intros j Hne Hj.
    pose proof (Hm i _ Hi eq_refl). congruence.
  - eapply Forall_other; [exact Hl|done|]. intros j y Hne Hj.
    destruct y; simpl; try done; [intros []; auto|].
    exfalso. apply Hne. by eapply (inv_exclusive n s).
  - by rewrite Hh, app_nil_r.
  - by rewrite Hex.
  - pose proof (count_insert busy (threads s) i SClear SNotify Hi) as E. simpl in E. lia.
  - pose proof (count_insert is_worker (threads s) i SClear SNotify Hi) as E. simpl in E. lia.
Qed.

(** A task is over. *)
Lemma inv_finish n s i : sched_inv n s -> threads s !! i = Some WFinish ->
  sched_inv n (set_thread i WNotifyIdle (set_active (active_tasks_ s - 1) s)).
Proof.
  intros [Hm Hl Hh Hd Hr Hs Hdr Ha Hw] Hi.
  assert (count exited (<[i := WNotifyIdle]> (threads s)) = count exited (threads s)) as Hex.
  { pose proof (count_insert exited (threads s) i WFinish WNotifyIdle Hi) as E. simpl in E. lia. }
  constructor; simpl; try done.
  - eapply mutex_insert; [exact Hm|done|done].
  - eapply Forall_other; [exact Hl|done|]. intros j y _ _. destruct y; simpl; try done. by rewrite Hex.
  - by rewrite Hex.
  - pose proof (count_insert busy (threads s) i WFinish WNotifyIdle Hi) as E. simpl in E. lia.
  - pose proof (count_insert is_worker (threads s) i WFinish WNotifyIdle Hi) as E. simpl in E. lia.
Qed.

Lemma inv_take n s i : sched_inv n s -> threads s !! i = Some WTake -> sched_inv n (worker_take i s).
Proof.
  intros Hinv Hi. unfold worker_take. case_bool_decide as Ht.
  - apply nil_length_inv in Ht. rewrite orb_true_r, andb_true_r.
    destruct (running_ s) eqn:Er; simpl.
    + rewrite Ht. by eapply inv_unlock.
    + apply inv_exit; auto.
  - rewrite orb_false_r. destruct (tasks_ s) as [|e rest] eqn:Et; [done|].
    destruct (running_ s) eqn:Er; simpl; [by apply inv_pop; [| | |congruence]|].
    destruct (drain_ s) eqn:Ed; simpl; [by apply inv_pop|]. apply inv_exit; auto.
Qed.

Lemma inv_check n s i t e : sched_inv n s -> threads s !! i = Some (PHold t e) ->
  sched_inv n (post_check i t e s).
Proof.
  intros Hinv Hi. unfold post_check. destruct (running_ s) eqn:Er; simpl; [|by eapply inv_unlock].
  destruct (_ && _); [by eapply inv_unlock|]. eapply inv_stay; try done. simpl.
  destruct (inv_running _ _ Hinv Er) as [Hmode Hex]. split; [|done].
  destruct (discarded s) eqn:E; [done|].
  destruct (inv_discarded _ _ Hinv) as [_ Hm]; [by rewrite E|]. congruence.
Qed.

Lemma local_of n s i p : sched_inv n s -> threads s !! i = Some p -> local_inv s p.
Proof. intros Hinv Hi. pose proof (inv_local _ _ Hinv) as Hl. rewrite Forall_lookup in Hl. eauto. Qed.

Lemma inv_lock n s i p q : sched_inv n s -> threads s !! i = Some p -> lock_target p = Some q ->
  mutex_ s = None -> sched_inv n (set_thread i q (set_mutex (Some i) s)).
Proof.
  intros Hinv Hi Hq Hm. pose proof (local_of n s i p Hinv Hi) as Hl.
  destruct p; simplify_eq/=; (eapply inv_move; try done; intros j _; congruence).
Qed.

Lemma inv_step n s i s' : sched_inv n s -> step i s s' -> sched_inv n s'.
Proof.
  intros Hinv Hst. destruct Hst as [p q Hi Hq Hm|Hi|Hi|Hi|e now o Hi|Hi|Hi|t e Hi|t e Hi|t now Hi
    |j Hi Hj|Hi _|d Hi|d Hi|Hi|Hi|Hi _|b Hi|b Hi|Hi|b Hi|Hi|Hi].
  - by eapply inv_lock.
  - destruct (work_predicate s); by eapply inv_stay.
  - by eapply inv_unlock.
  - by apply inv_take.
  - eapply inv_stay; [by apply inv_run_task|exact Hi| | | | | |]; done.
  - by apply inv_finish.
  - assert (sched_inv n (set_threads (map wake_waiter (threads s)) s)) as Hw.
    { apply inv_wake; [done| |]; intros []; simpl; eauto. }
    eapply inv_stay; [exact Hw|simpl; by rewrite list_lookup_fmap, Hi| | | | | |]; done.
  - destruct (running_ s); by eapply inv_stay.
  - by apply inv_check.
  - by apply inv_push.
  - assert (sched_inv n (set_thread j WLock s)) as Hw by (by eapply inv_stay).
    eapply (inv_stay _ _ _ PNotify); [exact Hw| | | | | | |]; try done.
    simpl. rewrite list_lookup_insert_ne; [done|]. intros ->. congruence.
  - by eapply inv_stay.
  - destruct (running_ s) eqn:Er; [|by eapply inv_stay].
    eapply inv_stay; [by apply inv_begin_stop; [| |eapply running_no_stopper]|exact Hi| | | | | |]; done.
  - pose proof (local_of n s i _ Hinv Hi) as Hl. simpl in Hl.
    eapply inv_stay; [by apply inv_set_drain|exact Hi| | | | | |]; destruct d; done.
  - by apply inv_clear.
  - assert (sched_inv n (set_threads (map wake_worker (threads s)) s)) as Hw.
    { apply inv_wake; [done| |]; intros []; simpl; eauto. }
    eapply inv_stay; [exact Hw|simpl; by rewrite list_lookup_fmap, Hi| | | | | |]; done.
  - by eapply inv_stay.
  - destruct (idle s); [by eapply inv_unlock|by eapply inv_stay].
  - by eapply inv_unlock.
  - by eapply inv_stay.
  - by eapply inv_stay.
  - by eapply inv_stay.
  - by eapply inv_unlock.
Qed.

Lemma count_replicate f k p : count f (replicate k p) = (k * Nat.b2n (f p))%nat.
Proof. induction k as [|k IH]; [done|]. simpl. rewrite count_cons. lia. Qed.

Lemma inv_start n cap name clients : forallb fresh_client clients = true ->
  sched_inv (workers n) (started_session n cap name clients).
Proof.
  intros Hf.
  assert (forall f, (forall p, fresh_client p = true -> f p = false) -> count f clients = 0%nat) as Hz.
  { intros f Hfp. apply count_zero, Forall_forall. intros p Hp. apply Hfp.
    rewrite forallb_forall in Hf. by apply Hf, list_elem_of_In. }
  assert (forall f, (forall p, fresh_client p = true -> f p = false) ->
    count f (threads (started_session n cap name clients)) = (workers n * Nat.b2n (f WLock))%nat) as Hc.
  { intros f Hfp. simpl. rewrite count_app, count_replicate, Hz by done. unfold workers. lia. }
  assert (forall p, p ∈ threads (started_session n cap name clients) ->
                    p = WLock \/ fresh_client p = true) as Hp.
  { intros p [Hp|Hp]%elem_of_app; [left; by apply elem_of_replicate in Hp as [? _]|right].
    rewrite forallb_forall in Hf. by apply Hf, list_elem_of_In. }
  constructor; try done.
  - intros i p Hi Hh. apply list_elem_of_lookup_2 in Hi. apply Hp in Hi as [->|Hfr]; [done|].
    by destruct p.
  - apply Forall_forall. intros p [->|Hfr]%Hp; [done|]. by destruct p.
  - intros _. split; [done|]. rewrite Hc; [simpl; lia|]. by intros [].
  - rewrite Hc; [simpl; lia|]. by intros [].
  - rewrite Hc; [simpl; lia|]. by intros [].
Qed.

Lemma inv_reachable n s s' : sched_inv n s -> reachable s s' -> sched_inv n s'.
Proof. intros Hi. induction 1; [done|]. by eapply inv_step. Qed.

(** When every worker has left after a draining stop, nothing is left undone. *)
Lemma drained n s : sched_inv n s -> (0 < n)%nat ->
  Forall (fun p => is_worker p = true -> exited p = true) (threads s) ->
  stop_mode s = Some true -> started s = accepted s /\ active_tasks_ s = 0%nat.
Proof.
  intros Hinv Hn Hall Hmode. pose proof Hinv as [Hm Hl Hh Hd Hr Hs Hdr Ha Hw].
  assert (exists p, p ∈ threads s /\ is_worker p = true) as (p & Hp & Hwp).
  { destruct (decide (count is_worker (threads s) = 0%nat)) as [Hz|Hnz]; [lia|].
    unfold count in Hnz. destruct (List.filter is_worker (threads s)) as [|p l] eqn:E; [done|].
    exists p. rewrite list_elem_of_In. apply filter_In. rewrite E. by left. }
  rewrite Forall_forall in Hl, Hall.
  assert (local_inv s p) as Hlp by auto. specialize (Hall p Hp Hwp) as Hep.
  destruct p; try done. simpl in Hlp. destruct Hlp as [_ [Hdf|Ht]].
  { specialize (Hdr Hdf). congruence. }
  assert (discarded s = []) as Hdisc.
  { destruct (discarded s) eqn:E; [done|]. destruct Hd as [_ Hd]; [done|]. congruence. }
  rewrite Hh, Hdisc, Ht; simpl. rewrite app_nil_r. split; [done|].
  rewrite Ha. apply count_zero, Forall_forall. intros q Hq. destruct q; try done;
    specialize (Hall _ Hq eq_refl); done.
Qed.

(** ** Running a session *)

(** A deterministic scheduler of the threads: the clock reads 0, tasks succeed
    and a notification wakes the first sleeper. *)
Definition asleep (p : pc) : bool := match p with WAsleep => true | _ => false end.

Definition fire (i : nat) (s : Scheduler) : option Scheduler :=
  match threads s !! i with
  | Some WTest => Some (set_thread i (if work_predicate s then WTake else WSleepy) s)
  | Some WSleepy => Some (unlocked i WAsleep s)
  | Some WTake => Some (worker_take i s)
  | Some (WRun e) => Some (set_thread i WFinish (run_task e 0 None s))
  | Some WFinish => Some (set_thread i WNotifyIdle (set_active (active_tasks_ s - 1) s))
  | Some WNotifyIdle => Some (set_thread i WLock (set_threads (map wake_waiter (threads s)) s))
  | Some (PBegin t e) =>
      Some (set_thread i (if running_ s then PLock t e
                          else Finished (FailedPrecondition "scheduler is not running")) s)
  | Some (PHold t e) => Some (post_check i t e s)
  | Some (PPush t) => Some (unlocked i PNotify (push t 0 s))
  | Some PNotify =>
      match list_find (fun p => asleep p = true) (threads s) with
      | Some (j, _) => Some (set_thread i (Finished Ok) (set_thread j WLock s))
      | None => Some (set_thread i (Finished Ok) s)
      end
  | Some (SBegin d) => Some (if running_ s then set_thread i (SSet d) (begin_stop d s)
                             else set_thread i (Finished Ok) s)
  | Some (SSet d) => Some (set_thread i (if d then SNotify else SLock) (set_drain d s))
  | Some SClear => Some (unlocked i SNotify (clear s))
  | Some SNotify => Some (set_thread i SJoin (set_threads (map wake_worker (threads s)) s))
  | Some SJoin => if forallb (fun p => negb (is_worker p) || exited p) (threads s)
                  then Some (set_thread i (Finished Ok) s) else None
  | Some (ITest b) => Some (if idle s then unlocked i (Finished (last_error_ s)) s
                            else set_thread i (ISleepy b) s)
  | Some (ISleepy b) => Some (unlocked i (IAsleep b) s)
  | Some (IAsleep true) => Some (set_thread i IExpired s)
  | Some IRetest => Some (idle_retest i s)
  | Some p => match lock_target p, mutex_ s with
              | Some q, None => Some (set_thread i q (set_mutex (Some i) s))
              | _, _ => None
              end
  | None => None
  end.

Lemma fire_step i s s' : fire i s = Some s' -> step i s s'.
Proof.
  unfold fire. destruct (threads s !! i) as [p|] eqn:Hi; [|done].
  destruct p; intros H; try done; simplify_eq/=;
    try (by econstructor); try (destruct (mutex_ s) eqn:Hm; [done|]; simplify_eq; by econstructor).
  - destruct (list_find _ _) as [[j q]|] eqn:E; simplify_eq.
    + apply list_find_Some in E as (Hj & Hq & _). destruct q; try done. by apply step_notify_one.
    + apply step_notify_none; [done|]. apply list_find_None in E.
      eapply Forall_impl; [exact E|]. intros q Hq ->. by apply Hq.
  - destruct (forallb _ _) eqn:E; [|done]. simplify_eq. apply step_join; [done|].
    apply Forall_forall. intros q Hq. rewrite forallb_forall in E.
    specialize (E q ltac:(by apply list_elem_of_In)). destruct (is_worker q), (exited q); done.
  - destruct timed; [|done]. simplify_eq. by apply step_timeout.
Qed.

Fixpoint fire_all (l : list nat) (s : Scheduler) : option Scheduler :=
  match l with [] => Some s | i :: l' => s' ← fire i s; fire_all l' s' end.

Lemma reachable_step_l s0 s i s' : step i s0 s -> reachable s s' -> reachable s0 s'.
Proof.
  intros H0. induction 1; [eapply reach_step; [apply reach_refl|done]|]. by eapply reach_step.
Qed.

Lemma fire_all_reachable l s s' : fire_all l s = Some s' -> reachable s s'.
Proof.
  revert s. induction l as [|i l IH]; intros s; simpl; [intros [= ->]; apply reach_refl|].
  intros (s1 & H1%fire_step & H2)%bind_Some. eapply reachable_step_l; [exact H1|auto].
Qed.

(** Only a spurious wake-up can move a thread. *)
Definition stuck (s : Scheduler) : Prop :=
  forall i s', step i s s' -> exists p, threads s !! i = Some p /\ (p = WAsleep \/ p = IAsleep false).

Definition stuck_position (ts : list pc) (p : pc) : bool :=
  match p with
  | WAsleep | IAsleep false | WExited | Finished _ => true
  | SJoin => negb (forallb (fun p => negb (is_worker p) || exited p) ts)
  | _ => false
  end.

Lemma stuck_positions s : forallb (stuck_position (threads s)) (threads s) = true -> stuck s.
Proof.
  intros Hall i s' Hst.
  assert (forall p, threads s !! i = Some p -> stuck_position (threads s) p = true) as Hp.
  { intros p Hi. rewrite forallb_forall in Hall. apply Hall, list_elem_of_In.
    by eapply list_elem_of_lookup_2. }
  destruct Hst; try (match goal with H : threads s !! i = Some _ |- _ => by specialize (Hp _ H) end).
  - specialize (Hp p H). destruct p; done.
  - specialize (Hp _ H). simpl in Hp. exfalso.
    assert (forallb (fun p => negb (is_worker p) || exited p) (threads s) = true) as Hc.
    { apply forallb_forall. intros q Hq%list_elem_of_In. rewrite Forall_forall in H0.
      specialize (H0 q Hq). destruct (is_worker q); simpl; auto. }
    by rewrite Hc in Hp.
  - eauto.
  - specialize (Hp _ H). destruct b; [done|]. eauto.
Qed.

(** A wait of limited time cannot be left behind like this. *)
Lemma timed_wait_not_stuck s i : threads s !! i = Some (IAsleep true) -> ~ stuck s.
Proof.
  intros Hi Hs. destruct (Hs i _ (step_timeout i s Hi)) as (p & Hp & Hcases).
  rewrite Hi in Hp. injection Hp as <-. by destruct Hcases.
Qed.
End scheduler.
Arguments Scheduler : clear implicits.
Arguments pc : clear implicits.
Arguments TaskEntry : clear implicits.

(** C7: Whatever the interleaving of workers, posts, waits and a stop, the history of the
    tasks is linear: the accepted tasks are the started ones, in the order they were
    accepted, followed by those a non-draining stop discarded and by those still queued;
    no task is started twice; no more tasks are active than there are workers; and once
    every worker has left after a draining stop, every accepted task was started and none
    is active. *)
Theorem scheduler_history {T} n cap name (clients : list (pc T)) s :
  forallb fresh_client clients = true -> reachable (started_session n cap name clients) s ->
  accepted s = started s ++ discarded s ++ map task (tasks_ s) /\
  (active_tasks_ s <= workers n)%nat /\
  (Forall (fun p => is_worker p = true -> exited p = true) (threads s) ->
   stop_mode s = Some true -> started s = accepted s /\ active_tasks_ s = 0%nat).
Proof.
  intros Hf Hr. pose proof (inv_reachable _ _ _ (inv_start n cap name clients Hf) Hr) as Hinv.
  split_and!.
  - apply (inv_history _ _ Hinv).
  - rewrite (inv_active _ _ Hinv), <- (inv_workers _ _ Hinv). unfold count.
    induction (threads s) as [|p l IH]; simpl; [lia|]. destruct p; simpl; lia.
  - intros. eapply drained; [exact Hinv| |done|done]. unfold workers. case_bool_decide; lia.
Qed.

Lemma scheduler_history_witness :
  exists s : Scheduler nat,
    reachable (started_session 1 4 "x" [PBegin 7%nat true; SBegin true]) s /\
    threads s = [WExited; Finished Ok; Finished Ok] /\ started s = [7%nat] /\
    accepted s = started s ++ discarded s ++ map task (tasks_ s).
Proof.
  destruct (fire_all [1; 1; 1; 1; 1; 2; 2; 2; 0; 0; 0; 0; 0; 0; 0; 0; 0; 2]%nat
    (started_session 1 4 "x" [PBegin 7%nat true; SBegin true])) as [s|] eqn:E; [|by vm_compute in E].
  exists s. pose proof (fire_all_reachable _ _ _ E) as Hr.
  split; [done|]. split; [vm_compute in E; injection E as <-; reflexivity|].
  split; [vm_compute in E; injection E as <-; reflexivity|].
  apply (scheduler_history 1 4 "x" [PBegin 7%nat true; SBegin true] s); [reflexivity|done].
Defined.

(** A wait of limited time gives up while a task is in the queue. *)
Example wait_idle_times_out :
  exists s : Scheduler nat, reachable (started_session 1 4 "x" [Post 7%nat; WaitIdle 10]) s /\
    threads s !! 2%nat = Some (Finished (Unavailable "executor wait idle timed out: x")).
Proof.
  destruct (fire_all [1; 1; 1; 1; 1; 2; 2; 2; 2; 2; 2]%nat
    (started_session 1 4 "x" [Post 7%nat; WaitIdle 10])) as [s|] eqn:E; [|by vm_compute in E].
  exists s. split; [by eapply fire_all_reachable|]. vm_compute in E. injection E as <-. done.
Qed.

(** ** Notifications without the mutex

    [Stop] changes [running_] and notifies without holding the mutex, so the
    change can fall between the test and the blocking of a worker. *)

(** A worker misses the stop: it sleeps, the stopping thread joins it, and no
    thread can move. *)
Lemma stop_misses_worker :
  exists s : Scheduler nat, reachable (started_session 1 4 "x" [SBegin true]) s /\
    threads s = [WAsleep; SJoin] /\ running_ s = false /\ stuck s.
Proof.
  destruct (fire_all [0; 0; 1; 1; 1; 0]%nat (started_session 1 4 "x" [@SBegin nat true])) as [s|] eqn:E;
    [|by vm_compute in E].
  exists s. split; [by eapply fire_all_reachable|]. vm_compute in E. injection E as <-.
  split; [done|]. split; [done|]. by apply stuck_positions.
Qed.

(** A waiter misses the end of the last task: the scheduler is idle and the
    waiter sleeps. *)
Lemma wait_idle_misses_idle :
  exists s : Scheduler nat, reachable (started_session 1 4 "x" [PBegin 7%nat true; ILock false]) s /\
    threads s = [WAsleep; Finished Ok; IAsleep false] /\ idle s = true /\ stuck s.
Proof.
  destruct (fire_all [1; 1; 1; 1; 1; 0; 0; 0; 2; 2; 0; 0; 0; 2; 0; 0; 0]%nat
    (started_session 1 4 "x" [PBegin 7%nat true; ILock false])) as [s|] eqn:E; [|by vm_compute in E].
  exists s. split; [by eapply fire_all_reachable|]. vm_compute in E. injection E as <-.
  split; [done|]. split; [done|]. by apply stuck_positions.
Qed.
