(* ===== verification/InputSync.v ===== *)
(** * Input policies of a running node

    [src/core/graph_runner.cpp]: how the packets that arrive at the ports of a
    node become invocations.  [InputState] is the part of [RuntimeNode] under
    [input_mutex]; [PrepareInvocation] and [PruneImpossibleSyncPacketsLocked]
    run under that mutex, so each is one transition of the state.

    Under the [kAny] policy every packet is an invocation.  Under [kLatest] the
    trigger port decides when, with the latest packet of every port.  Under
    [kSync] the packets of one timestamp are joined; a timestamp that can no
    longer be completed, because a port that lacks it is closed or its bound
    has passed, is dropped on every port. *)

From S2P Require Import Prelude Status Timestamp Values Contract.
Local Open Scope Z_scope.

(* [include/rkavp/graph_runner.hpp:92-96] GraphRunner::RuntimeNode (inputs) *)
Record InputState := mkInputs {
  latest : PacketSet;
  pending : gmap string (gmap Z Packet);
  closed_ports : gset string;
  bounds : gmap string Timestamp;
  eos_dispatched : bool }.

Definition empty_inputs : InputState := mkInputs ∅ ∅ ∅ ∅ false.

(** [pending[port]], which is empty for a port that has none. *)
Definition pending_of (s : InputState) (port : string) : gmap Z Packet :=
  default ∅ (pending s !! port).
Definition pending_at (s : InputState) (port : string) (ts : Z) : option Packet :=
  pending_of s port !! ts.

Definition with_pending (s : InputState) (p : gmap string (gmap Z Packet)) : InputState :=
  mkInputs (latest s) p (closed_ports s) (bounds s) (eos_dispatched s).

(** ** Pruning *)

(** A required port that lacks [ts] will never get it. *)
(* [src/core/graph_runner.cpp:813-823] GraphRunner::PruneImpossibleSyncPacketsLocked (one port) *)
Definition port_lost (s : InputState) (ts : Z) (spec : PortSpec) : bool :=
  port_required spec && bool_decide (pending_at s (port_name spec) ts = None) &&
  (bool_decide (port_name spec ∈ closed_ports s) ||
   match bounds s !! port_name spec with
   | None => false
   | Some b => is_done b || (is_range_value b && (ts <? microseconds b))
   end).

Definition impossible (c : NodeContract) (s : InputState) (ts : Z) : bool :=
  existsb (port_lost s ts) (inputs c).

(** [for (auto& port : pending) port.second.erase(timestamp)]. *)
Definition erase_all (ts : Z) (s : InputState) : InputState :=
  with_pending s (delete ts <$> pending s).

(** The timestamps that are pending on some port. *)
Definition candidates (s : InputState) : list Z :=
  remove_dups (concat (map (fun kv => (map_to_list kv.2).*1) (map_to_list (pending s)))).

(* [src/core/graph_runner.cpp:811-827] GraphRunner::PruneImpossibleSyncPacketsLocked (one timestamp) *)
Definition prune_one (c : NodeContract) (acc : nat * InputState) (ts : Z) : nat * InputState :=
  if impossible c acc.2 ts then (S acc.1, erase_all ts acc.2) else acc.

(** The result carries the number of timestamps that were dropped, which is
    what [graph.sync_unmatched_dropped] counts. *)
(* [src/core/graph_runner.cpp:805-828] GraphRunner::PruneImpossibleSyncPacketsLocked *)
Definition Prune (c : NodeContract) (s : InputState) : nat * InputState :=
  if bool_decide (input_policy c = kSync) then fold_left (prune_one c) (candidates s) (0%nat, s)
  else (0%nat, s).

(** ** Preparing an invocation *)

(** What a delivery leads to: an invocation, nothing yet, or an error. *)
Inductive Prepared :=
| PInvoke (ins : PacketSet)
| PWait
| PError (st : Status).

Definition put_pending (port : string) (ts : Z) (p : Packet) (s : InputState) : InputState :=
  with_pending s (<[port := <[ts := p]> (pending_of s port)]> (pending s)).

Definition effective_trigger (c : NodeContract) : string :=
  match trigger_port c, inputs c with
  | EmptyString, spec :: _ => port_name spec
  | t, _ => t
  end.

(** The loop over the ports under [kLatest]: [None] when a required port has no
    packet yet. *)
Fixpoint collect_latest (specs : list PortSpec) (lat ins : PacketSet) : option PacketSet :=
  match specs with
  | [] => Some ins
  | spec :: rest =>
      match lat !! port_name spec with
      | None => if port_required spec then None else collect_latest rest lat ins
      | Some p =>
          collect_latest rest lat
            (match ins !! port_name spec with Some _ => ins | None => <[port_name spec := p]> ins end)
      end
  end.

(** Every required port has a packet of [ts]. *)
Definition ready (c : NodeContract) (s : InputState) (ts : Z) : bool :=
  forallb (fun spec => negb (port_required spec) ||
                       bool_decide (is_Some (pending_at s (port_name spec) ts))) (inputs c).

(** The packets of [ts] are moved from the ports to the invocation. *)
Definition take_port (ts : Z) (acc : PacketSet * InputState) (spec : PortSpec)
  : PacketSet * InputState :=
  match pending_at acc.2 (port_name spec) ts with
  | None => acc
  | Some p =>
      (match acc.1 !! port_name spec with Some _ => acc.1 | None => <[port_name spec := p]> acc.1 end,
       with_pending acc.2 (<[port_name spec := delete ts (pending_of acc.2 (port_name spec))]>
                             (pending acc.2)))
  end.

Definition take_set (c : NodeContract) (ts : Z) (s : InputState) : PacketSet * InputState :=
  fold_left (take_port ts) (inputs c) (∅, s).

(** The keys of a [std::map] in order. *)
Definition sorted_keys (m : gmap Z Packet) : list Z := merge_sort Z.le (map_to_list m).*1.

Definition all_closed (c : NodeContract) (s : InputState) : bool :=
  forallb (fun spec => negb (port_required spec) || bool_decide (port_name spec ∈ closed_ports s))
          (inputs c).

(** One end-of-stream packet per required port. *)
Definition eos_port (ins : PacketSet) (spec : PortSpec) : PacketSet :=
  if port_required spec
  then match ins !! port_name spec with
       | Some _ => ins
       | None => <[port_name spec := Event kEndOfStream Done]> ins
       end
  else ins.
Definition eos_set (c : NodeContract) : PacketSet := fold_left eos_port (inputs c) ∅.

Definition is_eos (p : Packet) : bool := bool_decide (event p = kEndOfStream).

(* [src/core/graph_runner.cpp:739-803] GraphRunner::PrepareInvocation *)
Definition PrepareInvocation (id : string) (c : NodeContract) (port : string) (p : Packet)
    (s : InputState) : Prepared * nat * InputState :=
  match input_policy c with
  | kAny => (PInvoke {[port := p]}, 0%nat, s)
  | policy =>
      let s1 := if is_eos p then mkInputs (latest s) (pending s) ({[port]} ∪ closed_ports s) (bounds s)
                                          (eos_dispatched s) else s in
      match policy with
      | kLatest =>
          let s2 := mkInputs (<[port := p]> (latest s1)) (pending s1) (closed_ports s1) (bounds s1)
                             (eos_dispatched s1) in
          if negb (bool_decide (port = effective_trigger c)) then (PWait, 0%nat, s2)
          else match collect_latest (inputs c) (latest s2) ∅ with
               | None => (PWait, 0%nat, s2)
               | Some ins => (PInvoke ins, 0%nat, s2)
               end
      | _ =>
          if negb (is_range_value (timestamp p)) && negb (is_eos p) then
            (PError (Invalid ("sync input requires a range timestamp on " +:+ id +:+ "." +:+ port)),
             0%nat, s1)
          else
            let s2 := if is_eos p then s1 else put_pending port (microseconds (timestamp p)) p s1 in
            let '(drops, s3) := Prune c s2 in
            match List.find (ready c s3) (sorted_keys (pending_of s3 port)) with
            | Some ts => let '(ins, s4) := take_set c ts s3 in (PInvoke ins, drops, s4)
            | None =>
                if all_closed c s3 && negb (eos_dispatched s3) then
                  (PInvoke (eos_set c), drops,
                   mkInputs (latest s3) (pending s3) (closed_ports s3) (bounds s3) true)
                else (PWait, drops, s3)
            end
      end
  end.

(** The timestamp bound of a port, from [Deliver]. *)
(* [src/core/graph_runner.cpp:723-732] GraphRunner::Deliver (timestamp bound) *)
Definition DeliverBound (id : string) (c : NodeContract) (port : string) (b : Timestamp)
    (s : InputState) : Status * nat * InputState :=
  if match bounds s !! port with Some old => ts_ltb b old | None => false end then
    (Invalid ("timestamp bound cannot move backwards on " +:+ id +:+ "." +:+ port), 0%nat, s)
  else
    let '(drops, s') := Prune c (mkInputs (latest s) (pending s) (closed_ports s)
                                          (<[port := b]> (bounds s)) (eos_dispatched s)) in
    (Ok, drops, s').

(** ** Pruning is exact *)

Lemma pending_at_erase ts s p t :
  pending_at (erase_all ts s) p t = if bool_decide (t = ts) then None else pending_at s p t.
Proof.
  unfold pending_at, pending_of, erase_all; simpl. rewrite lookup_fmap.
  case_bool_decide as Ht.
  - subst. destruct (pending s !! p); simpl; [apply lookup_delete_eq|by rewrite lookup_empty].
  - destruct (pending s !! p); simpl; [by rewrite lookup_delete_ne|done].
Qed.

Lemma pending_at_put port ts q s p t :
  pending_at (put_pending port ts q s) p t =
  if bool_decide (p = port /\ t = ts) then Some q else pending_at s p t.
Proof.
  unfold pending_at, put_pending, pending_of; simpl. case_bool_decide as Hpt.
  - destruct Hpt as [-> ->]. rewrite lookup_insert_eq; simpl. apply lookup_insert_eq.
  - destruct (decide (p = port)) as [->|Hp].
    + rewrite lookup_insert_eq; simpl. rewrite lookup_insert_ne; [done|]. naive_solver.
    + by rewrite lookup_insert_ne.
Qed.

Lemma candidates_spec s ts : ts ∈ candidates s <-> exists p, is_Some (pending_at s p ts).
Proof.
  unfold candidates. rewrite elem_of_remove_dups, list_elem_of_In, in_concat. split.
  - intros (l & Hl & Hts). apply in_map_iff in Hl as ([p m] & <- & Hin).
    apply list_elem_of_In, elem_of_map_to_list in Hin. apply list_elem_of_In in Hts.
    apply list_elem_of_fmap in Hts as ([t q] & -> & Hq). apply elem_of_map_to_list in Hq.
    exists p. unfold pending_at, pending_of. rewrite Hin; simpl. by exists q.
  - intros (p & q & Hq). unfold pending_at, pending_of in Hq.
    destruct (pending s !! p) as [m|] eqn:Hm; simpl in Hq; [|by rewrite lookup_empty in Hq].
    exists (map_to_list m).*1. split.
    + apply in_map_iff. exists (p, m). split; [done|]. by apply list_elem_of_In, elem_of_map_to_list.
    + apply list_elem_of_In, list_elem_of_fmap. exists (ts, q).
      split; [done|]. by apply elem_of_map_to_list.
Qed.

(** The verdict on a timestamp only looks at that timestamp. *)
Lemma impossible_local c s s' ts :
  closed_ports s = closed_ports s' -> bounds s = bounds s' ->
  (forall p, pending_at s p ts = pending_at s' p ts) -> impossible c s ts = impossible c s' ts.
Proof.
  intros Hc Hb Hp. unfold impossible. induction (inputs c) as [|spec l IH]; simpl; [done|].
  rewrite IH. f_equal. unfold port_lost. by rewrite Hc, Hb, Hp.
Qed.

Definition same_rest (s s' : InputState) : Prop :=
  latest s' = latest s /\ closed_ports s' = closed_ports s /\ bounds s' = bounds s /\
  eos_dispatched s' = eos_dispatched s.

Lemma prune_fold c s seen l n s' :
  NoDup l -> (forall t, t ∈ l -> t ∉ seen) -> same_rest s s' ->
  (forall p t, pending_at s' p t =
     if bool_decide (t ∈ seen) && impossible c s t then None else pending_at s p t) ->
  let r := fold_left (prune_one c) l (n, s') in
  r.1 = (n + length (List.filter (impossible c s) l))%nat /\ same_rest s r.2 /\
  forall p t, pending_at r.2 p t =
     if bool_decide (t ∈ seen ++ l) && impossible c s t then None else pending_at s p t.
Proof.
  revert seen n s'. induction l as [|x l IH]; intros seen n s' Hnd Hseen Hrest Hp; simpl.
  - rewrite app_nil_r. split; [lia|]. done.
  - apply NoDup_cons in Hnd as [Hx Hnd].
    assert (impossible c s' x = impossible c s x) as Himp.
    { destruct Hrest as (_ & Hc & Hb & _). apply impossible_local; [done|done|].
      intros p. rewrite Hp. rewrite bool_decide_eq_false_2; [done|]. apply Hseen. set_solver. }
    assert (forall t, bool_decide (t ∈ (seen ++ [x]) ++ l) = bool_decide (t ∈ seen ++ x :: l)) as Happ.
    { intros t. apply bool_decide_ext. set_solver. }
    assert (prune_one c (n, s') x = if impossible c s x then (S n, erase_all x s') else (n, s')) as ->.
    { unfold prune_one; simpl. by rewrite Himp. }
    destruct (impossible c s x) eqn:Ex.
    + destruct (IH (seen ++ [x]) (S n) (erase_all x s')) as (H1 & H2 & H3); [done| |done| |].
      * intros t Ht. rewrite elem_of_app, list_elem_of_singleton. intros [Hd| ->]; [|done].
        by apply (Hseen t); [set_solver|].
      * intros p t. rewrite pending_at_erase, Hp. case_bool_decide as Htx.
        -- subst. rewrite bool_decide_eq_true_2, Ex by set_solver. done.
        -- rewrite (bool_decide_ext (t ∈ seen ++ [x]) (t ∈ seen)) by set_solver. done.
      * simpl. split; [lia|]. split; [done|]. intros p t. by rewrite H3, Happ.
    + destruct (IH (seen ++ [x]) n s') as (H1 & H2 & H3); [done| |done| |].
      * intros t Ht. rewrite elem_of_app, list_elem_of_singleton. intros [Hd| ->]; [|done].
        by apply (Hseen t); [set_solver|].
      * intros p t. rewrite Hp. destruct (decide (t = x)) as [->|Htx].
        -- by rewrite Ex, !andb_false_r.
        -- rewrite (bool_decide_ext (t ∈ seen ++ [x]) (t ∈ seen)) by set_solver. done.
      * split; [done|]. split; [done|]. intros p t. by rewrite H3, Happ.
Qed.

(** Pruning in whatever order. *)
Lemma prune_any_order c s l : l ≡ₚ candidates s ->
  let r := fold_left (prune_one c) l (0%nat, s) in
  r.1 = length (List.filter (impossible c s) l) /\ same_rest s r.2 /\
  forall p t, pending_at r.2 p t = if impossible c s t then None else pending_at s p t.
Proof.
  intros Hl. destruct (prune_fold c s [] l 0 s) as (H1 & H2 & H3).
  - rewrite Hl. apply NoDup_remove_dups.
  - set_solver.
  - done.
  - intros p t. by rewrite bool_decide_eq_false_2 by set_solver.
  - split; [done|]. split; [done|]. intros p t. rewrite H3. simpl.
    case_bool_decide as Hin; simpl; [done|].
    assert (pending_at s p t = None) as ->; [|by destruct (impossible c s t)].
    apply eq_None_not_Some. intros Hs. apply Hin. rewrite Hl, candidates_spec. eauto.
Qed.


Definition av_contract : NodeContract :=
  mkContract [mkPort "audio" AnyCaps true; mkPort "video" AnyCaps true] [] [] kSync "".

Definition av_packet (n t : Z) : Packet := Make (PlOther "int" n) (FromMicroseconds t).

(** Video at 10 and 20, audio at 20 only, with the audio bound at 15. *)
Definition av_inputs : InputState :=
  mkInputs ∅ {[ "video" := {[10 := av_packet 1 10; 20 := av_packet 2 20]};
                "audio" := {[20 := av_packet 3 20]} ]} ∅ {["audio" := FromMicroseconds 15]} false.


(** ** Joining by timestamp *)

Definition port_names (c : NodeContract) : list string := map port_name (inputs c).

Lemma take_port_spec ts specs ins s :
  let r := fold_left (take_port ts) specs (ins, s) in
  same_rest s r.2 /\
  (forall q, r.1 !! q = match ins !! q with
                        | Some p => Some p
                        | None => if bool_decide (q ∈ map port_name specs) then pending_at s q ts
                                  else None
                        end) /\
  (forall q t, pending_at r.2 q t =
     if bool_decide (t = ts /\ q ∈ map port_name specs) then None else pending_at s q t).
Proof.
  revert ins s. induction specs as [|spec specs IH]; intros ins s; simpl.
  - split_and!; [done| |]; intros q; [by destruct (ins !! q)|].
    intros t. rewrite bool_decide_eq_false_2; [done|]. set_solver.
  - unfold take_port at 2 4 6; simpl. set (n := port_name spec).
    destruct (pending_at s n ts) as [p|] eqn:Hp.
    + set (ins' := match ins !! n with Some _ => ins | None => <[n := p]> ins end).
      set (s' := with_pending s (<[n := delete ts (pending_of s n)]> (pending s))).
      destruct (IH ins' s') as (H1 & H2 & H3).
      assert (forall q t, pending_at s' q t =
                if bool_decide (t = ts /\ q = n) then None else pending_at s q t) as Hs'.
      { intros q t. unfold pending_at, s', pending_of; simpl.
        destruct (decide (q = n)) as [->|Hq].
        - rewrite lookup_insert_eq; simpl. destruct (decide (t = ts)) as [->|Ht].
          + by rewrite lookup_delete_eq, bool_decide_eq_true_2.
          + rewrite lookup_delete_ne by done. rewrite bool_decide_eq_false_2 by naive_solver. done.
        - rewrite lookup_insert_ne by done. rewrite bool_decide_eq_false_2 by naive_solver. done. }
      split_and!; [done| |].
      * intros q. rewrite H2, Hs'. unfold ins'. destruct (decide (q = n)) as [->|Hq].
        -- destruct (ins !! n) eqn:Hn; [by rewrite Hn|]. rewrite lookup_insert_eq.
           rewrite bool_decide_eq_true_2 by set_solver. done.
        -- rewrite (bool_decide_ext (q ∈ n :: map port_name specs) (q ∈ map port_name specs))
             by set_solver.
           rewrite (bool_decide_eq_false_2 (ts = ts /\ q = n)) by naive_solver.
           destruct (ins !! n); [done|]. by rewrite lookup_insert_ne.
      * intros q t. rewrite H3, Hs'. repeat case_bool_decide; set_solver.
    + destruct (IH ins s) as (H1 & H2 & H3). split_and!; [done| |].
      * intros q. rewrite H2. destruct (ins !! q); [done|].
        destruct (decide (q = n)) as [->|Hq]; [by repeat case_bool_decide|].
        rewrite (bool_decide_ext (q ∈ n :: map port_name specs) (q ∈ map port_name specs))
          by set_solver. done.
      * intros q t. rewrite H3. destruct (decide (q = n)) as [->|Hq].
        -- repeat case_bool_decide; set_solver.
        -- rewrite (bool_decide_ext (t = ts /\ q ∈ n :: map port_name specs)
                                    (t = ts /\ q ∈ map port_name specs)) by set_solver. done.
Qed.

(** What happens at the inputs of a node: a packet or a bound is delivered. *)
Inductive SyncEvent :=
| SPacket (port : string) (p : Packet)
| SBound (port : string) (b : Timestamp).

Definition event_port (e : SyncEvent) : string :=
  match e with SPacket q _ => q | SBound q _ => q end.

(** The invocations a sequence of deliveries leads to, oldest first. *)
Definition sync_step (id : string) (c : NodeContract) (acc : list PacketSet * InputState)
    (e : SyncEvent) : list PacketSet * InputState :=
  match e with
  | SPacket port p =>
      let '(r, _, s') := PrepareInvocation id c port p acc.2 in
      (acc.1 ++ match r with PInvoke ins => [ins] | _ => [] end, s')
  | SBound port b => (acc.1, (DeliverBound id c port b acc.2).2)
  end.

Definition sync_run (id : string) (c : NodeContract) (evs : list SyncEvent)
  : list PacketSet * InputState := fold_left (sync_step id c) evs ([], empty_inputs).

Lemma ready_local c s s' ts :
  (forall p, pending_at s p ts = pending_at s' p ts) -> ready c s ts = ready c s' ts.
Proof.
  intros Hp. unfold ready. induction (inputs c) as [|spec l IH]; simpl; [done|].
  rewrite IH. f_equal. by rewrite Hp.
Qed.

Lemma ready_false c s ts : ready c s ts = false ->
  exists spec, spec ∈ inputs c /\ port_required spec = true /\ pending_at s (port_name spec) ts = None.
Proof.
  unfold ready. induction (inputs c) as [|spec l IH]; simpl; [done|].
  intros [H|H]%andb_false_iff.
  - apply orb_false_iff in H as [H1 H2]. exists spec. split; [set_solver|].
    apply negb_false_iff in H1. split; [done|]. apply bool_decide_eq_false_1 in H2.
    by apply eq_None_not_Some.
  - destruct (IH H) as (x & ? & ?). exists x. split; [set_solver|done].
Qed.

Lemma ready_true c s ts spec : ready c s ts = true -> spec ∈ inputs c -> port_required spec = true ->
  is_Some (pending_at s (port_name spec) ts).
Proof.
  unfold ready. rewrite forallb_forall. intros H Hin Hr.
  specialize (H spec (proj1 (list_elem_of_In _ _) Hin)). rewrite Hr in H. simpl in H.
  by apply bool_decide_eq_true_1 in H.
Qed.

Lemma all_closed_spec c s : all_closed c s = true <->
  forall spec, spec ∈ inputs c -> port_required spec = true -> port_name spec ∈ closed_ports s.
Proof.
  unfold all_closed. rewrite forallb_forall. split; intros H spec Hin.
  - intros Hr. specialize (H spec (proj1 (list_elem_of_In _ _) Hin)). rewrite Hr in H. simpl in H.
    by apply bool_decide_eq_true_1 in H.
  - apply list_elem_of_In in Hin. destruct (port_required spec) eqn:Hr; simpl; [|done].
    apply bool_decide_eq_true_2. auto.
Qed.

Lemma prune_pending c s (r := Prune c s) :
  input_policy c = kSync ->
  same_rest s r.2 /\
  forall t, (impossible c s t = true /\ forall q, pending_at r.2 q t = None) \/
            (impossible c s t = false /\ impossible c r.2 t = false /\
             forall q, pending_at r.2 q t = pending_at s q t).
Proof.
  intros Hk. subst r. unfold Prune. rewrite bool_decide_eq_true_2 by done.
  destruct (prune_any_order c s (candidates s)) as (_ & H2 & H3); [done|]. simpl in *.
  split; [done|]. intros t. destruct (impossible c s t) eqn:Hi.
  - left. split; [done|]. intros q. by rewrite H3, Hi.
  - right. assert (forall q, pending_at (fold_left (prune_one c) (candidates s) (0%nat, s)).2 q t =
                             pending_at s q t) as Hq by (intros q; by rewrite H3, Hi).
    split; [done|]. split; [|done]. rewrite <- Hi. destruct H2 as (_ & Hc & Hb & _).
    by apply impossible_local.
Qed.

Lemma sorted_keys_spec m t : t ∈ sorted_keys m <-> is_Some (m !! t).
Proof.
  unfold sorted_keys. rewrite (merge_sort_Permutation Z.le), list_elem_of_fmap. split.
  - intros ([x p] & -> & H). apply elem_of_map_to_list in H. by exists p.
  - intros [p H]. exists (t, p). split; [done|]. by apply elem_of_map_to_list.
Qed.

Lemma eos_set_events c q p : eos_set c !! q = Some p -> is_eos p = true.
Proof.
  unfold eos_set. assert (forall l ins, (forall q p, ins !! q = Some p -> is_eos p = true) ->
    forall q p, fold_left eos_port l ins !! q = Some p -> is_eos p = true) as H.
  { induction l as [|spec l IH]; intros ins Hi; simpl; [done|]. apply IH. intros q' p'.
    unfold eos_port. destruct (port_required spec); [|apply Hi].
    destruct (ins !! port_name spec); [apply Hi|].
    intros [[<- <-]|[_ Hq]]%lookup_insert_Some; [done|]. by apply Hi in Hq. }
  apply H. intros q' p' Hq. by rewrite lookup_empty in Hq.
Qed.

(** ** The history of a synchronised node *)

(** [ins] joins packets that were delivered, all of one timestamp, with every required port. *)
Definition joined (c : NodeContract) (evs : list SyncEvent) (ins : PacketSet) : Prop :=
  ins <> ∅ /\ exists ts,
  (forall q p, ins !! q = Some p ->
     microseconds (timestamp p) = ts /\ is_eos p = false /\ SPacket q p ∈ evs) /\
  (forall spec, spec ∈ inputs c -> port_required spec = true -> is_Some (ins !! port_name spec)).

Definition ended (evs : list SyncEvent) (q : string) : Prop :=
  exists p, SPacket q p ∈ evs /\ is_eos p = true.

(** The invocations that carry nothing but end of stream. *)
Definition all_eos (ins : PacketSet) : Prop := map_Forall (fun _ p => is_eos p = true) ins.
Definition eos_count (invs : list PacketSet) : nat := length (filter all_eos invs).

Record SyncInv (c : NodeContract) (evs : list SyncEvent) (invs : list PacketSet) (s : InputState) :=
  mkSyncInv {
    inv_invs : forall ins, ins ∈ invs -> joined c evs ins \/
                 (ins = eos_set c /\ forall spec, spec ∈ inputs c -> port_required spec = true ->
                                                  ended evs (port_name spec));
    inv_pending : forall q t p, pending_at s q t = Some p ->
                  q ∈ port_names c /\ microseconds (timestamp p) = t /\ is_eos p = false /\
                  SPacket q p ∈ evs;
    inv_waiting : forall q t, is_Some (pending_at s q t) ->
                  ready c s t = false /\ impossible c s t = false;
    inv_closed : forall q, q ∈ closed_ports s <-> ended evs q;
    inv_count : eos_count invs = if eos_dispatched s then 1%nat else 0%nat;
    inv_eos : all_closed c s = eos_dispatched s }.

Lemma joined_mono c (evs : list SyncEvent) e ins : joined c evs ins -> joined c (evs ++ [e]) ins.
Proof. intros (Hn & ts & H1 & H2). split; [done|]. exists ts. split; [|done]. set_solver. Qed.
Lemma ended_mono evs e q : ended evs q -> ended (evs ++ [e]) q.
Proof. intros (p & H & Hp). exists p. set_solver. Qed.

Lemma joined_not_eos c evs ins : joined c evs ins -> ~ all_eos ins.
Proof.
  intros (Hn & ts & H & _) Ha. apply map_choose in Hn as (q & p & Hq).
  destruct (H q p Hq) as (_ & He & _). specialize (Ha q p Hq). simpl in Ha. congruence.
Qed.

Lemma eos_count_app invs ins :
  eos_count (invs ++ [ins]) = (eos_count invs + if decide (all_eos ins) then 1 else 0)%nat.
Proof.
  unfold eos_count. rewrite filter_app, length_app, filter_cons, filter_nil.
  by destruct (decide (all_eos ins)).
Qed.

(** What the state is like after pruning, when it was sound before up to one
    timestamp that may have become complete. *)
Lemma prune_sound c s (evs : list SyncEvent) (r := Prune c s) :
  input_policy c = kSync ->
  (forall q t p, pending_at s q t = Some p ->
     q ∈ port_names c /\ microseconds (timestamp p) = t /\ is_eos p = false /\ SPacket q p ∈ evs) ->
  same_rest s r.2 /\
  (forall q t p, pending_at r.2 q t = Some p ->
     q ∈ port_names c /\ microseconds (timestamp p) = t /\ is_eos p = false /\ SPacket q p ∈ evs) /\
  (forall q t, is_Some (pending_at r.2 q t) -> impossible c r.2 t = false /\
     forall q', pending_at r.2 q' t = pending_at s q' t).
Proof.
  intros Hk Hs. destruct (prune_pending c s Hk) as [H1 H2]. fold r in H1, H2. split_and!; [done| |].
  - intros q t p Hp. destruct (H2 t) as [(_ & H)|(_ & _ & H)]; rewrite H in Hp; [done|auto].
  - intros q t [p Hp]. destruct (H2 t) as [(_ & H)|(_ & Hi & H)]; [by rewrite H in Hp|done].
Qed.

Lemma all_closed_rest c s s' : same_rest s s' -> all_closed c s' = all_closed c s.
Proof. intros (_ & Hc & _ & _). unfold all_closed. by rewrite Hc. Qed.

(** Nothing is left when the required ports are all closed. *)
Lemma all_closed_nothing_pending c s :
  (forall q t, is_Some (pending_at s q t) -> ready c s t = false /\ impossible c s t = false) ->
  all_closed c s = true -> forall q t, pending_at s q t = None.
Proof.
  intros H Hc q t. apply eq_None_not_Some. intros Hs. destruct (H q t Hs) as [Hr Hi].
  apply ready_false in Hr as (spec & Hin & Hreq & Hp). rewrite all_closed_spec in Hc.
  assert (impossible c s t = true); [|congruence]. unfold impossible. apply existsb_exists.
  exists spec. split; [by apply list_elem_of_In|]. unfold port_lost.
  rewrite Hreq, Hp, (bool_decide_eq_true_2 (_ ∈ _)) by auto. done.
Qed.

Lemma mono_invs c evs (invs : list PacketSet) e :
  (forall ins, ins ∈ invs -> joined c evs ins \/ (ins = eos_set c /\
     forall spec, spec ∈ inputs c -> port_required spec = true -> ended evs (port_name spec))) ->
  forall ins, ins ∈ invs -> joined c (evs ++ [e]) ins \/ (ins = eos_set c /\
     forall spec, spec ∈ inputs c -> port_required spec = true -> ended (evs ++ [e]) (port_name spec)).
Proof.
  intros H ins Hin. destruct (H ins Hin) as [|[-> ?]]; [left; by apply joined_mono|right].
  split; [done|]. intros. apply ended_mono. auto.
Qed.

Lemma sync_bound_inv id c evs invs s q b :
  input_policy c = kSync -> SyncInv c evs invs s ->
  SyncInv c (evs ++ [SBound q b]) invs (DeliverBound id c q b s).2.
Proof.
  intros Hk [H1 H2 H3 H4 H5 H6]. unfold DeliverBound.
  assert (forall q', ended (evs ++ [SBound q b]) q' <-> ended evs q') as Hended.
  { intros q'. split; [|apply ended_mono]. intros (p & Hp & He). exists p. split; [set_solver|done]. }
  pose proof (mono_invs _ _ _ (SBound q b) H1) as Hinvs.
  destruct (match bounds s !! q with Some old => ts_ltb b old | None => false end); simpl.
  - split; [done|set_solver|done| |done..]. intros q'. by rewrite Hended.
  - set (s1 := mkInputs _ _ _ _ _). destruct (prune_sound c s1 (evs ++ [SBound q b]) Hk) as (P1 & P2 & P3).
    { intros q' t p Hp. destruct (H2 q' t p Hp) as (?&?&?&?). set_solver. }
    destruct (Prune c s1) as [drops s2]; simpl in *. pose proof P1 as (_ & Hcl & _ & Heos).
    split; [done|done| | |by rewrite Heos|].
    + intros q' t Hs. destruct (P3 q' t Hs) as [Hi Hsame]. split; [|done].
      rewrite (ready_local c s2 s) by apply Hsame. apply (H3 q' t).
      change (is_Some (pending_at s1 q' t)). by rewrite <- (Hsame q').
    + intros q'. rewrite Hcl, Hended. apply H4.
    + rewrite (all_closed_rest c s1 s2), Heos by done. apply H6.
Qed.

(** The end of a stream closes its port. *)
Lemma sync_eos_inv id c evs invs s q p (r := PrepareInvocation id c q p s) :
  input_policy c = kSync -> existsb port_required (inputs c) = true -> is_eos p = true ->
  SyncInv c evs invs s ->
  SyncInv c (evs ++ [SPacket q p]) (invs ++ match r.1.1 with PInvoke ins => [ins] | _ => [] end) r.2.
Proof.
  intros Hk Hreq He [H1 H2 H3 H4 H5 H6]. subst r. unfold PrepareInvocation.
  rewrite Hk, He, andb_false_r.
  set (evs' := evs ++ [SPacket q p]).
  set (s1 := mkInputs (latest s) (pending s) ({[q]} ∪ closed_ports s) (bounds s) (eos_dispatched s)).
  destruct (prune_sound c s1 evs' Hk) as (P1 & P2 & P3).
  { intros q' t p' Hp. destruct (H2 q' t p' Hp) as (?&?&?&?). set_solver. }
  destruct (Prune c s1) as [drops s3]; simpl in *. pose proof P1 as (_ & Hcl & _ & Heos).
  change (eos_dispatched s1) with (eos_dispatched s) in Heos.
  assert (forall q', q' ∈ closed_ports s3 <-> ended evs' q') as Hended.
  { intros q'. rewrite Hcl; simpl. rewrite elem_of_union, elem_of_singleton, H4. unfold ended, evs'.
    split; [intros [->|(x & ? & ?)]; [by exists p; set_solver|exists x; set_solver]|].
    intros (x & Hx & Hxe). apply elem_of_app in Hx as [Hx|Hx]; [right; eauto|]. set_solver. }
  pose proof (mono_invs _ _ _ (SPacket q p) H1) as Hinvs.
  assert (forall q' t, is_Some (pending_at s3 q' t) -> ready c s3 t = false /\ impossible c s3 t = false)
    as Hwait.
  { intros q' t Hs. destruct (P3 q' t Hs) as [Hi Hsame]. split; [|done].
    rewrite (ready_local c s3 s) by apply Hsame. apply (H3 q' t).
    change (is_Some (pending_at s1 q' t)). by rewrite <- (Hsame q'). }
  destruct (List.find (ready c s3) (sorted_keys (pending_of s3 q))) as [ts|] eqn:Hf.
  { apply find_some in Hf as [Hin Hr]. apply list_elem_of_In, sorted_keys_spec in Hin.
    destruct (Hwait q ts Hin). congruence. }
  assert (eos_dispatched s3 = true -> all_closed c s3 = true) as Hac.
  { rewrite Heos, <- H6, !all_closed_spec, Hcl; simpl. set_solver. }
  destruct (all_closed c s3) eqn:Hall; [destruct (eos_dispatched s3) eqn:Hed|]; simpl.
  - rewrite app_nil_r. split; [done..| |]; [by rewrite H5, <- Heos, ?Hed|congruence].
  - split; simpl; [|done|exact Hwait|done| |done].
    + intros ins [Hin|Hin]%elem_of_app; [auto|]. apply list_elem_of_singleton in Hin as ->.
      right. split; [done|]. intros. apply Hended. rewrite all_closed_spec in Hall. auto.
    + rewrite eos_count_app, H5, <- Heos, ?Hed. rewrite decide_True; [done|].
      intros q' p'. apply eos_set_events.
  - rewrite app_nil_r. destruct (eos_dispatched s3) eqn:Hed; [by specialize (Hac eq_refl)|].
    split; [done..| |]; [by rewrite H5, <- Heos, ?Hed|congruence].
Qed.

(** Taking a complete timestamp gives a joined set and leaves the other timestamps. *)
Lemma take_set_joined c (evs : list SyncEvent) s q ts (r := take_set c ts s) :
  (forall q t p, pending_at s q t = Some p -> q ∈ port_names c /\
     microseconds (timestamp p) = t /\ is_eos p = false /\ SPacket q p ∈ evs) ->
  ready c s ts = true -> is_Some (pending_at s q ts) ->
  joined c evs r.1 /\ same_rest s r.2 /\
  (forall q', pending_at r.2 q' ts = None) /\
  (forall q' t, t <> ts -> pending_at r.2 q' t = pending_at s q' t).
Proof.
  intros Hp Hr [x Hx]. destruct (take_port_spec ts (inputs c) ∅ s) as (H1 & H2 & H3).
  fold (take_set c ts s) in H1, H2, H3. fold r in H1, H2, H3.
  assert (forall q', r.1 !! q' = pending_at s q' ts) as Hr1.
  { intros q'. rewrite H2, lookup_empty. case_bool_decide as Hq; [done|].
    destruct (pending_at s q' ts) as [y|] eqn:Hy; [|done]. by destruct (Hp q' ts y Hy). }
  split_and!; [|done| |].
  - split; [intros He; specialize (Hr1 q); rewrite He, lookup_empty in Hr1; congruence|].
    exists ts. split.
    + intros q' p. rewrite Hr1. intros Hq. destruct (Hp q' ts p Hq) as (_ & ? & ? & ?). done.
    + intros spec Hin Hreq. rewrite Hr1. by apply (ready_true c).
  - intros q'. rewrite H3. case_bool_decide as Hq; [done|].
    destruct (pending_at s q' ts) as [y|] eqn:Hy; [|done]. destruct Hq. split; [done|].
    by destruct (Hp q' ts y Hy).
  - intros q' t Ht. rewrite H3. rewrite bool_decide_eq_false_2; [done|]. naive_solver.
Qed.

Lemma sync_data_inv id c evs invs s q p (r := PrepareInvocation id c q p s) :
  input_policy c = kSync -> q ∈ port_names c -> is_eos p = false -> SyncInv c evs invs s ->
  SyncInv c (evs ++ [SPacket q p]) (invs ++ match r.1.1 with PInvoke ins => [ins] | _ => [] end) r.2.
Proof.
  intros Hk Hport He [H1 H2 H3 H4 H5 H6]. subst r. unfold PrepareInvocation. rewrite Hk, He.
  set (evs' := evs ++ [SPacket q p]). pose proof (mono_invs _ _ _ (SPacket q p) H1) as Hinvs.
  assert (forall q', ended evs' q' <-> ended evs q') as Hended.
  { intros q'. split; [|apply ended_mono]. intros (x & Hx & Hxe). exists x. split; [|done].
    apply elem_of_app in Hx as [|Hx]; [done|]. apply list_elem_of_singleton in Hx. congruence. }
  destruct (is_range_value (timestamp p)); simpl.
  2: { rewrite app_nil_r. split; [done| |done| |done..]; [set_solver|]. intros q'. by rewrite Hended. }
  set (ts0 := microseconds (timestamp p)). set (s2 := put_pending q ts0 p s).
  destruct (prune_sound c s2 evs' Hk) as (P1 & P2 & P3).
  { intros q' t x. unfold s2. rewrite pending_at_put. case_bool_decide as Hc.
    - destruct Hc as [-> ->]. intros [= <-]. split_and!; [done..|]. unfold evs'. set_solver.
    - intros Hx. destruct (H2 q' t x Hx) as (?&?&?&?). unfold evs'. set_solver. }
  destruct (Prune c s2) as [drops s3]; simpl in *. pose proof P1 as (_ & Hcl & _ & Heos).
  change (closed_ports s2) with (closed_ports s) in Hcl.
  change (eos_dispatched s2) with (eos_dispatched s) in Heos.
  assert (all_closed c s3 = eos_dispatched s3) as Hall.
  { rewrite (all_closed_rest c s2 s3 P1), Heos. apply H6. }
  assert (forall q' t, is_Some (pending_at s3 q' t) -> t <> ts0 -> ready c s3 t = false) as Hother.
  { intros q' t Hs Ht. destruct (P3 q' t Hs) as [_ Hsame].
    assert (forall x, pending_at s3 x t = pending_at s x t) as Hst.
    { intros x. rewrite Hsame. unfold s2. rewrite pending_at_put, bool_decide_eq_false_2; naive_solver. }
    rewrite (ready_local c s3 s) by apply Hst. apply (H3 q' t). by rewrite <- Hst. }
  destruct (List.find (ready c s3) (sorted_keys (pending_of s3 q))) as [ts|] eqn:Hf.
  - apply find_some in Hf as [Hin Hr]. apply list_elem_of_In, sorted_keys_spec in Hin.
    destruct (take_set_joined c evs' s3 q ts P2 Hr Hin) as (T1 & T2 & T3 & T4).
    destruct (take_set c ts s3) as [ins s4]; simpl in *. pose proof T2 as (_ & Hcl4 & Hb4 & Heos4).
    assert (ts = ts0) as ->.
    { destruct (decide (ts = ts0)); [done|]. rewrite (Hother q ts) in Hr; [done..]. }
    split; [| | | | |].
    + intros x [Hx|Hx]%elem_of_app; [auto|]. apply list_elem_of_singleton in Hx as ->. by left.
    + intros q' t x Hx. destruct (decide (t = ts0)) as [->|Ht]; [by rewrite T3 in Hx|].
      rewrite T4 in Hx by done. eauto.
    + intros q' t Hs. destruct (decide (t = ts0)) as [->|Ht]; [rewrite T3 in Hs; by destruct Hs|].
      rewrite T4 in Hs by done. rewrite (ready_local c s4 s3) by (intros; by apply T4).
      rewrite (impossible_local c s4 s3) by (intros; first [done | by apply T4]).
      split; [eauto|]. by apply (P3 q' t).
    + intros q'. rewrite Hcl4, Hcl, Hended. apply H4.
    + rewrite eos_count_app, decide_False, H5, Heos4, Heos by (by eapply joined_not_eos).
      by destruct (eos_dispatched s).
    + by rewrite (all_closed_rest c s3 s4 T2), Heos4.
  - rewrite Hall, andb_negb_r. simpl. rewrite app_nil_r. split; [done|done| | |by rewrite Heos|done].
    + intros q' t Hs. destruct (P3 q' t Hs) as [Hi Hsame]. split; [|done].
      destruct (decide (t = ts0)) as [->|Ht]; [|eauto].
      apply (find_none _ _ Hf), list_elem_of_In, sorted_keys_spec.
      change (is_Some (pending_at s3 q ts0)). rewrite Hsame. unfold s2.
      rewrite pending_at_put, bool_decide_eq_true_2; done.
    + intros q'. rewrite Hcl, Hended. apply H4.
Qed.

Lemma sync_run_snoc id c evs e : sync_run id c (evs ++ [e]) = sync_step id c (sync_run id c evs) e.
Proof. unfold sync_run. apply fold_left_app. Qed.

Lemma sync_run_inv id c evs :
  input_policy c = kSync -> existsb port_required (inputs c) = true ->
  Forall (fun e => event_port e ∈ port_names c) evs ->
  SyncInv c evs (sync_run id c evs).1 (sync_run id c evs).2.
Proof.
  intros Hk Hreq. induction evs as [|e evs IH] using rev_ind; intros Hev.
  - assert (forall q t, pending_at empty_inputs q t = None) as He by done.
    split; simpl; [set_solver| | | |done|].
    + intros q t p. by rewrite He.
    + intros q t. rewrite He. by intros [? ?].
    + intros q. split; [set_solver|]. intros (p & Hp & _). set_solver.
    + destruct (all_closed c empty_inputs) eqn:Ha; [|done]. rewrite all_closed_spec in Ha.
      apply existsb_exists in Hreq as (spec & Hin & Hr). apply list_elem_of_In in Hin.
      specialize (Ha spec Hin Hr). set_solver.
  - apply Forall_app in Hev as [Hev Hq]. apply Forall_cons in Hq as [Hq _]. specialize (IH Hev).
    rewrite sync_run_snoc. destruct (sync_run id c evs) as [invs s]; simpl in *.
    destruct e as [q p|q b]; [|by apply sync_bound_inv]. destruct (is_eos p) eqn:He.
    + pose proof (sync_eos_inv id c evs invs s q p Hk Hreq He IH) as H. unfold sync_step.
      simpl. by destruct (PrepareInvocation id c q p s) as [[r n] s'].
    + pose proof (sync_data_inv id c evs invs s q p Hk Hq He IH) as H. unfold sync_step.
      simpl. by destruct (PrepareInvocation id c q p s) as [[r n] s'].
Qed.


(** Audio and video at 10 are joined; the video at 20 cannot be, as audio ends. *)
Definition av_events : list SyncEvent :=
  [SPacket "video" (av_packet 1 10); SPacket "audio" (av_packet 2 10);
   SPacket "video" (av_packet 3 20); SPacket "audio" (Event kEndOfStream Done);
   SPacket "video" (Event kEndOfStream Done)].

