(* ===== verification/Observers.v ===== *)
(** * Output observers and the error callback

    [src/core/graph_runner.cpp]: an observer of a graph output has a bounded
    queue, a worker thread that calls back, and a condition variable for the
    clients that wait for deliveries.  Every access is made under the observer's
    mutex, so the functions here are the critical sections, and [None] is a
    wait.  The callback is application code; [received] records what it was
    called with.

    [ObsStep] interleaves the calls of the graph, of the worker and of the
    clients in any order. *)

From S2P Require Import Prelude Status Timestamp Values BoundedQueue.
Local Open Scope nat_scope.

(* [include/rkavp/graph_runner.hpp:35-39] ObserverOptions *)
Record ObserverOptions := mkObserverOptions {
  oo_capacity : nat;
  oo_policy : QueuePolicy;
  oo_bounds : bool }.
Definition default_observer_options : ObserverOptions := mkObserverOptions 64 kDropOldest false.

(* [include/rkavp/graph_runner.hpp:121-135] GraphRunner::ObserverRuntime *)
Record Observer := mkObserver {
  ob_stream : string;
  ob_options : ObserverOptions;
  ob_queue : list Packet;
  ob_stopped : bool;
  ob_active : bool;
  ob_delivered : nat;
  ob_waited : nat;
  ob_dropped : nat;
  received : list Packet }.

Definition new_observer (stream : string) (o : ObserverOptions) : Observer :=
  mkObserver stream o [] false false 0 0 0 [].

Implicit Types (o : Observer) (p : Packet).

(** The tests of [ObserveOutput] before it creates the observer. *)
(* [src/core/graph_runner.cpp:75-87] GraphRunner::ObserveOutput (checks) *)
Definition check_observe (has_callback : bool) (options : ObserverOptions) (outputs : list string)
    (stream : string) : Status :=
  if negb has_callback then Invalid "output callback is empty"
  else if bool_decide (oo_capacity options = 0) then
    Invalid "observer queue capacity must be positive"
  else if bool_decide (oo_policy options = kBlock) then
    Invalid ("observer queue policy cannot be block because callbacks must not stall graph " +:+
             "executors")
  else if negb (bool_decide (stream ∈ outputs)) then
    NotFound ("graph output stream not found: " +:+ stream)
  else Ok.

(** The result says whether a packet was lost, which is counted as
    [observer.<stream>.dropped]. *)
(* [src/core/graph_runner.cpp:641-653] GraphRunner::EnqueueObserver *)
Definition EnqueueObserver p o : bool * Observer :=
  if ob_stopped o then (false, o)
  else if bool_decide (oo_capacity (ob_options o) <= length (ob_queue o)) then
    let q := if bool_decide (oo_policy (ob_options o) = kDropNewest) then ob_queue o
             else tail (ob_queue o) ++ [p] in
    (true, mkObserver (ob_stream o) (ob_options o) q (ob_stopped o) (ob_active o) (ob_delivered o)
                      (ob_waited o) (S (ob_dropped o)) (received o))
  else
    (false, mkObserver (ob_stream o) (ob_options o) (ob_queue o ++ [p]) (ob_stopped o) (ob_active o)
                       (ob_delivered o) (ob_waited o) (ob_dropped o) (received o)).

(** The worker: the next packet, or the end of its loop. *)
(* [src/core/graph_runner.cpp:655-666] GraphRunner::RunObserver (take) *)
Definition observer_take o : option (option Packet * Observer) :=
  match ob_queue o with
  | [] => if ob_stopped o then Some (None, o) else None
  | p :: rest =>
      Some (Some p, mkObserver (ob_stream o) (ob_options o) rest (ob_stopped o) true
                               (ob_delivered o) (ob_waited o) (ob_dropped o) (received o))
  end.

(** The callback is called with [p]; the result says whether it throws, which is counted as
    [graph.output_callback_errors] and changes nothing else. *)
(* [src/core/graph_runner.cpp:667-671] GraphRunner::RunObserver (callback) *)
Definition observer_callback (throws : bool) p o : bool * Observer :=
  (throws, mkObserver (ob_stream o) (ob_options o) (ob_queue o) (ob_stopped o) (ob_active o)
                      (ob_delivered o) (ob_waited o) (ob_dropped o) (received o ++ [p])).

(* [src/core/graph_runner.cpp:672-677] GraphRunner::RunObserver (finish) *)
Definition observer_finish o : Observer :=
  mkObserver (ob_stream o) (ob_options o) (ob_queue o) (ob_stopped o) false
             (S (ob_delivered o)) (ob_waited o) (ob_dropped o) (received o).

(* [src/core/graph_runner.cpp:112-116] GraphRunner::CancelObserver (stop) *)
Definition observer_stop o : Observer :=
  mkObserver (ob_stream o) (ob_options o) (ob_queue o) true (ob_active o)
             (ob_delivered o) (ob_waited o) (ob_dropped o) (received o).

(** [expired]: the time of a wait with a timeout has passed. *)
(* [src/core/graph_runner.cpp:126-146] GraphRunner::WaitForObservedOutput *)
Definition WaitForObservedOutput (expired : bool) o : option (Status * Observer) :=
  if ob_stopped o || bool_decide (ob_waited o < ob_delivered o) then
    if bool_decide (ob_waited o < ob_delivered o) then
      Some (Ok, mkObserver (ob_stream o) (ob_options o) (ob_queue o) (ob_stopped o) (ob_active o)
                           (ob_delivered o) (ob_delivered o) (ob_dropped o) (received o))
    else Some (Cancelled "observer was cancelled", o)
  else if expired then Some (Unavailable "wait for observed output timed out", o)
  else None.

(** ** The history of an observer *)

(** The position of the worker in its loop: waiting, with a packet in hand, or
    after the callback. *)
Inductive Worker := WIdle | WHolds (p : Packet) | WCalled | WDone.

(** The observer, its worker, the packets the graph offered and the number of
    times a client saw a delivery. *)
Record Observed := mkObserved { ob : Observer; worker : Worker; offered : list Packet; seen : nat }.

Inductive ObsStep : Observed -> Observed -> Prop :=
| obs_enqueue o w offs n p :
    ObsStep (mkObserved o w offs n)
            (mkObserved (EnqueueObserver p o).2 w (if ob_stopped o then offs else offs ++ [p]) n)
| obs_take o offs n p o' : observer_take o = Some (Some p, o') ->
    ObsStep (mkObserved o WIdle offs n) (mkObserved o' (WHolds p) offs n)
| obs_leave o offs n o' : observer_take o = Some (None, o') ->
    ObsStep (mkObserved o WIdle offs n) (mkObserved o' WDone offs n)
| obs_call throws o offs n p :
    ObsStep (mkObserved o (WHolds p) offs n) (mkObserved (observer_callback throws p o).2 WCalled offs n)
| obs_finish o offs n :
    ObsStep (mkObserved o WCalled offs n) (mkObserved (observer_finish o) WIdle offs n)
| obs_stop o w offs n :
    ObsStep (mkObserved o w offs n) (mkObserved (observer_stop o) w offs n)
| obs_wait o w offs n e st o' : WaitForObservedOutput e o = Some (st, o') ->
    ObsStep (mkObserved o w offs n) (mkObserved o' w offs (if ok st then S n else n)).

Definition in_hand (w : Worker) : list Packet := match w with WHolds p => [p] | _ => [] end.

Record obs_inv (x : Observed) : Prop := mkObsInv {
  obs_bounded : length (ob_queue (ob x)) <= oo_capacity (ob_options (ob x));
  obs_order : received (ob x) ++ in_hand (worker x) ++ ob_queue (ob x) `sublist_of` offered x;
  obs_conserved : length (offered x) = length (received (ob x)) + length (in_hand (worker x)) +
                                       length (ob_queue (ob x)) + ob_dropped (ob x);
  obs_delivered : length (received (ob x)) =
                  ob_delivered (ob x) + match worker x with WCalled => 1 | _ => 0 end;
  obs_waited : seen x <= ob_waited (ob x) <= ob_delivered (ob x);
  obs_done : worker x = WDone -> ob_stopped (ob x) = true /\ ob_queue (ob x) = [];
  obs_capacity : 0 < oo_capacity (ob_options (ob x)) }.

Lemma tail_sublist {A} (l : list A) : tail l `sublist_of` l.
Proof. destruct l; simpl; [done|]. by apply sublist_cons. Qed.

Lemma enqueue_inv o w offs n p : obs_inv (mkObserved o w offs n) ->
  obs_inv (mkObserved (EnqueueObserver p o).2 w (if ob_stopped o then offs else offs ++ [p]) n).
Proof.
  intros [H1 H2 H3 H4 H5 H6 H7]; simpl in *. unfold EnqueueObserver.
  destruct (ob_stopped o) eqn:Hs; [by split; simpl; rewrite ?Hs|].
  assert (w <> WDone) as Hw by (intros ->; destruct (H6 eq_refl); congruence).
  case_bool_decide as Hfull; simpl.
  - case_bool_decide as Hp; split; simpl; rewrite ?length_app, ?length_tl; simpl; try done; try lia.
    + by apply sublist_inserts_r.
    + rewrite !(assoc_L (++)). apply sublist_app; [|done].
      etrans; [|exact H2]. rewrite !(assoc_L (++)). apply sublist_app; [done|apply tail_sublist].
  - split; simpl; rewrite ?length_app; simpl; try done; try lia.
    rewrite !(assoc_L (++)). apply sublist_app; [|done]. by rewrite <- (assoc_L (++)).
Qed.

Lemma obs_step_inv x y : obs_inv x -> ObsStep x y -> obs_inv y.
Proof.
  intros Hx Hstep.
  destruct Hstep as [o w offs n p|o offs n p o' Ht|o offs n o' Ht|throws o offs n p|o offs n|o w offs n|
                     o w offs n e st o' Hw]; [by apply enqueue_inv|..];
    destruct Hx as [H1 H2 H3 H4 H5 H6 H7]; simpl in *.
  - unfold observer_take in Ht. destruct (ob_queue o) as [|q rest]; [by destruct (ob_stopped o)|].
    injection Ht as <- <-. split; simpl in *; try done; lia.
  - unfold observer_take in Ht. destruct (ob_queue o) as [|q rest] eqn:Hq; [|done].
    destruct (ob_stopped o) eqn:Hs; [|done]. injection Ht as <-. by split; simpl; rewrite ?Hq.
  - split; simpl; rewrite ?length_app; simpl; try done; try lia. by rewrite <- (assoc_L (++)).
  - split; simpl; try done; lia.
  - split; simpl; try done. intros Hd. by destruct (H6 Hd).
  - unfold WaitForObservedOutput in Hw. destruct (ob_stopped o) eqn:Hs; simpl in Hw;
      [|case_bool_decide as Hlt; [|destruct e; [|done]]];
      try case_bool_decide; injection Hw as <- <-;
      split; simpl; try done; try lia;
      by rewrite Hs.
Qed.

(** C10: The history of an observer under any interleaving of the graph, the worker and the
    waiting clients: the queue stays within its capacity; the callback is called with
    packets of the output in the order of the output, each at most once; every packet that
    was offered is accounted for as delivered, in hand, queued or counted as dropped; a
    client is told of at most as many deliveries as there were; and the worker leaves only
    after the observer was stopped, with nothing left in the queue. *)
Theorem observer_history stream options x :
  0 < oo_capacity options -> rtc ObsStep (mkObserved (new_observer stream options) WIdle [] 0) x ->
  length (ob_queue (ob x)) <= oo_capacity (ob_options (ob x)) /\
  received (ob x) ++ in_hand (worker x) ++ ob_queue (ob x) `sublist_of` offered x /\
  length (offered x) = length (received (ob x)) + length (in_hand (worker x)) +
                       length (ob_queue (ob x)) + ob_dropped (ob x) /\
  seen x <= length (received (ob x)) /\
  (worker x = WDone -> ob_stopped (ob x) = true /\ ob_queue (ob x) = []).
Proof.
  intros Hc Hr. assert (obs_inv x) as [H1 H2 H3 H4 H5 H6 H7].
  { assert (obs_inv (mkObserved (new_observer stream options) WIdle [] 0)) as H0.
    { split; simpl; try done; lia. }
    revert H0. induction Hr as [|y z u Hyz _ IH]; [done|]. intros H. apply IH. by eapply obs_step_inv. }
  split_and!; try done. lia.
Qed.

Definition tick (n : Z) : Packet := Make (PlOther "int" n) (FromMicroseconds n).

Lemma observer_history_witness :
  exists x, rtc ObsStep (mkObserved (new_observer "out" (mkObserverOptions 1 kDropOldest false))
                                    WIdle [] 0) x /\
            received (ob x) = [tick 2] /\ ob_dropped (ob x) = 1 /\
            length (offered x) = length (received (ob x)) + 0 + 0 + 1.
Proof.
  assert (rtc ObsStep (mkObserved (new_observer "out" (mkObserverOptions 1 kDropOldest false))
                                  WIdle [] 0)
    (mkObserved (mkObserver "out" (mkObserverOptions 1 kDropOldest false) [] false true 0 0 1 [tick 2])
                WCalled [tick 1; tick 2] 0)) as Hr.
  { eapply rtc_l; [apply (obs_enqueue _ _ _ _ (tick 1))|].
    eapply rtc_l; [apply (obs_enqueue _ _ _ _ (tick 2))|].
    eapply rtc_l; [apply obs_take; reflexivity|]. eapply rtc_l; [apply (obs_call true)|]. apply rtc_refl. }
  assert (0 < oo_capacity (mkObserverOptions 1 kDropOldest false)) as Hc by (simpl; lia).
  eexists. split; [exact Hr|]. split; [reflexivity|]. split; [reflexivity|].
  exact (proj1 (proj2 (proj2 (observer_history _ _ _ Hc Hr)))).
Defined.
