(* ===== verification/Sources.v ===== *)
(** * Dynamic sources

    [src/core/graph_runner.cpp]: sources are added to the slots of a running
    graph, feed one of its inputs, and are removed after the packets that are in
    flight have been released.  The functions here are the critical sections
    under [source_mutex_] and under the mutex of a source's [DrainState]; the
    programs that compose them are in the runner.  A drain state is shared
    between the source and the lifetime tokens of its packets, so it lives in a
    store of its own and is named by its identity.

    [SrcStep] interleaves the control thread, which executes one control
    operation at a time, with the packets of the sources and the release of
    their tokens. *)

From S2P Require Import Prelude Status Timestamp Values GraphConfig.
From Stdlib Require Import Ascii.
From stdpp Require Import pretty.
Local Open Scope Z_scope.

(* [include/rkavp/runtime_info.hpp:44-52] StreamHealthState *)
Inductive StreamHealthState :=
| kConnecting | kStreaming | kStalled | kReconnecting | kEos | kFailed | kStopped.

(* [include/rkavp/runtime_info.hpp:54-60] StreamHealth *)
Record StreamHealth := mkHealth {
  h_state : StreamHealthState;
  last_packet_time_us : Z;
  reconnect_count : Z;
  dropped_packets : Z;
  h_message : string }.
Definition health_in (st : StreamHealthState) : StreamHealth := mkHealth st 0 0 0 "".
Definition set_health_state (st : StreamHealthState) (h : StreamHealth) : StreamHealth :=
  mkHealth st (last_packet_time_us h) (reconnect_count h) (dropped_packets h) (h_message h).

(* [include/rkavp/graph_runner.hpp:144-149] GraphRunner::SourceRuntime::DrainState *)
Record DrainState := mkDrain { in_flight : nat; accepting : bool }.

(** [has_child]: the source has a subgraph of its own. *)
(* [include/rkavp/graph_runner.hpp:137-152] GraphRunner::SourceRuntime *)
Record SourceRuntime := mkSource {
  src_slot : string;
  src_input_stream : string;
  health : StreamHealth;
  has_child : bool;
  drain : nat;
  active : bool }.

Record SourceTable := mkTable {
  source_slots_ : gmap string SourceSlotConfig;
  sources_ : gmap string SourceRuntime;
  drains : gmap nat DrainState;
  next_drain : nat;
  active_sources_ : Z }.

Implicit Types (t : SourceTable) (id : string) (d : nat).

Definition set_sources (m : gmap string SourceRuntime) t : SourceTable :=
  mkTable (source_slots_ t) m (drains t) (next_drain t) (active_sources_ t).
Definition set_active (n : Z) t : SourceTable :=
  mkTable (source_slots_ t) (sources_ t) (drains t) (next_drain t) n.
Definition set_drains (m : gmap nat DrainState) t : SourceTable :=
  mkTable (source_slots_ t) (sources_ t) m (next_drain t) (active_sources_ t).
Definition increment_active t : SourceTable := set_active (u64 (active_sources_ t + 1)) t.
Definition decrement_active t : SourceTable := set_active (u64 (active_sources_ t - 1)) t.

Definition with_health (h : StreamHealth) (s : SourceRuntime) : SourceRuntime :=
  mkSource (src_slot s) (src_input_stream s) h (has_child s) (drain s) (active s).
Definition with_active (b : bool) (s : SourceRuntime) : SourceRuntime :=
  mkSource (src_slot s) (src_input_stream s) (health s) (has_child s) (drain s) b.

(** ** Adding *)

(** The checks that need no lock: the id, the slot and its input stream. *)
(* [src/core/graph_runner.cpp:935-940] GraphRunner::AddSourceImpl (checks) *)
Definition check_source (inputs : gset string) (slot id : string) t : Res SourceSlotConfig :=
  if bool_decide (id = "") then Err (Invalid "source id is required")
  else match source_slots_ t !! slot with
       | None => Err (NotFound ("source slot not found: " +:+ slot))
       | Some c => if bool_decide (input_stream c ∈ inputs) then Okay c
                   else Err (NotFound ("source slot input stream not found: " +:+ input_stream c))
       end.

(** A fresh drain state comes with the source. *)
(* [src/core/graph_runner.cpp:983-989] GraphRunner::AddSourceImpl (insertion) *)
Definition insert_source (slot id input : string) (child : bool) t : Status * SourceTable :=
  match sources_ t !! id with
  | Some _ => (AlreadyExists ("source already exists: " +:+ id), t)
  | None =>
      let s := mkSource slot input (health_in kConnecting) child (next_drain t) true in
      (Ok, increment_active (mkTable (source_slots_ t) (<[id := s]> (sources_ t))
                               (<[next_drain t := mkDrain 0 true]> (drains t)) (S (next_drain t))
                               (active_sources_ t)))
  end.

(* [src/core/graph_runner.cpp:993-996] GraphRunner::AddSourceImpl (failed start) *)
Definition abandon_source id t : SourceTable :=
  decrement_active (set_sources (delete id (sources_ t)) t).

(** ** Packets *)

(** What [AddSourcePacket] does after its first critical section. *)
Inductive Forwarded :=
| Answer (s : Status)
| Forward (input : string) (d : nat).

(* [src/core/graph_runner.cpp:1004-1025] GraphRunner::AddSourcePacket (source) *)
Definition source_packet id (e : ControlEvent) (now : Z) t : Forwarded * SourceTable :=
  match sources_ t !! id with
  | None => (Answer (NotFound ("source not found: " +:+ id)), t)
  | Some s =>
      match e with
      | kEndOfStream =>
          let s' := with_health (set_health_state kEos (health s)) (with_active false s) in
          let t' := set_sources (<[id := s']> (sources_ t)) t in
          (Answer Ok, if active s then decrement_active t' else t')
      | kTimestampBound => (Answer Ok, t)
      | _ =>
          let h := health s in
          let h' := mkHealth kStreaming now (reconnect_count h) (dropped_packets h) (h_message h) in
          (Forward (src_input_stream s) (drain s),
           set_sources (<[id := with_health h' s]> (sources_ t)) t)
      end
  end.

(* [src/core/graph_runner.cpp:1026-1032] GraphRunner::AddSourcePacket (drain) *)
Definition enter_drain d t : bool * SourceTable :=
  match drains t !! d with
  | Some (mkDrain n true) => (true, set_drains (<[d := mkDrain (S n) true]> (drains t)) t)
  | _ => (false, t)
  end.

(** The destructor of a lifetime token. *)
(* [src/core/graph_runner.cpp:1033-1037] GraphRunner::AddSourcePacket (token) *)
Definition release_token d t : SourceTable :=
  match drains t !! d with
  | Some (mkDrain (S n) a) => set_drains (<[d := mkDrain n a]> (drains t)) t
  | _ => t
  end.

(** ** Removing and restarting *)

Definition modify_source id (f : SourceRuntime -> SourceRuntime) t : SourceTable :=
  match sources_ t !! id with
  | None => t
  | Some s => set_sources (<[id := f s]> (sources_ t)) t
  end.

(* [src/core/graph_runner.cpp:1048-1058] GraphRunner::RemoveSourceImpl (begin) *)
Definition begin_remove id t : option SourceRuntime * SourceTable :=
  (sources_ t !! id,
   modify_source id (fun s => with_health (set_health_state kEos (health s)) s) t).

(* [src/core/graph_runner.cpp:1059-1062] GraphRunner::RemoveSourceImpl (close) *)
Definition close_drain d t : SourceTable :=
  match drains t !! d with
  | None => t
  | Some (mkDrain n _) => set_drains (<[d := mkDrain n false]> (drains t)) t
  end.

(** The predicate [drained]. *)
Definition drained d t : bool :=
  match drains t !! d with Some x => bool_decide (in_flight x = 0%nat) | None => true end.

Definition stalled_message (n : nat) : string :=
  "source drain timed out with " +:+ pretty.pretty n +:+ " packet(s) in flight".

(* [src/core/graph_runner.cpp:1075-1089] GraphRunner::RemoveSourceImpl (timeout) *)
Definition stall_source id d t : SourceTable :=
  let n := match drains t !! d with Some x => in_flight x | None => 0%nat end in
  modify_source id (fun s => let h := health s in
    with_health (mkHealth kStalled (last_packet_time_us h) (reconnect_count h) (dropped_packets h)
                          (stalled_message n)) s) t.

(* [src/core/graph_runner.cpp:1090-1094] GraphRunner::RemoveSourceImpl (erase) *)
Definition erase_source id t : SourceTable :=
  let t' := set_sources (delete id (sources_ t)) t in
  match sources_ t !! id with
  | Some s => if active s then decrement_active t' else t'
  | None => t'
  end.

(* [src/core/graph_runner.cpp:1103-1114] GraphRunner::RestartSourceImpl (begin) *)
Definition begin_restart id t : option SourceRuntime * SourceTable :=
  (sources_ t !! id,
   modify_source id (fun s => let h := health s in
     with_health (mkHealth kReconnecting (last_packet_time_us h) (u64 (reconnect_count h + 1))
                           (dropped_packets h) (h_message h)) s) t).

(* [src/core/graph_runner.cpp:1120-1138] GraphRunner::RestartSourceImpl (finish) *)
Definition finish_restart id d (child : bool) (status : Status) t : Status * SourceTable :=
  match sources_ t !! id with
  | None => (Cancelled "source was removed during restart", t)
  | Some s =>
      if ok status then
        let s' := with_health (set_health_state (if child then kConnecting else kReconnecting)
                                                (health s)) (with_active true s) in
        let t1 := set_sources (<[id := s']> (sources_ t)) t in
        let t2 := if active s then t1 else increment_active t1 in
        (status, match drains t2 !! d with
                 | Some (mkDrain n _) => set_drains (<[d := mkDrain n true]> (drains t2)) t2
                 | None => t2
                 end)
      else
        let h := health s in
        (status, set_sources (<[id := with_health (mkHealth kFailed (last_packet_time_us h)
                   (reconnect_count h) (dropped_packets h) (message status)) s]> (sources_ t)) t)
  end.

(* [include/rkavp/runtime_info.hpp:62-66] SourceInfo *)
Record SourceInfo := mkSourceInfo { si_slot : string; si_id : string; si_health : StreamHealth }.

(** In whatever order the table is traversed. *)
(* [src/core/graph_runner.cpp:1141-1148] GraphRunner::ListSources *)
Definition ListSources t : list SourceInfo :=
  map (fun kv => mkSourceInfo (src_slot kv.2) kv.1 (health kv.2)) (map_to_list (sources_ t)).

(* [src/core/graph_runner.cpp:1150-1155] GraphRunner::GetSourceHealth *)
Definition GetSourceHealth id t : StreamHealth :=
  match sources_ t !! id with
  | None => mkHealth kFailed 0 0 0 "source not found"
  | Some s => health s
  end.

(** ** Options of a source template *)

(** [rest] when [s] is [prefix] followed by [rest]. *)
Fixpoint strip_prefix (prefix s : string) : option string :=
  match prefix, s with
  | EmptyString, _ => Some s
  | String a prefix', String b s' => if bool_decide (a = b) then strip_prefix prefix' s' else None
  | String _ _, EmptyString => None
  end.

Fixpoint has_dot (s : string) : bool :=
  match s with
  | EmptyString => false
  | String c s' => bool_decide (c = "."%char) || has_dot s'
  end.

Definition set_option (n : NodeConfig) (k : string) (v : ConfigValue) : NodeConfig :=
  mkNodeConfig (nc_id n) (nc_type n) (nc_executor n) (<[k := v]> (nc_options n))
    (nc_has_input_policy n) (nc_input_policy n) (nc_trigger_port n).

Definition override_option (single : bool) (n : NodeConfig) (kv : string * ConfigValue) : NodeConfig :=
  match strip_prefix (nc_id n +:+ ".") kv.1 with
  | Some k => set_option n k kv.2
  | None => if single && negb (has_dot kv.1) then set_option n kv.1 kv.2 else n
  end.

(** The overrides in the order of the traversal of the object. *)
(* [src/core/graph_runner.cpp:950-964] GraphRunner::AddSourceImpl (options) *)
Definition apply_overrides (overrides : list (string * ConfigValue)) (ns : list NodeConfig)
  : list NodeConfig :=
  map (fun n => fold_left (override_option (bool_decide (length ns = 1%nat))) overrides n) ns.

(** ** Interleaving *)

(** What the control thread is doing. *)
Inductive Control :=
| CIdle
| CStarting (id : string)
| CClosing (id : string) (d : nat)
| CDraining (id : string) (d : nat)
| CDrained (id : string) (d : nat)
| CExpired (id : string) (d : nat)
| CRestarting (id : string) (d : nat) (child : bool).

(** The table with the control thread, the number of live tokens of each drain
    state, and the drain states of the sources that were removed. *)
Record World := mkWorld {
  table : SourceTable;
  control : Control;
  live : gmap nat nat;
  removed : gset nat }.

Definition live_of (w : World) (d : nat) : nat := default 0%nat (live w !! d).

Inductive SrcStep : World -> World -> Prop :=
| src_add t l r slot id input child t' : insert_source slot id input child t = (Ok, t') ->
    SrcStep (mkWorld t CIdle l r) (mkWorld t' (if child then CStarting id else CIdle) l r)
| src_started t l r id : SrcStep (mkWorld t (CStarting id) l r) (mkWorld t CIdle l r)
| src_abandon t l r id s : sources_ t !! id = Some s -> active s = true ->
    SrcStep (mkWorld t (CStarting id) l r) (mkWorld (abandon_source id t) CIdle l r)
| src_packet t c l r id e now :
    SrcStep (mkWorld t c l r) (mkWorld (source_packet id e now t).2 c l r)
| src_enter t c l r d t' : enter_drain d t = (true, t') ->
    SrcStep (mkWorld t c l r) (mkWorld t' c (<[d := S (default 0%nat (l !! d))]> l) r)
| src_release t c l r d n : l !! d = Some (S n) ->
    SrcStep (mkWorld t c l r) (mkWorld (release_token d t) c (<[d := n]> l) r)
| src_remove t l r id s t' : begin_remove id t = (Some s, t') ->
    SrcStep (mkWorld t CIdle l r) (mkWorld t' (CClosing id (drain s)) l r)
| src_close t l r id d :
    SrcStep (mkWorld t (CClosing id d) l r) (mkWorld (close_drain d t) (CDraining id d) l r)
| src_drained t l r id d : drained d t = true ->
    SrcStep (mkWorld t (CDraining id d) l r) (mkWorld t (CDrained id d) l r)
| src_expired t l r id d :
    SrcStep (mkWorld t (CDraining id d) l r) (mkWorld t (CExpired id d) l r)
| src_stall t l r id d :
    SrcStep (mkWorld t (CExpired id d) l r) (mkWorld (stall_source id d t) CIdle l r)
| src_erase t l r id d :
    SrcStep (mkWorld t (CDrained id d) l r) (mkWorld (erase_source id t) CIdle l ({[d]} ∪ r))
| src_restart t l r id s t' : begin_restart id t = (Some s, t') ->
    SrcStep (mkWorld t CIdle l r) (mkWorld t' (CRestarting id (drain s) (has_child s)) l r)
| src_restarted t l r id d child st :
    SrcStep (mkWorld t (CRestarting id d child) l r)
            (mkWorld (finish_restart id d child st t).2 CIdle l r).

(** A runner with slots and no source yet. *)
Definition fresh_world (slots : gmap string SourceSlotConfig) : World :=
  mkWorld (mkTable slots ∅ ∅ 0 0) CIdle ∅ ∅.

Definition active_count (m : gmap string SourceRuntime) : nat :=
  size (filter (fun kv => active kv.2 = true) m).

Definition drain_map t : gmap string nat := drain <$> sources_ t.

Definition control_ok t (c : Control) : Prop :=
  match c with
  | CIdle | CStarting _ => True
  | CClosing id d | CRestarting id d _ => drain_map t !! id = Some d
  | CDraining id d | CExpired id d =>
      drain_map t !! id = Some d /\ exists n, drains t !! d = Some (mkDrain n false)
  | CDrained id d => drain_map t !! id = Some d /\ drains t !! d = Some (mkDrain 0 false)
  end.

Record src_inv (w : World) : Prop := mkSrcInv {
  si_active : active_sources_ (table w) = u64 (Z.of_nat (active_count (sources_ (table w))));
  si_live : forall d, live_of w d =
              match drains (table w) !! d with Some x => in_flight x | None => 0%nat end;
  si_removed : forall d, d ∈ removed w -> drains (table w) !! d = Some (mkDrain 0 false);
  si_present : forall id d, drain_map (table w) !! id = Some d ->
                 (d ∉ removed w) /\ is_Some (drains (table w) !! d);
  si_distinct : forall id id' d, drain_map (table w) !! id = Some d ->
                 drain_map (table w) !! id' = Some d -> id = id';
  si_fresh : forall d, (next_drain (table w) <= d)%nat -> drains (table w) !! d = None;
  si_control : control_ok (table w) (control w) }.

Lemma count_modify m id s s' : m !! id = Some s ->
  (active_count (<[id := s']> m) + Nat.b2n (active s) = active_count m + Nat.b2n (active s'))%nat.
Proof.
  intros Hs. unfold active_count. rewrite <- (insert_delete_id m id s Hs) at 2.
  rewrite <- (insert_delete_eq m id s').
  rewrite !map_filter_insert. simpl.
  assert (filter (fun kv : string * SourceRuntime => active kv.2 = true) (delete id m) !! id = None) as Hn.
  { apply map_lookup_filter_None. left. apply lookup_delete_eq. }
  destruct (active s') eqn:E1, (active s) eqn:E2; simpl;
    rewrite ?decide_True, ?decide_False by done; rewrite ?(map_size_insert_None _ _ _ Hn);
    rewrite ?delete_delete_eq; lia.
Qed.

Lemma count_new m id s : m !! id = None ->
  active_count (<[id := s]> m) = (active_count m + Nat.b2n (active s))%nat.
Proof.
  intros Hs. unfold active_count. rewrite map_filter_insert; simpl.
  destruct (active s) eqn:E; simpl; rewrite ?decide_True, ?decide_False by done.
  - rewrite map_size_insert_None; [lia|]. apply map_lookup_filter_None. by left.
  - rewrite delete_id by done. lia.
Qed.

Lemma count_delete m id s : m !! id = Some s ->
  (active_count (delete id m) + Nat.b2n (active s) = active_count m)%nat.
Proof.
  intros Hs. rewrite <- (insert_delete_id m id s Hs) at 2.
  rewrite count_new; [lia|]. apply lookup_delete_eq.
Qed.

Lemma u64_add_u64 a b : u64 (u64 a + b) = u64 (a + b).
Proof. unfold u64. apply Zplus_mod_idemp_l. Qed.
Lemma u64_sub_u64 a b : u64 (u64 a - b) = u64 (a - b).
Proof. unfold u64. apply Zminus_mod_idemp_l. Qed.

(** A step that only touches a source, and keeps its drain state. *)
Lemma src_inv_same w t :
  src_inv w -> active_sources_ t = u64 (Z.of_nat (active_count (sources_ t))) ->
  drain_map t = drain_map (table w) -> drains t = drains (table w) ->
  next_drain t = next_drain (table w) -> src_inv (mkWorld t (control w) (live w) (removed w)).
Proof.
  intros [H1 H2 H3 H4 H5 H6 H7] Ha Hm Hd Hn. split; simpl; rewrite ?Hm, ?Hd, ?Hn; try done.
  destruct (control w); simpl in *; rewrite ?Hm, ?Hd; done.
Qed.

Lemma drain_map_modify (m : gmap string SourceRuntime) id s s' : m !! id = Some s -> drain s' = drain s ->
  drain <$> (<[id := s']> m) = drain <$> m.
Proof.
  intros Hs Hd. rewrite fmap_insert, Hd. apply insert_id. by rewrite lookup_fmap, Hs.
Qed.

Lemma source_packet_inv w id e now : src_inv w ->
  src_inv (mkWorld (source_packet id e now (table w)).2 (control w) (live w) (removed w)).
Proof.
  intros H. pose proof (si_active w H) as Ha. unfold source_packet.
  destruct (sources_ (table w) !! id) as [s|] eqn:Hs; [|by apply src_inv_same].
  destruct e; simpl; try by apply src_inv_same.
  2: { destruct (active s) eqn:Hact; apply src_inv_same; simpl; try done;
       try by apply (drain_map_modify _ _ s).
       - rewrite Ha, u64_sub_u64. f_equal.
         pose proof (count_modify _ id s (with_health (set_health_state kEos (health s))
                       (with_active false s)) Hs) as Hc. simpl in Hc. rewrite Hact in Hc. simpl in Hc. lia.
       - rewrite Ha. do 2 f_equal.
         pose proof (count_modify _ id s (with_health (set_health_state kEos (health s))
                       (with_active false s)) Hs) as Hc. simpl in Hc. rewrite Hact in Hc. simpl in Hc. lia. }
  all: apply src_inv_same; simpl; try done; try by apply (drain_map_modify _ _ s).
  all: rewrite Ha; do 2 f_equal;
       match goal with |- _ = active_count (<[_ := ?s']> _) => pose proof (count_modify _ id s s' Hs) as Hc end;
       simpl in Hc; lia.
Qed.

(** Only the health of a source changes. *)
Lemma modify_health_inv w id h c :
  src_inv w -> control_ok (table w) c ->
  src_inv (mkWorld (modify_source id (fun s => with_health (h s) s) (table w)) c (live w) (removed w)).
Proof.
  intros H Hc. pose proof H as [H1 H2 H3 H4 H5 H6 H7].
  assert (src_inv (mkWorld (table w) c (live w) (removed w))) as Hw by by split.
  unfold modify_source. destruct (sources_ (table w) !! id) as [s|] eqn:Hs; [|done].
  apply (src_inv_same (mkWorld (table w) c (live w) (removed w))); simpl; try done.
  - rewrite H1. do 2 f_equal. pose proof (count_modify _ id s (with_health (h s) s) Hs) as E. simpl in E. lia.
  - by apply (drain_map_modify _ _ s).
Qed.

Lemma insert_source_inv t c l r slot id input child t' :
  src_inv (mkWorld t CIdle l r) -> insert_source slot id input child t = (Ok, t') ->
  c = CIdle \/ c = CStarting id -> src_inv (mkWorld t' c l r).
Proof.
  intros [H1 H2 H3 H4 H5 H6 H7] Hi Hc. unfold insert_source in Hi.
  destruct (sources_ t !! id) as [s|] eqn:Hs; [done|]. injection Hi as <-.
  set (s := mkSource slot input (health_in kConnecting) child (next_drain t) true). simpl in *.
  assert (forall d, is_Some (drains t !! d) -> d <> next_drain t) as Hne.
  { intros d [x Hx] ->. rewrite H6 in Hx; [done|lia]. }
  assert (drain <$> (<[id := s]> (sources_ t)) = <[id := next_drain t]> (drain_map t)) as Hdm.
  { by rewrite fmap_insert. }
  split; simpl; unfold drain_map; simpl; rewrite ?Hdm.
  - rewrite (count_new (sources_ t) id s Hs), H1, u64_add_u64. f_equal. simpl. lia.
  - intros d. unfold live_of in *. simpl in *. rewrite H2.
    destruct (decide (d = next_drain t)) as [->|Hd]; [|by rewrite lookup_insert_ne].
    rewrite lookup_insert_eq, H6 by lia. done.
  - intros d Hd. rewrite lookup_insert_ne; [by apply H3|]. intros <-. specialize (H3 _ Hd).
    rewrite H6 in H3; [done|lia].
  - intros id' d [[<- <-]|[_ Hd]]%lookup_insert_Some.
    + split; [|rewrite lookup_insert_eq; eauto]. intros Hr. specialize (H3 _ Hr).
      rewrite H6 in H3; [done|lia].
    + destruct (H4 id' d Hd) as [? Hx]. split; [done|].
      rewrite lookup_insert_ne; [done|]. apply not_eq_sym. auto.
  - intros i j d [[<- <-]|[Hi Hd]]%lookup_insert_Some [[<- Hj]|[Hj Hd']]%lookup_insert_Some.
    + done.
    + exfalso. destruct (H4 j _ Hd') as [_ Hx]. by apply (Hne _ Hx).
    + subst d. exfalso. destruct (H4 i _ Hd) as [_ Hx]. by apply (Hne _ Hx).
    + by eapply H5.
  - intros d Hd. rewrite lookup_insert_ne by lia. apply H6. lia.
  - by destruct Hc as [-> | ->].
Qed.

(** A source leaves the table; its drain state [d] may become retired. *)
Lemma delete_source_inv t t' c l r r' id s :
  src_inv (mkWorld t c l r) -> sources_ t !! id = Some s ->
  t' = (if active s then decrement_active (set_sources (delete id (sources_ t)) t)
        else set_sources (delete id (sources_ t)) t) ->
  r' = r \/ (r' = {[drain s]} ∪ r /\ drains t !! drain s = Some (mkDrain 0 false)) ->
  src_inv (mkWorld t' CIdle l r').
Proof.
  intros [H1 H2 H3 H4 H5 H6 H7] Hs Ht Hr; simpl in *.
  assert (drain_map t !! id = Some (drain s)) as Hid by (unfold drain_map; by rewrite lookup_fmap, Hs).
  pose proof (count_delete _ _ _ Hs) as Hc.
  assert (sources_ t' = delete id (sources_ t) /\ drains t' = drains t /\ next_drain t' = next_drain t /\
          active_sources_ t' = u64 (Z.of_nat (active_count (delete id (sources_ t))))) as (E1 & E2 & E3 & E4).
  { subst t'. destruct (active s); simpl in *; split_and!; try done; rewrite H1, ?u64_sub_u64; f_equal; lia. }
  assert (drain_map t' = delete id (drain_map t)) as Hdm.
  { unfold drain_map. by rewrite E1, fmap_delete. }
  split; simpl; rewrite ?Hdm, ?E1, ?E2, ?E3; try done.
  - intros d Hd. destruct Hr as [-> |[-> Hx]]; [auto|]. set_solver.
  - intros i d [Hne Hd]%lookup_delete_Some. destruct (H4 i d Hd) as [Hn Hx]. split; [|done].
    destruct Hr as [-> |[-> _]]; [done|]. rewrite not_elem_of_union, not_elem_of_singleton.
    split; [|done]. intros ->. apply Hne. by apply (H5 id i (drain s)).
  - intros i j d [_ Hi]%lookup_delete_Some [_ Hj]%lookup_delete_Some. by eapply H5.
Qed.

(** A drain state changes together with its live tokens. *)
Lemma update_drain_inv t c c' l l' r d x x' :
  src_inv (mkWorld t c l r) -> drains t !! d = Some x -> d ∉ r ->
  (forall d', default 0%nat (l' !! d') =
     if bool_decide (d' = d) then in_flight x' else default 0%nat (l !! d')) ->
  control_ok (set_drains (<[d := x']> (drains t)) t) c' ->
  src_inv (mkWorld (set_drains (<[d := x']> (drains t)) t) c' l' r).
Proof.
  intros [H1 H2 H3 H4 H5 H6 H7] Hx Hr Hl Hc; simpl in *. split; simpl; try done.
  - intros d'. unfold live_of in *; simpl in *. rewrite Hl. case_bool_decide as Hd.
    + by rewrite Hd, lookup_insert_eq.
    + rewrite lookup_insert_ne by done. apply H2.
  - intros d' Hd'. rewrite lookup_insert_ne; [auto|]. by intros ->.
  - intros id d' Hd'. destruct (H4 id d' Hd') as [? Hs]. split; [done|].
    apply lookup_insert_is_Some'. by right.
  - intros d' Hd'. rewrite lookup_insert_ne; [auto|]. intros ->. rewrite H6 in Hx by done. done.
Qed.

Lemma not_removed t c l r d x : src_inv (mkWorld t c l r) -> drains t !! d = Some x ->
  accepting x = true \/ (0 < in_flight x)%nat -> d ∉ r.
Proof. intros H Hx Hp Hd. pose proof (si_removed _ H d Hd) as E. simpl in E. simplify_eq/=. naive_solver lia. Qed.

Lemma default_insert (l : gmap nat nat) d n d' :
  default 0%nat (<[d := n]> l !! d') = if bool_decide (d' = d) then n else default 0%nat (l !! d').
Proof.
  case_bool_decide as H; [by rewrite H, lookup_insert_eq|by rewrite lookup_insert_ne].
Qed.

Lemma control_ok_drains t c d x x' : control_ok t c -> drains t !! d = Some x ->
  (accepting x = false -> accepting x' = false /\ (in_flight x' <= in_flight x)%nat) ->
  control_ok (set_drains (<[d := x']> (drains t)) t) c.
Proof.
  intros Hc Hx Hsame. destruct c as [|?|?|id d0|id d0|id d0|?]; simpl in *; try done.
  - destruct Hc as [Hm [n Hn]]. split; [done|]. destruct (decide (d0 = d)) as [->|Hd];
      [|rewrite lookup_insert_ne by done; eauto]. rewrite lookup_insert_eq.
    simplify_eq/=. destruct (Hsame eq_refl) as [Ha _]. destruct x' as [n' a']. simpl in Ha. subst. eauto.
  - destruct Hc as [Hm Hn]. split; [done|]. destruct (decide (d0 = d)) as [->|Hd];
      [|by rewrite lookup_insert_ne]. rewrite lookup_insert_eq.
    simplify_eq/=. destruct (Hsame eq_refl) as [Ha Hle]. destruct x' as [n' a']. simpl in *. subst.
    by replace n' with 0%nat by lia.
  - destruct Hc as [Hm [n Hn]]. split; [done|]. destruct (decide (d0 = d)) as [->|Hd];
      [|rewrite lookup_insert_ne by done; eauto]. rewrite lookup_insert_eq.
    simplify_eq/=. destruct (Hsame eq_refl) as [Ha _]. destruct x' as [n' a']. simpl in Ha. subst. eauto.
Qed.

Lemma finish_restart_inv t l r id d child st :
  src_inv (mkWorld t (CRestarting id d child) l r) ->
  src_inv (mkWorld (finish_restart id d child st t).2 CIdle l r).
Proof.
  intros H. pose proof H as [H1 H2 H3 H4 H5 H6 H7]; simpl in *.
  assert (src_inv (mkWorld t CIdle l r)) as H0 by by split.
  unfold finish_restart. destruct (sources_ t !! id) as [s|] eqn:Hs; simpl; [|done].
  destruct (ok st); simpl.
  - set (s' := with_health _ _). set (t1 := set_sources _ t). set (t2 := if active s then t1 else _).
    assert (src_inv (mkWorld t2 CIdle l r)) as Hi.
    { pose proof (count_modify _ id s s' Hs) as E. simpl in E.
      unfold t2. destruct (active s) eqn:Ha; apply (src_inv_same (mkWorld t CIdle l r) _ H0);
        simpl in *; try done; try by apply (drain_map_modify _ _ s).
      - rewrite H1. f_equal. lia.
      - rewrite H1, u64_add_u64. f_equal. lia. }
    assert (drains t2 = drains t) as -> by (unfold t2; by destruct (active s)).
    destruct (H4 id d H7) as [Hr [[n a] Hx]]. rewrite Hx.
    assert (drains t2 = drains t) as Hd2 by (unfold t2; by destruct (active s)). rewrite <- Hd2.
    apply (update_drain_inv t2 CIdle CIdle l l r d (mkDrain n a)); try done.
    + by rewrite Hd2.
    + intros d'. case_bool_decide as Hd; [|done]. subst. simpl. specialize (H2 d).
      unfold live_of in H2. simpl in H2. by rewrite H2, Hx.
  - apply (src_inv_same (mkWorld t CIdle l r) _ H0); simpl; try done; [|by apply (drain_map_modify _ _ s)].
    rewrite H1. do 2 f_equal. match goal with |- _ = active_count (<[_ := ?s']> _) =>
      pose proof (count_modify _ id s s' Hs) as E end. simpl in E. lia.
Qed.

Lemma src_step_inv w w' : src_inv w -> SrcStep w w' -> src_inv w'.
Proof.
  intros H Hstep. destruct Hstep as
    [t l r slot id input child t' Hi|t l r id|t l r id s Hs Ha|t c l r id e now|t c l r d t' He
    |t c l r d n Hn|t l r id s t' Hb|t l r id d|t l r id d Hd|t l r id d|t l r id d|t l r id d
    |t l r id s t' Hb|t l r id d child st].
  - eapply insert_source_inv; [done..|]. destruct child; auto.
  - by destruct H.
  - eapply (delete_source_inv t _ _ l r r id s H Hs); [|by left]. by rewrite Ha.
  - by apply (source_packet_inv (mkWorld t c l r)).
  - unfold enter_drain in He. destruct (drains t !! d) as [[n [|]]|] eqn:Hx; try done.
    injection He as <-. eapply update_drain_inv; [done..| | |].
    + eapply not_removed; [done..|]. by left.
    + intros d'. rewrite default_insert. case_bool_decide as Hd; [|done]. subst. simpl.
      pose proof (si_live _ H d) as E. unfold live_of in E. simpl in E. by rewrite E, Hx.
    + eapply control_ok_drains; [apply (si_control _ H)|done|done].
  - pose proof (si_live _ H d) as E. unfold live_of in E. simpl in E. rewrite Hn in E. simpl in E.
    unfold release_token. destruct (drains t !! d) as [[[|k] a]|] eqn:Hx; simpl in E; try lia.
    eapply update_drain_inv; [done..| | |].
    + eapply not_removed; [done..|]. right. simpl. lia.
    + intros d'. rewrite default_insert. case_bool_decide as Hd; [|done]. simpl. lia.
    + eapply control_ok_drains; [apply (si_control _ H)|done|]. simpl. auto with lia.
  - unfold begin_remove in Hb. injection Hb as Hs <-.
    apply (modify_health_inv (mkWorld t CIdle l r) id (fun s => set_health_state kEos (health s))); [done|].
    simpl. unfold drain_map. by rewrite lookup_fmap, Hs.
  - pose proof (si_control _ H) as Hc. simpl in Hc. destruct (si_present _ H id d Hc) as [Hr [[n a] Hx]].
    simpl in Hx. unfold close_drain. rewrite Hx.
    eapply update_drain_inv; [done..| |].
    + intros d'. case_bool_decide as Hd; [|done]. subst. simpl.
      pose proof (si_live _ H d) as E. unfold live_of in E. simpl in E. by rewrite E, Hx.
    + simpl. split; [done|]. rewrite lookup_insert_eq. eauto.
  - pose proof (si_control _ H) as [Hc [n Hx]]. simpl in *. unfold drained in Hd. rewrite Hx in Hd.
    apply bool_decide_eq_true_1 in Hd. simpl in Hd. subst. by destruct H.
  - by destruct H.
  - apply (modify_health_inv (mkWorld t (CExpired id d) l r) id); [done|done].
  - pose proof (si_control _ H) as [Hc Hx]. simpl in *. unfold drain_map in Hc.
    apply lookup_fmap_Some in Hc as (s & <- & Hs).
    apply (delete_source_inv t _ _ l r _ id s H Hs); [|by right].
    unfold erase_source. rewrite Hs. done.
  - unfold begin_restart in Hb. injection Hb as Hs <-.
    apply (modify_health_inv (mkWorld t CIdle l r) id); [done|].
    simpl. unfold drain_map. by rewrite lookup_fmap, Hs.
  - by apply finish_restart_inv.
Qed.

Lemma src_inv_fresh slots : src_inv (fresh_world slots).
Proof.
  by split.
Qed.

(** C9: Over any interleaving of control operations, packets and releases: the counter of
    active sources that [WaitUntilDone] reads is the number of sources that have not ended;
    the counter of packets in flight of a source is the number of its live tokens; and once
    a source has been removed none of its packets is alive and none is accepted any more.
    (The one exception, a start that fails after the source ended, is
    [abandon_underflow].) *)
Theorem sources_accounted slots w :
  rtc SrcStep (fresh_world slots) w ->
  active_sources_ (table w) = u64 (Z.of_nat (active_count (sources_ (table w)))) /\
  (forall d x, drains (table w) !! d = Some x -> in_flight x = live_of w d) /\
  (forall d, d ∈ removed w -> live_of w d = 0%nat /\ (enter_drain d (table w)).1 = false).
Proof.
  intros Hr. assert (src_inv w) as [H1 H2 H3 _ _ _ _].
  { pose proof (src_inv_fresh slots) as H0. revert H0. induction Hr as [|x y z Hxy _ IH]; [done|].
    intros H. apply IH. by eapply src_step_inv. }
  split_and!; [done| |].
  - intros d x Hx. by rewrite H2, Hx.
  - intros d Hd. specialize (H3 d Hd). split; [by rewrite H2, H3|]. unfold enter_drain. by rewrite H3.
Qed.

Definition camera_slots : gmap string SourceSlotConfig := {["cam" := mkSlot "cam" "video" "" ""]}.

Lemma sources_accounted_witness :
  exists w, rtc SrcStep (fresh_world camera_slots) w /\ removed w = {[0%nat]} /\ live_of w 0 = 0%nat.
Proof.
  assert (rtc SrcStep (fresh_world camera_slots)
    (mkWorld (mkTable camera_slots ∅ {[0%nat := mkDrain 0 false]} 1 0) CIdle {[0%nat := 0%nat]} {[0%nat]}))
    as Hr.
  { eapply rtc_l; [apply (src_add _ _ _ "cam" "a" "video" false); reflexivity|].
    eapply rtc_l; [apply (src_packet _ _ _ _ "a" kNone 7)|].
    eapply rtc_l; [apply (src_enter _ _ _ _ 0%nat); reflexivity|].
    eapply rtc_l; [apply (src_remove _ _ _ "a"); reflexivity|].
    eapply rtc_l; [apply src_close|].
    eapply rtc_l; [apply (src_release _ _ _ _ 0%nat 0%nat); reflexivity|].
    eapply rtc_l; [apply src_drained; reflexivity|].
    eapply rtc_l; [apply src_erase|]. apply rtc_refl. }
  destruct (sources_accounted camera_slots _ Hr) as (_ & _ & H).
  eexists. split; [exact Hr|]. split; [reflexivity|]. apply H. simpl. apply elem_of_singleton_2. reflexivity.
Defined.

(** A child that ends its stream and then fails to start is counted down twice. *)
Lemma abandon_underflow :
  let t1 := (insert_source "cam" "a" "video" true (mkTable camera_slots ∅ ∅ 0 0)).2 in
  let t2 := (source_packet "a" kEndOfStream 0 t1).2 in
  active_sources_ (abandon_source "a" t2) = 18446744073709551615.
Proof. vm_compute. reflexivity. Qed.
