(* ===== verification/Atomic.v ===== *)
(** * Programs of atomic actions

    The threads of a running graph interleave at their synchronisation points.
    [prog S A] is a program over a shared state [S] as the sequence of its
    atomic actions: a critical section, an access to an atomic variable, a call
    of a component whose methods lock.  An action that answers [None] is
    blocked, and is tried again when another thread has changed the state.

    [pstep] is the interleaving of a pool of such programs.  [wp] is a
    weakest precondition with ghost obligations: the invariant [I] relates the
    state to the multiset of the obligations that all threads hold together,
    every action of a thread preserves it whatever the other threads hold, and
    [pool_sound] lifts this to every reachable configuration. *)

From S2P Require Import Prelude.
From stdpp Require Import gmultiset.

Section prog.
Context {S : Type}.

Inductive prog (A : Type) : Type :=
| Ret (a : A)
| Act {B : Type} (f : S -> option (B * S)) (k : B -> prog A).
#[global] Arguments Ret {A} _.
#[global] Arguments Act {A B} _ _.

Fixpoint bind {A B} (m : prog A) (f : A -> prog B) : prog B :=
  match m with
  | Ret a => f a
  | Act g k => Act g (fun b => bind (k b) f)
  end.

Definition atomically {B} (f : S -> B * S) : prog B := Act (fun s => Some (f s)) Ret.
Definition read {B} (f : S -> B) : prog B := atomically (fun s => (f s, s)).
Definition update (f : S -> S) : prog unit := atomically (fun s => (tt, f s)).
(** An action that may have to wait. *)
Definition blocking {B} (f : S -> option (B * S)) : prog B := Act f Ret.
Definition await (P : S -> bool) : prog unit :=
  blocking (fun s => if P s then Some (tt, s) else None).

Fixpoint for_each {A} (l : list A) (f : A -> prog unit) : prog unit :=
  match l with
  | [] => Ret tt
  | x :: l => bind (f x) (fun _ => for_each l f)
  end.

(** A program that runs alone; [None] when it is blocked. *)
Fixpoint run {A} (m : prog A) (s : S) : option (A * S) :=
  match m with
  | Ret a => Some (a, s)
  | Act f k => match f s with None => None | Some (b, s') => run (k b) s' end
  end.

Lemma run_bind {A B} (m : prog A) (f : A -> prog B) s :
  run (bind m f) s = match run m s with None => None | Some (a, s') => run (f a) s' end.
Proof.
  revert s. induction m as [a|C g k IH]; intros s; simpl; [done|].
  destruct (g s) as [[b s']|]; [apply IH|done].
Qed.

Lemma run_read {A B} (f : S -> B) (k : B -> prog A) s : run (bind (read f) k) s = run (k (f s)) s.
Proof. reflexivity. Qed.
Lemma run_update {A} (f : S -> S) (k : unit -> prog A) s : run (bind (update f) k) s = run (k tt) (f s).
Proof. reflexivity. Qed.
Lemma run_await {A} (P : S -> bool) (k : unit -> prog A) s :
  P s = true -> run (bind (await P) k) s = run (k tt) s.
Proof. intros HP. simpl. by rewrite HP. Qed.
End prog.
Arguments prog : clear implicits.

Declare Scope prog_scope.
Delimit Scope prog_scope with prog.
Notation "x <-- m ; k" := (bind m (fun x => k))
  (at level 100, m at next level, right associativity) : prog_scope.
Notation "m ;;; k" := (bind m (fun _ => k))
  (at level 100, right associativity) : prog_scope.

(** ** Pools of threads *)

Section pool.
Context {S : Type}.
(** A thread that starts, with the change of state that goes with it, and what
    the environment does to the state. *)
Context (spawn : S -> prog S unit -> S -> Prop) (env : S -> S -> Prop).

Inductive pstep : S * list (prog S unit) -> S * list (prog S unit) -> Prop :=
| pstep_thread s ts i B (f : S -> option (B * S)) k b s' :
    ts !! i = Some (Act f k) -> f s = Some (b, s') -> pstep (s, ts) (s', <[i := k b]> ts)
| pstep_spawn s ts p s' : spawn s p s' -> pstep (s, ts) (s', ts ++ [p])
| pstep_env s ts s' : env s s' -> pstep (s, ts) (s', ts).

Definition finished (p : prog S unit) : Prop := p = Ret tt.

(** ** Obligations *)

Context `{Countable Obl} (I : S -> gmultiset Obl -> Prop).

Fixpoint wp {A} (O : gmultiset Obl) (m : prog S A) (Q : A -> gmultiset Obl -> Prop) : Prop :=
  match m with
  | Ret a => Q a O
  | Act f k => forall s F b s', I s (O ⊎ F) -> f s = Some (b, s') ->
                 exists O', I s' (O' ⊎ F) /\ wp O' (k b) Q
  end.

Lemma wp_mono {A} O (m : prog S A) (Q R : A -> gmultiset Obl -> Prop) :
  wp O m Q -> (forall a O', Q a O' -> R a O') -> wp O m R.
Proof.
  revert O. induction m as [a|B f k IH]; intros O; simpl; [auto|].
  intros Hw HQ s F b s' HI Hf. destruct (Hw s F b s' HI Hf) as (O' & HI' & Hk). eauto.
Qed.

Lemma wp_bind {A B} O (m : prog S A) (f : A -> prog S B) Q :
  wp O m (fun a O' => wp O' (f a) Q) -> wp O (bind m f) Q.
Proof.
  revert O. induction m as [a|C g k IH]; intros O; simpl; [auto|].
  intros Hw s F b s' HI Hf. destruct (Hw s F b s' HI Hf) as (O' & HI' & Hk). eauto.
Qed.

(** A program leaves alone the obligations it was not given. *)
Lemma wp_frame {A} O R (m : prog S A) Q :
  wp O m Q -> wp (O ⊎ R) m (fun a O' => exists O'', O' = O'' ⊎ R /\ Q a O'').
Proof.
  revert O. induction m as [a|B f k IH]; intros O; simpl; [eauto|].
  intros Hw s F b s' HI Hf. destruct (Hw s (R ⊎ F) b s') as (O' & HI' & Hk); [|done|].
  - by rewrite (assoc_L (⊎)).
  - exists (O' ⊎ R). rewrite <- (assoc_L (⊎)). split; [done|]. by apply IH.
Qed.

(** The sequencing rule that proofs use: run [m] on the obligations [O] it
    consumes, keep [R], go on. *)
Lemma wp_seq {A B} O R (m : prog S A) (f : A -> prog S B) Q P :
  wp O m P -> (forall a O', P a O' -> wp (O' ⊎ R) (f a) Q) -> wp (O ⊎ R) (bind m f) Q.
Proof.
  intros Hm Hf. apply wp_bind. eapply wp_mono; [by apply wp_frame|].
  intros a O' (O'' & -> & HP). auto.
Qed.

(** A program that needs nothing and leaves nothing. *)
Definition neutral {A} (m : prog S A) : Prop := wp ∅ m (fun _ O => O = ∅).

Lemma neutral_seq {A B} R (m : prog S A) (f : A -> prog S B) Q :
  neutral m -> (forall a, wp R (f a) Q) -> wp R (bind m f) Q.
Proof.
  intros Hm Hf. rewrite <- (left_id_L ∅ (⊎) R). eapply wp_seq; [done|].
  intros a O' ->. by rewrite (left_id_L ∅ (⊎)).
Qed.

Lemma neutral_bind {A B} (m : prog S A) (f : A -> prog S B) :
  neutral m -> (forall a, neutral (f a)) -> neutral (bind m f).
Proof. intros Hm Hf. by apply neutral_seq. Qed.

Lemma neutral_ret {A} (a : A) : neutral (Ret a).
Proof. done. Qed.

Lemma neutral_for_each {A} (l : list A) (f : A -> prog S unit) :
  (forall x, neutral (f x)) -> neutral (for_each l f).
Proof. intros Hf. induction l as [|x l IH]; simpl; [done|]. by apply neutral_bind. Qed.

(** An action that keeps the invariant with whatever obligations there are. *)
Lemma neutral_act {B} (f : S -> option (B * S)) :
  (forall s F b s', I s F -> f s = Some (b, s') -> I s' F) -> neutral (blocking f).
Proof.
  intros Hf s F b s' HI Hs. exists ∅. split; [|done].
  rewrite (left_id_L ∅ (⊎)) in *. by eapply Hf.
Qed.

Lemma neutral_atomically {B} (f : S -> B * S) :
  (forall s F, I s F -> I (f s).2 F) -> neutral (atomically f).
Proof.
  intros Hf. apply (neutral_act (fun s => Some (f s))). intros s F b s' HI [= Hs].
  specialize (Hf s F HI). by rewrite Hs in Hf.
Qed.

Lemma neutral_read {B} (f : S -> B) : neutral (read f).
Proof. by apply neutral_atomically. Qed.

(** A read whose value is linked to the state it was read in. *)
Lemma wp_read {A B} O (f : S -> B) (k : B -> prog S A) Q :
  (forall s F, I s (O ⊎ F) -> exists O', I s (O' ⊎ F) /\ wp O' (k (f s)) Q) ->
  wp O (bind (read f) k) Q.
Proof. intros Hf s F b s' HI [= <- <-]. by apply Hf. Qed.

(** ** Soundness *)

Definition pool_inv (c : S * list (prog S unit)) : Prop :=
  exists ots : list (gmultiset Obl * prog S unit),
    c.2 = ots.*2 /\ Forall (fun ot => wp ot.1 ot.2 (fun _ O => O = ∅)) ots /\ I c.1 (⋃+ ots.*1).

Lemma union_list_delete (l : list (gmultiset Obl)) i X Y : l !! i = Some X ->
  ⋃+ l = X ⊎ ⋃+ (delete i l) /\ ⋃+ (<[i := Y]> l) = Y ⊎ ⋃+ (delete i l).
Proof.
  revert i. induction l as [|Z l IH]; intros [|i] Hi; simplify_eq/=; [done|].
  destruct (IH i Hi) as [-> ->]. split; multiset_solver.
Qed.

Lemma pool_inv_step c c' :
  (forall s p s' M, I s M -> spawn s p s' ->
     exists O, I s' (M ⊎ O) /\ wp O p (fun _ O' => O' = ∅)) ->
  (forall s s' M, I s M -> env s s' -> I s' M) ->
  pool_inv c -> pstep c c' -> pool_inv c'.
Proof.
  intros Hspawn Henv (ots & Hts & Hwp & HI) Hstep.
  destruct Hstep as [s ts i B f k b s' Hi Hf|s ts p s' Hp|s ts s' He]; simpl in *; subst.
  - apply list_lookup_fmap_Some in Hi as ([O t] & Ht & Hi). simpl in Ht.
    pose proof (Forall_lookup_1 _ _ _ _ Hwp Hi) as Hw. simpl in Hw. rewrite <- Ht in Hw. simpl in Hw.
    assert (ots.*1 !! i = Some O) as HO by by rewrite list_lookup_fmap, Hi.
    destruct (union_list_delete _ _ _ ∅ HO) as [E _]. rewrite E in HI.
    destruct (Hw s _ b s' HI Hf) as (O' & HI' & Hk).
    exists (<[i := (O', k b)]> ots). split_and!; simpl.
    + by rewrite list_fmap_insert.
    + by apply Forall_insert.
    + rewrite list_fmap_insert; simpl. by destruct (union_list_delete _ _ _ O' HO) as [_ ->].
  - destruct (Hspawn s p s' _ HI Hp) as (O & HI' & Hw).
    exists (ots ++ [(O, p)]). split_and!; simpl.
    + by rewrite fmap_app.
    + apply Forall_app. split; [done|]. by apply Forall_singleton.
    + rewrite fmap_app; simpl. rewrite gmultiset_disj_union_list_app. simpl.
      by rewrite (right_id_L ∅ (⊎)).
  - exists ots. split_and!; [done..|]. by eapply Henv.
Qed.

Lemma pool_inv_reachable c c' :
  (forall s p s' M, I s M -> spawn s p s' ->
     exists O, I s' (M ⊎ O) /\ wp O p (fun _ O' => O' = ∅)) ->
  (forall s s' M, I s M -> env s s' -> I s' M) ->
  pool_inv c -> rtc pstep c c' -> pool_inv c'.
Proof.
  intros Hspawn Henv H0 Hr. induction Hr as [|x y z Hxy _ IH]; [done|].
  apply IH. by eapply pool_inv_step.
Qed.

(** When every thread has finished no obligation is left. *)
Lemma pool_inv_finished c : pool_inv c -> Forall finished c.2 -> I c.1 ∅.
Proof.
  intros (ots & Hts & Hwp & HI) Hfin. rewrite Hts in Hfin.
  assert (⋃+ ots.*1 = ∅) as E; [|by rewrite E in HI]. clear Hts HI.
  induction ots as [|[O t] ots IH]; [done|]. rewrite fmap_cons, gmultiset_disj_union_list_cons.
  apply Forall_cons_1 in Hwp as [Hw Hwp]. apply Forall_cons_1 in Hfin as [Ht Hfin].
  unfold finished in Ht. simpl in *. subst. simpl in Hw. subst.
  rewrite (left_id_L ∅ (⊎)). by apply IH.
Qed.

(** ** Concrete executions *)

(** The threads [l] make one step each, in this order. *)
Fixpoint pexec (l : list nat) (c : S * list (prog S unit)) : option (S * list (prog S unit)) :=
  match l with
  | [] => Some c
  | i :: l =>
      match c.2 !! i with
      | Some (Act f k) => match f c.1 with
                          | Some (b, s') => pexec l (s', <[i := k b]> c.2)
                          | None => None
                          end
      | _ => None
      end
  end.

Lemma pexec_steps l c c' : pexec l c = Some c' -> rtc pstep c c'.
Proof.
  revert c. induction l as [|i l IH]; intros [s ts]; simpl; [by intros [= <-]|].
  destruct (ts !! i) as [[a|B f k]|] eqn:Hi; [done| |done].
  destruct (f s) as [[b s']|] eqn:Hf; [|done]. intros Hl. eapply rtc_l; [by eapply pstep_thread|].
  by apply IH.
Qed.

(** The thread [i] makes [n] steps, or fewer when it is blocked or has returned. *)
Fixpoint advance (i n : nat) (c : S * list (prog S unit)) : S * list (prog S unit) :=
  match n with
  | O => c
  | Datatypes.S n =>
      match c.2 !! i with
      | Some (Act f k) => match f c.1 with
                          | Some (b, s') => advance i n (s', <[i := k b]> c.2)
                          | None => c
                          end
      | _ => c
      end
  end.

Lemma advance_steps i n c : rtc pstep c (advance i n c).
Proof.
  revert c. induction n as [|n IH]; intros [s ts]; simpl; [done|].
  destruct (ts !! i) as [[a|B f k]|] eqn:Hi; [done| |done].
  destruct (f s) as [[b s']|] eqn:Hf; [|done]. eapply rtc_l; [by eapply pstep_thread|]. apply IH.
Qed.

(** The last thread runs to its end. *)
Lemma run_steps (m : prog S unit) s s' ts : run m s = Some (tt, s') ->
  rtc pstep (s, ts ++ [m]) (s', ts ++ [Ret tt]).
Proof.
  revert s. induction m as [[]|B f k IH]; intros s; simpl; [by intros [= <-]|].
  destruct (f s) as [[b s1]|] eqn:Hf; [|done]. intros Hl.
  eapply rtc_l; [eapply (pstep_thread _ _ (length ts)); [|done]; by apply list_lookup_middle|].
  rewrite insert_app_r_alt, Nat.sub_diag by done. by apply IH.
Qed.
End pool.

(** ** Programs over a part of the state

    A program over [S] runs in a larger state [W] through a view of it. *)

Section zoom.
Context {S W : Type} (get : W -> S) (put : S -> W -> W).

Fixpoint zoom {A} (m : prog S A) : prog W A :=
  match m with
  | Ret a => Ret a
  | Act f k => Act (fun w => match f (get w) with None => None | Some (b, s') => Some (b, put s' w) end)
                   (fun b => zoom (k b))
  end.

(** What the program owes in the part, [embed] says in the whole. *)
Context `{Countable Part} `{Countable Whole} (I : S -> gmultiset Part -> Prop) (J : W -> gmultiset Whole -> Prop).
Context (embed : gmultiset Part -> gmultiset Whole).

(** The invariant of the whole gives the one of the part, and gets it back. *)
Definition viewed : Prop := forall w O F', J w (embed O ⊎ F') ->
  exists F, I (get w) (O ⊎ F) /\ forall s' O', I s' (O' ⊎ F) -> J (put s' w) (embed O' ⊎ F').

Lemma wp_zoom {A} O (m : prog S A) Q : viewed -> wp I O m Q ->
  wp J (embed O) (zoom m) (fun a O' => exists O0, O' = embed O0 /\ Q a O0).
Proof.
  intros Hv. revert O. induction m as [a|B f k IH]; intros O Hw; [by exists O|].
  intros w F' b w' HJ. destruct (Hv w O F' HJ) as (F & HI & Hback).
  destruct (f (get w)) as [[b0 s0]|] eqn:E; [|done]. intros [= <- <-].
  destruct (Hw _ F b0 s0 HI E) as (O' & HI' & Hk). exists (embed O'). split; [by apply Hback|]. by apply IH.
Qed.
End zoom.
