(* ===== verification/RunnerState.v ===== *)
(** * The state of a graph runner

    [include/rkavp/graph_runner.hpp]: the members of [GraphRunner] as one record.

    The nodes of a graph share a type [NS] of private states (the sum of the
    private states of the node types that are used).  A stream, an edge or a
    graph input, has a [Transport]: its queue, the [scheduled] flag and what its
    [state_mutex] guards.  An executor is its queue of drain tasks and the
    number of tasks that run; that its tasks are started in order and each once
    is what the scheduler guarantees.  [clock_us] is the reading of the clock;
    [retired_nodes] records the node objects that were destroyed.
    Objects that are shared through pointers, the observers and the drain states
    of sources, live in stores under their identity. *)

From S2P Require Import Prelude Status Timestamp Values BoundedQueue Telemetry Contract Node Registry Services GraphConfig InputSync Observers Sources.
Import Services.SidePackets.
Import Telemetry.Metrics Telemetry.Trace.

(** A stream: an edge by its index, a graph input by its name. *)
Inductive Stream := SEdge (i : nat) | SInput (name : string).
#[export] Instance Stream_eq_dec : EqDecision Stream.
Proof. solve_decision. Defined.
#[export] Instance Stream_countable : Countable Stream.
Proof.
  refine (inj_countable' (fun st => match st with SEdge i => inl i | SInput n => inr n end)
            (fun x => match x with inl i => SEdge i | inr n => SInput n end) _).
  by intros [].
Defined.

Record Transport := mkTransport {
  t_queue : BoundedQueue Packet;
  scheduled : bool;
  last_timestamp : Timestamp;
  t_bound : Timestamp;
  t_closed : bool;
  t_dropped : Z }.

(* [include/rkavp/graph_runner.hpp:99-108] GraphRunner::EdgeRuntime *)
Record EdgeRuntime := mkEdgeRuntime { er_config : EdgeConfig; er_transport : Transport }.
(** [open] is the negation of [t_closed]. *)
(* [include/rkavp/graph_runner.hpp:110-119] GraphRunner::InputRuntime *)
Record InputRuntime := mkInputRuntime { ir_config : GraphPortConfig; ir_transport : Transport }.

Definition new_transport (q : QueueConfig) : Transport :=
  mkTransport (NewQueue (qc_capacity q) (qc_policy q)) false Unset Unset false 0.

(** The tasks of an executor drain streams. *)
Record Executor := mkExec {
  workers : nat;
  ex_running : bool;
  ex_tasks : list Stream;
  ex_active : nat }.

(** [received_errors] records the calls of the callback. *)
(* [include/rkavp/graph_runner.hpp:154-161] GraphRunner::ErrorCallbackRuntime *)
Record ErrorCallbackRuntime := mkErrorCallback {
  ec_queue : list Status;
  ec_stopped : bool;
  received_errors : list Status }.

Section state.
Context {NS : Type}.

(** [processing]: the [process_mutex] is held. *)
(* [include/rkavp/graph_runner.hpp:85-97] GraphRunner::RuntimeNode *)
Record RuntimeNode := mkRuntimeNode {
  rn_config : NodeConfig;
  rn_contract : NodeContract;
  rn_class : NodeClass NS;
  rn_node : NodeObj NS;
  rn_inputs : InputState;
  processing : bool }.

(* [include/rkavp/graph_runner.hpp:190-229] GraphRunner (fields) *)
Record State := mkState {
  running_ : bool;
  stopping_ : bool;
  cancelled_ : bool;
  active_operations_ : nat;
  executors_ : gmap string Executor;
  control_executor_ : option bool;
  nodes_ : gmap string RuntimeNode;
  lifecycle_order_ : list string;
  edges_ : list EdgeRuntime;
  routes_ : gmap string (list nat);
  graph_inputs_ : gmap string InputRuntime;
  graph_outputs_ : gmap string (list string);
  observers_ : gmap string (list nat);
  observer_objects : gmap nat Observer;
  observer_handles_ : gset nat;
  retired_observers_ : list nat;
  next_observer_id_ : nat;
  open_inputs_ : gset string;
  open_source_nodes_ : gset string;
  source_table : SourceTable;
  side_packets_ : SidePacketSet;
  metrics_ : MetricsRegistry;
  trace_ : TraceBuffer;
  last_error_ : Status;
  error_callback_ : option ErrorCallbackRuntime;
  clock_us : Z;
  retired_nodes : list (string * NodeObj NS) }.

(** Updates of the fields. *)
Definition set_running (v : bool) (s : State) : State :=
  mkState v (stopping_ s) (cancelled_ s) (active_operations_ s) (executors_ s)
    (control_executor_ s) (nodes_ s) (lifecycle_order_ s) (edges_ s) (routes_ s) (graph_inputs_ s)
    (graph_outputs_ s) (observers_ s) (observer_objects s) (observer_handles_ s)
    (retired_observers_ s) (next_observer_id_ s) (open_inputs_ s) (open_source_nodes_ s)
    (source_table s) (side_packets_ s) (metrics_ s) (trace_ s) (last_error_ s) (error_callback_ s)
    (clock_us s) (retired_nodes s).
Definition set_stopping (v : bool) (s : State) : State :=
  mkState (running_ s) v (cancelled_ s) (active_operations_ s) (executors_ s)
    (control_executor_ s) (nodes_ s) (lifecycle_order_ s) (edges_ s) (routes_ s) (graph_inputs_ s)
    (graph_outputs_ s) (observers_ s) (observer_objects s) (observer_handles_ s)
    (retired_observers_ s) (next_observer_id_ s) (open_inputs_ s) (open_source_nodes_ s)
    (source_table s) (side_packets_ s) (metrics_ s) (trace_ s) (last_error_ s) (error_callback_ s)
    (clock_us s) (retired_nodes s).
Definition set_cancelled (v : bool) (s : State) : State :=
  mkState (running_ s) (stopping_ s) v (active_operations_ s) (executors_ s)
    (control_executor_ s) (nodes_ s) (lifecycle_order_ s) (edges_ s) (routes_ s) (graph_inputs_ s)
    (graph_outputs_ s) (observers_ s) (observer_objects s) (observer_handles_ s)
    (retired_observers_ s) (next_observer_id_ s) (open_inputs_ s) (open_source_nodes_ s)
    (source_table s) (side_packets_ s) (metrics_ s) (trace_ s) (last_error_ s) (error_callback_ s)
    (clock_us s) (retired_nodes s).
Definition set_active_operations (v : nat) (s : State) : State :=
  mkState (running_ s) (stopping_ s) (cancelled_ s) v (executors_ s) (control_executor_ s)
    (nodes_ s) (lifecycle_order_ s) (edges_ s) (routes_ s) (graph_inputs_ s) (graph_outputs_ s)
    (observers_ s) (observer_objects s) (observer_handles_ s) (retired_observers_ s)
    (next_observer_id_ s) (open_inputs_ s) (open_source_nodes_ s) (source_table s)
    (side_packets_ s) (metrics_ s) (trace_ s) (last_error_ s) (error_callback_ s) (clock_us s)
    (retired_nodes s).
Definition set_executors (v : gmap string Executor) (s : State) : State :=
  mkState (running_ s) (stopping_ s) (cancelled_ s) (active_operations_ s) v
    (control_executor_ s) (nodes_ s) (lifecycle_order_ s) (edges_ s) (routes_ s) (graph_inputs_ s)
    (graph_outputs_ s) (observers_ s) (observer_objects s) (observer_handles_ s)
    (retired_observers_ s) (next_observer_id_ s) (open_inputs_ s) (open_source_nodes_ s)
    (source_table s) (side_packets_ s) (metrics_ s) (trace_ s) (last_error_ s) (error_callback_ s)
    (clock_us s) (retired_nodes s).
Definition set_control_executor (v : option bool) (s : State) : State :=
  mkState (running_ s) (stopping_ s) (cancelled_ s) (active_operations_ s) (executors_ s) v
    (nodes_ s) (lifecycle_order_ s) (edges_ s) (routes_ s) (graph_inputs_ s) (graph_outputs_ s)
    (observers_ s) (observer_objects s) (observer_handles_ s) (retired_observers_ s)
    (next_observer_id_ s) (open_inputs_ s) (open_source_nodes_ s) (source_table s)
    (side_packets_ s) (metrics_ s) (trace_ s) (last_error_ s) (error_callback_ s) (clock_us s)
    (retired_nodes s).
Definition set_nodes (v : gmap string RuntimeNode) (s : State) : State :=
  mkState (running_ s) (stopping_ s) (cancelled_ s) (active_operations_ s) (executors_ s)
    (control_executor_ s) v (lifecycle_order_ s) (edges_ s) (routes_ s) (graph_inputs_ s)
    (graph_outputs_ s) (observers_ s) (observer_objects s) (observer_handles_ s)
    (retired_observers_ s) (next_observer_id_ s) (open_inputs_ s) (open_source_nodes_ s)
    (source_table s) (side_packets_ s) (metrics_ s) (trace_ s) (last_error_ s) (error_callback_ s)
    (clock_us s) (retired_nodes s).
Definition set_lifecycle_order (v : list string) (s : State) : State :=
  mkState (running_ s) (stopping_ s) (cancelled_ s) (active_operations_ s) (executors_ s)
    (control_executor_ s) (nodes_ s) v (edges_ s) (routes_ s) (graph_inputs_ s) (graph_outputs_ s)
    (observers_ s) (observer_objects s) (observer_handles_ s) (retired_observers_ s)
    (next_observer_id_ s) (open_inputs_ s) (open_source_nodes_ s) (source_table s)
    (side_packets_ s) (metrics_ s) (trace_ s) (last_error_ s) (error_callback_ s) (clock_us s)
    (retired_nodes s).
Definition set_edges (v : list EdgeRuntime) (s : State) : State :=
  mkState (running_ s) (stopping_ s) (cancelled_ s) (active_operations_ s) (executors_ s)
    (control_executor_ s) (nodes_ s) (lifecycle_order_ s) v (routes_ s) (graph_inputs_ s)
    (graph_outputs_ s) (observers_ s) (observer_objects s) (observer_handles_ s)
    (retired_observers_ s) (next_observer_id_ s) (open_inputs_ s) (open_source_nodes_ s)
    (source_table s) (side_packets_ s) (metrics_ s) (trace_ s) (last_error_ s) (error_callback_ s)
    (clock_us s) (retired_nodes s).
Definition set_routes (v : gmap string (list nat)) (s : State) : State :=
  mkState (running_ s) (stopping_ s) (cancelled_ s) (active_operations_ s) (executors_ s)
    (control_executor_ s) (nodes_ s) (lifecycle_order_ s) (edges_ s) v (graph_inputs_ s)
    (graph_outputs_ s) (observers_ s) (observer_objects s) (observer_handles_ s)
    (retired_observers_ s) (next_observer_id_ s) (open_inputs_ s) (open_source_nodes_ s)
    (source_table s) (side_packets_ s) (metrics_ s) (trace_ s) (last_error_ s) (error_callback_ s)
    (clock_us s) (retired_nodes s).
Definition set_graph_inputs (v : gmap string InputRuntime) (s : State) : State :=
  mkState (running_ s) (stopping_ s) (cancelled_ s) (active_operations_ s) (executors_ s)
    (control_executor_ s) (nodes_ s) (lifecycle_order_ s) (edges_ s) (routes_ s) v
    (graph_outputs_ s) (observers_ s) (observer_objects s) (observer_handles_ s)
    (retired_observers_ s) (next_observer_id_ s) (open_inputs_ s) (open_source_nodes_ s)
    (source_table s) (side_packets_ s) (metrics_ s) (trace_ s) (last_error_ s) (error_callback_ s)
    (clock_us s) (retired_nodes s).
Definition set_graph_outputs (v : gmap string (list string)) (s : State) : State :=
  mkState (running_ s) (stopping_ s) (cancelled_ s) (active_operations_ s) (executors_ s)
    (control_executor_ s) (nodes_ s) (lifecycle_order_ s) (edges_ s) (routes_ s) (graph_inputs_ s)
    v (observers_ s) (observer_objects s) (observer_handles_ s) (retired_observers_ s)
    (next_observer_id_ s) (open_inputs_ s) (open_source_nodes_ s) (source_table s)
    (side_packets_ s) (metrics_ s) (trace_ s) (last_error_ s) (error_callback_ s) (clock_us s)
    (retired_nodes s).
Definition set_observers (v : gmap string (list nat)) (s : State) : State :=
  mkState (running_ s) (stopping_ s) (cancelled_ s) (active_operations_ s) (executors_ s)
    (control_executor_ s) (nodes_ s) (lifecycle_order_ s) (edges_ s) (routes_ s) (graph_inputs_ s)
    (graph_outputs_ s) v (observer_objects s) (observer_handles_ s) (retired_observers_ s)
    (next_observer_id_ s) (open_inputs_ s) (open_source_nodes_ s) (source_table s)
    (side_packets_ s) (metrics_ s) (trace_ s) (last_error_ s) (error_callback_ s) (clock_us s)
    (retired_nodes s).
Definition set_observer_objects (v : gmap nat Observer) (s : State) : State :=
  mkState (running_ s) (stopping_ s) (cancelled_ s) (active_operations_ s) (executors_ s)
    (control_executor_ s) (nodes_ s) (lifecycle_order_ s) (edges_ s) (routes_ s) (graph_inputs_ s)
    (graph_outputs_ s) (observers_ s) v (observer_handles_ s) (retired_observers_ s)
    (next_observer_id_ s) (open_inputs_ s) (open_source_nodes_ s) (source_table s)
    (side_packets_ s) (metrics_ s) (trace_ s) (last_error_ s) (error_callback_ s) (clock_us s)
    (retired_nodes s).
Definition set_observer_handles (v : gset nat) (s : State) : State :=
  mkState (running_ s) (stopping_ s) (cancelled_ s) (active_operations_ s) (executors_ s)
    (control_executor_ s) (nodes_ s) (lifecycle_order_ s) (edges_ s) (routes_ s) (graph_inputs_ s)
    (graph_outputs_ s) (observers_ s) (observer_objects s) v (retired_observers_ s)
    (next_observer_id_ s) (open_inputs_ s) (open_source_nodes_ s) (source_table s)
    (side_packets_ s) (metrics_ s) (trace_ s) (last_error_ s) (error_callback_ s) (clock_us s)
    (retired_nodes s).
Definition set_retired_observers (v : list nat) (s : State) : State :=
  mkState (running_ s) (stopping_ s) (cancelled_ s) (active_operations_ s) (executors_ s)
    (control_executor_ s) (nodes_ s) (lifecycle_order_ s) (edges_ s) (routes_ s) (graph_inputs_ s)
    (graph_outputs_ s) (observers_ s) (observer_objects s) (observer_handles_ s) v
    (next_observer_id_ s) (open_inputs_ s) (open_source_nodes_ s) (source_table s)
    (side_packets_ s) (metrics_ s) (trace_ s) (last_error_ s) (error_callback_ s) (clock_us s)
    (retired_nodes s).
Definition set_next_observer_id (v : nat) (s : State) : State :=
  mkState (running_ s) (stopping_ s) (cancelled_ s) (active_operations_ s) (executors_ s)
    (control_executor_ s) (nodes_ s) (lifecycle_order_ s) (edges_ s) (routes_ s) (graph_inputs_ s)
    (graph_outputs_ s) (observers_ s) (observer_objects s) (observer_handles_ s)
    (retired_observers_ s) v (open_inputs_ s) (open_source_nodes_ s) (source_table s)
    (side_packets_ s) (metrics_ s) (trace_ s) (last_error_ s) (error_callback_ s) (clock_us s)
    (retired_nodes s).
Definition set_open_inputs (v : gset string) (s : State) : State :=
  mkState (running_ s) (stopping_ s) (cancelled_ s) (active_operations_ s) (executors_ s)
    (control_executor_ s) (nodes_ s) (lifecycle_order_ s) (edges_ s) (routes_ s) (graph_inputs_ s)
    (graph_outputs_ s) (observers_ s) (observer_objects s) (observer_handles_ s)
    (retired_observers_ s) (next_observer_id_ s) v (open_source_nodes_ s) (source_table s)
    (side_packets_ s) (metrics_ s) (trace_ s) (last_error_ s) (error_callback_ s) (clock_us s)
    (retired_nodes s).
Definition set_open_source_nodes (v : gset string) (s : State) : State :=
  mkState (running_ s) (stopping_ s) (cancelled_ s) (active_operations_ s) (executors_ s)
    (control_executor_ s) (nodes_ s) (lifecycle_order_ s) (edges_ s) (routes_ s) (graph_inputs_ s)
    (graph_outputs_ s) (observers_ s) (observer_objects s) (observer_handles_ s)
    (retired_observers_ s) (next_observer_id_ s) (open_inputs_ s) v (source_table s)
    (side_packets_ s) (metrics_ s) (trace_ s) (last_error_ s) (error_callback_ s) (clock_us s)
    (retired_nodes s).
Definition set_source_table (v : SourceTable) (s : State) : State :=
  mkState (running_ s) (stopping_ s) (cancelled_ s) (active_operations_ s) (executors_ s)
    (control_executor_ s) (nodes_ s) (lifecycle_order_ s) (edges_ s) (routes_ s) (graph_inputs_ s)
    (graph_outputs_ s) (observers_ s) (observer_objects s) (observer_handles_ s)
    (retired_observers_ s) (next_observer_id_ s) (open_inputs_ s) (open_source_nodes_ s) v
    (side_packets_ s) (metrics_ s) (trace_ s) (last_error_ s) (error_callback_ s) (clock_us s)
    (retired_nodes s).
Definition set_side_packets (v : SidePacketSet) (s : State) : State :=
  mkState (running_ s) (stopping_ s) (cancelled_ s) (active_operations_ s) (executors_ s)
    (control_executor_ s) (nodes_ s) (lifecycle_order_ s) (edges_ s) (routes_ s) (graph_inputs_ s)
    (graph_outputs_ s) (observers_ s) (observer_objects s) (observer_handles_ s)
    (retired_observers_ s) (next_observer_id_ s) (open_inputs_ s) (open_source_nodes_ s)
    (source_table s) v (metrics_ s) (trace_ s) (last_error_ s) (error_callback_ s) (clock_us s)
    (retired_nodes s).
Definition set_metrics (v : MetricsRegistry) (s : State) : State :=
  mkState (running_ s) (stopping_ s) (cancelled_ s) (active_operations_ s) (executors_ s)
    (control_executor_ s) (nodes_ s) (lifecycle_order_ s) (edges_ s) (routes_ s) (graph_inputs_ s)
    (graph_outputs_ s) (observers_ s) (observer_objects s) (observer_handles_ s)
    (retired_observers_ s) (next_observer_id_ s) (open_inputs_ s) (open_source_nodes_ s)
    (source_table s) (side_packets_ s) v (trace_ s) (last_error_ s) (error_callback_ s)
    (clock_us s) (retired_nodes s).
Definition set_trace (v : TraceBuffer) (s : State) : State :=
  mkState (running_ s) (stopping_ s) (cancelled_ s) (active_operations_ s) (executors_ s)
    (control_executor_ s) (nodes_ s) (lifecycle_order_ s) (edges_ s) (routes_ s) (graph_inputs_ s)
    (graph_outputs_ s) (observers_ s) (observer_objects s) (observer_handles_ s)
    (retired_observers_ s) (next_observer_id_ s) (open_inputs_ s) (open_source_nodes_ s)
    (source_table s) (side_packets_ s) (metrics_ s) v (last_error_ s) (error_callback_ s)
    (clock_us s) (retired_nodes s).
Definition set_last_error (v : Status) (s : State) : State :=
  mkState (running_ s) (stopping_ s) (cancelled_ s) (active_operations_ s) (executors_ s)
    (control_executor_ s) (nodes_ s) (lifecycle_order_ s) (edges_ s) (routes_ s) (graph_inputs_ s)
    (graph_outputs_ s) (observers_ s) (observer_objects s) (observer_handles_ s)
    (retired_observers_ s) (next_observer_id_ s) (open_inputs_ s) (open_source_nodes_ s)
    (source_table s) (side_packets_ s) (metrics_ s) (trace_ s) v (error_callback_ s) (clock_us s)
    (retired_nodes s).
Definition set_error_callback (v : option ErrorCallbackRuntime) (s : State) : State :=
  mkState (running_ s) (stopping_ s) (cancelled_ s) (active_operations_ s) (executors_ s)
    (control_executor_ s) (nodes_ s) (lifecycle_order_ s) (edges_ s) (routes_ s) (graph_inputs_ s)
    (graph_outputs_ s) (observers_ s) (observer_objects s) (observer_handles_ s)
    (retired_observers_ s) (next_observer_id_ s) (open_inputs_ s) (open_source_nodes_ s)
    (source_table s) (side_packets_ s) (metrics_ s) (trace_ s) (last_error_ s) v (clock_us s)
    (retired_nodes s).
Definition set_clock_us (v : Z) (s : State) : State :=
  mkState (running_ s) (stopping_ s) (cancelled_ s) (active_operations_ s) (executors_ s)
    (control_executor_ s) (nodes_ s) (lifecycle_order_ s) (edges_ s) (routes_ s) (graph_inputs_ s)
    (graph_outputs_ s) (observers_ s) (observer_objects s) (observer_handles_ s)
    (retired_observers_ s) (next_observer_id_ s) (open_inputs_ s) (open_source_nodes_ s)
    (source_table s) (side_packets_ s) (metrics_ s) (trace_ s) (last_error_ s) (error_callback_ s)
    v (retired_nodes s).
Definition set_retired_nodes (v : list (string * NodeObj NS)) (s : State) : State :=
  mkState (running_ s) (stopping_ s) (cancelled_ s) (active_operations_ s) (executors_ s)
    (control_executor_ s) (nodes_ s) (lifecycle_order_ s) (edges_ s) (routes_ s) (graph_inputs_ s)
    (graph_outputs_ s) (observers_ s) (observer_objects s) (observer_handles_ s)
    (retired_observers_ s) (next_observer_id_ s) (open_inputs_ s) (open_source_nodes_ s)
    (source_table s) (side_packets_ s) (metrics_ s) (trace_ s) (last_error_ s) (error_callback_ s)
    (clock_us s) v.

(** ** Streams *)

Definition set_er_transport (t : Transport) (e : EdgeRuntime) : EdgeRuntime :=
  mkEdgeRuntime (er_config e) t.
Definition set_ir_transport (t : Transport) (i : InputRuntime) : InputRuntime :=
  mkInputRuntime (ir_config i) t.

Definition transport (st : Stream) (s : State) : option Transport :=
  match st with
  | SEdge i => er_transport <$> edges_ s !! i
  | SInput n => ir_transport <$> graph_inputs_ s !! n
  end.

Definition put_transport (st : Stream) (t : Transport) (s : State) : State :=
  match st with
  | SEdge i => set_edges (alter (set_er_transport t) i (edges_ s)) s
  | SInput n => set_graph_inputs (alter (set_ir_transport t) n (graph_inputs_ s)) s
  end.

(** Where the packets of a stream go. *)
Definition stream_target (st : Stream) (s : State) : option (string * string) :=
  match st with
  | SEdge i => (fun e => (to_node (er_config e), to_port (er_config e))) <$> edges_ s !! i
  | SInput n => (fun r => (gp_node (ir_config r), gp_port (ir_config r))) <$> graph_inputs_ s !! n
  end.

Definition put_queue (q : BoundedQueue Packet) (t : Transport) : Transport :=
  mkTransport q (scheduled t) (last_timestamp t) (t_bound t) (t_closed t) (t_dropped t).
Definition with_scheduled (b : bool) (t : Transport) : Transport :=
  mkTransport (t_queue t) b (last_timestamp t) (t_bound t) (t_closed t) (t_dropped t).
Definition with_last (ts : Timestamp) (t : Transport) : Transport :=
  mkTransport (t_queue t) (scheduled t) ts (t_bound t) (t_closed t) (t_dropped t).
Definition with_bound (ts : Timestamp) (t : Transport) : Transport :=
  mkTransport (t_queue t) (scheduled t) (last_timestamp t) ts (t_closed t) (t_dropped t).
Definition with_closed (b : bool) (t : Transport) : Transport :=
  mkTransport (t_queue t) (scheduled t) (last_timestamp t) (t_bound t) b (t_dropped t).
Definition with_dropped (n : Z) (t : Transport) : Transport :=
  mkTransport (t_queue t) (scheduled t) (last_timestamp t) (t_bound t) (t_closed t) n.

Definition modify_transport (st : Stream) (f : Transport -> Transport) (s : State) : State :=
  match transport st s with Some t => put_transport st (f t) s | None => s end.

Definition increment (name : string) (s : State) : State :=
  set_metrics (Increment (metrics_ s) name 1) s.
Fixpoint increment_by (n : nat) (name : string) (s : State) : State :=
  match n with O => s | S n => increment_by n name (increment name s) end.
Definition gauge (name : string) (v : SpecFloat.spec_float) (s : State) : State :=
  set_metrics (SetGauge (metrics_ s) name v) s.
Definition put_node (id : string) (n : RuntimeNode) (s : State) : State :=
  set_nodes (<[id := n]> (nodes_ s)) s.
Definition put_observer (id : nat) (o : Observer) (s : State) : State :=
  set_observer_objects (<[id := o]> (observer_objects s)) s.

(** ** Executors *)

(** [PostGuaranteed]: a full queue does not refuse the task. *)
(* [src/core/scheduler.cpp:45-62] Scheduler::PostGuaranteed *)
Definition PostGuaranteed (name : string) (task : Stream) (s : State) : Status * State :=
  match executors_ s !! name with
  | None => (NotFound "destination executor not found", s)
  | Some e =>
      if ex_running e
      then (Ok, set_executors (<[name := mkExec (workers e) true (ex_tasks e ++ [task])
                                                    (ex_active e)]> (executors_ s)) s)
      else (FailedPrecondition "scheduler is not running", s)
  end.
End state.
Arguments RuntimeNode : clear implicits.
Arguments State : clear implicits.
