(* ===== verification/Runner.v ===== *)
(** * The graph runner

    [src/core/graph_runner.cpp]: the operations of a running graph as programs of
    atomic actions over [State].  An action is a critical section of the code, an
    access to an atomic variable, or a call of a component that locks (the queue
    of a stream, an executor, the metrics).  A program may be interrupted between
    any two actions.

    Condition variables are modelled by their predicates: a wait is an action
    that is blocked until the predicate holds. *)

From S2P Require Import Prelude Status Timestamp Values BoundedQueue Telemetry Contract Node Registry Services GraphConfig Graph InputSync Observers Sources Atomic RunnerState.
Import Services.SidePackets.
Import Telemetry.Trace.
Local Open Scope prog_scope.
Local Open Scope Z_scope.

(** ** Admission of packets to a stream *)

(** [last_timestamp] is the new value of the field, when the packet is admitted. *)
(* [src/core/graph_runner.cpp:624-639] GraphRunner::ValidateStreamPacket *)
Definition ValidateStreamPacket (ts last bound : Timestamp) (closed : bool) (stream : string)
  : Res Timestamp :=
  if closed then Err (FailedPrecondition ("stream is closed: " +:+ stream))
  else if negb (is_range_value ts) then
    Err (Invalid ("data packet requires a range timestamp: " +:+ stream))
  else if negb (is_unset bound) && ts_ltb ts bound then
    Err (Invalid ("packet timestamp is below stream bound: " +:+ stream))
  else if is_range_value last && ts_ltb ts last then
    Err (Invalid ("packet timestamp moved backwards: " +:+ stream))
  else Okay ts.

Definition is_bound (p : Packet) : bool := bool_decide (event p = kTimestampBound).

(** What the [state_mutex] of an edge guards. *)
(* [src/core/graph_runner.cpp:535-551] GraphRunner::EnqueueEdge (admission) *)
Definition admit_edge (name : string) (p : Packet) (t : Transport) : Res Transport :=
  if is_bound p then
    if negb (is_unset (t_bound t)) && ts_ltb (timestamp p) (t_bound t) then
      Err (Invalid "edge timestamp bound cannot move backwards")
    else Okay (with_bound (timestamp p) t)
  else if is_eos p then Okay (with_closed true t)
  else match ValidateStreamPacket (timestamp p) (last_timestamp t) (t_bound t) (t_closed t) name with
       | Err s => Err s
       | Okay ts => Okay (with_last ts t)
       end.

(* [src/core/graph_runner.cpp:301-306] GraphRunner::AddPacket (admission) *)
Definition admit_input (name : string) (p : Packet) (t : Transport) : Res Transport :=
  match ValidateStreamPacket (timestamp p) (last_timestamp t) (t_bound t) (t_closed t) name with
  | Err s => Err s
  | Okay ts => Okay (with_last ts t)
  end.

Section runner.
Context {NS : Type}.
Abbreviation St := (State NS).
Abbreviation program := (prog St).

(** ** Errors *)

(* [src/core/graph_runner.cpp:890-893] GraphRunner::CloseQueues *)
Definition CloseQueues : program unit :=
  ins <-- read (fun s : St => (map_to_list (graph_inputs_ s)).*1);
  for_each ins (fun n => update (modify_transport (SInput n) (fun t => put_queue (BoundedQueue.Close (t_queue t)) t)));;;
  n <-- read (fun s : St => length (edges_ s));
  for_each (seq 0 n) (fun i =>
    update (modify_transport (SEdge i) (fun t => put_queue (BoundedQueue.Close (t_queue t)) t))).

(** The error is recorded once, and then cancels the graph. *)
Definition record_error (status : Status) (s : St) : bool * St :=
  if ok (last_error_ s) then (true, set_last_error status s) else (false, s).

Definition report_error (status : Status) (s : St) : St :=
  match error_callback_ s with
  | Some c => if ec_stopped c then s
              else set_error_callback (Some (mkErrorCallback (ec_queue c ++ [status]) false
                                                             (received_errors c))) s
  | None => s
  end.

(* [src/core/graph_runner.cpp:868-888] GraphRunner::SetError *)
Definition SetError (status : Status) : program unit :=
  first <-- atomically (record_error status);
  if (first : bool) then
    update (increment "graph.errors");;;
    update (set_cancelled true);;;
    CloseQueues;;;
    update (report_error status)
  else Ret tt.

(* [src/core/graph_runner.cpp:431-435] GraphRunner::Cancel *)
Definition Cancel : program unit := update (set_cancelled true);;; CloseQueues.

(* [src/core/graph_runner.cpp:491-494] GraphRunner::last_error *)
Definition last_error : program Status := read last_error_.

(** ** Scheduling the drain of a stream *)

(* [src/core/graph_runner.cpp:861-866] GraphRunner::ExecutorFor *)
Definition ExecutorFor (node_id : string) (s : St) : option string :=
  match nodes_ s !! node_id with
  | None => None
  | Some n => if bool_decide (is_Some (executors_ s !! nc_executor (rn_config n)))
              then Some (nc_executor (rn_config n)) else None
  end.

(** [scheduled.exchange(true)], with the stream's target node; nothing when
    there is no such stream or the flag was set. *)
Definition claim (st : Stream) (s : St) : option string * St :=
  match transport st s, stream_target st s with
  | Some t, Some (node, _) =>
      if scheduled t then (None, s) else (Some node, put_transport st (with_scheduled true t) s)
  | _, _ => (None, s)
  end.

Definition schedule (st : Stream) (missing : string) : program unit :=
  claimed <-- atomically (claim st);
  match claimed with
  | None => Ret tt
  | Some node =>
      executor <-- read (ExecutorFor node);
      status <-- match executor with
                 | None => Ret (NotFound missing)
                 | Some name => atomically (PostGuaranteed name st)
                 end;
      if ok status then Ret tt
      else update (modify_transport st (with_scheduled false));;; SetError status
  end.

(* [src/core/graph_runner.cpp:572-583] GraphRunner::ScheduleEdge *)
Definition ScheduleEdge (i : nat) : program unit :=
  schedule (SEdge i) "destination executor not found".

(* [src/core/graph_runner.cpp:598-609] GraphRunner::ScheduleInput *)
Definition ScheduleInput (stream : string) : program unit :=
  schedule (SInput stream) "input destination executor not found".

(** ** Emitting *)

Definition edge_name (c : EdgeConfig) : string := from_node c +:+ "." +:+ from_port c.
Definition edge_metric (c : EdgeConfig) : string :=
  "edge." +:+ edge_name c +:+ "_to_" +:+ to_node c +:+ "." +:+ to_port c.

(** [Push] or [PushControl] on the queue of a stream; the result also counts the
    drop. *)
Definition push_stream (st : Stream) (control : bool) (p : Packet) (s : St)
  : option (PushResult * St) :=
  match transport st s with
  | None => None
  | Some t =>
      match (if control then Some (PushControl (t_queue t) p) else Push (t_queue t) p) with
      | None => None
      | Some (r, q) => Some (r, put_transport st (put_queue q t) s)
      end
  end.

Definition count_drop (st : Stream) (metric : string) : program unit :=
  update (modify_transport st (fun t => with_dropped (u64 (t_dropped t + 1)) t));;;
  update (increment metric).

(* [src/core/graph_runner.cpp:532-570] GraphRunner::EnqueueEdge *)
Definition EnqueueEdge (i : nat) (p : Packet) : program Status :=
  admitted <-- atomically (fun s : St =>
    match edges_ s !! i with
    | None => (Err (Internal "edge index out of range"), s)
    | Some e => match admit_edge (edge_name (er_config e)) p (er_transport e) with
                | Err st => (Err st, s)
                | Okay t => (Okay (er_config e), put_transport (SEdge i) t s)
                end
    end);
  match admitted with
  | Err status => Ret status
  | Okay config =>
      r <-- blocking (push_stream (SEdge i) (is_bound p || is_eos p) p);
      (if dropped r then count_drop (SEdge i) (edge_metric config +:+ ".dropped") else Ret tt);;;
      depth <-- read (fun s => match transport (SEdge i) s with
                               | Some t => queue_size (t_queue t) | None => 0%nat end);
      update (gauge (edge_metric config +:+ ".depth") (double_of_Z (Z.of_nat depth)));;;
      if negb (pushed r) then
        if dropped r && bool_decide (qc_policy (e_queue config) = kDropNewest) then Ret Ok
        else c <-- read cancelled_;
             Ret (if (c : bool) then Cancelled "edge is closed" else Unavailable "edge rejected packet")
      else ScheduleEdge i;;; Ret Ok
  end.

(** The observers of the streams an endpoint is exported as. *)
(* [src/core/graph_runner.cpp:506-514] GraphRunner::Emit (callbacks) *)
Definition observers_of (streams : list string) (s : St) : list nat :=
  concat (map (fun n => default [] (observers_ s !! n)) streams).

(* [src/core/graph_runner.cpp:515-520] GraphRunner::Emit (observer) *)
Definition notify_observer (id : nat) (p : Packet) (s : St) : St :=
  match observer_objects s !! id with
  | None => s
  | Some o =>
      if is_bound p && negb (oo_bounds (ob_options o)) then s
      else let '(lost, o') := EnqueueObserver p o in
           let s' := put_observer id o' s in
           if lost then increment ("observer." +:+ ob_stream o +:+ ".dropped") s' else s'
  end.

(** Every edge of the route is tried; the first error is the result. *)
(* [src/core/graph_runner.cpp:524-529] GraphRunner::Emit (route) *)
Fixpoint enqueue_all (route : list nat) (p : Packet) (first_error : Status) : program Status :=
  match route with
  | [] => Ret first_error
  | i :: route =>
      status <-- EnqueueEdge i p;
      enqueue_all route p (if negb (ok status) && ok first_error then status else first_error)
  end.

(* [src/core/graph_runner.cpp:496-530] GraphRunner::Emit *)
Definition Emit (node_id port : string) (p : Packet) : program Status :=
  c <-- read cancelled_;
  if (c : bool) then Ret (Cancelled "graph is cancelled")
  else
    (if is_eos p then update (fun s => set_open_source_nodes (open_source_nodes_ s ∖ {[node_id]}) s)
     else Ret tt);;;
    let endpoint := node_id +:+ "." +:+ port in
    callbacks <-- read (fun s => match graph_outputs_ s !! endpoint with
                                 | None => []
                                 | Some streams => observers_of streams s
                                 end);
    for_each callbacks (fun id => update (notify_observer id p));;;
    route <-- read (fun s => routes_ s !! endpoint);
    match route with
    | None => Ret Ok
    | Some l => enqueue_all l p Ok
    end.

(** ** Running a node *)

(** A program of a node in the graph: its private accesses are actions on the
    node object, its calls go to the runner. *)
Fixpoint node_prog {A} (id : string) (m : NodeM (NodeObj NS) A) : program A :=
  match m with
  | NRet a => Ret a
  | NLocal f k =>
      Act (fun s : St => match nodes_ s !! id with
                    | None => None
                    | Some n => let '(b, o) := f (rn_node n) in
                                Some (b, put_node id (mkRuntimeNode (rn_config n) (rn_contract n)
                                           (rn_class n) o (rn_inputs n) (processing n)) s)
                    end) (fun b => node_prog id (k b))
  | NEmit port p k => r <-- Emit id port p; node_prog id (k r)
  | NIncrement name k => update (increment name);;; node_prog id k
  | NSetGauge name v k => update (gauge name v);;; node_prog id k
  | NTimed f k =>
      Act (fun s : St => match nodes_ s !! id with
                    | None => None
                    | Some n => let '(b, o) := f (clock_us s) (rn_node n) in
                                Some (b, put_node id (mkRuntimeNode (rn_config n) (rn_contract n)
                                           (rn_class n) o (rn_inputs n) (processing n)) s)
                    end) (fun b => node_prog id (k b))
  end.

(** The [process_mutex]. *)
Definition set_processing (b : bool) (n : RuntimeNode NS) : RuntimeNode NS :=
  mkRuntimeNode (rn_config n) (rn_contract n) (rn_class n) (rn_node n) (rn_inputs n) b.
Definition lock_process (id : string) : program unit :=
  blocking (fun s => match nodes_ s !! id with
                     | Some n => if processing n then None
                                 else Some (tt, put_node id (set_processing true n) s)
                     | None => None
                     end).
Definition unlock_process (id : string) : program unit :=
  update (fun s => match nodes_ s !! id with
                   | Some n => put_node id (set_processing false n) s
                   | None => s
                   end).

Definition process_context (id : string) (n : RuntimeNode NS) (ins : PacketSet) (s : St)
  : NodeContext :=
  mkContext id (nc_executor (rn_config n)) ins true (Some (packets_ (side_packets_ s))) true.

(** [thread] is the identity of the executing thread, which only the trace sees. *)
(* [src/core/graph_runner.cpp:830-859] GraphRunner::Invoke *)
Definition Invoke (thread : Z) (id : string) (ins : PacketSet) : program unit :=
  node <-- read (fun s : St => option_map (fun n => (n, process_context id n ins s)) (nodes_ s !! id));
  c <-- read cancelled_;
  match node with
  | None => Ret tt
  | Some (n, ctx) =>
      if (c : bool) then Ret tt
      else
        start <-- read clock_us;
        status <-- (if bool_decide (concurrency (rn_class n) = kReentrant)
                    then node_prog id (Process (rn_class n) ctx)
                    else lock_process id;;;
                         r <-- node_prog id (Process (rn_class n) ctx);
                         unlock_process id;;; Ret r);
        finish <-- read clock_us;
        update (increment ("node." +:+ id +:+ ".processed"));;;
        update (gauge ("node." +:+ id +:+ ".last_latency_us") (double_of_Z (finish - start)));;;
        update (fun s => set_trace (Add (trace_ s) (mkEvent "Process" "node" id
                                     (nc_executor (rn_config n)) start (finish - start) thread)) s);;;
        if ok status then Ret tt
        else SetError (mkStatus (code status) ("node " +:+ id +:+ ": " +:+ message status))
  end.

Definition set_inputs (ins : InputState) (n : RuntimeNode NS) : RuntimeNode NS :=
  mkRuntimeNode (rn_config n) (rn_contract n) (rn_class n) (rn_node n) ins (processing n).

(** The critical sections of [Deliver] under the [input_mutex] of the node. *)
Definition deliver_bound (id port : string) (b : Timestamp) (s : St) : Status * St :=
  match nodes_ s !! id with
  | None => (NotFound ("runtime node not found: " +:+ id), s)
  | Some n => let '(st, drops, ins) := DeliverBound id (rn_contract n) port b (rn_inputs n) in
              (st, increment_by drops "graph.sync_unmatched_dropped" (put_node id (set_inputs ins n) s))
  end.
Definition prepare (id port : string) (p : Packet) (s : St) : option Prepared * St :=
  match nodes_ s !! id with
  | None => (None, s)
  | Some n => let '(r, drops, ins) := PrepareInvocation (nc_id (rn_config n)) (rn_contract n) port p
                                        (rn_inputs n) in
              (Some r, increment_by drops "graph.sync_unmatched_dropped" (put_node id (set_inputs ins n) s))
  end.

(* [src/core/graph_runner.cpp:720-737] GraphRunner::Deliver *)
Definition Deliver (thread : Z) (id port : string) (p : Packet) : program Status :=
  if is_bound p then atomically (deliver_bound id port (timestamp p))
  else
    r <-- atomically (prepare id port p);
    match r with
    | None => Ret (NotFound ("runtime node not found: " +:+ id))
    | Some (PInvoke ins) => Invoke thread id ins;;; Ret Ok
    | Some PWait => Ret Ok
    | Some (PError st) => SetError st;;; Ret Ok
    end.

(** ** Draining *)

Definition pop_stream (st : Stream) (s : St) : option (option (Packet * string * string)) * St :=
  match transport st s, stream_target st s with
  | Some t, Some (node, port) =>
      let '(o, q) := TryPop (t_queue t) in
      (Some (option_map (fun p => (p, node, port)) o), put_transport st (put_queue q t) s)
  | _, _ => (None, s)
  end.

Definition deliver_one (thread : Z) (st : Stream) (p : Packet) (node port : string) : program unit :=
  (match st with SEdge _ => update (increment "edge.delivered") | SInput _ => Ret tt end);;;
  status <-- Deliver thread node port p;
  if ok status then Ret tt else SetError status.

Definition drain (thread : Z) (st : Stream) (again : program unit) : program unit :=
  popped <-- atomically (pop_stream st);
  match popped with
  | None => Ret tt
  | Some o =>
      (match o with Some (p, node, port) => deliver_one thread st p node port | None => Ret tt end);;;
      update (modify_transport st (with_scheduled false));;;
      c <-- read cancelled_;
      if (c : bool) then Ret tt
      else size <-- read (fun s => match transport st s with
                                   | Some t => queue_size (t_queue t) | None => 0%nat end);
           if bool_decide (size = 0%nat) then Ret tt else again
  end.

(* [src/core/graph_runner.cpp:585-596] GraphRunner::DrainEdge *)
Definition DrainEdge (thread : Z) (i : nat) : program unit := drain thread (SEdge i) (ScheduleEdge i).
(* [src/core/graph_runner.cpp:611-622] GraphRunner::DrainInput *)
Definition DrainInput (thread : Z) (stream : string) : program unit :=
  drain thread (SInput stream) (ScheduleInput stream).

Definition drain_task (thread : Z) (st : Stream) : program unit :=
  match st with SEdge i => DrainEdge thread i | SInput n => DrainInput thread n end.

(** ** Operations of the application *)

(* [src/core/graph_runner.cpp:895-900] GraphRunner::BeginOperation *)
Definition BeginOperation : program bool :=
  atomically (fun s : St => if stopping_ s || negb (running_ s) then (false, s)
                            else (true, set_active_operations (S (active_operations_ s)) s)).
(* [src/core/graph_runner.cpp:902-906] GraphRunner::EndOperation *)
Definition EndOperation : program unit :=
  update (fun s : St => set_active_operations (active_operations_ s - 1) s).

(** The operations that count themselves while they run, as [ScopeExit] does. *)
Definition operation {A} (refused : A) (body : program A) : program A :=
  began <-- BeginOperation;
  if (began : bool) then r <-- body; EndOperation;;; Ret r else Ret refused.

Definition not_accepting : Status := FailedPrecondition "graph runner is not accepting input".

(* [src/core/graph_runner.cpp:294-321] GraphRunner::AddPacket *)
Definition AddPacket (stream : string) (p : Packet) : program Status :=
  operation not_accepting (
    c <-- read cancelled_;
    if (c : bool) then Ret (Cancelled "graph runner is cancelled")
    else
      admitted <-- atomically (fun s : St =>
        match graph_inputs_ s !! stream with
        | None => (Err (NotFound ("graph input stream not found: " +:+ stream)), s)
        | Some i => match admit_input stream p (ir_transport i) with
                    | Err st => (Err st, s)
                    | Okay t => (Okay (ir_config i), put_transport (SInput stream) t s)
                    end
        end);
      match admitted with
      | Err status => Ret status
      | Okay config =>
          r <-- blocking (push_stream (SInput stream) false p);
          (if dropped r then count_drop (SInput stream) ("input." +:+ stream +:+ ".dropped")
           else Ret tt);;;
          if negb (pushed r) then
            if dropped r && bool_decide (qc_policy (gp_queue config) = kDropNewest) then Ret Ok
            else c <-- read cancelled_;
                 Ret (if (c : bool) then Cancelled "graph input queue is closed"
                      else Unavailable ("graph input queue rejected packet: " +:+ stream))
          else ScheduleInput stream;;; Ret Ok
      end).

Definition backwards : Status := Invalid "timestamp bound cannot move backwards".

(* [src/core/graph_runner.cpp:323-346] GraphRunner::SetInputTimestampBound *)
Definition SetInputTimestampBound (stream : string) (b : Timestamp) : program Status :=
  operation not_accepting (
    if is_unset b then Ret (Invalid "timestamp bound cannot be unset")
    else
      found <-- read (fun s : St => option_map (fun i => (ir_config i, nodes_ s !! gp_node (ir_config i)))
                                               (graph_inputs_ s !! stream));
      match found with
      | None => Ret (NotFound ("graph input stream not found: " +:+ stream))
      | Some (_, None) => Ret (NotFound "runtime node not found")
      | Some (config, Some _) =>
          moved <-- atomically (fun s : St =>
            match transport (SInput stream) s with
            | Some t => if negb (is_unset (t_bound t)) && ts_ltb b (t_bound t) then (false, s)
                        else (true, put_transport (SInput stream) (with_bound b t) s)
            | None => (false, s)
            end);
          if negb moved then Ret backwards
          else
            status <-- atomically (deliver_bound (gp_node config) (gp_port config) b);
            Ret (if ok status then Ok else backwards)
      end).

(* [src/core/graph_runner.cpp:348-371] GraphRunner::CloseInputStream *)
Definition CloseInputStream (stream : string) : program Status :=
  operation not_accepting (
    found <-- read (fun s : St => bool_decide (is_Some (graph_inputs_ s !! stream)));
    if negb found then Ret (NotFound ("graph input stream not found: " +:+ stream))
    else
      was_open <-- atomically (fun s : St => (bool_decide (stream ∈ open_inputs_ s),
                                              set_open_inputs (open_inputs_ s ∖ {[stream]}) s));
      if negb was_open then
        Ret (FailedPrecondition ("graph input stream is already closed: " +:+ stream))
      else
        update (modify_transport (SInput stream) (with_closed true));;;
        r <-- blocking (push_stream (SInput stream) true (Event kEndOfStream Done));
        if negb (pushed r) then Ret (Unavailable ("failed to enqueue input EOS: " +:+ stream))
        else ScheduleInput stream;;; Ret Ok).

(** ** Observers *)

Definition register_observer (id : nat) (stream : string) (options : ObserverOptions) (s : St) : St :=
  set_observers (<[stream := default [] (observers_ s !! stream) ++ [id]]> (observers_ s))
    (set_observer_handles ({[id]} ∪ observer_handles_ s) s).

(** The handle of the observer is its identity. *)
(* [src/core/graph_runner.cpp:73-98] GraphRunner::ObserveOutput *)
Definition ObserveOutput (outputs : list string) (stream : string) (has_callback : bool)
    (options : ObserverOptions) : program (Res nat) :=
  let status := check_observe has_callback options outputs stream in
  if negb (ok status) then Ret (Err status)
  else
    id <-- atomically (fun s : St => (next_observer_id_ s, set_next_observer_id (S (next_observer_id_ s)) s));
    update (put_observer id (new_observer stream options));;;
    update (register_observer id stream options);;;
    Ret (Okay id).

(** With the options of the configuration. *)
(* [src/core/graph_runner.cpp:64-71] GraphRunner::ObserveOutput (defaults) *)
Definition ObserveOutputDefault (config : GraphConfig) (stream : string) (has_callback : bool)
  : program (Res nat) :=
  let q := observer_queue (flow_control config) in
  ObserveOutput (map gp_name (goutputs config)) stream has_callback
    (mkObserverOptions (qc_capacity q) (qc_policy q) (observe_timestamp_bounds (flow_control config))).

Definition stop_observer (id : nat) (s : St) : St :=
  match observer_objects s !! id with Some o => put_observer id (observer_stop o) s | None => s end.

(** The worker of a stopped observer leaves when the queue is empty. *)
Definition join_observer (id : nat) : program unit :=
  await (fun s : St => match observer_objects s !! id with
                       | Some o => bool_decide (length (ob_queue o) = 0%nat) && negb (ob_active o)
                       | None => true
                       end).

(** [own]: the call comes from the worker of the observer itself, as when a
    callback cancels its own observation. *)
(* [src/core/graph_runner.cpp:100-124] GraphRunner::CancelObserver *)
Definition CancelObserver (own : bool) (id : nat) : program Status :=
  found <-- atomically (fun s : St =>
    if bool_decide (id ∈ observer_handles_ s) then
      (true, set_observers (List.filter (fun x => negb (bool_decide (x = id))) <$> observers_ s)
               (set_observer_handles (observer_handles_ s ∖ {[id]}) s))
    else (false, s));
  if negb found then Ret (NotFound "observer handle not found")
  else
    update (stop_observer id);;;
    (if own then update (fun s : St => set_retired_observers (retired_observers_ s ++ [id]) s)
     else join_observer id);;;
    Ret Ok.

(* [src/core/graph_runner.cpp:126-146] GraphRunner::WaitForObservedOutput *)
Definition WaitObserved (expired : bool) (id : nat) : program Status :=
  found <-- read (fun s : St => bool_decide (id ∈ observer_handles_ s));
  if negb found then Ret (NotFound "observer handle not found")
  else blocking (fun s : St => match observer_objects s !! id with
                               | None => None
                               | Some o => match WaitForObservedOutput expired o with
                                           | None => None
                                           | Some (st, o') => Some (st, put_observer id o' s)
                                           end
                               end).

(* [src/core/graph_runner.cpp:681-699] GraphRunner::ShutdownObservers *)
Definition ShutdownObservers : program unit :=
  ids <-- atomically (fun s : St =>
    (elements (observer_handles_ s) ++ retired_observers_ s,
     set_retired_observers [] (set_observers ∅ (set_observer_handles ∅ s))));
  for_each ids (fun id => update (stop_observer id);;; join_observer id).

(** ** The error callback and the settings before [Start] *)

(** The runtime leaves the runner; its worker delivers what is queued and ends. *)
(* [src/core/graph_runner.cpp:701-718] GraphRunner::ShutdownErrorCallback *)
Definition ShutdownErrorCallback : program (option ErrorCallbackRuntime) :=
  atomically (fun s : St =>
    (option_map (fun c => mkErrorCallback [] true (received_errors c ++ ec_queue c)) (error_callback_ s),
     set_error_callback None s)).

(* [src/core/graph_runner.cpp:148-173] GraphRunner::SetErrorCallback *)
Definition SetErrorCallback (has_callback : bool) : program Status :=
  r <-- read running_;
  if (r : bool) then Ret (FailedPrecondition "error callback must be set before Start")
  else
    ShutdownErrorCallback;;;
    (if has_callback then update (set_error_callback (Some (mkErrorCallback [] false []))) else Ret tt);;;
    Ret Ok.

(* [src/core/graph_runner.cpp:55-58] GraphRunner::SetSidePacket *)
Definition SetSidePacket (name : string) (p : Packet) : program Status :=
  r <-- read running_;
  if (r : bool) then Ret (FailedPrecondition "side packets must be set before Start")
  else atomically (fun s : St => let '(st, side) := SideSet name p (side_packets_ s) in
                                 (st, set_side_packets side s)).

(** ** Waiting *)

Definition stream_busy (st : Stream) : program bool :=
  size <-- read (fun s : St => match transport st s with Some t => queue_size (t_queue t) | None => 0%nat end);
  if negb (bool_decide (size = 0%nat)) then Ret true
  else read (fun s : St => match transport st s with Some t => scheduled t | None => false end).

Definition executor_busy (name : string) : program bool :=
  queued <-- read (fun s : St => match executors_ s !! name with Some e => length (ex_tasks e) | None => 0%nat end);
  if negb (bool_decide (queued = 0%nat)) then Ret true
  else read (fun s : St => match executors_ s !! name with
                           | Some e => negb (bool_decide (ex_active e = 0%nat)) | None => false end).

Definition observer_busy (id : nat) : program bool :=
  read (fun s : St => match observer_objects s !! id with
                      | Some o => negb (bool_decide (length (ob_queue o) = 0%nat)) || ob_active o
                      | None => false end).

(** Whether any test answers yes; all of them are made. *)
Fixpoint any_busy {A} (l : list A) (test : A -> program bool) (acc : bool) : program bool :=
  match l with
  | [] => Ret acc
  | x :: l => b <-- test x; any_busy l test (acc || b)
  end.

(** One round over the streams, the executors and the observers. *)
Definition poll_idle : program bool :=
  ins <-- read (fun s : St => (map_to_list (graph_inputs_ s)).*1);
  b1 <-- any_busy ins (fun n => stream_busy (SInput n)) false;
  n <-- read (fun s : St => length (edges_ s));
  b2 <-- any_busy (seq 0 n) (fun i => stream_busy (SEdge i)) b1;
  ex <-- read (fun s : St => (map_to_list (executors_ s)).*1);
  b3 <-- any_busy ex executor_busy b2;
  obs <-- read (fun s : St => elements (observer_handles_ s));
  b4 <-- any_busy obs observer_busy b3;
  Ret (negb b4).

(** [polls] is the number of rounds that fit into the timeout. *)
Fixpoint poll_loop (polls : nat) : program Status :=
  idle <-- poll_idle;
  if (idle : bool) then last_error
  else match polls with
       | O => Ret (Unavailable "graph wait idle timed out")
       | S polls => poll_loop polls
       end.

Definition not_running : Status := FailedPrecondition "graph runner is not running".

(* [src/core/graph_runner.cpp:373-403] GraphRunner::WaitUntilIdle *)
Definition WaitUntilIdle (polls : nat) : program Status := operation not_running (poll_loop polls).

(** The predicate of the wait. *)
Definition inputs_done (s : St) : bool :=
  (bool_decide (open_inputs_ s = ∅) && bool_decide (open_source_nodes_ s = ∅) &&
   (active_sources_ (source_table s) =? 0)) || cancelled_ s.

(* [src/core/graph_runner.cpp:405-429] GraphRunner::WaitUntilDone *)
Definition WaitUntilDone (expired : bool) (polls : nat) : program Status :=
  operation not_running (
    finished <-- blocking (fun s : St => if inputs_done s then Some (true, s)
                                         else if expired then Some (false, s) else None);
    if negb finished then Ret (Unavailable "graph wait done timed out waiting for input close")
    else
      c <-- read cancelled_;
      if (c : bool) then
        e <-- last_error; Ret (if ok e then Cancelled "graph was cancelled" else e)
      else WaitUntilIdle polls).

(** ** Dynamic sources *)

Definition on_table {A} (f : SourceTable -> A * SourceTable) (s : St) : A * St :=
  let '(a, t) := f (source_table s) in (a, set_source_table t s).
Definition update_table (f : SourceTable -> SourceTable) : program unit :=
  update (fun s : St => set_source_table (f (source_table s)) s).

(** A control operation runs on the one thread of the control executor; the
    caller waits for its result.  The limit of 64 operations that wait is not
    modelled. *)
(* [src/core/graph_runner.cpp:915-931] GraphRunner::SubmitControl *)
Definition SubmitControl (task : program Status) : program Status :=
  available <-- read (fun s : St => running_ s && bool_decide (is_Some (control_executor_ s)));
  if negb available then Ret (FailedPrecondition "graph control executor is not running")
  else
    blocking (fun s : St => match control_executor_ s with
                            | Some false => Some (tt, set_control_executor (Some true) s)
                            | _ => None
                            end);;;
    r <-- task;
    update (fun s : St => set_control_executor (option_map (fun _ => false) (control_executor_ s)) s);;;
    Ret r.

(** The token that the packet carries is named by its drain state. *)
(* [src/core/graph_runner.cpp:1026-1039] GraphRunner::AddSourcePacket (forwarding) *)
Definition forward_source (id : string) (p : Packet) (r : Forwarded) : program Status :=
  match r with
  | Answer st => Ret st
  | Forward input d =>
      entered <-- atomically (on_table (enter_drain d));
      if negb entered then Ret (Cancelled ("source is draining: " +:+ id))
      else AddPacket input (set_metadata (AddLifetimeToken p (Some d)) "source_id" (MString id))
  end.

(* [src/core/graph_runner.cpp:1004-1040] GraphRunner::AddSourcePacket *)
Definition AddSourcePacket (id : string) (p : Packet) : program Status :=
  r <-- atomically (fun s : St => on_table (source_packet id (event p) (clock_us s)) s);
  forward_source id p r.

(** [expired]: the drain timeout passes before the packets are released. *)
(* [src/core/graph_runner.cpp:1048-1097] GraphRunner::RemoveSourceImpl *)
Definition RemoveSourceImpl (expired : bool) (id : string) : program Status :=
  found <-- atomically (on_table (begin_remove id));
  match found with
  | None => Ret (NotFound ("source not found: " +:+ id))
  | Some src =>
      update_table (close_drain (Sources.drain src));;;
      completed <-- blocking (fun s : St => if drained (Sources.drain src) (source_table s)
                                            then Some (true, s)
                                            else if expired then Some (false, s) else None);
      if negb completed then
        update_table (stall_source id (Sources.drain src));;;
        Ret (Unavailable ("source drain timed out: " +:+ id))
      else
        update_table (erase_source id);;;
        update (increment "sources.removed");;;
        Ret Ok
  end.

(** [child_start] is what [Start] of the source's subgraph answers. *)
(* [src/core/graph_runner.cpp:1103-1139] GraphRunner::RestartSourceImpl *)
Definition RestartSourceImpl (child_start : Status) (id : string) : program Status :=
  found <-- atomically (on_table (begin_restart id));
  match found with
  | None => Ret (NotFound ("source not found: " +:+ id))
  | Some src =>
      atomically (on_table (finish_restart id (Sources.drain src) (has_child src)
                              (if has_child src then child_start else Ok)))
  end.

(* [src/core/graph_runner.cpp:1042-1046] GraphRunner::RemoveSource *)
Definition RemoveSource (expired : bool) (id : string) : program Status :=
  SubmitControl (RemoveSourceImpl expired id).
(* [src/core/graph_runner.cpp:1099-1101] GraphRunner::RestartSource *)
Definition RestartSource (child_start : Status) (id : string) : program Status :=
  SubmitControl (RestartSourceImpl child_start id).

(** ** Life cycle *)

(** A new runner, when the clock shows [now]. *)
(* [src/core/graph_runner.cpp:43-44] GraphRunner::GraphRunner *)
Definition NewGraphRunner (now : Z) : St :=
  mkState false false false 0 ∅ None ∅ [] [] ∅ ∅ ∅ ∅ ∅ ∅ [] 1 ∅ ∅ (mkTable ∅ ∅ ∅ 0 0)
    (mkSide ∅) Metrics.NewMetrics (NewTrace 4096) Ok None now [].

(** The graph, the node types it may use, and the files of source templates. *)
Section graph.
Context (config : GraphConfig) (classes : gmap string (NodeClass NS * NS)).
Context (load_template : string -> Res GraphConfig).

Definition registry_ : NodeRegistry.Registry :=
  NodeRegistry.mkRegistry ((fun ci => mkNodeType NS ci.1 ci.2) <$> classes).

(** The subgraph of a source: whether there is one, or why it is refused. *)
(* [src/core/graph_runner.cpp:947-981] GraphRunner::AddSourceImpl (template) *)
Definition source_template (slot : string) (c : SourceSlotConfig) (options : ConfigValue) : Res bool :=
  if bool_decide (subgraph_template c = "") then Okay false
  else match load_template (subgraph_template c) with
       | Err st => Err (Invalid ("source template " +:+ slot +:+ ": " +:+ message st))
       | Okay g =>
           let ns := match AsObject options with
                     | Some o => apply_overrides (map_to_list o) (nodes g)
                     | None => nodes g
                     end in
           let child := mkGraphConfig (version g) (gname g) (executors g) ns (edges g) (ginputs g)
                          (goutputs g) (source_slots g) (gside_packets g) (flow_control g) in
           let valid := Validate child registry_ in
           if negb (ok valid) then
             Err (Invalid ("source template " +:+ slot +:+ ": " +:+ message valid))
           else
             let st := check_observe true default_observer_options (map gp_name (goutputs child))
                         (output_stream c) in
             if ok st then Okay true else Err st
       end.

(* [src/core/graph_runner.cpp:933-1002] GraphRunner::AddSourceImpl *)
Definition AddSourceImpl (child_start : Status) (slot id : string) (options : ConfigValue)
  : program Status :=
  checked <-- read (fun s : St => check_source (dom (graph_inputs_ s)) slot id (source_table s));
  match checked with
  | Err st => Ret st
  | Okay c =>
      match source_template slot c options with
      | Err st => Ret st
      | Okay child =>
          status <-- atomically (on_table (insert_source slot id (input_stream c) child));
          if negb (ok status) then Ret status
          else if child && negb (ok child_start) then
            update_table (abandon_source id);;;
            Ret (Internal ("source subgraph start failed: " +:+ message child_start))
          else update (increment "sources.added");;; Ret Ok
      end
  end.

(* [src/core/graph_runner.cpp:908-913] GraphRunner::AddSource *)
Definition AddSource (child_start : Status) (slot id : string) (options : ConfigValue)
  : program Status := SubmitControl (AddSourceImpl child_start slot id options).

Definition with_node (id : string) {A} (none : A) (f : RuntimeNode NS -> program A) : program A :=
  n <-- read (fun s : St => nodes_ s !! id);
  match n with Some n => f n | None => Ret none end.

Definition stop_executor (name : string) (s : St) : St :=
  match executors_ s !! name with
  | Some e => set_executors (<[name := mkExec (workers e) false (ex_tasks e) (ex_active e)]> (executors_ s)) s
  | None => s
  end.
Definition executor_drained (name : string) (s : St) : bool :=
  match executors_ s !! name with
  | Some e => bool_decide (length (ex_tasks e) = 0%nat) && bool_decide (ex_active e = 0%nat)
  | None => true
  end.

Definition retire (l : list (string * NodeObj NS)) (s : St) : St :=
  set_retired_nodes (retired_nodes s ++ l) s.

(** Nothing of the session is left. *)
Definition clear_session (s : St) : St :=
  retire (map (fun kv => (kv.1, rn_node kv.2)) (map_to_list (nodes_ s))) (
  set_control_executor None (set_executors ∅ (set_source_table (set_active 0 (source_table s)) (set_open_source_nodes ∅
    (set_open_inputs ∅ (set_graph_outputs ∅ (set_graph_inputs ∅ (set_routes ∅ (set_edges []
      (set_lifecycle_order [] (set_nodes ∅ s))))))))))).

(** [control_executor_->Stop(false)]: the operation that runs is waited for. *)
Definition stop_control : program unit :=
  blocking (fun s : St => match control_executor_ s with
                          | Some true => None
                          | _ => Some (tt, set_control_executor None s)
                          end).

(** The test under [lifecycle_mutex_]; a [Stop] that finds another one under way waits for it, as
    [transition_mutex_] makes it wait. *)
(* [src/core/graph_runner.cpp:438-447] GraphRunner::Stop (begin) *)
Definition begin_stop : program bool :=
  blocking (fun s : St =>
    if stopping_ s then None
    else if negb (running_ s) && bool_decide (nodes_ s = ∅) && bool_decide (executors_ s = ∅)
    then Some (false, s)
    else Some (true, set_stopping true (set_running false s))).

(** What follows when the nodes and the subgraphs of sources have been asked to stop. *)
(* [src/core/graph_runner.cpp:457-488] GraphRunner::Stop (finish) *)
Definition finish_stop : program unit :=
  CloseQueues;;;
  stop_control;;;
  ex <-- read (fun s : St => (map_to_list (executors_ s)).*1);
  for_each ex (fun name => update (stop_executor name);;; await (executor_drained name));;;
  await (fun s : St => bool_decide (active_operations_ s = 0%nat));;;
  order <-- read lifecycle_order_;
  for_each (rev order) (fun id => with_node id tt (fun n =>
    node_prog id (Node.Stop (rn_class n));;; Ret tt));;;
  for_each (rev order) (fun id => with_node id tt (fun n =>
    node_prog id (Node.Close (rn_class n));;; Ret tt));;;
  update clear_session;;;
  update (set_stopping false).

(* [src/core/graph_runner.cpp:437-489] GraphRunner::Stop *)
Definition Stop : program unit :=
  go <-- begin_stop;
  if negb go then Ret tt
  else
    update (set_cancelled true);;;
    update_table (set_sources ∅);;;
    ids <-- read (fun s : St => (map_to_list (nodes_ s)).*1);
    for_each ids (fun id => with_node id tt (fun n => node_prog id (RequestStop (rn_class n))));;;
    finish_stop.

(* [src/core/graph_runner.cpp:49-53] GraphRunner::~GraphRunner *)
Definition Destroy : program unit := Stop;;; ShutdownObservers;;; ShutdownErrorCallback;;; Ret tt.

(** Loops of [Start] that leave at the first error. *)
Fixpoint for_status {A} (l : list A) (f : A -> program Status) : program Status :=
  match l with
  | [] => Ret Ok
  | x :: l => st <-- f x; if ok st then for_status l f else Ret st
  end.

(** The scheduler of an executor starts with no task. *)
(* [src/core/graph_runner.cpp:197-206] GraphRunner::Start (executors) *)
Definition start_executor (c : ExecutorConfig) (s : St) : St :=
  match executors_ s !! ex_name c with
  | Some _ => s
  | None => set_executors (<[ex_name c := mkExec (if bool_decide (ex_threads c = 0%nat) then 1 else ex_threads c)
                                                 true [] 0]> (executors_ s)) s
  end.

Definition effective_contract (c : NodeConfig) (k : NodeContract) : NodeContract :=
  mkContract (inputs k) (outputs k) (required_options k) (effective_policy c k) (Graph.effective_trigger c k).

Definition new_runtime_node (c : NodeConfig) (ci : NodeClass NS * NS) : RuntimeNode NS :=
  mkRuntimeNode c (effective_contract c (Contract ci.1)) ci.1 (new_node ci.2) empty_inputs false.

(** A node is created, configured and opened (or closed again) before it is entered
    in the table.  Nothing else knows it yet, so this is one action: [nrun] with a handler
    for the metrics, as there is no context to emit through. *)
Definition quiet : Handler unit :=
  mkHandler (fun _ _ w => (Cancelled "graph is cancelled", w)) (fun _ w => w) (fun _ _ w => w)
            (fun w => (0, w)).

(* [src/core/graph_runner.cpp:214-235] GraphRunner::Start (nodes) *)
Definition open_node (c : NodeConfig) : program Status :=
  match classes !! nc_type c with
  | None => Ret (NotFound ("node type disappeared: " +:+ nc_type c))
  | Some ci =>
      let n := new_runtime_node c ci in
      let '(st, o, _) := nrun quiet (nbind (Configure ci.1 (nc_options c)) (fun r =>
                           if ok r then Open ci.1 else NRet r)) (rn_node n) tt in
      if negb (ok st) then
        let '(_, o', _) := nrun quiet (Node.Close ci.1) o tt in
        update (retire [(nc_id c, o')]);;;
        Ret (Internal ("node " +:+ nc_id c +:+ ": " +:+ message st))
      else
        update (fun s : St =>
          let s1 := put_node (nc_id c) (mkRuntimeNode c (rn_contract n) ci.1 o empty_inputs false) s in
          let s2 := set_lifecycle_order (lifecycle_order_ s1 ++ [nc_id c]) s1 in
          if bool_decide (length (inputs (rn_contract n)) = 0%nat)
          then set_open_source_nodes ({[nc_id c]} ∪ open_source_nodes_ s2) s2 else s2);;;
        Ret Ok
  end.

(* [src/core/graph_runner.cpp:237-244] GraphRunner::Start (edges) *)
Definition add_edge (e : EdgeConfig) (s : St) : St :=
  let key := from_node e +:+ "." +:+ from_port e in
  set_routes (<[key := default [] (routes_ s !! key) ++ [length (edges_ s)]]> (routes_ s))
    (set_edges (edges_ s ++ [mkEdgeRuntime e (new_transport (e_queue e))]) s).

(* [src/core/graph_runner.cpp:245-252] GraphRunner::Start (inputs) *)
Definition add_input (i : GraphPortConfig) (s : St) : St :=
  set_open_inputs ({[gp_name i]} ∪ open_inputs_ s)
    match graph_inputs_ s !! gp_name i with
    | Some _ => s
    | None => set_graph_inputs (<[gp_name i := mkInputRuntime i (new_transport (gp_queue i))]>
                                  (graph_inputs_ s)) s
    end.

(* [src/core/graph_runner.cpp:255-257] GraphRunner::Start (outputs) *)
Definition add_output (o : GraphPortConfig) (s : St) : St :=
  let key := gp_node o +:+ "." +:+ gp_port o in
  set_graph_outputs (<[key := default [] (graph_outputs_ s !! key) ++ [gp_name o]]> (graph_outputs_ s)) s.

(* [src/core/graph_runner.cpp:24-26] PacketFromConfig *)
Definition PacketFromConfig (v : ConfigValue) : Packet := Make (PlConfig v) (FromMicroseconds 0).

(* [src/core/graph_runner.cpp:258-266] GraphRunner::Start (side packets) *)
Definition add_side_packet (kv : string * ConfigValue) : program Status :=
  atomically (fun s : St =>
    match SideFind kv.1 (side_packets_ s) with
    | Some _ => (Ok, s)
    | None => let '(st, side) := SideSet kv.1 (PacketFromConfig kv.2) (side_packets_ s) in
              (st, set_side_packets side s)
    end).

(** The tables of the session, with the slots of the sources. *)
Definition wire (s : St) : St :=
  let s1 := fold_left (fun s e => add_edge e s) (edges config) s in
  let s2 := fold_left (fun s i => add_input i s) (ginputs config) s1 in
  let t := source_table s2 in
  let slots := fold_left (fun m c => <[slot_name c := c]> m) (source_slots config) ∅ in
  let s3 := set_source_table (mkTable slots (sources_ t) (drains t) (next_drain t) (active_sources_ t)) s2 in
  fold_left (fun s o => add_output o s) (goutputs config) s3.

(* [src/core/graph_runner.cpp:269-283] GraphRunner::Start (start of the nodes) *)
Definition start_node (id : string) : program Status :=
  with_node id Ok (fun n =>
    ctx <-- read (process_context id n ∅);
    status <-- node_prog id (Node.Start (rn_class n) ctx);
    if ok status then Ret Ok
    else SetError (Internal ("node " +:+ id +:+ " start failed: " +:+ message status));;; Ret status).

(** The packets that break the cycles of the graph. *)
(* [src/core/graph_runner.cpp:284-287] GraphRunner::Start (back edges) *)
Definition prime_edge (i : nat) : program unit :=
  e <-- read (fun s : St => option_map er_config (edges_ s !! i));
  match e with
  | Some c => if back_edge c then EnqueueEdge i (PacketFromConfig (initial_packet c));;; Ret tt else Ret tt
  | None => Ret tt
  end.

Definition failed (status : Status) : program Status := Stop;;; Ret status.

(* [src/core/graph_runner.cpp:182-292] GraphRunner::Start *)
Definition Start : program Status :=
  before <-- read (fun s : St => (running_ s, stopping_ s));
  if before.1 then Ret (AlreadyExists "graph runner is already running")
  else if before.2 then Ret (FailedPrecondition "graph runner is stopping")
  else
    let valid := Validate config registry_ in
    if negb (ok valid) then Ret valid
    else
      update (set_cancelled false);;;
      update (set_last_error Ok);;;
      for_each (executors config) (fun c => update (start_executor c));;;
      update (set_control_executor (Some false));;;
      opened <-- for_status (nodes config) open_node;
      if negb (ok opened) then failed opened
      else
        update wire;;;
        sides <-- for_status (map_to_list (gside_packets config)) add_side_packet;
        if negb (ok sides) then failed sides
        else
          update (set_running true);;;
          order <-- read lifecycle_order_;
          started <-- for_status order start_node;
          if negb (ok started) then failed started
          else
            n <-- read (fun s : St => length (edges_ s));
            for_each (seq 0 n) prime_edge;;;
            Ret Ok.
End graph.

(** ** Introspection *)

(* [include/rkavp/runtime_info.hpp:12-17] NodeRuntimeInfo *)
Record NodeRuntimeInfo := mkNodeInfo {
  ni_id : string; ni_executor : string; ni_state : NodeState; ni_pending : nat }.
(* [include/rkavp/runtime_info.hpp:19-25] ExecutorRuntimeInfo *)
Record ExecutorRuntimeInfo := mkExecutorInfo { xi_name : string; xi_queued : nat; xi_active : nat }.
(* [include/rkavp/runtime_info.hpp:27-34] StreamRuntimeInfo *)
Record StreamRuntimeInfo := mkStreamInfo {
  st_name : string; st_open : bool; st_last : Timestamp; st_bound : Timestamp;
  st_depth : nat; st_dropped : Z }.
(* [include/rkavp/runtime_info.hpp:36-42] GraphRuntimeInfo *)
Record GraphRuntimeInfo := mkGraphInfo {
  gi_running : bool; gi_cancelled : bool; gi_nodes : list NodeRuntimeInfo;
  gi_executors : list ExecutorRuntimeInfo; gi_streams : list StreamRuntimeInfo }.

Definition node_info (kv : string * RuntimeNode NS) : NodeRuntimeInfo :=
  mkNodeInfo kv.1 (nc_executor (rn_config kv.2)) (state_ (rn_node kv.2))
    (sum_list (map (fun pm => size pm.2) (map_to_list (pending (rn_inputs kv.2))))).
Definition stream_info (name : string) (t : Transport) : StreamRuntimeInfo :=
  mkStreamInfo name (negb (t_closed t)) (last_timestamp t) (t_bound t) (queue_size (t_queue t)) (t_dropped t).

(** The parts are read one after the other; each read is one action.  The state
    of a node is the enumerator where the code prints its number; the executors are
    those of the graph, without the waiting statistics the scheduler keeps. *)
(* [src/core/graph_runner.cpp:1157-1198] GraphRunner::GetRuntimeInfo *)
Definition GetRuntimeInfo : program GraphRuntimeInfo :=
  flags <-- read (fun s : St => (running_ s, cancelled_ s));
  operation (mkGraphInfo flags.1 flags.2 [] [] []) (
    ns <-- read (fun s : St => map node_info (map_to_list (nodes_ s)));
    ex <-- read (fun s : St => map (fun kv => mkExecutorInfo kv.1 (length (ex_tasks kv.2)) (ex_active kv.2))
                                   (map_to_list (executors_ s)));
    ins <-- read (fun s : St => map (fun kv => stream_info kv.1 (ir_transport kv.2))
                                    (map_to_list (graph_inputs_ s)));
    es <-- read (fun s : St => map (fun e => stream_info (edge_name (er_config e) +:+ "->" +:+
                                   to_node (er_config e) +:+ "." +:+ to_port (er_config e)) (er_transport e))
                                   (edges_ s));
    Ret (mkGraphInfo flags.1 flags.2 ns ex (ins ++ es))).

(** ** The threads of a session *)

Definition discard {A} (m : program A) : program unit := m;;; Ret tt.

(** What the application, the nodes' own threads and [Start] run. *)
Inductive client (config : GraphConfig) (classes : gmap string (NodeClass NS * NS))
    (load_template : string -> Res GraphConfig) : program unit -> Prop :=
| client_add stream p : client _ _ _ (discard (AddPacket stream p))
| client_bound stream b : client _ _ _ (discard (SetInputTimestampBound stream b))
| client_close stream : client _ _ _ (discard (CloseInputStream stream))
| client_idle polls : client _ _ _ (discard (WaitUntilIdle polls))
| client_done expired polls : client _ _ _ (discard (WaitUntilDone expired polls))
| client_info : client _ _ _ (discard GetRuntimeInfo)
| client_cancel : client _ _ _ Cancel
| client_observe stream options : client _ _ _
    (discard (ObserveOutput (map gp_name (goutputs config)) stream true options))
| client_unobserve own id : client _ _ _ (discard (CancelObserver own id))
| client_observed expired id : client _ _ _ (discard (WaitObserved expired id))
| client_source start slot id options : client _ _ _
    (discard (AddSource classes load_template start slot id options))
| client_source_packet id p : client _ _ _ (discard (AddSourcePacket id p))
| client_unsource expired id : client _ _ _ (discard (RemoveSource expired id))
| client_resource start id : client _ _ _ (discard (RestartSource start id))
| client_node id (m : NodeM (NodeObj NS) unit) : client _ _ _ (node_prog id m)
| client_start order : client _ _ _ (discard (for_status order start_node))
| client_prime l : client _ _ _ (for_each l prime_edge).

Definition finish_task (name : string) (s : St) : St :=
  match executors_ s !! name with
  | Some e => set_executors (<[name := mkExec (workers e) (ex_running e) (ex_tasks e) (ex_active e - 1)]>
                               (executors_ s)) s
  | None => s
  end.

(** A thread that appears: a client, or a worker with the next task of its executor. *)
Inductive spawn config classes load_template : St -> program unit -> St -> Prop :=
| spawn_client s p : client config classes load_template p -> spawn _ _ _ s p s
| spawn_task s name e st rest thread :
    executors_ s !! name = Some e -> ex_tasks e = st :: rest -> (ex_active e < workers e)%nat ->
    spawn _ _ _ s (drain_task thread st;;; update (finish_task name))
      (set_executors (<[name := mkExec (workers e) (ex_running e) rest (S (ex_active e))]> (executors_ s)) s).

(** The clock goes on and the workers of observers and of the error callback do
    their work. *)
Definition environment (s s' : St) : Prop :=
  exists objs callback now, s' = set_clock_us now (set_error_callback callback (set_observer_objects objs s)).

Definition session_step config classes load_template :=
  pstep (spawn config classes load_template) environment.

(** A session whose threads are about to start: nothing queued, nothing posted. *)
Definition session_start (s : St) : Prop :=
  (forall st t, transport st s = Some t -> queue (t_queue t) = [] /\ scheduled t = false) /\
  (forall name e, executors_ s !! name = Some e -> ex_tasks e = []) /\
  active_operations_ s = 0%nat /\ ok (last_error_ s) = true.
End runner.
