(* ===== verification/RunnerSettings.v ===== *)
(** * The settings of a runner

    [src/core/graph_runner.cpp]: the clock, the resource manager and the services that
    [GraphRunner] hands to its nodes, as far as the application can change them.  Objects are
    their identities. *)

From S2P Require Import Prelude Status Services.
Import Services.ServiceRegistry.

(** The members of [GraphRunner] that are settings. *)
(* [include/rkavp/graph_runner.hpp:217-219] GraphRunner (settings) *)
Record Settings := mkSettings {
  clock_ : nat;
  hardware_context_ : nat;
  resources_ : option nat;
  services_ : Services }.

(** [std::make_shared<SteadyClock>()] and the other default members have been made. *)
(* [src/core/graph_runner.cpp:43-47] GraphRunner::GraphRunner (services) *)
Definition NewSettings (clock hardware : nat) (resources : option nat) : Settings :=
  mkSettings clock hardware resources
    (ServiceSet "IClock" "rkavp.clock" (Some clock)
       (ServiceSet "HardwareContextService" "rkavp.hardware" (Some hardware) ∅).2).2.

(* [src/core/graph_runner.cpp:60-62] GraphRunner::SetResourceManager *)
Definition SetResourceManager (running : bool) (resources : option nat) (s : Settings) : Settings :=
  match resources with
  | Some r => if negb running then mkSettings (clock_ s) (hardware_context_ s) (Some r) (services_ s) else s
  | None => s
  end.

(* [src/core/graph_runner.cpp:175-180] GraphRunner::SetClock *)
Definition SetClock (running : bool) (clock : option nat) (s : Settings) : Settings :=
  match clock with
  | Some c =>
      if negb running
      then mkSettings c (hardware_context_ s) (resources_ s)
             (ServiceReplace "IClock" "rkavp.clock" (Some c) (services_ s)).2
      else s
  | None => s
  end.

(** What the application does to the settings; [services()] gives it the registry. *)
Inductive SettingsOp :=
| OpSetResourceManager (running : bool) (resources : option nat)
| OpSetClock (running : bool) (clock : option nat)
| OpRegister (T name : string) (service : option nat).

Definition settings_op (s : Settings) (op : SettingsOp) : Settings :=
  match op with
  | OpSetResourceManager running r => SetResourceManager running r s
  | OpSetClock running c => SetClock running c s
  | OpRegister T name v =>
      mkSettings (clock_ s) (hardware_context_ s) (resources_ s) (ServiceSet T name v (services_ s)).2
  end.

(** What a node that asks for the clock or the hardware gets is what the runner uses. *)
Definition agrees (s : Settings) : Prop :=
  services_ s !! "rkavp.clock" = Some (mkEntry "IClock" (clock_ s)) /\
  services_ s !! "rkavp.hardware" = Some (mkEntry "HardwareContextService" (hardware_context_ s)).

Lemma service_set_keeps T name v s k e : s !! k = Some e -> (ServiceSet T name v s).2 !! k = Some e.
Proof.
  intros Hk. unfold ServiceSet. destruct v as [v|]; [|done]. case_bool_decide; [done|].
  destruct (s !! name) eqn:E; [done|]. simpl. rewrite lookup_insert_ne; [done|congruence].
Qed.

Lemma agrees_op s op : agrees s -> agrees (settings_op s op).
Proof.
  intros [Hc Hh]. destruct op as [running r|running c|T name v]; simpl.
  - unfold SetResourceManager. by destruct r, running.
  - unfold SetClock. destruct c as [c|]; [|done]. destruct running; [done|]. simpl.
    split; simpl; [apply lookup_insert_eq|by rewrite lookup_insert_ne].
  - by split; apply service_set_keeps.
Qed.

(** However the application changes the clock and the resource manager and registers services of
    its own, nodes that look up the clock or the hardware context get the ones the runner uses;
    and while the graph runs neither the clock nor the resource manager changes. *)
Theorem settings_agree clock hardware resources ops s :
  s = fold_left settings_op ops (NewSettings clock hardware resources) ->
  ServiceGet "IClock" "rkavp.clock" (services_ s) = Some (clock_ s) /\
  ServiceGet "HardwareContextService" "rkavp.hardware" (services_ s) = Some hardware /\
  (forall c, SetClock true c s = s) /\ (forall r, SetResourceManager true r s = s).
Proof.
  intros ->. assert (forall s0, agrees s0 -> hardware_context_ s0 = hardware ->
    agrees (fold_left settings_op ops s0) /\ hardware_context_ (fold_left settings_op ops s0) = hardware) as Hall.
  { induction ops as [|op ops IH]; intros s0 H0 Hw; simpl; [done|]. apply IH; [by apply agrees_op|].
    by destruct op as [[] []|[] []|]. }
  destruct (Hall (NewSettings clock hardware resources)) as [[Hc Hh] Hw]; [by split|done|].
  unfold ServiceGet. rewrite Hc, Hh, Hw. split_and!; [done|done|by intros []|by intros []].
Qed.
