(* ===== verification/RunnerFacts.v ===== *)
(** * No packet is left behind

    The invariant of a running session, over every interleaving of its threads.

    A thread that has pushed a packet owes a [Kick] to the stream until it has
    seen the [scheduled] flag set or has set it itself; the thread or the queued
    task that is to drain a stream holds its token [Tok]; a thread that failed
    to post owes an error, and a thread that has recorded the error owes the
    cancellation.  [I] ties these obligations to the state.  When all threads have
    finished and no task is queued nothing is owed, so a stream with a packet in
    its queue can only be one of a cancelled graph. *)

From S2P Require Import Prelude Status Timestamp Values BoundedQueue Telemetry Contract Node Registry Services GraphConfig Graph InputSync Observers Sources Atomic RunnerState Runner.
From stdpp Require Import gmultiset.
Local Open Scope nat_scope.
Local Open Scope prog_scope.

#[local] Arguments Atomic.bind : simpl never.
#[local] Arguments Atomic.wp : simpl never.

Inductive Obl :=
| Tok (st : Stream)
| Kick (st : Stream)
| ErrOwed
| CancelOwed
| OpOwed.
#[export] Instance Obl_eq_dec : EqDecision Obl.
Proof. solve_decision. Defined.
#[export] Instance Obl_countable : Countable Obl.
Proof.
  refine (inj_countable'
    (fun o => match o with
              | Tok st => inl (inl st) | Kick st => inl (inr st)
              | ErrOwed => inr 0 | CancelOwed => inr 1 | OpOwed => inr 2
              end)
    (fun x => match x with
              | inl (inl st) => Tok st | inl (inr st) => Kick st
              | inr 0 => ErrOwed | inr 1 => CancelOwed | inr _ => OpOwed
              end) _).
  by intros [].
Defined.

Abbreviation Owed := (gmultiset Obl).

Section facts.
Context {NS : Type}.
Abbreviation St := (State NS).
Implicit Types (s : St) (M F O : Owed) (st : Stream).

(** ** Tasks *)

Definition tasks_of (m : gmap string Executor) : list Stream :=
  concat (map (fun kv => ex_tasks kv.2) (map_to_list m)).
Definition queued (st : Stream) (m : gmap string Executor) : nat :=
  length (filter (fun x => x = st) (tasks_of m)).

Lemma queued_split m name e st : m !! name = Some e ->
  queued st m = length (filter (fun x => x = st) (ex_tasks e)) + queued st (delete name m).
Proof.
  intros He. unfold queued, tasks_of.
  rewrite <- (map_to_list_delete m name e He). simpl. by rewrite list.filter_app, length_app.
Qed.

Lemma queued_insert m name e e' st : m !! name = Some e ->
  queued st (<[name := e']> m) + length (filter (fun x => x = st) (ex_tasks e)) =
  queued st m + length (filter (fun x => x = st) (ex_tasks e')).
Proof.
  intros He. rewrite (queued_split m name e st He).
  rewrite (queued_split (<[name := e']> m) name e' st (lookup_insert_eq _ _ _)).
  rewrite delete_insert_eq. lia.
Qed.

(** ** Streams *)

Lemma transport_target st s : is_Some (transport st s) <-> is_Some (stream_target st s).
Proof.
  destruct st as [i|n]; simpl; [destruct (edges_ s !! i)|destruct (graph_inputs_ s !! n)]; simpl;
    split; intros [? ?]; eauto; done.
Qed.

Lemma transport_put st st' t s : is_Some (transport st s) ->
  transport st' (put_transport st t s) = if bool_decide (st' = st) then Some t else transport st' s.
Proof.
  intros Hs. case_bool_decide as E; destruct st as [i|n], st' as [i'|n']; simplify_eq/=; try done.
  - rewrite list_lookup_alter_eq. by destruct (edges_ s !! i); destruct Hs.
  - rewrite lookup_alter_eq. by destruct (graph_inputs_ s !! n); destruct Hs.
  - rewrite list_lookup_alter_ne; [done|]. congruence.
  - rewrite lookup_alter_ne; [done|]. congruence.
Qed.

Lemma put_transport_rest st t s :
  cancelled_ (put_transport st t s) = cancelled_ s /\ last_error_ (put_transport st t s) = last_error_ s /\
  executors_ (put_transport st t s) = executors_ s /\
  active_operations_ (put_transport st t s) = active_operations_ s.
Proof. by destruct st. Qed.

(** ** The invariant *)

Abbreviation owes o M := (0 < multiplicity o M).

Record I (s : St) (M : Owed) : Prop := mkI {
  I_token : forall st, multiplicity (Tok st) M + queued st (executors_ s) =
              match transport st s with Some t => Nat.b2n (scheduled t) | None => 0 end;
  I_kick : forall st t, transport st s = Some t -> queue (t_queue t) <> [] ->
              cancelled_ s = true \/ owes CancelOwed M \/ owes ErrOwed M \/ scheduled t = true \/
              owes (Kick st) M;
  I_error : ok (last_error_ s) = false -> cancelled_ s = true \/ owes CancelOwed M;
  I_operations : active_operations_ s = multiplicity OpOwed M }.

Abbreviation wp := (Atomic.wp I).
Abbreviation neutral := (Atomic.neutral I).

(** What the invariant reads. *)
Definition same_core (s s' : St) : Prop :=
  (forall st, transport st s' = transport st s) /\ cancelled_ s' = cancelled_ s /\
  last_error_ s' = last_error_ s /\ executors_ s' = executors_ s /\
  active_operations_ s' = active_operations_ s.

Lemma same_core_refl s : same_core s s.
Proof. by split_and!. Qed.
Lemma same_core_trans s1 s2 s3 : same_core s1 s2 -> same_core s2 s3 -> same_core s1 s3.
Proof.
  intros (A1 & A2 & A3 & A4 & A5) (B1 & B2 & B3 & B4 & B5). split_and!; try congruence.
Qed.

Lemma I_same_core s s' M : same_core s s' -> I s M -> I s' M.
Proof.
  intros (E1 & E2 & E3 & E4 & E5) [H1 H2 H3 H4].
  split; rewrite ?E2, ?E3, ?E4, ?E5; try done.
  - intros st. by rewrite E1.
  - intros st t. rewrite E1. apply H2.
Qed.

Lemma neutral_core {B} (f : St -> B * St) : (forall s, same_core s (f s).2) -> neutral (atomically f).
Proof. intros Hf. apply neutral_atomically. intros s M. by apply I_same_core. Qed.

Lemma neutral_update_core (f : St -> St) : (forall s, same_core s (f s)) -> neutral (update f).
Proof. intros Hf. by apply neutral_core. Qed.

Lemma neutral_blocking_core {B} (f : St -> option (B * St)) :
  (forall s b s', f s = Some (b, s') -> same_core s s') -> neutral (blocking f).
Proof. intros Hf. apply neutral_act. intros s M b s' HI Hs. by eapply I_same_core; [apply (Hf s b s')|]. Qed.

(** Changes of a transport that the invariant does not see. *)
Lemma same_core_put st t t' s : transport st s = Some t -> scheduled t' = scheduled t ->
  queue (t_queue t') = queue (t_queue t) -> forall M, I s M -> I (put_transport st t' s) M.
Proof.
  intros Ht Hs Hq M [H1 H2 H3 H4]. destruct (put_transport_rest st t' s) as (E1 & E2 & E3 & E4).
  assert (forall st', transport st' (put_transport st t' s) =
                      if bool_decide (st' = st) then Some t' else transport st' s) as Htr.
  { intros st'. apply transport_put. by rewrite Ht. }
  split; rewrite ?E1, ?E2, ?E3, ?E4; try done.
  - intros st'. rewrite Htr, H1. case_bool_decide as E; [|done]. subst. by rewrite Ht, Hs.
  - intros st' u. rewrite Htr. case_bool_decide as E; [|apply H2]. subst. intros [= <-].
    rewrite Hs, Hq. by apply H2.
Qed.

Lemma neutral_modify st (f : Transport -> Transport) :
  (forall t, scheduled (f t) = scheduled t) -> (forall t, queue (t_queue (f t)) = queue (t_queue t)) ->
  neutral (update (modify_transport st f)).
Proof.
  intros Hs Hq. apply neutral_atomically. intros s M HI. simpl. unfold modify_transport.
  destruct (transport st s) as [t|] eqn:Ht; [|done]. by apply (same_core_put st t).
Qed.

(** [owed] decides facts about the obligations. *)
Ltac owed :=
  repeat first [rewrite multiplicity_disj_union in * | rewrite multiplicity_singleton in *
               | rewrite multiplicity_empty in *];
  repeat case_decide; simplify_eq/=; try lia; try done.

Lemma I_put st t t' s M M' : I s M -> transport st s = Some t ->
  (forall st', st' <> st -> multiplicity (Tok st') M' = multiplicity (Tok st') M) ->
  multiplicity (Tok st) M' + Nat.b2n (scheduled t) = multiplicity (Tok st) M + Nat.b2n (scheduled t') ->
  (queue (t_queue t') <> [] -> cancelled_ s = true \/ owes CancelOwed M' \/ owes ErrOwed M' \/
                              scheduled t' = true \/ owes (Kick st) M') ->
  (forall st', st' <> st -> owes (Kick st') M -> owes (Kick st') M') ->
  (owes CancelOwed M -> owes CancelOwed M') -> (owes ErrOwed M -> owes ErrOwed M') ->
  multiplicity OpOwed M' = multiplicity OpOwed M -> I (put_transport st t' s) M'.
Proof.
  intros [H1 H2 H3 H4] Ht Htok Htok' Hq Hk Hc He Ho.
  destruct (put_transport_rest st t' s) as (E1 & E2 & E3 & E4).
  assert (forall st', transport st' (put_transport st t' s) =
                      if bool_decide (st' = st) then Some t' else transport st' s) as Htr.
  { intros st'. apply transport_put. by rewrite Ht. }
  split; rewrite ?E1, ?E2, ?E3, ?E4.
  - intros st'. rewrite Htr. specialize (H1 st'). case_bool_decide as E.
    + subst. rewrite Ht in H1. lia.
    + rewrite Htok by done. done.
  - intros st' u. rewrite Htr. case_bool_decide as E.
    + subst. intros [= <-]. apply Hq.
    + intros Hu Hne. destruct (H2 st' u Hu Hne) as [|[|[|[|]]]]; auto 10.
  - intros Herr. destruct (H3 Herr); auto.
  - lia.
Qed.

(** ** Errors *)

Lemma neutral_close st :
  neutral (update (modify_transport st (fun t => put_queue (BoundedQueue.Close (t_queue t)) t))).
Proof. by apply neutral_modify. Qed.

Lemma neutral_CloseQueues : neutral CloseQueues.
Proof.
  unfold CloseQueues. apply neutral_bind; [apply neutral_read|intros ins].
  apply neutral_bind; [apply neutral_for_each; intros; apply neutral_close|intros _].
  apply neutral_bind; [apply neutral_read|intros n]. apply neutral_for_each. intros. apply neutral_close.
Qed.

Lemma neutral_increment name : neutral (update (increment name)).
Proof. by apply neutral_update_core. Qed.
Lemma neutral_gauge name v : neutral (update (gauge name v)).
Proof. by apply neutral_update_core. Qed.

(** Setting [cancelled_] settles whatever is owed for it. *)
Lemma wp_set_cancelled O :
  (forall o, o ∈ O -> o = CancelOwed) -> wp O (update (set_cancelled true)) (fun _ O' => O' = ∅).
Proof.
  intros HO s F b s' [H1 H2 H3 H4] [= <- <-]. exists ∅. split; [|done].
  assert (forall o, o <> CancelOwed -> multiplicity o O = 0) as Hz.
  { intros o Ho. destruct (decide (o ∈ O)) as [Hin|Hin]; [by destruct Ho; auto|].
    by apply not_elem_of_multiplicity. }
  split.
  - intros st. specialize (H1 st). rewrite multiplicity_disj_union, Hz in H1 by done.
    rewrite (left_id_L ∅ (⊎)). done.
  - auto.
  - auto.
  - simpl. rewrite H4, !multiplicity_disj_union, Hz, multiplicity_empty by done. done.
Qed.

Lemma neutral_SetError_tail status :
  wp {[+ CancelOwed +]} (update (increment "graph.errors");;; update (set_cancelled true);;;
                         CloseQueues;;; update (report_error status)) (fun _ O => O = ∅).
Proof.
  apply neutral_seq; [apply neutral_increment|intros _].
  apply wp_bind. eapply wp_mono; [apply wp_set_cancelled; multiset_solver|]. intros _ O' ->.
  apply neutral_bind; [apply neutral_CloseQueues|intros _]. apply neutral_update_core. intros s.
  unfold report_error. destruct (error_callback_ s) as [c|]; [|apply same_core_refl].
  destruct (ec_stopped c); [apply same_core_refl|done].
Qed.

(** [SetError] settles an error that is owed, and can be called by anybody. *)
Lemma wp_SetError O status : O = ∅ \/ O = {[+ ErrOwed +]} ->
  wp O (SetError status) (fun _ O' => O' = ∅).
Proof.
  intros HO s F b s' HI Hf. injection Hf as Hf. unfold record_error in Hf.
  destruct (ok (last_error_ s)) eqn:Hok; injection Hf as <- <-.
  - exists {[+ CancelOwed +]}. split; [|apply neutral_SetError_tail].
    destruct HI as [H1 H2 H3 H4]. split.
    + intros st. change (transport st (set_last_error status s)) with (transport st s). rewrite <- H1.
      destruct HO as [-> | ->]; owed.
    + intros. right. left. owed.
    + intros. right. owed.
    + simpl. rewrite H4. destruct HO as [-> | ->]; owed.
  - exists ∅. split; [|done]. destruct HI as [H1 H2 H3 H4].
    assert (cancelled_ s = true \/ owes CancelOwed F) as Hc.
    { destruct (H3 Hok); [by left|right]. destruct HO as [-> | ->]; owed. }
    split.
    + intros st. rewrite <- H1. destruct HO as [-> | ->]; owed.
    + intros st t Ht Hq. destruct Hc; [by left|right; left; owed].
    + intros _. destruct Hc; [by left|right; owed].
    + rewrite H4. destruct HO as [-> | ->]; owed.
Qed.

Lemma neutral_SetError status : neutral (SetError status).
Proof. apply wp_SetError. by left. Qed.

(** ** Scheduling *)

Lemma wp_claim st :
  wp {[+ Kick st +]} (atomically (claim st))
     (fun r O => match r with None => O = ∅ | Some _ => O = {[+ Tok st +]} end).
Proof.
  intros s F b s' HI Hf. injection Hf as Hf. unfold claim in Hf.
  destruct (transport st s) as [t|] eqn:Ht.
  - destruct (proj1 (transport_target st s)) as [[node port] Hn]; [by rewrite Ht|]. rewrite Hn in Hf.
    destruct (scheduled t) eqn:Hs; injection Hf as <- <-.
    + exists ∅. split; [|done]. destruct HI as [H1 H2 H3 H4]. split.
      * intros st'. rewrite <- H1. owed.
      * intros st' t' Ht' Hq. destruct (decide (st' = st)) as [->|Hne]; [simplify_eq; auto 10|].
        destruct (H2 st' t' Ht' Hq) as [|[|[|[|]]]]; [auto|right; left; owed|right; right; left; owed|auto|].
        right; right; right; right. owed.
      * intros He. destruct (H3 He); [by left|right; owed].
      * rewrite H4. owed.
    + exists {[+ Tok st +]}. split; [|done]. eapply I_put; [done|done|..].
      * intros st' Hne. owed.
      * simpl. rewrite Hs. owed.
      * intros _. right; right; right; left. done.
      * intros st' Hne. owed.
      * owed.
      * owed.
      * owed.
  - injection Hf as <- <-. exists ∅. split; [|done]. destruct HI as [H1 H2 H3 H4]. split.
    + intros st'. rewrite <- H1. owed.
    + intros st' t' Ht' Hq. assert (st' <> st) as Hne by (intros ->; congruence).
      destruct (H2 st' t' Ht' Hq) as [|[|[|[|]]]]; [auto|right; left; owed|right; right; left; owed|auto|].
      right; right; right; right. owed.
    + intros He. destruct (H3 He); [by left|right; owed].
    + rewrite H4. owed.
Qed.

Lemma wp_post st name :
  wp {[+ Tok st +]} (atomically (PostGuaranteed name st))
     (fun r O => if ok r then O = ∅ else O = {[+ Tok st +]}).
Proof.
  intros s F b s' HI Hf. injection Hf as Hf. unfold PostGuaranteed in Hf.
  destruct (executors_ s !! name) as [e|] eqn:He; [destruct (ex_running e)|]; injection Hf as <- <-.
  - exists ∅. split; [|done]. destruct HI as [H1 H2 H3 H4]. split.
    + intros st'. change (transport st' (set_executors ?x s)) with (transport st' s). rewrite <- H1.
      simpl.
      pose proof (queued_insert (executors_ s) name e (mkExec (workers e) true (ex_tasks e ++ [st]) (ex_active e)) st' He) as Hq.
      simpl in Hq. rewrite list.filter_app, length_app, filter_cons, filter_nil in Hq. owed.
    + intros st' t' Ht' Hq. destruct (H2 st' t' Ht' Hq) as [|[|[|[|]]]];
        [auto|right; left; owed|right; right; left; owed|auto|]. right; right; right; right. owed.
    + intros Herr. destruct (H3 Herr); [by left|right; owed].
    + simpl. rewrite H4. owed.
  - by exists {[+ Tok st +]}.
  - by exists {[+ Tok st +]}.
Qed.

(** The token of a stream is given up: for an error, or for a kick. *)
Lemma wp_unschedule st o : o = ErrOwed \/ o = Kick st ->
  wp {[+ Tok st +]} (update (modify_transport st (with_scheduled false))) (fun _ O => O = {[+ o +]}).
Proof.
  intros Ho s F b s' HI [= <- <-]. exists {[+ o +]}. split; [|done]. unfold modify_transport.
  destruct (transport st s) as [t|] eqn:Ht.
  - assert (scheduled t = true) as Hs.
    { pose proof (I_token _ _ HI st) as E. rewrite Ht in E. destruct (scheduled t); [done|]. owed. }
    eapply I_put; [done|done|..].
    + intros st' Hne. destruct Ho as [-> | ->]; owed.
    + simpl. rewrite Hs. destruct Ho as [-> | ->]; owed.
    + intros _. destruct Ho as [-> | ->]; [right; right; left|right; right; right; right]; owed.
    + intros st' Hne. destruct Ho as [-> | ->]; owed.
    + destruct Ho as [-> | ->]; owed.
    + destruct Ho as [-> | ->]; owed.
    + destruct Ho as [-> | ->]; owed.
  - exfalso. pose proof (I_token _ _ HI st) as E. rewrite Ht in E. owed.
Qed.

(** Scheduling settles a kick. *)
Lemma wp_schedule st missing : wp {[+ Kick st +]} (schedule st missing) (fun _ O => O = ∅).
Proof.
  unfold schedule. apply wp_bind. eapply wp_mono; [apply wp_claim|]. intros [node|] O HO; [|done]. subst.
  apply neutral_seq; [apply neutral_read|intros executor].
  apply wp_bind. apply (wp_mono _ _ _ (fun r O => if ok r then O = ∅ else O = {[+ Tok st +]})).
  { destruct executor; [apply wp_post|done]. }
  intros status O HO. destruct (ok status); [done|]. subst.
  apply wp_bind. eapply wp_mono; [apply (wp_unschedule st ErrOwed); by left|]. intros _ O ->.
  apply wp_SetError. by right.
Qed.

(** ** Pushing *)

Lemma Push_queue {T} (q : BoundedQueue T) v r q' : Push q v = Some (r, q') ->
  pushed r = false -> queue q' = queue q.
Proof.
  unfold Push. destruct (_ || _); [by intros [= <- <-]|].
  destruct (policy q); [destruct (full q); by intros [= <- <-]| |destruct (full q); by intros [= <- <-]].
  unfold evict_push. destruct (full q); by intros [= <- <-].
Qed.
Lemma PushControl_queue {T} (q : BoundedQueue T) v r q' : PushControl q v = (r, q') ->
  pushed r = false -> queue q' = queue q.
Proof.
  unfold PushControl, evict_push. destruct (_ || _); [by intros [= <- <-]|].
  destruct (full q); by intros [= <- <-].
Qed.

(** A packet in the queue is a kick that is owed. *)
Lemma wp_push st control p :
  wp ∅ (blocking (push_stream st control p))
     (fun r O => if pushed r then O = {[+ Kick st +]} else O = ∅).
Proof.
  intros s F r s' HI Hf. unfold push_stream in Hf. destruct (transport st s) as [t|] eqn:Ht; [|done].
  assert (exists q', s' = put_transport st (put_queue q' t) s /\
                     (pushed r = false -> queue q' = queue (t_queue t))) as (q' & -> & Hq).
  { destruct control.
    - destruct (PushControl (t_queue t) p) as [r0 q'] eqn:E. injection Hf as <- <-.
      exists q'. split; [done|]. by eapply PushControl_queue.
    - destruct (Push (t_queue t) p) as [[r0 q']|] eqn:E; [|done]. injection Hf as <- <-.
      exists q'. split; [done|]. by eapply Push_queue. }
  destruct (pushed r) eqn:Hp.
  - exists {[+ Kick st +]}. split; [|unfold Atomic.wp; by rewrite Hp]. eapply I_put; [done|done|..].
    + intros st' Hne. owed.
    + simpl. owed.
    + intros _. right; right; right; right. owed.
    + intros st' Hne. owed.
    + owed.
    + owed.
    + owed.
  - exists ∅. split; [|unfold Atomic.wp; by rewrite Hp]. eapply same_core_put; [done|done|by apply Hq|done].
Qed.

Lemma neutral_count_drop st metric : neutral (count_drop st metric).
Proof. unfold count_drop. apply neutral_bind; [by apply neutral_modify|intros _; apply neutral_increment]. Qed.

Lemma admit_edge_core name p t t' : admit_edge name p t = Okay t' ->
  scheduled t' = scheduled t /\ queue (t_queue t') = queue (t_queue t).
Proof.
  unfold admit_edge. destruct (is_bound p); [destruct (_ && _); [done|by intros [= <-]]|].
  destruct (is_eos p); [by intros [= <-]|]. destruct (ValidateStreamPacket _ _ _ _ _); [|done].
  by intros [= <-].
Qed.
Lemma admit_input_core name p t t' : admit_input name p t = Okay t' ->
  scheduled t' = scheduled t /\ queue (t_queue t') = queue (t_queue t).
Proof. unfold admit_input. destruct (ValidateStreamPacket _ _ _ _ _); [|done]. by intros [= <-]. Qed.

(** The admission of a packet and the rest of a push, as the two callers share it. *)
Lemma neutral_after_push st (r : PushResult) (refused : prog St Status) missing :
  neutral refused ->
  wp (if pushed r then {[+ Kick st +]} else ∅)
     (if negb (pushed r) then refused else schedule st missing;;; Ret Ok) (fun _ O => O = ∅).
Proof.
  intros Hr. destruct (pushed r); cbn [negb]; [|done].
  apply wp_bind. eapply wp_mono; [apply wp_schedule|]. by intros _ O ->.
Qed.

Lemma wp_push_then {A} st control p (k : PushResult -> prog St A) Q :
  (forall r, wp (if pushed r then {[+ Kick st +]} else ∅) (k r) Q) ->
  wp ∅ (bind (blocking (push_stream st control p)) k) Q.
Proof.
  intros Hk. apply wp_bind. eapply wp_mono; [apply wp_push|]. intros r O HO.
  specialize (Hk r). cbv beta in HO. revert HO Hk.
  destruct (pushed r); by intros ->.
Qed.

Lemma neutral_if {A} (b : bool) (m n : prog St A) : neutral m -> neutral n -> neutral (if b then m else n).
Proof. by destruct b. Qed.

Lemma neutral_EnqueueEdge i p : neutral (EnqueueEdge i p).
Proof.
  unfold EnqueueEdge. apply neutral_bind.
  { apply neutral_atomically. intros s M HI. destruct (edges_ s !! i) as [e|] eqn:He; [|done].
    destruct (admit_edge _ p (er_transport e)) as [t|] eqn:Ha; [|done]. simpl.
    destruct (admit_edge_core _ _ _ _ Ha) as [E1 E2].
    apply (same_core_put (SEdge i) (er_transport e)); [|done..]. simpl. by rewrite He. }
  intros [config|status]; [|done]. apply wp_push_then. intros r.
  apply neutral_seq; [apply neutral_if; [apply neutral_count_drop|done]|intros _].
  apply neutral_seq; [apply neutral_read|intros depth].
  apply neutral_seq; [apply neutral_gauge|intros _].
  apply (neutral_after_push (SEdge i)). apply neutral_if; [done|].
  apply neutral_bind; [apply neutral_read|done].
Qed.

Lemma neutral_enqueue_all route p e : neutral (enqueue_all route p e).
Proof.
  revert e. induction route as [|i route IH]; intros e; simpl; [done|].
  apply neutral_bind; [apply neutral_EnqueueEdge|done].
Qed.

Lemma same_core_notify id p s : same_core s (notify_observer id p s).
Proof.
  unfold notify_observer. destruct (observer_objects s !! id) as [o|]; [|apply same_core_refl].
  destruct (_ && _); [apply same_core_refl|]. destruct (EnqueueObserver p o) as [[|] o']; done.
Qed.

Lemma neutral_Emit id port p : neutral (Emit id port p).
Proof.
  unfold Emit. apply neutral_bind; [apply neutral_read|intros [|]]; [done|].
  apply neutral_bind; [apply neutral_if; [by apply neutral_update_core|done]|intros _].
  apply neutral_bind; [apply neutral_read|intros callbacks].
  apply neutral_bind; [apply neutral_for_each; intros; apply neutral_update_core; intros;
                       apply same_core_notify|intros _].
  apply neutral_bind; [apply neutral_read|intros [l|]]; [apply neutral_enqueue_all|done].
Qed.

(** ** Nodes *)

Lemma neutral_act_core {A B} (f : St -> option (B * St)) (k : B -> prog St A) :
  (forall s b s', f s = Some (b, s') -> same_core s s') -> (forall b, neutral (k b)) ->
  neutral (Act f k).
Proof. intros Hf Hk. by apply (neutral_bind I (blocking f)); [apply neutral_blocking_core|]. Qed.

Lemma neutral_node_prog {A} id (m : NodeM (NodeObj NS) A) : neutral (node_prog id m).
Proof.
  induction m as [a|B f k IH|port p k IH|n k IH|n v k IH|B f k IH]; simpl.
  - done.
  - apply neutral_act_core; [|done]. intros s b s'. destruct (nodes_ s !! id); [|done].
    destruct (f _). by intros [= <- <-].
  - apply neutral_bind; [apply neutral_Emit|done].
  - by apply neutral_bind; [apply neutral_increment|].
  - by apply neutral_bind; [apply neutral_gauge|].
  - apply neutral_act_core; [|done]. intros s b s'. destruct (nodes_ s !! id); [|done].
    destruct (f _ _). by intros [= <- <-].
Qed.

Lemma neutral_lock id : neutral (lock_process (NS := NS) id).
Proof.
  apply neutral_blocking_core. intros s b s'. destruct (nodes_ s !! id) as [n|]; [|done].
  destruct (processing n); [done|]. by intros [= <- <-].
Qed.
Lemma neutral_unlock id : neutral (unlock_process (NS := NS) id).
Proof. apply neutral_update_core. intros s. by destruct (nodes_ s !! id). Qed.

Lemma neutral_Invoke thread id ins : neutral (Invoke (NS := NS) thread id ins).
Proof.
  unfold Invoke. apply neutral_bind; [apply neutral_read|intros node].
  apply neutral_bind; [apply neutral_read|intros c]. destruct node as [[n ctx]|]; [|done].
  destruct c; [done|]. apply neutral_bind; [apply neutral_read|intros start].
  apply neutral_bind.
  { apply neutral_if; [apply neutral_node_prog|].
    apply neutral_bind; [apply neutral_lock|intros _].
    apply neutral_bind; [apply neutral_node_prog|intros r].
    by apply neutral_bind; [apply neutral_unlock|]. }
  intros status. apply neutral_bind; [apply neutral_read|intros finish].
  apply neutral_bind; [apply neutral_increment|intros _].
  apply neutral_bind; [apply neutral_gauge|intros _].
  apply neutral_bind; [by apply neutral_update_core|intros _].
  apply neutral_if; [done|apply neutral_SetError].
Qed.

Lemma same_core_increment_by n name s : same_core s (increment_by n name s).
Proof.
  revert s. induction n as [|n IH]; intros s; simpl; [apply same_core_refl|].
  eapply same_core_trans; [|apply IH]. done.
Qed.

Lemma same_core_deliver_bound id port b s : same_core s (deliver_bound id port b s).2.
Proof.
  unfold deliver_bound. destruct (nodes_ s !! id) as [n|]; [|apply same_core_refl].
  destruct (DeliverBound _ _ _ _ _) as [[st drops] ins]. simpl.
  eapply same_core_trans; [|apply same_core_increment_by]. done.
Qed.

Lemma neutral_Deliver thread id port p : neutral (Deliver (NS := NS) thread id port p).
Proof.
  unfold Deliver. apply neutral_if; [apply neutral_core; intros; apply same_core_deliver_bound|].
  apply neutral_bind.
  { apply neutral_core. intros s. unfold prepare. destruct (nodes_ s !! id) as [n|]; [|apply same_core_refl].
    destruct (PrepareInvocation _ _ _ _ _) as [[r drops] ins]. simpl.
    eapply same_core_trans; [|apply same_core_increment_by]. done. }
  intros [[ins| |st]|]; [|done| |done].
  - by apply neutral_bind; [apply neutral_Invoke|].
  - by apply neutral_bind; [apply neutral_SetError|].
Qed.

(** ** Draining *)

Lemma neutral_pop st : neutral (atomically (pop_stream (NS := NS) st)).
Proof.
  apply neutral_atomically. intros s M HI. unfold pop_stream.
  destruct (transport st s) as [t|] eqn:Ht; [|done].
  destruct (stream_target st s) as [[node port]|]; [|done].
  unfold TryPop. destruct (queue (t_queue t)) as [|p rest] eqn:Hq; simpl.
  - eapply same_core_put; [done|done|simpl; by rewrite Hq|done].
  - eapply I_put; [done|done|done|done| |done..].
    intros _. apply (I_kick _ _ HI st t Ht). by rewrite Hq.
Qed.

Lemma neutral_deliver_one thread st p node port : neutral (deliver_one (NS := NS) thread st p node port).
Proof.
  unfold deliver_one. apply neutral_bind; [destruct st; [apply neutral_increment|done]|intros _].
  apply neutral_bind; [apply neutral_Deliver|intros status]. apply neutral_if; [done|apply neutral_SetError].
Qed.

(** A kick that is not needed any more. *)
Lemma I_drop_kick s st F : I s ({[+ Kick st +]} ⊎ F) ->
  cancelled_ s = true \/ (forall t, transport st s = Some t -> queue (t_queue t) = []) -> I s (∅ ⊎ F).
Proof.
  intros [H1 H2 H3 H4] Hd. split.
  - intros st'. rewrite <- H1. owed.
  - intros st' t' Ht' Hq. destruct Hd as [Hc|Hd]; [by left|].
    assert (st' <> st) as Hne by (intros ->; by apply Hq, Hd).
    destruct (H2 st' t' Ht' Hq) as [|[|[|[|]]]]; [auto|right; left; owed|right; right; left; owed|auto|].
    right; right; right; right. owed.
  - intros He. destruct (H3 He); [by left|right; owed].
  - rewrite H4. owed.
Qed.

(** The tail of a drain: the stream is looked at once more. *)
Lemma wp_recheck st (again : prog St unit) : wp {[+ Kick st +]} again (fun _ O => O = ∅) ->
  wp {[+ Kick st +]}
     (c <-- read cancelled_;
      if (c : bool) then Ret tt
      else size <-- read (fun s => match transport st s with
                                   | Some t => queue_size (t_queue t) | None => 0%nat end);
           if bool_decide (size = 0%nat) then Ret tt else again) (fun _ O => O = ∅).
Proof.
  intros Ha. apply wp_read. intros s F HI. destruct (cancelled_ s) eqn:Hc.
  { exists ∅. split; [|done]. eapply I_drop_kick; [done|]. by left. }
  exists {[+ Kick st +]}. split; [done|]. clear s F HI Hc. apply wp_read. intros s F HI.
  case_bool_decide as Hsize; [|by eexists].
  exists ∅. split; [|done]. eapply I_drop_kick; [done|]. right. intros t Ht. rewrite Ht in Hsize.
  by apply length_zero_iff_nil.
Qed.

Lemma wp_pop st : wp {[+ Tok st +]} (atomically (pop_stream (NS := NS) st))
                     (fun r O => r <> None /\ O = {[+ Tok st +]}).
Proof.
  intros s F r s' HI Hf. injection Hf as Hf. exists {[+ Tok st +]}. split.
  - pose proof (neutral_pop st s ({[+ Tok st +]} ⊎ F) r s') as Hp.
    rewrite (left_id_L ∅ (⊎)) in Hp. destruct (Hp HI) as (O & HO & HE); [by rewrite Hf|].
    unfold Atomic.wp in HE. subst. by rewrite (left_id_L ∅ (⊎)) in HO.
  - split; [|done]. unfold pop_stream in Hf. pose proof (I_token _ _ HI st) as E.
    destruct (transport st s) as [t|] eqn:Ht; [|exfalso; owed].
    destruct (proj1 (transport_target st s)) as [[node port] Hn]; [by rewrite Ht|]. rewrite Hn in Hf.
    destruct (TryPop (t_queue t)). by injection Hf as <- _.
Qed.

(** Draining a stream uses up its token. *)
Lemma wp_drain thread st again : wp {[+ Kick st +]} again (fun _ O => O = ∅) ->
  wp {[+ Tok st +]} (drain (NS := NS) thread st again) (fun _ O => O = ∅).
Proof.
  intros Ha. unfold drain. apply wp_bind. eapply wp_mono; [apply wp_pop|].
  intros [o|] O [Hn ->]; [|done].
  apply neutral_seq; [destruct o as [[[p node] port]|]; [apply neutral_deliver_one|done]|intros _].
  apply wp_bind. eapply wp_mono; [apply (wp_unschedule st (Kick st)); by right|]. intros _ O ->.
  by apply wp_recheck.
Qed.

Lemma wp_drain_task thread st : wp {[+ Tok st +]} (drain_task (NS := NS) thread st) (fun _ O => O = ∅).
Proof. destruct st; apply wp_drain, wp_schedule. Qed.

(** ** Operations *)

Lemma I_operation s F : I s F ->
  I (set_active_operations (S (active_operations_ s)) s) ({[+ OpOwed +]} ⊎ F).
Proof.
  intros [H1 H2 H3 H4]. split.
  - intros st. change (transport st (set_active_operations _ s)) with (transport st s). rewrite <- H1. owed.
  - intros st t Ht Hq. destruct (H2 st t Ht Hq) as [|[|[|[|]]]];
      [auto|right; left; owed|right; right; left; owed|auto|]. right; right; right; right. owed.
  - intros He. destruct (H3 He); [by left|right; owed].
  - simpl. rewrite H4. owed.
Qed.

Lemma I_end_operation s F : I s ({[+ OpOwed +]} ⊎ F) ->
  I (set_active_operations (active_operations_ s - 1) s) F.
Proof.
  intros [H1 H2 H3 H4]. split.
  - intros st. change (transport st (set_active_operations _ s)) with (transport st s). rewrite <- H1. owed.
  - intros st t Ht Hq. destruct (H2 st t Ht Hq) as [|[|[|[|]]]];
      [auto|right; left; owed|right; right; left; owed|auto|]. right; right; right; right. owed.
  - intros He. destruct (H3 He); [by left|right; owed].
  - simpl. rewrite H4. owed.
Qed.

(** An operation counts itself for as long as it runs. *)
Lemma neutral_operation {A} (refused : A) (body : prog St A) : neutral body -> neutral (operation refused body).
Proof.
  intros Hb s F b s' HI Hf. rewrite (left_id_L ∅ (⊎)) in HI. injection Hf as Hf.
  destruct (stopping_ s || negb (running_ s)); injection Hf as <- <-.
  - exists ∅. by rewrite (left_id_L ∅ (⊎)).
  - exists {[+ OpOwed +]}. split; [by apply I_operation|].
    change (wp {[+ OpOwed +]} (r <-- body; EndOperation;;; Ret r) (fun _ O => O = ∅)).
    apply neutral_seq; [done|intros r]. intros s2 F2 b2 s2' HI2 [= <- <-]. exists ∅.
    split; [|done]. rewrite (left_id_L ∅ (⊎)). by apply I_end_operation.
Qed.

Lemma neutral_AddPacket stream p : neutral (AddPacket (NS := NS) stream p).
Proof.
  apply neutral_operation. apply neutral_bind; [apply neutral_read|intros [|]]; [done|].
  apply neutral_bind.
  { apply neutral_atomically. intros s M HI. destruct (graph_inputs_ s !! stream) as [i|] eqn:Hi; [|done].
    destruct (admit_input stream p (ir_transport i)) as [t|] eqn:Ha; [|done]. simpl.
    destruct (admit_input_core _ _ _ _ Ha) as [E1 E2].
    apply (same_core_put (SInput stream) (ir_transport i)); [|done..]. simpl. by rewrite Hi. }
  intros [config|status]; [|done]. apply wp_push_then. intros r.
  apply neutral_seq; [apply neutral_if; [apply neutral_count_drop|done]|intros _].
  apply (neutral_after_push (SInput stream)). apply neutral_if; [done|].
  apply neutral_bind; [apply neutral_read|done].
Qed.

Lemma neutral_SetInputTimestampBound stream b : neutral (SetInputTimestampBound (NS := NS) stream b).
Proof.
  apply neutral_operation. apply neutral_if; [done|].
  apply neutral_bind; [apply neutral_read|intros [[config [n|]]|]]; [|done..].
  apply neutral_bind.
  { apply neutral_atomically. intros s M HI. destruct (transport (SInput stream) s) as [t|] eqn:Ht; [|done].
    destruct (_ && _); [done|]. by apply (same_core_put (SInput stream) t). }
  intros [|]; [|done].
  apply neutral_bind; [apply neutral_core; intros; apply same_core_deliver_bound|done].
Qed.

Lemma neutral_CloseInputStream stream : neutral (CloseInputStream (NS := NS) stream).
Proof.
  apply neutral_operation. apply neutral_bind; [apply neutral_read|intros [|]]; [|done].
  apply neutral_bind; [by apply neutral_core|intros [|]]; [|done].
  apply neutral_bind; [by apply neutral_modify|intros _].
  apply wp_push_then. intros r. by apply (neutral_after_push (SInput stream)).
Qed.

Lemma neutral_any_busy {A} (l : list A) (test : A -> prog St bool) acc :
  (forall x, neutral (test x)) -> neutral (any_busy l test acc).
Proof.
  intros Ht. revert acc. induction l as [|x l IH]; intros acc; [done|].
  apply neutral_bind; [apply Ht|intros b; apply IH].
Qed.

Lemma neutral_poll_idle : neutral (poll_idle (NS := NS)).
Proof.
  unfold poll_idle. apply neutral_bind; [apply neutral_read|intros ins].
  assert (forall st, neutral (stream_busy (NS := NS) st)) as Hst.
  { intros st. apply neutral_bind; [apply neutral_read|intros n]. apply neutral_if; [done|apply neutral_read]. }
  apply neutral_bind; [by apply neutral_any_busy|intros b1].
  apply neutral_bind; [apply neutral_read|intros n].
  apply neutral_bind; [by apply neutral_any_busy|intros b2].
  apply neutral_bind; [apply neutral_read|intros ex].
  apply neutral_bind.
  { apply neutral_any_busy. intros name. apply neutral_bind; [apply neutral_read|intros q].
    apply neutral_if; [done|apply neutral_read]. }
  intros b3. apply neutral_bind; [apply neutral_read|intros obs].
  apply neutral_bind; [apply neutral_any_busy; intros; apply neutral_read|done].
Qed.

Lemma neutral_WaitUntilIdle polls : neutral (WaitUntilIdle (NS := NS) polls).
Proof.
  apply neutral_operation. induction polls as [|n IH];
    (apply neutral_bind; [apply neutral_poll_idle|intros [|]]); [apply neutral_read|done|apply neutral_read|done].
Qed.

Lemma neutral_WaitUntilDone expired polls : neutral (WaitUntilDone (NS := NS) expired polls).
Proof.
  apply neutral_operation. apply neutral_bind.
  { apply neutral_blocking_core. intros s b s'. destruct (inputs_done s); [by intros [= <- <-]|].
    destruct expired; [by intros [= <- <-]|done]. }
  intros [|]; [|done]. apply neutral_bind; [apply neutral_read|intros [|]].
  - apply neutral_bind; [apply neutral_read|done].
  - apply neutral_WaitUntilIdle.
Qed.

Lemma neutral_GetRuntimeInfo : neutral (GetRuntimeInfo (NS := NS)).
Proof.
  unfold GetRuntimeInfo. apply neutral_bind; [apply neutral_read|intros flags]. apply neutral_operation.
  do 4 (apply neutral_bind; [apply neutral_read|intros ?]). done.
Qed.

Lemma neutral_Cancel : neutral (Runner.Cancel (NS := NS)).
Proof.
  unfold Runner.Cancel. apply neutral_bind; [|intros _; apply neutral_CloseQueues].
  apply wp_set_cancelled. multiset_solver.
Qed.

(** ** Observers and sources *)

Lemma neutral_ObserveOutput outputs stream cb options :
  neutral (ObserveOutput (NS := NS) outputs stream cb options).
Proof.
  apply neutral_if; [done|]. apply neutral_bind; [by apply neutral_core|intros id].
  apply neutral_bind; [by apply neutral_update_core|intros _].
  by apply neutral_bind; [apply neutral_update_core|].
Qed.

Lemma neutral_stop_observer id : neutral (update (stop_observer (NS := NS) id)).
Proof. apply neutral_update_core. intros s. unfold stop_observer. by destruct (observer_objects s !! id). Qed.

Lemma neutral_await (P : St -> bool) : neutral (await P).
Proof. apply neutral_blocking_core. intros s b s'. by destruct (P s); intros [= <- <-]. Qed.

Lemma neutral_CancelObserver own id : neutral (CancelObserver (NS := NS) own id).
Proof.
  unfold CancelObserver. apply neutral_bind.
  { apply neutral_core. intros s. by case_bool_decide. }
  intros [|]; [|done]. apply neutral_bind; [apply neutral_stop_observer|intros _].
  apply neutral_bind; [apply neutral_if; [by apply neutral_update_core|apply neutral_await]|done].
Qed.

Lemma neutral_WaitObserved expired id : neutral (WaitObserved (NS := NS) expired id).
Proof.
  unfold WaitObserved. apply neutral_bind; [apply neutral_read|intros [|]]; [|done].
  apply neutral_blocking_core. intros s b s'. destruct (observer_objects s !! id) as [o|]; [|done].
  destruct (WaitForObservedOutput expired o) as [[st o']|]; [|done]. by intros [= <- <-].
Qed.

Lemma neutral_on_table {A} (f : SourceTable -> A * SourceTable) :
  neutral (atomically (on_table (NS := NS) f)).
Proof. apply neutral_core. intros s. unfold on_table. by destruct (f (source_table s)). Qed.

Lemma neutral_SubmitControl (task : prog St Status) : neutral task -> neutral (SubmitControl task).
Proof.
  intros Ht. unfold SubmitControl. apply neutral_bind; [apply neutral_read|intros [|]]; [|done].
  apply neutral_bind.
  { apply neutral_blocking_core. intros s b s'. destruct (control_executor_ s) as [[|]|]; try done.
    by intros [= <- <-]. }
  intros _. apply neutral_bind; [done|intros r]. by apply neutral_bind; [apply neutral_update_core|].
Qed.

Lemma neutral_AddSourcePacket id p : neutral (AddSourcePacket (NS := NS) id p).
Proof.
  unfold AddSourcePacket. apply neutral_bind.
  { apply neutral_core. intros s. unfold on_table. by destruct (source_packet _ _ _ _). }
  intros [st|input d]; [done|]. apply neutral_bind; [apply neutral_on_table|intros [|]]; [|done].
  apply neutral_AddPacket.
Qed.

Lemma neutral_update_table f : neutral (update_table (NS := NS) f).
Proof. by apply neutral_update_core. Qed.

Lemma neutral_RemoveSource expired id : neutral (RemoveSource (NS := NS) expired id).
Proof.
  apply neutral_SubmitControl. apply neutral_bind; [apply neutral_on_table|intros [src|]]; [|done].
  apply neutral_bind; [apply neutral_update_table|intros _].
  apply neutral_bind.
  { apply neutral_blocking_core. intros s b s'. destruct (drained _ _); [by intros [= <- <-]|].
    destruct expired; [by intros [= <- <-]|done]. }
  intros [|].
  - apply neutral_bind; [apply neutral_update_table|intros _].
    by apply neutral_bind; [apply neutral_increment|].
  - by apply neutral_bind; [apply neutral_update_table|].
Qed.

Lemma neutral_RestartSource start id : neutral (RestartSource (NS := NS) start id).
Proof.
  apply neutral_SubmitControl. apply neutral_bind; [apply neutral_on_table|intros [src|]]; [|done].
  apply neutral_on_table.
Qed.

Lemma neutral_AddSource classes load start slot id options :
  neutral (AddSource (NS := NS) classes load start slot id options).
Proof.
  apply neutral_SubmitControl. apply neutral_bind; [apply neutral_read|intros [c|]]; [|done].
  destruct (source_template _ _ _ _ _) as [child|]; [|done].
  apply neutral_bind; [apply neutral_on_table|intros status]. apply neutral_if; [done|].
  apply neutral_if.
  - by apply neutral_bind; [apply neutral_update_table|].
  - by apply neutral_bind; [apply neutral_increment|].
Qed.

(** ** Starting nodes *)

Lemma neutral_for_status {A} (l : list A) (f : A -> prog St Status) :
  (forall x, neutral (f x)) -> neutral (for_status l f).
Proof.
  intros Hf. induction l as [|x l IH]; [done|].
  apply neutral_bind; [apply Hf|intros st]. by apply neutral_if.
Qed.

Lemma neutral_start_node id : neutral (start_node (NS := NS) id).
Proof.
  unfold start_node, with_node. apply neutral_bind; [apply neutral_read|intros [n|]]; [|done].
  apply neutral_bind; [apply neutral_read|intros ctx].
  apply neutral_bind; [apply neutral_node_prog|intros status].
  apply neutral_if; [done|]. by apply neutral_bind; [apply neutral_SetError|].
Qed.

Lemma neutral_prime_edge i : neutral (prime_edge (NS := NS) i).
Proof.
  unfold prime_edge. apply neutral_bind; [apply neutral_read|intros [c|]]; [|done].
  apply neutral_if; [|done]. by apply neutral_bind; [apply neutral_EnqueueEdge|].
Qed.

Lemma neutral_discard {A} (m : prog St A) : neutral m -> neutral (discard m).
Proof. intros Hm. by apply neutral_bind. Qed.

Lemma neutral_client config classes load p : client (NS := NS) config classes load p -> neutral p.
Proof.
  destruct 1; try apply neutral_discard; eauto using neutral_AddPacket, neutral_SetInputTimestampBound,
    neutral_CloseInputStream, neutral_WaitUntilIdle, neutral_WaitUntilDone, neutral_GetRuntimeInfo, neutral_Cancel,
    neutral_ObserveOutput, neutral_CancelObserver, neutral_WaitObserved, neutral_AddSource,
    neutral_AddSourcePacket, neutral_RemoveSource, neutral_RestartSource, neutral_node_prog,
    neutral_for_status, neutral_start_node, neutral_for_each, neutral_prime_edge.
Qed.

(** ** Sessions *)

(** Executors that change while their tasks, up to [O], stay. *)
Lemma I_executors s m M M' :
  (forall st, multiplicity (Tok st) M' + queued st m = multiplicity (Tok st) M + queued st (executors_ s)) ->
  (forall o, (forall st, o <> Tok st) -> multiplicity o M' = multiplicity o M) ->
  I s M -> I (set_executors m s) M'.
Proof.
  intros Hq Ho [H1 H2 H3 H4]. split.
  - intros st. change (transport st (set_executors m s)) with (transport st s). rewrite <- H1. apply Hq.
  - intros st t Ht Hne. rewrite !Ho by done. by apply H2.
  - intros He. rewrite Ho by done. by apply H3.
  - simpl. by rewrite Ho.
Qed.

Lemma neutral_finish_task name : neutral (update (finish_task (NS := NS) name)).
Proof.
  apply neutral_atomically. intros s M HI. simpl. unfold finish_task.
  destruct (executors_ s !! name) as [e|] eqn:He; [|done]. apply (I_executors s _ M); [|done|done].
  intros st. pose proof (queued_insert _ name e
    (mkExec (workers e) (ex_running e) (ex_tasks e) (ex_active e - 1)) st He) as Hq. simpl in Hq. lia.
Qed.

Lemma spawn_inv config classes load s p s' M : I s M -> spawn config classes load s p s' ->
  exists O, I s' (M ⊎ O) /\ wp O p (fun _ O' => O' = ∅).
Proof.
  intros HI Hp. destruct Hp as [s p Hc|s name e st rest thread He Htasks Hactive].
  - exists ∅. rewrite (right_id_L ∅ (⊎)). split; [done|]. by eapply neutral_client.
  - exists {[+ Tok st +]}. split.
    + apply (I_executors s _ M); [|intros o Ho; specialize (Ho st); owed|done].
      intros st'. pose proof (queued_insert _ name e
        (mkExec (workers e) (ex_running e) rest (S (ex_active e))) st' He) as Hq.
      simpl in Hq. rewrite Htasks, filter_cons in Hq. owed.
    + apply wp_bind. eapply wp_mono; [apply wp_drain_task|]. intros _ O ->. apply neutral_finish_task.
Qed.

Lemma environment_inv s s' M : I s M -> environment s s' -> I s' M.
Proof. intros HI (objs & callback & now & ->). by eapply I_same_core; [|done]. Qed.

Lemma queued_none m st : (forall name e, m !! name = Some e -> ex_tasks e = []) -> queued st m = 0.
Proof.
  intros H. unfold queued, tasks_of.
  assert (concat (map (fun kv => ex_tasks kv.2) (map_to_list m)) = []) as ->; [|done].
  assert (Forall (fun kv : string * Executor => ex_tasks kv.2 = []) (map_to_list m)) as Hf.
  { apply Forall_forall. intros [name e] Hin. apply list_elem_of_In, elem_of_map_to_list in Hin.
    by eapply H. }
  induction Hf as [|x l Hx _ IH]; [done|]. simpl. by rewrite Hx.
Qed.

Lemma session_start_inv s : session_start s -> I s ∅.
Proof.
  intros (H1 & H2 & H3 & H4). split.
  - intros st. rewrite multiplicity_empty, queued_none by done.
    destruct (transport st s) as [t|] eqn:Ht; [|done]. destruct (H1 st t Ht) as [_ Hs]. by rewrite Hs.
  - intros st t Ht Hq. by destruct (H1 st t Ht).
  - congruence.
  - by rewrite multiplicity_empty.
Qed.

Lemma session_inv config classes load s0 s ts : session_start s0 ->
  rtc (session_step config classes load) (s0, []) (s, ts) -> pool_inv I (s, ts).
Proof.
  intros Hs Hr. unfold session_step in Hr. eapply pool_inv_reachable; [..|exact Hr].
  - intros. by eapply spawn_inv.
  - intros. by eapply environment_inv.
  - exists []. split_and!; [done..|]. by apply session_start_inv.
Qed.

(** Every thread has returned and no task is queued. *)
Definition quiescent (s : St) (ts : list (prog St unit)) : Prop :=
  Forall finished ts /\ forall name e, executors_ s !! name = Some e -> ex_tasks e = [].

(** C1: No packet is left behind.  Whatever the interleaving of the application's calls, of
    the nodes' own threads and of the workers: when every thread has returned and no task is
    queued, no operation is counted as running, no stream is marked as scheduled, an error
    that was recorded has cancelled the graph, and unless the graph is cancelled the queues
    of all streams are empty. *)
Theorem no_packet_stranded config classes load s0 s ts :
  session_start s0 -> rtc (session_step config classes load) (s0, []) (s, ts) ->
  quiescent s ts ->
  active_operations_ s = 0 /\
  (forall st t, transport st s = Some t -> scheduled t = false) /\
  (ok (last_error_ s) = false -> cancelled_ s = true) /\
  (cancelled_ s = false -> forall st t, transport st s = Some t -> queue (t_queue t) = []).
Proof.
  intros Hs Hr [Hfin Htasks]. pose proof (session_inv _ _ _ _ _ _ Hs Hr) as Hi.
  apply pool_inv_finished in Hi as [H1 H2 H3 H4]; [|done]. simpl in *.
  assert (forall st t, transport st s = Some t -> scheduled t = false) as Hsch.
  { intros st t Ht. specialize (H1 st). rewrite Ht, multiplicity_empty, queued_none in H1 by done.
    by destruct (scheduled t). }
  split_and!; [done|done| |].
  - intros He. destruct (H3 He) as [|Ho]; [done|]. rewrite multiplicity_empty in Ho. lia.
  - intros Hc st t Ht. destruct (queue (t_queue t)) as [|p q] eqn:Hq; [done|]. exfalso.
    destruct (H2 st t Ht) as [|[Ho|[Ho|[Ho|Ho]]]]; [by rewrite Hq|congruence| | | |];
      try (rewrite multiplicity_empty in Ho; lia). rewrite (Hsch st t Ht) in Ho. done.
Qed.

(** The executors are not flooded: in every state of a session at most one drain task of
    a stream is queued, none when the stream is not marked as scheduled, and
    no task of a stream that does not exist. *)
Theorem one_drain_task config classes load s0 s ts st :
  session_start s0 -> rtc (session_step config classes load) (s0, []) (s, ts) ->
  queued st (executors_ s) <= match transport st s with Some t => Nat.b2n (scheduled t) | None => 0 end.
Proof.
  intros Hs Hr. destruct (session_inv _ _ _ _ _ _ Hs Hr) as (ots & _ & _ & HI).
  pose proof (I_token _ _ HI st) as E. simpl in E. lia.
Qed.
End facts.

(** ** A session in action

    A graph with one input and one node that counts what it receives. *)

Definition counter_class : NodeClass nat :=
  default_hooks (mkContract [mkPort "in" AnyCaps true] [] [] kAny "")
    (fun _ => nbind (nmodify S) (fun _ => NRet Ok)).

Definition counter_config : GraphConfig :=
  mkGraphConfig 2 "demo" [default_executor]
    [mkNodeConfig "count" "Counter" "default" (∅ : NodeOptions) false kAny ""] []
    [mkGraphPort "numbers" "count" "in" (mkQueueConfig 4 kBlock)] [] [] ∅ default_flow_control.

Definition counter_classes : gmap string (NodeClass nat * nat) := {["Counter" := (counter_class, 0)]}.
Definition no_templates (path : string) : Res GraphConfig := Err (NotFound path).

Definition idle_runner : State nat := NewGraphRunner 0.

Definition result_state {A} (r : option (A * State nat)) : State nat :=
  match r with Some (_, s) => s | None => idle_runner end.

(** The session after [Start], after a packet was added, and after it was processed. *)
Definition counter_session : State nat :=
  result_state (run (Runner.Start counter_config counter_classes) idle_runner).
Definition add_one : prog (State nat) unit :=
  discard (AddPacket "numbers" (Make (PlOther "int" 1) (FromMicroseconds 7))).
Definition counter_queued : State nat := result_state (run add_one counter_session).
Definition counter_taken : State nat :=
  set_executors {["default" := mkExec 1 true [] 1]} counter_queued.
Definition counter_task : prog (State nat) unit :=
  drain_task 0 (SInput "numbers");;; update (finish_task "default").
Definition counter_done : State nat := result_state (run counter_task counter_taken).

Lemma counter_session_start : session_start counter_session.
Proof.
  assert (edges_ counter_session = []) as He by (vm_compute; reflexivity).
  assert (graph_inputs_ counter_session = {["numbers" := mkInputRuntime
    (mkGraphPort "numbers" "count" "in" (mkQueueConfig 4 kBlock)) (new_transport (mkQueueConfig 4 kBlock))]})
    as Hi by (vm_compute; reflexivity).
  assert (executors_ counter_session = {["default" := mkExec 1 true [] 0]}) as Hx by (vm_compute; reflexivity).
  split_and!; [| |vm_compute; reflexivity|vm_compute; reflexivity].
  - intros [i|n] t; simpl; [by rewrite He|]. rewrite Hi. intros (x & Hn & ->)%fmap_Some.
    apply lookup_singleton_Some in Hn as [_ <-]. split; reflexivity.
  - intros name e. rewrite Hx. by intros [_ <-]%lookup_singleton_Some.
Qed.

Lemma counter_reachable :
  rtc (session_step counter_config counter_classes no_templates) (counter_session, [])
      (counter_done, [Ret tt; Ret tt]).
Proof.
  eapply rtc_l; [apply (pstep_spawn _ _ _ [] add_one); apply spawn_client, client_add|].
  etrans; [apply (run_steps _ _ add_one _ counter_queued []); vm_compute; reflexivity|].
  eapply rtc_l.
  { eapply pstep_spawn. eapply (spawn_task _ _ _ _ "default" (mkExec 1 true [SInput "numbers"] 0) _ [] 0%Z);
      [vm_compute; reflexivity|reflexivity|simpl; lia]. }
  change (set_executors _ counter_queued) with
    (set_executors (<["default" := mkExec 1 true [] 1]> (executors_ counter_queued)) counter_queued).
  replace (set_executors (<["default" := mkExec 1 true [] 1]> (executors_ counter_queued)) counter_queued)
    with counter_taken by (vm_compute; reflexivity).
  apply (run_steps _ _ counter_task _ counter_done [Ret tt]). vm_compute. reflexivity.
Qed.

Lemma no_packet_stranded_witness :
  (fun n => self (rn_node n)) <$> nodes_ counter_done !! "count" = Some 1 /\
  forall st t, transport st counter_done = Some t -> queue (t_queue t) = [].
Proof.
  split; [vm_compute; reflexivity|].
  assert (quiescent counter_done [Ret tt; Ret tt]) as Hq.
  { split; [by repeat constructor|]. assert (executors_ counter_done = {["default" := mkExec 1 true [] 0]}) as Hx
      by (vm_compute; reflexivity). intros name e. rewrite Hx. by intros [_ <-]%lookup_singleton_Some. }
  destruct (no_packet_stranded _ _ _ _ _ _ counter_session_start counter_reachable Hq) as (_ & _ & _ & H).
  apply H. vm_compute. reflexivity.
Defined.

Lemma one_drain_task_witness : queued (SInput "numbers") (executors_ counter_done) <= 0.
Proof.
  pose proof (one_drain_task _ _ _ _ _ _ (SInput "numbers") counter_session_start counter_reachable) as H.
  assert (match transport (SInput "numbers") counter_done with
          | Some t => Nat.b2n (scheduled t) | None => 0 end = 0) as E by (vm_compute; reflexivity).
  rewrite E in H. exact H.
Defined.
