(* ===== verification/Admission.v ===== *)
(** * The timestamps of a stream

    What the admission to an edge guarantees about the packets it lets through,
    in the order in which the critical sections of [EnqueueEdge] are passed, and
    the limit of that guarantee: admission and push are two critical sections, so
    two producers can push in another order than they were admitted. *)

From S2P Require Import Prelude Status Timestamp Values BoundedQueue Contract Node GraphConfig InputSync Observers Sources Atomic RunnerState Runner RunnerFacts.
Local Open Scope Z_scope.

Definition is_data (p : Packet) : bool := negb (is_bound p) && negb (is_eos p).

(** The packets of [ps] that are admitted, one after the other. *)
Fixpoint admit_all (name : string) (ps : list Packet) (t : Transport) : list Packet * Transport :=
  match ps with
  | [] => ([], t)
  | p :: ps => match admit_edge name p t with
               | Okay t' => let '(l, t'') := admit_all name ps t' in (p :: l, t'')
               | Err _ => admit_all name ps t
               end
  end.

(** What may follow what: data and bounds do not go below an earlier bound or
    data packet, and nothing but bounds and repeated ends follows the end. *)
Definition follows (p q : Packet) : Prop :=
  (is_data q = true -> is_eos p = false) /\
  (is_data p = true -> is_data q = true -> ts_le (timestamp p) (timestamp q)) /\
  (is_bound p = true -> is_unset (timestamp p) = false -> is_data q = true \/ is_bound q = true ->
   ts_le (timestamp p) (timestamp q)).

(** What the fields of an edge say about the packets [l] it has admitted. *)
Record admitted (l : list Packet) (t : Transport) : Prop := mkAdmitted {
  adm_sorted : ForallOrdPairs follows l;
  adm_range : Forall (fun p => is_data p = true -> is_range_value (timestamp p) = true) l;
  adm_closed : forall p, p ∈ l -> is_eos p = true -> t_closed t = true;
  adm_last : forall p, p ∈ l -> is_data p = true ->
               is_range_value (last_timestamp t) = true /\ ts_le (timestamp p) (last_timestamp t);
  adm_bound : forall p, p ∈ l -> is_bound p = true -> is_unset (timestamp p) = false ->
               is_unset (t_bound t) = false /\ ts_le (timestamp p) (t_bound t);
  adm_low : int64_min <= microseconds (t_bound t) }.

Lemma ForallOrdPairs_snoc {A} (R : A -> A -> Prop) l x :
  ForallOrdPairs R l -> Forall (fun y => R y x) l -> ForallOrdPairs R (l ++ [x]).
Proof.
  induction 1 as [|y l Hy Hl IH]; intros Hx; simpl; [repeat constructor|].
  apply Forall_cons_1 in Hx as [Hyx Hx]. constructor; [|by apply IH].
  apply List.Forall_app. split; [done|]. by constructor.
Qed.

Lemma bound_not_eos p : is_bound p = true -> is_eos p = false.
Proof. unfold is_bound, is_eos. intros H%bool_decide_eq_true_1. rewrite H. reflexivity. Qed.

(** One more packet [p], and fields that do not go back. *)
Lemma admitted_snoc l p t t' : admitted l t ->
  Forall (fun q => follows q p) l ->
  (is_data p = true -> is_range_value (timestamp p) = true) ->
  (t_closed t = true \/ is_eos p = true -> t_closed t' = true) ->
  (is_range_value (last_timestamp t) = true ->
     is_range_value (last_timestamp t') = true /\ ts_le (last_timestamp t) (last_timestamp t')) ->
  (is_data p = true -> last_timestamp t' = timestamp p) ->
  (is_unset (t_bound t) = false ->
     is_unset (t_bound t') = false /\ ts_le (t_bound t) (t_bound t')) ->
  (is_bound p = true -> t_bound t' = timestamp p) ->
  int64_min <= microseconds (t_bound t') -> admitted (l ++ [p]) t'.
Proof.
  intros [H1 H2 H3 H4 H5 H6] Hf Hr Hc Hl Hlp Hb Hbp Hlow. split; [| | | | |done].
  - by apply ForallOrdPairs_snoc.
  - apply List.Forall_app. split; [done|]. by constructor.
  - intros q Hq Hqe. apply Hc. apply elem_of_app in Hq as [Hq|Hq%list_elem_of_singleton]; [eauto|].
    subst. by right.
  - intros q Hq Hqd. apply elem_of_app in Hq as [Hq|Hq%list_elem_of_singleton].
    + destruct (H4 q Hq Hqd) as [Hr' Hle]. destruct (Hl Hr'). split; [done|]. by etrans.
    + subst. rewrite Hlp by done. split; [auto|reflexivity].
  - intros q Hq Hqb Hqu. apply elem_of_app in Hq as [Hq|Hq%list_elem_of_singleton].
    + destruct (H5 q Hq Hqb Hqu) as [Hu Hle]. destruct (Hb Hu). split; [done|]. by etrans.
    + subst. rewrite Hbp by done. split; [done|reflexivity].
Qed.

Lemma is_unset_above a b : int64_min <= microseconds a -> is_unset a = false -> ts_le a b -> is_unset b = false.
Proof. unfold is_unset, ts_le, kUnsetValue. rewrite !Z.eqb_neq. lia. Qed.

Lemma admit_edge_admitted name l p t t' :
  int64_min <= microseconds (timestamp p) ->
  admitted l t -> admit_edge name p t = Okay t' -> admitted (l ++ [p]) t'.
Proof.
  intros Hp H Ha. pose proof H as [H1 H2 H3 H4 H5 H6]. unfold admit_edge in Ha.
  destruct (is_bound p) eqn:Hb; [|destruct (is_eos p) eqn:He].
  - pose proof (bound_not_eos p Hb) as He. assert (is_data p = false) as Hd by (unfold is_data; by rewrite Hb).
    assert (t' = with_bound (timestamp p) t /\
            (is_unset (t_bound t) = false -> ts_le (t_bound t) (timestamp p))) as [-> Hle].
    { destruct (is_unset (t_bound t)); simpl in Ha; [by injection Ha as <-|].
      destruct (ts_ltb (timestamp p) (t_bound t)) eqn:Hlt; [done|]. apply ts_ltb_ge in Hlt.
      by injection Ha as <-. }
    apply (admitted_snoc l p t); simpl; try done.
    + apply Forall_forall. intros q Hq. split_and!; [congruence|congruence|].
      intros Hqb Hqu _. destruct (H5 q Hq Hqb Hqu) as [Hu Hqt]. etrans; [exact Hqt|auto].
    + congruence.
    + intros [|]; [done|congruence].
    + congruence.
    + intros Hu. split; [|auto]. apply (is_unset_above (t_bound t)); auto.
  - injection Ha as <-. assert (is_data p = false) as Hd by (unfold is_data; by rewrite He, andb_false_r).
    apply (admitted_snoc l p t); simpl; try done; try congruence.
    apply Forall_forall. intros q Hq. split_and!; [congruence|congruence|].
    intros _ _ [|]; congruence.
  - assert (is_data p = true) as Hd by (unfold is_data; by rewrite Hb, He).
    unfold ValidateStreamPacket in Ha. destruct (t_closed t) eqn:Hcl; [done|].
    destruct (is_range_value (timestamp p)) eqn:Hr; [|done]. cbn [negb] in Ha.
    destruct (negb (is_unset (t_bound t)) && ts_ltb (timestamp p) (t_bound t)) eqn:Hbd; [done|].
    destruct (is_range_value (last_timestamp t) && ts_ltb (timestamp p) (last_timestamp t)) eqn:Hls; [done|].
    injection Ha as <-.
    assert (is_unset (t_bound t) = false -> ts_le (t_bound t) (timestamp p)) as Hbd'.
    { intros Hu. rewrite Hu in Hbd. by apply ts_ltb_ge. }
    assert (is_range_value (last_timestamp t) = true -> ts_le (last_timestamp t) (timestamp p)) as Hls'.
    { intros Hu. rewrite Hu in Hls. by apply ts_ltb_ge. }
    apply (admitted_snoc l p t); simpl; try done; try congruence.
    + apply Forall_forall. intros q Hq. split_and!.
      * intros _. destruct (is_eos q) eqn:Hqe; [|done]. specialize (H3 q Hq Hqe). congruence.
      * intros Hqd _. destruct (H4 q Hq Hqd) as [Hu Hle]. etrans; [exact Hle|auto].
      * intros Hqb Hqu _. destruct (H5 q Hq Hqb Hqu) as [Hu Hle]. etrans; [exact Hle|auto].
    + intros [|]; congruence.
    + auto.
Qed.

Lemma admit_all_admitted name ps l t :
  Forall (fun p => int64_min <= microseconds (timestamp p)) ps -> admitted l t ->
  admitted (l ++ (admit_all name ps t).1) (admit_all name ps t).2.
Proof.
  intros Hps. revert l t. induction Hps as [|p ps Hp Hps IH]; intros l t H; simpl; [by rewrite app_nil_r|].
  destruct (admit_edge name p t) as [t'|] eqn:Ha; [|by apply IH].
  specialize (IH (l ++ [p]) t' (admit_edge_admitted _ _ _ _ _ Hp H Ha)).
  destruct (admit_all name ps t') as [k t'']. simpl in *. by rewrite <- app_assoc in IH.
Qed.

(** C8: The packets that an edge admits are in order: the data packets have non-decreasing
    range timestamps, none is below a bound that was announced before it, the bounds
    themselves do not move back, and no data packet is admitted after the end of the stream. *)
Theorem admission_ordered name q ps :
  Forall (fun p => int64_min <= microseconds (timestamp p)) ps ->
  ForallOrdPairs follows (admit_all name ps (new_transport q)).1 /\
  Forall (fun p => is_data p = true -> is_range_value (timestamp p) = true)
         (admit_all name ps (new_transport q)).1.
Proof.
  intros Hps. destruct (admit_all_admitted name ps [] (new_transport q) Hps) as [H1 H2 _ _ _ _]; [|done].
  split; simpl; [constructor|constructor|set_solver|set_solver|set_solver|]. unfold kUnsetValue. lia.
Qed.

Definition at_time (n : Z) : Packet := Make (PlOther "int" n) (FromMicroseconds n).

Lemma admission_ordered_witness :
  (admit_all "a.out" [at_time 5; at_time 3; Event kTimestampBound (FromMicroseconds 8); at_time 7; at_time 9;
                      Event kEndOfStream Done; at_time 10] (new_transport (mkQueueConfig 4 kBlock))).1 =
  [at_time 5; Event kTimestampBound (FromMicroseconds 8); at_time 9; Event kEndOfStream Done] /\
  ForallOrdPairs follows
    [at_time 5; Event kTimestampBound (FromMicroseconds 8); at_time 9; Event kEndOfStream Done].
Proof.
  assert (Forall (fun p => int64_min <= microseconds (timestamp p))
            [at_time 5; at_time 3; Event kTimestampBound (FromMicroseconds 8); at_time 7; at_time 9;
             Event kEndOfStream Done; at_time 10]) as H.
  { repeat constructor; vm_compute; discriminate. }
  destruct (admission_ordered "a.out" (mkQueueConfig 4 kBlock) _ H) as [Hf _].
  split; [vm_compute; reflexivity|]. exact Hf.
Defined.

(** Two producers of one input: both are admitted in order and push in the other order. *)
Lemma admission_reordered :
  exists s ts, rtc (session_step counter_config counter_classes no_templates) (counter_session, []) (s, ts) /\
    exists t, transport (NS := nat) (SInput "numbers") s = Some t /\ queue (t_queue t) = [at_time 2; at_time 1].
Proof.
  pose (c := (counter_session, [discard (NS := nat) (AddPacket "numbers" (at_time 1));
                                discard (AddPacket "numbers" (at_time 2))])).
  assert (match pexec [0; 0; 0; 1; 1; 1; 1; 0]%nat c with
          | Some x => match transport (SInput "numbers") x.1 with Some t => queue (t_queue t) | None => [] end
          | None => []
          end = [at_time 2; at_time 1]) as Hr by (vm_compute; reflexivity).
  destruct (pexec [0; 0; 0; 1; 1; 1; 1; 0]%nat c) as [[s ts]|] eqn:Hc; [cbn [fst] in Hr|done].
  exists s, ts. split.
  - eapply rtc_l; [apply (pstep_spawn _ _ _ [] (discard (AddPacket "numbers" (at_time 1))));
                   apply spawn_client, client_add|].
    eapply rtc_l; [apply (pstep_spawn _ _ _ [_] (discard (AddPacket "numbers" (at_time 2))));
                   apply spawn_client, client_add|].
    apply (pexec_steps _ _ _ _ _ Hc).
  - clear Hc. destruct (transport (SInput "numbers") s) as [t|]; [|discriminate].
    exists t. split; [reflexivity|exact Hr].
Qed.
