(* ===== verification/Lifecycle.v ===== *)
(** * Stopping a graph

    [GraphRunner::Stop] when nothing else runs: it returns, every node of the
    graph goes through its [Stop] and its [Close], and nothing of the session is
    left. *)

From S2P Require Import Prelude Status Timestamp Values BoundedQueue Telemetry Contract Node GraphConfig InputSync Observers Sources Atomic RunnerState Runner RunnerFacts.
Local Open Scope prog_scope.
Local Open Scope Z_scope.
#[local] Arguments Atomic.bind : simpl never.

Section stop.
Context {NS : Type}.
Abbreviation St := (State NS).
Implicit Types (s : St) (ids : list string).

(** ** Nodes of a cancelled graph *)

(** What a node's calls are answered with once the graph is cancelled. *)
Definition cancelled_handler (now : Z) : Handler unit :=
  mkHandler (fun _ _ w => (Cancelled "graph is cancelled", w)) (fun _ w => w) (fun _ _ w => w)
            (fun w => (now, w)).

Definition set_object (o : NodeObj NS) (n : RuntimeNode NS) : RuntimeNode NS :=
  mkRuntimeNode (rn_config n) (rn_contract n) (rn_class n) o (rn_inputs n) (processing n).

(** [s] with other node objects and other metrics. *)
Definition with_nodes (ns : gmap string (RuntimeNode NS)) m s : St := set_metrics m (set_nodes ns s).

Lemma with_nodes_id s : with_nodes (nodes_ s) (metrics_ s) s = s.
Proof. by destruct s. Qed.

Lemma run_node_prog {A} id (prg : NodeM (NodeObj NS) A) s n :
  cancelled_ s = true -> nodes_ s !! id = Some n ->
  exists m, run (node_prog id prg) s =
    Some ((nrun (cancelled_handler (clock_us s)) prg (rn_node n) tt).1.1,
          with_nodes (<[id := set_object (nrun (cancelled_handler (clock_us s)) prg (rn_node n) tt).1.2 n]>
                        (nodes_ s)) m s).
Proof.
  revert s n. induction prg as [a|B f k IH|port p k IH|nm k IH|nm v k IH|B f k IH]; intros s n Hc Hn; simpl.
  - exists (metrics_ s). assert (set_object (rn_node n) n = n) as -> by by destruct n.
    by rewrite insert_id, with_nodes_id.
  - rewrite Hn. destruct (f (rn_node n)) as [b o].
    set (s1 := put_node id (set_object o n) s).
    destruct (IH b s1 (set_object o n)) as [m Hm]; [done|apply lookup_insert_eq|]. exists m.
    fold (set_object o n). fold s1. rewrite Hm. simpl.
    by rewrite insert_insert_eq.
  - rewrite run_bind. unfold Emit. rewrite run_bind. simpl. rewrite Hc. simpl. by apply IH.
  - rewrite run_bind. simpl. destruct (IH (increment nm s) n) as [m Hm]; [done|done|]. exists m. by rewrite Hm.
  - rewrite run_bind. simpl. destruct (IH (gauge nm v s) n) as [m Hm]; [done|done|]. exists m. by rewrite Hm.
  - rewrite Hn. destruct (f (clock_us s) (rn_node n)) as [b o].
    set (s1 := put_node id (set_object o n) s).
    destruct (IH b s1 (set_object o n)) as [m Hm]; [done|apply lookup_insert_eq|]. exists m.
    fold (set_object o n). fold s1. rewrite Hm. simpl.
    by rewrite insert_insert_eq.
Qed.

(** A hook [f] of the nodes [ids], one after the other. *)
Definition hook_one {A} (now : Z) (f : RuntimeNode NS -> NodeM (NodeObj NS) A)
    (ns : gmap string (RuntimeNode NS)) (id : string) : gmap string (RuntimeNode NS) :=
  match ns !! id with
  | Some n => <[id := set_object (nrun (cancelled_handler now) (f n) (rn_node n) tt).1.2 n]> ns
  | None => ns
  end.

Lemma run_with_node {A} id (a : A) (f : RuntimeNode NS -> prog St A) s :
  run (with_node id a f) s = match nodes_ s !! id with Some n => run (f n) s | None => Some (a, s) end.
Proof. unfold with_node. rewrite run_bind. simpl. by destruct (nodes_ s !! id). Qed.

(** [body] runs the hook and forgets its result. *)
Lemma run_hooks {A} (f : RuntimeNode NS -> NodeM (NodeObj NS) A)
    (body : string -> RuntimeNode NS -> prog St unit) ids s :
  (forall id n s, run (body id n) s =
     match run (node_prog id (f n)) s with Some (_, s') => Some (tt, s') | None => None end) ->
  cancelled_ s = true ->
  exists m, run (for_each ids (fun id => with_node id tt (body id))) s =
    Some (tt, with_nodes (fold_left (hook_one (clock_us s) f) ids (nodes_ s)) m s).
Proof.
  intros Hb. revert s. induction ids as [|id ids IH]; intros s Hc; cbn [for_each fold_left].
  - exists (metrics_ s). simpl. by rewrite with_nodes_id.
  - rewrite run_bind, run_with_node.
    unfold hook_one at 2. destruct (nodes_ s !! id) as [n|] eqn:Hn; [|by apply IH].
    rewrite Hb. destruct (run_node_prog id (f n) s n Hc Hn) as [m Hm]. rewrite Hm.
    match goal with |- context [run _ (with_nodes ?ns m s)] => destruct (IH (with_nodes ns m s)) as [m' Hm'] end;
      [done|]. exists m'. by rewrite Hm'.
Qed.

Lemma hook_one_lookup {A} now (f : RuntimeNode NS -> NodeM (NodeObj NS) A) ns id id' :
  hook_one now f ns id !! id' =
  if bool_decide (id' = id)
  then (fun n => set_object (nrun (cancelled_handler now) (f n) (rn_node n) tt).1.2 n) <$> ns !! id
  else ns !! id'.
Proof.
  unfold hook_one. case_bool_decide as E.
  - subst. destruct (ns !! id) eqn:Hn; simpl; [by rewrite lookup_insert_eq|done].
  - destruct (ns !! id); [by rewrite lookup_insert_ne|done].
Qed.

(** A hook that runs for all nodes takes them from [P] to [Q]. *)
Lemma hooks_spec {A} now (f : RuntimeNode NS -> NodeM (NodeObj NS) A) (P Q : string -> RuntimeNode NS -> Prop) ids ns :
  NoDup ids -> (forall id n, ns !! id = Some n -> if bool_decide (id ∈ ids) then P id n else Q id n) ->
  (forall id n, P id n -> Q id (set_object (nrun (cancelled_handler now) (f n) (rn_node n) tt).1.2 n)) ->
  dom (fold_left (hook_one now f) ids ns) = dom ns /\
  forall id n, fold_left (hook_one now f) ids ns !! id = Some n -> Q id n.
Proof.
  intros Hnd HP HQ. revert ns HP. induction ids as [|x ids IH]; intros ns HP; simpl.
  - split; [done|]. intros id n Hn. by specialize (HP id n Hn).
  - apply NoDup_cons in Hnd as [Hx Hnd]. destruct (IH Hnd (hook_one now f ns x)) as [H1 H2].
    { intros id n Hn. rewrite hook_one_lookup in Hn. case_bool_decide as E.
      - subst. rewrite bool_decide_eq_false_2 by done. destruct (ns !! x) as [n0|] eqn:Hn0; [|done].
        injection Hn as <-. apply HQ. specialize (HP x n0 Hn0). by rewrite bool_decide_eq_true_2 in HP by set_solver.
      - specialize (HP id n Hn). by rewrite (bool_decide_ext (id ∈ ids) (id ∈ x :: ids)) by set_solver. }
    split; [|done]. rewrite H1. unfold hook_one. destruct (ns !! x) as [n|] eqn:Hn; [|done].
    rewrite dom_insert_L. apply elem_of_dom_2 in Hn. set_solver.
Qed.

(** ** The other steps of [Stop] *)

Definition with_streams es ins s : St := set_edges es (set_graph_inputs ins s).

Lemma with_streams_id s : with_streams (edges_ s) (graph_inputs_ s) s = s.
Proof. by destruct s. Qed.

Lemma modify_transport_streams st f s : exists es ins, modify_transport st f s = with_streams es ins s.
Proof.
  unfold modify_transport. destruct (transport st s) as [t|].
  - destruct st as [i|n]; simpl; [exists (alter (set_er_transport (f t)) i (edges_ s)), (graph_inputs_ s)|
      exists (edges_ s), (alter (set_ir_transport (f t)) n (graph_inputs_ s))]; by destruct s.
  - exists (edges_ s), (graph_inputs_ s). by rewrite with_streams_id.
Qed.

Lemma run_close_each {A} (l : list A) (st : A -> Stream) (f : Transport -> Transport) s :
  exists es ins, run (for_each l (fun x => update (modify_transport (st x) f))) s =
                Some (tt, with_streams es ins s).
Proof.
  revert s. induction l as [|x l IH]; intros s; cbn [for_each].
  - exists (edges_ s), (graph_inputs_ s). simpl. by rewrite with_streams_id.
  - rewrite run_bind. simpl. destruct (modify_transport_streams (st x) f s) as (es & ins & ->).
    destruct (IH (with_streams es ins s)) as (es' & ins' & ->). by exists es', ins'.
Qed.

Lemma run_CloseQueues s : exists es ins, run CloseQueues s = Some (tt, with_streams es ins s).
Proof.
  unfold CloseQueues. rewrite run_bind. simpl. rewrite run_bind.
  match goal with |- context [for_each ?l _] => destruct (run_close_each l SInput
    (fun t => put_queue (BoundedQueue.Close (t_queue t)) t) s) as (es & ins & ->) end.
  rewrite run_bind. simpl.
  match goal with |- context [for_each ?l _] => destruct (run_close_each l SEdge
    (fun t => put_queue (BoundedQueue.Close (t_queue t)) t) (with_streams es ins s)) as (es' & ins' & ->) end.
  by exists es', ins'.
Qed.

Lemma run_stop_control s : control_executor_ s <> Some true ->
  run stop_control s = Some (tt, set_control_executor None s).
Proof. intros Hc. simpl. by destruct (control_executor_ s) as [[|]|]. Qed.

Definition drained_executors (m : gmap string Executor) : Prop :=
  forall name e, m !! name = Some e -> ex_tasks e = [] /\ ex_active e = 0%nat.

Lemma run_stop_executors l s : drained_executors (executors_ s) ->
  exists m, run (for_each l (fun name => update (stop_executor name);;; await (executor_drained name))) s =
            Some (tt, set_executors m s).
Proof.
  revert s. induction l as [|name l IH]; intros s Hd; cbn [for_each].
  - exists (executors_ s). simpl. by destruct s.
  - rewrite run_bind, run_bind. simpl.
    assert (exists m, stop_executor name s = set_executors m s /\ drained_executors m) as (m & -> & Hm).
    { unfold stop_executor. destruct (executors_ s !! name) as [e|] eqn:He.
      - eexists. split; [done|]. intros n' e' [[<- <-]|[_ Hn]]%lookup_insert_Some; [|by apply (Hd n')].
        by destruct (Hd name e He).
      - exists (executors_ s). split; [by destruct s|done]. }
    assert (executor_drained name (set_executors m s) = true) as ->.
    { unfold executor_drained. simpl. destruct (m !! name) as [e|] eqn:He; [|done].
      destruct (Hm name e He) as [-> ->]. done. }
    destruct (IH (set_executors m s) Hm) as [m' ->]. by exists m'.
Qed.

(** ** The whole of [Stop] *)

(** A session that is idle, whether it was started or is still being set up: the nodes are
    those that were opened, each once, no task is left and no operation or control operation
    runs. *)
Definition quiet_session s : Prop :=
  stopping_ s = false /\ active_operations_ s = 0%nat /\
  drained_executors (executors_ s) /\ NoDup (lifecycle_order_ s) /\
  (forall id, id ∈ lifecycle_order_ s <-> is_Some (nodes_ s !! id)) /\
  control_executor_ s <> Some true.

(** A runner that is running and idle. *)
Definition idle_session s : Prop := running_ s = true /\ quiet_session s.

(** Nothing of a session. *)
Definition no_session s : Prop :=
  running_ s = false /\ stopping_ s = false /\ nodes_ s = ∅ /\ lifecycle_order_ s = [] /\
  edges_ s = [] /\ routes_ s = ∅ /\ graph_inputs_ s = ∅ /\ graph_outputs_ s = ∅ /\ open_inputs_ s = ∅ /\
  open_source_nodes_ s = ∅ /\ executors_ s = ∅ /\ control_executor_ s = None /\
  sources_ (source_table s) = ∅ /\ active_sources_ (source_table s) = 0.

(** The table of nodes after the three passes over it. *)
Definition stopped_nodes (now : Z) (order ids : list string) (ns : gmap string (RuntimeNode NS))
  : gmap string (RuntimeNode NS) :=
  fold_left (hook_one now (fun n => Node.Close (rn_class n))) (rev order)
    (fold_left (hook_one now (fun n => Node.Stop (rn_class n))) (rev order)
      (fold_left (hook_one now (fun n => RequestStop (rn_class n))) ids ns)).

(** The object is what [Close] has made of a node that did not run. *)
Definition put_away (cls : NodeClass NS) (o : NodeObj NS) : Prop :=
  exists (h : Handler unit) o0, at_rest o0 /\ o = (nrun h (Node.Close cls) o0 tt).1.2.

Lemma put_away_closed cls o : put_away cls o -> closed_or_failed o.
Proof. intros (h & o0 & Ho & ->). by apply close_at_rest. Qed.

Lemma stopped_nodes_spec now order ids ns : NoDup order -> NoDup ids ->
  (forall id, id ∈ order <-> is_Some (ns !! id)) -> (forall id, is_Some (ns !! id) -> id ∈ ids) ->
  dom (stopped_nodes now order ids ns) = dom ns /\
  forall id n, stopped_nodes now order ids ns !! id = Some n ->
    exists n0, ns !! id = Some n0 /\ put_away (rn_class n0) (rn_node n).
Proof.
  intros Ho Hi Hin Hids. unfold stopped_nodes.
  assert (NoDup (rev order)) as Hr by by apply NoDup_ListNoDup, List.NoDup_rev, NoDup_ListNoDup.
  assert (forall id, is_Some (ns !! id) -> id ∈ rev order) as Hrev.
  { intros id Hid. rewrite list_elem_of_In, <- in_rev, <- list_elem_of_In. by apply Hin. }
  set (P := fun (rest : NodeObj NS -> Prop) id (n : RuntimeNode NS) =>
    exists n0, ns !! id = Some n0 /\ rn_class n = rn_class n0 /\ rest (rn_node n)).
  destruct (hooks_spec now (fun n => RequestStop (rn_class n)) (P (fun _ => True)) (P (fun _ => True)) ids ns)
    as [D1 Q1]; [done| |by intros id n (n0 & ? & ? & _); exists n0|].
  { intros id n Hn. rewrite bool_decide_eq_true_2 by (apply Hids; by exists n). by exists n. }
  set (ns1 := fold_left _ ids ns) in *.
  destruct (hooks_spec now (fun n => Node.Stop (rn_class n)) (P (fun _ => True)) (P at_rest) (rev order) ns1)
    as [D2 Q2]; [done| |intros id n (n0 & ? & ? & _); exists n0; split_and!; [done|done|apply stop_at_rest]|].
  { intros id n Hn. specialize (Q1 id n Hn) as (n0 & ? & ? & _).
    rewrite bool_decide_eq_true_2 by (apply Hrev; by exists n0). by exists n0. }
  set (ns2 := fold_left _ (rev order) ns1) in *.
  destruct (hooks_spec now (fun n => Node.Close (rn_class n)) (P at_rest)
    (fun id n => exists n0, ns !! id = Some n0 /\ put_away (rn_class n0) (rn_node n)) (rev order) ns2) as [D3 Q3];
    [done| | |split; [congruence|done]].
  - intros id n Hn. specialize (Q2 id n Hn) as HP. pose proof HP as (n0 & ? & _).
    by rewrite bool_decide_eq_true_2 by (apply Hrev; by exists n0).
  - intros id n (n0 & Hn0 & Hc & Hrest). exists n0. split; [done|]. rewrite <- Hc. by eexists _, _.
Qed.

(** The objects that are destroyed with the table of nodes. *)
Lemma retired_spec (ns ns' : gmap string (RuntimeNode NS)) (P : string -> NodeObj NS -> Prop) :
  dom ns' = dom ns -> (forall id n, ns' !! id = Some n -> P id (rn_node n)) ->
  let l := map (fun kv => (kv.1, rn_node kv.2)) (map_to_list ns') in
  NoDup l.*1 /\ (forall id, id ∈ l.*1 <-> is_Some (ns !! id)) /\ Forall (fun io => P io.1 io.2) l.
Proof.
  intros Hdom HP. simpl. split_and!.
  - rewrite <- list_fmap_compose. apply (NoDup_fst_map_to_list ns').
  - intros id. rewrite <- elem_of_dom, <- Hdom, elem_of_dom, list_elem_of_fmap. split.
    + intros ([id' o] & -> & Hin'). apply list_elem_of_In, in_map_iff in Hin' as ([k n] & [= <- <-] & Hk).
      apply list_elem_of_In, elem_of_map_to_list in Hk. by exists n.
    + intros [n Hn]. exists (id, rn_node n). split; [done|]. apply list_elem_of_In, in_map_iff.
      exists (id, n). split; [done|]. by apply list_elem_of_In, elem_of_map_to_list.
  - apply Forall_forall. intros [id o] Hin'. apply list_elem_of_In, in_map_iff in Hin' as ([k n] & [= <- <-] & Hk).
    apply list_elem_of_In, elem_of_map_to_list in Hk. by eapply HP.
Qed.

(** What becomes of the nodes [ns] of a session that ends: each is destroyed once, after its
    own [Close]. *)
Definition all_put_away (ns : gmap string (RuntimeNode NS)) (l : list (string * NodeObj NS)) : Prop :=
  NoDup l.*1 /\ (forall id, id ∈ l.*1 <-> is_Some (ns !! id)) /\
  Forall (fun io => exists n, ns !! io.1 = Some n /\ put_away (rn_class n) io.2) l.

(** [Stop] of a session that is idle and not empty. *)
Lemma run_Stop s : quiet_session s -> running_ s = true \/ nodes_ s <> ∅ \/ executors_ s <> ∅ ->
  exists s', run Stop s = Some (tt, s') /\ no_session s' /\ cancelled_ s' = true /\
    exists l, retired_nodes s' = retired_nodes s ++ l /\ all_put_away (nodes_ s) l.
Proof.
  intros (Hst & Hop & Hex & Hnd & Hin & Hctl) Hgo. unfold Stop, begin_stop, finish_stop.
  assert (negb (running_ s) && bool_decide (nodes_ s = ∅) && bool_decide (executors_ s = ∅) = false) as Hr.
  { destruct Hgo as [-> |[H|H]]; [done|by rewrite (bool_decide_eq_false_2 _ H), andb_false_r|].
    by rewrite (bool_decide_eq_false_2 _ H), andb_false_r. }
  rewrite run_bind. cbn [run blocking]. rewrite Hst, Hr. cbn [negb].
  rewrite run_update. unfold update_table. rewrite run_update, run_read.
  match goal with |- context [run _ ?st] => set (s1 := st) end.
  rewrite run_bind.
  match goal with |- context [for_each ?l _] => set (ids := l);
    destruct (run_hooks (fun n => RequestStop (rn_class n))
      (fun id n => node_prog id (RequestStop (rn_class n))) ids s1) as [m1 ->] end; [|done|].
  { intros id n x. by destruct (run (node_prog id (RequestStop (rn_class n))) x) as [[[] ?]|]. }
  match goal with |- context [run _ (with_nodes ?ns m1 s1)] => set (s2 := with_nodes ns m1 s1) end.
  rewrite run_bind. destruct (run_CloseQueues s2) as (es & ins & ->). set (s3 := with_streams es ins s2).
  rewrite run_bind, (run_stop_control s3) by exact Hctl. rewrite run_read, run_bind.
  match goal with |- context [run (for_each _ _) ?st] => set (s4 := st) end.
  match goal with |- context [run (for_each ?l _) s4] => destruct (run_stop_executors l s4) as [m2 ->] end;
    [exact Hex|].
  rewrite run_await by (apply bool_decide_eq_true_2; exact Hop). rewrite run_read, run_bind.
  change (lifecycle_order_ (set_executors m2 s4)) with (lifecycle_order_ s).
  destruct (run_hooks (fun n => Node.Stop (rn_class n))
    (fun id n => node_prog id (Node.Stop (rn_class n));;; Ret tt) (rev (lifecycle_order_ s)) (set_executors m2 s4))
    as [m3 ->]; [|done|].
  { intros id n x. rewrite run_bind. by destruct (run (node_prog id _) x) as [[? ?]|]. }
  rewrite run_bind.
  match goal with |- context [run (for_each _ _) ?st] => set (s5 := st) end.
  destruct (run_hooks (fun n => Node.Close (rn_class n))
    (fun id n => node_prog id (Node.Close (rn_class n));;; Ret tt) (rev (lifecycle_order_ s)) s5)
    as [m4 ->]; [|done|].
  { intros id n x. rewrite run_bind. by destruct (run (node_prog id _) x) as [[? ?]|]. }
  rewrite run_update.
  destruct (stopped_nodes_spec (clock_us s) (lifecycle_order_ s) ids (nodes_ s) Hnd) as [Hdom Hclosed];
    [apply NoDup_fst_map_to_list|done| |].
  { intros id [n Hn]. apply list_elem_of_fmap. exists (id, n). split; [done|]. by apply elem_of_map_to_list. }
  eexists. split; [reflexivity|]. split; [by split_and!|]. split; [done|].
  exists (map (fun kv => (kv.1, rn_node kv.2)) (map_to_list (stopped_nodes (clock_us s) (lifecycle_order_ s) ids (nodes_ s)))).
  split; [reflexivity|]. apply (retired_spec (nodes_ s) _
    (fun id o => exists n, nodes_ s !! id = Some n /\ put_away (rn_class n) o)); [by rewrite Hdom|done].
Qed.

(** C12: Stopping an idle graph returns; afterwards nothing of the session is left, the graph
    is marked as cancelled, and every node of the graph has been destroyed once, after its own [Close], in the closed
    state, or in the error state when its own [OnClose] failed. *)
Theorem stop_closes_every_node s : idle_session s ->
  exists s', run Stop s = Some (tt, s') /\ no_session s' /\ cancelled_ s' = true /\
    exists l, retired_nodes s' = retired_nodes s ++ l /\ all_put_away (nodes_ s) l /\
      Forall (fun io => closed_or_failed io.2) l.
Proof.
  intros [Hr Hq]. destruct (run_Stop s Hq) as (s' & Hs & Hn & Hc & l & Hl & Hp); [by left|].
  exists s'. split_and!; [done..|]. exists l. split_and!; [done..|]. destruct Hp as (_ & _ & Hp).
  eapply Forall_impl; [exact Hp|]. intros io (n & _ & Ho). by eapply put_away_closed.
Qed.
End stop.

Lemma idle_one_node {NS} (s : State NS) id name :
  running_ s = true -> stopping_ s = false -> active_operations_ s = 0%nat ->
  executors_ s = {[name := mkExec 1 true [] 0]} -> lifecycle_order_ s = [id] -> dom (nodes_ s) = {[id]} ->
  control_executor_ s = Some false -> idle_session s.
Proof.
  intros Hr Hst Hop Hx Ho Hd Hc. split; [done|]. split_and!; [done..| | | |by rewrite Hc].
  - intros name' e. rewrite Hx. by intros [_ <-]%lookup_singleton_Some.
  - rewrite Ho. apply NoDup_singleton.
  - intros id'. by rewrite Ho, <- elem_of_dom, Hd, list_elem_of_singleton, elem_of_singleton.
Qed.

Lemma counter_idle : idle_session counter_done.
Proof. apply (idle_one_node counter_done "count" "default"); vm_compute; reflexivity. Qed.

Lemma stop_closes_every_node_witness :
  exists s', run Stop counter_done = Some (tt, s') /\ nodes_ s' = ∅ /\
             map (fun io => (io.1, state_ io.2)) (retired_nodes s') = [("count", kClosed)].
Proof.
  destruct (stop_closes_every_node counter_done counter_idle) as (s' & Hs' & Hn & _ & _).
  exists s'. split; [exact Hs'|]. split; [apply Hn|].
  assert (match run Stop counter_done with
          | Some (_, s) => map (fun io => (io.1, state_ io.2)) (retired_nodes s) | None => [] end =
          [("count", kClosed)]) as E by (vm_compute; reflexivity).
  rewrite Hs' in E. exact E.
Defined.
