(* ===== verification/Starting.v ===== *)
(** * Starting a graph

    [GraphRunner::Start] from a runner without a session: it gets as far as starting the nodes
    with all of the graph in place, or it fails and leaves nothing behind. *)

From S2P Require Import Prelude Status Timestamp Values BoundedQueue Telemetry Contract Node Registry Services GraphConfig Graph GraphFacts InputSync Observers Sources Atomic RunnerState Runner RunnerFacts Lifecycle.
Import Services.SidePackets.
Local Open Scope prog_scope.
Local Open Scope Z_scope.
#[local] Arguments Atomic.bind : simpl never.

Section start.
Context {NS : Type} (config : GraphConfig) (classes : gmap string (NodeClass NS * NS)).
Abbreviation St := (State NS).
Implicit Types (s : St) (c : NodeConfig) (l : list NodeConfig).

(** ** Nodes that open *)

(** What becomes of a new node of class [ci] that is configured and opened. *)
Definition opening c (ci : NodeClass NS * NS) : Status * NodeObj NS :=
  (nrun quiet (nbind (Configure ci.1 (nc_options c)) (fun r => if ok r then Open ci.1 else NRet r))
     (new_node ci.2) tt).1.

Definition opens c : bool :=
  match classes !! nc_type c with Some ci => ok (opening c ci).1 | None => false end.

(** The nodes that [Start] creates: those up to the first that does not open. *)
Fixpoint attempted l : list NodeConfig :=
  match l with
  | [] => []
  | c :: l => if opens c then c :: attempted l else [c]
  end.

Lemma attempted_all l : forallb opens l = true -> attempted l = l.
Proof.
  induction l as [|c l IH]; simpl; [done|]. intros [-> H]%andb_true_iff. by rewrite IH.
Qed.

Lemma open_state {W} (h : Handler W) (cls : NodeClass NS) o w :
  state_ o = kConfigured ->
  let r := (nrun h (Open cls) o w).1 in
  if ok r.1 then state_ r.2 = kOpen else at_rest r.2.
Proof.
  intros Hs. unfold Open. rewrite nrun_load, Hs. simpl negb. cbn iota.
  rewrite nrun_bind, nrun_lift. destruct (nrun h (OnOpen cls) (self o) w) as [[r s] w']. simpl.
  unfold at_rest. destruct (ok r) eqn:E; simpl; rewrite ?E; done.
Qed.

Lemma configure_state {W} (h : Handler W) (cls : NodeClass NS) options i w :
  let r := (nrun h (Configure cls options) (new_node i) w).1 in
  if ok r.1 then state_ r.2 = kConfigured else at_rest r.2.
Proof.
  unfold Configure. rewrite nrun_load. simpl negb. cbn iota.
  destruct (ok (ValidateOptions (Contract cls) options)) eqn:E; simpl negb; cbn iota.
  - rewrite nrun_bind, nrun_lift. destruct (nrun h (OnConfigure cls options) _ w) as [[r s] w']. simpl.
    unfold at_rest. destruct (ok r) eqn:E'; simpl; rewrite ?E'; done.
  - unfold at_rest. simpl. rewrite E. simpl. rewrite ?E. done.
Qed.

Lemma opening_state c ci :
  if ok (opening c ci).1 then state_ (opening c ci).2 = kOpen else at_rest (opening c ci).2.
Proof.
  unfold opening. rewrite nrun_bind.
  pose proof (configure_state quiet ci.1 (nc_options c) ci.2 tt) as Hc. cbv zeta in Hc.
  destruct (nrun quiet (Configure ci.1 (nc_options c)) (new_node ci.2) tt) as [[r o] w]. cbn [fst snd] in *.
  destruct (ok r) eqn:E; [by apply open_state|]. cbn [nrun fst snd]. by rewrite E.
Qed.

(** ** A session that is being set up *)

(** A node of the graph, of the class its configuration names. *)
Definition class_of (id : string) (cls : NodeClass NS) : Prop :=
  exists c ci, c ∈ nodes config /\ nc_id c = id /\ classes !! nc_type c = Some ci /\ cls = ci.1.
Definition created_as (id : string) (n : RuntimeNode NS) : Prop := class_of id (rn_class n).

(** The nodes [l] are open, in this order; nothing runs yet. *)
Definition setting_up l s : Prop :=
  running_ s = false /\ quiet_session s /\ executors_ s <> ∅ /\ lifecycle_order_ s = map nc_id l /\
  map_Forall (fun id n => created_as id n /\ state_ (rn_node n) = kOpen) (nodes_ s).

(** Everything [setting_up] speaks of. *)
Definition same_setup s s' : Prop :=
  running_ s' = running_ s /\ stopping_ s' = stopping_ s /\ active_operations_ s' = active_operations_ s /\
  executors_ s' = executors_ s /\ lifecycle_order_ s' = lifecycle_order_ s /\ nodes_ s' = nodes_ s /\
  control_executor_ s' = control_executor_ s /\ retired_nodes s' = retired_nodes s.

#[local] Instance same_setup_preorder : PreOrder same_setup.
Proof.
  split; [by intros s; split_and!|].
  intros s1 s2 s3 (?&?&?&?&?&?&?&?) (?&?&?&?&?&?&?&?). split_and!; congruence.
Qed.

Lemma setting_up_same l s s' : same_setup s s' -> setting_up l s -> setting_up l s'.
Proof.
  intros (H1&H2&H3&H4&H5&H6&H7&H8). unfold setting_up, quiet_session.
  by rewrite H1, H2, H3, H4, H5, H6, H7.
Qed.

(** Nothing of this and none of the side packets changes. *)
Definition kept s s' : Prop := same_setup s s' /\ side_packets_ s' = side_packets_ s.

#[local] Instance kept_preorder : PreOrder kept.
Proof. split; [by intros s; split|]. intros s1 s2 s3 [? ?] [? ?]. split; [by etrans|congruence]. Qed.

Lemma kept_fold {A} (f : A -> St -> St) (l : list A) s :
  (forall a s, kept s (f a s)) -> kept s (fold_left (fun s a => f a s) l s).
Proof.
  intros Hf. revert s. induction l as [|a l IH]; intros s; simpl; [done|].
  etrans; [apply (Hf a)|apply IH].
Qed.

Lemma kept_wire s : kept s (wire config s).
Proof.
  unfold wire. etrans; [|apply (kept_fold add_output); intros; by split_and!].
  etrans; [|by split_and!].
  etrans; [|apply (kept_fold add_input); intros i s0; unfold add_input;
    destruct (graph_inputs_ s0 !! gp_name i); by split_and!].
  apply (kept_fold add_edge). intros. by split_and!.
Qed.

(** ** The executors *)

Lemma run_start_executors (xs : list ExecutorConfig) s : drained_executors (executors_ s) ->
  exists m, run (for_each xs (fun x => update (start_executor x))) s = Some (tt, set_executors m s) /\
    drained_executors m /\ (forall k, is_Some (executors_ s !! k) \/ k ∈ map ex_name xs -> is_Some (m !! k)).
Proof.
  revert s. induction xs as [|x xs IH]; intros s Hd; cbn [for_each].
  - exists (executors_ s). split_and!; [by destruct s|done|]. intros k [H|H]; [done|]. by apply not_elem_of_nil in H.
  - rewrite run_bind. simpl.
    assert (exists m, start_executor x s = set_executors m s /\ drained_executors m /\
      (forall k, is_Some (executors_ s !! k) \/ k = ex_name x -> is_Some (m !! k))) as (m & -> & Hm & Hk).
    { unfold start_executor. destruct (executors_ s !! ex_name x) as [e|] eqn:He.
      - exists (executors_ s). split_and!; [by destruct s|done|]. intros k [H|H]; [done|]. subst. by eexists.
      - eexists. split; [done|]. split.
        + intros n' e' [[<- <-]|[_ Hn]]%lookup_insert_Some; [done|by apply (Hd n')].
        + intros k Hk. destruct (decide (k = ex_name x)) as [->|Hne]; [by rewrite lookup_insert_eq|].
          rewrite lookup_insert_ne by done. by destruct Hk. }
    destruct (IH (set_executors m s) Hm) as (m' & -> & Hm' & Hk'). exists m'. split_and!; [done|done|].
    intros k Hin. apply Hk'. rewrite elem_of_cons in Hin. simpl. naive_solver.
Qed.

(** ** Opening the nodes *)

(** The entry that an open node gets. *)
Definition enter c (ci : NodeClass NS * NS) (o : NodeObj NS) s : St :=
  let s1 := put_node (nc_id c) (mkRuntimeNode c (effective_contract c (Contract ci.1)) ci.1 o empty_inputs false) s in
  let s2 := set_lifecycle_order (lifecycle_order_ s1 ++ [nc_id c]) s1 in
  if bool_decide (length (inputs (effective_contract c (Contract ci.1))) = 0%nat)
  then set_open_source_nodes ({[nc_id c]} ∪ open_source_nodes_ s2) s2 else s2.

Lemma enter_fields c ci o s :
  running_ (enter c ci o s) = running_ s /\ stopping_ (enter c ci o s) = stopping_ s /\
  active_operations_ (enter c ci o s) = active_operations_ s /\ executors_ (enter c ci o s) = executors_ s /\
  control_executor_ (enter c ci o s) = control_executor_ s /\ retired_nodes (enter c ci o s) = retired_nodes s /\
  side_packets_ (enter c ci o s) = side_packets_ s /\
  lifecycle_order_ (enter c ci o s) = lifecycle_order_ s ++ [nc_id c] /\
  nodes_ (enter c ci o s) =
    <[nc_id c := mkRuntimeNode c (effective_contract c (Contract ci.1)) ci.1 o empty_inputs false]> (nodes_ s).
Proof. unfold enter. by case_bool_decide. Qed.

Lemma enter_setting_up l c ci s : setting_up l s -> nc_id c ∉ map nc_id l ->
  c ∈ nodes config -> classes !! nc_type c = Some ci ->
  state_ (opening c ci).2 = kOpen -> setting_up (l ++ [c]) (enter c ci (opening c ci).2 s).
Proof.
  intros (Hr & (Hst & Ha & Hd & Hnd & Hin & Hc) & Hx & Ho & Hn) Hfresh Hc0 Hci Hopen.
  destruct (enter_fields c ci (opening c ci).2 s) as (E1&E2&E3&E4&E5&_&_&E7&E8).
  unfold setting_up, quiet_session. rewrite E1, E2, E3, E4, E5, E7, E8, Ho, map_app. rewrite Ho in Hnd, Hin.
  split_and!; try done.
  - apply NoDup_app. split_and!; [done| |by apply NoDup_singleton].
    intros x Hx1 ->%list_elem_of_singleton. done.
  - intros id. rewrite elem_of_app, Hin, list_elem_of_singleton, lookup_insert_is_Some'. naive_solver.
  - apply map_Forall_insert_2; [|done]. split; [by exists c, ci|exact Hopen].
Qed.

Lemma run_open_node c ci s : classes !! nc_type c = Some ci ->
  run (open_node classes c) s =
  if opens c then Some (Ok, enter c ci (opening c ci).2 s)
  else Some (Internal ("node " +:+ nc_id c +:+ ": " +:+ message (opening c ci).1),
             retire [(nc_id c, (nrun quiet (Node.Close ci.1) (opening c ci).2 tt).1.2)] s).
Proof.
  intros Hci. unfold open_node, opens, opening. rewrite Hci. simpl rn_node.
  destruct (nrun quiet _ (new_node ci.2) tt) as [[st o] w]. cbn [fst snd].
  destruct (ok st); cbn [negb]; [done|].
  by destruct (nrun quiet (Node.Close ci.1) o tt) as [[? ?] ?].
Qed.

Lemma run_open_nodes l pre s : NoDup (map nc_id (pre ++ l)) -> Forall (fun c => c ∈ nodes config) l ->
  Forall (fun c => is_Some (classes !! nc_type c)) l -> setting_up pre s ->
  exists st s', run (for_status l (open_node classes)) s = Some (st, s') /\ ok st = forallb opens l /\
    if forallb opens l then setting_up (pre ++ l) s' /\ retired_nodes s' = retired_nodes s /\ side_packets_ s' = side_packets_ s
    else exists l1 c o, attempted l = l1 ++ [c] /\ setting_up (pre ++ l1) s' /\
      retired_nodes s' = retired_nodes s ++ [(nc_id c, o)] /\
      (exists cls, class_of (nc_id c) cls /\ put_away cls o).
Proof.
  revert pre s. induction l as [|c l IH]; intros pre s Hnd Hcfg Hty Hs; cbn [for_status forallb attempted].
  - exists Ok, s. by rewrite app_nil_r.
  - apply Forall_cons in Hcfg as [Hc0 Hcfg]. apply Forall_cons in Hty as [[ci Hci] Hty]. rewrite run_bind, (run_open_node c ci) by done.
    pose proof (opening_state c ci) as Hop. unfold opens in *. rewrite Hci in *.
    rewrite map_app in Hnd. simpl in Hnd.
    assert (nc_id c ∉ map nc_id pre) as Hfresh.
    { apply NoDup_app in Hnd as (_ & Hd & _). intros Hin. apply (Hd _ Hin). set_solver. }
    destruct (ok (opening c ci).1) eqn:Eok; simpl.
    + destruct (IH (pre ++ [c]) (enter c ci (opening c ci).2 s)) as (st & s' & Hrun & Hok & Hres).
      { by rewrite <- app_assoc, map_app. }
      { done. }
      { done. }
      { by apply enter_setting_up. }
      exists st, s'. split_and!; [done|done|].
      destruct (enter_fields c ci (opening c ci).2 s) as (_&_&_&_&_&Hret&Hside&_). rewrite Hret, Hside in Hres.
      destruct (forallb _ l); [by rewrite <- app_assoc in Hres|].
      destruct Hres as (l1 & c' & o & -> & Hset & Hr & Ho). exists (c :: l1), c', o.
      rewrite <- app_assoc in Hset. by split_and!.
    + eexists _, _. split; [reflexivity|]. split; [done|].
      exists [], c, (nrun quiet (Node.Close ci.1) (opening c ci).2 tt).1.2. rewrite app_nil_r.
      split_and!; [done|done|done|].
      exists ci.1. split; [by exists c, ci|]. by eexists _, _.
Qed.

(** ** The side packets of the configuration *)

(** They are refused only for the empty name. *)
Definition accepts_sides s : bool :=
  bool_decide (gside_packets config !! "" = None) || bool_decide (is_Some (SideFind "" (side_packets_ s))).

Lemma not_in_keys {V} (m : gmap string V) k : k ∉ (map_to_list m).*1 <-> m !! k = None.
Proof. rewrite <- (list_to_map_to_list m) at 2. apply not_elem_of_list_to_map. Qed.

Lemma run_add_side kv s :
  exists st s', run (add_side_packet kv) s = Some (st, s') /\ same_setup s s' /\
    SideFind "" (side_packets_ s') = SideFind "" (side_packets_ s) /\
    (ok st = true <-> kv.1 <> "" \/ is_Some (SideFind "" (side_packets_ s))).
Proof.
  unfold add_side_packet, SideFind, SideSet. simpl. destruct (packets_ (side_packets_ s) !! kv.1) eqn:E.
  - eexists _, _. split_and!; [done|done|done|]. split; [|done]. intros _.
    destruct (decide (kv.1 = "")) as [E0|]; [right; rewrite E0 in E; by eexists|by left].
  - case_bool_decide as E0; simpl.
    + eexists _, _. split_and!; [done|by split_and!|done|]. rewrite <- E0, E. split; [done|].
      by intros [?|[? ?]].
    + eexists _, _. split_and!; [done|by split_and!| |naive_solver].
      simpl. by rewrite lookup_insert_ne.
Qed.

Lemma run_add_sides kvs s :
  exists st s', run (for_status kvs add_side_packet) s = Some (st, s') /\ same_setup s s' /\
    (ok st = true <-> "" ∉ kvs.*1 \/ is_Some (SideFind "" (side_packets_ s))).
Proof.
  revert s. induction kvs as [|kv kvs IH]; intros s; cbn [for_status].
  - exists Ok, s. split_and!; [done..|]. split; [|done]. intros _. left. apply not_elem_of_nil.
  - rewrite run_bind. destruct (run_add_side kv s) as (st & s1 & -> & H1 & Hf & Hok).
    destruct (ok st) eqn:E.
    + destruct (IH s1) as (st2 & s2 & -> & H2 & Hok2). exists st2, s2. split_and!; [done|by etrans|].
      rewrite Hok2, Hf, fmap_cons, not_elem_of_cons. destruct Hok as [[?|?] _]; [done| |]; naive_solver.
    + exists st, s1. split_and!; [done|done|]. rewrite E, fmap_cons, not_elem_of_cons. split; [done|].
      intros H. assert (false = true) as ?; [|done]. apply Hok. naive_solver.
Qed.

(** ** The whole of [Start] *)

(** What is left to do once the runner is marked as running. *)
Definition launch : prog St Status :=
  order <-- read lifecycle_order_;
  started <-- for_status order start_node;
  if negb (ok started) then failed started
  else
    n <-- read (fun s : St => length (edges_ s));
    for_each (seq 0 n) prime_edge;;;
    Ret Ok.

(** An object that was destroyed after the [Close] of the class of its node. *)
Definition closed_away (io : string * NodeObj NS) : Prop :=
  exists cls, class_of io.1 cls /\ put_away cls io.2.

Lemma closed_away_closed r : Forall closed_away r -> Forall (fun io => closed_or_failed io.2) r.
Proof. intros H. eapply Forall_impl; [exact H|]. intros io (cls & _ & Hp). by eapply put_away_closed. Qed.

(** A start that fails before the runner is marked as running. *)
Lemma run_failed l s st : setting_up l s ->
  exists s', run (failed st) s = Some (st, s') /\ no_session s' /\ cancelled_ s' = true /\
    exists r, retired_nodes s' = retired_nodes s ++ r /\ r.*1 ≡ₚ map nc_id l /\ Forall closed_away r.
Proof.
  intros (_ & Hq & Hx & Ho & Hn). unfold failed. rewrite run_bind.
  destruct (run_Stop s Hq) as (s' & -> & Hno & Hc & r & Hr & Hnd & Hin & Hcl); [by do 2 right|].
  exists s'. split_and!; [done..|]. exists r. split_and!; [done| |].
  2: { eapply Forall_impl; [exact Hcl|]. intros io (n & Hio & Hp). exists (rn_class n).
       split; [by apply (Hn io.1 n Hio)|done]. }
  destruct Hq as (_ & _ & _ & Hnd' & Hin' & _). rewrite Ho in Hnd', Hin'.
  apply NoDup_Permutation; [done|done|]. intros id. by rewrite Hin, Hin'.
Qed.

Lemma valid_types : valid_graph config (registry_ classes) ->
  Forall (fun c => is_Some (classes !! nc_type c)) (nodes config).
Proof.
  intros [_ _ _ _ Hn _ _ _ _ _ _ _ _]. eapply Forall_impl; [exact Hn|].
  intros c (_ & _ & _ & k & Hk & _). unfold contract_of, NodeRegistry.Create in Hk. simpl in Hk.
  rewrite lookup_fmap in Hk. destruct (classes !! nc_type c); [by eexists|done].
Qed.

(** The session once the executors run. *)
Lemma run_prepare s : no_session s -> active_operations_ s = 0%nat -> valid_graph config (registry_ classes) ->
  exists s', run (for_each (executors config) (fun x => update (start_executor x)))
               (set_last_error Ok (set_cancelled false s)) = Some (tt, s') /\
    setting_up [] (set_control_executor (Some false) s') /\ retired_nodes s' = retired_nodes s /\
    side_packets_ s' = side_packets_ s.
Proof.
  intros (Hr & Hst & Hn & Ho & _ & _ & _ & _ & _ & _ & Hx & _) Ha Hv.
  destruct (run_start_executors (executors config) (set_last_error Ok (set_cancelled false s)))
    as (m & -> & Hd & Hk). { simpl. rewrite Hx. intros k e Hke. by rewrite lookup_empty in Hke. }
  eexists. split; [done|]. split_and!; [|done|done].
  unfold setting_up, quiet_session. simpl. rewrite Ho, Hn. split_and!; try done.
  - apply NoDup_nil_2.
  - intros id. rewrite lookup_empty. split; [by intros ?%not_elem_of_nil|by intros [? ?]].
  - destruct Hv as [Hne _ _ _ Hn' _ _ _ _ _ _ _ _]. destruct (nodes config) as [|c l]; [done|].
    apply Forall_cons in Hn' as [(_ & _ & (x & Hin & _) & _) _]. intros ->.
    destruct (Hk (ex_name x)) as [e He]; [right; by apply (list_elem_of_fmap_2 ex_name)|done].
Qed.

End start.

(** Two nodes, of which the second cannot be opened. *)
Definition broken_class : NodeClass nat :=
  mkNodeClass (Contract counter_class) kSerial (OnConfigure counter_class) (NRet (Internal "no device"))
    (OnStart counter_class) (OnProcess counter_class) (OnRequestStop counter_class) (OnStop counter_class)
    (OnClose counter_class).
Definition broken_config : GraphConfig :=
  mkGraphConfig 2 "demo" [default_executor]
    (map (fun id_type => mkNodeConfig id_type.1 id_type.2 "default" (∅ : NodeOptions) false kAny "")
       [("one", "Counter"); ("two", "Broken"); ("three", "Counter")]) []
    [mkGraphPort "a" "one" "in" (mkQueueConfig 4 kBlock); mkGraphPort "b" "two" "in" (mkQueueConfig 4 kBlock);
     mkGraphPort "c" "three" "in" (mkQueueConfig 4 kBlock)] [] [] ∅ default_flow_control.
Definition broken_classes : gmap string (NodeClass nat * nat) :=
  <["Broken" := (broken_class, 0%nat)]> counter_classes.

