(* ===== verification/Throwing.v ===== *)
(** * Tasks that throw

    The scheduler catches what a task throws ([src/core/scheduler.cpp]), and a hook of a node runs inside the task
    that drains a stream ([src/core/graph_runner.cpp]).  A hook that throws ends this task in the
    middle; what the session looks like afterwards is shown here. *)

From S2P Require Import Prelude Status Timestamp Values BoundedQueue Contract Node GraphConfig InputSync Observers Sources Atomic RunnerState Runner RunnerFacts.
Local Open Scope prog_scope.
Local Open Scope Z_scope.

(** The task that drains [st] when the node throws while it is handed the packet: the packet has been
    taken, and nothing behind the call is done. *)
(* [src/core/graph_runner.cpp:585-591] GraphRunner::DrainEdge (left by an exception) *)
Definition throwing_drain {NS} (st : Stream) : prog (State NS) unit :=
  popped <-- atomically (pop_stream st);
  match popped, st with
  | Some (Some _), SEdge _ => update (increment "edge.delivered")
  | _, _ => Ret tt
  end.

(** The flag of a stream is set although no task is there to clear it. *)
Definition abandoned {NS} (st : Stream) (s : State NS) : Prop :=
  exists t, transport st s = Some t /\ scheduled t = true /\
    (forall name e, executors_ s !! name = Some e -> (st ∉ ex_tasks e) /\ ex_active e = 0%nat).

(** Nothing schedules such a stream again. *)
Lemma abandoned_not_scheduled {NS} st (s : State NS) missing : abandoned st s ->
  run (schedule st missing) s = Some (tt, s).
Proof.
  intros (t & Ht & Hs & _). unfold schedule. rewrite run_bind. simpl. unfold claim. rewrite Ht, Hs.
  by destruct (stream_target st s) as [[? ?]|].
Qed.

(** ** Waiting for such a session *)

Definition reads {NS A} (m : prog (State NS) A) : Prop := forall s, exists a, run m s = Some (a, s).

Lemma run_any_busy {NS A} (l : list A) (test : A -> prog (State NS) bool) acc s :
  (forall x, reads (test x)) ->
  exists b, run (any_busy l test acc) s = Some (b, s) /\
    (acc = true \/ (exists x, x ∈ l /\ run (test x) s = Some (true, s)) -> b = true).
Proof.
  intros Ht. revert acc. induction l as [|x l IH]; intros acc; cbn [any_busy].
  - exists acc. split; [done|]. intros [?|(x & Hx & _)]; [done|]. by apply not_elem_of_nil in Hx.
  - rewrite run_bind. destruct (Ht x s) as [b Hb]. rewrite Hb. destruct (IH (acc || b)) as (b' & -> & Hb').
    exists b'. split; [done|]. intros [->|(y & [->|Hy]%elem_of_cons & Hrun)]; apply Hb'; [by left| |].
    + left. rewrite Hb in Hrun. injection Hrun as ->. apply orb_true_r.
    + right. by exists y.
Qed.

Lemma reads_stream_busy {NS} st : reads (NS := NS) (stream_busy st).
Proof. intros s. unfold stream_busy. rewrite run_read. case_bool_decide; simpl; eauto. Qed.
Lemma reads_executor_busy {NS} name : reads (NS := NS) (executor_busy name).
Proof. intros s. unfold executor_busy. rewrite run_read. case_bool_decide; simpl; eauto. Qed.
Lemma reads_observer_busy {NS} id : reads (NS := NS) (observer_busy id).
Proof. intros s. simpl. eauto. Qed.

Lemma scheduled_busy {NS} st (s : State NS) t : transport st s = Some t -> scheduled t = true ->
  run (stream_busy st) s = Some (true, s).
Proof.
  intros Ht Hs. unfold stream_busy. rewrite run_read, Ht. case_bool_decide; simpl; [by rewrite Ht, Hs|done].
Qed.

Lemma transport_listed {NS} st (s : State NS) t : transport st s = Some t ->
  match st with
  | SInput n => n ∈ (map_to_list (graph_inputs_ s)).*1
  | SEdge i => i ∈ seq 0 (length (edges_ s))
  end.
Proof.
  destruct st as [i|n]; simpl.
  - intros Ht. apply elem_of_seq. split; [lia|]. destruct (edges_ s !! i) eqn:E; [|done].
    apply lookup_lt_Some in E. lia.
  - intros Ht. destruct (graph_inputs_ s !! n) as [x|] eqn:E; [|done].
    apply list_elem_of_fmap. exists (n, x). split; [done|]. by apply elem_of_map_to_list.
Qed.

(** A round of [WaitUntilIdle] finds a stream whose flag is set. *)
Lemma poll_not_idle {NS} st (s : State NS) t : transport st s = Some t -> scheduled t = true ->
  run poll_idle s = Some (false, s).
Proof.
  intros Ht Hs. pose proof (transport_listed st s t Ht) as Hin. pose proof (scheduled_busy st s t Ht Hs) as Hb.
  unfold poll_idle. rewrite run_read, run_bind.
  destruct (run_any_busy (map_to_list (graph_inputs_ s)).*1 (fun n => stream_busy (SInput n)) false s)
    as (b1 & -> & H1); [intros; apply reads_stream_busy|].
  rewrite run_read, run_bind.
  destruct (run_any_busy (seq 0 (length (edges_ s))) (fun i => stream_busy (SEdge i)) b1 s)
    as (b2 & -> & H2); [intros; apply reads_stream_busy|].
  rewrite run_read, run_bind.
  destruct (run_any_busy (map_to_list (executors_ s)).*1 executor_busy b2 s)
    as (b3 & -> & H3); [apply reads_executor_busy|].
  rewrite run_read, run_bind.
  destruct (run_any_busy (elements (observer_handles_ s)) observer_busy b3 s)
    as (b4 & -> & H4); [apply reads_observer_busy|].
  assert (b2 = true) as E2.
  { destruct st as [i|n]; apply H2; [right; by exists i|left; apply H1; right; by exists n]. }
  rewrite H4 by (left; apply H3; by left). done.
Qed.

Lemma poll_loop_expires {NS} st (s : State NS) t polls : transport st s = Some t -> scheduled t = true ->
  run (poll_loop polls) s = Some (Unavailable "graph wait idle timed out", s).
Proof.
  intros Ht Hs. induction polls as [|polls IH]; cbn [poll_loop]; rewrite run_bind, (poll_not_idle st s t Ht Hs); done.
Qed.

(** A graph with an abandoned stream never becomes idle: every wait runs into its timeout. *)
Theorem abandoned_never_idle {NS} st (s : State NS) polls :
  abandoned st s -> running_ s = true -> stopping_ s = false ->
  exists s', run (WaitUntilIdle polls) s = Some (Unavailable "graph wait idle timed out", s').
Proof.
  intros (t & Ht & Hs & _) Hr Hst. unfold WaitUntilIdle, operation. rewrite run_bind.
  unfold BeginOperation, atomically. cbn [run fst]. rewrite Hst, Hr. cbn [orb negb]. rewrite run_bind.
  rewrite (poll_loop_expires st _ t polls); [|by destruct st|done]. simpl. eauto.
Qed.

(** The task of the counting graph throws; a packet that is added afterwards stays in the queue,
    although nothing is left to run, no error is recorded and the graph is not cancelled. *)
Definition thrown_task : prog (State nat) unit :=
  throwing_drain (SInput "numbers");;; update (finish_task "default").
Definition counter_thrown : State nat := result_state (run thrown_task counter_taken).
Definition counter_stranded : State nat := result_state (run add_one counter_thrown).

Example throwing_hook_strands :
  abandoned (SInput "numbers") counter_stranded /\
  (forall t, transport (SInput "numbers") counter_stranded = Some t -> queue_size (t_queue t) = 1%nat) /\
  running_ counter_stranded = true /\ cancelled_ counter_stranded = false /\
  last_error_ counter_stranded = Ok.
Proof.
  assert (exists t, transport (SInput "numbers") counter_stranded = Some t /\ scheduled t = true /\
                    queue_size (t_queue t) = 1%nat) as (t & E & Ht & Hq).
  { eexists. split; [vm_compute; reflexivity|]. split; vm_compute; reflexivity. }
  assert (executors_ counter_stranded = {["default" := mkExec 1 true [] 0]}) as Hx by (vm_compute; reflexivity).
  split; [|split; [|split; [|split]; vm_compute; reflexivity]].
  - exists t. split; [exact E|]. split; [exact Ht|]. rewrite Hx.
    intros name e [_ <-]%lookup_singleton_Some. split; [apply not_elem_of_nil|reflexivity].
  - intros t' Ht'. rewrite E in Ht'. injection Ht' as <-. exact Hq.
Qed.
