(* ===== verification/Typing.v ===== *)
(** * Typed streams

    What the packets of a graph carry, whatever the interleaving of its threads.

    A discipline gives every input port, every output port and every exported stream of a graph
    the packets it may carry, and every node an invariant of its private state.  It fits a graph
    when the edges lead outputs to inputs that accept their packets, and when the hooks of
    each node, run alone against any answers, emit what the discipline allows as long as they are
    given what it allows ([typed_class]).  Such obligations concern one edge or one node class
    at a time.  [typed_streams] composes them: from [Start] to [Stop] no queue of the runner, no
    input of a node and no observer ever holds any other packet.

    The proof is an invariant [TI] of the threads as in [RunnerFacts].  Its ghost obligations
    remember what a thread has read and nobody can take back: the observers it is about to notify
    keep their stream, and a thread that has drawn an observer's identity is the only one. *)

From stdpp Require Import gmultiset.
From S2P Require Import Prelude Status Timestamp Values BoundedQueue Telemetry Contract Node Registry Services GraphConfig Graph InputSync Observers Sources Atomic RunnerState Runner RunnerFacts.
Import Services.SidePackets.
Local Open Scope nat_scope.
Local Open Scope prog_scope.

#[local] Arguments Atomic.bind : simpl never.
#[local] Arguments Atomic.wp : simpl never.

(** ** Ghost obligations *)

Inductive Ghost :=
(** The tables of the session are not there yet; [Start] is to make them. *)
| Cold
(** The identity [k] is drawn, its observer is not there yet. *)
| Fresh (k : nat)
(** The observer [k] is one of [stream]. *)
| Watching (k : nat) (stream : string)
(** The observer [k] has been called with a data packet. *)
| Heard (k : nat).
#[export] Instance Ghost_eq_dec : EqDecision Ghost.
Proof. solve_decision. Defined.
#[export] Instance Ghost_countable : Countable Ghost.
Proof.
  refine (inj_countable'
    (fun g => match g with
              | Cold => inl None | Heard k => inl (Some k)
              | Fresh k => inr (inl k) | Watching k n => inr (inr (k, n))
              end)
    (fun x => match x with
              | inl None => Cold | inl (Some k) => Heard k
              | inr (inl k) => Fresh k | inr (inr (k, n)) => Watching k n
              end) _).
  by intros [].
Defined.

(** ** The worker of an observer *)

Section observer.
Context {NS : Type}.
Abbreviation St := (State NS).

Definition with_observer {B} (k : nat) (f : Observer -> option (B * Observer)) : prog St B :=
  blocking (fun s => match observer_objects s !! k with
                     | None => None
                     | Some o => match f o with
                                 | None => None
                                 | Some (b, o') => Some (b, put_observer k o' s)
                                 end
                     end).

(** [throws] are the packets the callback throws on; [fuel] bounds the packets the worker
    delivers. *)
(* [src/core/graph_runner.cpp:655-679] GraphRunner::RunObserver *)
Fixpoint RunObserver (fuel : nat) (throws : Packet -> bool) (k : nat) : prog St unit :=
  match fuel with
  | O => Ret tt
  | S fuel =>
      taken <-- with_observer k observer_take;
      match taken with
      | None => Ret tt
      | Some p =>
          threw <-- with_observer k (fun o => Some (observer_callback (throws p) p o));
          (if (threw : bool) then update (increment "graph.output_callback_errors") else Ret tt);;;
          with_observer k (fun o => Some (tt, observer_finish o));;;
          RunObserver fuel throws k
      end
  end.
End observer.

(** ** Disciplines *)

(** The packets of the input ports (by node and port), of the output ports (by endpoint) and of
    the exported streams, and the private states of the nodes. *)
Record Discipline (NS : Type) := mkDiscipline {
  d_in : string -> string -> Packet -> Prop;
  d_out : string -> Packet -> Prop;
  d_stream : string -> Packet -> Prop;
  d_private : string -> NS -> Prop }.
Arguments mkDiscipline {NS} _ _ _ _.
Arguments d_in {NS} _ _ _ _.
Arguments d_out {NS} _ _ _.
Arguments d_stream {NS} _ _ _.
Arguments d_private {NS} _ _ _.

(** The ends of streams and the timestamp bounds, which carry nothing, are the runner's own. *)
Definition control (p : Packet) : bool :=
  (is_bound p || is_eos p) && match data p with PlEvent e => bool_decide (e = event p) | _ => false end.
Definition endpoint (id port : string) : string := id +:+ "." +:+ port.

Create HintDb typed.

(** A pass over a program, action by action. *)
Ltac neutral_step := first
  [ apply neutral_ret
  | apply neutral_read
  | solve [eauto with typed]
  | apply neutral_bind; [|intros ?]
  | match goal with
    | |- Atomic.neutral _ (if ?b then _ else _) => destruct b
    | |- Atomic.neutral _ (match ?x with _ => _ end) => destruct x
    end ].
Ltac neutral_auto := repeat neutral_step.

Section typing.
Context {NS : Type} (config : GraphConfig) (classes : gmap string (NodeClass NS * NS)).
Context (D : Discipline NS).
Abbreviation St := (State NS).
Implicit Types (s : St) (st : Stream) (p : Packet) (id port : string) (M F O : gmultiset Ghost).

Definition in_ok id port p : Prop := control p = true \/ d_in D id port p.
Definition out_ok (ep : string) p : Prop := control p = true \/ d_out D ep p.
Definition stream_out_ok (stream : string) p : Prop := control p = true \/ d_stream D stream p.

(** ** Typed nodes *)

(** A program of the node [id] that keeps the invariant [P] of its state and emits what the
    discipline allows, whatever it is answered. *)
Fixpoint typed_prog {X A : Type} (P : X -> Prop) (id : string) (m : NodeM X A) : Prop :=
  match m with
  | NRet _ => True
  | NLocal f k => forall x, P x -> P (f x).2 /\ typed_prog P id (k (f x).1)
  | NEmit port p k => out_ok (endpoint id port) p /\ forall r, typed_prog P id (k r)
  | NIncrement _ k => typed_prog P id k
  | NSetGauge _ _ k => typed_prog P id k
  | NTimed f k => forall t x, P x -> P (f t x).2 /\ typed_prog P id (k (f t x).1)
  end.

Definition typed_set id (ins : PacketSet) : Prop := forall port p, ins !! port = Some p -> in_ok id port p.

(** The hooks of a class of the node [id]. *)
Record typed_class id (cls : NodeClass NS) : Prop := mkTypedClass {
  ty_configure : forall o, typed_prog (d_private D id) id (OnConfigure cls o);
  ty_open : typed_prog (d_private D id) id (OnOpen cls);
  ty_start : forall c, node_id c = id -> typed_set id (context_inputs c) ->
             typed_prog (d_private D id) id (OnStart cls c);
  ty_process : forall c, node_id c = id -> typed_set id (context_inputs c) ->
               typed_prog (d_private D id) id (OnProcess cls c);
  ty_request : typed_prog (d_private D id) id (OnRequestStop cls);
  ty_stop : typed_prog (d_private D id) id (OnStop cls);
  ty_close : typed_prog (d_private D id) id (OnClose cls) }.

Definition private id (o : NodeObj NS) : Prop := d_private D id (self o).

Lemma typed_bind {X A B} (P : X -> Prop) id (m : NodeM X A) (f : A -> NodeM X B) :
  typed_prog P id m -> (forall a, typed_prog P id (f a)) -> typed_prog P id (nbind m f).
Proof.
  intros Hm Hf. revert Hm. induction m as [a|C g k IH|q p k IH|n k IH|n v k IH|C g k IH]; simpl; intros Hm.
  - apply Hf.
  - intros x Hx. destruct (Hm x Hx). split; [done|]. by apply IH.
  - destruct Hm as [H1 H2]. split; [done|]. intros r. by apply IH.
  - by apply IH.
  - by apply IH.
  - intros t x Hx. destruct (Hm t x Hx). split; [done|]. by apply IH.
Qed.

Lemma typed_lift {A} id (m : NodeM NS A) : typed_prog (d_private D id) id m -> typed_prog (private id) id (lift m).
Proof.
  induction m as [a|C g k IH|q p k IH|n k IH|n v k IH|C g k IH]; simpl; intros Hm.
  - done.
  - intros o Ho. destruct (Hm (self o) Ho) as [H1 H2]. destruct (g (self o)) as [b x]. split; [done|]. by apply IH.
  - destruct Hm as [H1 H2]. split; [done|]. intros r. by apply IH.
  - by apply IH.
  - by apply IH.
  - intros t o Ho. destruct (Hm t (self o) Ho) as [H1 H2]. destruct (g t (self o)) as [b x]. split; [done|]. by apply IH.
Qed.

Lemma typed_local {X A} (P : X -> Prop) id (f : X -> A * X) :
  (forall x, P x -> P (f x).2) -> typed_prog P id (nlocal f).
Proof. intros Hf x Hx. split; [by apply Hf|done]. Qed.

Lemma typed_load id : typed_prog (private id) id load.
Proof. by apply typed_local. Qed.

(** A hook followed by the transition its outcome asks for. *)
Lemma typed_transition id (m : NodeM NS Status) (to : NodeState) :
  typed_prog (d_private D id) id m -> typed_prog (private id) id (nbind (lift m) (fun r => Transition r to)).
Proof. intros Hm. apply typed_bind; [by apply typed_lift|]. intros r o Ho. by split. Qed.

Lemma typed_if {X A} (P : X -> Prop) id (b : bool) (m n : NodeM X A) :
  typed_prog P id m -> typed_prog P id n -> typed_prog P id (if b then m else n).
Proof. by destruct b. Qed.

Section class.
Context {id : string} {cls : NodeClass NS} (H : typed_class id cls).

Lemma typed_node_Configure o : typed_prog (private id) id (Configure cls o).
Proof.
  apply typed_bind; [apply typed_load|intros st]. apply typed_if; [done|].
  apply typed_if; [intros x Hx; by split|]. apply typed_transition, H.
Qed.
Lemma typed_node_Open : typed_prog (private id) id (Open cls).
Proof. apply typed_bind; [apply typed_load|intros st]. apply typed_if; [done|]. apply typed_transition, H. Qed.
Lemma typed_node_Start c : node_id c = id -> typed_set id (context_inputs c) ->
  typed_prog (private id) id (Node.Start cls c).
Proof.
  intros Hid Hin. apply typed_bind; [apply typed_load|intros st]. apply typed_if; [done|].
  apply typed_bind; [by apply typed_local|intros _]. by apply typed_transition, H.
Qed.
Lemma typed_node_Process c : node_id c = id -> typed_set id (context_inputs c) ->
  typed_prog (private id) id (Process cls c).
Proof.
  intros Hid Hin. apply typed_bind; [apply typed_load|intros st]. apply typed_if; [done|].
  by apply typed_transition, H.
Qed.
Lemma typed_node_RequestStop : typed_prog (private id) id (RequestStop cls).
Proof. apply typed_bind; [by apply typed_local|intros [|]]; [done|]. apply typed_lift, H. Qed.
Lemma typed_node_Stop : typed_prog (private id) id (Node.Stop cls).
Proof.
  apply typed_bind; [apply typed_load|intros st]. apply typed_if; [done|].
  apply typed_bind; [apply typed_node_RequestStop|intros _]. apply typed_transition, H.
Qed.
Lemma typed_node_Close : typed_prog (private id) id (Node.Close cls).
Proof.
  apply typed_bind; [apply typed_load|intros st]. apply typed_if; [done|].
  apply typed_if; [|apply typed_transition, H].
  apply typed_bind; [apply typed_node_Stop|intros r]. apply typed_if; [done|]. apply typed_transition, H.
Qed.
End class.

Lemma typed_nrun {W X A} (h : Handler W) (P : X -> Prop) id (m : NodeM X A) x w :
  typed_prog P id m -> P x -> P (nrun h m x w).1.2.
Proof.
  revert x w. induction m as [a|C g k IH|q p k IH|n k IH|n v k IH|C g k IH]; simpl; intros x w Hm Hx.
  - done.
  - destruct (Hm x Hx). destruct (g x). by apply IH.
  - destruct Hm as [_ Hm]. destruct (h_emit h q p w). by apply IH.
  - by apply IH.
  - by apply IH.
  - destruct (h_now h w) as [t w']. destruct (Hm t x Hx). destruct (g t x). by apply IH.
Qed.

(** ** Typed inputs *)

Record typed_inputs id (ins : InputState) : Prop := mkTypedInputs {
  ty_latest : typed_set id (latest ins);
  ty_pending : forall port ts p, pending_at ins port ts = Some p -> in_ok id port p }.

Lemma typed_empty_inputs id : typed_inputs id empty_inputs.
Proof. split; intros port; [intros p|intros ts p]; by rewrite ?lookup_empty. Qed.

Lemma typed_same_rest id ins ins' : same_rest ins ins' ->
  (forall port ts p, pending_at ins' port ts = Some p -> pending_at ins port ts = Some p) ->
  typed_inputs id ins -> typed_inputs id ins'.
Proof. intros (E & _) Hp [H1 H2]. split; [by rewrite E|]. intros. eapply H2, Hp; done. Qed.

Lemma typed_prune id c ins : typed_inputs id ins -> typed_inputs id (Prune c ins).2.
Proof.
  intros H. unfold Prune. case_bool_decide; [|done].
  destruct (prune_any_order c ins (candidates ins)) as (_ & H1 & H2); [done|].
  eapply typed_same_rest; [exact H1| |done]. intros q ts p. rewrite H2. by destruct (impossible c ins ts).
Qed.

Lemma typed_collect id specs lat ins r : typed_set id lat -> typed_set id ins ->
  collect_latest specs lat ins = Some r -> typed_set id r.
Proof.
  intros Hl. revert ins. induction specs as [|spec specs IH]; intros ins Hi; simpl; [by intros [= <-]|].
  destruct (lat !! port_name spec) as [p|] eqn:Hp; [|destruct (port_required spec); [done|by apply IH]].
  apply IH. destruct (ins !! port_name spec); [done|]. intros q x.
  rewrite lookup_insert_Some. intros [[<- <-]|[_ Hx]]; [by apply Hl|by apply Hi].
Qed.

Lemma typed_take id c ts ins : typed_inputs id ins ->
  typed_set id (take_set c ts ins).1 /\ typed_inputs id (take_set c ts ins).2.
Proof.
  intros H. destruct (take_port_spec ts (inputs c) ∅ ins) as (H1 & H2 & H3). split.
  - intros q p. unfold take_set. rewrite H2, lookup_empty. case_bool_decide; [|done]. by apply H.
  - eapply typed_same_rest; [exact H1| |done]. intros q t p. rewrite H3. by case_bool_decide.
Qed.

Lemma typed_eos_set id c : typed_set id (eos_set c).
Proof.
  unfold eos_set. assert (typed_set id ∅) as H0 by (intros q p; by rewrite lookup_empty).
  revert H0. generalize (∅ : PacketSet). induction (inputs c) as [|spec l IH]; intros ins Hi; [done|].
  simpl. apply IH. unfold eos_port. destruct (port_required spec); [|done].
  destruct (ins !! port_name spec); [done|]. intros q p. rewrite lookup_insert_Some.
  intros [[<- <-]|[_ Hp]]; [by left|by apply Hi].
Qed.

(** What a delivery leads to is made of what was delivered. *)
Lemma typed_prepare id i c port p ins : in_ok id port p -> typed_inputs id ins ->
  let r := PrepareInvocation i c port p ins in
  typed_inputs id r.2 /\ match r.1.1 with PInvoke x => typed_set id x | _ => True end.
Proof.
  intros Hp Hi. unfold PrepareInvocation.
  assert (forall cl, typed_inputs id (mkInputs (latest ins) (pending ins) cl (bounds ins) (eos_dispatched ins)))
    as Hcl by (intros cl; destruct Hi; by split).
  set (ins1 := if is_eos p then _ else ins). assert (typed_inputs id ins1) as Hi1.
  { unfold ins1. by destruct (is_eos p). }
  clearbody ins1. destruct (input_policy c); simpl.
  - split; [done|]. intros q x. rewrite lookup_singleton_Some. by intros [<- <-].
  - destruct (_ && _); [done|].
    set (ins2 := if is_eos p then ins1 else _). assert (typed_inputs id ins2) as Hi2.
    { unfold ins2. destruct (is_eos p); [done|]. destruct Hi1 as [H1 H2]. split; [done|].
      intros q t x. rewrite pending_at_put. case_bool_decide as E; [|apply H2]. destruct E as [-> _].
      by intros [= <-]. }
    clearbody ins2. pose proof (typed_prune id c ins2 Hi2) as Hi3. destruct (Prune c ins2) as [drops ins3].
    simpl in Hi3. destruct (List.find _ _) as [ts|].
    + destruct (typed_take id c ts ins3 Hi3). by destruct (take_set c ts ins3).
    + destruct (_ && _); [|done]. split; [destruct Hi3; by split|]. apply typed_eos_set.
  - set (ins2 := mkInputs (<[port:=p]> (latest ins1)) _ _ _ _). assert (typed_inputs id ins2) as Hi2.
    { destruct Hi1 as [H1 H2]. split; [|done]. intros q x. simpl. rewrite lookup_insert_Some.
      intros [[<- <-]|[_ Hx]]; [done|by apply H1]. }
    destruct (negb _); [done|]. destruct (collect_latest _ _ _) as [x|] eqn:E; [|done].
    split; [done|]. eapply typed_collect; [apply Hi2| |exact E]. intros q y. by rewrite lookup_empty.
Qed.

Lemma typed_bound id i c port b ins : typed_inputs id ins -> typed_inputs id (DeliverBound i c port b ins).2.
Proof.
  intros Hi. unfold DeliverBound. destruct (match bounds ins !! port with Some _ => _ | None => _ end); [done|].
  set (ins1 := mkInputs _ _ _ _ _). assert (typed_inputs id ins1) as H1 by (destruct Hi; by split).
  pose proof (typed_prune id c ins1 H1) as H2. by destruct (Prune c ins1).
Qed.
(** ** Typed graphs *)

(** The obligations of a graph, one edge, one output, one node at a time. *)
Record typed_graph : Prop := mkTypedGraph {
  tg_edges : forall e p, e ∈ edges config -> out_ok (edge_name e) p -> in_ok (to_node e) (to_port e) p;
  tg_back : forall e, e ∈ edges config -> back_edge e = true ->
            in_ok (to_node e) (to_port e) (PacketFromConfig (initial_packet e));
  tg_outputs : forall o p, o ∈ goutputs config -> out_ok (endpoint (gp_node o) (gp_port o)) p ->
               stream_out_ok (gp_name o) p;
  tg_nodes : forall c ci, c ∈ nodes config -> classes !! nc_type c = Some ci ->
             typed_class (nc_id c) ci.1 /\ d_private D (nc_id c) ci.2 }.

(** What may be put on a stream of the graph. *)
Definition stream_ok st p : Prop :=
  match st with
  | SEdge i => forall e, edges config !! i = Some e -> in_ok (to_node e) (to_port e) p
  | SInput n => forall c, c ∈ ginputs config -> gp_name c = n -> in_ok (gp_node c) (gp_port c) p
  end.

Lemma control_stream st p : control p = true -> stream_ok st p.
Proof. intros Hp. destruct st; simpl; intros; by left. Qed.

(** The sources feed the inputs of the graph's slots. *)
Record typed_table (t : SourceTable) : Prop := mkTypedTable {
  ty_slots : forall n c, source_slots_ t !! n = Some c -> c ∈ source_slots config;
  ty_sources : forall i x, sources_ t !! i = Some x -> src_input_stream x ∈ map input_stream (source_slots config) }.

Record typed_core (s : St) : Prop := mkTypedCore {
  tc_edges : forall i e, edges_ s !! i = Some e -> edges config !! i = Some (er_config e);
  tc_inputs : forall n r, graph_inputs_ s !! n = Some r -> ir_config r ∈ ginputs config /\ gp_name (ir_config r) = n;
  tc_queues : forall st t, transport st s = Some t -> Forall (stream_ok st) (queue (t_queue t));
  tc_routes : forall ep l i, routes_ s !! ep = Some l -> i ∈ l -> exists e, edges config !! i = Some e /\ edge_name e = ep;
  tc_outputs : forall ep l n, graph_outputs_ s !! ep = Some l -> n ∈ l ->
               exists o, o ∈ goutputs config /\ gp_name o = n /\ endpoint (gp_node o) (gp_port o) = ep;
  tc_nodes : forall id n, nodes_ s !! id = Some n ->
             typed_class id (rn_class n) /\ private id (rn_node n) /\ typed_inputs id (rn_inputs n);
  tc_sources : typed_table (source_table s) }.

(** The observers, and what the threads know of them. *)
Record typed_observers (table : gmap string (list nat)) (objs : gmap nat Observer) (next : nat) M : Prop :=
  mkTypedObservers {
  to_typed : forall k o, objs !! k = Some o ->
             Forall (stream_out_ok (ob_stream o)) (ob_queue o) /\ Forall (stream_out_ok (ob_stream o)) (received o);
  to_next : forall k, is_Some (objs !! k) -> k < next;
  to_table : forall n l k, table !! n = Some l -> k ∈ l -> exists o, objs !! k = Some o /\ ob_stream o = n;
  to_watch : forall k n, Watching k n ∈ M -> exists o, objs !! k = Some o /\ ob_stream o = n;
  to_heard : forall k, Heard k ∈ M -> exists o p, objs !! k = Some o /\ p ∈ received o /\ control p = false;
  to_fresh : forall k, Fresh k ∈ M -> k < next /\ objs !! k = None /\ multiplicity (Fresh k) M = 1 }.

Definition typed_cold (es : list EdgeRuntime) M : Prop :=
  multiplicity Cold M <= 1 /\ (Cold ∈ M -> es = []).

Record TI s M : Prop := mkTI {
  ti_core : typed_core s;
  ti_observers : typed_observers (observers_ s) (observer_objects s) (next_observer_id_ s) M;
  ti_cold : typed_cold (edges_ s) M }.

Abbreviation wp := (Atomic.wp TI).
Abbreviation neutral := (Atomic.neutral TI).

(** Obligations may be forgotten. *)
Lemma TI_weaken s M M' : M' ⊆ M -> TI s M -> TI s M'.
Proof.
  intros Hs [Hc [H1 H2 H3 H4 H4' H5] [H6 H7]]. split; [done|split; try done|split].
  - intros k n Hk. apply H4. multiset_solver.
  - intros k Hk. apply H4'. multiset_solver.
  - intros k Hk. destruct (H5 k) as (? & ? & Hm); [multiset_solver|]. split_and!; [done..|].
    pose proof (Hs (Fresh k)) as Hle. unfold elem_of, gmultiset_elem_of in Hk. lia.
  - pose proof (Hs Cold). lia.
  - intros Hk. apply H7. multiset_solver.
Qed.

(** ** Actions that the observers do not see *)

Definition silent s s' : Prop :=
  (typed_core s -> typed_core s') /\ observers_ s' = observers_ s /\ observer_objects s' = observer_objects s /\
  next_observer_id_ s' = next_observer_id_ s /\ (edges_ s = [] -> edges_ s' = []).

#[local] Instance silent_preorder : PreOrder silent.
Proof.
  split; [by intros s; split_and!|].
  intros s1 s2 s3 (A1 & A2 & A3 & A4 & A5) (B1 & B2 & B3 & B4 & B5). split_and!; [auto|congruence..|auto].
Qed.

Lemma TI_silent s s' M : silent s s' -> TI s M -> TI s' M.
Proof.
  intros (E1 & E2 & E3 & E4 & E5) [H1 H2 [H3 H4]]. split; [auto|by rewrite E2, E3, E4|]. split; auto.
Qed.

Lemma neutral_silent {B} (f : St -> B * St) : (forall s, silent s (f s).2) -> neutral (atomically f).
Proof. intros Hf. apply neutral_atomically. intros s M. by apply TI_silent. Qed.
Lemma neutral_update_silent (f : St -> St) : (forall s, silent s (f s)) -> neutral (update f).
Proof. intros Hf. by apply neutral_silent. Qed.
Lemma neutral_blocking_silent {B} (f : St -> option (B * St)) :
  (forall s b s', f s = Some (b, s') -> silent s s') -> neutral (blocking f).
Proof. intros Hf. apply neutral_act. intros s M b s' HI Hs. eapply TI_silent; [by eapply Hf|done]. Qed.

(** Everything else may change. *)
Lemma silent_view s s' :
  edges_ s' = edges_ s -> graph_inputs_ s' = graph_inputs_ s -> routes_ s' = routes_ s ->
  graph_outputs_ s' = graph_outputs_ s -> nodes_ s' = nodes_ s -> source_table s' = source_table s ->
  observers_ s' = observers_ s -> observer_objects s' = observer_objects s ->
  next_observer_id_ s' = next_observer_id_ s -> silent s s'.
Proof.
  intros E1 E2 E3 E4 E5 E6 E7 E8 E9. split_and!; [|done..|congruence].
  intros [H1 H2 H3 H4 H5 H6 H7]. split; rewrite ?E1, ?E2, ?E3, ?E4, ?E5, ?E6; try done.
  intros [i|n] t; simpl; rewrite ?E1, ?E2; [apply (H3 (SEdge i))|apply (H3 (SInput n))].
Qed.

Lemma core_put st t t' s : transport st s = Some t -> Forall (stream_ok st) (queue (t_queue t')) ->
  typed_core s -> typed_core (put_transport st t' s).
Proof.
  intros Ht Hq [H1 H2 H3 H4 H5 H6 H7].
  assert (forall st' u, transport st' (put_transport st t' s) = Some u -> Forall (stream_ok st') (queue (t_queue u))) as H3'.
  { intros st' u. rewrite transport_put by (by rewrite Ht). case_bool_decide as E; [|apply H3].
    subst. by intros [= <-]. }
  destruct st as [j|m]; split; try done; simpl.
  - intros i e. rewrite list_lookup_alter. case_decide as E; [|apply H1]. subst.
    intros (e0 & He & ->)%fmap_Some. exact (H1 i e0 He).
  - intros n r. rewrite lookup_alter. case_decide as E; [|apply H2]. subst.
    intros (r0 & Hr & ->)%fmap_Some. exact (H2 n r0 Hr).
Qed.

Lemma silent_put st t t' s : transport st s = Some t ->
  (Forall (stream_ok st) (queue (t_queue t)) -> Forall (stream_ok st) (queue (t_queue t'))) ->
  silent s (put_transport st t' s).
Proof.
  intros Ht Hq. split_and!; [|by destruct st..|].
  - intros Hc. eapply core_put; [done|apply Hq; by eapply tc_queues|done].
  - destruct st; simpl; intros ->; done.
Qed.

Lemma typed_modify st (f : Transport -> Transport) :
  (forall t, queue (t_queue (f t)) = queue (t_queue t)) -> neutral (update (modify_transport st f)).
Proof.
  intros Hq. apply neutral_update_silent. intros s. unfold modify_transport.
  destruct (transport st s) as [t|] eqn:Ht; [|done]. eapply silent_put; [done|]. by rewrite Hq.
Qed.

(** A change of one node. *)
Lemma silent_node id n n' s : nodes_ s !! id = Some n -> rn_class n' = rn_class n ->
  (typed_class id (rn_class n) -> private id (rn_node n) -> private id (rn_node n')) ->
  (typed_inputs id (rn_inputs n) -> typed_inputs id (rn_inputs n')) -> silent s (put_node id n' s).
Proof.
  intros Hn Ec Hp Hi. split_and!; try done. intros [H1 H2 H3 H4 H5 H6 H7]. split; try done; simpl.
  intros id' m. rewrite lookup_insert_Some. intros [[<- <-]|[_ Hm]]; [|by apply H6].
  rewrite Ec. destruct (H6 id n Hn) as (A & B & C). split_and!; auto.
Qed.

Lemma silent_table f s : (typed_table (source_table s) -> typed_table (f (source_table s))) ->
  silent s (set_source_table (f (source_table s)) s).
Proof. intros Hf. split_and!; try done. intros [H1 H2 H3 H4 H5 H6 H7]. split; try done. by apply Hf. Qed.

Lemma silent_increment_by n name s : silent s (increment_by n name s).
Proof. revert s. induction n as [|n IH]; intros s; simpl; [done|]. etrans; [|apply IH]. by apply silent_view. Qed.
(** ** Observers *)

Lemma TI_watch s k o M : TI s M -> observer_objects s !! k = Some o ->
  TI s ({[+ Watching k (ob_stream o) +]} ⊎ M).
Proof.
  intros [Hc [H1 H2 H3 H4 H4' H5] [H6 H7]] Ho. split; [done|split; try done|split].
  - intros k' n. rewrite gmultiset_elem_of_disj_union, gmultiset_elem_of_singleton.
    intros [[= -> ->]|Hk]; [by eauto|by apply H4].
  - intros k'. rewrite gmultiset_elem_of_disj_union, gmultiset_elem_of_singleton. intros [?|Hk]; [done|by apply H4'].
  - intros k'. rewrite gmultiset_elem_of_disj_union, gmultiset_elem_of_singleton. intros [?|Hk]; [done|].
    rewrite multiplicity_disj_union, multiplicity_singleton_ne by done. by apply H5.
  - rewrite multiplicity_disj_union, multiplicity_singleton_ne by done. done.
  - rewrite gmultiset_elem_of_disj_union, gmultiset_elem_of_singleton. intros [?|Hk]; [done|by apply H7].
Qed.

Lemma TI_hear s k o p M : TI s M -> observer_objects s !! k = Some o -> p ∈ received o -> control p = false ->
  TI s ({[+ Heard k +]} ⊎ M).
Proof.
  intros [Hc [H1 H2 H3 H4 H4' H5] [H6 H7]] Ho Hp Ec. split; [done|split; try done|split].
  - intros k' n Hk. apply H4. multiset_solver.
  - intros k'. rewrite gmultiset_elem_of_disj_union, gmultiset_elem_of_singleton.
    intros [[= ->]|Hk]; [by eauto|by apply H4'].
  - intros k'. rewrite gmultiset_elem_of_disj_union, gmultiset_elem_of_singleton. intros [?|Hk]; [done|].
    rewrite multiplicity_disj_union, multiplicity_singleton_ne by done. by apply H5.
  - rewrite multiplicity_disj_union, multiplicity_singleton_ne by done. done.
  - rewrite gmultiset_elem_of_disj_union, gmultiset_elem_of_singleton. intros [?|Hk]; [done|by apply H7].
Qed.

(** Observers of streams that may carry [p], remembered as such. *)
Lemma TI_watch_all s p (l : list nat) M : TI s M ->
  (forall k, k ∈ l -> exists o, observer_objects s !! k = Some o /\ stream_out_ok (ob_stream o) p) ->
  exists O, TI s (O ⊎ M) /\ forall k, k ∈ l -> exists n, Watching k n ∈ O /\ stream_out_ok n p.
Proof.
  intros HI. induction l as [|k l IH]; intros Hl.
  - exists ∅. rewrite (left_id_L ∅ (⊎)). split; [done|]. set_solver.
  - destruct IH as (O & HO & HOl); [intros; apply Hl; set_solver|].
    destruct (Hl k) as (o & Ho & Hp); [set_solver|].
    exists ({[+ Watching k (ob_stream o) +]} ⊎ O). split.
    + rewrite <- (assoc_L (⊎)). by apply TI_watch.
    + intros k'. rewrite elem_of_cons. intros [->|Hk].
      * exists (ob_stream o). split; [multiset_solver|done].
      * destruct (HOl k' Hk) as (n & Hn & Hn'). exists n. split; [multiset_solver|done].
Qed.

(** An observer goes on as one of its stream. *)
Lemma TI_observer s k o o' M : TI s M -> observer_objects s !! k = Some o -> ob_stream o' = ob_stream o ->
  (Forall (stream_out_ok (ob_stream o)) (ob_queue o) -> Forall (stream_out_ok (ob_stream o)) (received o) ->
   Forall (stream_out_ok (ob_stream o)) (ob_queue o') /\ Forall (stream_out_ok (ob_stream o)) (received o')) ->
  (forall p, p ∈ received o -> p ∈ received o') -> TI (put_observer k o' s) M.
Proof.
  intros [Hc [H1 H2 H3 H4 H4' H5] H6] Ho Es Ht Hre. split; [|split|done].
  - destruct Hc as [A1 A2 A3 A4 A5 A6 A7]. by split.
  - intros k' x. simpl. rewrite lookup_insert_Some. intros [[<- <-]|[_ Hx]]; [|by apply (H1 k')].
    rewrite Es. destruct (H1 k o Ho). by apply Ht.
  - intros k' [x Hx]. simpl in Hx. apply lookup_insert_Some in Hx as [[<- <-]|[_ Hx]]; eauto.
  - intros n l k' Hn Hk. simpl. destruct (H3 n l k' Hn Hk) as (x & Hx & En).
    destruct (decide (k = k')) as [->|Hne]; [|rewrite lookup_insert_ne by done; eauto].
    rewrite lookup_insert_eq. exists o'. split; [done|]. congruence.
  - intros k' n Hk. simpl. destruct (H4 k' n Hk) as (x & Hx & En).
    destruct (decide (k = k')) as [->|Hne]; [|rewrite lookup_insert_ne by done; eauto].
    rewrite lookup_insert_eq. exists o'. split; [done|]. congruence.
  - intros k' Hk. simpl. destruct (H4' k' Hk) as (x & p & Hx & Hp & Ec).
    destruct (decide (k = k')) as [->|Hne]; [|rewrite lookup_insert_ne by done; eauto].
    rewrite lookup_insert_eq. exists o', p. split_and!; [done| |done]. simplify_eq. by apply Hre.
  - intros k' Hk. simpl. destruct (H5 k' Hk) as (? & Hx & ?). split_and!; [done| |done].
    rewrite lookup_insert_ne; [done|]. congruence.
Qed.

Lemma enqueue_typed P p o : Forall P (ob_queue o) -> P p ->
  let o' := (EnqueueObserver p o).2 in
  ob_stream o' = ob_stream o /\ Forall P (ob_queue o') /\ received o' = received o.
Proof.
  intros Hq Hp. unfold EnqueueObserver. destruct (ob_stopped o); [done|].
  case_bool_decide; simpl.
  - split_and!; try done. case_bool_decide; [done|]. apply Forall_app. split; [|by apply Forall_singleton].
    destruct (ob_queue o); [done|]. by apply Forall_cons_1 in Hq as [_ ?].
  - split_and!; try done. apply Forall_app. split; [done|]. by apply Forall_singleton.
Qed.

Lemma TI_notify s k n p M : TI s M -> Watching k n ∈ M -> stream_out_ok n p -> TI (notify_observer k p s) M.
Proof.
  intros HI Hk Hp. destruct (to_watch _ _ _ _ (ti_observers _ _ HI) _ _ Hk) as (o & Ho & <-).
  destruct (to_typed _ _ _ _ (ti_observers _ _ HI) _ _ Ho) as [Hq _].
  unfold notify_observer. rewrite Ho. destruct (_ && _); [done|].
  destruct (enqueue_typed _ p o Hq Hp) as (E1 & E2 & E3). destruct (EnqueueObserver p o) as [lost o']. simpl in *.
  assert (TI (put_observer k o' s) M) as HI'. { eapply TI_observer; [done..| |]; by rewrite E3. }
  destruct lost; [|done]. eapply TI_silent; [|exact HI']. by apply silent_view.
Qed.

Lemma wp_notify_all O p (l : list nat) : (forall k, k ∈ l -> exists n, Watching k n ∈ O /\ stream_out_ok n p) ->
  wp O (for_each l (fun k => update (notify_observer k p))) (fun _ O' => O' = O).
Proof.
  induction l as [|k l IH]; intros Hl; [done|]. cbn [for_each]. apply wp_bind.
  intros s F b s' HI [= <- <-]. exists O. split.
  - destruct (Hl k) as (n & Hn & Hp); [set_solver|]. eapply TI_notify; [done| |done]. multiset_solver.
  - apply IH. intros. apply Hl. set_solver.
Qed.

(** An action on one observer that the worker or a client makes. *)
Lemma TI_step_observer {B} s k (f : Observer -> option (B * Observer)) b s' M :
  (forall o b o', f o = Some (b, o') -> ob_stream o' = ob_stream o /\
     (forall P, Forall P (ob_queue o) -> Forall P (received o) -> Forall P (ob_queue o') /\ Forall P (received o')) /\
     forall p, p ∈ received o -> p ∈ received o') ->
  TI s M -> match observer_objects s !! k with
            | None => None
            | Some o => match f o with None => None | Some (b, o') => Some (b, put_observer k o' s) end
            end = Some (b, s') -> TI s' M.
Proof.
  intros Hf HI. destruct (observer_objects s !! k) as [o|] eqn:Ho; [|done].
  destruct (f o) as [[b' o']|] eqn:E; [|done]. intros [= <- <-]. destruct (Hf _ _ _ E) as (Es & Ht & Hre).
  eapply TI_observer; [done..|by apply Ht|done].
Qed.

Lemma neutral_with_observer {B} k (f : Observer -> option (B * Observer)) :
  (forall o b o', f o = Some (b, o') -> ob_stream o' = ob_stream o /\
     (forall P, Forall P (ob_queue o) -> Forall P (received o) -> Forall P (ob_queue o') /\ Forall P (received o')) /\
     forall p, p ∈ received o -> p ∈ received o') ->
  neutral (with_observer k f).
Proof. intros Hf. apply neutral_act. intros s M b s' HI. by apply TI_step_observer. Qed.
(** ** Errors and scheduling *)

Lemma typed_update_view (f : St -> St) :
  (forall s, edges_ (f s) = edges_ s) -> (forall s, graph_inputs_ (f s) = graph_inputs_ s) ->
  (forall s, routes_ (f s) = routes_ s) -> (forall s, graph_outputs_ (f s) = graph_outputs_ s) ->
  (forall s, nodes_ (f s) = nodes_ s) -> (forall s, source_table (f s) = source_table s) ->
  (forall s, observers_ (f s) = observers_ s) -> (forall s, observer_objects (f s) = observer_objects s) ->
  (forall s, next_observer_id_ (f s) = next_observer_id_ s) -> neutral (update f).
Proof. intros. apply neutral_update_silent. intros s. by apply silent_view. Qed.

Lemma typed_increment name : neutral (update (increment name)).
Proof. by apply typed_update_view. Qed.
Lemma typed_gauge name v : neutral (update (gauge name v)).
Proof. by apply typed_update_view. Qed.
Lemma typed_await (P : St -> bool) : neutral (await P).
Proof. apply neutral_blocking_silent. intros s b s'. by destruct (P s); intros [= <- <-]. Qed.
Hint Resolve typed_increment typed_gauge typed_await : typed.

Lemma typed_CloseQueues : neutral CloseQueues.
Proof.
  assert (forall st, neutral (update (modify_transport st (fun t => put_queue (BoundedQueue.Close (t_queue t)) t)))) as Hc.
  { intros st. by apply typed_modify. }
  unfold CloseQueues. neutral_auto; apply neutral_for_each; intros; apply Hc.
Qed.
Hint Resolve typed_CloseQueues : typed.

Lemma typed_SetError status : neutral (SetError status).
Proof.
  unfold SetError. apply neutral_bind.
  { apply neutral_silent. intros s. unfold record_error. destruct (ok (last_error_ s)); [by apply silent_view|done]. }
  intros [|]; [|done]. neutral_auto; [by apply typed_update_view|].
  apply neutral_update_silent. intros s. unfold report_error. destruct (error_callback_ s) as [c|]; [|done].
  destruct (ec_stopped c); [done|by apply silent_view].
Qed.
Hint Resolve typed_SetError : typed.

Lemma typed_schedule st missing : neutral (schedule st missing).
Proof.
  unfold schedule. apply neutral_bind.
  { apply neutral_silent. intros s. unfold claim. destruct (transport st s) as [t|] eqn:Ht; [|done].
    destruct (stream_target st s) as [[node port]|]; [|done]. destruct (scheduled t); [done|].
    by eapply silent_put. }
  intros [node|]; [|done]. neutral_auto; [|by apply typed_modify].
  apply neutral_silent. intros s0. unfold PostGuaranteed. destruct (executors_ s0 !! _) as [e|]; [|done].
  destruct (ex_running e); [by apply silent_view|done].
Qed.
Hint Resolve typed_schedule : typed.

(** ** Emitting *)

Lemma Push_typed {X} (P : X -> Prop) (q : BoundedQueue X) v r q' :
  Forall P (queue q) -> P v -> Push q v = Some (r, q') -> Forall P (queue q').
Proof.
  intros Hq Hv. assert (forall l, Forall P l -> Forall P (l ++ [v])) as Happ.
  { intros l Hl. apply Forall_app. split; [done|]. by apply Forall_singleton. }
  assert (Forall P (tail (queue q))) as Ht by (destruct (queue q); [done|by apply Forall_cons_1 in Hq as [_ ?]]).
  unfold Push, evict_push. destruct (_ || _); [by intros [= <- <-]|].
  destruct (policy q), (full q); intros [= <- <-]; simpl; auto.
Qed.
Lemma PushControl_typed {X} (P : X -> Prop) (q : BoundedQueue X) v :
  Forall P (queue q) -> P v -> Forall P (queue (PushControl q v).2).
Proof.
  intros Hq Hv. assert (forall l, Forall P l -> Forall P (l ++ [v])) as Happ.
  { intros l Hl. apply Forall_app. split; [done|]. by apply Forall_singleton. }
  assert (Forall P (tail (queue q))) as Ht by (destruct (queue q); [done|by apply Forall_cons_1 in Hq as [_ ?]]).
  unfold PushControl, evict_push. destruct (_ || _); [done|]. destruct (full q); simpl; auto.
Qed.

Lemma typed_push st c p : stream_ok st p -> neutral (blocking (push_stream st c p)).
Proof.
  intros Hp. apply neutral_blocking_silent. intros s r s'. unfold push_stream.
  destruct (transport st s) as [t|] eqn:Ht; [|done]. destruct c.
  - pose proof (PushControl_typed (stream_ok st) (t_queue t) p) as Hq.
    destruct (PushControl (t_queue t) p) as [r' q]. intros [= <- <-]. eapply silent_put; [done|]. auto.
  - destruct (Push (t_queue t) p) as [[r' q]|] eqn:Hq; [|done]. intros [= <- <-].
    eapply silent_put; [done|]. intros Hf. by eapply Push_typed.
Qed.
Hint Resolve typed_push : typed.

Lemma typed_count_drop st metric : neutral (count_drop st metric).
Proof. unfold count_drop. neutral_auto. by apply typed_modify. Qed.
Hint Resolve typed_count_drop : typed.

Lemma typed_EnqueueEdge i p : stream_ok (SEdge i) p -> neutral (EnqueueEdge i p).
Proof.
  intros Hp. unfold EnqueueEdge. apply neutral_bind.
  { apply neutral_silent. intros s. destruct (edges_ s !! i) as [e|] eqn:He; [|done].
    destruct (admit_edge _ p (er_transport e)) as [t|] eqn:Ha; [|done]. simpl.
    destruct (admit_edge_core _ _ _ _ Ha) as [E1 E2].
    eapply (silent_put (SEdge i) (er_transport e)); [simpl; by rewrite He|]. by rewrite E2. }
  intros [c|status]; [|done]. unfold ScheduleEdge. neutral_auto.
Qed.
Hint Resolve typed_EnqueueEdge : typed.

Lemma typed_enqueue_all route p e : (forall i, i ∈ route -> stream_ok (SEdge i) p) -> neutral (enqueue_all route p e).
Proof.
  revert e. induction route as [|i route IH]; intros e Hp; [done|]. cbn [enqueue_all].
  apply neutral_bind; [apply typed_EnqueueEdge, Hp; set_solver|intros status]. apply IH.
  intros j Hj. apply Hp. set_solver.
Qed.

Context (G : typed_graph).

(** The callbacks of an endpoint are observers of its streams. *)
Lemma observers_of_typed s ep l p M : TI s M -> graph_outputs_ s !! ep = Some l -> out_ok ep p ->
  forall k, k ∈ observers_of l s -> exists o, observer_objects s !! k = Some o /\ stream_out_ok (ob_stream o) p.
Proof.
  intros HI Hl Hp k. unfold observers_of. rewrite list_elem_of_In, in_concat.
  intros (ks & Hks & Hk). apply in_map_iff in Hks as (n & <- & Hn). apply list_elem_of_In in Hk, Hn.
  destruct (observers_ s !! n) as [ids|] eqn:Hids; [|by apply not_elem_of_nil in Hk].
  destruct (to_table _ _ _ _ (ti_observers _ _ HI) _ _ _ Hids Hk) as (o & Ho & <-). exists o. split; [done|].
  destruct (tc_outputs _ (ti_core _ _ HI) _ _ _ Hl Hn) as (out & Hin & <- & <-). by apply (tg_outputs G).
Qed.

Lemma typed_Emit id port p : out_ok (endpoint id port) p -> neutral (Emit id port p).
Proof.
  intros Hp. unfold Emit. apply neutral_bind; [apply neutral_read|intros [|]]; [done|].
  apply neutral_bind; [destruct (is_eos p); [by apply typed_update_view|done]|intros _]. cbv zeta.
  apply wp_read. intros s F HI. rewrite (left_id_L ∅ (⊎)) in HI.
  set (l := match graph_outputs_ s !! _ with Some _ => _ | None => _ end).
  destruct (TI_watch_all s p l F HI) as (O & HO & Hl).
  { intros k Hk. unfold l in Hk. destruct (graph_outputs_ s !! _) as [streams|] eqn:Hs; [|by apply not_elem_of_nil in Hk].
    by eapply observers_of_typed. }
  exists O. split; [done|]. clearbody l. clear s F HI HO. apply wp_bind.
  eapply wp_mono; [by apply wp_notify_all|]. intros _ O' ->. apply wp_read. intros s F HI.
  exists ∅. split; [eapply TI_weaken; [|done]; multiset_solver|].
  destruct (routes_ s !! _) as [route|] eqn:Hr; [|done]. apply typed_enqueue_all. intros i Hi e He.
  destruct (tc_routes _ (ti_core _ _ HI) _ _ _ Hr Hi) as (e' & He' & Hn). simplify_eq.
  apply (tg_edges G); [by eapply list_elem_of_lookup_2|]. by rewrite Hn.
Qed.
Hint Resolve typed_Emit : typed.
(** ** Running a node *)

(** The next part of a program may use what the part before it found out. *)
Lemma wp_found {A B} (m : prog St A) (k : A -> prog St B) (P : A -> Prop) :
  wp ∅ m (fun a O => O = ∅ /\ P a) -> (forall a, P a -> neutral (k a)) -> neutral (bind m k).
Proof. intros Hm Hk. apply wp_bind. eapply wp_mono; [exact Hm|]. intros a O [-> Ha]. by apply Hk. Qed.

Lemma wp_atomically {B} (f : St -> B * St) (P : B -> Prop) :
  (forall s M, TI s M -> TI (f s).2 M /\ P (f s).1) -> wp ∅ (atomically f) (fun b O => O = ∅ /\ P b).
Proof.
  intros Hf s F b s' HI [= Hs]. rewrite (left_id_L ∅ (⊎)) in HI. destruct (Hf s F HI) as [H1 H2].
  rewrite Hs in H1, H2. exists ∅. rewrite (left_id_L ∅ (⊎)). by split.
Qed.

(** A private action of a node. *)
Lemma typed_node_act {A B} id (f : St -> NodeObj NS -> B * NodeObj NS) (k : B -> prog St A) :
  (forall s o, private id o -> private id (f s o).2 /\ neutral (k (f s o).1)) ->
  neutral (Act (fun s => match nodes_ s !! id with
                         | None => None
                         | Some n => let '(b, o) := f s (rn_node n) in
                                     Some (b, put_node id (mkRuntimeNode (rn_config n) (rn_contract n)
                                                (rn_class n) o (rn_inputs n) (processing n)) s)
                         end) k).
Proof.
  intros Hf s F b s' HI Hs. exists ∅. destruct (nodes_ s !! id) as [n|] eqn:Hn; [|done].
  destruct (tc_nodes _ (ti_core _ _ HI) _ _ Hn) as (Hc & Hp & Hi).
  destruct (Hf s _ Hp) as [H1 H2]. destruct (f s (rn_node n)) as [b' o]. injection Hs as <- <-.
  split; [|done]. eapply TI_silent; [|exact HI]. by eapply silent_node.
Qed.

Lemma typed_node_prog {A} id (m : NodeM (NodeObj NS) A) : typed_prog (private id) id m -> neutral (node_prog id m).
Proof.
  induction m as [a|B f k IH|port p k IH|n k IH|n v k IH|B f k IH]; cbn [node_prog typed_prog]; intros Hm.
  - done.
  - apply (typed_node_act id (fun _ => f)). intros _ o Ho. destruct (Hm o Ho). auto.
  - destruct Hm as [Hp Hk]. neutral_auto.
  - neutral_auto.
  - neutral_auto.
  - apply (typed_node_act id (fun s => f (clock_us s))). intros s o Ho. destruct (Hm (clock_us s) o Ho). auto.
Qed.

Lemma typed_Invoke thread id ins : typed_set id ins -> neutral (Invoke thread id ins).
Proof.
  intros Hi. unfold Invoke.
  apply (wp_found _ _ (fun x => forall n c, x = Some (n, c) -> typed_prog (private id) id (Process (rn_class n) c))).
  { apply wp_atomically. intros s M HI. split; [done|]. intros n c. simpl.
    destruct (nodes_ s !! id) as [n'|] eqn:Hn; [|done]. intros [= <- <-].
    destruct (tc_nodes _ (ti_core _ _ HI) _ _ Hn) as (Hc & _). by apply typed_node_Process. }
  intros node Hn. neutral_auto; try (by apply typed_node_prog, Hn).
  - apply neutral_blocking_silent. intros s b s'. destruct (nodes_ s !! id) as [m|] eqn:Hm; [|done].
    destruct (processing m); [done|]. intros [= <- <-]. by eapply silent_node.
  - apply neutral_update_silent. intros s. destruct (nodes_ s !! id) as [m|] eqn:Hm; [|done]. by eapply silent_node.
  - by apply typed_update_view.
Qed.
Hint Resolve typed_Invoke : typed.

Lemma typed_deliver_bound id port b : neutral (atomically (deliver_bound id port b)).
Proof.
  apply neutral_silent. intros s. unfold deliver_bound. destruct (nodes_ s !! id) as [n|] eqn:Hn; [|done].
  pose proof (typed_bound id id (rn_contract n) port b (rn_inputs n)) as Hb.
  destruct (DeliverBound _ _ _ _ _) as [[st drops] ins]. simpl in *.
  etrans; [|apply silent_increment_by]. by eapply silent_node.
Qed.
Hint Resolve typed_deliver_bound : typed.

Lemma typed_Deliver thread id port p : in_ok id port p -> neutral (Deliver thread id port p).
Proof.
  intros Hp. unfold Deliver. destruct (is_bound p); [neutral_auto|].
  apply (wp_found _ _ (fun r => forall x, r = Some (PInvoke x) -> typed_set id x)).
  { apply wp_atomically. intros s M HI. unfold prepare. destruct (nodes_ s !! id) as [n|] eqn:Hn; [|done].
    destruct (tc_nodes _ (ti_core _ _ HI) _ _ Hn) as (_ & _ & Hi).
    destruct (typed_prepare id (nc_id (rn_config n)) (rn_contract n) port p (rn_inputs n) Hp Hi) as [H1 H2].
    destruct (PrepareInvocation _ _ _ _ _) as [[r drops] ins]. simpl in *. split.
    - eapply TI_silent; [|exact HI]. etrans; [|apply silent_increment_by]. by eapply silent_node.
    - by intros x [= ->]. }
  intros r Hr. neutral_auto.
Qed.
Hint Resolve typed_Deliver : typed.

(** ** Draining *)

Lemma target_typed st s node port p : typed_core s -> stream_target st s = Some (node, port) ->
  stream_ok st p -> in_ok node port p.
Proof.
  intros Hc Ht Hp. destruct st as [i|n]; simpl in *.
  - apply fmap_Some in Ht as (e & He & [= -> ->]). apply Hp. by eapply tc_edges.
  - apply fmap_Some in Ht as (r & Hr & [= -> ->]). destruct (tc_inputs _ Hc _ _ Hr). by apply Hp.
Qed.

Lemma typed_drain thread st again : neutral again -> neutral (drain thread st again).
Proof.
  intros Ha. unfold drain.
  apply (wp_found _ _ (fun r => forall p node port, r = Some (Some (p, node, port)) -> in_ok node port p)).
  { apply wp_atomically. intros s M HI. unfold pop_stream. destruct (transport st s) as [t|] eqn:Ht; [|done].
    destruct (stream_target st s) as [[node port]|] eqn:Hg; [|done].
    pose proof (tc_queues _ (ti_core _ _ HI) _ _ Ht) as Hq. unfold TryPop.
    destruct (queue (t_queue t)) as [|p rest] eqn:E; simpl.
    - split; [|done]. eapply TI_silent; [|exact HI]. eapply silent_put; [done|]. simpl. by rewrite E.
    - apply Forall_cons_1 in Hq as [H1 H2]. split.
      + eapply TI_silent; [|exact HI]. by eapply silent_put.
      + intros p' n' q' [= <- <- <-]. by eapply target_typed; [apply HI| |]. }
  intros [o|] Ho; [|done]. neutral_auto. by apply typed_modify.
Qed.

Lemma typed_drain_task thread st : neutral (drain_task thread st).
Proof. destruct st; apply typed_drain, typed_schedule. Qed.
(** ** Operations of the application *)

Lemma typed_operation {A} (refused : A) (body : prog St A) : neutral body -> neutral (operation refused body).
Proof.
  intros Hb. unfold operation, BeginOperation, EndOperation. neutral_auto.
  - apply neutral_silent. intros s. destruct (_ || _); [done|by apply silent_view].
  - by apply typed_update_view.
Qed.

Lemma typed_AddPacket stream p : stream_ok (SInput stream) p -> neutral (AddPacket stream p).
Proof.
  intros Hp. apply typed_operation. apply neutral_bind; [apply neutral_read|intros [|]]; [done|].
  apply neutral_bind.
  { apply neutral_silent. intros s. destruct (graph_inputs_ s !! stream) as [i|] eqn:Hi; [|done].
    destruct (admit_input stream p (ir_transport i)) as [t|] eqn:Ha; [|done]. simpl.
    destruct (admit_input_core _ _ _ _ Ha) as [E1 E2].
    eapply (silent_put (SInput stream) (ir_transport i)); [simpl; by rewrite Hi|]. by rewrite E2. }
  intros [c|status]; [|done]. unfold ScheduleInput. neutral_auto.
Qed.
Hint Resolve typed_AddPacket : typed.

Lemma typed_SetInputTimestampBound stream b : neutral (SetInputTimestampBound stream b).
Proof.
  apply typed_operation. neutral_auto. apply neutral_silent. intros s.
  destruct (transport (SInput stream) s) as [t|] eqn:Ht; [|done].
  destruct (_ && _); [done|]. by eapply (silent_put (SInput stream)).
Qed.

Lemma typed_CloseInputStream stream : neutral (CloseInputStream stream).
Proof.
  assert (stream_ok (SInput stream) (Event kEndOfStream Done)) as He by by apply control_stream.
  apply typed_operation. unfold ScheduleInput. neutral_auto.
  - apply neutral_silent. intros s. by apply silent_view.
  - by apply typed_modify.
Qed.

Lemma typed_any_busy {A} (l : list A) (test : A -> prog St bool) acc :
  (forall x, neutral (test x)) -> neutral (any_busy l test acc).
Proof.
  intros Ht. revert acc. induction l as [|x l IH]; intros acc; [done|].
  apply neutral_bind; [apply Ht|intros b; apply IH].
Qed.

Lemma typed_poll_idle : neutral poll_idle.
Proof. unfold poll_idle. neutral_auto; apply typed_any_busy; intros x; neutral_auto. Qed.
Hint Resolve typed_poll_idle : typed.

Lemma typed_WaitUntilIdle polls : neutral (WaitUntilIdle polls).
Proof. apply typed_operation. induction polls as [|n IH]; cbn [poll_loop]; unfold last_error; neutral_auto. Qed.
Hint Resolve typed_WaitUntilIdle : typed.

Lemma typed_WaitUntilDone expired polls : neutral (WaitUntilDone expired polls).
Proof.
  apply typed_operation. unfold last_error. neutral_auto. apply neutral_blocking_silent. intros s b s'.
  destruct (inputs_done s); [by intros [= <- <-]|]. destruct expired; [by intros [= <- <-]|done].
Qed.

Lemma typed_GetRuntimeInfo : neutral GetRuntimeInfo.
Proof. unfold GetRuntimeInfo. apply neutral_bind; [apply neutral_read|intros flags]. apply typed_operation. neutral_auto. Qed.

Lemma typed_Cancel : neutral Runner.Cancel.
Proof. unfold Runner.Cancel. neutral_auto. by apply typed_update_view. Qed.

Lemma typed_SetErrorCallback cb : neutral (SetErrorCallback cb).
Proof.
  unfold SetErrorCallback, ShutdownErrorCallback. neutral_auto.
  - apply neutral_silent. intros s. by apply silent_view.
  - by apply typed_update_view.
Qed.

Lemma typed_SetSidePacket name p : neutral (SetSidePacket name p).
Proof.
  unfold SetSidePacket. neutral_auto. apply neutral_silent. intros s.
  destruct (SideSet _ _ _). by apply silent_view.
Qed.

(** ** Operations on observers *)

(** A new observer: its identity is drawn, it is stored, it is registered. *)
Lemma wp_draw_observer :
  wp ∅ (atomically (fun s : St => (next_observer_id_ s, set_next_observer_id (S (next_observer_id_ s)) s)))
     (fun k O => O = {[+ Fresh k +]}).
Proof.
  intros s F k s' HI [= <- <-]. rewrite (left_id_L ∅ (⊎)) in HI. exists {[+ Fresh (next_observer_id_ s) +]}.
  split; [|done]. destruct HI as [Hc [H1 H2 H3 H4 H4' H5] [H6 H7]]. split; simpl.
  - destruct Hc. by split.
  - assert (Fresh (next_observer_id_ s) ∉ F) as Hn. { intros Hin. destruct (H5 _ Hin) as [? _]. lia. }
    split; try done.
    + intros k Hk. specialize (H2 k Hk). lia.
    + intros k n Hk. apply H4. multiset_solver.
    + intros k Hk. apply H4'. multiset_solver.
    + intros k. rewrite gmultiset_elem_of_disj_union, gmultiset_elem_of_singleton.
      rewrite multiplicity_disj_union, multiplicity_singleton. intros [[= ->]|Hk].
      * rewrite decide_True by done. apply not_elem_of_multiplicity in Hn. rewrite Hn. split_and!; [lia| |lia].
        destruct (observer_objects s !! next_observer_id_ s) eqn:E; [|done].
        exfalso. assert (next_observer_id_ s < next_observer_id_ s); [apply H2; by rewrite E|lia].
      * destruct (H5 k Hk) as (A & B & C). rewrite decide_False by (intros [= ->]; done).
        split_and!; [lia|done|lia].
  - split; [rewrite multiplicity_disj_union, multiplicity_singleton_ne by done; done|].
    intros Hk. apply H7. multiset_solver.
Qed.

Lemma wp_store_observer k stream options :
  wp {[+ Fresh k +]} (update (put_observer k (new_observer stream options))) (fun _ O => O = {[+ Watching k stream +]}).
Proof.
  intros s F b s' [Hc [H1 H2 H3 H4 H4' H5] [H6 H7]] [= <- <-]. exists {[+ Watching k stream +]}. split; [|done].
  destruct (H5 k) as (Hk & Hnone & Hm); [multiset_solver|].
  assert (forall k' n, k' <> k \/ observer_objects s !! k' = Some n ->
            <[k := new_observer stream options]> (observer_objects s) !! k' = observer_objects s !! k') as Hne.
  { intros k' n [?|Hx]; apply lookup_insert_ne; congruence. }
  split; simpl.
  - destruct Hc. by split.
  - split; simpl.
    + intros k' o. rewrite lookup_insert_Some. intros [[<- <-]|[_ Ho]]; [by split|by apply (H1 k')].
    + intros k' [o Ho]. apply lookup_insert_Some in Ho as [[<- _]|[_ Ho]]; eauto.
    + intros n l k' Hn Hin. destruct (H3 n l k' Hn Hin) as (o & Ho & Eo). exists o. by rewrite (Hne k' o) by auto.
    + intros k' n. rewrite gmultiset_elem_of_disj_union, gmultiset_elem_of_singleton. intros [[= -> ->]|Hin].
      * exists (new_observer stream options). by rewrite lookup_insert_eq.
      * destruct (H4 k' n) as (o & Ho & Eo); [multiset_solver|]. exists o. by rewrite (Hne k' o) by auto.
    + intros k' Hin. destruct (H4' k') as (o & p & Ho & Hp); [multiset_solver|]. exists o, p. by rewrite (Hne k' o) by auto.
    + intros k' Hin. assert (Fresh k' ∈ F) as HF by multiset_solver.
      rewrite multiplicity_disj_union, multiplicity_singleton in Hm. rewrite decide_True in Hm by done.
      assert (k' <> k) as Hkk. { intros ->. unfold elem_of, gmultiset_elem_of in HF. lia. }
      destruct (H5 k') as (A & B & C); [multiset_solver|]. rewrite multiplicity_disj_union, multiplicity_singleton_ne in C by congruence.
      rewrite multiplicity_disj_union, multiplicity_singleton_ne by done. split_and!; [done| |done].
      by rewrite lookup_insert_ne.
  - split; [rewrite multiplicity_disj_union, multiplicity_singleton_ne in * by done; done|].
    intros Hin. apply H7. multiset_solver.
Qed.

Lemma wp_register_observer (keep : bool) k stream options :
  wp {[+ Watching k stream +]} (update (register_observer k stream options))
     (fun _ O => O = if keep then {[+ Watching k stream +]} else ∅).
Proof.
  intros s F b s' HI [= <- <-]. exists (if keep then {[+ Watching k stream +]} else ∅). split; [|done].
  assert (exists o, observer_objects s !! k = Some o /\ ob_stream o = stream) as Hk.
  { eapply to_watch; [apply HI|]. multiset_solver. }
  apply (TI_weaken _ _ ((if keep then {[+ Watching k stream +]} else ∅) ⊎ F)) in HI; [|destruct keep; multiset_solver].
  destruct HI as [Hc [H1 H2 H3 H4 H4' H5] H6]. split; [destruct Hc; by split|split; try done|done].
  intros n l k'. simpl. rewrite lookup_insert_Some. intros [[<- <-]|[_ Hl]] Hin; [|by eapply H3].
  apply elem_of_app in Hin as [Hin|Hin].
  - destruct (observers_ s !! stream) as [l|] eqn:El; [by eapply H3|by apply not_elem_of_nil in Hin].
  - by apply list_elem_of_singleton in Hin as ->.
Qed.

(** [keep]: the caller goes on with the knowledge of what it observes. *)
Lemma wp_ObserveOutput (keep : bool) outputs stream cb options :
  wp ∅ (ObserveOutput outputs stream cb options)
     (fun r O => match r with
                 | Okay k => O = if keep then {[+ Watching k stream +]} else ∅
                 | Err status => O = ∅ /\ ok status = false
                 end).
Proof.
  unfold ObserveOutput. destruct (negb _) eqn:E; [split; [done|by apply negb_true_iff]|].
  apply wp_bind. eapply wp_mono; [apply wp_draw_observer|]. intros k O ->.
  apply wp_bind. eapply wp_mono; [apply wp_store_observer|]. intros _ O ->.
  apply wp_bind. eapply wp_mono; [apply (wp_register_observer keep)|]. by intros _ O ->.
Qed.
Lemma typed_ObserveOutput outputs stream cb options : neutral (ObserveOutput outputs stream cb options).
Proof. eapply wp_mono; [apply (wp_ObserveOutput false)|]. intros [k|st] O; [done|by intros [-> _]]. Qed.

Lemma typed_stop_observer k : neutral (update (stop_observer k)).
Proof.
  apply neutral_atomically. intros s M HI. simpl. unfold stop_observer.
  destruct (observer_objects s !! k) as [o|] eqn:Ho; [|done]. by eapply TI_observer.
Qed.
Hint Resolve typed_stop_observer : typed.

(** Fewer observers are registered. *)
Lemma TI_unregister s s' M : TI s M -> silent s (set_observers (observers_ s) s') ->
  (forall n l k, observers_ s' !! n = Some l -> k ∈ l -> exists l', observers_ s !! n = Some l' /\ k ∈ l') -> TI s' M.
Proof.
  intros [Hc [H1 H2 H3 H4 H4' H5] [H6 H7]] (E1 & _ & E3 & E4 & E5) Hl. simpl in *. split.
  - destruct (E1 Hc). by split.
  - rewrite E3, E4. split; try done. intros n l k Hn Hk. destruct (Hl n l k Hn Hk) as (l' & Hl' & Hk'). eauto.
  - split; [done|]. intros Hin. by apply E5, H7.
Qed.

Lemma typed_CancelObserver own k : neutral (CancelObserver own k).
Proof.
  unfold CancelObserver, join_observer. neutral_auto; [|by apply typed_update_view].
  apply neutral_atomically. intros s M HI. case_bool_decide; [|done].
  eapply TI_unregister; [done|by apply silent_view|]. simpl. intros n l k' Hn Hk.
  rewrite lookup_fmap in Hn. apply fmap_Some in Hn as (l0 & Hl0 & ->). exists l0. split; [done|].
  apply list_elem_of_In, filter_In in Hk as [Hk _]. by apply list_elem_of_In.
Qed.

Lemma typed_WaitObserved expired k : neutral (WaitObserved expired k).
Proof.
  unfold WaitObserved. neutral_auto. apply (neutral_with_observer k (WaitForObservedOutput expired)).
  intros o b o'. unfold WaitForObservedOutput. destruct (_ || _).
  - case_bool_decide; by intros [= <- <-].
  - destruct expired; [by intros [= <- <-]|done].
Qed.

Lemma typed_ShutdownObservers : neutral ShutdownObservers.
Proof.
  unfold ShutdownObservers, join_observer. neutral_auto; [|apply neutral_for_each; intros; neutral_auto].
  apply neutral_atomically. intros s M HI. eapply TI_unregister; [done|by apply silent_view|].
  simpl. intros n l k'. by rewrite lookup_empty.
Qed.
Hint Resolve typed_ShutdownObservers : typed.

(** Between taking a packet and finishing it the worker knows its stream. *)
Lemma wp_observer_take k :
  wp ∅ (with_observer k observer_take)
     (fun r O => match r with
                 | None => O = ∅
                 | Some p => exists n, O = {[+ Watching k n +]} /\ stream_out_ok n p
                 end).
Proof.
  intros s F r s' HI Hs. rewrite (left_id_L ∅ (⊎)) in HI.
  destruct (observer_objects s !! k) as [o|] eqn:Ho; [|done]. unfold observer_take in Hs.
  destruct (to_typed _ _ _ _ (ti_observers _ _ HI) _ _ Ho) as [Hq _].
  destruct (ob_queue o) as [|p rest] eqn:Eq.
  - destruct (ob_stopped o); [|done]. injection Hs as <- <-. exists ∅. rewrite (left_id_L ∅ (⊎)). split; [|done].
    eapply TI_observer; [done..| |done]. by rewrite Eq.
  - injection Hs as <- <-. exists {[+ Watching k (ob_stream o) +]}. apply Forall_cons_1 in Hq as [Hp Hrest]. split.
    + eapply TI_observer; [by apply TI_watch|done..].
    + exists (ob_stream o). by split.
Qed.

Lemma wp_observer_callback k n p throws : stream_out_ok n p ->
  wp {[+ Watching k n +]} (with_observer k (fun o => Some (observer_callback throws p o)))
     (fun _ O => O = {[+ Watching k n +]}).
Proof.
  intros Hp s F r s' HI Hs. exists {[+ Watching k n +]}. split; [|done].
  destruct (to_watch _ _ _ _ (ti_observers _ _ HI) k n) as (o & Ho & <-); [multiset_solver|].
  rewrite Ho in Hs. injection Hs as <- <-. eapply TI_observer; [done..| |]; simpl.
  - intros Hq Hr. split; [done|]. apply Forall_app. split; [done|]. by apply Forall_singleton.
  - intros q Hq. apply elem_of_app. by left.
Qed.

Lemma wp_observer_finish k n :
  wp {[+ Watching k n +]} (with_observer k (fun o => Some (tt, observer_finish o))) (fun _ O => O = ∅).
Proof.
  intros s F r s' HI Hs. exists ∅. split; [|done].
  assert (TI s (∅ ⊎ F)) as HI' by (eapply TI_weaken; [|exact HI]; multiset_solver).
  eapply (TI_step_observer s k (fun o => Some (tt, observer_finish o))); [|exact HI'|exact Hs].
  by intros o b o' [= <- <-].
Qed.

Lemma typed_RunObserver fuel throws k : neutral (RunObserver fuel throws k).
Proof.
  induction fuel as [|fuel IH]; [done|]. cbn [RunObserver]. apply wp_bind.
  eapply wp_mono; [apply wp_observer_take|]. intros [p|] O HO; [|done]. destruct HO as (n & -> & Hp).
  apply wp_bind. eapply wp_mono; [by apply wp_observer_callback|]. intros threw O ->.
  apply neutral_seq; [destruct threw; neutral_auto|intros _].
  apply wp_bind. eapply wp_mono; [apply wp_observer_finish|]. by intros _ O ->.
Qed.

(** ** Sources *)

Lemma table_keeps f : (forall t, typed_table t -> typed_table (f t)) -> neutral (update_table f).
Proof. intros Hf. apply neutral_update_silent. intros s. by apply silent_table, Hf. Qed.

Lemma on_table_keeps {A} (f : SourceTable -> A * SourceTable) :
  (forall t, typed_table t -> typed_table (f t).2) -> neutral (atomically (on_table f)).
Proof.
  intros Hf. apply neutral_silent. intros s. unfold on_table. specialize (Hf (source_table s)).
  destruct (f (source_table s)) as [a t]. by apply (silent_table (fun _ => t)).
Qed.

Lemma table_insert t i x y : typed_table t -> sources_ t !! i = Some x ->
  src_input_stream y = src_input_stream x -> typed_table (set_sources (<[i := y]> (sources_ t)) t).
Proof.
  intros [H1 H2] Hx Ey. split; [done|]. intros j z. simpl. rewrite lookup_insert_Some.
  intros [[<- <-]|[_ Hz]]; [rewrite Ey; by eapply H2|by eapply H2].
Qed.
Lemma table_modify t i f : typed_table t -> (forall x, src_input_stream (f x) = src_input_stream x) ->
  typed_table (modify_source i f t).
Proof. intros Ht Hf. unfold modify_source. destruct (sources_ t !! i) eqn:E; [|done]. by eapply table_insert. Qed.
Lemma table_delete t i : typed_table t -> typed_table (set_sources (delete i (sources_ t)) t).
Proof. intros [H1 H2]. split; [done|]. intros j z. simpl. rewrite lookup_delete_Some. intros [_ Hz]. by eapply H2. Qed.
Lemma table_same t t' : source_slots_ t' = source_slots_ t -> sources_ t' = sources_ t -> typed_table t -> typed_table t'.
Proof. intros E1 E2 [H1 H2]. split; by rewrite ?E1, ?E2. Qed.
Lemma table_decrement t : typed_table t -> typed_table (decrement_active t).
Proof. by apply table_same. Qed.

Lemma typed_close_drain d t : typed_table t -> typed_table (close_drain d t).
Proof.
  intros Ht. unfold close_drain. destruct (drains t !! d) as [[]|]; [|done]. by eapply table_same; [..|exact Ht].
Qed.
Lemma typed_erase i t : typed_table t -> typed_table (erase_source i t).
Proof.
  intros Ht. pose proof (table_delete t i Ht) as Hd. unfold erase_source.
  destruct (sources_ t !! i) as [x|]; [|done]. destruct (active x); [by apply table_decrement|done].
Qed.
Lemma typed_insert c slot i b t : c ∈ source_slots config -> typed_table t ->
  typed_table (insert_source slot i (input_stream c) b t).2.
Proof.
  intros Hc Ht. unfold insert_source. destruct (sources_ t !! i); [done|].
  destruct Ht as [H1 H2]. split; [done|]. simpl. intros j x. rewrite lookup_insert_Some.
  intros [[<- <-]|[_ Hx]]; [|by eapply H2]. simpl. apply list_elem_of_In, in_map_iff. exists c.
  split; [done|]. by apply list_elem_of_In.
Qed.

Lemma typed_source_packet i e now t : typed_table t ->
  typed_table (source_packet i e now t).2 /\
  forall input d, (source_packet i e now t).1 = Forward input d -> input ∈ map input_stream (source_slots config).
Proof.
  intros Ht. unfold source_packet. destruct (sources_ t !! i) as [x|] eqn:Hx; [|done].
  pose proof (ty_sources _ Ht _ _ Hx) as Hin.
  assert (forall y, src_input_stream y = src_input_stream x -> typed_table (set_sources (<[i := y]> (sources_ t)) t)) as Hins
    by (intros; by eapply table_insert).
  destruct e; simpl; split; try done; auto; try (by intros input d [= <- <-]).
  destruct (active x); [|by apply Hins]. apply table_decrement. by apply Hins.
Qed.

(** The packet that a source's packet becomes. *)
Definition tagged (i : string) (d : nat) p : Packet :=
  set_metadata (AddLifetimeToken p (Some d)) "source_id" (MString i).

(** What a source forwards goes to an input of the slots. *)
Definition forwards_typed (r : Forwarded) : Prop :=
  forall n d, r = Forward n d -> n ∈ map input_stream (source_slots config).

Lemma wp_source_packet i p :
  wp ∅ (atomically (fun s : St => on_table (source_packet i (event p) (clock_us s)) s))
     (fun r O => O = ∅ /\ forwards_typed r).
Proof.
  apply wp_atomically. intros s M HI. unfold on_table.
  destruct (typed_source_packet i (event p) (clock_us s) (source_table s) (tc_sources _ (ti_core _ _ HI))) as [H1 H2].
  destruct (source_packet _ _ _ _) as [r t]. split; [|exact H2].
  eapply TI_silent; [|exact HI]. by apply (silent_table (fun _ => t)).
Qed.

Lemma typed_forward i p r : forwards_typed r ->
  (forall n d, n ∈ map input_stream (source_slots config) -> stream_ok (SInput n) (tagged i d p)) ->
  neutral (forward_source i p r).
Proof.
  intros Hr Hp. destruct r as [st|n d]; [done|]. apply neutral_bind.
  - apply on_table_keeps. intros t Ht. unfold enter_drain. destruct (drains t !! d) as [[m [|]]|]; try done.
    by eapply table_same; [..|exact Ht].
  - intros [|]; [|done]. apply typed_AddPacket, Hp. by eapply Hr.
Qed.

Lemma typed_AddSourcePacket i p :
  (forall n d, n ∈ map input_stream (source_slots config) -> stream_ok (SInput n) (tagged i d p)) ->
  neutral (AddSourcePacket i p).
Proof. intros Hp. eapply wp_found; [apply wp_source_packet|]. intros r Hr. by apply typed_forward. Qed.

Lemma typed_SubmitControl (task : prog St Status) : neutral task -> neutral (SubmitControl task).
Proof.
  intros Ht. unfold SubmitControl. neutral_auto; [|by apply typed_update_view].
  apply neutral_blocking_silent. intros s b s'. destruct (control_executor_ s) as [[|]|]; try done.
  intros [= <- <-]. by apply silent_view.
Qed.

Lemma typed_RemoveSource expired i : neutral (RemoveSource expired i).
Proof.
  apply typed_SubmitControl. unfold RemoveSourceImpl. neutral_auto.
  - apply on_table_keeps. intros t Ht. by apply table_modify.
  - apply table_keeps, typed_close_drain.
  - apply neutral_blocking_silent. intros s0 b s'. destruct (drained _ _); [by intros [= <- <-]|].
    destruct expired; [by intros [= <- <-]|done].
  - apply table_keeps. intros t Ht. by apply table_modify.
  - apply table_keeps, typed_erase.
Qed.

Lemma typed_RestartSource start i : neutral (RestartSource start i).
Proof.
  apply typed_SubmitControl. unfold RestartSourceImpl. neutral_auto; apply on_table_keeps; intros t Ht.
  - by apply table_modify.
  - unfold finish_restart. destruct (sources_ t !! i) as [x|] eqn:Hx; [|done]. case_match; simpl; [|by eapply table_insert].
    match goal with |- context [set_sources (<[i := ?y]> (sources_ t)) t] =>
      assert (typed_table (set_sources (<[i := y]> (sources_ t)) t)) as Hi by by eapply table_insert end.
    set (t1 := set_sources _ t) in *. clearbody t1.
    assert (typed_table (if active x then t1 else increment_active t1)) as Hi2
      by (destruct (active x); [done|by apply (table_same t1)]).
    set (t2 := if active x then t1 else _) in *. clearbody t2.
    destruct (drains t2 !! _) as [[]|]; [by apply (table_same t2)|done].
Qed.

Context (load_template : string -> Res GraphConfig).

Lemma typed_AddSource start slot i options : neutral (AddSource classes load_template start slot i options).
Proof.
  apply typed_SubmitControl. unfold AddSourceImpl.
  apply (wp_found _ _ (fun r => forall c, r = Okay c -> c ∈ source_slots config)).
  { apply wp_atomically. intros s M HI. split; [done|]. intros c. simpl. unfold check_source.
    case_bool_decide; [done|]. destruct (source_slots_ _ !! slot) as [x|] eqn:Hx; [|done].
    case_bool_decide; [|done]. intros [= <-]. eapply ty_slots; [apply HI|exact Hx]. }
  intros [c|] Hc; [|done]. specialize (Hc _ eq_refl). neutral_auto.
  - apply on_table_keeps. intros t Ht. by apply typed_insert.
  - apply table_keeps. intros t Ht. by apply table_decrement, table_delete.
Qed.
(** ** Stopping *)

Lemma typed_with_node {A} id (none : A) (f : RuntimeNode NS -> prog St A) :
  (forall n, typed_class id (rn_class n) -> neutral (f n)) -> neutral (with_node id none f).
Proof.
  intros Hf. unfold with_node.
  apply (wp_found _ _ (fun x => forall n, x = Some n -> typed_class id (rn_class n))).
  { apply wp_atomically. intros s M HI. split; [done|]. simpl. intros n Hn.
    by destruct (tc_nodes _ (ti_core _ _ HI) _ _ Hn). }
  intros [n|] Hn; [|done]. by apply Hf, Hn.
Qed.

Lemma typed_clear_session : neutral (update clear_session).
Proof.
  apply neutral_update_silent. intros s. split_and!; try done. intros [H1 H2 H3 H4 H5 H6 H7].
  split; simpl; try (intros; by rewrite lookup_empty in *); try done.
  - intros [i|n] t; simpl; [done|by rewrite lookup_empty].
  - by eapply table_same; [..|exact H7].
Qed.

Lemma typed_begin_stop : neutral (begin_stop (NS := NS)).
Proof.
  apply neutral_blocking_silent. intros s b s'. destruct (stopping_ s); [done|].
  destruct (_ && _); intros [= <- <-]; [done|by apply silent_view].
Qed.

Lemma table_cleared t : typed_table t -> typed_table (set_sources ∅ t).
Proof. intros [H1 H2]. split; [done|]. intros i x. simpl. by rewrite lookup_empty. Qed.

Lemma typed_request_stops (ids : list string) :
  neutral (for_each ids (fun id => with_node id tt (fun n => node_prog id (RequestStop (rn_class n))))).
Proof.
  apply neutral_for_each. intros id. apply typed_with_node. intros n Hn.
  by apply typed_node_prog, typed_node_RequestStop.
Qed.

Lemma typed_finish_stop : neutral (finish_stop (NS := NS)).
Proof.
  unfold finish_stop, stop_control. apply neutral_bind; [apply typed_CloseQueues|intros _].
  apply neutral_bind.
  { apply neutral_blocking_silent. intros s b s'.
    destruct (control_executor_ s) as [[|]|]; intros [= <- <-]; by apply silent_view. }
  intros _. apply neutral_bind; [apply neutral_read|intros ex].
  apply neutral_bind.
  { apply neutral_for_each. intros name. neutral_auto. apply neutral_update_silent. intros s. unfold stop_executor.
    destruct (executors_ s !! name); [by apply silent_view|done]. }
  intros _. apply neutral_bind; [neutral_auto|intros _]. apply neutral_bind; [apply neutral_read|intros order].
  apply neutral_bind; [apply neutral_for_each; intros id; apply typed_with_node; intros n Hn; neutral_auto;
                       by apply typed_node_prog, typed_node_Stop|intros _].
  apply neutral_bind; [apply neutral_for_each; intros id; apply typed_with_node; intros n Hn; neutral_auto;
                       by apply typed_node_prog, typed_node_Close|intros _].
  apply neutral_bind; [apply typed_clear_session|intros _]. by apply typed_update_view.
Qed.

Lemma typed_Stop : neutral (Runner.Stop (NS := NS)).
Proof.
  unfold Runner.Stop. apply neutral_bind; [apply typed_begin_stop|intros [|]]; [|done]. cbn [negb].
  apply neutral_bind; [by apply typed_update_view|intros _].
  apply neutral_bind; [apply table_keeps, table_cleared|intros _].
  apply neutral_bind; [apply neutral_read|intros ids].
  apply neutral_bind; [apply typed_request_stops|intros _]. apply typed_finish_stop.
Qed.
Hint Resolve typed_Stop : typed.

Lemma typed_Destroy : neutral (Runner.Destroy (NS := NS)).
Proof.
  unfold Runner.Destroy, ShutdownErrorCallback. neutral_auto. apply neutral_silent. intros s. by apply silent_view.
Qed.

(** ** Starting *)

Lemma typed_for_status {A} (l : list A) (f : A -> prog St Status) :
  (forall x, x ∈ l -> neutral (f x)) -> neutral (for_status l f).
Proof.
  induction l as [|x l IH]; intros Hf; [done|]. cbn [for_status].
  apply neutral_bind; [apply Hf; set_solver|intros st]. destruct (ok st); [|done].
  apply IH. intros y Hy. apply Hf. set_solver.
Qed.

Lemma typed_open_node c : c ∈ nodes config -> neutral (open_node classes c).
Proof.
  intros Hin. unfold open_node. destruct (classes !! nc_type c) as [ci|] eqn:Hci; [|done].
  destruct (tg_nodes G c ci Hin Hci) as [Hty Hpr].
  assert (private (nc_id c) (nrun quiet (nbind (Configure ci.1 (nc_options c)) (fun r =>
            if ok r then Open ci.1 else NRet r)) (rn_node (new_runtime_node c ci)) tt).1.2) as Ho.
  { apply (typed_nrun _ _ (nc_id c)); [|done]. apply typed_bind; [by apply typed_node_Configure|intros r].
    apply typed_if; [by apply typed_node_Open|done]. }
  destruct (nrun _ _ _ _) as [[st o] w]. simpl in Ho. destruct (negb (ok st)).
  - destruct (nrun _ _ _ _) as [[st' o'] w']. neutral_auto. by apply typed_update_view.
  - neutral_auto. apply neutral_update_silent. intros s. cbv zeta.
    set (n := mkRuntimeNode _ _ _ _ _ _).
    assert (silent s (put_node (nc_id c) n s)) as Hn.
    { split_and!; try done. intros [H1 H2 H3 H4 H5 H6 H7]. split; try done; simpl.
      intros id m. rewrite lookup_insert_Some. intros [[<- <-]|[_ Hm]]; [|by apply H6].
      split_and!; [done|done|apply typed_empty_inputs]. }
    etrans; [exact Hn|]. case_bool_decide; by apply silent_view.
Qed.

(** The tables of the session. *)
Lemma typed_add_edges l2 l1 s : edges config = l1 ++ l2 -> map er_config (edges_ s) = l1 -> typed_core s ->
  typed_core (fold_left (fun s e => add_edge e s) l2 s).
Proof.
  revert l1 s. induction l2 as [|e l2 IH]; intros l1 s El Es Hc; [done|].
  assert (length (edges_ s) = length l1) as Hlen by (rewrite <- Es; by rewrite length_map).
  assert (edges config !! length (edges_ s) = Some e) as He.
  { rewrite El, Hlen. by apply list_lookup_middle. }
  simpl. apply (IH (l1 ++ [e])); [by rewrite <- (assoc_L (++))|simpl; by rewrite map_app, Es|].
  destruct Hc as [H1 H2 H3 H4 H5 H6 H7]. split; try done; simpl.
  - intros i x Hx. apply lookup_app_Some in Hx as [Hx|[Hi Hx]]; [by apply H1|].
    apply list_lookup_singleton_Some in Hx as [Hi' <-]. simpl. by replace i with (length (edges_ s)) by lia.
  - intros [i|n] t; [|apply (H3 (SInput n))]. simpl. intros Ht. apply fmap_Some in Ht as (x & Hx & ->).
    apply lookup_app_Some in Hx as [Hx|[Hi Hx]].
    + apply (H3 (SEdge i)). simpl. by rewrite Hx.
    + apply list_lookup_singleton_Some in Hx as [_ <-]. constructor.
  - intros ep l i. rewrite lookup_insert_Some. intros [[<- <-]|[_ Hl]] Hi; [|by eapply H4].
    apply elem_of_app in Hi as [Hi|Hi].
    + destruct (routes_ s !! _) as [l|] eqn:Hr; [by eapply H4|by apply not_elem_of_nil in Hi].
    + apply list_elem_of_singleton in Hi as ->. by exists e.
Qed.

Lemma typed_fold {A} (f : A -> St -> St) (l : list A) s :
  (forall x s, x ∈ l -> typed_core s -> typed_core (f x s)) -> typed_core s ->
  typed_core (fold_left (fun s x => f x s) l s).
Proof.
  revert s. induction l as [|x l IH]; intros s Hf Hs; [done|]. simpl.
  apply IH; [intros; apply Hf; set_solver|apply Hf; set_solver].
Qed.

Lemma typed_add_input c s : c ∈ ginputs config -> typed_core s -> typed_core (add_input c s).
Proof.
  intros Hin [H1 H2 H3 H4 H5 H6 H7]. unfold add_input.
  destruct (graph_inputs_ s !! gp_name c) as [r|] eqn:Hr; split; try done; simpl.
  - intros n r. rewrite lookup_insert_Some. intros [[<- <-]|[_ Hx]]; [done|by apply (H2 n)].
  - intros [i|n] t; [apply (H3 (SEdge i))|]. simpl. intros Ht. apply fmap_Some in Ht as (x & Hx & ->).
    apply lookup_insert_Some in Hx as [[<- <-]|[_ Hx]]; [constructor|].
    apply (H3 (SInput n)). simpl. by rewrite Hx.
Qed.

Lemma typed_add_output c s : c ∈ goutputs config -> typed_core s -> typed_core (add_output c s).
Proof.
  intros Hin [H1 H2 H3 H4 H5 H6 H7]. split; try done; simpl.
  intros ep l n. rewrite lookup_insert_Some. intros [[<- <-]|[_ Hl]] Hn; [|by eapply H5].
  apply elem_of_app in Hn as [Hn|Hn].
  - destruct (graph_outputs_ s !! _) as [l|] eqn:Ho; [by eapply H5|by apply not_elem_of_nil in Hn].
  - apply list_elem_of_singleton in Hn as ->. by exists c.
Qed.

Lemma slots_typed (l : list SourceSlotConfig) (m : gmap string SourceSlotConfig) :
  (forall c, c ∈ l -> c ∈ source_slots config) -> (forall n c, m !! n = Some c -> c ∈ source_slots config) ->
  forall n c, fold_left (fun m c => <[slot_name c := c]> m) l m !! n = Some c -> c ∈ source_slots config.
Proof.
  revert m. induction l as [|x l IH]; intros m Hl Hm; [exact Hm|]. simpl. apply IH; [intros; apply Hl; set_solver|].
  intros n c. rewrite lookup_insert_Some. intros [[<- <-]|[_ Hc]]; [apply Hl; set_solver|by eapply Hm].
Qed.

Lemma typed_wire s : edges_ s = [] -> typed_core s -> typed_core (wire config s).
Proof.
  intros He Hs. unfold wire. apply (typed_fold add_output); [intros; by apply typed_add_output|].
  set (s2 := fold_left (fun s i => add_input i s) _ _). assert (typed_core s2) as Hs2.
  { apply (typed_fold add_input); [intros; by apply typed_add_input|].
    apply (typed_add_edges (edges config) []); [done| |done]. by rewrite He. }
  clearbody s2. destruct Hs2 as [H1 H2 H3 H4 H5 H6 [H7 H8]]. split; try done. split; [|done].
  simpl. apply slots_typed; [done|]. intros n c. by rewrite lookup_empty.
Qed.

Definition observed s := (observers_ s, observer_objects s, next_observer_id_ s).

Lemma observed_fold {A} (f : A -> St -> St) (l : list A) s :
  (forall x s, observed (f x s) = observed s) -> observed (fold_left (fun s x => f x s) l s) = observed s.
Proof. intros Hf. revert s. induction l as [|x l IH]; intros s; [done|]. simpl. by rewrite IH. Qed.

Lemma observed_wire s : observed (wire config s) = observed s.
Proof.
  unfold wire. rewrite (observed_fold add_output) by done.
  transitivity (observed (fold_left (fun s i => add_input i s) (ginputs config)
                            (fold_left (fun s e => add_edge e s) (edges config) s))); [done|].
  rewrite (observed_fold add_input), (observed_fold add_edge); [done|done|].
  intros x s0. unfold add_input, observed. by destruct (graph_inputs_ s0 !! gp_name x).
Qed.

(** The tables are made once. *)
Lemma wp_wire : wp {[+ Cold +]} (update (wire config)) (fun _ O => O = ∅).
Proof.
  intros s F b s' HI [= <- <-]. exists ∅. split; [|done].
  assert (TI s (∅ ⊎ F)) as [_ Ho _] by (eapply TI_weaken; [|exact HI]; multiset_solver).
  destruct HI as [Hc _ [H1 H2]].
  rewrite multiplicity_disj_union, multiplicity_singleton, decide_True in H1 by done.
  assert (multiplicity Cold F = 0) as HF by lia. pose proof (observed_wire s) as [= E1 E2 E3]. split.
  - apply typed_wire; [|done]. apply H2. multiset_solver.
  - by rewrite E1, E2, E3.
  - rewrite (left_id_L ∅ (⊎)). split; [lia|]. unfold elem_of, gmultiset_elem_of. lia.
Qed.

(** An action may forget what its thread was owed. *)
Lemma wp_forget {A B} O (f : St -> option (B * St)) (k : B -> prog St A) Q : wp ∅ (Act f k) Q -> wp O (Act f k) Q.
Proof. intros Hw s F b s' HI Hf. eapply Hw; [|exact Hf]. eapply TI_weaken; [|exact HI]. multiset_solver. Qed.

Lemma typed_start_node id : neutral (start_node id).
Proof.
  unfold start_node. apply typed_with_node. intros n Hn.
  apply (wp_found _ _ (fun c => node_id c = id /\ typed_set id (context_inputs c))).
  { apply wp_atomically. intros s M HI. split; [done|]. split; [done|]. intros q p. simpl. by rewrite lookup_empty. }
  intros c [Hid Hin]. neutral_auto. by apply typed_node_prog, typed_node_Start.
Qed.

Lemma typed_prime_edge i : neutral (prime_edge i).
Proof.
  unfold prime_edge. apply (wp_found _ _ (fun x => forall e, x = Some e -> edges config !! i = Some e)).
  { apply wp_atomically. intros s M HI. split; [done|]. simpl. intros e. destruct (edges_ s !! i) as [x|] eqn:Hx; [|done].
    intros [= <-]. eapply tc_edges; [apply HI|done]. }
  intros [e|] He; [|done]. specialize (He _ eq_refl). destruct (back_edge e) eqn:Hb; [|done].
  apply neutral_bind; [|done]. apply typed_EnqueueEdge. intros e' He'. simplify_eq.
  apply (tg_back G); [by eapply list_elem_of_lookup_2|done].
Qed.

Lemma wp_Start : wp {[+ Cold +]} (Runner.Start config classes) (fun _ O => O = ∅).
Proof.
  unfold Runner.Start. apply wp_read. intros s F HI.
  assert (TI s (∅ ⊎ F)) as HI' by (eapply TI_weaken; [|exact HI]; multiset_solver).
  destruct (running_ s); [by exists ∅|]. cbn [fst snd]. destruct (stopping_ s); [by exists ∅|]. cbv zeta.
  destruct (negb (ok (Validate _ _))); [by exists ∅|]. exists {[+ Cold +]}. split; [done|]. clear s F HI HI'.
  do 2 (apply neutral_seq; [by apply typed_update_view|intros _]).
  apply neutral_seq; [apply neutral_for_each; intros c; apply neutral_update_silent; intros s; unfold start_executor;
                      destruct (executors_ s !! ex_name c); [done|by apply silent_view]|intros _].
  apply neutral_seq; [by apply typed_update_view|intros _].
  apply neutral_seq; [apply typed_for_status; intros; by apply typed_open_node|intros opened].
  destruct (negb (ok opened)).
  { apply wp_forget. apply (neutral_bind _ Runner.Stop); [apply typed_Stop|done]. }
  apply wp_bind. eapply wp_mono; [apply wp_wire|]. intros _ O ->.
  apply neutral_bind; [apply typed_for_status; intros kv _; apply neutral_silent; intros s;
    destruct (SideFind _ _); [done|]; destruct (SideSet _ _ _); by apply silent_view|intros sides].
  unfold failed. destruct (negb (ok sides)); [neutral_auto|].
  apply neutral_bind; [by apply typed_update_view|intros _]. apply neutral_bind; [apply neutral_read|intros order].
  apply neutral_bind; [apply typed_for_status; intros; apply typed_start_node|intros started].
  destruct (negb (ok started)); [neutral_auto|]. apply neutral_bind; [apply neutral_read|intros n].
  apply neutral_bind; [apply neutral_for_each; intros; apply typed_prime_edge|done].
Qed.
(** ** Sessions *)

(** What the application, the nodes' own threads and the observers run while [Start] is under
    way or after it.  A packet that is added is one its stream may carry, a program that a node
    runs on a thread of its own is typed; everything else is unrestricted. *)
Inductive typed_client : prog St unit -> Prop :=
| typed_client_add stream p : stream_ok (SInput stream) p -> typed_client (discard (AddPacket stream p))
| typed_client_bound stream b : typed_client (discard (SetInputTimestampBound stream b))
| typed_client_close stream : typed_client (discard (CloseInputStream stream))
| typed_client_idle polls : typed_client (discard (WaitUntilIdle polls))
| typed_client_done expired polls : typed_client (discard (WaitUntilDone expired polls))
| typed_client_info : typed_client (discard GetRuntimeInfo)
| typed_client_cancel : typed_client Runner.Cancel
| typed_client_stop : typed_client Runner.Stop
| typed_client_destroy : typed_client Runner.Destroy
| typed_client_callback cb : typed_client (discard (SetErrorCallback cb))
| typed_client_side name p : typed_client (discard (SetSidePacket name p))
| typed_client_observe stream cb options :
    typed_client (discard (ObserveOutput (map gp_name (goutputs config)) stream cb options))
| typed_client_unobserve own k : typed_client (discard (CancelObserver own k))
| typed_client_observed expired k : typed_client (discard (WaitObserved expired k))
| typed_client_observer fuel throws k : typed_client (RunObserver fuel throws k)
| typed_client_source start slot i options : typed_client (discard (AddSource classes load_template start slot i options))
| typed_client_source_packet i p :
    (forall n d, n ∈ map input_stream (source_slots config) -> stream_ok (SInput n) (tagged i d p)) ->
    typed_client (discard (AddSourcePacket i p))
| typed_client_unsource expired i : typed_client (discard (RemoveSource expired i))
| typed_client_resource start i : typed_client (discard (RestartSource start i))
| typed_client_node id (m : NodeM (NodeObj NS) unit) : typed_prog (private id) id m -> typed_client (node_prog id m).

Inductive typed_spawn : St -> prog St unit -> St -> Prop :=
| typed_spawn_client s m : typed_client m -> typed_spawn s m s
| typed_spawn_task s name e st rest thread :
    executors_ s !! name = Some e -> ex_tasks e = st :: rest -> (ex_active e < workers e) ->
    typed_spawn s (drain_task thread st;;; update (finish_task name))
      (set_executors (<[name := mkExec (workers e) (ex_running e) rest (S (ex_active e))]> (executors_ s)) s).

(** The clock goes on and the worker of the error callback does its work. *)
Definition typed_environment s s' : Prop :=
  exists callback now, s' = set_clock_us now (set_error_callback callback s).

Definition typed_step := pstep typed_spawn typed_environment.

Lemma typed_discard {A} (m : prog St A) : neutral m -> neutral (discard m).
Proof. intros Hm. by apply neutral_bind. Qed.

Lemma typed_client_neutral m : typed_client m -> neutral m.
Proof.
  destruct 1; try apply typed_discard; eauto using typed_AddPacket, typed_SetInputTimestampBound,
    typed_CloseInputStream, typed_WaitUntilIdle, typed_WaitUntilDone, typed_GetRuntimeInfo, typed_Cancel,
    typed_Stop, typed_Destroy, typed_SetErrorCallback, typed_SetSidePacket, typed_ObserveOutput, typed_CancelObserver,
    typed_WaitObserved, typed_RunObserver, typed_AddSource, typed_AddSourcePacket, typed_RemoveSource,
    typed_RestartSource, typed_node_prog.
Qed.

Lemma typed_finish_task name : neutral (update (finish_task name)).
Proof.
  apply neutral_update_silent. intros s. unfold finish_task.
  destruct (executors_ s !! name); [by apply silent_view|done].
Qed.

Lemma typed_spawn_inv s m s' M : TI s M -> typed_spawn s m s' ->
  exists O, TI s' (M ⊎ O) /\ wp O m (fun _ O' => O' = ∅).
Proof.
  intros HI Hp. exists ∅. rewrite (right_id_L ∅ (⊎)).
  destruct Hp as [s m Hc|s name e st rest thread He Ht Ha]; [split; [done|by apply typed_client_neutral]|].
  split; [eapply TI_silent; [|exact HI]; by apply silent_view|].
  apply neutral_bind; [apply typed_drain_task|intros _; apply typed_finish_task].
Qed.

Lemma typed_environment_inv s s' M : TI s M -> typed_environment s s' -> TI s' M.
Proof. intros HI (cb & now & ->). eapply TI_silent; [|exact HI]; by apply silent_view. Qed.

Lemma typed_new now : TI (NewGraphRunner now) {[+ Cold +]}.
Proof.
  split; [split; try done|split; try done|].
  - by intros [i|n] t.
  - by intros k [x Hx].
  - intros k n. rewrite gmultiset_elem_of_singleton. done.
  - intros k. rewrite gmultiset_elem_of_singleton. done.
  - intros k. rewrite gmultiset_elem_of_singleton. done.
  - split; [by rewrite multiplicity_singleton, decide_True by done|done].
Qed.

(** The invariant of a pool whose first thread makes the tables. *)
Lemma typed_reachable now m s ts : wp {[+ Cold +]} m (fun _ O => O = ∅) ->
  rtc typed_step (NewGraphRunner now, [m]) (s, ts) -> exists M, TI s M.
Proof.
  intros Hp Hr. assert (pool_inv TI (s, ts)) as (ots & _ & _ & HI); [|by eexists].
  eapply pool_inv_reachable; [..|exact Hr].
  - intros. by eapply typed_spawn_inv.
  - intros. by eapply typed_environment_inv.
  - exists [({[+ Cold +]}, m)]. split_and!; [done|by apply Forall_singleton|]. simpl.
    rewrite (right_id_L ∅ (⊎)). apply typed_new.
Qed.

(** Threads that run one after the other. *)
Lemma typed_run_client m s s' ts : typed_client m -> run m s = Some (tt, s') ->
  rtc typed_step (s, ts) (s', ts ++ [Ret tt]).
Proof.
  intros Hm Hr. eapply rtc_l; [by eapply pstep_spawn, typed_spawn_client|]. by apply run_steps.
Qed.
Lemma typed_run_task name e st rest thread s s' ts :
  executors_ s !! name = Some e -> ex_tasks e = st :: rest -> ex_active e < workers e ->
  run (drain_task thread st;;; update (finish_task name))
    (set_executors (<[name := mkExec (workers e) (ex_running e) rest (S (ex_active e))]> (executors_ s)) s) = Some (tt, s') ->
  rtc typed_step (s, ts) (s', ts ++ [Ret tt]).
Proof.
  intros He Ht Ha Hr. eapply rtc_l; [by eapply pstep_spawn, typed_spawn_task|]. by apply run_steps.
Qed.

End typing.

(** A runner holds nothing but what the discipline allows. *)
Definition runner_typed {NS} (D : Discipline NS) (s : State NS) : Prop :=
  (forall st t node port p, transport st s = Some t -> stream_target st s = Some (node, port) ->
     p ∈ queue (t_queue t) -> in_ok D node port p) /\
  (forall id n, nodes_ s !! id = Some n -> typed_inputs D id (rn_inputs n) /\ d_private D id (self (rn_node n))) /\
  (forall k o p, observer_objects s !! k = Some o -> p ∈ received o ++ ob_queue o ->
     stream_out_ok D (ob_stream o) p).

Lemma TI_runner_typed {NS} config (D : Discipline NS) s M : TI config D s M -> runner_typed D s.
Proof.
  intros [Hc Ho _]. split_and!.
  - intros st t node port p Ht Hg Hp. eapply target_typed; [exact Hc|exact Hg|].
    pose proof (tc_queues _ _ _ Hc _ _ Ht) as Hq. rewrite Forall_forall in Hq. by apply Hq.
  - intros id n Hn. by destruct (tc_nodes _ _ _ Hc _ _ Hn) as (_ & ? & ?).
  - intros k o p Hk Hp. destruct (to_typed _ _ _ _ _ Ho _ _ Hk) as [H1 H2].
    rewrite Forall_forall in H1, H2. apply elem_of_app in Hp as [Hp|Hp]; [by apply H2|by apply H1].
Qed.


(** ** Two nodes in a row

    Each adds one to the numbers it receives; even numbers go in. *)

Definition number (p : Packet) : Z := match data p with PlOther _ v => v | _ => 0%Z end.

Definition successor : NodeClass unit :=
  default_hooks (mkContract [mkPort "in" AnyCaps true] [mkPort "out" AnyCaps true] [] kAny "")
    (fun c => match Input c "in" with
              | None => NRet (Invalid "no input")
              | Some p => Node.Emit c "out" (if control p then p
                                             else Make (PlOther "int" (number p + 1)) (timestamp p))
              end).

Definition successor_node (id : string) : NodeConfig :=
  mkNodeConfig id "Successor" "default" (∅ : NodeOptions) false kAny "".
Definition parity_config : GraphConfig :=
  mkGraphConfig 2 "parity" [default_executor] [successor_node "a"; successor_node "b"]
    [mkEdge "a" "out" "b" "in" (mkQueueConfig 4 kDropOldest) false CNull]
    [mkGraphPort "numbers" "a" "in" (mkQueueConfig 4 kBlock)]
    [mkGraphPort "results" "b" "out" (mkQueueConfig 4 kBlock)] [] ∅ default_flow_control.
Definition parity_classes : gmap string (NodeClass unit * unit) := {["Successor" := (successor, tt)]}.

Definition even (p : Packet) : Prop := Z.even (number p) = true.
Definition odd (p : Packet) : Prop := Z.odd (number p) = true.
Definition parity : Discipline unit := mkDiscipline
  (fun id _ p => if bool_decide (id = "a") then even p else odd p)
  (fun ep p => if bool_decide (ep = "a.out") then odd p else even p)
  (fun _ => even) (fun _ _ => True).

Lemma control_inherit ins p : control (inherit_all ins p) = control p.
Proof. unfold control, is_bound, is_eos. by destruct (inherit_all_fields ins p) as (-> & _ & _ & ->). Qed.

(** Even numbers become odd and odd ones even. *)
Lemma successor_typed_as D id : (forall p q, d_in D id "in" p -> number q = (number p + 1)%Z -> d_out D (endpoint id "out") q) ->
  (forall s, d_private D id s) -> typed_class D id successor.
Proof.
  intros Hio Hpriv. split; try done. intros c Hc Hin. simpl. unfold Input.
  destruct (context_inputs c !! "in") as [p|] eqn:Hp; [|done]. apply Hin in Hp.
  unfold Node.Emit. destruct (has_emit c); [|done]. split; [|done]. unfold out_ok.
  rewrite control_inherit. destruct (control p) eqn:Ec; [by left; rewrite Ec|]. right.
  destruct Hp as [?|Hp]; [congruence|]. eapply Hio; [exact Hp|]. unfold number at 1.
  by rewrite (proj1 (inherit_all_fields _ _)).
Qed.

Lemma successor_typed id : id = "a" \/ id = "b" -> typed_class parity id successor.
Proof.
  intros Hid. apply successor_typed_as; [|done]. intros p q. simpl. unfold even, odd.
  intros Hp ->. destruct Hid as [-> | ->]; simpl in *; [by rewrite Z.add_1_r, Z.odd_succ|by rewrite Z.add_1_r, Z.even_succ].
Qed.

Lemma parity_graph : typed_graph parity_config parity_classes parity.
Proof.
  split; simpl.
  - intros e p He%list_elem_of_singleton. subst. intros [?|Ho]; [by left|by right].
  - intros e He%list_elem_of_singleton. by subst.
  - intros o p Ho%list_elem_of_singleton. subst. intros [?|Ho]; [by left|by right].
  - intros c ci Hc Hci. assert (ci = (successor, tt)) as ->.
    { unfold parity_classes in Hci. by apply lookup_singleton_Some in Hci as [_ <-]. }
    split; [|done]. apply elem_of_cons in Hc as [->|Hc%list_elem_of_singleton]; [|subst]; apply successor_typed; auto.
Qed.

Definition after {A} (m : prog (State unit) A) (s : State unit) : State unit :=
  match run m s with Some (_, s') => s' | None => s end.
Definition take_task (s : State unit) : State unit :=
  set_executors (<["default" := mkExec 1 true [] 1]> (executors_ s)) s.
Definition task (st : Stream) : prog (State unit) unit := drain_task 0 st;;; update (finish_task "default").
Definition two : Packet := Make (PlOther "int" 2) (FromMicroseconds 7).

Definition parity_started : State unit := after (Runner.Start parity_config parity_classes) (NewGraphRunner 0).
Definition parity_observed : State unit :=
  after (ObserveOutput ["results"] "results" true default_observer_options) parity_started.
Definition parity_added : State unit := after (AddPacket "numbers" two) parity_observed.
Definition parity_halfway : State unit := after (task (SInput "numbers")) (take_task parity_added).
Definition parity_emitted : State unit := after (task (SEdge 0)) (take_task parity_halfway).
Definition parity_done : State unit := after (RunObserver 1 (fun _ => false) 1) parity_emitted.

Lemma parity_reachable : exists ts,
  rtc (typed_step parity_config parity_classes parity no_templates)
      (NewGraphRunner 0, [discard (Runner.Start parity_config parity_classes)]) (parity_done, ts).
Proof.
  eexists.
  etrans; [apply (run_steps _ _ (discard (Runner.Start parity_config parity_classes)) _ parity_started []); vm_compute; reflexivity|].
  etrans; [apply (typed_run_client _ _ _ _ (discard (ObserveOutput ["results"] "results" true default_observer_options))
    _ parity_observed); [apply typed_client_observe|vm_compute; reflexivity]|].
  etrans; [apply (typed_run_client _ _ _ _ (discard (AddPacket "numbers" two)) _ parity_added);
    [apply typed_client_add; intros c Hc%list_elem_of_singleton _; subst; by right|vm_compute; reflexivity]|].
  etrans; [eapply (typed_run_task _ _ _ _ "default" (mkExec 1 true [SInput "numbers"] 0) (SInput "numbers") [] 0%Z _ parity_halfway);
    [vm_compute; reflexivity|reflexivity|simpl; lia|vm_compute; reflexivity]|].
  etrans; [eapply (typed_run_task _ _ _ _ "default" (mkExec 1 true [SEdge 0] 0) (SEdge 0) [] 0%Z _ parity_emitted);
    [vm_compute; reflexivity|reflexivity|simpl; lia|vm_compute; reflexivity]|].
  apply (typed_run_client _ _ _ _ (RunObserver 1 (fun _ => false) 1) _ parity_done);
    [apply typed_client_observer|vm_compute; reflexivity].
Qed.

