(* ===== verification/Subgraph.v ===== *)
(** * A source with a subgraph

    [GraphRunner::AddSourceImpl], [RemoveSourceImpl] and the callback between them
    ([src/core/graph_runner.cpp]): a source whose slot names a template runs a graph of its own,
    in a runner of its own.  An observer of the subgraph's output tags the packets and adds them
    to the graph as packets of the source.

    [World] is the state of both runners and of the [source_mutex_] of the outer one, which the code
    holds while it destroys a subgraph; the other critical sections of that mutex are one action
    each and wait for it.  The operations of [Runner] run in their part of the world.

    [typed_subgraph]: a discipline of the subgraph and one of the graph that agree on the
    output of the subgraph hold together, under any interleaving of both runners' threads.
    [remove_source_deadlocks]: the removal of a source can block for good. *)

From stdpp Require Import gmultiset.
From S2P Require Import Prelude Status Timestamp Values BoundedQueue Telemetry Contract Node Registry Services GraphConfig Graph InputSync Observers Sources Atomic RunnerState Runner RunnerFacts Typing.
Local Open Scope nat_scope.
Local Open Scope prog_scope.

#[local] Arguments Atomic.bind : simpl never.
#[local] Arguments Atomic.wp : simpl never.

(** ** Two runners *)

Record World (NS : Type) := mkWorld {
  w_parent : State NS;
  w_child : State NS;
  source_locked : bool }.
Arguments mkWorld {NS} _ _ _.
Arguments w_parent {NS} _.
Arguments w_child {NS} _.
Arguments source_locked {NS} _.

Section world.
Context {NS : Type}.
Abbreviation St := (State NS).
Abbreviation program := (prog (World NS)).

Definition set_parent (s : St) (w : World NS) : World NS := mkWorld s (w_child w) (source_locked w).
Definition set_child (s : St) (w : World NS) : World NS := mkWorld (w_parent w) s (source_locked w).
Definition set_locked (b : bool) (w : World NS) : World NS := mkWorld (w_parent w) (w_child w) b.

Definition on_parent {A} (m : prog St A) : program A := zoom w_parent set_parent m.
Definition on_child {A} (m : prog St A) : program A := zoom w_child set_child m.

(** A critical section of [source_mutex_]. *)
Definition under_mutex {B} (f : St -> B * St) : program B :=
  blocking (fun w => if source_locked w then None
                     else let '(b, s) := f (w_parent w) in Some (b, set_parent s w)).
(** One that is longer than an action. *)
Definition lock_sources : program unit :=
  blocking (fun w => if source_locked w then None else Some (tt, set_locked true w)).
Definition unlock_sources : program unit := update (set_locked false).

(* [src/core/graph_runner.cpp:1004-1040] GraphRunner::AddSourcePacket *)
Definition add_source_packet (id : string) (p : Packet) : program Status :=
  r <-- under_mutex (fun s : St => on_table (source_packet id (event p) (clock_us s)) s);
  on_parent (forward_source id p r).

(* [src/core/graph_runner.cpp:971-977] GraphRunner::AddSourceImpl (callback) *)
Definition source_callback (id : string) (p : Packet) : program unit :=
  status <-- add_source_packet id (set_metadata p "source_id" (MString id));
  if negb (ok status) && negb (bool_decide (code status = kCancelled)) then on_parent (SetError status) else Ret tt.

(** The worker of the subgraph's observer, whose callback does not throw; the packets it gets to
    are bounded by [fuel]. *)
(* [src/core/graph_runner.cpp:655-679] GraphRunner::RunObserver *)
Fixpoint run_source_observer (fuel : nat) (id : string) (k : nat) : program unit :=
  match fuel with
  | O => blocking (fun _ => None)
  | S fuel =>
      taken <-- on_child (with_observer k observer_take);
      match taken with
      | None => Ret tt
      | Some p =>
          on_child (with_observer k (fun o => Some (observer_callback false p o)));;;
          source_callback id p;;;
          on_child (with_observer k (fun o => Some (tt, observer_finish o)));;;
          run_source_observer fuel id k
      end
  end.

(** After the checks, for a slot with a template: [config] is the template with the options of
    the source.  The subgraph is destroyed with the source. *)
(* [src/core/graph_runner.cpp:967-1001] GraphRunner::AddSourceImpl (subgraph) *)
Definition add_source (config : GraphConfig) (classes : gmap string (NodeClass NS * NS)) (c : SourceSlotConfig)
    (slot id : string) : program Status :=
  observed <-- on_child (ObserveOutput (map gp_name (goutputs config)) (output_stream c) true default_observer_options);
  match observed with
  | Err status => on_child Runner.Destroy;;; Ret status
  | Okay _ =>
      status <-- under_mutex (on_table (insert_source slot id (input_stream c) true));
      if negb (ok status) then on_child Runner.Destroy;;; Ret status
      else
        started <-- on_child (Runner.Start config classes);
        if negb (ok started) then
          lock_sources;;;
          on_parent (update_table (fun t => set_sources (delete id (sources_ t)) t));;;
          on_child Runner.Destroy;;;
          on_parent (update_table decrement_active);;;
          unlock_sources;;;
          Ret (Internal ("source subgraph start failed: " +:+ message started))
        else on_parent (update (increment "sources.added"));;; Ret Ok
  end.

Definition when (b : bool) (m : program unit) : program unit := if b then m else Ret tt.

(* [src/core/graph_runner.cpp:1048-1097] GraphRunner::RemoveSourceImpl *)
Definition remove_source (expired : bool) (id : string) : program Status :=
  found <-- under_mutex (on_table (begin_remove id));
  match found with
  | None => Ret (NotFound ("source not found: " +:+ id))
  | Some src =>
      on_parent (update_table (close_drain (Sources.drain src)));;;
      when (has_child src) (on_child Runner.Stop);;;
      completed <-- on_parent (blocking (fun s : St => if drained (Sources.drain src) (source_table s) then Some (true, s)
                                                       else if expired then Some (false, s) else None));
      if negb completed then
        under_mutex (fun s : St => (tt, set_source_table (stall_source id (Sources.drain src) (source_table s)) s));;;
        Ret (Unavailable ("source drain timed out: " +:+ id))
      else
        lock_sources;;;
        on_parent (update_table (erase_source id));;;
        when (has_child src) (on_child Runner.Destroy);;;
        on_parent (update (increment "sources.removed"));;;
        unlock_sources;;;
        Ret Ok
  end.

(* [src/core/graph_runner.cpp:1103-1139] GraphRunner::RestartSourceImpl *)
Definition restart_source (config : GraphConfig) (classes : gmap string (NodeClass NS * NS)) (id : string) : program Status :=
  found <-- under_mutex (on_table (begin_restart id));
  match found with
  | None => Ret (NotFound ("source not found: " +:+ id))
  | Some src =>
      status <-- (if has_child src then on_child (Runner.Stop;;; Runner.Start config classes) else Ret Ok);
      under_mutex (on_table (finish_restart id (Sources.drain src) (has_child src) status))
  end.

(** [Stop] takes the sources out of the table, stops their subgraphs, and destroys them when it
    returns. *)
(* [src/core/graph_runner.cpp:437-489] GraphRunner::Stop *)
Definition stop_world : program unit :=
  go <-- on_parent begin_stop;
  if negb go then Ret tt
  else
    on_parent (update (set_cancelled true));;;
    child <-- under_mutex (fun s : St => (existsb (fun kv => has_child kv.2) (map_to_list (sources_ (source_table s))),
                                          set_source_table (set_sources ∅ (source_table s)) s));
    ids <-- on_parent (read (fun s : St => (map_to_list (nodes_ s)).*1));
    on_parent (for_each ids (fun id => with_node id tt (fun n => node_prog id (RequestStop (rn_class n)))));;;
    when child (on_child Runner.Stop);;;
    on_parent finish_stop;;;
    when child (on_child Runner.Destroy).

(** Without a subgraph these are the operations of [Runner]: nobody holds the mutex, and its
    critical sections are the actions there. *)
Lemma run_on_parent {A} (m : prog St A) w :
  run (on_parent m) w = match run m (w_parent w) with Some (a, s) => Some (a, set_parent s w) | None => None end.
Proof.
  revert w. induction m as [a|B f k IH]; intros w; [by destruct w|]. simpl.
  destruct (f (w_parent w)) as [[b s]|]; [|done]. rewrite IH. simpl. by destruct (run (k b) s) as [[a s']|].
Qed.

Lemma run_under_mutex {A B} (f : St -> B * St) (k : B -> program A) w : source_locked w = false ->
  run (bind (under_mutex f) k) w = run (k (f (w_parent w)).1) (set_parent (f (w_parent w)).2 w).
Proof. intros Hl. rewrite run_bind. simpl. rewrite Hl. by destruct (f (w_parent w)). Qed.

Lemma run_atomically {A B} (f : St -> B * St) (k : B -> prog St A) s :
  run (bind (atomically f) k) s = run (k (f s).1) (f s).2.
Proof. rewrite run_bind. simpl. by destruct (f s). Qed.

(** The result of a run in the graph's part of the world. *)
Definition in_world {A} (w : World NS) (r : option (A * St)) : option (A * World NS) :=
  match r with Some (a, s) => Some (a, set_parent s w) | None => None end.

Lemma add_source_packet_run id p w : source_locked w = false ->
  run (add_source_packet id p) w = in_world w (run (Runner.AddSourcePacket id p) (w_parent w)).
Proof.
  intros Hl. unfold add_source_packet, Runner.AddSourcePacket.
  rewrite run_under_mutex, run_on_parent, run_atomically by done. done.
Qed.

Lemma remove_source_run expired id w : source_locked w = false ->
  (forall src, sources_ (source_table (w_parent w)) !! id = Some src -> has_child src = false) ->
  run (remove_source expired id) w = in_world w (run (RemoveSourceImpl expired id) (w_parent w)).
Proof.
  destruct w as [ps cs l]. intros Hl Hc. simpl in Hl, Hc. subst l.
  unfold remove_source, RemoveSourceImpl. rewrite run_under_mutex, run_atomically by done.
  unfold on_table, begin_remove. cbn [fst snd].
  cbn [w_parent]. destruct (sources_ (source_table ps) !! id) as [src|]; [|done]. rewrite (Hc src) by done. cbn [when].
  repeat (rewrite run_bind; simpl). unfold set_parent; simpl.
  destruct (drained _ _); [|destruct expired; [|done]]; simpl;
    repeat (rewrite run_bind; simpl); reflexivity.
Qed.

Lemma restart_source_run config classes start id w : source_locked w = false ->
  (forall src, sources_ (source_table (w_parent w)) !! id = Some src -> has_child src = false) ->
  run (restart_source config classes id) w = in_world w (run (RestartSourceImpl start id) (w_parent w)).
Proof.
  destruct w as [ps cs l]. intros Hl Hc. simpl in Hl, Hc. subst l.
  unfold restart_source, RestartSourceImpl. rewrite run_under_mutex, run_atomically by done.
  unfold on_table, begin_restart. cbn [fst snd w_parent].
  destruct (sources_ (source_table ps) !! id) as [src|]; [|done]. rewrite (Hc src) by done.
  rewrite run_bind. simpl. by destruct (finish_restart _ _ _ _ _) as [a t].
Qed.
End world.

(** ** Obligations of two runners *)

Abbreviation Ghosts := (gmultiset (Ghost + Ghost)).

Definition part (f : Ghost + Ghost -> option Ghost) (M : Ghosts) : gmultiset Ghost :=
  list_to_set_disj (omap f (elements M)).

Lemma part_union f M N : part f (M ⊎ N) = part f M ⊎ part f N.
Proof. unfold part. by rewrite gmultiset_elements_disj_union, omap_app, list_to_set_disj_app. Qed.

Lemma part_map f (i : Ghost -> Ghost + Ghost) O : (forall g, f (i g) = Some g) -> part f (gmultiset_map i O) = O.
Proof.
  intros Hf. induction O as [|g O IH] using gmultiset_ind; [done|].
  rewrite gmultiset_map_disj_union, gmultiset_map_singleton, part_union, IH. f_equal.
  unfold part. rewrite gmultiset_elements_singleton. simpl. rewrite Hf. simpl. by rewrite (right_id_L ∅ (⊎)).
Qed.
Lemma part_other f (i : Ghost -> Ghost + Ghost) O : (forall g, f (i g) = None) -> part f (gmultiset_map i O) = ∅.
Proof.
  intros Hf. induction O as [|g O IH] using gmultiset_ind; [done|].
  rewrite gmultiset_map_disj_union, gmultiset_map_singleton, part_union, IH.
  unfold part. rewrite gmultiset_elements_singleton. simpl. by rewrite Hf.
Qed.

Definition of_parent (g : Ghost + Ghost) : option Ghost := match g with inl g => Some g | inr _ => None end.
Definition of_child (g : Ghost + Ghost) : option Ghost := match g with inr g => Some g | inl _ => None end.
Abbreviation parents := (gmultiset_map (inl : Ghost -> Ghost + Ghost)).
Abbreviation children := (gmultiset_map (inr : Ghost -> Ghost + Ghost)).

Section typing.
Context {NS : Type} (config child : GraphConfig) (classes : gmap string (NodeClass NS * NS)).
Context (load_template : string -> Res GraphConfig) (D E : Discipline NS).
Context (G : typed_graph config classes D) (H : typed_graph child classes E).
Context (id : string) (c : SourceSlotConfig).
Abbreviation St := (State NS).
Implicit Types (w : World NS) (p : Packet).

(** The graph accepts, as packets of the source, what the subgraph's output may carry. *)
Definition bridged : Prop := forall p n d, d_stream E (output_stream c) p ->
  n ∈ map input_stream (source_slots config) ->
  stream_ok config D (SInput n) (tagged id d (set_metadata p "source_id" (MString id))).
Context (B : bridged) (Hslot : c ∈ source_slots config).

Record TW w (M : Ghosts) : Prop := mkTW {
  tw_parent : TI config D (w_parent w) (part of_parent M);
  tw_child : TI child E (w_child w) (part of_child M) }.

Abbreviation wp := (Atomic.wp TW).
Abbreviation neutral := (Atomic.neutral TW).

Lemma parent_viewed : viewed w_parent set_parent (TI config D) TW parents.
Proof.
  intros w O F' [HP HC]. exists (part of_parent F'). rewrite part_union, part_map in HP by done.
  split; [done|]. intros s' O' HI. split; simpl; rewrite part_union; [by rewrite part_map|].
  rewrite part_other by done. by rewrite part_union, part_other in HC by done.
Qed.
Lemma child_viewed : viewed w_child set_child (TI child E) TW children.
Proof.
  intros w O F' [HP HC]. exists (part of_child F'). rewrite part_union, part_map in HC by done.
  split; [done|]. intros s' O' HI. split; simpl; rewrite part_union; [|by rewrite part_map].
  rewrite part_other by done. by rewrite part_union, part_other in HP by done.
Qed.

Lemma wp_on_parent {A} O (m : prog St A) Q : Atomic.wp (TI config D) O m Q ->
  wp (parents O) (on_parent m) (fun a O' => exists O0, O' = parents O0 /\ Q a O0).
Proof. apply wp_zoom, parent_viewed. Qed.
Lemma wp_on_child {A} O (m : prog St A) Q : Atomic.wp (TI child E) O m Q ->
  wp (children O) (on_child m) (fun a O' => exists O0, O' = children O0 /\ Q a O0).
Proof. apply wp_zoom, child_viewed. Qed.

Lemma neutral_on_parent {A} (m : prog St A) : Atomic.neutral (TI config D) m -> neutral (on_parent m).
Proof.
  intros Hm. pose proof (wp_on_parent ∅ m _ Hm) as Hw. rewrite gmultiset_map_empty in Hw.
  eapply wp_mono; [exact Hw|]. intros a O (O0 & -> & ->). by rewrite gmultiset_map_empty.
Qed.
Lemma neutral_on_child {A} (m : prog St A) : Atomic.neutral (TI child E) m -> neutral (on_child m).
Proof.
  intros Hm. pose proof (wp_on_child ∅ m _ Hm) as Hw. rewrite gmultiset_map_empty in Hw.
  eapply wp_mono; [exact Hw|]. intros a O (O0 & -> & ->). by rewrite gmultiset_map_empty.
Qed.

Lemma wp_under_mutex {X} (f : St -> X * St) (P : X -> Prop) :
  Atomic.wp (TI config D) ∅ (atomically f) (fun x O => O = ∅ /\ P x) ->
  wp ∅ (under_mutex f) (fun x O => O = ∅ /\ P x).
Proof.
  intros Hf w F x w' HW. destruct (source_locked w); [done|]. intros Hw.
  destruct (parent_viewed w ∅ F) as (F0 & HI & Hback); [by rewrite gmultiset_map_empty|].
  destruct (f (w_parent w)) as [x0 s0] eqn:Ef. injection Hw as <- <-.
  destruct (Hf (w_parent w) F0 x0 s0 HI) as (O' & HI' & HO' & HP); [by rewrite Ef|]. subst O'.
  exists ∅. split; [|done]. by apply Hback in HI'; rewrite gmultiset_map_empty in HI'.
Qed.
Lemma neutral_under_mutex {X} (f : St -> X * St) : Atomic.neutral (TI config D) (atomically f) -> neutral (under_mutex f).
Proof.
  intros Hf. eapply wp_mono; [apply (wp_under_mutex f (fun _ => True))|by intros x O [-> _]].
  eapply wp_mono; [exact Hf|]. by intros x O ->.
Qed.

Lemma neutral_lock_sources : neutral lock_sources.
Proof. apply neutral_act. intros w M b w' [HP HC]. destruct (source_locked w); [done|]. intros [= <- <-]. by split. Qed.
Lemma neutral_unlock_sources : neutral unlock_sources.
Proof. apply neutral_atomically. intros w M [HP HC]. by split. Qed.

(** ** The packets of the subgraph *)

Lemma control_tagged i d p : control (tagged i d (set_metadata p "source_id" (MString i))) = control p.
Proof. reflexivity. Qed.

Lemma neutral_source_callback p : stream_out_ok E (output_stream c) p -> neutral (source_callback id p).
Proof.
  intros Hp. unfold source_callback, add_source_packet.
  apply neutral_bind; [|intros st; destruct (_ && _); [by apply neutral_on_parent, typed_SetError|done]].
  apply wp_bind. eapply wp_mono; [apply wp_under_mutex, wp_source_packet|]. intros r O [-> Hr].
  apply neutral_on_parent, typed_forward; [exact Hr|]. intros n d Hn. destruct Hp as [Hp|Hp]; [|by apply B].
  apply control_stream. by rewrite control_tagged.
Qed.

(** The worker takes a packet of the stream it knows its observer to be of. *)
Lemma wp_take_watching k n :
  Atomic.wp (TI child E) {[+ Watching k n +]} (with_observer k observer_take)
    (fun r O => match r with None => O = ∅ | Some p => O = {[+ Watching k n +]} /\ stream_out_ok E n p end).
Proof.
  intros s F r s' HI Hs. destruct (to_watch _ _ _ _ _ (ti_observers _ _ _ _ HI) k n) as (o & Ho & <-); [multiset_solver|].
  destruct (to_typed _ _ _ _ _ (ti_observers _ _ _ _ HI) _ _ Ho) as [Hq _]. rewrite Ho in Hs. unfold observer_take in Hs.
  destruct (ob_queue o) as [|p rest] eqn:Eq.
  - destruct (ob_stopped o); [|done]. injection Hs as <- <-. exists ∅. split; [|done].
    eapply TI_observer; [eapply TI_weaken; [|exact HI]; multiset_solver|exact Ho|done| |done]. by rewrite Eq.
  - injection Hs as <- <-. exists {[+ Watching k (ob_stream o) +]}. apply Forall_cons_1 in Hq as [Hp Hrest].
    split; [|by split]. eapply TI_observer; [exact HI|exact Ho|done| |done]. by intros _ Hr.
Qed.

Lemma wp_run_source_observer fuel k :
  wp (children {[+ Watching k (output_stream c) +]}) (run_source_observer fuel id k) (fun _ O => O = ∅).
Proof.
  induction fuel as [|fuel IH]; [by intros w F b w' _|]. cbn [run_source_observer].
  apply wp_bind. eapply wp_mono; [apply wp_on_child, wp_take_watching|]. intros [p|] O (O0 & -> & HO).
  - destruct HO as [-> Hp]. apply wp_bind. eapply wp_mono; [by apply wp_on_child, (wp_observer_callback _ classes _ H)|].
    intros threw O (O0 & -> & ->). apply neutral_seq; [by apply neutral_source_callback|intros _].
    apply neutral_seq; [|intros _; apply IH]. apply neutral_on_child, neutral_with_observer. by intros o b o' [= <- <-].
  - subst. by rewrite gmultiset_map_empty.
Qed.

(** ** Adding and removing the source *)

Lemma wp_destroy_child O : wp (children O) (on_child Runner.Destroy) (fun _ O' => O' = ∅).
Proof.
  assert (Atomic.wp (TI child E) O Runner.Destroy (fun _ O' => O' = ∅)) as Hd.
  { apply (wp_forget _ classes _ H). apply (typed_Destroy _ classes _ H). }
  eapply wp_mono; [by apply wp_on_child|]. intros _ O' (O0 & -> & ->). by rewrite gmultiset_map_empty.
Qed.
Lemma neutral_destroy_child : neutral (on_child Runner.Destroy).
Proof. pose proof (wp_destroy_child ∅) as Hd. by rewrite gmultiset_map_empty in Hd. Qed.

Lemma neutral_table f : (forall t, typed_table config t -> typed_table config (f t)) ->
  neutral (on_parent (update_table f)).
Proof. intros Hf. by apply neutral_on_parent, table_keeps. Qed.

Lemma wp_add_source slot :
  wp (children {[+ Cold +]}) (add_source child classes c slot id) (fun _ O => O = ∅).
Proof.
  unfold add_source.
  apply neutral_seq; [by apply neutral_on_child, (typed_ObserveOutput _ classes)|intros [k|status]].
  2:{ apply wp_bind. eapply wp_mono; [apply wp_destroy_child|]. by intros _ O ->. }
  apply neutral_seq; [apply neutral_under_mutex, on_table_keeps; intros t Ht; by apply (typed_insert _ c)|intros status].
  destruct (ok status); cbn [negb].
  2:{ apply wp_bind. eapply wp_mono; [apply wp_destroy_child|]. by intros _ O ->. }
  apply wp_bind. eapply wp_mono; [by apply wp_on_child, wp_Start|]. intros started O (O0 & -> & ->).
  rewrite gmultiset_map_empty. destruct (ok started); cbn [negb].
  { apply neutral_bind; [|done]. by apply neutral_on_parent, typed_increment. }
  apply neutral_bind; [apply neutral_lock_sources|intros _].
  apply neutral_bind; [apply neutral_table; intros; by apply table_delete|intros _].
  apply neutral_bind; [apply neutral_destroy_child|intros _].
  apply neutral_bind; [apply neutral_table; intros; by apply table_decrement|intros _].
  by apply neutral_bind; [apply neutral_unlock_sources|].
Qed.

Lemma neutral_remove_source expired : neutral (remove_source expired id).
Proof.
  unfold remove_source.
  apply neutral_bind; [apply neutral_under_mutex, on_table_keeps; intros t Ht; by apply table_modify|intros [src|]]; [|done].
  assert (forall m : prog (World NS) unit, neutral m -> neutral (when (has_child src) m)) as Hwhen
    by (intros m Hm; by destruct (has_child src)).
  apply neutral_bind; [apply neutral_table, typed_close_drain|intros _].
  apply neutral_bind; [by apply Hwhen, neutral_on_child, (typed_Stop _ classes)|intros _].
  apply neutral_bind.
  { apply neutral_on_parent, neutral_blocking_silent. intros s b s'. destruct (drained _ _); [by intros [= <- <-]|].
    destruct expired; [by intros [= <- <-]|done]. }
  intros [|]; cbn [negb].
  - apply neutral_bind; [apply neutral_lock_sources|intros _].
    apply neutral_bind; [apply neutral_table, typed_erase|intros _].
    apply neutral_bind; [apply Hwhen, neutral_destroy_child|intros _].
    apply neutral_bind; [by apply neutral_on_parent, typed_increment|intros _].
    by apply neutral_bind; [apply neutral_unlock_sources|].
  - apply neutral_bind; [|done]. apply neutral_under_mutex, neutral_silent. intros s.
    apply silent_table. intros Ht. by apply table_modify.
Qed.

Lemma neutral_stop_world : neutral stop_world.
Proof.
  unfold stop_world. apply neutral_bind; [apply neutral_on_parent, typed_begin_stop|intros [|]]; [|done]. cbn [negb].
  apply neutral_bind; [by apply neutral_on_parent, typed_update_view|intros _].
  apply neutral_bind; [apply neutral_under_mutex, neutral_silent; intros s; apply silent_table, table_cleared|intros has].
  assert (forall m : prog (World NS) unit, neutral m -> neutral (when has m)) as Hwhen by (intros m Hm; by destruct has).
  apply neutral_bind; [apply neutral_on_parent, neutral_read|intros ids].
  apply neutral_bind; [by apply neutral_on_parent, (typed_request_stops _ classes)|intros _].
  apply neutral_bind; [by apply Hwhen, neutral_on_child, (typed_Stop _ classes)|intros _].
  apply neutral_bind; [by apply neutral_on_parent, (typed_finish_stop _ classes)|intros _].
  apply Hwhen, neutral_destroy_child.
Qed.

(** ** Both runners at work *)

(** Threads appear in either runner as in [typed_step]; the worker of the observer that feeds
    the source, removals of the source and the stop of the graph act on both. *)
Inductive world_spawn : World NS -> prog (World NS) unit -> World NS -> Prop :=
| world_parent w m s : typed_spawn config classes D load_template (w_parent w) m s ->
    world_spawn w (on_parent m) (set_parent s w)
| world_child w m s : typed_spawn child classes E load_template (w_child w) m s ->
    world_spawn w (on_child m) (set_child s w)
| world_observer w fuel k o : observer_objects (w_child w) !! k = Some o -> ob_stream o = output_stream c ->
    world_spawn w (run_source_observer fuel id k) w
| world_remove w expired : world_spawn w (remove_source expired id;;; Ret tt) w
| world_stop w : world_spawn w stop_world w.

Definition world_environment w w' : Prop :=
  (exists s, typed_environment (w_parent w) s /\ w' = set_parent s w) \/
  (exists s, typed_environment (w_child w) s /\ w' = set_child s w).

Definition world_step := pstep world_spawn world_environment.

(** Nothing has happened yet: the graph is about to be started, the source to be added. *)
Definition new_world (now : Z) : World NS := mkWorld (NewGraphRunner now) (NewGraphRunner now) false.
Definition world_threads (slot : string) : list (prog (World NS) unit) :=
  [on_parent (discard (Runner.Start config classes)); (add_source child classes c slot id;;; Ret tt)].

Lemma part_comm f M N : part f (M ⊎ N) = part f N ⊎ part f M.
Proof. rewrite part_union. apply (comm_L (⊎)). Qed.

Lemma world_spawn_inv w m w' M : TW w M -> world_spawn w m w' ->
  exists O, TW w' (M ⊎ O) /\ wp O m (fun _ O' => O' = ∅).
Proof.
  intros HW Hm. destruct Hm as [w m s Hs|w m s Hs|w fuel k o Ho Es|w expired|w].
  - destruct (typed_spawn_inv _ _ _ G _ _ _ _ _ (tw_parent _ _ HW) Hs) as (O & HI & Hw). exists (parents O). split.
    + split; cbn [w_parent w_child set_parent set_child]; rewrite part_union; [by rewrite part_map|].
      rewrite part_other, (right_id_L ∅ (⊎)) by done. apply HW.
    + eapply wp_mono; [by apply wp_on_parent|]. intros _ O' (O0 & -> & ->). by rewrite gmultiset_map_empty.
  - destruct (typed_spawn_inv _ _ _ H _ _ _ _ _ (tw_child _ _ HW) Hs) as (O & HI & Hw). exists (children O). split.
    + split; cbn [w_parent w_child set_parent set_child]; rewrite part_union; [|by rewrite part_map].
      rewrite part_other, (right_id_L ∅ (⊎)) by done. apply HW.
    + eapply wp_mono; [by apply wp_on_child|]. intros _ O' (O0 & -> & ->). by rewrite gmultiset_map_empty.
  - exists (children {[+ Watching k (output_stream c) +]}). split; [|apply wp_run_source_observer].
    split; rewrite part_comm.
    + rewrite part_other, (left_id_L ∅ (⊎)) by done. apply HW.
    + rewrite part_map, <- Es by done. apply TI_watch; [apply HW|done].
  - exists ∅. rewrite (right_id_L ∅ (⊎)). split; [done|]. apply neutral_bind; [apply neutral_remove_source|done].
  - exists ∅. rewrite (right_id_L ∅ (⊎)). split; [done|apply neutral_stop_world].
Qed.

Lemma world_environment_inv w w' M : TW w M -> world_environment w w' -> TW w' M.
Proof.
  intros [HP HC] [(s & Hs & ->)|(s & Hs & ->)]; split; simpl; try done; by eapply typed_environment_inv.
Qed.

Lemma world_reachable now slot w ts :
  rtc world_step (new_world now, world_threads slot) (w, ts) -> exists M, TW w M.
Proof.
  intros Hr. assert (pool_inv TW (w, ts)) as (ots & _ & _ & HI); [|by eexists].
  eapply pool_inv_reachable; [..|exact Hr].
  - intros. by eapply world_spawn_inv.
  - intros. by eapply world_environment_inv.
  - exists [(parents {[+ Cold +]}, on_parent (discard (Runner.Start config classes)));
            (children {[+ Cold +]}, (add_source child classes c slot id;;; Ret tt))]. split_and!; [done| |].
    + repeat (apply Forall_cons_2; cbn [fst snd]); [| |apply Forall_nil_2].
      * assert (Atomic.wp (TI config D) {[+ Cold +]} (discard (Runner.Start config classes)) (fun _ O => O = ∅)) as Hs.
        { apply wp_bind. eapply wp_mono; [by apply wp_Start|]. by intros _ O ->. }
        eapply wp_mono; [by apply wp_on_parent|]. intros _ O (O0 & -> & ->). by rewrite gmultiset_map_empty.
      * apply wp_bind. eapply wp_mono; [apply wp_add_source|]. by intros _ O ->.
    + change (TW (new_world now) (parents {[+ Cold +]} ⊎ (children {[+ Cold +]} ⊎ ∅))).
      rewrite (right_id_L ∅ (⊎)). split; rewrite part_union.
      * rewrite part_map, part_other, (right_id_L ∅ (⊎)) by done. apply typed_new.
      * rewrite part_other, part_map, (left_id_L ∅ (⊎)) by done. apply typed_new.
Qed.
End typing.

(** C3: Composition of graphs.  Take a graph with a slot, a subgraph for a source of the slot,
    and a discipline for each that fits it, such that the graph's inputs accept the packets of the
    subgraph's output once they carry the name of the source.  Then, however the threads of the two
    runners interleave with the addition of the source, with the worker that carries packets from
    the one to the other, with removals of the source and with stops of the graph, both disciplines
    hold in every state: nothing reaches the graph through a source but what the subgraph may put out. *)
Theorem typed_subgraph {NS} config child (classes : gmap string (NodeClass NS * NS)) load_template D E id c now slot w ts :
  typed_graph config classes D -> typed_graph child classes E -> c ∈ source_slots config ->
  bridged config D E id c ->
  rtc (world_step config child classes load_template D E id c) (new_world now, world_threads config child classes id c slot) (w, ts) ->
  runner_typed D (w_parent w) /\ runner_typed E (w_child w).
Proof.
  intros G H Hc HB Hr. apply world_reachable in Hr as [M [HP HC]]; [|done..].
  split; by eapply TI_runner_typed.
Qed.

(** ** A source at work, and one that is removed too early

    The subgraph has one node, which puts out a number when it is started; the graph adds one to
    the numbers of its source. *)

Definition emitter : NodeClass unit :=
  mkNodeClass (mkContract [] [mkPort "out" AnyCaps true] [] kAny "") kSerial (fun _ => NRet Ok) (NRet Ok)
    (fun ctx => Node.Emit ctx "out" two) (fun _ => NRet Ok) (NRet tt) (NRet Ok) (NRet Ok).

Definition demo_classes : gmap string (NodeClass unit * unit) :=
  {["Emitter" := (emitter, tt); "Successor" := (successor, tt)]}.
Definition demo_subgraph : GraphConfig :=
  mkGraphConfig 2 "camera" [default_executor]
    [mkNodeConfig "gen" "Emitter" "default" (∅ : NodeOptions) false kAny ""] [] []
    [mkGraphPort "frames" "gen" "out" (mkQueueConfig 4 kBlock)] [] ∅ default_flow_control.
Definition demo_slot : SourceSlotConfig := mkSlot "cameras" "numbers" "camera.yaml" "frames".
Definition demo_graph : GraphConfig :=
  mkGraphConfig 2 "main" [default_executor] [successor_node "a"] []
    [mkGraphPort "numbers" "a" "in" (mkQueueConfig 4 kBlock)]
    [mkGraphPort "results" "a" "out" (mkQueueConfig 4 kBlock)] [demo_slot] ∅ default_flow_control.

Definition evens : Discipline unit := mkDiscipline (fun _ _ => even) (fun _ => even) (fun _ => even) (fun _ _ => True).
Definition odds : Discipline unit := mkDiscipline (fun _ _ => even) (fun _ => odd) (fun _ => odd) (fun _ _ => True).

Lemma demo_subgraph_typed : typed_graph demo_subgraph demo_classes evens.
Proof.
  split; simpl.
  - intros e p He. by apply not_elem_of_nil in He.
  - intros e He. by apply not_elem_of_nil in He.
  - intros o p Ho%list_elem_of_singleton. subst. intros [?|Ho]; [by left|by right].
  - intros c ci Hc%list_elem_of_singleton Hci. subst. split; [|done].
    assert (Some ci = Some (emitter, tt)) as [= ->] by (rewrite <- Hci; reflexivity).
    split; simpl; try done. intros ctx Hid Hin. unfold Node.Emit. destruct (has_emit ctx); [|done]. split; [|done].
    right. cbn [d_out evens]. unfold even, number. by rewrite (proj1 (inherit_all_fields _ _)).
Qed.

Lemma demo_graph_typed : typed_graph demo_graph demo_classes odds.
Proof.
  split; simpl.
  - intros e p He. by apply not_elem_of_nil in He.
  - intros e He. by apply not_elem_of_nil in He.
  - intros o p Ho%list_elem_of_singleton. subst. intros [?|Ho]; [by left|by right].
  - intros c ci Hc%list_elem_of_singleton Hci. subst. split; [|done].
    assert (Some ci = Some (successor, tt)) as [= ->] by (rewrite <- Hci; reflexivity).
    apply successor_typed_as; [|done]. intros p q. simpl. unfold even, odd. intros Hp ->. by rewrite Z.add_1_r, Z.odd_succ.
Qed.

Lemma demo_bridged : bridged demo_graph odds evens "cam" demo_slot.
Proof. intros p n d Hp Hn. intros c Hc%list_elem_of_singleton _. subst. right. exact Hp. Qed.

Abbreviation demo_step := (world_step demo_graph demo_subgraph demo_classes no_templates odds evens "cam" demo_slot).
Abbreviation Pool := (World unit * list (prog (World unit) unit))%type.

Definition demo_start : Pool := (new_world 0, world_threads demo_graph demo_subgraph demo_classes "cam" demo_slot "cameras").
(** The graph is started, the source added, and its worker begins. *)
Definition demo_added : Pool := advance 1 1000 (advance 0 1000 demo_start).
Definition begin_worker (c : Pool) : Pool := (c.1, c.2 ++ [run_source_observer 1 "cam" 1]).
Definition begin_remove_source (c : Pool) : Pool := (c.1, c.2 ++ [remove_source false "cam";;; Ret tt]).
Definition begin_parent (m : prog (State unit) unit) (c : Pool) : Pool := (c.1, c.2 ++ [on_parent m]).
Definition begin_parent_task (c : Pool) : Pool :=
  let s := w_parent c.1 in
  match executors_ s !! "default" with
  | Some e =>
      match ex_tasks e with
      | st :: rest =>
          if decide (ex_active e < workers e) then
            (set_parent (set_executors (<["default" := mkExec (workers e) (ex_running e) rest (S (ex_active e))]> (executors_ s)) s) c.1,
             c.2 ++ [on_parent (drain_task 0 st;;; update (finish_task "default"))])
          else c
      | [] => c
      end
  | None => c
  end.

Definition observe_results : prog (State unit) unit :=
  discard (ObserveOutput ["results"] "results" true default_observer_options).

(** The number of the subgraph goes through the graph to an observer. *)
Definition demo_end : Pool :=
  advance 4 1000 (begin_parent_task (advance 3 1000 (begin_worker (advance 2 1000 (begin_parent observe_results demo_added))))).

(** The worker has taken the packet when the source is removed. *)
Definition demo_stuck : Pool := advance 3 1000 (begin_remove_source (advance 2 2 (begin_worker demo_added))).

Definition frames_observed (c : Pool) : Prop := ob_stream <$> observer_objects (w_child c.1) !! 1 = Some "frames".

Lemma begin_worker_steps c : frames_observed c -> rtc demo_step c (begin_worker c).
Proof.
  intros (o & Ho & Es)%fmap_Some. destruct c as [w ts]. apply rtc_once. by eapply pstep_spawn, world_observer.
Qed.
Lemma begin_remove_steps c : rtc demo_step c (begin_remove_source c).
Proof. destruct c as [w ts]. apply rtc_once. apply pstep_spawn, world_remove. Qed.
Lemma begin_parent_steps m c : typed_client demo_graph demo_classes odds no_templates m -> rtc demo_step c (begin_parent m c).
Proof.
  intros Hm. destruct c as [[ps cs l] ts]. apply rtc_once. apply pstep_spawn.
  apply (world_parent _ _ _ _ _ _ _ _ (mkWorld ps cs l)). by apply typed_spawn_client.
Qed.
Lemma begin_parent_task_steps c : rtc demo_step c (begin_parent_task c).
Proof.
  destruct c as [w ts]. unfold begin_parent_task. cbn [fst snd].
  destruct (executors_ (w_parent w) !! "default") as [e|] eqn:He; [|done].
  destruct (ex_tasks e) as [|st rest] eqn:Ht; [done|]. case_decide; [|done].
  apply rtc_once. apply pstep_spawn, world_parent. by eapply typed_spawn_task.
Qed.

Lemma demo_added_steps : rtc demo_step demo_start demo_added.
Proof. etrans; [apply (advance_steps _ _ 0 1000)|apply (advance_steps _ _ 1 1000)]. Qed.

Lemma demo_end_steps : rtc demo_step demo_start demo_end.
Proof.
  etrans; [exact demo_added_steps|].
  etrans; [apply (begin_parent_steps observe_results); apply typed_client_observe|].
  etrans; [apply (advance_steps _ _ 2 1000)|].
  etrans; [apply begin_worker_steps; vm_compute; reflexivity|]. etrans; [apply (advance_steps _ _ 3 1000)|].
  etrans; [apply begin_parent_task_steps|]. apply (advance_steps _ _ 4 1000).
Qed.

(** The graph's observer gets 3, and odd numbers only. *)
Lemma typed_subgraph_witness : exists o, observer_objects (w_parent demo_end.1) !! 1 = Some o /\
  map number (ob_queue o) = [3%Z] /\ forall p, p ∈ ob_queue o -> stream_out_ok odds "results" p.
Proof.
  assert ((fun o => (map number (ob_queue o), ob_stream o)) <$> observer_objects (w_parent demo_end.1) !! 1 =
          Some ([3%Z], "results")) as (o & Ho & [= Hq Hs])%fmap_Some by (vm_compute; reflexivity).
  exists o. split; [done|]. split; [by rewrite Hq|]. intros p Hp. rewrite Hs.
  assert (demo_slot ∈ source_slots demo_graph) as Hslot by (by apply list_elem_of_singleton).
  pose proof demo_end_steps as Hr. destruct demo_end as [w ts].
  destruct (typed_subgraph _ _ _ _ _ _ _ _ _ _ _ _ demo_graph_typed demo_subgraph_typed Hslot demo_bridged Hr)
    as [(_ & _ & HP) _].
  apply (HP 1 o p Ho), elem_of_app. by right.
Defined.

(** Threads that have returned, and threads that wait. *)
Definition returned (m : prog (World unit) unit) : bool := match m with Ret _ => true | Act _ _ => false end.
Definition waits (w : World unit) (m : prog (World unit) unit) : bool :=
  match m with Ret _ => false | Act f _ => match f w with None => true | Some _ => false end end.

(** The removal of a source holds [source_mutex_] while the destructor of the subgraph waits for
    the observer's worker; a worker that has taken a packet waits for the mutex.  There is such a
    state: the other threads have returned, these two wait, no task is queued in either runner. *)
Lemma remove_source_deadlocks :
  rtc demo_step demo_start demo_stuck /\ source_locked demo_stuck.1 = true /\
  map returned demo_stuck.2 = [true; true; false; false] /\
  map (waits demo_stuck.1) demo_stuck.2 = [false; false; true; true] /\
  tasks_of (executors_ (w_parent demo_stuck.1)) = [] /\ tasks_of (executors_ (w_child demo_stuck.1)) = [].
Proof.
  split; [|vm_compute; auto 10]. etrans; [exact demo_added_steps|].
  transitivity (begin_worker demo_added); [apply begin_worker_steps; vm_compute; reflexivity|].
  transitivity (advance 2 2 (begin_worker demo_added)); [exact (advance_steps _ _ 2 2 (begin_worker demo_added))|].
  set (c := advance 2 2 (begin_worker demo_added)). transitivity (begin_remove_source c); [apply begin_remove_steps|].
  exact (advance_steps _ _ 3 1000 (begin_remove_source c)).
Qed.
