(* ===== verification/Device.v ===== *)
(** * Programs that talk to a device

    The module backends ([src/modules/]) call vendor libraries and the kernel,
    which are not part of the repository.  [dprog Ans S A] is such a program over
    the fields [S] of an object: a local step on the fields, a call of the outside
    with an answer of the type the call has, a result, or a point that the C++
    program must not reach (an index out of range, a signed overflow).

    The outside is a parameter: [drun] executes a program against any [Device] and
    returns the calls that were made with their answers.

    [wp] is the logic: a ghost state follows the calls, [gstep] says which calls are
    permitted and how they change the ghost state, and [documented] is what the
    documentation of the outside promises about its answers.  [wp_sound] turns a
    [wp] into a statement on every run.  The accounting of handles below is the
    ghost state the backends share: what is held, as a multiset. *)

From S2P Require Import Prelude.
From stdpp Require Import gmultiset.

Section device.
Context {Cmd : Type} (Ans : Cmd -> Type).

Inductive dprog (S A : Type) : Type :=
| DRet (a : A)
| DLocal {B : Type} (f : S -> B * S) (k : B -> dprog S A)
| DCall (c : Cmd) (k : Ans c -> dprog S A)
| DUndefined (why : string).

(** A call with its answer. *)
Record devent := Ev { ev_cmd : Cmd; ev_ans : Ans ev_cmd }.

(** The outside: a state of its own that answers every call. *)
Definition Device (E : Type) : Type := forall c : Cmd, E -> Ans c * E.
End device.
Arguments DRet {Cmd Ans S A} _.
Arguments DLocal {Cmd Ans S A B} _ _.
Arguments DCall {Cmd Ans S A} _ _.
Arguments DUndefined {Cmd Ans S A} _.
Arguments Ev {Cmd Ans} _ _.
Arguments ev_cmd {Cmd Ans} _.
Arguments ev_ans {Cmd Ans} _.

Section monad.
Context {Cmd : Type} {Ans : Cmd -> Type} {S : Type}.

Fixpoint dbind {A B} (m : dprog Ans S A) (f : A -> dprog Ans S B) : dprog Ans S B :=
  match m with
  | DRet a => f a
  | DLocal g k => DLocal g (fun b => dbind (k b) f)
  | DCall c k => DCall c (fun a => dbind (k a) f)
  | DUndefined w => DUndefined w
  end.

Definition dget {B} (f : S -> B) : dprog Ans S B := DLocal (fun s => (f s, s)) DRet.
Definition dset (f : S -> S) : dprog Ans S unit := DLocal (fun s => (tt, f s)) DRet.
Definition dcall (c : Cmd) : dprog Ans S (Ans c) := DCall c DRet.

(** A loop over a list that stops at the first error of type [X]. *)
Fixpoint dfor {A X} (l : list A) (f : A -> dprog Ans S (option X)) : dprog Ans S (option X) :=
  match l with
  | [] => DRet None
  | a :: l => dbind (f a) (fun r => match r with None => dfor l f | Some x => DRet (Some x) end)
  end.

Fixpoint deach {A} (l : list A) (f : A -> dprog Ans S unit) : dprog Ans S unit :=
  match l with
  | [] => DRet tt
  | a :: l => dbind (f a) (fun _ => deach l f)
  end.

(** [None] is undefined behaviour. *)
Fixpoint drun {E A} (dev : Device Ans E) (m : dprog Ans S A) (s : S) (e : E)
  : option A * S * E * list (devent Ans) :=
  match m with
  | DRet a => (Some a, s, e, [])
  | DLocal f k => let '(b, s') := f s in drun dev (k b) s' e
  | DCall c k => let '(a, e') := dev c e in
                 let '(r, s', e'', evs) := drun dev (k a) s e' in (r, s', e'', Ev c a :: evs)
  | DUndefined _ => (None, s, e, [])
  end.

Lemma drun_bind {E A B} (dev : Device Ans E) (m : dprog Ans S A) (f : A -> dprog Ans S B) s e :
  drun dev (dbind m f) s e =
  let '(r, s', e', evs) := drun dev m s e in
  match r with
  | None => (None, s', e', evs)
  | Some a => let '(r', s'', e'', evs') := drun dev (f a) s' e' in (r', s'', e'', evs ++ evs')
  end.
Proof.
  revert s e. induction m as [a|X g k IH|c k IH|w]; intros s e; simpl.
  - by destruct (drun dev (f a) s e) as [[[? ?] ?] ?].
  - destruct (g s). apply IH.
  - destruct (dev c e) as [a e']. rewrite IH.
    destruct (drun dev (k a) s e') as [[[[x|] s1] e1] evs1]; simpl; [|done].
    by destruct (drun dev (f x) s1 e1) as [[[? ?] ?] ?].
  - done.
Qed.
End monad.

Notation "x <~ m ; k" := (dbind m (fun x => k))
  (at level 100, m at next level, right associativity) : rkavp_scope.
Notation "m ;~ k" := (dbind m (fun _ => k))
  (at level 100, right associativity) : rkavp_scope.
Local Open Scope rkavp_scope.

(** ** The logic *)

Section logic.
Context {Cmd : Type} {Ans : Cmd -> Type} {S G : Type}.
Context (gstep : devent Ans -> G -> option G).
Context (allowed : G -> devent Ans -> Prop).

Fixpoint wp {A} (m : dprog Ans S A) (Q : A -> S -> G -> Prop) (s : S) (g : G) : Prop :=
  match m with
  | DRet a => Q a s g
  | DLocal f k => wp (k (f s).1) Q (f s).2 g
  | DCall c k => forall a, allowed g (Ev c a) ->
                 exists g', gstep (Ev c a) g = Some g' /\ wp (k a) Q s g'
  | DUndefined _ => False
  end.

(** The ghost state after a list of calls, [None] when one is not permitted. *)
Fixpoint gsteps (evs : list (devent Ans)) (g : G) : option G :=
  match evs with
  | [] => Some g
  | ev :: evs => match gstep ev g with None => None | Some g' => gsteps evs g' end
  end.

(** Every answer is one the documentation allows. *)
Fixpoint documented (evs : list (devent Ans)) (g : G) : Prop :=
  match evs with
  | [] => True
  | ev :: evs => allowed g ev /\ forall g', gstep ev g = Some g' -> documented evs g'
  end.

Lemma dwp_mono {A} (m : dprog Ans S A) (Q Q' : A -> S -> G -> Prop) s g :
  (forall a s' g', Q a s' g' -> Q' a s' g') -> wp m Q s g -> wp m Q' s g.
Proof.
  intros HQ. revert s g. induction m as [a|B f k IH|c k IH|w]; intros s g; simpl; eauto.
  intros H a Ha. destruct (H a Ha) as (g' & ? & ?). eauto.
Qed.

Lemma dwp_bind {A B} (m : dprog Ans S A) (f : A -> dprog Ans S B) Q s g :
  wp m (fun a s' g' => wp (f a) Q s' g') s g -> wp (dbind m f) Q s g.
Proof.
  revert s g. induction m as [a|X h k IH|c k IH|w]; intros s g; simpl; eauto.
  intros H a Ha. destruct (H a Ha) as (g' & ? & ?). eauto.
Qed.

(** [wp] of a part, used for the whole. *)
Lemma dwp_seq {A B} (m : dprog Ans S A) (f : A -> dprog Ans S B) (P : A -> S -> G -> Prop) Q s g :
  wp m P s g -> (forall a s' g', P a s' g' -> wp (f a) Q s' g') -> wp (dbind m f) Q s g.
Proof. intros Hm Hf. apply dwp_bind. eapply dwp_mono; [|exact Hm]. apply Hf. Qed.

(** The steps of a program, one lemma each. *)
Lemma wp_ret {A} (a : A) (Q : A -> S -> G -> Prop) s g : Q a s g -> wp (DRet a) Q s g.
Proof. done. Qed.

Lemma wp_get {A B} (f : S -> B) (k : B -> dprog Ans S A) Q s g :
  wp (k (f s)) Q s g -> wp (dbind (dget f) k) Q s g.
Proof. done. Qed.

Lemma wp_local {A B} (f : S -> B * S) (k : B -> dprog Ans S A) Q s g :
  wp (k (f s).1) Q (f s).2 g -> wp (dbind (DLocal f DRet) k) Q s g.
Proof. done. Qed.

Lemma wp_set {A} (f : S -> S) (k : unit -> dprog Ans S A) Q s g :
  wp (k tt) Q (f s) g -> wp (dbind (dset f) k) Q s g.
Proof. done. Qed.

Lemma wp_set_last (f : S -> S) (Q : unit -> S -> G -> Prop) s g : Q tt (f s) g -> wp (dset f) Q s g.
Proof. done. Qed.

Lemma wp_call {A} c (k : Ans c -> dprog Ans S A) Q s g :
  (forall a, allowed g (Ev c a) -> exists g', gstep (Ev c a) g = Some g' /\ wp (k a) Q s g') ->
  wp (dbind (dcall c) k) Q s g.
Proof. done. Qed.

Lemma wp_call_last c (Q : Ans c -> S -> G -> Prop) s g :
  (forall a, allowed g (Ev c a) -> exists g', gstep (Ev c a) g = Some g' /\ Q a s g') ->
  wp (dcall c) Q s g.
Proof. done. Qed.

(** An invariant of a loop that may leave early. *)
Lemma wp_dfor {A X} (l : list A) (f : A -> dprog Ans S (option X)) (P : list A -> S -> G -> Prop)
    (Q : option X -> S -> G -> Prop) s g :
  P l s g ->
  (forall a l' s g, P (a :: l') s g ->
     wp (f a) (fun r s' g' => match r with None => P l' s' g' | Some x => Q (Some x) s' g' end) s g) ->
  (forall s g, P [] s g -> Q None s g) ->
  wp (dfor l f) Q s g.
Proof.
  intros H0 Hstep Hend. revert s g H0. induction l as [|a l IH]; intros s g H0; simpl.
  - by apply Hend.
  - eapply dwp_seq; [by apply Hstep|]. intros [x|] s' g' H'; [done|]. by apply IH.
Qed.

Lemma wp_deach {A} (l : list A) (f : A -> dprog Ans S unit) (P : list A -> S -> G -> Prop) s g :
  P l s g ->
  (forall a l' s g, P (a :: l') s g -> wp (f a) (fun _ s' g' => P l' s' g') s g) ->
  wp (deach l f) (fun _ s' g' => P [] s' g') s g.
Proof.
  intros H0 Hstep. revert s g H0. induction l as [|a l IH]; intros s g H0; simpl; [done|].
  eapply dwp_seq; [by apply Hstep|]. intros [] s' g' H'. by apply IH.
Qed.

Lemma wp_sound {E A} (dev : Device Ans E) (m : dprog Ans S A) Q s g e r s' e' evs :
  wp m Q s g -> drun dev m s e = (r, s', e', evs) -> documented evs g ->
  exists a g', r = Some a /\ gsteps evs g = Some g' /\ Q a s' g'.
Proof.
  revert s g e evs. induction m as [a|B f k IH|c k IH|w]; intros s g e evs; simpl.
  - intros HQ [= <- <- <- <-] _. eauto.
  - destruct (f s) as [b s1]. apply IH.
  - intros Hw. destruct (dev c e) as [a e1].
    destruct (drun dev (k a) s e1) as [[[r1 s1] e2] evs1] eqn:E1. intros [= <- <- <- <-].
    simpl. intros [Ha Hd]. destruct (Hw a Ha) as (g1 & Hg & Hk). rewrite Hg.
    eapply IH; [exact Hk|exact E1|]. by apply Hd.
  - done.
Qed.

(** Nothing is assumed of the answers. *)
Lemma documented_any evs g : (forall g ev, allowed g ev) -> documented evs g.
Proof. intros Ha. revert g. induction evs as [|ev evs IH]; intros g; simpl; auto. Qed.

(** A device keeps to its documentation if it does so in every state that it can
    reach together with the ghost state. *)
Lemma documented_run {E A} (dev : Device Ans E) (J : E -> G -> Prop) (m : dprog Ans S A)
    s g e r s' e' evs :
  (forall c e g, J e g -> allowed g (Ev c (dev c e).1) /\
     forall g', gstep (Ev c (dev c e).1) g = Some g' -> J (dev c e).2 g') ->
  J e g -> drun dev m s e = (r, s', e', evs) -> documented evs g.
Proof.
  intros HJ. revert s g e evs. induction m as [a|B f k IH|c k IH|w]; intros s g e evs He; simpl.
  - by intros [= <- <- <- <-].
  - destruct (f s) as [b s1]. by apply IH.
  - destruct (HJ c e g He) as [Ha Hn]. destruct (dev c e) as [a e1]. simpl in *.
    destruct (drun dev (k a) s e1) as [[[r1 s1] e2] evs1] eqn:E1. intros [= <- <- <- <-].
    simpl. split; [done|]. intros g' Hg. eapply IH; [by apply Hn|exact E1].
  - by intros [= <- <- <- <-].
Qed.

(** [documented], executable. *)
Fixpoint documentedb `{forall g ev, Decision (allowed g ev)} (evs : list (devent Ans)) (g : G) : bool :=
  match evs with
  | [] => true
  | ev :: evs => bool_decide (allowed g ev) &&
                 match gstep ev g with None => true | Some g' => documentedb evs g' end
  end.

Lemma documentedb_sound `{forall g ev, Decision (allowed g ev)} evs g :
  documentedb evs g = true -> documented evs g.
Proof.
  revert g. induction evs as [|ev evs IH]; intros g; simpl; [done|].
  intros [Ha Hs]%andb_true_iff. split; [by eapply bool_decide_eq_true_1|].
  intros g' Hg. rewrite Hg in Hs. by apply IH.
Qed.

Lemma gsteps_app evs evs' g :
  gsteps (evs ++ evs') g = match gsteps evs g with None => None | Some g' => gsteps evs' g' end.
Proof.
  revert g. induction evs as [|ev evs IH]; intros g; simpl; [done|]. destruct (gstep ev g); [apply IH|done].
Qed.
End logic.

Arguments dbind : simpl never.
Arguments dget : simpl never.
Arguments dset : simpl never.
Arguments dcall : simpl never.
Arguments wp {Cmd Ans S G} gstep allowed {A} m Q s g : simpl never.

(** [wstep] does the steps that need no thought. *)
Ltac wstep :=
  lazymatch goal with
  | |- wp _ _ (dbind (dget _) _) _ _ _ => apply wp_get
  | |- wp _ _ (dbind (dset _) _) _ _ _ => apply wp_set
  | |- wp _ _ (dbind (DLocal _ DRet) _) _ _ _ => apply wp_local
  | |- wp _ _ (dset _) _ _ _ => apply wp_set_last
  | |- wp _ _ (dbind (DRet _) _) _ _ _ => apply dwp_bind, wp_ret
  | |- wp _ _ (DRet _) _ _ _ => apply wp_ret
  end.

(** [wcall a H] does a call: [a] is the answer and [H] what the documentation says
    of it; the ghost step is left to prove, then the rest. *)
Tactic Notation "wcall" simple_intropattern(a) simple_intropattern(H) :=
  lazymatch goal with
  | |- wp _ _ (dbind (dcall ?c) _) _ _ _ => refine (wp_call _ _ c _ _ _ _ _)
  | |- wp _ _ (dcall ?c) _ _ _ => refine (wp_call_last _ _ c _ _ _ _)
  end; intros a H; eexists; split.

(** ** Accounting *)

(** What a call does with the handles of type [H]: it needs [uses], gives back
    [frees], obtains [takes], and gives up what is held of [drops]. *)
Record Effect (H : Type) := mkEffect {
  uses : list H; frees : list H; drops : list H; takes : list H }.
Arguments mkEffect {H} _ _ _ _.
Arguments uses {H} _.
Arguments frees {H} _.
Arguments drops {H} _.
Arguments takes {H} _.

Definition no_effect {H} : Effect H := mkEffect [] [] [] [].
Definition needing {H} (l : list H) : Effect H := mkEffect l [] [] [].
Definition obtaining {H} (l : list H) : Effect H := mkEffect [] [] [] l.
Definition returning {H} (l : list H) : Effect H := mkEffect [] l [] [].
Definition dropping {H} (l : list H) : Effect H := mkEffect [] [] l [].

Section account.
Context {H : Type} `{Countable H}.

(** Nothing is used or given back that is not held. *)
Definition account (f : Effect H) (held : gmultiset H) : option (gmultiset H) :=
  if bool_decide (list_to_set_disj (uses f) ⊆ held) &&
     bool_decide (list_to_set_disj (frees f) ⊆ held)
  then Some (held ∖ list_to_set_disj (frees f) ∖ list_to_set_disj (drops f) ⊎
             list_to_set_disj (takes f))
  else None.

Lemma account_none held : account no_effect held = Some held.
Proof. unfold account. simpl. rewrite !bool_decide_eq_true_2 by multiset_solver. simpl. f_equal. multiset_solver. Qed.

Lemma account_use l held : list_to_set_disj l ⊆ held -> account (needing l) held = Some held.
Proof.
  intros Hl. unfold account. simpl. rewrite !bool_decide_eq_true_2 by multiset_solver. simpl.
  f_equal. multiset_solver.
Qed.

Lemma account_take l held : account (obtaining l) held = Some (list_to_set_disj l ⊎ held).
Proof. unfold account. simpl. rewrite !bool_decide_eq_true_2 by multiset_solver. simpl. f_equal. multiset_solver. Qed.

(** What a call takes while it uses something. *)
Lemma account_use_take l l' held : list_to_set_disj l ⊆ held ->
  account (mkEffect l [] [] l') held = Some (list_to_set_disj l' ⊎ held).
Proof.
  intros Hl. unfold account. simpl. rewrite !bool_decide_eq_true_2 by multiset_solver. simpl.
  f_equal. multiset_solver.
Qed.

Lemma account_give l l' held : list_to_set_disj l ⊆ list_to_set_disj l' ⊎ held ->
  account (mkEffect l l' [] []) (list_to_set_disj l' ⊎ held) = Some held.
Proof.
  intros Hl. unfold account. simpl. rewrite !bool_decide_eq_true_2 by multiset_solver. simpl.
  f_equal. multiset_solver.
Qed.

Lemma account_drop h held : account (dropping [h]) held = Some (held ∖ {[+ h +]}).
Proof.
  unfold account. simpl. rewrite !bool_decide_eq_true_2 by multiset_solver. simpl.
  f_equal. multiset_solver.
Qed.
End account.

(** A handle is named by what it is and by its value. *)
Abbreviation Handle := (string * Z)%type.

(** What is held, with its instances resolved. *)
Abbreviation Held := (@gmultiset (string * Z)
  (@prod_eq_dec string String.eq_dec Z Z.eq_dec)
  (@prod_countable string String.eq_dec String.countable Z Z.eq_dec Z_countable)).

Definition hset (l : list Handle) : Held := list_to_set_disj l.

(** The handles of the objects in a map. *)
Definition hsum {K} `{Countable K} {A} (f : A -> list Handle) (m : gmap K A) : Held :=
  map_fold (fun _ a acc => hset (f a) ⊎ acc) ∅ m.

Lemma hset_app l l' : hset (l ++ l') = hset l ⊎ hset l'.
Proof. apply list_to_set_disj_app. Qed.

Lemma hset_cons h l : hset (h :: l) = hset [h] ⊎ hset l.
Proof. unfold hset. simpl. multiset_solver. Qed.

(** Different handles that are held are held together. *)
Lemma hset_sub (l : list Handle) (held : Held) : NoDup l -> (forall x, x ∈ l -> x ∈ held) -> hset l ⊆ held.
Proof.
  unfold hset. induction 1 as [|x l Hx Hnd IH]; intros Hin; [simpl; multiset_solver|].
  specialize (IH ltac:(set_solver)). intros y. simpl.
  rewrite multiplicity_disj_union, multiplicity_singleton. specialize (IH y).
  destruct (decide (y = x)) as [->|]; [|lia]. specialize (Hin x ltac:(set_solver)).
  assert (multiplicity x (list_to_set_disj l : Held) = 0)%nat as ->.
  { apply not_elem_of_multiplicity. by rewrite elem_of_list_to_set_disj. }
  rewrite elem_of_multiplicity in Hin. lia.
Qed.

Section hsum.
Context {K : Type} `{Countable K} {A : Type} (f : A -> list Handle).
Implicit Types (m : gmap K A).

Lemma hsum_insert m i a : m !! i = None -> hsum f (<[i := a]> m) = hset (f a) ⊎ hsum f m.
Proof.
  intros Hi. unfold hsum. rewrite map_fold_insert_L; [done| |done]. intros. multiset_solver.
Qed.
Lemma hsum_delete m i a : m !! i = Some a -> hsum f m = hset (f a) ⊎ hsum f (delete i m).
Proof. intros Hi. rewrite <- (insert_delete_id m i a Hi) at 1. apply hsum_insert. apply lookup_delete_eq. Qed.
Lemma hsum_update m i a a' : m !! i = Some a -> f a' = f a -> hsum f (<[i := a']> m) = hsum f m.
Proof.
  intros Hi Hf. rewrite <- insert_delete_eq, hsum_insert by apply lookup_delete_eq.
  by rewrite (hsum_delete m i a Hi), Hf.
Qed.
Lemma hsum_in m i a x : m !! i = Some a -> x ∈ f a -> x ∈ hsum f m.
Proof.
  intros Hi Hx. rewrite (hsum_delete m i a Hi), gmultiset_elem_of_disj_union. left.
  by apply elem_of_list_to_set_disj.
Qed.

(** The handles of a map, in the order in which it is traversed. *)
Lemma hsum_list m : hsum f m = hset (concat (map f (map_to_list m).*2)).
Proof.
  induction m as [|i a m Hi IH] using map_ind; [done|]. rewrite hsum_insert, IH by done. unfold hset.
  rewrite <- list_to_set_disj_app. apply list_to_set_disj_perm. symmetry.
  rewrite (map_to_list_insert m i a Hi). done.
Qed.
End hsum.

(** ** Calls with handles

    [effect] says what a call does with the handles, [guard] what else it needs: that sizes fit. *)

Local Open Scope Z_scope.

(** A creation that answers null has created nothing. *)
Definition created (o : Z) (h : Handle) : list Handle := if o =? 0 then [] else [h].

Lemma created_some o h : o <> 0 -> created o h = [h].
Proof. intros Ho. unfold created. by rewrite (proj2 (Z.eqb_neq _ _) Ho). Qed.
Lemma hset_one h (held : Held) : h ∈ held -> hset [h] ⊆ held.
Proof. intros Hh. unfold hset. simpl. multiset_solver. Qed.
Lemma hset_two h h' (held : Held) : h <> h' -> h ∈ held -> h' ∈ held -> hset [h; h'] ⊆ held.
Proof. intros Hn Hh Hh'. apply hset_sub; [repeat constructor; set_solver|]. set_solver. Qed.
Lemma hset_none (held : Held) : hset [] ⊎ held = held.
Proof. unfold hset. simpl. multiset_solver. Qed.

(** What is held is found by its place. *)
Lemma elem_top h (held : Held) : h ∈ hset [h] ⊎ held.
Proof. unfold hset. simpl. multiset_solver. Qed.
Lemma elem_single h (held : Held) : h ∈ {[+ h +]} ⊎ held.
Proof. multiset_solver. Qed.
Lemma elem_created o h (held : Held) : o <> 0 -> h ∈ hset (created o h) ⊎ held.
Proof. intros Ho. rewrite created_some by done. apply elem_top. Qed.
Lemma elem_deeper h (held held' : Held) : h ∈ held' -> h ∈ held ⊎ held'.
Proof. intros Hh. apply gmultiset_elem_of_disj_union. by right. Qed.

Create HintDb held.
#[export] Hint Resolve elem_top elem_single elem_created elem_deeper hset_one : held.
#[export] Hint Extern 5 (hset [_; _] ⊆ _) => apply hset_two; [discriminate|..] : held.
#[export] Hint Extern 1 (_ <> _) => assumption : held.

Section steps.
Context {Cmd : Type} {Ans : Cmd -> Type}.
Context (effect : devent Ans -> Effect Handle) (guard : Cmd -> bool).
Implicit Types (held rest : Held).

Definition handle_step (ev : devent Ans) (held : Held) : option Held :=
  if guard (ev_cmd ev) then account (effect ev) held else None.

Lemma step_use c a (l : list Handle) held : guard c = true -> effect (Ev c a) = needing l ->
  hset l ⊆ held -> handle_step (Ev c a) held = Some held.
Proof. intros Hg He Hl. unfold handle_step. cbn [ev_cmd]. by rewrite Hg, He, account_use. Qed.
Lemma step_none c a held : guard c = true -> effect (Ev c a) = no_effect ->
  handle_step (Ev c a) held = Some held.
Proof. intros Hg He. unfold handle_step. cbn [ev_cmd]. by rewrite Hg, He, account_none. Qed.
Lemma step_take c a (l l' : list Handle) held : guard c = true -> effect (Ev c a) = mkEffect l [] [] l' ->
  hset l ⊆ held -> handle_step (Ev c a) held = Some (hset l' ⊎ held).
Proof. intros Hg He Hl. unfold handle_step. cbn [ev_cmd]. by rewrite Hg, He, account_use_take. Qed.
Lemma step_give c a h rest : guard c = true -> effect (Ev c a) = returning [h] ->
  handle_step (Ev c a) (hset [h] ⊎ rest) = Some rest.
Proof.
  intros Hg He. unfold handle_step. cbn [ev_cmd]. rewrite Hg, He. unfold returning, hset. rewrite account_give; [done|].
  simpl. multiset_solver.
Qed.

Context {S : Type} (allowed : Held -> devent Ans -> Prop).

(** A creation: it fails with null, or succeeds with an object that is held from then on. *)
Lemma wp_create {A} c (good : Z) (needs : list Handle) (h : Z -> Handle) (res : Ans c -> Z * Z) s held
    (k : Ans c -> dprog Ans S A) (Q : A -> S -> Held -> Prop) :
  guard c = true -> (forall r, effect (Ev c r) = mkEffect needs [] [] (created (res r).2 (h (res r).2))) ->
  (forall r, allowed held (Ev c r) -> (res r).1 = good <-> (res r).2 <> 0) -> hset needs ⊆ held ->
  (forall r, (res r).1 <> good -> (res r).2 = 0 -> wp handle_step allowed (k r) Q s held) ->
  (forall r, (res r).1 = good -> (res r).2 <> 0 -> wp handle_step allowed (k r) Q s (hset [h (res r).2] ⊎ held)) ->
  wp handle_step allowed (dbind (dcall c) k) Q s held.
Proof.
  intros Hg He Ha Hn Hbad Hgood. refine (wp_call _ _ c _ _ _ _ _). intros r Hr. apply Ha in Hr.
  eexists. split; [by apply (step_take _ _ needs)|].
  destruct (Z.eq_dec (res r).2 0) as [H0|H0].
  - rewrite H0. change (created 0 (h 0)) with (@nil Handle). rewrite hset_none.
    apply Hbad; [|done]. intros Hs. by apply Hr in Hs.
  - rewrite created_some by done. apply Hgood; [by apply Hr|done].
Qed.

(** A release of what may be null. *)
Lemma wp_release o h (m : dprog Ans S unit) s rest (Q : unit -> S -> Held -> Prop) :
  (forall Q' : unit -> S -> Held -> Prop, Q' tt s rest -> wp handle_step allowed m Q' s (hset [h] ⊎ rest)) ->
  Q tt s rest -> wp handle_step allowed (if o =? 0 then DRet tt else m) Q s (hset (created o h) ⊎ rest).
Proof.
  intros Hm HQ. unfold created. destruct (o =? 0); [|by apply Hm]. rewrite hset_none. by apply wp_ret.
Qed.
End steps.
