(* ===== verification/Backends.v ===== *)
(** * The interfaces of the module backends

    [include/rkavp/backends/]: the configuration records and the abstract classes
    behind which the nodes of the modules keep their devices.  An abstract class is a
    record of operations over the state [B] of the backend object; the module nodes
    are written against these records, and the backends of the repository provide
    them.

    The backends read and write buffers through the virtual methods of [Buffer]
    ([buffer.hpp]).  What never changes in a buffer is given by a [BufferHeap]; the
    other methods are calls ([BufCmd]), because an implementation may talk to a
    device. *)

From S2P Require Import Prelude Status Timestamp Values Buffer Device.
From Stdlib Require Import SpecFloat.
From stdpp Require Import gmultiset.

(** ** Media Process Platform *)

(* [include/rkavp/backends/mpp.hpp:10-17] MppDecoderConfig *)
Record MppDecoderConfig := mkDecoderConfig {
  dc_codec : string;
  dc_width : Z;
  dc_height : Z;
  dc_buffer_count : Z;
  dc_external_buffer_group : bool;
  dc_drain_timeout_ms : Z }.
Definition default_decoder_config : MppDecoderConfig := mkDecoderConfig "" 0 0 8 true 2000.

(* [include/rkavp/backends/mpp.hpp:19-29] MppEncoderConfig *)
Record MppEncoderConfig := mkEncoderConfig {
  ec_codec : string;
  ec_width : Z;
  ec_height : Z;
  ec_fps : Z;
  ec_bitrate : Z;
  ec_gop : Z;
  ec_profile : string;
  ec_rate_control : string;
  ec_drain_timeout_ms : Z }.
Definition default_encoder_config : MppEncoderConfig :=
  mkEncoderConfig "" 0 0 0 0 0 "" "cbr" 2000.

(** A default constructed frame and packet: what an output argument holds when the
    callee does not write it. *)
Definition NoFrame : VideoFrame := mkVideoFrame 0 Unset 0 0 0 0 "" None.
Definition NoEncoded : EncodedPacket := mkEncodedPacket Unset Unset "" false None.
Definition NoAudio : AudioFrame := mkAudioFrame Unset 0 0 0 "" None.

(** [Receive] fills two output arguments. *)
Record Received (A : Type) := mkReceived { rc_status : Status; rc_value : A; rc_eos : bool }.
Arguments mkReceived {A} _ _ _.
Arguments rc_status {A} _.
Arguments rc_value {A} _.
Arguments rc_eos {A} _.

(* [include/rkavp/backends/mpp.hpp:31-39] IMppDecoderBackend *)
Record IMppDecoderBackend (B : Type) := mkMppDecoder {
  dec_Open : MppDecoderConfig -> B -> Status * B;
  dec_Submit : EncodedPacket -> B -> Status * B;
  dec_Receive : B -> Received VideoFrame * B;
  dec_Drain : B -> Status * B;
  dec_Close : B -> B }.
Arguments dec_Open {B} _ _ _.
Arguments dec_Submit {B} _ _ _.
Arguments dec_Receive {B} _ _.
Arguments dec_Drain {B} _ _.
Arguments dec_Close {B} _ _.

(* [include/rkavp/backends/mpp.hpp:41-50] IMppEncoderBackend *)
Record IMppEncoderBackend (B : Type) := mkMppEncoder {
  enc_Open : MppEncoderConfig -> B -> Status * B;
  enc_Submit : VideoFrame -> B -> Status * B;
  enc_Receive : B -> Received EncodedPacket * B;
  enc_Drain : B -> Status * B;
  enc_ForceKeyFrame : B -> Status * B;
  enc_Close : B -> B }.
Arguments enc_Open {B} _ _ _.
Arguments enc_Submit {B} _ _ _.
Arguments enc_Receive {B} _ _.
Arguments enc_Drain {B} _ _.
Arguments enc_ForceKeyFrame {B} _ _.
Arguments enc_Close {B} _ _.

(** ** 2D acceleration *)

(* [include/rkavp/backends/rga.hpp:10-15] Rect *)
Record Rect := mkRect { rx : Z; ry : Z; rwidth : Z; rheight : Z }.
Definition rect0 : Rect := mkRect 0 0 0 0.

(* [include/rkavp/backends/rga.hpp:17-25] RgaTransformRequest *)
Record RgaTransformRequest := mkTransform {
  tr_source_rect : Rect;
  tr_destination_rect : Rect;
  tr_destination_width : Z;
  tr_destination_height : Z;
  tr_destination_format : string;
  tr_rotation_degrees : Z;
  tr_asynchronous : bool }.
Definition default_transform : RgaTransformRequest := mkTransform rect0 rect0 0 0 "" 0 false.

(* [include/rkavp/backends/rga.hpp:27-33] RgaCompositeRequest *)
Record RgaCompositeRequest := mkComposite {
  co_foreground_rect : Rect;
  co_background_rect : Rect;
  co_destination_rect : Rect;
  co_alpha : spec_float;
  co_asynchronous : bool }.

(* [include/rkavp/backends/rga.hpp:35-45] IRgaBackend *)
Record IRgaBackend (B : Type) := mkRga {
  rga_Transform : VideoFrame -> RgaTransformRequest -> B -> (Status * VideoFrame) * B;
  rga_Blit : VideoFrame -> RgaTransformRequest -> B -> (Status * VideoFrame) * B;
  rga_Composite : VideoFrame -> VideoFrame -> RgaCompositeRequest -> B -> (Status * VideoFrame) * B;
  rga_ReleaseCachedHandles : B -> B }.
Arguments rga_Transform {B} _ _ _ _.
Arguments rga_Blit {B} _ _ _ _.
Arguments rga_Composite {B} _ _ _ _ _.
Arguments rga_ReleaseCachedHandles {B} _ _.

(** ** Neural network inference *)

(* [include/rkavp/backends/rknn.hpp:12-12] RknnCoreMask *)
Inductive RknnCoreMask := kAuto | kCore0 | kCore1 | kCore2 | kCore01 | kCore012.
#[export] Instance RknnCoreMask_eq_dec : EqDecision RknnCoreMask.
Proof. solve_decision. Defined.

(* [include/rkavp/backends/rknn.hpp:14-19] RknnModelConfig *)
Record RknnModelConfig := mkModelConfig {
  mc_path : string;
  mc_core_mask : RknnCoreMask;
  mc_zero_copy : bool;
  mc_cache_tensor_memory : bool }.
Definition default_model_config : RknnModelConfig := mkModelConfig "" kAuto false true.

(* [include/rkavp/backends/rknn.hpp:21-25] RknnPerformance *)
Record RknnPerformance := mkPerformance {
  pf_run_duration_us : Z; pf_sdk_version : string; pf_driver_version : string }.

Abbreviation TensorSet := (list Tensor).

(* [include/rkavp/backends/rknn.hpp:27-37] IRknnBackend *)
Record IRknnBackend (B : Type) := mkRknn {
  nn_LoadModel : RknnModelConfig -> B -> Status * B;
  nn_QueryInputs : B -> Res (list TensorDesc) * B;
  nn_QueryOutputs : B -> Res (list TensorDesc) * B;
  nn_SetDynamicShape : list (list Z) -> B -> Status * B;
  nn_Infer : TensorSet -> B -> Res TensorSet * B;
  nn_QueryPerformance : B -> Res RknnPerformance * B;
  nn_Close : B -> B }.
Arguments nn_LoadModel {B} _ _ _.
Arguments nn_QueryInputs {B} _ _.
Arguments nn_QueryOutputs {B} _ _.
Arguments nn_SetDynamicShape {B} _ _ _.
Arguments nn_Infer {B} _ _ _.
Arguments nn_QueryPerformance {B} _ _.
Arguments nn_Close {B} _ _.

(** ** Capture devices *)

(* [include/rkavp/backends/v4l2.hpp:11-11] V4l2IoMode *)
Inductive V4l2IoMode := kMmap | kExportDmaBuf.
#[export] Instance V4l2IoMode_eq_dec : EqDecision V4l2IoMode.
Proof. solve_decision. Defined.

(* [include/rkavp/backends/v4l2.hpp:13-21] V4l2CaptureConfig *)
Record V4l2CaptureConfig := mkCaptureConfig {
  cc_device : string;
  cc_width : Z;
  cc_height : Z;
  cc_fps : Z;
  cc_format : string;
  cc_io_mode : V4l2IoMode;
  cc_buffer_count : Z }.
Definition default_capture_config : V4l2CaptureConfig :=
  mkCaptureConfig "" 0 0 0 "" kExportDmaBuf 4.

(* [include/rkavp/backends/v4l2.hpp:23-30] IV4l2Backend *)
Record IV4l2Backend (B : Type) := mkV4l2 {
  v4l2_Open : V4l2CaptureConfig -> B -> Status * B;
  v4l2_Read : B -> (Status * Packet) * B;
  v4l2_RequestStop : B -> B;
  v4l2_Close : B -> B }.
Arguments v4l2_Open {B} _ _ _.
Arguments v4l2_Read {B} _ _.
Arguments v4l2_RequestStop {B} _ _.
Arguments v4l2_Close {B} _ _.

(* [include/rkavp/backends/alsa.hpp:10-16] AlsaCaptureConfig *)
Record AlsaCaptureConfig := mkAlsaConfig {
  ac_device : string;
  ac_sample_rate : Z;
  ac_channels : Z;
  ac_format : string;
  ac_frame_ms : Z }.
Definition default_alsa_config : AlsaCaptureConfig := mkAlsaConfig "default" 0 0 "" 0.

(* [include/rkavp/backends/alsa.hpp:18-26] IAlsaBackend *)
Record IAlsaBackend (B : Type) := mkAlsa {
  alsa_Open : AlsaCaptureConfig -> B -> Status * B;
  alsa_Read : B -> (Status * AudioFrame) * B;
  alsa_RecoverOverrun : B -> Status * B;
  alsa_RequestStop : B -> B;
  alsa_Close : B -> B }.
Arguments alsa_Open {B} _ _ _.
Arguments alsa_Read {B} _ _.
Arguments alsa_RecoverOverrun {B} _ _.
Arguments alsa_RequestStop {B} _ _.
Arguments alsa_Close {B} _ _.

(** ** Streaming *)

(* [include/rkavp/backends/streaming.hpp:11-16] ReconnectPolicy *)
Record ReconnectPolicy := mkReconnect {
  rp_max_attempts : Z;
  rp_initial_delay_ms : Z;
  rp_maximum_delay_ms : Z;
  rp_multiplier : spec_float }.

(* [include/rkavp/backends/streaming.hpp:18-22] StreamingSessionConfig *)
Record StreamingSessionConfig := mkSession {
  sc_url : string; sc_transport : string; sc_reconnect : ReconnectPolicy }.
Definition default_session : StreamingSessionConfig :=
  mkSession "" "tcp" (mkReconnect (-1) 250 10000 (double_of_Z 2)).

(* [include/rkavp/backends/streaming.hpp:24-31] IStreamingInputBackend *)
Record IStreamingInputBackend (B : Type) := mkStreamInput {
  in_Open : StreamingSessionConfig -> B -> Status * B;
  in_Read : B -> (Status * EncodedPacket) * B;
  in_RequestStop : B -> B;
  in_Close : B -> B }.
Arguments in_Open {B} _ _ _.
Arguments in_Read {B} _ _.
Arguments in_RequestStop {B} _ _.
Arguments in_Close {B} _ _.

(** The callback of the output counts key frame requests; it is called by the
    library's threads and only its presence is kept. *)
(* [include/rkavp/backends/streaming.hpp:33-40] IStreamingOutputBackend *)
Record IStreamingOutputBackend (B : Type) := mkStreamOutput {
  out_Open : StreamingSessionConfig -> B -> Status * B;
  out_Publish : EncodedPacket -> B -> Status * B;
  out_SetKeyFrameRequestCallback : B -> B;
  out_Close : B -> B }.
Arguments out_Open {B} _ _ _.
Arguments out_Publish {B} _ _ _.
Arguments out_SetKeyFrameRequestCallback {B} _ _.
Arguments out_Close {B} _ _.

(** ** Compute kernels *)

(* [include/rkavp/backends/opencl.hpp:12-16] OpenClKernelConfig *)
Record OpenClKernelConfig := mkKernelConfig {
  kc_name : string; kc_source : string; kc_build_options : string }.
Definition default_kernel_config : OpenClKernelConfig := mkKernelConfig "" "" "".

(** A fence is an identity. *)
(* [include/rkavp/backends/opencl.hpp:18-27] IOpenClBackend *)
Record IOpenClBackend (B : Type) := mkOpenCl {
  cl_Compile : OpenClKernelConfig -> B -> Status * B;
  cl_Run : string -> list BufferPtr -> list BufferPtr -> list Z -> B -> Res Z * B;
  cl_Close : B -> B }.
Arguments cl_Compile {B} _ _ _.
Arguments cl_Run {B} _ _ _ _ _ _.
Arguments cl_Close {B} _ _.

(** ** Buffers as the backends see them *)

(** The constant attributes of the buffers, by identity. *)
Class BufferHeap := {
  buf_size : Z -> Z;
  buf_planes : Z -> list BufferPlane }.

(** Calls of the other methods of [Buffer] and of its fence, and the creation of a
    host buffer. *)
(* [include/rkavp/buffer.hpp:31-49] Buffer *)
Inductive BufCmd :=
| BufFence (b : Z)
| BufFenceWait (b : Z)
| BufBegin (b : Z) (a : MapAccess)
| BufMap (b : Z) (a : MapAccess)
| BufUnmap (b : Z)
| BufEnd (b : Z) (a : MapAccess)
| BufNewHost (size : Z).

(** A fence may be absent; a mapping may fail. *)
Definition BufAns (c : BufCmd) : Type :=
  match c with
  | BufFence _ => bool
  | BufFenceWait _ => Status
  | BufBegin _ _ => Status
  | BufMap _ _ => bool
  | BufUnmap _ => unit
  | BufEnd _ _ => Status
  | BufNewHost _ => Z
  end.

(** CPU access and mappings are held from a successful begin to the end.  [Unmap] of
    a buffer that is not mapped does nothing. *)
Definition hcpu (b : Z) : Handle := ("cpu access", b).
Definition hmap (b : Z) : Handle := ("mapping", b).

Definition buf_effect (c : BufCmd) : BufAns c -> Effect Handle :=
  match c return BufAns c -> Effect Handle with
  | BufFence _ | BufFenceWait _ | BufNewHost _ => fun _ => no_effect
  | BufBegin b _ => fun st => if ok st then obtaining [hcpu b] else no_effect
  | BufMap b _ => fun m => mkEffect [hcpu b] [] [] (if (m : bool) then [hmap b] else [])
  | BufUnmap b => fun _ => dropping [hmap b]
  | BufEnd b _ => fun _ => returning [hcpu b]
  end.

(** What the calls on a buffer do to what is held. *)
Section buffers.
Implicit Types (held : Held).

Lemma account_begin b m (st : Status) held :
  account (buf_effect (BufBegin b m) st) held = Some (if ok st then {[+ hcpu b +]} ⊎ held else held).
Proof.
  simpl. destruct (ok st); [rewrite account_take|rewrite account_none]; simpl; f_equal; multiset_solver.
Qed.
Lemma account_map b m (x : bool) held :
  account (buf_effect (BufMap b m) x) ({[+ hcpu b +]} ⊎ held) =
  Some (if x then {[+ hmap b +]} ⊎ ({[+ hcpu b +]} ⊎ held) else {[+ hcpu b +]} ⊎ held).
Proof.
  simpl. rewrite account_use_take by (simpl; multiset_solver). destruct x; simpl; f_equal; multiset_solver.
Qed.
Lemma account_unmap b (x : unit) held :
  account (buf_effect (BufUnmap b) x) ({[+ hmap b +]} ⊎ held) = Some held.
Proof. simpl. rewrite account_drop. f_equal. multiset_solver. Qed.
Lemma account_unmap_none b (x : unit) held : hmap b ∉ held ->
  account (buf_effect (BufUnmap b) x) held = Some held.
Proof. intros Hh. simpl. rewrite account_drop. f_equal. multiset_solver. Qed.
Lemma account_end b m (x : Status) held :
  account (buf_effect (BufEnd b m) x) ({[+ hcpu b +]} ⊎ held) = Some held.
Proof.
  simpl. replace ({[+ hcpu b +]} ⊎ held) with (list_to_set_disj [hcpu b] ⊎ held) by (simpl; multiset_solver).
  unfold returning. rewrite account_give; [done|]. simpl. multiset_solver.
Qed.
End buffers.
