(* ===== verification/RknnBackend.v ===== *)
(** * The RKNN backend

    [src/modules/rockchip/rknn/backend.cpp]: inference with the RKNN runtime.  The
    operations run under the mutex of the object, so each is one program over its
    fields.  The runtime, the model file and the buffers are the outside ([RknnCmd]);
    the constants of the vendor's header are a parameter ([RknnConstants]).

    [rknn_backend_safe]: whatever the runtime answers within its documentation and
    whatever the order of the operations, nothing is used before it exists or after it
    is gone, nothing is released twice or lost, and no copy leaves its memory. *)

From S2P Require Import Prelude Status Timestamp Values Buffer Device Backends.
From Stdlib Require Import SpecFloat.
From stdpp Require Import gmultiset pretty.
Local Open Scope rkavp_scope.
Local Open Scope Z_scope.

(** ** The runtime *)

Class RknnConstants := { RKNN_SUCC : Z; RKNN_MAX_DIMS : nat }.

(** The values of the vendor's enumerations that the code names, and the others. *)
Inductive rknn_tensor_type :=
| RKNN_TENSOR_FLOAT32 | RKNN_TENSOR_FLOAT16 | RKNN_TENSOR_INT64 | RKNN_TENSOR_INT32
| RKNN_TENSOR_INT16 | RKNN_TENSOR_INT8 | RKNN_TENSOR_UINT8 | RKNN_TENSOR_BOOL
| rknn_other_type (n : Z).
Inductive rknn_tensor_format :=
| RKNN_TENSOR_NCHW | RKNN_TENSOR_NHWC | RKNN_TENSOR_NC1HWC2 | rknn_other_format (n : Z).
Inductive rknn_tensor_qnt_type :=
| RKNN_TENSOR_QNT_NONE | RKNN_TENSOR_QNT_DFP | RKNN_TENSOR_QNT_AFFINE_ASYMMETRIC.
#[export] Instance rknn_tensor_qnt_type_eq_dec : EqDecision rknn_tensor_qnt_type.
Proof. solve_decision. Defined.
Inductive rknn_core_mask :=
| RKNN_NPU_CORE_AUTO | RKNN_NPU_CORE_0 | RKNN_NPU_CORE_1 | RKNN_NPU_CORE_2
| RKNN_NPU_CORE_0_1 | RKNN_NPU_CORE_0_1_2.

(** The attributes of a tensor; [dims] is the whole array, of which the first
    [n_dims] entries count. *)
Record rknn_tensor_attr := mkAttr {
  at_index : Z;
  at_n_dims : nat;
  at_dims : list Z;
  at_name : string;
  at_size : Z;
  at_fmt : rknn_tensor_format;
  at_type : rknn_tensor_type;
  at_qnt_type : rknn_tensor_qnt_type;
  at_fl : Z;
  at_zp : Z;
  at_scale : spec_float;
  at_w_stride : Z;
  at_size_with_stride : Z }.

(** A tensor memory: its identity, its size and whether it is mapped. *)
Record rknn_tensor_mem := mkMem { mem_id : Z; mem_size : Z; mem_virt_addr : bool }.

Inductive QueryCmd :=
| RKNN_QUERY_INPUT_ATTR | RKNN_QUERY_OUTPUT_ATTR
| RKNN_QUERY_NATIVE_INPUT_ATTR | RKNN_QUERY_NATIVE_OUTPUT_ATTR
| RKNN_QUERY_CURRENT_INPUT_ATTR | RKNN_QUERY_CURRENT_OUTPUT_ATTR
| RKNN_QUERY_CURRENT_NATIVE_INPUT_ATTR | RKNN_QUERY_CURRENT_NATIVE_OUTPUT_ATTR.
Inductive SyncMode := RKNN_MEMORY_SYNC_TO_DEVICE | RKNN_MEMORY_SYNC_FROM_DEVICE.

(** The calls of the backend.  [CopyIn] and [CopyOut] are the two [memcpy]s; the
    second also makes the host buffer that receives the bytes. *)
Inductive RknnCmd :=
| FileLength (path : string)
| FileRead (path : string) (length : Z)
| rknn_init (size : Z)
| rknn_set_core_mask (ctx : Z) (mask : rknn_core_mask)
| rknn_query_in_out_num (ctx : Z)
| rknn_query_attr (ctx : Z) (cmd : QueryCmd) (index : Z)
| rknn_query_sdk_version (ctx : Z)
| rknn_query_perf_run (ctx : Z)
| rknn_set_input_shapes (ctx : Z) (attrs : list rknn_tensor_attr)
| rknn_create_mem (ctx size : Z)
| rknn_set_io_mem (ctx : Z) (mem : rknn_tensor_mem) (attr : rknn_tensor_attr)
| rknn_mem_sync (ctx : Z) (mem : rknn_tensor_mem) (mode : SyncMode)
| rknn_run (ctx : Z)
| rknn_destroy_mem (ctx : Z) (mem : rknn_tensor_mem)
| rknn_destroy (ctx : Z)
| CopyIn (mem : rknn_tensor_mem) (buffer size : Z)
| CopyOut (mem : rknn_tensor_mem) (size : Z)
| RBuf (c : BufCmd).

Definition RknnAns (c : RknnCmd) : Type :=
  match c with
  | FileLength _ => option Z
  | FileRead _ _ => bool
  | rknn_init _ => Z * Z
  | rknn_set_core_mask _ _ => Z
  | rknn_query_in_out_num _ => Z * (nat * nat)
  | rknn_query_attr _ _ _ => Z * rknn_tensor_attr
  | rknn_query_sdk_version _ => Z * (string * string)
  | rknn_query_perf_run _ => Z * Z
  | rknn_set_input_shapes _ _ => Z
  | rknn_create_mem _ _ => option rknn_tensor_mem
  | rknn_set_io_mem _ _ _ => Z
  | rknn_mem_sync _ _ _ => Z
  | rknn_run _ => Z
  | rknn_destroy_mem _ _ => unit
  | rknn_destroy _ => unit
  | CopyIn _ _ _ => unit
  | CopyOut _ _ => Z
  | RBuf c => BufAns c
  end.

(** ** Conversions *)

(** [1.0F], the default scale. *)
Definition float_one : spec_float := binary_normalize 24 128 1 0 false.

Section conversions.
Context {KC : RknnConstants}.

(* [src/modules/rockchip/rknn/backend.cpp:16-20] RknnStatus *)
Definition RknnStatus (result : Z) (operation : string) : Status :=
  if result =? RKNN_SUCC then Ok else Unavailable (operation +:+ " failed: " +:+ pretty result).

(* [src/modules/rockchip/rknn/backend.cpp:22-43] TensorType *)
Definition TensorType (type : rknn_tensor_type) : TensorDataType :=
  match type with
  | RKNN_TENSOR_FLOAT32 => kFloat32
  | RKNN_TENSOR_FLOAT16 => kFloat16
  | RKNN_TENSOR_INT64 => kInt64
  | RKNN_TENSOR_INT32 => kInt32
  | RKNN_TENSOR_INT16 => kInt16
  | RKNN_TENSOR_INT8 => kInt8
  | RKNN_TENSOR_UINT8 => kUInt8
  | RKNN_TENSOR_BOOL => kBool
  | rknn_other_type _ => kUnknown
  end.

(* [src/modules/rockchip/rknn/backend.cpp:45-56] TensorFormat *)
Definition TensorFormat (format : rknn_tensor_format) : TensorLayout :=
  match format with
  | RKNN_TENSOR_NCHW => kNchw
  | RKNN_TENSOR_NHWC => kNhwc
  | RKNN_TENSOR_NC1HWC2 => kNc1hwc2
  | rknn_other_format _ => kAnyLayout
  end.

Definition size_or_stride (attr : rknn_tensor_attr) : Z :=
  if at_size_with_stride attr =? 0 then at_size attr else at_size_with_stride attr.

(* [src/modules/rockchip/rknn/backend.cpp:58-77] Describe *)
Definition Describe (attr : rknn_tensor_attr) : TensorDesc :=
  mkTensorDesc (at_name attr) (List.firstn (at_n_dims attr) (at_dims attr))
    (TensorType (at_type attr)) (TensorFormat (at_fmt attr))
    (match at_qnt_type attr with
     | RKNN_TENSOR_QNT_AFFINE_ASYMMETRIC =>
         mkQuantization kAffineAsymmetric (at_zp attr) (at_scale attr) 0
     | RKNN_TENSOR_QNT_DFP => mkQuantization kDynamicFixedPoint 0 float_one (at_fl attr)
     | RKNN_TENSOR_QNT_NONE => mkQuantization kNoQuantization 0 float_one 0
     end)
    (at_size attr) (size_or_stride attr) (at_w_stride attr) false.

(* [src/modules/rockchip/rknn/backend.cpp:79-95] CoreMask *)
Definition CoreMask (mask : RknnCoreMask) : rknn_core_mask :=
  match mask with
  | kCore0 => RKNN_NPU_CORE_0
  | kCore1 => RKNN_NPU_CORE_1
  | kCore2 => RKNN_NPU_CORE_2
  | kCore01 => RKNN_NPU_CORE_0_1
  | kCore012 => RKNN_NPU_CORE_0_1_2
  | kAuto => RKNN_NPU_CORE_AUTO
  end.
End conversions.

(** ** The object *)

(* [src/modules/rockchip/rknn/backend.cpp:361-374] RockchipRknnBackend (fields) *)
Record Rknn := mkRknnState {
  context_ : Z;
  config_ : RknnModelConfig;
  model_ : Z;
  input_attrs_ : list rknn_tensor_attr;
  output_attrs_ : list rknn_tensor_attr;
  native_input_attrs_ : list rknn_tensor_attr;
  native_output_attrs_ : list rknn_tensor_attr;
  input_descs_ : list TensorDesc;
  output_descs_ : list TensorDesc;
  input_memory_ : list rknn_tensor_mem;
  output_memory_ : list rknn_tensor_mem;
  sdk_version_ : string;
  driver_version_ : string }.

Definition new_rknn : Rknn := mkRknnState 0 default_model_config 0 [] [] [] [] [] [] [] [] "" "".

Definition with_context (c : Z) (s : Rknn) : Rknn :=
  mkRknnState c (config_ s) (model_ s) (input_attrs_ s) (output_attrs_ s) (native_input_attrs_ s)
    (native_output_attrs_ s) (input_descs_ s) (output_descs_ s) (input_memory_ s)
    (output_memory_ s) (sdk_version_ s) (driver_version_ s).
Definition with_config (c : RknnModelConfig) (s : Rknn) : Rknn :=
  mkRknnState (context_ s) c (model_ s) (input_attrs_ s) (output_attrs_ s) (native_input_attrs_ s)
    (native_output_attrs_ s) (input_descs_ s) (output_descs_ s) (input_memory_ s)
    (output_memory_ s) (sdk_version_ s) (driver_version_ s).
Definition with_model (n : Z) (s : Rknn) : Rknn :=
  mkRknnState (context_ s) (config_ s) n (input_attrs_ s) (output_attrs_ s) (native_input_attrs_ s)
    (native_output_attrs_ s) (input_descs_ s) (output_descs_ s) (input_memory_ s)
    (output_memory_ s) (sdk_version_ s) (driver_version_ s).
Definition with_descs (i o : list TensorDesc) (s : Rknn) : Rknn :=
  mkRknnState (context_ s) (config_ s) (model_ s) (input_attrs_ s) (output_attrs_ s)
    (native_input_attrs_ s) (native_output_attrs_ s) i o (input_memory_ s)
    (output_memory_ s) (sdk_version_ s) (driver_version_ s).
Definition with_memory (i o : list rknn_tensor_mem) (s : Rknn) : Rknn :=
  mkRknnState (context_ s) (config_ s) (model_ s) (input_attrs_ s) (output_attrs_ s)
    (native_input_attrs_ s) (native_output_attrs_ s) (input_descs_ s) (output_descs_ s) i o
    (sdk_version_ s) (driver_version_ s).
Definition with_versions (v d : string) (s : Rknn) : Rknn :=
  mkRknnState (context_ s) (config_ s) (model_ s) (input_attrs_ s) (output_attrs_ s)
    (native_input_attrs_ s) (native_output_attrs_ s) (input_descs_ s) (output_descs_ s)
    (input_memory_ s) (output_memory_ s) v d.

(** The four vectors that [QueryAttrsLocked] fills through a pointer. *)
Inductive Slot := SInput | SOutput | SNativeInput | SNativeOutput.
Definition get_slot (x : Slot) (s : Rknn) : list rknn_tensor_attr :=
  match x with
  | SInput => input_attrs_ s
  | SOutput => output_attrs_ s
  | SNativeInput => native_input_attrs_ s
  | SNativeOutput => native_output_attrs_ s
  end.
Definition put_slot (x : Slot) (l : list rknn_tensor_attr) (s : Rknn) : Rknn :=
  let pick y old := match x, y with
    | SInput, SInput | SOutput, SOutput | SNativeInput, SNativeInput
    | SNativeOutput, SNativeOutput => l | _, _ => old end in
  mkRknnState (context_ s) (config_ s) (model_ s) (pick SInput (input_attrs_ s))
    (pick SOutput (output_attrs_ s)) (pick SNativeInput (native_input_attrs_ s))
    (pick SNativeOutput (native_output_attrs_ s)) (input_descs_ s) (output_descs_ s)
    (input_memory_ s) (output_memory_ s) (sdk_version_ s) (driver_version_ s).

Abbreviation RknnProg := (dprog RknnAns Rknn).
Abbreviation rcall := (dcall (Ans := RknnAns) (S := Rknn)).

(** [if (!status.ok()) return status;] *)
Definition andthen {Cmd} {Ans : Cmd -> Type} {S} (m k : dprog Ans S Status) : dprog Ans S Status :=
  st <~ m; if ok st then k else DRet st.

Section backend.
Context {KC : RknnConstants} {BH : BufferHeap}.

(** A value-initialised attribute. *)
Definition zero_attr (i : Z) : rknn_tensor_attr :=
  mkAttr i 0 (repeat 0 RKNN_MAX_DIMS) "" 0 RKNN_TENSOR_NCHW RKNN_TENSOR_FLOAT32
    RKNN_TENSOR_QNT_NONE 0 0 (S754_zero false) 0 0.

(* [src/modules/rockchip/rknn/backend.cpp:266-276] RockchipRknnBackend::QueryAttrsLocked *)
Definition QueryAttrsLocked (command : QueryCmd) (count : nat) (slot : Slot) : RknnProg Status :=
  dset (put_slot slot (repeat (zero_attr 0) count));~
  r <~ dfor (seq 0 count) (fun i =>
    ctx <~ dget context_;
    a <~ rcall (rknn_query_attr ctx command (Z.of_nat i));
    dset (fun s => put_slot slot (<[i := a.2]> (get_slot slot s)) s);~
    let st := RknnStatus a.1 "rknn_query tensor attribute" in
    DRet (if ok st then None else Some st));
  DRet (match r with None => Ok | Some st => st end).

(** [Describe] on every attribute; reading [dims] past its end is undefined. *)
Definition describe_all : RknnProg unit :=
  ia <~ dget input_attrs_;
  oa <~ dget output_attrs_;
  if forallb (fun a => (at_n_dims a <=? RKNN_MAX_DIMS)%nat) (ia ++ oa)
  then dset (with_descs (map Describe ia) (map Describe oa))
  else DUndefined "dims index out of range".

(* [src/modules/rockchip/rknn/backend.cpp:278-311] RockchipRknnBackend::RefreshAttributesLocked *)
Definition RefreshAttributesLocked (current : bool) : RknnProg Status :=
  ctx <~ dget context_;
  c <~ rcall (rknn_query_in_out_num ctx);
  andthen (DRet (RknnStatus c.1 "RKNN_QUERY_IN_OUT_NUM"))
  (andthen (QueryAttrsLocked (if current then RKNN_QUERY_CURRENT_INPUT_ATTR
                              else RKNN_QUERY_INPUT_ATTR) c.2.1 SInput)
  (andthen (QueryAttrsLocked (if current then RKNN_QUERY_CURRENT_OUTPUT_ATTR
                              else RKNN_QUERY_OUTPUT_ATTR) c.2.2 SOutput)
  (andthen (QueryAttrsLocked (if current then RKNN_QUERY_CURRENT_NATIVE_INPUT_ATTR
                              else RKNN_QUERY_NATIVE_INPUT_ATTR) c.2.1 SNativeInput)
  (andthen (QueryAttrsLocked (if current then RKNN_QUERY_CURRENT_NATIVE_OUTPUT_ATTR
                              else RKNN_QUERY_NATIVE_OUTPUT_ATTR) c.2.2 SNativeOutput)
  (describe_all;~
   v <~ rcall (rknn_query_sdk_version ctx);
   let status := RknnStatus v.1 "RKNN_QUERY_SDK_VERSION" in
   (if ok status then dset (with_versions v.2.1 v.2.2) else DRet tt);~
   DRet status))))).

(* [src/modules/rockchip/rknn/backend.cpp:313-320] RockchipRknnBackend::DestroyIoMemoryLocked *)
Definition DestroyIoMemoryLocked : RknnProg unit :=
  ctx <~ dget context_;
  im <~ dget input_memory_;
  deach im (fun m => rcall (rknn_destroy_mem ctx m));~
  om <~ dget output_memory_;
  deach om (fun m => rcall (rknn_destroy_mem ctx m));~
  dset (with_memory [] []).

(** The two loops of [AllocateIoMemoryLocked]. *)
Definition allocate_slot (push : rknn_tensor_mem -> Rknn -> Rknn) (what : string)
    (attrs : list rknn_tensor_attr) : RknnProg Status :=
  ctx <~ dget context_;
  r <~ dfor attrs (fun attr =>
    m <~ rcall (rknn_create_mem ctx (size_or_stride attr));
    match m with
    | None => DRet (Some (Unavailable ("rknn_create_mem " +:+ what +:+ " failed")))
    | Some m =>
        dset (push m);~
        x <~ rcall (rknn_set_io_mem ctx m attr);
        let st := RknnStatus x ("rknn_set_io_mem " +:+ what) in
        DRet (if ok st then None else Some st)
    end);
  DRet (match r with None => Ok | Some st => st end).

Definition push_input (m : rknn_tensor_mem) (s : Rknn) : Rknn :=
  with_memory (input_memory_ s ++ [m]) (output_memory_ s) s.
Definition push_output (m : rknn_tensor_mem) (s : Rknn) : Rknn :=
  with_memory (input_memory_ s) (output_memory_ s ++ [m]) s.

(* [src/modules/rockchip/rknn/backend.cpp:322-344] RockchipRknnBackend::AllocateIoMemoryLocked *)
Definition AllocateIoMemoryLocked : RknnProg Status :=
  DestroyIoMemoryLocked;~
  ni <~ dget native_input_attrs_;
  andthen (allocate_slot push_input "input" ni)
  (no <~ dget native_output_attrs_;
   allocate_slot push_output "output" no).

(** The [clear]s of [CloseLocked]. *)
Definition cleared (s : Rknn) : Rknn :=
  mkRknnState 0 (config_ s) 0 [] [] [] [] [] [] (input_memory_ s) (output_memory_ s) "" "".

(* [src/modules/rockchip/rknn/backend.cpp:346-359] RockchipRknnBackend::CloseLocked *)
Definition CloseLocked : RknnProg unit :=
  c <~ dget context_;
  (if negb (c =? 0) then DestroyIoMemoryLocked else DRet tt);~
  (if negb (c =? 0) then rcall (rknn_destroy c) else DRet tt);~
  dset cleared.

(** [status = ...; if (!status.ok()) { CloseLocked(); return status; }] *)
Definition or_close (m k : RknnProg Status) : RknnProg Status :=
  st <~ m; if ok st then k else CloseLocked;~ DRet st.

(* [src/modules/rockchip/rknn/backend.cpp:101-147] RockchipRknnBackend::LoadModel *)
Definition LoadModel (config : RknnModelConfig) : RknnProg Status :=
  CloseLocked;~
  if bool_decide (mc_path config = "") then DRet (Invalid "RKNN model path is empty")
  else if mc_zero_copy config then
    DRet (Invalid ("RKNN zero_copy=true is not implemented by this backend; use cached tensor memory or " +:+
                   "provide an external backend plugin"))
  else if negb (mc_cache_tensor_memory config) then
    DRet (Invalid "RKNN cache_tensor_memory=false is not implemented by this backend")
  else
    l <~ rcall (FileLength (mc_path config));
    match l with
    | None => DRet (NotFound ("cannot open RKNN model: " +:+ mc_path config))
    | Some length =>
        if (length <=? 0) || (u32_mod - 1 <? length) then
          DRet (Invalid ("RKNN model has invalid size: " +:+ mc_path config))
        else
          dset (with_model length);~
          good <~ rcall (FileRead (mc_path config) length);
          if negb good then
            dset (with_model 0);~
            DRet (Unavailable ("cannot read RKNN model: " +:+ mc_path config))
          else
            or_close (i <~ rcall (rknn_init length);
                      dset (with_context i.2);~
                      DRet (RknnStatus i.1 "rknn_init"))
            (or_close (ctx <~ dget context_;
                       x <~ rcall (rknn_set_core_mask ctx (CoreMask (mc_core_mask config)));
                       DRet (RknnStatus x "rknn_set_core_mask"))
            (dset (with_config config);~
             or_close (andthen (RefreshAttributesLocked false) AllocateIoMemoryLocked)
             (DRet Ok)))
    end.

(** The guard of the operations that need a model. *)
Definition loaded {A} (k : RknnProg (Res A)) : RknnProg (Res A) :=
  c <~ dget context_;
  if c =? 0 then DRet (Err (FailedPrecondition "RKNN model is not loaded")) else k.

(* [src/modules/rockchip/rknn/backend.cpp:149-155] RockchipRknnBackend::QueryInputs *)
Definition QueryInputs : RknnProg (Res (list TensorDesc)) :=
  loaded (d <~ dget input_descs_; DRet (Okay d)).

(* [src/modules/rockchip/rknn/backend.cpp:157-163] RockchipRknnBackend::QueryOutputs *)
Definition QueryOutputs : RknnProg (Res (list TensorDesc)) :=
  loaded (d <~ dget output_descs_; DRet (Okay d)).

(** One input of [SetDynamicShape]: the shape replaces the first dimensions. *)
Definition shape_attr (shape : list Z) (attr : rknn_tensor_attr) : Res rknn_tensor_attr :=
  if bool_decide (shape = []) || (RKNN_MAX_DIMS <? length shape)%nat then
    Err (Invalid "invalid RKNN dynamic shape rank")
  else if existsb (fun v => (v <=? 0) || (u32_mod - 1 <? v)) shape then
    Err (Invalid "invalid RKNN dynamic shape dimension")
  else Okay (mkAttr (at_index attr) (length shape)
               (shape ++ List.skipn (length shape) (at_dims attr)) (at_name attr) (at_size attr)
               (at_fmt attr) (at_type attr) (at_qnt_type attr) (at_fl attr) (at_zp attr)
               (at_scale attr) (at_w_stride attr) (at_size_with_stride attr)).

Fixpoint shape_attrs (shapes : list (list Z)) (attrs : list rknn_tensor_attr)
  : Res (list rknn_tensor_attr) :=
  match shapes, attrs with
  | sh :: shapes, a :: attrs =>
      match shape_attr sh a with
      | Err e => Err e
      | Okay a' => match shape_attrs shapes attrs with Err e => Err e | Okay l => Okay (a' :: l) end
      end
  | _, _ => Okay attrs
  end.

(* [src/modules/rockchip/rknn/backend.cpp:165-189] RockchipRknnBackend::SetDynamicShape *)
Definition SetDynamicShape (shapes : list (list Z)) : RknnProg Status :=
  ctx <~ dget context_;
  if ctx =? 0 then DRet (FailedPrecondition "RKNN model is not loaded")
  else
    attrs <~ dget input_attrs_;
    if negb (length shapes =? length attrs)%nat then
      DRet (Invalid "dynamic shape input count mismatch")
    else match shape_attrs shapes attrs with
         | Err e => DRet e
         | Okay attrs =>
             andthen (x <~ rcall (rknn_set_input_shapes ctx attrs);
                      DRet (RknnStatus x "rknn_set_input_shapes"))
             (andthen (RefreshAttributesLocked true) AllocateIoMemoryLocked)
         end.

Definition buf_wait (b : Z) : RknnProg Status :=
  f <~ rcall (RBuf (BufFence b));
  if (f : bool) then rcall (RBuf (BufFenceWait b)) else DRet Ok.

(** One iteration of the first loop of [Infer]. *)
Definition infer_input (it : nat * Tensor) : RknnProg (option Status) :=
  let '(i, t) := it in
  match t_buffer t with
  | None => DRet (Some (Invalid "RKNN input tensor has no buffer"))
  | Some b =>
      attr <~ dget (fun s => input_attrs_ s !! i);
      mem <~ dget (fun s => input_memory_ s !! i);
      match attr, mem with
      | Some attr, Some mem =>
          let required := at_size attr in
          if (buf_size b <? required) || (mem_size mem <? required) then
            DRet (Some (Invalid "RKNN input tensor is smaller than the model input"))
          else
            st <~ buf_wait b;
            if negb (ok st) then DRet (Some st) else
            st <~ rcall (RBuf (BufBegin b kRead));
            if negb (ok st) then DRet (Some st) else
            source <~ rcall (RBuf (BufMap b kRead));
            if negb source || negb (mem_virt_addr mem) then
              rcall (RBuf (BufUnmap b));~
              rcall (RBuf (BufEnd b kRead));~
              DRet (Some (Invalid "RKNN input tensor is not CPU mappable"))
            else
              rcall (CopyIn mem b required);~
              rcall (RBuf (BufUnmap b));~
              st <~ rcall (RBuf (BufEnd b kRead));
              if negb (ok st) then DRet (Some st) else
              ctx <~ dget context_;
              x <~ rcall (rknn_mem_sync ctx mem RKNN_MEMORY_SYNC_TO_DEVICE);
              let st := RknnStatus x "rknn_mem_sync input" in
              DRet (if ok st then None else Some st)
      | _, _ => DUndefined "tensor index out of range"
      end
  end.

(** The second loop of [Infer]; [acc] is [result]. *)
Fixpoint infer_outputs (i : nat) (mems : list rknn_tensor_mem) (acc : TensorSet)
  : RknnProg (Res TensorSet) :=
  match mems with
  | [] => DRet (Okay acc)
  | mem :: mems =>
      ctx <~ dget context_;
      x <~ rcall (rknn_mem_sync ctx mem RKNN_MEMORY_SYNC_FROM_DEVICE);
      let st := RknnStatus x "rknn_mem_sync output" in
      if negb (ok st) then DRet (Err st) else
      desc <~ dget (fun s => output_descs_ s !! i);
      match desc with
      | None => DUndefined "descriptor index out of range"
      | Some desc =>
          let size := td_byte_size_with_stride desc in
          if negb (mem_virt_addr mem) || (mem_size mem <? size) then
            DRet (Err (Internal "RKNN output memory is invalid"))
          else
            b <~ rcall (CopyOut mem size);
            infer_outputs (S i) mems (acc ++ [mkTensor desc (Some b)])
      end
  end.

(* [src/modules/rockchip/rknn/backend.cpp:191-244] RockchipRknnBackend::Infer *)
Definition Infer (inputs : TensorSet) : RknnProg (Res TensorSet) :=
  loaded (
    im <~ dget input_memory_;
    if negb (length inputs =? length im)%nat then
      DRet (Err (Invalid "RKNN input tensor count mismatch"))
    else
      r <~ dfor (imap pair inputs) infer_input;
      match r with
      | Some st => DRet (Err st)
      | None =>
          ctx <~ dget context_;
          x <~ rcall (rknn_run ctx);
          let st := RknnStatus x "rknn_run" in
          if negb (ok st) then DRet (Err st) else
          om <~ dget output_memory_;
          infer_outputs 0 om []
      end).

(* [src/modules/rockchip/rknn/backend.cpp:246-258] RockchipRknnBackend::QueryPerformance *)
Definition QueryPerformance : RknnProg (Res RknnPerformance) :=
  loaded (
    ctx <~ dget context_;
    p <~ rcall (rknn_query_perf_run ctx);
    let st := RknnStatus p.1 "RKNN_QUERY_PERF_RUN" in
    if negb (ok st) then DRet (Err st) else
    v <~ dget sdk_version_;
    d <~ dget driver_version_;
    DRet (Okay (mkPerformance p.2 v d))).

(* [src/modules/rockchip/rknn/backend.cpp:260-263] RockchipRknnBackend::Close *)
Definition Close : RknnProg unit := CloseLocked.
End backend.

(** ** What is held *)

Section safety.
Context {KC : RknnConstants} {BH : BufferHeap}.

Definition hctx (c : Z) : Handle := ("context", c).
Definition hmem (m : rknn_tensor_mem) : Handle := ("memory", mem_id m).

Definition rknn_effect (ev : devent RknnAns) : Effect Handle :=
  let 'Ev c a := ev in
  match c return RknnAns c -> Effect Handle with
  | FileLength _ | FileRead _ _ => fun _ => no_effect
  | rknn_init _ => fun a => if a.1 =? RKNN_SUCC then obtaining [hctx a.2] else no_effect
  | rknn_set_core_mask ctx _ => fun _ => needing [hctx ctx]
  | rknn_query_in_out_num ctx => fun _ => needing [hctx ctx]
  | rknn_query_attr ctx _ _ => fun _ => needing [hctx ctx]
  | rknn_query_sdk_version ctx => fun _ => needing [hctx ctx]
  | rknn_query_perf_run ctx => fun _ => needing [hctx ctx]
  | rknn_set_input_shapes ctx _ => fun _ => needing [hctx ctx]
  | rknn_create_mem ctx _ => fun m => mkEffect [hctx ctx] [] []
                                        (match m with Some m => [hmem m] | None => [] end)
  | rknn_set_io_mem ctx m _ => fun _ => needing [hctx ctx; hmem m]
  | rknn_mem_sync ctx m _ => fun _ => needing [hctx ctx; hmem m]
  | rknn_run ctx => fun _ => needing [hctx ctx]
  | rknn_destroy_mem ctx m => fun _ => mkEffect [hctx ctx] [hmem m] [] []
  | rknn_destroy ctx => fun _ => returning [hctx ctx]
  | CopyIn m b _ => fun _ => needing [hmem m; hmap b]
  | CopyOut m _ => fun _ => needing [hmem m]
  | RBuf c => buf_effect c
  end a.

(** The ghost state: what is held, and the tensor counts that the runtime reported
    for the model that is loaded. *)
Abbreviation RknnGhost := (Held * option (nat * nat))%type.

(** Copies stay within both memories, and a context is destroyed last. *)
Definition rknn_guard (ev : devent RknnAns) (held : Held) : bool :=
  match ev_cmd ev with
  | CopyIn m b n => (n <=? mem_size m) && (n <=? buf_size b)
  | CopyOut m n => n <=? mem_size m
  | rknn_destroy ctx => bool_decide (held = {[+ hctx ctx +]})
  | _ => true
  end.

Definition rknn_counts (ev : devent RknnAns) (n : option (nat * nat)) : option (nat * nat) :=
  let 'Ev c a := ev in
  match c return RknnAns c -> option (nat * nat) with
  | rknn_init _ => fun _ => None
  | rknn_query_in_out_num _ => fun a => if a.1 =? RKNN_SUCC then Some a.2 else n
  | _ => fun _ => n
  end a.

Definition rknn_gstep (ev : devent RknnAns) (g : RknnGhost) : option RknnGhost :=
  if rknn_guard ev g.1 then
    match account (rknn_effect ev) g.1 with
    | Some held => Some (held, rknn_counts ev g.2)
    | None => None
    end
  else None.

(** The documentation of the runtime: a context is not 0 and is written only on
    success, an attribute has at most [RKNN_MAX_DIMS] dimensions, and the number of
    tensors of a model does not change. *)
Definition rknn_allowed (g : RknnGhost) (ev : devent RknnAns) : Prop :=
  let 'Ev c a := ev in
  match c return RknnAns c -> Prop with
  | rknn_init _ => fun a => (a.1 = RKNN_SUCC <-> a.2 <> 0)
  | rknn_query_attr _ _ _ => fun a => (at_n_dims a.2 <= RKNN_MAX_DIMS)%nat
  | rknn_query_in_out_num _ => fun a => a.1 = RKNN_SUCC -> g.2 = None \/ g.2 = Some a.2
  | _ => fun _ => True
  end a.

(** ** The invariant *)

Definition held_of (s : Rknn) : Held :=
  list_to_set_disj (if context_ s =? 0 then [] else [hctx (context_ s)]) ⊎
  list_to_set_disj (map hmem (input_memory_ s)) ⊎
  list_to_set_disj (map hmem (output_memory_ s)).

(** The vectors that are indexed together fit. *)
Definition io_ok (s : Rknn) (n : option (nat * nat)) : Prop :=
  match n with
  | None => input_memory_ s = [] /\ output_memory_ s = []
  | Some (ni, no) =>
      (length (input_memory_ s) <= ni)%nat /\ (length (output_memory_ s) <= no)%nat /\
      (input_memory_ s = [] \/ length (input_attrs_ s) = ni) /\
      (output_memory_ s = [] \/ length (output_descs_ s) = no)
  end.

Definition rknn_inv (s : Rknn) (g : RknnGhost) : Prop :=
  g.1 = held_of s /\ io_ok s g.2 /\
  (context_ s = 0 -> input_memory_ s = [] /\ output_memory_ s = []) /\
  Forall (fun a => at_n_dims a <= RKNN_MAX_DIMS)%nat (input_attrs_ s ++ output_attrs_ s).

Abbreviation rwp := (wp rknn_gstep rknn_allowed).

(** A call that only uses what is held. *)
Lemma gstep_use c a held n l : rknn_effect (Ev c a) = needing l ->
  rknn_guard (Ev c a) held = true -> list_to_set_disj l ⊆ held ->
  rknn_gstep (Ev c a) (held, n) = Some (held, rknn_counts (Ev c a) n).
Proof. intros He Hg Hl. unfold rknn_gstep. simpl fst. rewrite Hg, He, account_use by done. done. Qed.

Lemma gstep_none c a held n : rknn_effect (Ev c a) = no_effect ->
  rknn_guard (Ev c a) held = true ->
  rknn_gstep (Ev c a) (held, n) = Some (held, rknn_counts (Ev c a) n).
Proof. intros He Hg. unfold rknn_gstep. simpl fst. rewrite Hg, He, account_none. done. Qed.

Definition mems (l : list rknn_tensor_mem) : Held := list_to_set_disj (map hmem l).

Lemma held_loaded s : context_ s <> 0 ->
  held_of s = {[+ hctx (context_ s) +]} ⊎ mems (input_memory_ s) ⊎ mems (output_memory_ s).
Proof.
  intros Hc. unfold held_of, mems. rewrite (proj2 (Z.eqb_neq _ _) Hc). simpl. multiset_solver.
Qed.

Lemma held_unloaded s : rknn_inv s (held_of s, None) -> context_ s = 0 -> held_of s = ∅.
Proof.
  intros (_ & _ & Hz & _) Hc. destruct (Hz Hc) as [Hi Ho]. unfold held_of. rewrite Hc, Hi, Ho. done.
Qed.

Lemma destroy_mems_wp ctx (l : list rknn_tensor_mem) (rest : Held) (n : option (nat * nat)) (Q : unit -> Rknn -> RknnGhost -> Prop) s :
  hctx ctx ∈ rest -> Q tt s (rest, n) ->
  rwp (deach l (fun m => rcall (rknn_destroy_mem ctx m))) Q s (mems l ⊎ rest, n).
Proof.
  intros Hin HQ.
  eapply dwp_mono; [|eapply (wp_deach _ _ l _ (fun l s' g' => s' = s /\ g' = (mems l ⊎ rest, n)))].
  - intros [] s' g' [-> ->]. unfold mems. simpl. by rewrite (left_id_L ∅ (⊎)).
  - done.
  - intros m l' s' g' [-> ->]. wcall [] _; [|done].
    unfold rknn_gstep. simpl.
    replace (mems (m :: l') ⊎ rest) with (list_to_set_disj [hmem m] ⊎ (mems l' ⊎ rest))
      by (unfold mems; simpl; multiset_solver).
    rewrite account_give; [done|]. simpl. multiset_solver.
Qed.

Lemma destroy_io_wp s (n : option (nat * nat)) (Q : unit -> Rknn -> RknnGhost -> Prop) :
  context_ s <> 0 -> Q tt (with_memory [] [] s) ({[+ hctx (context_ s) +]}, n) ->
  rwp DestroyIoMemoryLocked Q s (held_of s, n).
Proof.
  intros Hc HQ. unfold DestroyIoMemoryLocked. rewrite held_loaded by done. repeat wstep.
  apply dwp_bind. rewrite (gmultiset_disj_union_comm {[+ _ +]}), <- gmultiset_disj_union_assoc.
  apply destroy_mems_wp; [multiset_solver|]. wstep. apply dwp_bind.
  rewrite (gmultiset_disj_union_comm {[+ _ +]}).
  apply destroy_mems_wp; [multiset_solver|]. by wstep.
Qed.

(** Nothing is left. *)
Definition closed (s : Rknn) : Prop :=
  context_ s = 0 /\ input_memory_ s = [] /\ output_memory_ s = [] /\
  input_attrs_ s = [] /\ output_attrs_ s = [].

Lemma closed_inv s n : closed s -> rknn_inv s (∅, n).
Proof.
  intros (Hc & Hi & Ho & Ha & Hb). unfold rknn_inv, held_of, io_ok. rewrite Hc, Hi, Ho, Ha, Hb. simpl.
  split_and!; try done. destruct n as [[ni no]|]; simpl; [|done]. split_and!; try lia; by left.
Qed.

Lemma rknn_close_wp s g (Q : unit -> Rknn -> RknnGhost -> Prop) : rknn_inv s g ->
  (forall s' n, closed s' -> Q tt s' (∅, n)) -> rwp CloseLocked Q s g.
Proof.
  destruct g as [held n]. intros (Hh & Hio & Hz & _) HQ. simpl in Hh. subst held.
  unfold CloseLocked. wstep. destruct (Z.eqb_spec (context_ s) 0) as [Hc|Hc]; cbn [negb].
  - destruct (Hz Hc) as [Hi Ho]. repeat wstep. unfold held_of. rewrite Hc, Hi, Ho. by apply HQ.
  - apply dwp_bind, destroy_io_wp; [done|]. wcall [] _.
    + unfold rknn_gstep, rknn_guard. simpl. rewrite bool_decide_eq_true_2 by done.
      rewrite <- (right_id_L ∅ (⊎) {[+ hctx (context_ s) +]}).
      rewrite <- (gmultiset_disj_union_right_id ({[+ hctx (context_ s) +]} ⊎ ∅)).
      change ({[+ hctx (context_ s) +]} ⊎ ∅) with (list_to_set_disj [hctx (context_ s)] : Held).
      unfold returning. rewrite account_give; [reflexivity|]. simpl. multiset_solver.
    + wstep. by apply HQ.
Qed.

Definition dims_ok (a : rknn_tensor_attr) : Prop := (at_n_dims a <= RKNN_MAX_DIMS)%nat.

Lemma put_put x l l' s : put_slot x l (put_slot x l' s) = put_slot x l s.
Proof. by destruct x. Qed.
Lemma get_put x l s : get_slot x (put_slot x l s) = l.
Proof. by destruct x. Qed.

Lemma wp_andthen (m k : RknnProg Status) Q s g :
  rwp m (fun st s' g' => if ok st then rwp k Q s' g' else Q st s' g') s g ->
  rwp (andthen m k) Q s g.
Proof.
  intros Hm. unfold andthen. apply dwp_bind. eapply dwp_mono; [|exact Hm].
  intros st s' g'. simpl. destruct (ok st); [done|]. intros HQ. by wstep.
Qed.

(** A call that uses the context of the object. *)
Lemma gstep_ctx c a s n : context_ s <> 0 ->
  rknn_effect (Ev c a) = needing [hctx (context_ s)] -> rknn_guard (Ev c a) (held_of s) = true ->
  rknn_gstep (Ev c a) (held_of s, n) = Some (held_of s, rknn_counts (Ev c a) n).
Proof.
  intros Hc He Hg. eapply gstep_use; [exact He|exact Hg|]. rewrite held_loaded by done.
  simpl. multiset_solver.
Qed.

Lemma RknnStatus_ok r w : ok (RknnStatus r w) = true -> r = RKNN_SUCC.
Proof. unfold RknnStatus. destruct (Z.eqb_spec r RKNN_SUCC); [done|]. by rewrite ok_code. Qed.

Lemma query_attrs_wp cmd count slot s n (Q : Status -> Rknn -> RknnGhost -> Prop) :
  context_ s <> 0 ->
  (forall st l, length l = count -> Forall dims_ok l -> Q st (put_slot slot l s) (held_of s, n)) ->
  rwp (QueryAttrsLocked cmd count slot) Q s (held_of s, n).
Proof.
  intros Hc HQ. unfold QueryAttrsLocked. wstep.
  set (P := fun (_ : list nat) s' (g' : RknnGhost) => exists l, length l = count /\
    Forall dims_ok l /\ s' = put_slot slot l s /\ g' = (held_of s, n)).
  apply dwp_bind, (wp_dfor _ _ _ _ P).
  - exists (repeat (zero_attr 0) count). rewrite repeat_length. split_and!; [done| |done|done].
    apply Forall_forall. intros a ->%list_elem_of_In%repeat_spec. unfold dims_ok. simpl. lia.
  - intros i l' s' g' (l & Hl & Hd & -> & ->). wstep. wcall a Ha.
    { by apply (gstep_ctx _ _ (put_slot slot l s)). }
    repeat wstep. rewrite put_put, get_put.
    assert (exists l2, length l2 = count /\ Forall dims_ok l2 /\ <[i:=a.2]> l = l2) as (l2 & ? & ? & ->).
    { exists (<[i:=a.2]> l). rewrite length_insert. split_and!; [done| |done]. by apply Forall_insert. }
    destruct (ok _) eqn:E; [by exists l2|]. repeat wstep. by apply HQ.
  - intros s' g' (l & Hl & Hd & -> & ->). repeat wstep. by apply HQ.
Qed.

Lemma io_ok_query s n c : io_ok s n -> n = None \/ n = Some c -> io_ok s (Some c).
Proof.
  intros Hio [-> | ->]; [|done]. destruct Hio as [Hi Ho], c. simpl. rewrite Hi, Ho. simpl.
  split_and!; try lia; by left.
Qed.

(** What a complete refresh establishes. *)
Definition fresh (s : Rknn) (c : nat * nat) : Prop :=
  length (input_attrs_ s) = c.1 /\ length (output_descs_ s) = c.2 /\
  length (native_input_attrs_ s) = c.1 /\ length (native_output_attrs_ s) = c.2.

Definition refreshed (s : Rknn) (st : Status) (s' : Rknn) (g' : RknnGhost) : Prop :=
  rknn_inv s' g' /\ context_ s' = context_ s /\
  (ok st = true -> exists c, g'.2 = Some c /\ fresh s' c).

Lemma inv_put_slot x l s held ni no : rknn_inv s (held, Some (ni, no)) -> Forall dims_ok l ->
  (x = SInput -> length l = ni) -> rknn_inv (put_slot x l s) (held, Some (ni, no)).
Proof.
  intros (Hh & (? & ? & Hia & ?) & Hz & Hd) Hl Hx. apply Forall_app in Hd as [Hd1 Hd2].
  split_and!; simpl in *; [done| |done|].
  - split_and!; try done. destruct x; auto.
  - apply Forall_app. destruct x; auto.
Qed.

(** One [QueryAttrsLocked] within a refresh. *)
Lemma query_step cmd count slot s ni no (k : RknnProg Status) Q :
  context_ s <> 0 -> rknn_inv s (held_of s, Some (ni, no)) -> (slot = SInput -> count = ni) ->
  (forall st s', ok st = false -> rknn_inv s' (held_of s', Some (ni, no)) ->
     context_ s' = context_ s -> Q st s' (held_of s', Some (ni, no))) ->
  (forall l, length l = count -> rknn_inv (put_slot slot l s) (held_of s, Some (ni, no)) ->
     rwp k Q (put_slot slot l s) (held_of (put_slot slot l s), Some (ni, no))) ->
  rwp (andthen (QueryAttrsLocked cmd count slot) k) Q s (held_of s, Some (ni, no)).
Proof.
  intros Hc Hi Hcount Hbad Hgood. apply wp_andthen, query_attrs_wp; [done|].
  intros st l Hl Hd.
  assert (rknn_inv (put_slot slot l s) (held_of s, Some (ni, no))) as Hi'.
  { apply inv_put_slot; auto. intros ->. rewrite Hl. auto. }
  destruct (ok st) eqn:E; [by apply Hgood|].
  by apply (Hbad st (put_slot slot l s)).
Qed.

Lemma refreshed_intro s s' held st l1 l2 l3 l4 ni no :
  io_ok s (Some (ni, no)) ->
  length l1 = ni -> length l2 = no -> length l3 = ni -> length l4 = no ->
  Forall (fun a => at_n_dims a <= RKNN_MAX_DIMS)%nat (l1 ++ l2) -> context_ s <> 0 ->
  held = held_of s' -> context_ s' = context_ s ->
  input_memory_ s' = input_memory_ s -> output_memory_ s' = output_memory_ s ->
  input_attrs_ s' = l1 -> output_attrs_ s' = l2 -> native_input_attrs_ s' = l3 ->
  native_output_attrs_ s' = l4 -> output_descs_ s' = map Describe l2 ->
  refreshed s st s' (held, Some (ni, no)).
Proof.
  intros (? & ? & _ & _) Hl1 Hl2 Hl3 Hl4 Hd Hc -> Hcs His Hos Hl1' Hl2' Hl3' Hl4' Hds.
  unfold refreshed, rknn_inv, io_ok, fresh. simpl.
  rewrite His, Hos, Hl1', Hl2', Hl3', Hl4', Hds, length_map, Hl1, Hl2, Hl3, Hl4, Hcs.
  split_and!; auto; [done|]. intros _. by exists (ni, no).
Qed.

Lemma refresh_wp current s g (Q : Status -> Rknn -> RknnGhost -> Prop) :
  rknn_inv s g -> context_ s <> 0 ->
  (forall st s' g', refreshed s st s' g' -> Q st s' g') ->
  rwp (RefreshAttributesLocked current) Q s g.
Proof.
  intros Hi Hc HQ. destruct g as [held n]. pose proof Hi as (Hh & Hio & Hz & Hd).
  simpl in Hh. subst held. unfold RefreshAttributesLocked. wstep.
  wcall a Ha. { by apply gstep_ctx. }
  apply wp_andthen. wstep. destruct (ok (RknnStatus a.1 _)) eqn:E0.
  2:{ apply HQ. simpl. replace (a.1 =? RKNN_SUCC) with false; [split_and!; [done|done|by rewrite E0]|].
      unfold RknnStatus in E0. by destruct (a.1 =? RKNN_SUCC). }
  apply RknnStatus_ok in E0. simpl in Ha. cbn [rknn_counts]. rewrite (proj2 (Z.eqb_eq _ _) E0).
  specialize (io_ok_query s n a.2 Hio (Ha E0)) as Hio'. destruct a as [x [ni no]]. cbn [fst snd] in *.
  assert (rknn_inv s (held_of s, Some (ni, no))) as Hi' by (by split_and!).
  assert (forall st s', ok st = false -> rknn_inv s' (held_of s', Some (ni, no)) ->
     context_ s' = context_ s -> Q st s' (held_of s', Some (ni, no))) as Hbad.
  { intros st s' E Hs' Hcs. apply HQ. split_and!; [done|done|]. by rewrite E. }
  apply query_step; [done|done|done|done|]. intros l1 Hl1 H1.
  apply query_step; [done|done|done|done|]. intros l2 Hl2 H2.
  apply query_step; [done|done|done|done|]. intros l3 Hl3 H3.
  apply query_step; [done|done|done|done|]. intros l4 Hl4 H4.
  destruct H4 as (_ & Hio4 & _ & Hd4). unfold describe_all. apply dwp_bind. repeat wstep.
  cbn [input_attrs_ output_attrs_ put_slot]. cbn [input_attrs_ output_attrs_ put_slot] in Hd4.
  replace (forallb _ _) with true.
  2:{ symmetry. apply forallb_forall. intros y Hy. apply Nat.leb_le.
      rewrite Forall_forall in Hd4. apply Hd4. by apply list_elem_of_In. }
  wstep. wcall v Hv. { by apply (gstep_ctx _ _ (with_descs (map Describe l1) (map Describe l2)
    (put_slot SNativeOutput l4 (put_slot SNativeInput l3 (put_slot SOutput l2 (put_slot SInput l1 s)))))). }
  destruct (ok _); repeat wstep; apply HQ; by apply (refreshed_intro s _ _ _ l1 l2 l3 l4 ni no Hio').
Qed.

(** While memory is allocated: [ri] inputs and [ro] outputs are still to come. *)
Definition allocating (ctx : Z) (c : nat * nat) (ri ro : nat) (s : Rknn) (g : RknnGhost) : Prop :=
  rknn_inv s g /\ context_ s = ctx /\ g.2 = Some c /\ fresh s c /\
  (length (input_memory_ s) + ri <= c.1)%nat /\ (length (output_memory_ s) + ro <= c.2)%nat.

Lemma allocating_push_input ctx c ri ro s g m : ctx <> 0 -> allocating ctx c (S ri) ro s g ->
  allocating ctx c ri ro (push_input m s) ({[+ hmem m +]} ⊎ g.1, g.2).
Proof.
  destruct c as [ni no], g as [held n]. intros Hc ((Hh & Hio & Hz & Hd) & Hcs & Hn & Hf & Hri & Hro).
  simpl in *. subst held n. unfold push_input. unfold fresh in Hf. simpl in Hf.
  unfold allocating, rknn_inv, fresh, io_ok. simpl. rewrite length_app. simpl.
  split_and!; try tauto; try lia; try congruence.
  - rewrite !held_loaded by (simpl; congruence). simpl. unfold mems. rewrite map_app.
    rewrite list_to_set_disj_app. simpl. multiset_solver.
Qed.

Lemma allocating_push_output ctx c ri ro s g m : ctx <> 0 -> allocating ctx c ri (S ro) s g ->
  allocating ctx c ri ro (push_output m s) ({[+ hmem m +]} ⊎ g.1, g.2).
Proof.
  destruct c as [ni no], g as [held n]. intros Hc ((Hh & Hio & Hz & Hd) & Hcs & Hn & Hf & Hri & Hro).
  simpl in *. subst held n. unfold push_output. unfold fresh in Hf. simpl in Hf.
  unfold allocating, rknn_inv, fresh, io_ok. simpl. rewrite length_app. simpl.
  split_and!; try tauto; try lia; try congruence.
  - rewrite !held_loaded by (simpl; congruence). simpl. unfold mems. rewrite map_app.
    rewrite list_to_set_disj_app. simpl. multiset_solver.
Qed.

Lemma allocate_slot_wp push what attrs ctx s g (I : nat -> Rknn -> RknnGhost -> Prop)
    (Q : Status -> Rknn -> RknnGhost -> Prop) :
  ctx <> 0 -> context_ s = ctx -> I (length attrs) s g ->
  (forall k s g, I k s g -> rknn_inv s g /\ context_ s = ctx) ->
  (forall k s g m, I (S k) s g -> I k (push m s) ({[+ hmem m +]} ⊎ g.1, g.2)) ->
  (forall k st s g, I k s g -> (ok st = true -> k = 0%nat) -> Q st s g) ->
  rwp (allocate_slot push what attrs) Q s g.
Proof.
  intros Hne Hctx H0 HI Hpush HQ. unfold allocate_slot. wstep. rewrite Hctx.
  apply dwp_bind, (wp_dfor _ _ _ _ (fun l s' g' => I (length l) s' g')); [done| |].
  - intros attr l s1 [held n] H1. destruct (HI _ _ _ H1) as [(Hh & _) Hcs]. simpl in Hh.
    assert (hctx ctx ∈ held) as Hin.
    { rewrite Hh, held_loaded, Hcs by congruence. multiset_solver. }
    wcall m _.
    { unfold rknn_gstep. simpl. rewrite account_use_take; [reflexivity|]. simpl. multiset_solver. }
    destruct m as [m|]; repeat wstep.
    + pose proof (Hpush _ _ _ m H1) as H2. wcall x _.
      { eapply gstep_use; [reflexivity|reflexivity|]. simpl. multiset_solver. }
      repeat wstep. cbn [rknn_counts].
      assert (list_to_set_disj [hmem m] ⊎ held = {[+ hmem m +]} ⊎ held) as Heq by (simpl; multiset_solver).
      simpl in Heq, H2 |- *. rewrite Heq.
      destruct (ok _) eqn:E; [exact H2|]. wstep. eapply HQ; [exact H2|]. by rewrite E.
    + replace (list_to_set_disj [] ⊎ held) with held by (simpl; multiset_solver).
      eapply HQ; [exact H1|]. by rewrite ok_code.
  - intros s1 g1 H1. wstep. by eapply HQ.
Qed.

Lemma rknn_allocate_wp s g c (Q : Status -> Rknn -> RknnGhost -> Prop) :
  rknn_inv s g -> context_ s <> 0 -> g.2 = Some c -> fresh s c ->
  (forall st s' g', rknn_inv s' g' -> Q st s' g') -> rwp AllocateIoMemoryLocked Q s g.
Proof.
  destruct g as [held n], c as [ni no]. intros Hi Hc Hn Hf HQ. pose proof Hi as (Hh & Hio & Hz & Hd).
  simpl in Hh, Hn. subst held n. unfold AllocateIoMemoryLocked. apply dwp_bind, destroy_io_wp; [done|]. wstep.
  pose proof Hf as (Hf1 & Hf2 & Hf3 & Hf4). simpl in *. apply wp_andthen.
  eapply (allocate_slot_wp _ _ _ (context_ s) _ _ (fun k => allocating (context_ s) (ni, no) k no));
    [done|done| |by intros ??? (? & ? & _)|by intros; apply allocating_push_input|].
  - unfold allocating, rknn_inv, fresh, io_ok. simpl. rewrite held_loaded by done. simpl. unfold mems. simpl.
    split_and!; auto; try lia; try multiset_solver.
  - intros k st s1 g1 H1 Hk. destruct (ok st) eqn:E; [|apply HQ, H1]. rewrite (Hk eq_refl) in H1. wstep.
    pose proof H1 as (_ & Hcs & _ & (_ & _ & _ & Hno) & _). simpl in Hno.
    eapply (allocate_slot_wp _ _ _ (context_ s) _ _ (fun k => allocating (context_ s) (ni, no) 0 k));
      [done|done| |by intros ??? (? & ? & _)|by intros; apply allocating_push_output|].
    + by rewrite Hno.
    + intros k' st' s2 g2 H2 _. apply HQ, H2.
Qed.

Lemma wp_or_close (m k : RknnProg Status) (Q : Status -> Rknn -> RknnGhost -> Prop) s g :
  (forall st s' n, closed s' -> Q st s' (∅, n)) ->
  rwp m (fun st s' g' => if ok st then rwp k Q s' g' else rknn_inv s' g') s g ->
  rwp (or_close m k) Q s g.
Proof.
  intros HQ Hm. unfold or_close. apply dwp_bind. eapply dwp_mono; [|exact Hm].
  intros st s' g'. simpl. destruct (ok st); [done|]. intros Hi.
  apply dwp_bind, rknn_close_wp; [done|]. intros s2 n2 H2. wstep. by apply HQ.
Qed.

Lemma refresh_allocate_wp current s g (Q : Status -> Rknn -> RknnGhost -> Prop) :
  rknn_inv s g -> context_ s <> 0 -> (forall st s' g', rknn_inv s' g' -> Q st s' g') ->
  rwp (andthen (RefreshAttributesLocked current) AllocateIoMemoryLocked) Q s g.
Proof.
  intros Hi Hc HQ. apply wp_andthen, refresh_wp; [done|done|].
  intros st s1 g1 (Hi1 & Hc1 & Hf1). destruct (ok st) eqn:E; [|by apply HQ].
  destruct (Hf1 eq_refl) as (c & Hn & Hf). eapply rknn_allocate_wp; eauto. congruence.
Qed.

Lemma gstep_init len a held n : rknn_gstep (Ev (rknn_init len) a) (held, n) =
  Some ((if a.1 =? RKNN_SUCC then {[+ hctx a.2 +]} else ∅) ⊎ held, None).
Proof.
  unfold rknn_gstep. simpl. destruct (_ =? _); [rewrite account_take|rewrite account_none]; simpl;
    do 2 f_equal; multiset_solver.
Qed.

Lemma load_wp config s g (Q : Status -> Rknn -> RknnGhost -> Prop) :
  rknn_inv s g -> (forall st s' g', rknn_inv s' g' -> Q st s' g') -> rwp (LoadModel config) Q s g.
Proof.
  intros Hi HQ. unfold LoadModel. apply dwp_bind, rknn_close_wp; [done|]. clear s g Hi. intros s n Hcl.
  assert (forall st s' n, closed s' -> Q st s' (∅, n)) as HQc by (intros; by apply HQ, closed_inv).
  case_bool_decide; [wstep; by apply HQc|].
  destruct (mc_zero_copy config); [wstep; by apply HQc|].
  destruct (mc_cache_tensor_memory config); cbn [negb]; [|wstep; by apply HQc].
  wcall l _. { by apply gstep_none. }
  destruct l as [len|]; [|wstep; by apply HQc].
  destruct (_ || _); [wstep; by apply HQc|]. wstep.
  wcall good _. { by apply gstep_none. }
  destruct good; cbn [negb]; repeat wstep; [|by apply HQc].
  apply wp_or_close; [done|]. wcall a Ha.
  { apply gstep_init. }
  repeat wstep. destruct Hcl as (Hc & Hi & Ho & Hia & Hoa). cbn [rknn_allowed] in Ha.
  unfold RknnStatus at 1. destruct (Z.eqb_spec a.1 RKNN_SUCC) as [E|E].
  2:{ cbn [fst]. rewrite gmultiset_disj_union_left_id. apply closed_inv. split_and!; simpl; try done.
      destruct (decide (a.2 = 0)); [done|]. tauto. }
  apply Ha in E. cbn [ok]. change (ok Ok) with true. cbn iota.
  set (s1 := with_context a.2 _).
  assert (rknn_inv s1 (held_of s1, None)) as Hinv.
  { unfold rknn_inv, io_ok. simpl. rewrite Hi, Ho, Hia, Hoa. done. }
  replace ({[+ hctx a.2 +]} ⊎ ∅) with (held_of s1)
    by (rewrite held_loaded by done; simpl; rewrite Hi, Ho; unfold mems; simpl; multiset_solver).
  apply wp_or_close; [done|]. wstep. wcall x _. { by apply gstep_ctx. }
  wstep. destruct (ok (RknnStatus x _)); [|done]. wstep.
  apply wp_or_close; [done|]. apply refresh_allocate_wp; [done|done|].
  intros st s' g' Hi'. destruct (ok st); [|done]. wstep. by apply HQ.
Qed.

Lemma shape_wp shapes s g (Q : Status -> Rknn -> RknnGhost -> Prop) :
  rknn_inv s g -> (forall st s' g', rknn_inv s' g' -> Q st s' g') ->
  rwp (SetDynamicShape shapes) Q s g.
Proof.
  intros Hi HQ. unfold SetDynamicShape. wstep.
  destruct (Z.eqb_spec (context_ s) 0) as [Hc|Hc]; [wstep; by apply HQ|]. wstep.
  destruct (negb _); [wstep; by apply HQ|].
  destruct (shape_attrs _ _) as [attrs|e]; [|wstep; by apply HQ].
  destruct g as [held n]. pose proof Hi as (Hh & _). simpl in Hh. subst held.
  apply wp_andthen. wcall x _. { by apply gstep_ctx. }
  wstep. destruct (ok _); [|by apply HQ]. by apply refresh_allocate_wp.
Qed.

(** Only contexts and memories are held between operations. *)
Lemma held_kind s h : h ∈ held_of s -> h.1 = "context" \/ h.1 = "memory".
Proof.
  unfold held_of. rewrite !gmultiset_elem_of_disj_union, !elem_of_list_to_set_disj.
  rewrite !list_elem_of_fmap. destruct (_ =? _).
  - rewrite elem_of_nil. intros [[[]|(m & -> & _)]|(m & -> & _)]; by right.
  - rewrite list_elem_of_singleton. intros [[->|(m & -> & _)]|(m & -> & _)]; [by left|by right..].
Qed.

Lemma hmap_free b s : hmap b ∉ held_of s.
Proof. intros [H|H]%held_kind; done. Qed.

(** The calls on a buffer. *)
Lemma gstep_begin b m st (held : Held) n :
  rknn_gstep (Ev (RBuf (BufBegin b m)) st) (held, n) =
  Some (if ok st then {[+ hcpu b +]} ⊎ held else held, n).
Proof. unfold rknn_gstep. cbn [rknn_guard rknn_effect fst snd]. by rewrite account_begin. Qed.
Lemma gstep_map b m x (held : Held) n :
  rknn_gstep (Ev (RBuf (BufMap b m)) x) ({[+ hcpu b +]} ⊎ held, n) =
  Some (if (x : bool) then {[+ hmap b +]} ⊎ ({[+ hcpu b +]} ⊎ held) else {[+ hcpu b +]} ⊎ held, n).
Proof. unfold rknn_gstep. cbn [rknn_guard rknn_effect fst snd]. by rewrite account_map. Qed.
Lemma gstep_unmap b x (held : Held) n :
  rknn_gstep (Ev (RBuf (BufUnmap b)) x) ({[+ hmap b +]} ⊎ held, n) = Some (held, n).
Proof. unfold rknn_gstep. cbn [rknn_guard rknn_effect fst snd]. by rewrite account_unmap. Qed.
Lemma gstep_unmap_none b x (held : Held) n : hmap b ∉ held ->
  rknn_gstep (Ev (RBuf (BufUnmap b)) x) (held, n) = Some (held, n).
Proof. intros Hh. unfold rknn_gstep. cbn [rknn_guard rknn_effect fst snd]. by rewrite account_unmap_none. Qed.
Lemma gstep_end b m x (held : Held) n :
  rknn_gstep (Ev (RBuf (BufEnd b m)) x) ({[+ hcpu b +]} ⊎ held, n) = Some (held, n).
Proof. unfold rknn_gstep. cbn [rknn_guard rknn_effect fst snd]. by rewrite account_end. Qed.

Lemma buf_wait_wp b s held n (Q : Status -> Rknn -> RknnGhost -> Prop) :
  (forall st, Q st s (held, n)) -> rwp (buf_wait b) Q s (held, n).
Proof.
  intros HQ. unfold buf_wait. wcall f _. { by apply gstep_none. }
  destruct f; [|by wstep]. wcall st _; [by apply gstep_none|]. apply HQ.
Qed.

Lemma mem_held s m : context_ s <> 0 -> m ∈ input_memory_ s \/ m ∈ output_memory_ s ->
  list_to_set_disj [hctx (context_ s); hmem m] ⊆ held_of s.
Proof.
  intros Hc Hm. rewrite held_loaded by done.
  assert (hmem m ∈ mems (input_memory_ s) ⊎ mems (output_memory_ s)) as Hin.
  { unfold mems. rewrite gmultiset_elem_of_disj_union, !elem_of_list_to_set_disj.
    destruct Hm as [Hm|Hm]; [left|right]; by apply (list_elem_of_fmap_2 hmem). }
  revert Hin. generalize (mems (input_memory_ s)), (mems (output_memory_ s)).
  intros X Y Hin. simpl. multiset_solver.
Qed.

Lemma infer_input_wp i t s n (Q : option Status -> Rknn -> RknnGhost -> Prop) :
  context_ s <> 0 -> (i < length (input_memory_ s))%nat ->
  (length (input_memory_ s) <= length (input_attrs_ s))%nat ->
  (forall r, Q r s (held_of s, n)) -> rwp (infer_input (i, t)) Q s (held_of s, n).
Proof.
  intros Hc Hi Hle HQ. unfold infer_input. destruct (t_buffer t) as [b|]; [|wstep; apply HQ]. repeat wstep.
  destruct (lookup_lt_is_Some_2 (input_attrs_ s) i ltac:(lia)) as [attr Ha]. rewrite Ha.
  destruct (lookup_lt_is_Some_2 (input_memory_ s) i Hi) as [mem Hm]. rewrite Hm.
  pose proof (list_elem_of_lookup_2 _ _ _ Hm) as Hin.
  destruct (_ || _) eqn:Esz; [wstep; apply HQ|]. apply orb_false_iff in Esz as [E1 E2].
  apply dwp_bind, buf_wait_wp. intros st. destruct (negb _); [wstep; apply HQ|].
  wcall st1 _. { apply gstep_begin. } destruct (ok st1); cbn [negb]; [|wstep; apply HQ].
  wcall src _. { apply gstep_map. }
  destruct (negb src || negb (mem_virt_addr mem)) eqn:Emap.
  - wcall [] _. { destruct src; [apply gstep_unmap|apply gstep_unmap_none].
      all: pose proof (hmap_free b s); multiset_solver. }
    wcall st2 _. { apply gstep_end. } wstep. apply HQ.
  - destruct src; [|done]. cbn iota.
    wcall [] _.
    { eapply gstep_use; [reflexivity| |].
      - unfold rknn_guard. simpl. apply andb_true_iff. split; lia.
      - pose proof (mem_held s mem Hc (or_introl Hin)) as Hmh. simpl in *.
        revert Hmh. generalize (held_of s). intros X Hmh. multiset_solver. }
    wcall [] _. { apply gstep_unmap. } wcall st2 _. { apply gstep_end. }
    destruct (ok st2); cbn [negb]; [|wstep; apply HQ]. wstep.
    wcall x _. { eapply gstep_use; [reflexivity|reflexivity|]. apply mem_held; auto. }
    wstep. apply HQ.
Qed.

Lemma infer_outputs_wp i ms acc s n (Q : Res TensorSet -> Rknn -> RknnGhost -> Prop) :
  context_ s <> 0 -> (i + length ms <= length (output_descs_ s))%nat ->
  Forall (fun m => m ∈ output_memory_ s) ms ->
  (forall r, Q r s (held_of s, n)) -> rwp (infer_outputs i ms acc) Q s (held_of s, n).
Proof.
  intros Hc. revert i acc. induction ms as [|m ms IH]; intros i acc Hle Hms HQ; cbn [infer_outputs].
  { wstep. apply HQ. }
  apply Forall_cons in Hms as [Hm Hms]. simpl in Hle. wstep.
  wcall x _. { eapply gstep_use; [reflexivity|reflexivity|]. apply mem_held; auto. }
  destruct (negb (ok _)); [wstep; apply HQ|]. wstep.
  destruct (lookup_lt_is_Some_2 (output_descs_ s) i ltac:(lia)) as [d Hd]. rewrite Hd.
  destruct (negb _ || _) eqn:Esz; [wstep; apply HQ|]. apply orb_false_iff in Esz as [_ E].
  wcall b _.
  { eapply gstep_use; [reflexivity| |].
    - unfold rknn_guard. simpl. lia.
    - pose proof (mem_held s m Hc (or_intror Hm)) as Hmh. simpl in *.
      revert Hmh. generalize (held_of s). intros X Hmh. multiset_solver. }
  apply IH; [lia|done|done].
Qed.

Lemma infer_wp tensors s g (Q : Res TensorSet -> Rknn -> RknnGhost -> Prop) :
  rknn_inv s g -> (forall r, Q r s g) -> rwp (Infer tensors) Q s g.
Proof.
  intros Hi HQ. destruct g as [held n]. pose proof Hi as (Hh & Hio & _). simpl in Hh, Hio. subst held.
  unfold Infer, loaded. wstep. destruct (Z.eqb_spec (context_ s) 0) as [Hc|Hc]; [wstep; apply HQ|]. wstep.
  destruct (Nat.eqb_spec (length tensors) (length (input_memory_ s))) as [Hlen|]; cbn [negb];
    [|wstep; apply HQ].
  assert ((length (input_memory_ s) <= length (input_attrs_ s))%nat /\
          (length (output_memory_ s) <= length (output_descs_ s))%nat) as [Hli Hlo].
  { destruct n as [[ni no]|]; simpl in Hio.
    - destruct Hio as (? & ? & [Hi0|?] & [Ho0|?]); rewrite ?Hi0, ?Ho0; simpl; lia.
    - destruct Hio as [-> ->]. simpl. lia. }
  apply dwp_bind, (wp_dfor _ _ _ _ (fun l s' g' => s' = s /\ g' = (held_of s, n) /\
    Forall (fun it => it.1 < length (input_memory_ s))%nat l)).
  - split_and!; [done|done|]. apply Forall_lookup. intros k [i t].
    rewrite list_lookup_imap, fmap_Some. intros (x & Hx & [= -> ->]). simpl.
    apply lookup_lt_Some in Hx. lia.
  - intros [i t] l s' g' (-> & -> & [Hlt Hl]%Forall_cons). apply infer_input_wp; [done|done|done|].
    intros [st|]; [wstep; apply HQ|done].
  - intros s' g' (-> & -> & _). wstep. wcall x _. { by apply gstep_ctx. }
    destruct (negb (ok _)); [wstep; apply HQ|]. wstep.
    apply infer_outputs_wp; [done|simpl; lia| |done]. apply Forall_forall. done.
Qed.

(** ** The object over its life *)

Inductive RknnOp :=
| OpLoadModel (config : RknnModelConfig)
| OpQueryInputs
| OpQueryOutputs
| OpSetDynamicShape (shapes : list (list Z))
| OpInfer (inputs : TensorSet)
| OpQueryPerformance
| OpClose.

Definition rknn_op (op : RknnOp) : RknnProg unit :=
  match op with
  | OpLoadModel config => LoadModel config;~ DRet tt
  | OpQueryInputs => QueryInputs;~ DRet tt
  | OpQueryOutputs => QueryOutputs;~ DRet tt
  | OpSetDynamicShape shapes => SetDynamicShape shapes;~ DRet tt
  | OpInfer inputs => Infer inputs;~ DRet tt
  | OpQueryPerformance => QueryPerformance;~ DRet tt
  | OpClose => Close
  end.

Lemma rknn_op_wp op s g : rknn_inv s g ->
  rwp (rknn_op op) (fun _ s' g' => rknn_inv s' g' /\ (op = OpClose -> context_ s' = 0)) s g.
Proof.
  intros Hi. destruct op; cbn [rknn_op].
  - apply dwp_bind, load_wp; [done|]. intros. by wstep.
  - apply dwp_bind. unfold QueryInputs, loaded. wstep. destruct (_ =? _); by repeat wstep.
  - apply dwp_bind. unfold QueryOutputs, loaded. wstep. destruct (_ =? _); by repeat wstep.
  - apply dwp_bind, shape_wp; [done|]. intros. by wstep.
  - apply dwp_bind, infer_wp; [done|]. intros. by wstep.
  - apply dwp_bind. unfold QueryPerformance, loaded. wstep.
    destruct (Z.eqb_spec (context_ s) 0) as [Hc|Hc]; [by repeat wstep|]. wstep.
    destruct g as [held n]. pose proof Hi as (Hh & _). simpl in Hh. subst held.
    wcall p _. { by apply gstep_ctx. } destruct (negb _); by repeat wstep.
  - apply rknn_close_wp; [done|]. intros s' n Hcl. split; [by apply closed_inv|]. intros _. apply Hcl.
Qed.

Lemma rknn_ops_wp ops s g : rknn_inv s g ->
  rwp (deach ops rknn_op)
    (fun _ s' g' => rknn_inv s' g' /\ (last ops = Some OpClose -> context_ s' = 0)) s g.
Proof.
  revert s g. induction ops as [|op ops IH]; intros s g Hi; cbn [deach]; [by wstep|].
  eapply dwp_seq; [by apply rknn_op_wp|]. intros [] s1 g1 [Hi1 Hcl].
  destruct ops as [|op' ops]; [|by apply IH]. cbn [deach]. wstep. split; [done|]. intros [= ->]. auto.
Qed.
End safety.

(** C15: The RKNN backend is safe in its use of the runtime.  Take any sequence of its
    operations on a fresh object and any runtime that keeps to its documentation (a context is
    not 0 and is written on success only, attributes have at most the documented number of
    dimensions, the number of tensors of a model is fixed), with arbitrary failures otherwise:
    no vector is indexed out of range, no context or tensor memory is used, synchronised or
    destroyed unless it is alive, a context is destroyed after everything that belongs to it,
    every copy stays within both memories, and each CPU access and mapping of an input buffer is
    ended.  What is alive at the end is exactly what the object refers to, and nothing is after
    [Close]. *)
Theorem rknn_backend_safe {E} {KC : RknnConstants} {BH : BufferHeap} (dev : Device RknnAns E) e ops :
  let '(r, s, e', evs) := drun dev (deach ops rknn_op) new_rknn e in
  documented rknn_gstep rknn_allowed evs (∅, None) ->
  r = Some tt /\
  (exists n, gsteps rknn_gstep evs (∅, None) = Some (held_of s, n)) /\
  (last ops = Some OpClose -> held_of s = ∅).
Proof.
  destruct (drun dev (deach ops rknn_op) new_rknn e) as [[[r s] e'] evs] eqn:Er. intros Hd.
  assert (rknn_inv new_rknn (∅, None)) as H0 by (by apply closed_inv).
  destruct (wp_sound _ _ _ _ _ _ _ _ _ _ _ _ (rknn_ops_wp ops _ _ H0) Er Hd)
    as ([] & [held n] & -> & Hg & (Hh & Hio & Hz & _) & Hcl). simpl in Hh. subst held.
  split_and!; [done|by exists n|]. intros Hl. specialize (Hcl Hl). destruct (Hz Hcl) as [Hi Ho].
  unfold held_of. by rewrite Hcl, Hi, Ho.
Qed.

(** A runtime with one model of one input and one output; every call succeeds. *)
#[local] Instance demo_constants : RknnConstants := {| RKNN_SUCC := 0; RKNN_MAX_DIMS := 16 |}.
#[local] Instance demo_heap : BufferHeap := {| buf_size := fun _ => 4; buf_planes := fun _ => [] |}.

Definition demo_attr : rknn_tensor_attr :=
  mkAttr 0 1 [4] "tensor" 4 RKNN_TENSOR_NHWC RKNN_TENSOR_UINT8 RKNN_TENSOR_QNT_NONE 0 0
    float_one 0 4.

Definition demo_runtime : Device RknnAns Z := fun c n =>
  (match c return RknnAns c with
   | FileLength _ => Some 10
   | FileRead _ _ => true
   | rknn_init _ => (0, 7)
   | rknn_query_in_out_num _ => (0, (1%nat, 1%nat))
   | rknn_query_attr _ _ _ => (0, demo_attr)
   | rknn_query_sdk_version _ => (0, ("2", "0.9"))
   | rknn_query_perf_run _ => (0, 100)
   | rknn_create_mem _ size => Some (mkMem n size true)
   | rknn_destroy_mem _ _ | rknn_destroy _ | CopyIn _ _ _ => tt
   | CopyOut _ _ => n
   | RBuf (BufFence _) => false
   | RBuf (BufFenceWait _) | RBuf (BufBegin _ _) | RBuf (BufEnd _ _) => Ok
   | RBuf (BufMap _ _) => true
   | RBuf (BufUnmap _) => tt
   | RBuf (BufNewHost _) => n
   | _ => 0
   end, n + 1).

Definition demo_ops : list RknnOp :=
  [OpLoadModel (mkModelConfig "model.rknn" kAuto false true);
   OpInfer [mkTensor (Describe demo_attr) (Some 5)]; OpQueryPerformance].

Lemma rknn_backend_safe_witness :
  let '(r, s, _, evs) := drun demo_runtime (deach demo_ops rknn_op) new_rknn 1 in
  r = Some tt /\ context_ s = 7 /\ length (input_memory_ s) = 1%nat /\ length evs = 25%nat /\
  exists n, gsteps rknn_gstep evs (∅, None) = Some (held_of s, n).
Proof.
  pose proof (rknn_backend_safe demo_runtime 1 demo_ops) as H.
  destruct (drun demo_runtime (deach demo_ops rknn_op) new_rknn 1) as [[[r s] e'] evs] eqn:Er.
  assert (documented rknn_gstep rknn_allowed evs (∅, None)) as Hd.
  { eapply (documented_run _ _ demo_runtime
      (fun _ (g : Held * option (nat * nat)) => g.2 = None \/ g.2 = Some (1%nat, 1%nat)));
      [|by left|exact Er].
    intros c n [held k] Hk. split.
    - destruct c; simpl; try done; try (split; lia); try lia.
    - intros g'. unfold rknn_gstep. destruct (rknn_guard _ _); [|done].
      destruct (account _ _); [|done]. intros [= <-]. destruct c; simpl; auto. }
  destruct (H Hd) as (-> & Hg & _).
  assert (s = (drun demo_runtime (deach demo_ops rknn_op) new_rknn 1).1.1.2 /\
          evs = (drun demo_runtime (deach demo_ops rknn_op) new_rknn 1).2) as [Hs He]
    by (rewrite Er; split; reflexivity).
  split_and!; [done|rewrite Hs; vm_compute; reflexivity|rewrite Hs; vm_compute; reflexivity
              |rewrite He; vm_compute; reflexivity|exact Hg].
Defined.

(** A change of shape that fails half way leaves the model loaded with the
    attributes cleared: the next inference succeeds, copies no byte of its input and
    runs on what the device memory happens to hold. *)
Definition flaky_runtime : Device RknnAns Z := fun c n =>
  match c return RknnAns c * Z with
  | rknn_query_attr ctx RKNN_QUERY_CURRENT_INPUT_ATTR i => ((-1, zero_attr i), n + 1)
  | c => demo_runtime c n
  end.

Definition copied (evs : list (devent RknnAns)) : list Z :=
  omap (fun ev => match ev_cmd ev with CopyIn _ _ n => Some n | _ => None end) evs.

Example failed_shape_infers_nothing :
  let '(r, _, _, evs) := drun flaky_runtime
    (LoadModel (mkModelConfig "model.rknn" kAuto false true);~
     st <~ SetDynamicShape [[2]];
     out <~ Infer [mkTensor (Describe demo_attr) (Some 5)];
     DRet (ok st, match out with Okay _ => true | Err _ => false end)) new_rknn 1 in
  r = Some (false, true) /\ copied evs = [0].
Proof. vm_compute. split; reflexivity. Qed.
