(* ===== verification/ModuleNodes.v ===== *)
(** * The nodes of the modules

    [src/modules/rockchip/nodes.cpp], [src/modules/streaming/nodes.cpp],
    [src/modules/opencl/nodes.cpp]: the node classes around a hardware or network
    backend.  A class is written against the record of operations of its backend
    ([Backends]), whatever its state [B] is; the nodes with a capture thread are in
    [CaptureNodes].

    The loop that empties a codec runs until the codec has nothing more; it takes
    fuel, and [drain_terminates] shows how much is enough. *)

From S2P Require Import Prelude Status Timestamp Values Buffer Contract Node Registry BuiltinNodes Device Backends.
From Stdlib Require Import SpecFloat.
From stdpp Require Import pretty.
Local Open Scope rkavp_scope.
Local Open Scope Z_scope.

(** ** Options *)

(** A configuration in progress: the status so far and the fields so far. *)
Definition Configuring (C : Type) : Type := Status * C.

(** [if (status.ok()) status = f(...)] *)
Definition then_ {C} (f : C -> Configuring C) (x : Configuring C) : Configuring C :=
  if ok x.1 then f x.2 else x.
(** [if (status.ok() && FindOption(options, key) != nullptr) status = f(...)] *)
Definition then_if_present {C} (o : NodeOptions) (key : string) (f : C -> Configuring C)
    (x : Configuring C) : Configuring C :=
  if ok x.1 && bool_decide (is_Some (FindOption o key)) then f x.2 else x.
(** [if (FindOption(options, key) != nullptr) status = f(...)]: the status so far
    is lost. *)
Definition if_present {C} (o : NodeOptions) (key : string) (f : C -> Configuring C)
    (x : Configuring C) : Configuring C :=
  if bool_decide (is_Some (FindOption o key)) then f x.2 else x.

(** An option that is written to a field when it is read. *)
Definition store_option {C A} (r : Res A) (set : A -> C -> C) (c : C) : Configuring C :=
  match r with Okay v => (Ok, set v c) | Err e => (e, c) end.

(* [src/modules/rockchip/nodes.cpp:12-20] PositiveInteger *)
Definition PositiveInteger (o : NodeOptions) (key : string) : Res Z :=
  match GetIntegerOption o key with
  | Err e => Err e
  | Okay v => if (v <=? 0) || (2147483647 <? v)
              then Err (Invalid ("option must be a positive integer: " +:+ key)) else Okay v
  end.

(* [src/modules/rockchip/nodes.cpp:22-25] OptionalPositiveInteger *)
Definition OptionalPositiveInteger {C} (o : NodeOptions) (key : string) (set : Z -> C -> C) (c : C)
  : Configuring C :=
  match FindOption o key with
  | None => (Ok, c)
  | Some _ => store_option (PositiveInteger o key) set c
  end.

(* [src/modules/rockchip/nodes.cpp:27-36] OptionalPositiveDuration *)
Definition OptionalPositiveDuration {C} (o : NodeOptions) (key : string) (set : Z -> C -> C) (c : C)
  : Configuring C :=
  match FindOption o key with
  | None => (Ok, c)
  | Some _ =>
      match GetIntegerOption o key with
      | Err e => (e, c)
      | Okay v => if v <=? 0 then (Invalid ("option must be positive: " +:+ key), c)
                  else (Ok, set v c)
      end
  end.

(** ** Nodes with a backend *)

(** The private part of a node: its backend and its configuration. *)
Record Hosted (B C : Type) := mkHosted { backend_ : B; config_ : C }.
Arguments mkHosted {B C} _ _.
Arguments backend_ {B C} _.
Arguments config_ {B C} _.

Section hosted.
Context {B C : Type}.

(** [OnConfigure] that fills the configuration. *)
Definition configure (f : C -> Configuring C) : NodeM (Hosted B C) Status :=
  nlocal (fun s => let '(st, c) := f (config_ s) in (st, mkHosted (backend_ s) c)).
(** A call of the backend. *)
Definition on_backend {A} (f : B -> A * B) : NodeM (Hosted B C) A :=
  nlocal (fun s => let '(a, b) := f (backend_ s) in (a, mkHosted b (config_ s))).
Definition on_backend_unit (f : B -> B) : NodeM (Hosted B C) unit :=
  on_backend (fun b => (tt, f b)).
(** [backend_->Open(config_)] *)
Definition open_backend (f : C -> B -> Status * B) : NodeM (Hosted B C) Status :=
  nlocal (fun s => let '(a, b) := f (config_ s) (backend_ s) in (a, mkHosted b (config_ s))).
(** [backend_->Close(); return Status::Ok();] *)
Definition close_backend (f : B -> B) : NodeM (Hosted B C) Status := on_backend_unit f;;; NRet Ok.
End hosted.

Definition video_port (memory : list MemoryType) (name : string) : PortSpec :=
  mkPort name (mkCaps kVideo "" 0 0 0 0 memory []) true.
Definition kind_port (k : MediaKind) (name : string) : PortSpec :=
  mkPort name (mkCaps k "" 0 0 0 0 [] []) true.

(** ** Codecs *)

(** The loop that both codecs share: [receive] is the backend's [Receive], [late] the
    status of a drain that takes too long, [packet] the packet of a result and [whole]
    whether the result has a buffer.  [None] is out of fuel. *)
Section codec.
Context {B C A : Type}.
Context (receive : B -> Received A * B) (port late : string).
Context (whole : A -> bool) (packet : A -> Packet).

(* [src/modules/rockchip/nodes.cpp:94-113] MppDecoderNode::EmitAvailable (loop) *)
Fixpoint emit_loop (fuel : nat) (draining : bool) (deadline : Z) (c : NodeContext)
  : NodeM (Hosted B C) (option Status) :=
  match fuel with
  | O => NRet None
  | S fuel =>
      r <-- on_backend receive;
      if bool_decide (code (rc_status r) = kUnavailable) then
        if negb draining then NRet (Some Ok)
        else
          expired <-- ntimed (fun now s => (deadline <=? now, s));
          if (expired : bool) then NRet (Some (Unavailable late))
          else emit_loop fuel draining deadline c
      else if negb (ok (rc_status r)) then NRet (Some (rc_status r))
      else
        st <-- (if whole (rc_value r) || negb (rc_eos r)
                then Emit c port (packet (rc_value r)) else NRet Ok);
        if negb (ok st) then NRet (Some st)
        else if rc_eos r then NRet (Some Ok)
        else emit_loop fuel draining deadline c
  end.

(** [EmitAvailable]: the clock is in microseconds. *)
Definition emit_available (fuel : nat) (timeout_ms : C -> Z) (draining : bool) (c : NodeContext)
  : NodeM (Hosted B C) (option Status) :=
  deadline <-- ntimed (fun now s => (now + timeout_ms (config_ s) * 1000, s));
  emit_loop fuel draining deadline c.
End codec.

(** The status of a loop that ran out of fuel, which no run with enough fuel
    returns. *)
Definition out_of_fuel : Status := Internal "out of fuel".
Definition fueled {NS} (m : NodeM NS (option Status)) : NodeM NS Status :=
  r <-- m; NRet (match r with Some st => st | None => out_of_fuel end).

Section mpp_decoder.
Context {B : Type} (backend : IMppDecoderBackend B) (fuel : nat).
Abbreviation Dec := (Hosted B MppDecoderConfig).

Definition dset_codec v c := mkDecoderConfig v (dc_width c) (dc_height c) (dc_buffer_count c)
  (dc_external_buffer_group c) (dc_drain_timeout_ms c).
Definition dset_width v c := mkDecoderConfig (dc_codec c) v (dc_height c) (dc_buffer_count c)
  (dc_external_buffer_group c) (dc_drain_timeout_ms c).
Definition dset_height v c := mkDecoderConfig (dc_codec c) (dc_width c) v (dc_buffer_count c)
  (dc_external_buffer_group c) (dc_drain_timeout_ms c).
Definition dset_buffers v c := mkDecoderConfig (dc_codec c) (dc_width c) (dc_height c) v
  (dc_external_buffer_group c) (dc_drain_timeout_ms c).
Definition dset_external v c := mkDecoderConfig (dc_codec c) (dc_width c) (dc_height c)
  (dc_buffer_count c) v (dc_drain_timeout_ms c).
Definition dset_drain v c := mkDecoderConfig (dc_codec c) (dc_width c) (dc_height c)
  (dc_buffer_count c) (dc_external_buffer_group c) v.

(* [src/modules/rockchip/nodes.cpp:53-69] MppDecoderNode::OnConfigure *)
Definition DecoderOnConfigure (o : NodeOptions) (c : MppDecoderConfig) : Configuring MppDecoderConfig :=
  then_ (OptionalPositiveDuration o "drain_timeout_ms" dset_drain)
  (then_if_present o "external_buffer_group"
     (store_option (GetBoolOption o "external_buffer_group") dset_external)
  (then_if_present o "buffer_count"
     (fun c => match PositiveInteger o "buffer_count" with
               | Okay v => (Ok, dset_buffers v c)
               | Err e => (e, dset_buffers 0 c)
               end)
  (then_ (OptionalPositiveInteger o "height" dset_height)
  (then_ (OptionalPositiveInteger o "width" dset_width)
  (store_option (GetStringOption o "codec") dset_codec c))))).

(* [src/modules/rockchip/nodes.cpp:91-114] MppDecoderNode::EmitAvailable *)
Definition DecoderEmitAvailable (draining : bool) (c : NodeContext) : NodeM Dec Status :=
  fueled (emit_available (dec_Receive backend) "frame" "MPP decoder drain timed out"
    (fun f => bool_decide (is_Some (vf_buffer f))) (fun f => Make (PlVideo f) (vf_pts f))
    fuel dc_drain_timeout_ms draining c).

(* [src/modules/rockchip/nodes.cpp:71-84] MppDecoderNode::OnProcess *)
Definition DecoderOnProcess (c : NodeContext) : NodeM Dec Status :=
  match Input c "packet" with
  | None => NRet (Invalid "MppDecoder requires packet input")
  | Some p =>
      if bool_decide (event p = kEndOfStream) then
        st <-- on_backend (dec_Drain backend);
        if negb (ok st) then NRet st else
        st <-- DecoderEmitAvailable true c;
        if negb (ok st) then NRet st else
        Emit c "frame" (Event kEndOfStream Done)
      else match data p with
           | PlEncoded e =>
               st <-- on_backend (dec_Submit backend e);
               if ok st then DecoderEmitAvailable false c else NRet st
           | _ => NRet (Invalid "MppDecoder expects EncodedPacket")
           end
  end.

(* [src/modules/rockchip/nodes.cpp:38-117] MppDecoderNode *)
Definition MppDecoderNode : NodeClass Dec :=
  mkNodeClass
    (mkContract [kind_port kEncodedVideo "packet"] [video_port [kMpp; kDmaBuf] "frame"] ["codec"]
       kAny "")
    kSerial (fun o => configure (DecoderOnConfigure o)) (open_backend (dec_Open backend))
    (fun _ => NRet Ok) DecoderOnProcess (NRet tt) (NRet Ok) (close_backend (dec_Close backend)).
End mpp_decoder.

Section mpp_encoder.
Context {B : Type} (backend : IMppEncoderBackend B) (fuel : nat).
Abbreviation Enc := (Hosted B MppEncoderConfig).

Definition eset_codec v c := mkEncoderConfig v (ec_width c) (ec_height c) (ec_fps c) (ec_bitrate c)
  (ec_gop c) (ec_profile c) (ec_rate_control c) (ec_drain_timeout_ms c).
Definition eset_width v c := mkEncoderConfig (ec_codec c) v (ec_height c) (ec_fps c) (ec_bitrate c)
  (ec_gop c) (ec_profile c) (ec_rate_control c) (ec_drain_timeout_ms c).
Definition eset_height v c := mkEncoderConfig (ec_codec c) (ec_width c) v (ec_fps c) (ec_bitrate c)
  (ec_gop c) (ec_profile c) (ec_rate_control c) (ec_drain_timeout_ms c).
Definition eset_fps v c := mkEncoderConfig (ec_codec c) (ec_width c) (ec_height c) v (ec_bitrate c)
  (ec_gop c) (ec_profile c) (ec_rate_control c) (ec_drain_timeout_ms c).
Definition eset_bitrate v c := mkEncoderConfig (ec_codec c) (ec_width c) (ec_height c) (ec_fps c) v
  (ec_gop c) (ec_profile c) (ec_rate_control c) (ec_drain_timeout_ms c).
Definition eset_gop v c := mkEncoderConfig (ec_codec c) (ec_width c) (ec_height c) (ec_fps c)
  (ec_bitrate c) v (ec_profile c) (ec_rate_control c) (ec_drain_timeout_ms c).
Definition eset_profile v c := mkEncoderConfig (ec_codec c) (ec_width c) (ec_height c) (ec_fps c)
  (ec_bitrate c) (ec_gop c) v (ec_rate_control c) (ec_drain_timeout_ms c).
Definition eset_rate v c := mkEncoderConfig (ec_codec c) (ec_width c) (ec_height c) (ec_fps c)
  (ec_bitrate c) (ec_gop c) (ec_profile c) v (ec_drain_timeout_ms c).
Definition eset_drain v c := mkEncoderConfig (ec_codec c) (ec_width c) (ec_height c) (ec_fps c)
  (ec_bitrate c) (ec_gop c) (ec_profile c) (ec_rate_control c) v.

(* [src/modules/rockchip/nodes.cpp:132-151] MppEncoderNode::OnConfigure *)
Definition EncoderOnConfigure (o : NodeOptions) (c : MppEncoderConfig) : Configuring MppEncoderConfig :=
  then_ (OptionalPositiveDuration o "drain_timeout_ms" eset_drain)
  (then_if_present o "rate_control" (store_option (GetStringOption o "rate_control") eset_rate)
  (then_if_present o "profile" (store_option (GetStringOption o "profile") eset_profile)
  (if_present o "gop" (store_option (PositiveInteger o "gop") eset_gop)
  (then_ (store_option (PositiveInteger o "bitrate") eset_bitrate)
  (then_ (store_option (PositiveInteger o "fps") eset_fps)
  (then_ (store_option (PositiveInteger o "height") eset_height)
  (then_ (store_option (PositiveInteger o "width") eset_width)
  (store_option (GetStringOption o "codec") eset_codec c)))))))).

(* [src/modules/rockchip/nodes.cpp:174-197] MppEncoderNode::EmitAvailable *)
Definition EncoderEmitAvailable (draining : bool) (c : NodeContext) : NodeM Enc Status :=
  fueled (emit_available (enc_Receive backend) "packet" "MPP encoder drain timed out"
    (fun p => bool_decide (is_Some (ep_buffer p))) (fun p => Make (PlEncoded p) (ep_pts p))
    fuel ec_drain_timeout_ms draining c).

(* [src/modules/rockchip/nodes.cpp:153-167] MppEncoderNode::OnProcess *)
Definition EncoderOnProcess (c : NodeContext) : NodeM Enc Status :=
  match Input c "frame" with
  | None => NRet (Invalid "MppEncoder requires frame input")
  | Some p =>
      if bool_decide (event p = kForceKeyFrame) then on_backend (enc_ForceKeyFrame backend)
      else if bool_decide (event p = kEndOfStream) then
        st <-- on_backend (enc_Drain backend);
        if negb (ok st) then NRet st else
        st <-- EncoderEmitAvailable true c;
        if negb (ok st) then NRet st else
        Emit c "packet" (Event kEndOfStream Done)
      else match data p with
           | PlVideo f =>
               st <-- on_backend (enc_Submit backend f);
               if ok st then EncoderEmitAvailable false c else NRet st
           | _ => NRet (Invalid "MppEncoder expects VideoFrame")
           end
  end.

(* [src/modules/rockchip/nodes.cpp:119-200] MppEncoderNode *)
Definition MppEncoderNode : NodeClass Enc :=
  mkNodeClass
    (mkContract [kind_port kVideo "frame"] [kind_port kEncodedVideo "packet"]
       ["codec"; "width"; "height"; "fps"; "bitrate"] kAny "")
    kSerial (fun o => configure (EncoderOnConfigure o)) (open_backend (enc_Open backend))
    (fun _ => NRet Ok) EncoderOnProcess (NRet tt) (NRet Ok) (close_backend (enc_Close backend)).
End mpp_encoder.

(** ** Image transforms *)

Section rga.
Context {B : Type} (backend : IRgaBackend B).
Abbreviation Rga := (Hosted B RgaTransformRequest).

Definition tset_width v t := mkTransform (tr_source_rect t) (tr_destination_rect t) v
  (tr_destination_height t) (tr_destination_format t) (tr_rotation_degrees t) (tr_asynchronous t).
Definition tset_height v t := mkTransform (tr_source_rect t) (tr_destination_rect t)
  (tr_destination_width t) v (tr_destination_format t) (tr_rotation_degrees t) (tr_asynchronous t).
Definition tset_format v t := mkTransform (tr_source_rect t) (tr_destination_rect t)
  (tr_destination_width t) (tr_destination_height t) v (tr_rotation_degrees t) (tr_asynchronous t).
Definition tset_rotation v t := mkTransform (tr_source_rect t) (tr_destination_rect t)
  (tr_destination_width t) (tr_destination_height t) (tr_destination_format t) v (tr_asynchronous t).
Definition tset_async v t := mkTransform (tr_source_rect t) (tr_destination_rect t)
  (tr_destination_width t) (tr_destination_height t) (tr_destination_format t)
  (tr_rotation_degrees t) v.

(** [static_cast<int>] of a 64-bit integer. *)
Definition to_int (z : Z) : Z :=
  let w := z mod u32_mod in if w <? 2 ^ 31 then w else w - u32_mod.

(* [src/modules/rockchip/nodes.cpp:214-230] RgaTransformNode::OnConfigure *)
Definition RgaOnConfigure (o : NodeOptions) (t : RgaTransformRequest) : Configuring RgaTransformRequest :=
  then_if_present o "asynchronous" (store_option (GetBoolOption o "asynchronous") tset_async)
  (then_if_present o "rotation"
     (fun t => match GetIntegerOption o "rotation" with
               | Err e => (e, tset_rotation 0 t)
               | Okay v =>
                   (if negb (v =? 0) && negb (v =? 90) && negb (v =? 180) && negb (v =? 270)
                    then Invalid "RGA rotation must be 0, 90, 180, or 270 degrees" else Ok,
                    tset_rotation (to_int v) t)
               end)
  (then_ (store_option (GetStringOption o "format") tset_format)
  (then_ (store_option (PositiveInteger o "height") tset_height)
  (store_option (PositiveInteger o "width") tset_width t)))).

(* [src/modules/rockchip/nodes.cpp:231-241] RgaTransformNode::OnProcess *)
Definition RgaOnProcess (c : NodeContext) : NodeM Rga Status :=
  match Input c "frame" with
  | Some p =>
      match data p with
      | PlVideo f =>
          r <-- nlocal (fun s => let '(a, b) := rga_Transform backend f (config_ s) (backend_ s) in
                                 (a, mkHosted b (config_ s)));
          if negb (ok r.1) then NRet r.1
          else
            let out := r.2 in
            Emit c "frame" (Make (PlVideo (mkVideoFrame (vf_frame_id f) (vf_pts f) (vf_width out)
              (vf_height out) (vf_horizontal_stride out) (vf_vertical_stride out) (vf_format out)
              (vf_buffer out))) (timestamp p))
      | _ => NRet (Invalid "RgaTransform expects VideoFrame")
      end
  | None => NRet (Invalid "RgaTransform expects VideoFrame")
  end.

(* [src/modules/rockchip/nodes.cpp:202-250] RgaTransformNode *)
Definition RgaTransformNode : NodeClass Rga :=
  mkNodeClass
    (mkContract [kind_port kVideo "frame"] [kind_port kVideo "frame"] ["width"; "height"; "format"]
       kAny "")
    kSerial (fun o => configure (RgaOnConfigure o)) (NRet Ok) (fun _ => NRet Ok) RgaOnProcess
    (NRet tt) (NRet Ok) (close_backend (rga_ReleaseCachedHandles backend)).
End rga.

(** ** Inference *)

(** The configuration with the descriptors that [OnOpen] queries. *)
Record RknnNodeConfig := mkRknnNode {
  rn_model : RknnModelConfig; rn_inputs : list TensorDesc; rn_outputs : list TensorDesc }.

Section rknn.
Context {B : Type} (backend : IRknnBackend B).
Abbreviation Rk := (Hosted B RknnNodeConfig).

Definition rset_path v r := mkRknnNode (mkModelConfig v (mc_core_mask (rn_model r))
  (mc_zero_copy (rn_model r)) (mc_cache_tensor_memory (rn_model r))) (rn_inputs r) (rn_outputs r).
Definition rset_mask v r := mkRknnNode (mkModelConfig (mc_path (rn_model r)) v
  (mc_zero_copy (rn_model r)) (mc_cache_tensor_memory (rn_model r))) (rn_inputs r) (rn_outputs r).
Definition rset_zero_copy v r := mkRknnNode (mkModelConfig (mc_path (rn_model r))
  (mc_core_mask (rn_model r)) v (mc_cache_tensor_memory (rn_model r))) (rn_inputs r) (rn_outputs r).
Definition rset_cache v r := mkRknnNode (mkModelConfig (mc_path (rn_model r))
  (mc_core_mask (rn_model r)) (mc_zero_copy (rn_model r)) v) (rn_inputs r) (rn_outputs r).

Definition core_mask_of (value : string) : option RknnCoreMask :=
  if bool_decide (value = "auto") then Some kAuto
  else if bool_decide (value = "0") then Some kCore0
  else if bool_decide (value = "1") then Some kCore1
  else if bool_decide (value = "2") then Some kCore2
  else if bool_decide (value = "0_1") then Some kCore01
  else if bool_decide (value = "0_1_2") then Some kCore012
  else None.

(* [src/modules/rockchip/nodes.cpp:265-292] RknnInferenceNode::OnConfigure *)
Definition RknnOnConfigure (o : NodeOptions) (r : RknnNodeConfig) : Configuring RknnNodeConfig :=
  then_if_present o "core_mask"
    (fun r => match GetStringOption o "core_mask" with
              | Err e => (e, r)
              | Okay v => match core_mask_of v with
                          | Some m => (Ok, rset_mask m r)
                          | None => (Invalid "RKNN core_mask must be auto, 0, 1, 2, 0_1, or 0_1_2", r)
                          end
              end)
  (then_if_present o "cache_tensor_memory"
     (store_option (GetBoolOption o "cache_tensor_memory") rset_cache)
  (then_if_present o "zero_copy" (store_option (GetBoolOption o "zero_copy") rset_zero_copy)
  (store_option (GetStringOption o "model") rset_path r))).

(* [src/modules/rockchip/nodes.cpp:293-298] RknnInferenceNode::OnOpen *)
Definition RknnOnOpen : NodeM Rk Status :=
  st <-- open_backend (fun c b => nn_LoadModel backend (rn_model c) b);
  if negb (ok st) then NRet st else
  i <-- on_backend (nn_QueryInputs backend);
  match i with
  | Err e => NRet e
  | Okay i =>
      nmodify (fun s => mkHosted (backend_ s)
        (mkRknnNode (rn_model (config_ s)) i (rn_outputs (config_ s))));;;
      o <-- on_backend (nn_QueryOutputs backend);
      match o with
      | Err e => NRet e
      | Okay o =>
          nmodify (fun s => mkHosted (backend_ s)
            (mkRknnNode (rn_model (config_ s)) (rn_inputs (config_ s)) o));;;
          NRet Ok
      end
  end.

(* [src/modules/rockchip/nodes.cpp:299-307] RknnInferenceNode::OnProcess *)
Definition RknnOnProcess (c : NodeContext) : NodeM Rk Status :=
  match Input c "tensors" with
  | Some p =>
      match data p with
      | PlTensors ts =>
          r <-- on_backend (nn_Infer backend ts);
          match r with
          | Err e => NRet e
          | Okay outputs => Emit c "tensors" (Make (PlTensors outputs) (timestamp p))
          end
      | _ => NRet (Invalid "RknnInference expects TensorSet")
      end
  | None => NRet (Invalid "RknnInference expects TensorSet")
  end.

(* [src/modules/rockchip/nodes.cpp:252-318] RknnInferenceNode *)
Definition RknnInferenceNode : NodeClass Rk :=
  mkNodeClass
    (mkContract [kind_port kTensor "tensors"] [kind_port kTensor "tensors"] ["model"] kAny "")
    kSerial (fun o => configure (RknnOnConfigure o)) RknnOnOpen (fun _ => NRet Ok) RknnOnProcess
    (NRet tt) (NRet Ok) (close_backend (nn_Close backend)).

(** [metrics->Increment(name, n)] *)
Fixpoint nincrement_by {NS} (name : string) (n : nat) : NodeM NS unit :=
  match n with O => NRet tt | S n => nincrement name;;; nincrement_by name n end.

(** The loop over the items of a batch; [acc] is [outputs]. *)
Fixpoint infer_items (its acc : list BatchItem) : NodeM Rk (Res (list BatchItem)) :=
  match its with
  | [] => NRet (Okay acc)
  | it :: its =>
      match data (packet it) with
      | PlTensors ts =>
          r <-- on_backend (nn_Infer backend ts);
          match r with
          | Err e => NRet (Err e)
          | Okay tensors =>
              let q := mkPacket (PlTensors tensors) (timestamp (packet it)) (metadata (packet it))
                         kNone [] in
              infer_items its (acc ++ [mkBatchItem (source_id it) q (batch_index it)])
          end
      | _ => NRet (Err (Invalid "RKNN batch item expects TensorSet"))
      end
  end.

(* [src/modules/rockchip/nodes.cpp:337-355] RknnBatchInferenceNode::OnProcess *)
Definition BatchInferOnProcess (c : NodeContext) : NodeM Rk Status :=
  match Input c "batch" with
  | Some p =>
      match data p with
      | PlBatch b =>
          r <-- infer_items (items b) [];
          match r with
          | Err e => NRet e
          | Okay outputs =>
              nincrement_by "rknn.batch.fallback_runs" (length outputs);;;
              Emit c "batch" (MakePacketBatch outputs (timestamp p))
          end
      | _ => NRet (Invalid "RknnBatchInference expects PacketBatch")
      end
  | None => NRet (Invalid "RknnBatchInference expects PacketBatch")
  end.

(* [src/modules/rockchip/nodes.cpp:320-364] RknnBatchInferenceNode *)
Definition RknnBatchInferenceNode : NodeClass Rk :=
  mkNodeClass
    (mkContract [any_port "batch" true] [any_port "batch" true] ["model"] kAny "")
    kSerial (fun o => configure (store_option (GetStringOption o "model") rset_path))
    (open_backend (fun c b => nn_LoadModel backend (rn_model c) b)) (fun _ => NRet Ok)
    BatchInferOnProcess (NRet tt) (NRet Ok) (close_backend (nn_Close backend)).
End rknn.

(** ** Streaming output *)

Section streaming_output.
Context {B : Type} (backend : IStreamingOutputBackend B).
Abbreviation Out := (Hosted B StreamingSessionConfig).

(* [src/modules/streaming/nodes.cpp:10-17] ConfigureSession *)
Definition ConfigureSession (o : NodeOptions) (c : StreamingSessionConfig)
  : Configuring StreamingSessionConfig :=
  if_present o "transport"
    (store_option (GetStringOption o "transport") (fun v c => mkSession (sc_url c) v (sc_reconnect c)))
  (store_option (GetStringOption o "url")
    (fun v c => mkSession v (sc_transport c) (sc_reconnect c)) c).

(* [src/modules/streaming/nodes.cpp:100-107] StreamingOutputNode::OnProcess *)
Definition OutputOnProcess (c : NodeContext) : NodeM Out Status :=
  match Input c "packet" with
  | None => NRet (Invalid "StreamingOutput requires packet input")
  | Some p =>
      if bool_decide (event p = kEndOfStream) then NRet Ok
      else match data p with
           | PlEncoded e => on_backend (out_Publish backend e)
           | _ => NRet (Invalid "StreamingOutput expects EncodedPacket")
           end
  end.

(* [src/modules/streaming/nodes.cpp:80-117] StreamingOutputNode *)
Definition StreamingOutputNode : NodeClass Out :=
  mkNodeClass
    (mkContract [kind_port kEncodedVideo "packet"] [] ["url"] kAny "")
    kSerial (fun o => configure (ConfigureSession o)) (open_backend (out_Open backend))
    (fun _ => on_backend_unit (out_SetKeyFrameRequestCallback backend);;; NRet Ok) OutputOnProcess
    (NRet tt) (NRet Ok) (close_backend (out_Close backend)).
End streaming_output.

(** ** Compute kernels *)

Record OpenClNodeConfig := mkClNode {
  cn_kernel : OpenClKernelConfig; cn_global_work_size : list Z; cn_output_sizes : list Z }.

(** The items before the first one that is not a positive integer. *)
Fixpoint positive_items (name : string) (l : list ConfigValue) (acc : list Z) : Status * list Z :=
  match l with
  | [] => (if bool_decide (acc = []) then Invalid (name +:+ " cannot be empty") else Ok, acc)
  | CInt z :: l => if z <=? 0 then (Invalid (name +:+ " must contain positive integers"), acc)
                   else positive_items name l (acc ++ [z])
  | _ :: _ => (Invalid (name +:+ " must contain positive integers"), acc)
  end.

(** [old] is what the vector holds. *)
(* [src/modules/opencl/nodes.cpp:12-26] PositiveSizeArray *)
Definition PositiveSizeArray (o : NodeOptions) (name : string) (old : list Z) : Status * list Z :=
  match FindOption o name with
  | Some v =>
      match AsArray v with
      | Some l => positive_items name l []
      | None => (Invalid (name +:+ " must be a list of positive integers"), old)
      end
  | None => (Invalid (name +:+ " must be a list of positive integers"), old)
  end.

Section opencl.
Context {B : Type} (backend : IOpenClBackend B).
(** [std::make_shared<HostBuffer>(size)]: the identities of the buffers of one
    invocation; and [set_fence] on them. *)
Context (new_host : list Z -> B -> list Z * B) (set_fence : list Z -> Z -> B -> B).
Abbreviation Cl := (Hosted B OpenClNodeConfig).

Definition cset_name v c := mkClNode (mkKernelConfig v (kc_source (cn_kernel c))
  (kc_build_options (cn_kernel c))) (cn_global_work_size c) (cn_output_sizes c).
Definition cset_source v c := mkClNode (mkKernelConfig (kc_name (cn_kernel c)) v
  (kc_build_options (cn_kernel c))) (cn_global_work_size c) (cn_output_sizes c).
Definition cset_build v c := mkClNode (mkKernelConfig (kc_name (cn_kernel c))
  (kc_source (cn_kernel c)) v) (cn_global_work_size c) (cn_output_sizes c).
Definition cset_work v c := mkClNode (cn_kernel c) v (cn_output_sizes c).
Definition cset_sizes v c := mkClNode (cn_kernel c) (cn_global_work_size c) v.

(** A vector that is cleared and refilled through a pointer. *)
Definition store_array {C} (r : Status * list Z) (set : list Z -> C -> C) (c : C) : Configuring C :=
  (r.1, set r.2 c).

(* [src/modules/opencl/nodes.cpp:43-54] OpenClKernelNode::OnConfigure *)
Definition ClOnConfigure (o : NodeOptions) (c : OpenClNodeConfig) : Configuring OpenClNodeConfig :=
  let x := then_ (store_option (GetStringOption o "source") cset_source)
             (store_option (GetStringOption o "kernel") cset_name c) in
  let rest x :=
    then_ (fun c => store_array (PositiveSizeArray o "output_sizes" (cn_output_sizes c)) cset_sizes c)
    (then_ (fun c => store_array (PositiveSizeArray o "global_work_size" (cn_global_work_size c))
                       cset_work c) x) in
  match FindOption o "build_options" with
  | None => rest x
  | Some (CString b) => rest (x.1, cset_build b x.2)
  | Some _ => (Invalid "build_options must be a string", x.2)
  end.

(** The first input tensor without a buffer ends the invocation. *)
Fixpoint input_buffers (ts : TensorSet) : option (list BufferPtr) :=
  match ts with
  | [] => Some []
  | t :: ts => match t_buffer t, input_buffers ts with
               | Some b, Some l => Some (Some b :: l)
               | _, _ => None
               end
  end.

Definition output_tensor (index : nat) (size b : Z) : Tensor :=
  mkTensor (mkTensorDesc ("output_" +:+ pretty index) [size] kUInt8 kAnyLayout
    (mkQuantization kNoQuantization 0 (binary_normalize 24 128 1 0 false) 0) size size 0 false)
    (Some b).

(* [src/modules/opencl/nodes.cpp:58-86] OpenClKernelNode::OnProcess *)
Definition ClOnProcess (c : NodeContext) : NodeM Cl Status :=
  match Input c "tensors" with
  | Some p =>
      match data p with
      | PlTensors ts =>
          match input_buffers ts with
          | None => NRet (Invalid "OpenClKernel input tensor has no buffer")
          | Some ins =>
              sizes <-- nlocal (fun s => (cn_output_sizes (config_ s), s));
              ids <-- on_backend (new_host sizes);
              r <-- nlocal (fun s =>
                let k := config_ s in
                let '(a, b) := cl_Run backend (kc_name (cn_kernel k)) ins (map Some ids)
                                 (cn_global_work_size k) (backend_ s) in
                (a, mkHosted b k));
              match r with
              | Err e => NRet e
              | Okay fence =>
                  on_backend_unit (set_fence ids fence);;;
                  Emit c "tensors" (Make (PlTensors (imap (fun i x => output_tensor i x.1 x.2)
                    (combine sizes ids))) (timestamp p))
              end
          end
      | _ => NRet (Invalid "OpenClKernel expects TensorSet input")
      end
  | None => NRet (Invalid "OpenClKernel expects TensorSet input")
  end.

(** The destructor also closes the backend. *)
(* [src/modules/opencl/nodes.cpp:28-98] OpenClKernelNode *)
Definition OpenClKernelNode : NodeClass Cl :=
  mkNodeClass
    (mkContract [kind_port kTensor "tensors"] [kind_port kTensor "tensors"]
       ["kernel"; "source"; "global_work_size"; "output_sizes"] kAny "")
    kSerial (fun o => configure (ClOnConfigure o))
    (open_backend (fun c b => cl_Compile backend (cn_kernel c) b)) (fun _ => NRet Ok) ClOnProcess
    (NRet tt) (NRet Ok) (close_backend (cl_Close backend)).
End opencl.

(** ** Draining a codec *)

(** What a backend hands out when it is asked again and again. *)
Inductive hands_out {B A} (receive : B -> Received A * B) : B -> list (Received A) -> B -> Prop :=
| hands_nil b : hands_out receive b [] b
| hands_cons b r b' rs b'' :
    receive b = (r, b') -> hands_out receive b' rs b'' -> hands_out receive b (r :: rs) b''.

Section drain.
Context {B C A : Type}.
Context (receive : B -> Received A * B) (port late : string).
Context (whole : A -> bool) (packet : A -> Packet).

Definition nothing_yet (r : Received A) : bool := bool_decide (code (rc_status r) = kUnavailable).
Definition intermediate (r : Received A) : Prop :=
  nothing_yet r = true \/ (ok (rc_status r) = true /\ rc_eos r = false).
Definition final (r : Received A) : Prop := ok (rc_status r) = true /\ rc_eos r = true.

(** The packets of what was received, in order. *)
Definition delivered (rs : list (Received A)) : list Packet :=
  flat_map (fun r => if ok (rc_status r) && (whole (rc_value r) || negb (rc_eos r))
                     then [packet (rc_value r)] else []) rs.
Definition retries (rs : list (Received A)) : nat := length (List.filter nothing_yet rs).

Definition sends (c : NodeContext) (ps : list Packet) : list (string * Packet) :=
  map (fun p => (port, inherit_all (context_inputs c) p)) ps.

Lemma ok_unavailable st : ok st = true -> code st <> kUnavailable.
Proof. intros H%ok_code. by rewrite H. Qed.

Lemma emit_loop_final fuel draining deadline c b r b' (cfg : C) (w : Outbox) :
  has_emit c = true -> replies w = [] -> receive b = (r, b') -> final r ->
  nrun outbox (emit_loop receive port late whole packet (S fuel) draining deadline c)
    (mkHosted b cfg) w =
  (Some Ok, mkHosted b' cfg,
   mkOutbox (sent w ++ sends c (delivered [r])) [] (counted w) (gauges w) (clock w)).
Proof.
  intros Hc Hw Hr [Hok He]. cbn [emit_loop]. rewrite nrun_bind.
  cbn [on_backend nlocal nrun backend_ config_]. rewrite Hr. cbn [nrun].
  rewrite (bool_decide_eq_false_2 (code (rc_status r) = kUnavailable)) by (by apply ok_unavailable).
  unfold delivered, sends. simpl. rewrite Hok, He. cbn [negb andb orb]. rewrite nrun_bind, orb_false_r.
  destruct (whole (rc_value r)).
  - rewrite run_emit by done. unfold after_emit. rewrite Hw. done.
  - simpl. rewrite app_nil_r. destruct w. simpl in *. by subst.
Qed.

(** The loop passes over what is not final and sends it. *)
Lemma emit_loop_passes rs fuel deadline c b b' (cfg : C) (w : Outbox) t ts :
  has_emit c = true -> replies w = [] -> hands_out receive b rs b' -> Forall intermediate rs ->
  clock w = t ++ ts -> length t = retries rs -> Forall (fun x => x < deadline) t ->
  nrun outbox (emit_loop receive port late whole packet (length rs + fuel) true deadline c)
    (mkHosted b cfg) w =
  nrun outbox (emit_loop receive port late whole packet fuel true deadline c) (mkHosted b' cfg)
    (mkOutbox (sent w ++ sends c (delivered rs)) [] (counted w) (gauges w) ts).
Proof.
  intros Hc Hw Hh. revert w t Hw. induction Hh as [b|b r b1 rs b2 Hr Hh IH];
    intros w t Hw Hi Ht Hlen Hts.
  - destruct t; [|done]. simpl in *. rewrite app_nil_r. destruct w. simpl in *. by subst.
  - apply Forall_cons in Hi as [Hir Hi]. cbn [length Nat.add emit_loop].
    rewrite nrun_bind. cbn [on_backend nlocal nrun backend_ config_]. rewrite Hr. cbn [nrun].
    unfold retries in Hlen. simpl in Hlen. fold (nothing_yet r).
    destruct (nothing_yet r) eqn:En.
    + destruct t as [|x t]; [done|]. apply Forall_cons in Hts as [Hx Hts].
      cbn [negb]. rewrite run_timed, Ht. cbn [hd app]. rewrite (proj2 (Z.leb_gt _ _) Hx).
      rewrite IH with (t := t); [|done|done|simpl; by rewrite Ht|unfold retries; by injection Hlen|done].
      unfold delivered at 2. cbn [flat_map].
      replace (ok (rc_status r)) with false; [done|]. unfold nothing_yet in En.
      apply bool_decide_eq_true in En. symmetry. unfold ok. rewrite En. by apply bool_decide_eq_false_2.
    + destruct Hir as [?|[Hok He]]; [congruence|]. rewrite Hok, He. cbn [negb].
      rewrite orb_true_r, nrun_bind, run_emit by done. rewrite Hw. cbn [hd]. change (ok Ok) with true.
      cbn [negb]. rewrite IH with (t := t); try done; [|simpl; by rewrite Hw].
      unfold delivered at 2. cbn [flat_map]. rewrite Hok, He. cbn [negb]. rewrite orb_true_r.
      cbn [andb]. unfold after_emit, sends. simpl. by rewrite <- app_assoc.
Qed.

Lemma emit_available_drains rs r fuel c b b1 b2 timeout (cfg : C) (w : Outbox) now t ts :
  has_emit c = true -> replies w = [] -> hands_out receive b rs b1 -> Forall intermediate rs ->
  receive b1 = (r, b2) -> final r -> (length rs < fuel)%nat ->
  clock w = now :: t ++ ts -> length t = retries rs ->
  Forall (fun x => x < now + timeout cfg * 1000) t ->
  nrun outbox (emit_available receive port late whole packet fuel timeout true c) (mkHosted b cfg) w =
  (Some Ok, mkHosted b2 cfg,
   mkOutbox (sent w ++ sends c (delivered (rs ++ [r]))) [] (counted w) (gauges w) ts).
Proof.
  intros Hc Hw Hh Hi Hr Hf Hfuel Hclk Hlen Ht. unfold emit_available. rewrite run_timed, Hclk. cbn [hd config_].
  replace fuel with (length rs + S (fuel - length rs - 1))%nat by lia.
  erewrite emit_loop_passes with (t := t) (ts := ts); [|done|done|exact Hh|done|simpl; by rewrite Hclk|done|done].
  erewrite emit_loop_final; [|done|done|exact Hr|done].
  unfold delivered, sends. rewrite flat_map_app, map_app. simpl. by rewrite <- app_assoc.
Qed.
End drain.

Definition decoded (f : VideoFrame) : Packet := Make (PlVideo f) (vf_pts f).
Definition has_buffer (f : VideoFrame) : bool := bool_decide (is_Some (vf_buffer f)).


(** A decoder that still has one frame, needs one more poll, and then ends. *)
Definition demo_decoder : IMppDecoderBackend nat := mkMppDecoder _
  (fun _ b => (Ok, b)) (fun _ b => (Ok, b))
  (fun n => match n with
            | 0%nat => (mkReceived Ok (mkVideoFrame 1 (mkTs 40) 2 2 2 2 "nv12" (Some 9)) false, 1%nat)
            | 1%nat => (mkReceived (Unavailable "") NoFrame false, 2%nat)
            | _ => (mkReceived Ok NoFrame true, 3%nat)
            end)
  (fun b => (Ok, b)) (fun b => b).


(** The same loop in the encoder. *)
Lemma encoder_drains {B} (backend : IMppEncoderBackend B) rs r fuel c b b1 b2 cfg w now t ts :
  has_emit c = true -> replies w = [] -> hands_out (enc_Receive backend) b rs b1 ->
  Forall intermediate rs -> enc_Receive backend b1 = (r, b2) -> final r -> (length rs < fuel)%nat ->
  clock w = now :: t ++ ts -> length t = retries rs ->
  Forall (fun x => x < now + ec_drain_timeout_ms cfg * 1000) t ->
  nrun outbox (EncoderEmitAvailable backend fuel true c) (mkHosted b cfg) w =
  (Ok, mkHosted b2 cfg,
   mkOutbox (sent w ++ sends "packet" c (delivered (fun p => bool_decide (is_Some (ep_buffer p)))
     (fun p => Make (PlEncoded p) (ep_pts p)) (rs ++ [r]))) [] (counted w) (gauges w) ts).
Proof.
  intros. unfold EncoderEmitAvailable, fueled. rewrite nrun_bind.
  erewrite emit_available_drains with (rs := rs) (r := r) (t := t) (ts := ts); done || eauto.
Qed.

(** ** Termination of the drain *)

Section termination.
Context {W B C A : Type} (h : Handler W) (time : W -> Z).
Context (receive : B -> Received A * B) (port late : string).
Context (whole : A -> bool) (packet : A -> Packet).
(** How much a backend still has. *)
Context (left_over : B -> nat).

(** Each reading of the clock comes at least a millisecond after the one before,
    because the loop sleeps. *)
Definition clock_advances : Prop :=
  (forall w, let '(now, w') := h_now h w in time w <= now /\ now + 1000 <= time w') /\
  (forall q p w, time w <= time (h_emit h q p w).2).

(** A result uses up what there is; asking for it in vain does not add to it. *)
Definition backend_finite : Prop :=
  forall b, let '(r, b') := receive b in
  if bool_decide (code (rc_status r) = kUnavailable) then (left_over b' <= left_over b)%nat
  else ok (rc_status r) = true -> rc_eos r = false -> (left_over b' < left_over b)%nat.

(** Rounds that can end with "nothing yet" before the deadline. *)
Definition rounds_left (deadline : Z) (w : W) : nat :=
  Z.to_nat ((Z.max 0 (deadline - time w) + 999) / 1000).

Lemma rounds_step deadline w now w' : time w <= now -> now + 1000 <= time w' -> now < deadline ->
  (rounds_left deadline w' < rounds_left deadline w)%nat.
Proof.
  intros H1 H2 H3. unfold rounds_left.
  pose proof (Z.div_le_mono (Z.max 0 (deadline - time w') + 999)
    (Z.max 0 (deadline - time w) + 999 + -1 * 1000) 1000 ltac:(lia)) as Hd.
  destruct (decide (time w' <= deadline)) as [Hle|Hle].
  - assert (Z.max 0 (deadline - time w') + 999 <= Z.max 0 (deadline - time w) + 999 + -1 * 1000) as Hx
      by lia.
    specialize (Hd Hx). rewrite Z.div_add in Hd by lia.
    pose proof (Z.div_pos (Z.max 0 (deadline - time w') + 999) 1000 ltac:(lia) ltac:(lia)). lia.
  - rewrite (Z.max_l 0 (deadline - time w')) by lia. change ((0 + 999) / 1000) with 0.
    pose proof (Z.div_le_mono 1000 (Z.max 0 (deadline - time w) + 999) 1000 ltac:(lia) ltac:(lia)) as Hy.
    change (1000 / 1000) with 1 in Hy. lia.
Qed.

Lemma rounds_mono deadline w w' : time w <= time w' ->
  (rounds_left deadline w' <= rounds_left deadline w)%nat.
Proof.
  intros H. unfold rounds_left. apply Z2Nat.inj_le; try (apply Z.div_pos; lia).
  apply Z.div_le_mono; lia.
Qed.

Lemma emit_loop_terminates (Hclk : clock_advances) (Hfin : backend_finite) fuel draining deadline c
    (s : Hosted B C) w :
  (left_over (backend_ s) + rounds_left deadline w < fuel)%nat ->
  exists st s' w', nrun h (emit_loop receive port late whole packet fuel draining deadline c) s w
                   = (Some st, s', w').
Proof.
  destruct Hclk as [Hnow Hemit].
  revert s w. induction fuel as [|fuel IH]; intros [b cfg] w Hf; [lia|]. simpl in Hf.
  cbn [emit_loop]. rewrite nrun_bind. cbn [on_backend nlocal nrun backend_ config_].
  specialize (Hfin b). destruct (receive b) as [r b'] eqn:Hr. cbn [nrun].
  case_bool_decide as Hun.
  { destruct draining; cbn [negb]; [|by eauto]. rewrite nrun_bind. cbn [ntimed nrun].
    specialize (Hnow w). destruct (h_now h w) as [now w'] eqn:Hw. destruct Hnow as [Hn1 Hn2]. cbn [nrun].
    destruct (Z.leb_spec deadline now) as [Hd|Hd]; [by eauto|]. apply IH. simpl.
    pose proof (rounds_step deadline w now w' Hn1 Hn2 Hd). lia. }
  destruct (ok (rc_status r)) eqn:Hok; cbn [negb]; [|by eauto].
  rewrite nrun_bind. destruct (rc_eos r) eqn:He.
  - destruct (nrun h _ _ w) as [[st1 s1] w1]. destruct (ok st1); simpl; eauto.
  - rewrite orb_true_r. unfold Emit. destruct (has_emit c).
    + unfold nemit. cbn [nrun]. pose proof (Hemit port (inherit_all (context_inputs c) (packet (rc_value r))) w) as He'.
      destruct (h_emit h _ _ w) as [st1 w1]. cbn [nrun]. destruct (ok st1); cbn [negb]; [|by eauto].
      apply IH. simpl in He' |- *. pose proof (rounds_mono deadline w w1 He').
      specialize (Hfin eq_refl eq_refl). lia.
    + simpl. eauto.
Qed.

End termination.

(** A receiver whose clock advances by a millisecond with every reading. *)
Definition ticking : Handler Z := mkHandler (fun _ _ w => (Ok, w)) (fun _ w => w) (fun _ _ w => w)
  (fun w => (w, w + 1000)).


(** ** Which options a node accepts *)

Definition is_str (v : option ConfigValue) : bool :=
  match v with Some (CString _) => true | _ => false end.
Definition is_flag (v : option ConfigValue) : bool :=
  match v with Some (CBool _) => true | _ => false end.
(** A positive [int]. *)
Definition is_count (v : option ConfigValue) : bool :=
  match v with Some (CInt z) => (0 <? z) && (z <=? 2147483647) | _ => false end.
(** A positive [std::int64_t]. *)
Definition is_duration (v : option ConfigValue) : bool :=
  match v with Some (CInt z) => 0 <? z | _ => false end.
Definition optional (p : option ConfigValue -> bool) (v : option ConfigValue) : bool :=
  match v with None => true | _ => p v end.

Section options.
Context {C : Type} (o : NodeOptions) (key : string).

Lemma ok_string (set : string -> C -> C) c :
  ok (store_option (GetStringOption o key) set c).1 = is_str (o !! key).
Proof. unfold GetStringOption, FindOption. by destruct (o !! key) as [[]|]. Qed.
Lemma ok_flag (set : bool -> C -> C) c :
  ok (store_option (GetBoolOption o key) set c).1 = is_flag (o !! key).
Proof. unfold GetBoolOption, FindOption. by destruct (o !! key) as [[]|]. Qed.

Lemma ok_positive : match PositiveInteger o key with
  | Okay _ => is_count (o !! key) = true
  | Err e => ok e = false /\ is_count (o !! key) = false end.
Proof.
  unfold PositiveInteger, GetIntegerOption, FindOption. destruct (o !! key) as [[| |z| | | |]|]; try done.
  simpl. destruct (Z.leb_spec z 0), (Z.ltb_spec 2147483647 z); simpl; try (split; [done|]); lia.
Qed.

Lemma ok_count (set : Z -> C -> C) c :
  ok (store_option (PositiveInteger o key) set c).1 = is_count (o !! key).
Proof. pose proof ok_positive as H. destruct (PositiveInteger o key); simpl; [by rewrite H|]. by destruct H as [-> ->]. Qed.

Lemma ok_optional_count (set : Z -> C -> C) c :
  ok (OptionalPositiveInteger o key set c).1 = optional is_count (o !! key).
Proof.
  unfold OptionalPositiveInteger, FindOption. pose proof (ok_count set c) as H.
  destruct (o !! key); [|done]. by rewrite H.
Qed.

Lemma ok_optional_duration (set : Z -> C -> C) c :
  ok (OptionalPositiveDuration o key set c).1 = optional is_duration (o !! key).
Proof.
  unfold OptionalPositiveDuration, GetIntegerOption, FindOption.
  destruct (o !! key) as [[| |z| | | |]|]; try done. simpl.
  destruct (Z.leb_spec z 0), (Z.ltb_spec 0 z); simpl; try done; lia.
Qed.

(** The combinators. *)
Lemma ok_then (f : C -> Configuring C) x b : (forall c, ok (f c).1 = b) ->
  ok (then_ f x).1 = ok x.1 && b.
Proof. intros Hf. unfold then_. by destruct (ok x.1) eqn:E; rewrite ?Hf, ?E. Qed.
Lemma ok_then_present (f : C -> Configuring C) x (p : option ConfigValue -> bool) :
  (forall c, ok (f c).1 = p (o !! key)) ->
  ok (then_if_present o key f x).1 = ok x.1 && optional p (o !! key).
Proof.
  intros Hf. unfold then_if_present, FindOption.
  destruct (ok x.1) eqn:E; simpl; [|by rewrite E].
  destruct (o !! key) eqn:Ek; [|by rewrite bool_decide_eq_false_2, E by (by intros [? ?])].
  rewrite bool_decide_eq_true_2 by eauto. by rewrite Hf.
Qed.
Lemma ok_if_present (f : C -> Configuring C) x (p : option ConfigValue -> bool) :
  (forall c, ok (f c).1 = p (o !! key)) ->
  ok (if_present o key f x).1 = match o !! key with None => ok x.1 | v => p v end.
Proof.
  intros Hf. unfold if_present, FindOption.
  destruct (o !! key) eqn:Ek; [|by rewrite bool_decide_eq_false_2 by (by intros [? ?])].
  rewrite bool_decide_eq_true_2 by eauto. by rewrite Hf.
Qed.
End options.

(** The codec nodes check their options, and exactly this much.  A decoder is configured
    iff the codec is a string and the other options, where given, have their type and range:
    a positive 32-bit width, height and buffer count, a boolean, a positive timeout.  An
    encoder without the option [gop] is configured iff codec, width, height, frame rate and
    bit rate are right and the optional ones have their type; with a [gop], whether those
    five are right no longer matters, because the status of [gop] replaces theirs. *)
Theorem codec_options_exact o dc ec :
  ok (DecoderOnConfigure o dc).1 =
    is_str (o !! "codec") && optional is_count (o !! "width") && optional is_count (o !! "height") &&
    optional is_count (o !! "buffer_count") && optional is_flag (o !! "external_buffer_group") &&
    optional is_duration (o !! "drain_timeout_ms") /\
  ok (EncoderOnConfigure o ec).1 =
    match o !! "gop" with
    | None => is_str (o !! "codec") && is_count (o !! "width") && is_count (o !! "height") &&
              is_count (o !! "fps") && is_count (o !! "bitrate")
    | gop => is_count gop
    end && optional is_str (o !! "profile") && optional is_str (o !! "rate_control") &&
    optional is_duration (o !! "drain_timeout_ms").
Proof.
  split.
  - unfold DecoderOnConfigure.
    erewrite ok_then by (intros; apply ok_optional_duration).
    erewrite ok_then_present by (intros; apply ok_flag).
    rewrite (ok_then_present o "buffer_count" _ _ is_count).
    2:{ intros c. pose proof (ok_positive o "buffer_count") as H.
        destruct (PositiveInteger o "buffer_count"); simpl; [by rewrite H|]. by destruct H as [-> ->]. }
    do 2 erewrite ok_then by (intros; apply ok_optional_count). by rewrite ok_string.
  - unfold EncoderOnConfigure.
    erewrite ok_then by (intros; apply ok_optional_duration).
    do 2 erewrite ok_then_present by (intros; apply ok_string).
    erewrite ok_if_present by (intros; apply ok_count).
    do 4 erewrite ok_then by (intros; apply ok_count). by rewrite ok_string.
Qed.

(** An encoder whose width is not a number is configured, with the width 0. *)
Example gop_hides_width :
  let o := {[ "codec" := CString "h264"; "width" := CString "wide"; "height" := CInt 720;
              "fps" := CInt 30; "bitrate" := CInt 4000000; "gop" := CInt 60 ]} in
  let '(st, c) := EncoderOnConfigure o default_encoder_config in
  st = Ok /\ ec_width c = 0 /\ ec_height c = 0 /\ ec_gop c = 60.
Proof. vm_compute. auto. Qed.

(** A [transport] hides that the address of a stream is not a string. *)
Example transport_hides_url :
  let o := {[ "url" := CInt 1; "transport" := CString "udp" ]} in
  let '(st, c) := ConfigureSession o default_session in
  st = Ok /\ sc_url c = "".
Proof. vm_compute. auto. Qed.

(** ** Batches *)

(** An output item belongs to its input item. *)
Definition same_item (it out : BatchItem) : Prop :=
  source_id out = source_id it /\ batch_index out = batch_index it /\
  timestamp (packet out) = timestamp (packet it) /\ metadata (packet out) = metadata (packet it) /\
  exists ts, data (packet out) = PlTensors ts.

Lemma infer_items_aligned {B W} (backend : IRknnBackend B) (h : Handler W) its acc s w r s' w' :
  nrun h (infer_items backend its acc) s w = (r, s', w') ->
  w' = w /\ match r with
            | Okay outs => exists outs', outs = acc ++ outs' /\ Forall2 same_item its outs'
            | Err _ => True
            end.
Proof.
  revert acc s. induction its as [|it its IH]; intros acc s; cbn [infer_items].
  - intros [= <- <- <-]. split; [done|]. exists []. by rewrite app_nil_r.
  - destruct (data (packet it)) eqn:Ed; try by intros [= <- <- <-].
    rewrite nrun_bind. cbn [on_backend nlocal nrun].
    destruct (nn_Infer backend ts (backend_ s)) as [[out|e] b]; cbn [nrun]; [|by intros [= <- <- <-]].
    intros E. apply IH in E as [-> Hr]. split; [done|]. destruct r as [outs|]; [|done].
    destruct Hr as (outs' & -> & Hf). eexists (_ :: outs'). rewrite <- app_assoc. split; [reflexivity|].
    constructor; [|done]. unfold same_item. simpl. split_and!; eauto.
Qed.

Lemma nincrement_by_sends {NS} name n (s : NS) w :
  sent (nrun outbox (nincrement_by name n) s w).2 = sent w /\
  replies (nrun outbox (nincrement_by name n) s w).2 = replies w /\
  counted (nrun outbox (nincrement_by name n) s w).2 = counted w ++ repeat name n.
Proof.
  revert w. induction n as [|n IH]; intros w; simpl; [by rewrite app_nil_r|].
  unfold nincrement. destruct (IH (mkOutbox (sent w) (replies w) (counted w ++ [name]) (gauges w) (clock w)))
    as (H1 & H2 & H3). simpl in *. split_and!; [done|done|]. rewrite H3. by rewrite <- app_assoc.
Qed.

(** Batch inference sends one batch, item for item, and counts its runs; or it
    sends nothing. *)
Lemma batch_inference_spec {B} (backend : IRknnBackend B) c p b s w st s' w' :
  has_emit c = true -> Input c "batch" = Some p -> data p = PlBatch b ->
  nrun outbox (BatchInferOnProcess backend c) s w = (st, s', w') ->
  (exists outs, Forall2 same_item (items b) outs /\
     sent w' = sent w ++ [("batch", inherit_all (context_inputs c) (MakePacketBatch outs (timestamp p)))] /\
     counted w' = counted w ++ repeat "rknn.batch.fallback_runs" (length (items b))) \/
  w' = w.
Proof.
  intros Hc Hin Hd. unfold BatchInferOnProcess. rewrite Hin, Hd, nrun_bind.
  destruct (nrun outbox (infer_items backend (items b) []) s w) as [[r s1] w1] eqn:E.
  apply infer_items_aligned in E as [-> Hr]. destruct r as [outs|e].
  - destruct Hr as (outs' & -> & Hf). rewrite nrun_bind.
    destruct (nincrement_by_sends "rknn.batch.fallback_runs" (length ([] ++ outs')) s1 w) as (H1 & H2 & H3).
    destruct (nrun outbox (nincrement_by _ _) s1 w) as [[[] s2] w2]. rewrite run_emit by done.
    intros [= <- <- <-]. left. exists outs'. simpl in *. rewrite H1, H3. split_and!; [done|done|].
    by rewrite (Forall2_length _ _ _ Hf).
  - intros [= <- <- <-]. by right.
Qed.
