(* ===== verification/CaptureNodes.v ===== *)
(** * Nodes with a capture thread

    [V4l2SourceNode] ([src/modules/rockchip/nodes.cpp]), [StreamingInputNode]
    ([src/modules/streaming/nodes.cpp]) and [AlsaCaptureNode]
    ([src/modules/audio/nodes.cpp]), and the registration of the module nodes.

    [OnStart] starts a thread that reads the backend and emits what it gets.  The thread
    is a program whose calls are answered by the outside: the flags [stop_] and
    [cancelled], which other threads set, the backend and the receiver of the packets.
    The loop takes fuel, one unit a round, because it runs until it is told to stop.

    [source_step] is the abstract source that the three loops implement: what is read
    is emitted at once, errors are answered by a policy, and after the end nothing is
    done.  [capture_loops_refine] is the refinement. *)

From S2P Require Import Prelude Status Timestamp Values Buffer Contract Node Registry BuiltinNodes Device Backends ModuleNodes.
Local Open Scope rkavp_scope.
Local Open Scope Z_scope.

(** ** The calls of a capture thread *)

Inductive LoopCmd :=
| LoadStop
| LoadCancelled
| ReadBackend
| EmitPacket (port : string) (p : Packet)
| CountMetric (name : string)
| RecoverBackend.

Section loops.
(** What the backend reads. *)
Context {P : Type}.

Definition LoopAns (c : LoopCmd) : Type :=
  match c with
  | LoadStop | LoadCancelled => bool
  | ReadBackend => Status * P
  | EmitPacket _ _ => Status
  | CountMetric _ => unit
  | RecoverBackend => Status
  end.

Abbreviation LoopProg := (dprog LoopAns unit).
Abbreviation lcall := (dcall (Ans := LoopAns) (S := unit)).

(** The loop condition [!stop_ && !context_->cancelled()]. *)
Definition keep_running (body : LoopProg bool) : LoopProg bool :=
  stop <~ lcall LoadStop;
  if (stop : bool) then DRet true else
  cancelled <~ lcall LoadCancelled;
  if (cancelled : bool) then DRet true else body.
End loops.
Arguments LoopAns P c : clear implicits.

(** [true] when the loop has ended, [false] when the fuel has. *)
(* [src/modules/rockchip/nodes.cpp:423-435] V4l2SourceNode::Loop *)
Fixpoint V4l2Loop (fuel : nat) : dprog (LoopAns Packet) unit bool :=
  match fuel with
  | O => DRet false
  | S fuel =>
      keep_running (
        r <~ dcall (Ans := LoopAns Packet) ReadBackend;
        if bool_decide (code r.1 = kUnavailable) then V4l2Loop fuel
        else if negb (ok r.1) then
          stop <~ dcall (Ans := LoopAns Packet) LoadStop;
          (if (stop : bool) then DRet tt else dcall (Ans := LoopAns Packet) (CountMetric "v4l2.errors"));~
          DRet true
        else
          st <~ dcall (Ans := LoopAns Packet) (EmitPacket "packet" r.2);
          if negb (ok st) then DRet true else V4l2Loop fuel)
  end.

(* [src/modules/streaming/nodes.cpp:54-67] StreamingInputNode::Loop *)
Fixpoint StreamingLoop (fuel : nat) : dprog (LoopAns EncodedPacket) unit bool :=
  match fuel with
  | O => DRet false
  | S fuel =>
      keep_running (
        r <~ dcall (Ans := LoopAns EncodedPacket) ReadBackend;
        if bool_decide (code r.1 = kUnavailable) then StreamingLoop fuel
        else if bool_decide (code r.1 = kCancelled) then DRet true
        else if negb (ok r.1) then
          dcall (Ans := LoopAns EncodedPacket) (CountMetric "streaming.input_errors");~ DRet true
        else
          st <~ dcall (Ans := LoopAns EncodedPacket)
                  (EmitPacket "packet" (Make (PlEncoded r.2) (ep_pts r.2)));
          if negb (ok st) then DRet true else StreamingLoop fuel)
  end.

(* [src/modules/audio/nodes.cpp:58-78] AlsaCaptureNode::Loop *)
Fixpoint AlsaLoop (fuel : nat) : dprog (LoopAns AudioFrame) unit bool :=
  match fuel with
  | O => DRet false
  | S fuel =>
      keep_running (
        r <~ dcall (Ans := LoopAns AudioFrame) ReadBackend;
        if bool_decide (code r.1 = kUnavailable) then AlsaLoop fuel
        else if bool_decide (code r.1 = kCancelled) then DRet true
        else if negb (ok r.1) then
          if negb (bool_decide (code r.1 = kInternal)) then
            dcall (Ans := LoopAns AudioFrame) (CountMetric "alsa.capture_errors");~ DRet true
          else
            dcall (Ans := LoopAns AudioFrame) (CountMetric "alsa.overruns");~
            st <~ dcall (Ans := LoopAns AudioFrame) RecoverBackend;
            if negb (ok st) then DRet true else AlsaLoop fuel
        else
          st <~ dcall (Ans := LoopAns AudioFrame)
                  (EmitPacket "audio" (Make (PlAudio r.2) (af_pts r.2)));
          if negb (ok st) then DRet true else AlsaLoop fuel)
  end.

(** ** The abstract source *)

(** How a source reacts to a read that fails. *)
Inductive Reaction :=
| Retry
| End
| EndCounted (metric : string) (unless_stopped : bool)
| Recover (metric : string).

Record SourcePolicy (P : Type) := mkPolicy {
  sp_port : string;
  sp_packet : P -> Packet;
  sp_react : StatusCode -> Reaction }.
Arguments sp_port {P} _.
Arguments sp_packet {P} _ _.
Arguments sp_react {P} _ _.

(** Where a source is in its round. *)
Inductive Phase :=
| SPolling
| SHolding
| SFailed (metric : string) (unless_stopped : bool)
| SRecovering (metric : string) (counted : bool)
| SOver.

(** The abstract source: its phase, the packets it has read and those it has
    emitted. *)
Record Source := mkSource { phase : Phase; got : list Packet; gave : list Packet }.
Definition new_source : Source := mkSource SPolling [] [].

Definition goes (s : Source) (ph : Phase) : Source := mkSource ph (got s) (gave s).

(** Which call is made in which phase, and what follows. *)
Definition source_step {P} (pol : SourcePolicy P) (ev : devent (LoopAns P)) (s : Source) : option Source :=
  let 'Ev c a := ev in
  match c return LoopAns P c -> option Source with
  | LoadStop => fun stop =>
      match phase s with
      | SPolling => Some (goes s (if (stop : bool) then SOver else SPolling))
      | SFailed m true => Some (goes s (if (stop : bool) then SOver else SFailed m false))
      | _ => None
      end
  | LoadCancelled => fun cancelled =>
      match phase s with
      | SPolling => Some (goes s (if (cancelled : bool) then SOver else SPolling))
      | _ => None
      end
  | ReadBackend => fun r =>
      match phase s with
      | SPolling =>
          Some (if ok r.1 then mkSource SHolding (got s ++ [sp_packet pol r.2]) (gave s)
                else goes s (match sp_react pol (code r.1) with
                             | Retry => SPolling
                             | End => SOver
                             | EndCounted m u => SFailed m u
                             | Recover m => SRecovering m false
                             end))
      | _ => None
      end
  | EmitPacket port p => fun st =>
      match phase s with
      | SHolding => if bool_decide (port = sp_port pol)
                    then Some (mkSource (if ok st then SPolling else SOver) (got s) (gave s ++ [p]))
                    else None
      | _ => None
      end
  | CountMetric m => fun _ =>
      match phase s with
      | SFailed m' false => if bool_decide (m = m') then Some (goes s SOver) else None
      | SRecovering m' false => if bool_decide (m = m') then Some (goes s (SRecovering m' true)) else None
      | _ => None
      end
  | RecoverBackend => fun st =>
      match phase s with
      | SRecovering _ true => Some (goes s (if ok st then SPolling else SOver))
      | _ => None
      end
  end a.

Definition v4l2_policy : SourcePolicy Packet := mkPolicy _ "packet" (fun p => p)
  (fun c => match c with kUnavailable => Retry | _ => EndCounted "v4l2.errors" true end).
Definition streaming_policy : SourcePolicy EncodedPacket :=
  mkPolicy _ "packet" (fun p => Make (PlEncoded p) (ep_pts p))
  (fun c => match c with
            | kUnavailable => Retry
            | kCancelled => End
            | _ => EndCounted "streaming.input_errors" false
            end).
Definition alsa_policy : SourcePolicy AudioFrame :=
  mkPolicy _ "audio" (fun f => Make (PlAudio f) (af_pts f))
  (fun c => match c with
            | kUnavailable => Retry
            | kCancelled => End
            | kInternal => Recover "alsa.overruns"
            | _ => EndCounted "alsa.capture_errors" false
            end).

(** What a loop establishes: it is over exactly when it has left, and it has emitted
    what it has read. *)
Definition loop_post (left : bool) (_ : unit) (s : Source) : Prop :=
  phase s = (if left then SOver else SPolling) /\ gave s = got s.

Section refinement.
Context {P : Type} (pol : SourcePolicy P).
Abbreviation lwp := (wp (source_step pol) (fun _ _ => True)).

Lemma keep_running_wp (body : dprog (LoopAns P) unit bool) l :
  lwp body loop_post tt (mkSource SPolling l l) ->
  lwp (keep_running body) loop_post tt (mkSource SPolling l l).
Proof.
  intros Hb. unfold keep_running. wcall stop _; [reflexivity|]. destruct stop; [by wstep|].
  wcall canc _; [reflexivity|]. destruct canc; [by wstep|]. exact Hb.
Qed.

(** The rest of a round after a packet was read. *)
Lemma emit_wp (rest : dprog (LoopAns P) unit bool) l v :
  (forall l, lwp rest loop_post tt (mkSource SPolling l l)) ->
  lwp (st <~ dcall (Ans := LoopAns P) (EmitPacket (sp_port pol) (sp_packet pol v));
       if negb (ok st) then DRet true else rest) loop_post tt
      (mkSource SHolding (l ++ [sp_packet pol v]) l).
Proof.
  intros Hr. wcall st _.
  { cbn [source_step phase]. rewrite bool_decide_eq_true_2 by done. reflexivity. }
  cbn [got gave]. destruct (ok st); cbn [negb]; [apply Hr|by wstep].
Qed.

Lemma read_step r l : source_step pol (Ev ReadBackend r) (mkSource SPolling l l) =
  Some (if ok r.1 then mkSource SHolding (l ++ [sp_packet pol r.2]) l
        else mkSource (match sp_react pol (code r.1) with
                       | Retry => SPolling | End => SOver | EndCounted m u => SFailed m u
                       | Recover m => SRecovering m false end) l l).
Proof. reflexivity. Qed.
End refinement.

Lemma not_ok_code st c : code st = c -> c <> kOk -> ok st = false.
Proof. intros <- Hc. unfold ok. by apply bool_decide_eq_false_2. Qed.

Lemma v4l2_loop_wp fuel l :
  wp (source_step v4l2_policy) (fun _ _ => True) (V4l2Loop fuel) loop_post tt (mkSource SPolling l l).
Proof.
  revert l. induction fuel as [|fuel IH]; intros l; cbn [V4l2Loop]; [by wstep|].
  apply keep_running_wp. wcall r _; [apply read_step|].
  case_bool_decide as Hu.
  { rewrite (not_ok_code r.1 kUnavailable), Hu by done. apply IH. }
  destruct (ok r.1) eqn:Hok; cbn [negb]; [by apply (emit_wp v4l2_policy)|].
  replace (sp_react v4l2_policy (code r.1)) with (EndCounted "v4l2.errors" true) by (by destruct (code r.1)).
  wcall stop _; [reflexivity|]. destruct stop; [by repeat wstep|]. wcall [] _; [reflexivity|]. by wstep.
Qed.

Lemma streaming_loop_wp fuel l :
  wp (source_step streaming_policy) (fun _ _ => True) (StreamingLoop fuel) loop_post tt
     (mkSource SPolling l l).
Proof.
  revert l. induction fuel as [|fuel IH]; intros l; cbn [StreamingLoop]; [by wstep|].
  apply keep_running_wp. wcall r _; [apply read_step|].
  case_bool_decide as Hu.
  { rewrite (not_ok_code r.1 kUnavailable), Hu by done. apply IH. }
  case_bool_decide as Hc.
  { rewrite (not_ok_code r.1 kCancelled), Hc by done. by wstep. }
  destruct (ok r.1) eqn:Hok; cbn [negb]; [by apply (emit_wp streaming_policy)|].
  replace (sp_react streaming_policy (code r.1)) with (EndCounted "streaming.input_errors" false)
    by (by destruct (code r.1)).
  wcall [] _; [reflexivity|]. by wstep.
Qed.

Lemma alsa_loop_wp fuel l :
  wp (source_step alsa_policy) (fun _ _ => True) (AlsaLoop fuel) loop_post tt (mkSource SPolling l l).
Proof.
  revert l. induction fuel as [|fuel IH]; intros l; cbn [AlsaLoop]; [by wstep|].
  apply keep_running_wp. wcall r _; [apply read_step|].
  case_bool_decide as Hu.
  { rewrite (not_ok_code r.1 kUnavailable), Hu by done. apply IH. }
  case_bool_decide as Hc.
  { rewrite (not_ok_code r.1 kCancelled), Hc by done. by wstep. }
  destruct (ok r.1) eqn:Hok; cbn [negb]; [by apply (emit_wp alsa_policy)|].
  case_bool_decide as Hi; cbn [negb].
  - rewrite Hi. wcall [] _; [reflexivity|]. wcall st _; [reflexivity|].
    destruct (ok st); cbn [negb]; [apply IH|by wstep].
  - replace (sp_react alsa_policy (code r.1)) with (EndCounted "alsa.capture_errors" false)
      by (by destruct (code r.1)).
    wcall [] _; [reflexivity|]. by wstep.
Qed.

(** A loop refines the abstract source: every run of it, against any environment and for
    any number of rounds, is accepted, and the loop has left exactly when the source is
    over. *)
Definition refines {P} (pol : SourcePolicy P) (loop : nat -> dprog (LoopAns P) unit bool) : Prop :=
  forall (E : Type) (dev : Device (LoopAns P) E) (e : E) (fuel : nat),
  let '(r, _, _, evs) := drun dev (loop fuel) tt e in
  exists left l, r = Some left /\
    gsteps (source_step pol) evs new_source =
    Some (mkSource (if left then SOver else SPolling) l l).

Lemma refines_intro {P} (pol : SourcePolicy P) loop :
  (forall fuel l, wp (source_step pol) (fun _ _ => True) (loop fuel) loop_post tt (mkSource SPolling l l)) ->
  refines pol loop.
Proof.
  intros Hw E dev e fuel. destruct (drun dev (loop fuel) tt e) as [[[r s] e'] evs] eqn:Er.
  destruct (wp_sound _ _ _ _ _ _ _ _ _ _ _ _ (Hw fuel []) Er) as (left & [ph l l'] & -> & Hg & Hp & Hl).
  { generalize (mkSource SPolling [] []). clear. induction evs as [|ev evs IH]; simpl; auto. }
  simpl in Hp, Hl. subst. exists left, l. split; [done|]. unfold new_source. rewrite Hg. by destruct left.
Qed.


(** ** The node classes *)

(** [std::thread]: assigning to a thread that can be joined ends the program. *)
Inductive Thread := NoThread | Joinable | Terminated.
#[export] Instance Thread_eq_dec : EqDecision Thread.
Proof. solve_decision. Defined.

(** The private part of a node with a capture thread. *)
Record Capturing (B C : Type) := mkCapturing {
  cap_backend : B; cap_config : C; cap_stop : bool; cap_thread : Thread }.
Arguments mkCapturing {B C} _ _ _ _.
Arguments cap_backend {B C} _.
Arguments cap_config {B C} _.
Arguments cap_stop {B C} _.
Arguments cap_thread {B C} _.

Section capture.
Context {B C : Type}.
Context (open : C -> B -> Status * B) (request_stop close : B -> B).
Abbreviation Cap := (Capturing B C).

Definition CaptureOnConfigure (f : C -> Configuring C) : NodeM Cap Status :=
  nlocal (fun s => let '(st, c) := f (cap_config s) in
                   (st, mkCapturing (cap_backend s) c (cap_stop s) (cap_thread s))).

Definition CaptureOnOpen : NodeM Cap Status :=
  nlocal (fun s => let '(st, b) := open (cap_config s) (cap_backend s) in
                   (st, mkCapturing b (cap_config s) (cap_stop s) (cap_thread s))).

Definition start_thread (t : Thread) : Thread :=
  match t with NoThread => Joinable | _ => Terminated end.

(* [src/modules/rockchip/nodes.cpp:402-407] V4l2SourceNode::OnStart *)
Definition CaptureOnStart : NodeM Cap Status :=
  nlocal (fun s => (Ok, mkCapturing (cap_backend s) (cap_config s) false (start_thread (cap_thread s)))).

(* [src/modules/rockchip/nodes.cpp:409-412] V4l2SourceNode::OnRequestStop *)
Definition CaptureOnRequestStop : NodeM Cap unit :=
  nmodify (fun s => mkCapturing (request_stop (cap_backend s)) (cap_config s) true (cap_thread s)).

Definition join (t : Thread) : Thread := match t with Joinable => NoThread | t => t end.

(* [src/modules/rockchip/nodes.cpp:436-440] V4l2SourceNode::StopThread *)
Definition StopThread : NodeM Cap unit :=
  nmodify (fun s => mkCapturing (request_stop (cap_backend s)) (cap_config s) true
                                (join (cap_thread s))).

Definition CaptureOnStop : NodeM Cap Status := StopThread;;; NRet Ok.

Definition CaptureOnClose : NodeM Cap Status :=
  nmodify (fun s => mkCapturing (close (cap_backend s)) (cap_config s) (cap_stop s) (cap_thread s));;;
  NRet Ok.

(** The hooks of the three classes. *)
Definition capture_class (contract : NodeContract) (configure : NodeOptions -> C -> Configuring C)
  : NodeClass Cap :=
  mkNodeClass contract kSerial (fun o => CaptureOnConfigure (configure o)) CaptureOnOpen
    (fun _ => CaptureOnStart) (fun _ => NRet Ok) CaptureOnRequestStop CaptureOnStop CaptureOnClose.
End capture.

Definition vset_device v c := mkCaptureConfig v (cc_width c) (cc_height c) (cc_fps c) (cc_format c)
  (cc_io_mode c) (cc_buffer_count c).
Definition vset_width v c := mkCaptureConfig (cc_device c) v (cc_height c) (cc_fps c) (cc_format c)
  (cc_io_mode c) (cc_buffer_count c).
Definition vset_height v c := mkCaptureConfig (cc_device c) (cc_width c) v (cc_fps c) (cc_format c)
  (cc_io_mode c) (cc_buffer_count c).
Definition vset_fps v c := mkCaptureConfig (cc_device c) (cc_width c) (cc_height c) v (cc_format c)
  (cc_io_mode c) (cc_buffer_count c).
Definition vset_format v c := mkCaptureConfig (cc_device c) (cc_width c) (cc_height c) (cc_fps c) v
  (cc_io_mode c) (cc_buffer_count c).
Definition vset_io_mode v c := mkCaptureConfig (cc_device c) (cc_width c) (cc_height c) (cc_fps c)
  (cc_format c) v (cc_buffer_count c).

(** The status of [io_mode] replaces the one before. *)
(* [src/modules/rockchip/nodes.cpp:379-400] V4l2SourceNode::OnConfigure *)
Definition V4l2OnConfigure (o : NodeOptions) (c : V4l2CaptureConfig) : Configuring V4l2CaptureConfig :=
  if_present o "io_mode"
    (fun c => match GetStringOption o "io_mode" with
              | Err e => (e, c)
              | Okay v =>
                  if bool_decide (v = "mmap") then (Ok, vset_io_mode kMmap c)
                  else if bool_decide (v = "export_dmabuf") then (Ok, vset_io_mode kExportDmaBuf c)
                  else if bool_decide (v = "dmabuf") then
                    (Invalid ("V4L2 io_mode=dmabuf is ambiguous; use export_dmabuf for MMAP buffers "
                              +:+ "exported as DMA-BUF"), c)
                  else (Invalid "V4L2 io_mode must be mmap or export_dmabuf", c)
              end)
  (then_ (store_option (GetStringOption o "format") vset_format)
  (then_ (store_option (PositiveInteger o "fps") vset_fps)
  (then_ (store_option (PositiveInteger o "height") vset_height)
  (then_ (store_option (PositiveInteger o "width") vset_width)
  (store_option (GetStringOption o "device") vset_device c))))).

(* [src/modules/rockchip/nodes.cpp:366-446] V4l2SourceNode *)
Definition V4l2SourceNode {B} (backend : IV4l2Backend B) : NodeClass (Capturing B V4l2CaptureConfig) :=
  capture_class (v4l2_Open backend) (v4l2_RequestStop backend) (v4l2_Close backend)
    (mkContract [] [any_port "packet" true] ["device"; "width"; "height"; "fps"; "format"] kAny "")
    V4l2OnConfigure.

(* [src/modules/streaming/nodes.cpp:19-78] StreamingInputNode *)
Definition StreamingInputNode {B} (backend : IStreamingInputBackend B)
  : NodeClass (Capturing B StreamingSessionConfig) :=
  capture_class (in_Open backend) (in_RequestStop backend) (in_Close backend)
    (mkContract [] [kind_port kEncodedVideo "packet"] ["url"] kAny "")
    ConfigureSession.

(** [if (status.ok()) status = GetIntegerOption(options, key, &value)]: the value is
    kept when nothing is read. *)
Definition read_value (o : NodeOptions) (key : string) (x : Status * Z) : Status * Z :=
  if ok x.1 then match GetIntegerOption o key with Okay v => (Ok, v) | Err e => (e, x.2) end else x.

(** The fields are assigned and checked whether or not the options could be read. *)
(* [src/modules/audio/nodes.cpp:21-35] AlsaCaptureNode::OnConfigure *)
Definition AlsaOnConfigure (o : NodeOptions) (c : AlsaCaptureConfig) : Configuring AlsaCaptureConfig :=
  let '(st, device) := match GetStringOption o "device" with
                       | Okay v => (Ok, v) | Err e => (e, ac_device c) end in
  let '(st, value) := read_value o "sample_rate" (st, 0) in
  let rate := to_int value in
  let '(st, value) := read_value o "channels" (st, value) in
  let channels := to_int value in
  let '(st, format) := if ok st then match GetStringOption o "format" with
                                     | Okay v => (Ok, v) | Err e => (e, ac_format c) end
                       else (st, ac_format c) in
  let '(st, value) := read_value o "frame_ms" (st, value) in
  let frame_ms := to_int value in
  (if (rate <=? 0) || (channels <=? 0) || (frame_ms <=? 0)
   then Invalid "ALSA sample_rate, channels and frame_ms must be positive" else st,
   mkAlsaConfig device rate channels format frame_ms).

(* [src/modules/audio/nodes.cpp:10-89] AlsaCaptureNode *)
Definition AlsaCaptureNode {B} (backend : IAlsaBackend B) : NodeClass (Capturing B AlsaCaptureConfig) :=
  capture_class (alsa_Open backend) (alsa_RequestStop backend) (alsa_Close backend)
    (mkContract [] [kind_port kAudio "audio"] ["device"; "sample_rate"; "channels"; "format"; "frame_ms"]
       kAny "")
    AlsaOnConfigure.

Definition new_capturing {B C} (b : B) (c : C) : Capturing B C := mkCapturing b c false NoThread.

(** What [AlsaOnConfigure] accepts. *)
Lemma alsa_configure_positive o c st c' :
  AlsaOnConfigure o c = (st, c') -> ok st = true ->
  0 < ac_sample_rate c' /\ 0 < ac_channels c' /\ 0 < ac_frame_ms c'.
Proof.
  unfold AlsaOnConfigure. repeat case_match; intros [= <- <-] Hok; try discriminate.
  all: simplify_eq; cbn; match goal with H : _ || _ = false |- _ => apply orb_false_iff in H as [[? ?]%orb_false_iff ?] end;
    lia.
Qed.

(** The sample rate is cut to 32 bits before it is checked: [2^32 + 48000] passes as
    48000. *)
Example alsa_sample_rate_wraps :
  let o := list_to_map [("device", CString "hw:0"); ("sample_rate", CInt (2 ^ 32 + 48000));
            ("channels", CInt 2); ("format", CString "s16_le"); ("frame_ms", CInt 10)] in
  AlsaOnConfigure o default_alsa_config = (Ok, mkAlsaConfig "hw:0" 48000 2 "s16_le" 10).
Proof. vm_compute. reflexivity. Qed.

(** A [width] that is no integer is accepted when [io_mode] is given. *)
Example io_mode_hides_width :
  let o := list_to_map [("device", CString "/dev/video0"); ("width", CString "wide"); ("height", CInt 480);
            ("fps", CInt 30); ("format", CString "nv12"); ("io_mode", CString "mmap")] in
  ok (V4l2OnConfigure o default_capture_config).1 = true /\
  cc_width (V4l2OnConfigure o default_capture_config).2 = 0.
Proof. vm_compute. done. Qed.

(** ** The thread of a node *)

(** The calls that the owner of a node makes. *)
Inductive OwnerCall :=
| OConfigure (o : NodeOptions)
| OOpen
| OStart (c : NodeContext)
| OProcess (c : NodeContext)
| ORequestStop
| OStop
| OClose.

Definition owner_call {NS} (cls : NodeClass NS) (c : OwnerCall) : NodeM (NodeObj NS) unit :=
  match c with
  | OConfigure o => Configure cls o;;; NRet tt
  | OOpen => Open cls;;; NRet tt
  | OStart c => Start cls c;;; NRet tt
  | OProcess c => Process cls c;;; NRet tt
  | ORequestStop => RequestStop cls
  | OStop => Stop cls;;; NRet tt
  | OClose => Close cls;;; NRet tt
  end.

Fixpoint owner_calls {NS} (cls : NodeClass NS) (cs : list OwnerCall) : NodeM (NodeObj NS) unit :=
  match cs with
  | [] => NRet tt
  | c :: cs => owner_call cls c;;; owner_calls cls cs
  end.

(** The thread runs exactly while the node does. *)
Definition thread_owned {B C} (o : NodeObj (Capturing B C)) : Prop :=
  cap_thread (self o) = if bool_decide (state_ o = kRunning) then Joinable else NoThread.

(** The tests on a known state. *)
Ltac known_state :=
  repeat match goal with
  | |- context [bool_decide (@eq NodeState ?x ?y)] =>
      let v := eval vm_compute in (bool_decide (x = y)) in
      lazymatch v with true => idtac | false => idtac end;
      change (bool_decide (x = y)) with v
  end; cbn.

Section thread.
Context {B C : Type} (open : C -> B -> Status * B) (request_stop close : B -> B).
Context (contract : NodeContract) (conf : NodeOptions -> C -> Configuring C).
Abbreviation cls := (capture_class open request_stop close contract conf).
Context {W : Type} (h : Handler W).

Lemma owner_call_owned c o w : thread_owned o -> thread_owned (nrun h (owner_call cls c) o w).1.2.
Proof.
  destruct o as [st sr [b cf stp th]]. unfold thread_owned. cbn [self cap_thread state_]. intros ->.
  destruct c as [op| |ctx|ctx| | |]; cbn [owner_call].
  - unfold Configure, Transition. destruct st; cbn; try done; known_state.
    destruct (ok (ValidateOptions contract op)); cbn; [|done].
    destruct (conf op cf) as [r cf']; cbn. by destruct (ok r).
  - destruct st; cbn; try done; known_state. destruct (open cf b) as [r b']; cbn. by destruct (ok r).
  - by destruct st.
  - by destruct st.
  - destruct sr; cbn; done.
  - destruct st, sr; done.
  - destruct st, sr; done.
Qed.

Lemma owner_calls_owned cs o w : thread_owned o -> thread_owned (nrun h (owner_calls cls cs) o w).1.2.
Proof.
  revert o w. induction cs as [|c cs IH]; intros o w Ho; [done|]. cbn [owner_calls].
  rewrite nrun_bind. pose proof (owner_call_owned c o w Ho) as Hc.
  destruct (nrun h (owner_call cls c) o w) as [[[] o'] w']. by apply IH.
Qed.
End thread.

(** Whatever calls the owner of a capture node makes, in any order and also where the
    life cycle refuses them, the node has a capture thread exactly while it is running:
    [Start] never assigns to a thread that was not joined, which would end the program, and
    a node that was stopped or closed, or whose configuration or opening failed, has no
    thread left. *)
Theorem capture_thread_owned {W} (h : Handler W) (cs : list OwnerCall) (w : W) :
  (forall B (k : IV4l2Backend B) b c,
     thread_owned (nrun h (owner_calls (V4l2SourceNode k) cs) (new_node (new_capturing b c)) w).1.2) /\
  (forall B (k : IStreamingInputBackend B) b c,
     thread_owned (nrun h (owner_calls (StreamingInputNode k) cs) (new_node (new_capturing b c)) w).1.2) /\
  (forall B (k : IAlsaBackend B) b c,
     thread_owned (nrun h (owner_calls (AlsaCaptureNode k) cs) (new_node (new_capturing b c)) w).1.2).
Proof. split_and!; intros; by apply owner_calls_owned. Qed.

(** ** A source that is started again *)

(** What the backends do with [RequestStop]: until the next [Open] a read fails for
    good. *)
Class StickyStop {B P : Type} (read : B -> (Status * P) * B) (request_stop : B -> B) := {
  stopped : B -> Prop;
  stop_stops b : stopped (request_stop b);
  stopped_read b : stopped b ->
    ok (read b).1.1 = false /\ code (read b).1.1 <> kUnavailable /\ stopped (read b).2 }.

(** The outside of a thread whose flags stay as they are: the backend and the packets
    that were emitted. *)
Definition quiet_device {B P} (read : B -> (Status * P) * B) (stop cancelled : bool)
  : Device (LoopAns P) (B * list Packet) := fun c =>
  match c return B * list Packet -> LoopAns P c * (B * list Packet) with
  | LoadStop => fun e => (stop, e)
  | LoadCancelled => fun e => (cancelled, e)
  | ReadBackend => fun e => ((read e.1).1, ((read e.1).2, e.2))
  | EmitPacket _ p => fun e => (Ok, (e.1, e.2 ++ [p]))
  | CountMetric _ => fun e => (tt, e)
  | RecoverBackend => fun e => (Unavailable "", e)
  end.

Lemma restart_object {B} (backend : IV4l2Backend B) {W} (h : Handler W) b cf stp w ctx :
  (nrun h (owner_calls (V4l2SourceNode backend) [OStop; OStart ctx])
     (mkNodeObj kRunning false (mkCapturing b cf stp Joinable)) w).1.2 =
  mkNodeObj kRunning false
    (mkCapturing (v4l2_RequestStop backend (v4l2_RequestStop backend b)) cf false Joinable).
Proof. reflexivity. Qed.

(** A node that is stopped and started again, without [Close] and [Open] in between,
    starts a thread that ends in its first round and emits nothing. *)
Lemma restarted_source_is_silent {B} (backend : IV4l2Backend B)
    {SS : StickyStop (v4l2_Read backend) (v4l2_RequestStop backend)} {W} (h : Handler W)
    (o : NodeObj (Capturing B V4l2CaptureConfig)) w ctx fuel :
  thread_owned o -> state_ o = kRunning -> stop_requested_ o = false ->
  let o' := (nrun h (owner_calls (V4l2SourceNode backend) [OStop; OStart ctx]) o w).1.2 in
  state_ o' = kRunning /\ cap_thread (self o') = Joinable /\ cap_stop (self o') = false /\
  let '(r, _, e, _) := drun (quiet_device (v4l2_Read backend) (cap_stop (self o')) false)
                            (V4l2Loop (S fuel)) tt (cap_backend (self o'), []) in
  r = Some true /\ e.2 = [].
Proof.
  destruct o as [st sr [b cf stp th]]. unfold thread_owned. cbn [self cap_thread state_ stop_requested_].
  intros -> -> ->. change (if bool_decide _ then _ else _) with Joinable. rewrite restart_object.
  cbv zeta. split_and!; try done.
  pose proof (stop_stops (read := v4l2_Read backend) (v4l2_RequestStop backend b)) as Hs.
  destruct (stopped_read _ Hs) as (Hok & Hu & _).
  cbn [V4l2Loop self cap_stop cap_backend]. unfold keep_running, dcall.
  lazy beta iota zeta delta [dbind drun quiet_device]. cbn [fst snd].
  rewrite (bool_decide_eq_false_2 _ Hu), Hok. done.
Qed.

(** ** Registration *)

(** A factory of backends: the operations and the state of a new one. *)
Record Factory (I : Type -> Type) := mkFactory { fc_state : Type; fc_backend : I fc_state; fc_new : fc_state }.
Arguments mkFactory {I} _ _ _.
Arguments fc_state {I} _.
Arguments fc_backend {I} _.
Arguments fc_new {I} _.

(* [include/rkavp/backends/rockchip_nodes.hpp:14-22] RockchipBackendFactory *)
Record RockchipBackendFactory := mkRockchipFactory {
  CreateMppDecoder : Factory IMppDecoderBackend;
  CreateMppEncoder : Factory IMppEncoderBackend;
  CreateRga : Factory IRgaBackend;
  CreateRknn : Factory IRknnBackend;
  CreateV4l2 : Factory IV4l2Backend }.

Section registration.
Context (fuel : nat).
(** The host buffers of a kernel invocation, as the kernel node takes them. *)
Context (new_host : forall B : Type, list Z -> B -> list Z * B).
Context (set_fence : forall B : Type, list Z -> Z -> B -> B).
Import NodeRegistry.

(* [src/modules/rockchip/nodes.cpp:450-452] MakeMppDecoderNode *)
Definition MakeMppDecoderNode (f : Factory IMppDecoderBackend) : NodeType :=
  mkNodeType _ (MppDecoderNode (fc_backend f) fuel) (mkHosted (fc_new f) default_decoder_config).
(* [src/modules/rockchip/nodes.cpp:453-455] MakeMppEncoderNode *)
Definition MakeMppEncoderNode (f : Factory IMppEncoderBackend) : NodeType :=
  mkNodeType _ (MppEncoderNode (fc_backend f) fuel) (mkHosted (fc_new f) default_encoder_config).
(* [src/modules/rockchip/nodes.cpp:456-458] MakeRgaTransformNode *)
Definition MakeRgaTransformNode (f : Factory IRgaBackend) : NodeType :=
  mkNodeType _ (RgaTransformNode (fc_backend f)) (mkHosted (fc_new f) default_transform).
(* [src/modules/rockchip/nodes.cpp:459-461] MakeRknnInferenceNode *)
Definition MakeRknnInferenceNode (f : Factory IRknnBackend) : NodeType :=
  mkNodeType _ (RknnInferenceNode (fc_backend f))
    (mkHosted (fc_new f) (mkRknnNode default_model_config [] [])).
(* [src/modules/rockchip/nodes.cpp:462-464] MakeRknnBatchInferenceNode *)
Definition MakeRknnBatchInferenceNode (f : Factory IRknnBackend) : NodeType :=
  mkNodeType _ (RknnBatchInferenceNode (fc_backend f))
    (mkHosted (fc_new f) (mkRknnNode default_model_config [] [])).
(* [src/modules/rockchip/nodes.cpp:465-467] MakeV4l2SourceNode *)
Definition MakeV4l2SourceNode (f : Factory IV4l2Backend) : NodeType :=
  mkNodeType _ (V4l2SourceNode (fc_backend f)) (new_capturing (fc_new f) default_capture_config).
(* [src/modules/streaming/nodes.cpp:121-123] MakeStreamingInputNode *)
Definition MakeStreamingInputNode (f : Factory IStreamingInputBackend) : NodeType :=
  mkNodeType _ (StreamingInputNode (fc_backend f)) (new_capturing (fc_new f) default_session).
(* [src/modules/streaming/nodes.cpp:124-126] MakeStreamingOutputNode *)
Definition MakeStreamingOutputNode (f : Factory IStreamingOutputBackend) : NodeType :=
  mkNodeType _ (StreamingOutputNode (fc_backend f)) (mkHosted (fc_new f) default_session).
(* [src/modules/audio/nodes.cpp:93-95] MakeAlsaCaptureNode *)
Definition MakeAlsaCaptureNode (f : Factory IAlsaBackend) : NodeType :=
  mkNodeType _ (AlsaCaptureNode (fc_backend f)) (new_capturing (fc_new f) default_alsa_config).
(* [src/modules/opencl/nodes.cpp:102-104] MakeOpenClKernelNode *)
Definition MakeOpenClKernelNode (f : Factory IOpenClBackend) : NodeType :=
  mkNodeType _ (OpenClKernelNode (fc_backend f) (new_host _) (set_fence _))
    (mkHosted (fc_new f) (mkClNode default_kernel_config [] [])).

(** [Register] one type after the other until one fails. *)
Fixpoint register_types (ts : list (string * NodeType)) (r : Registry) : Status * Registry :=
  match ts with
  | [] => (Ok, r)
  | (name, t) :: ts =>
      let '(st, r') := Register name (Some t) r in
      if ok st then register_types ts r' else (st, r')
  end.

(** A null registry and an empty factory are [None]. *)
(* [src/modules/rockchip/nodes.cpp:469-492] RegisterRockchipNodes *)
Definition RegisterRockchipNodes (registry : option Registry) (factory : option RockchipBackendFactory)
  : Status * option Registry :=
  match registry, factory with
  | Some r, Some f =>
      let '(st, r') := register_types
        [("MppDecoder", MakeMppDecoderNode (CreateMppDecoder f));
         ("MppEncoder", MakeMppEncoderNode (CreateMppEncoder f));
         ("RgaTransform", MakeRgaTransformNode (CreateRga f));
         ("RknnInference", MakeRknnInferenceNode (CreateRknn f));
         ("RknnBatchInference", MakeRknnBatchInferenceNode (CreateRknn f));
         ("V4l2Source", MakeV4l2SourceNode (CreateV4l2 f))] r in
      (st, Some r')
  | _, _ => (Invalid "registry and Rockchip backend factory are required", registry)
  end.

(* [src/modules/streaming/nodes.cpp:127-139] RegisterStreamingNodes *)
Definition RegisterStreamingNodes (registry : option Registry)
    (input : option (Factory IStreamingInputBackend)) (output : option (Factory IStreamingOutputBackend))
  : Status * option Registry :=
  match registry, input, output with
  | Some r, Some i, Some o =>
      let '(st, r') := register_types [("StreamingInput", MakeStreamingInputNode i);
                                       ("StreamingOutput", MakeStreamingOutputNode o)] r in
      (st, Some r')
  | _, _, _ => (Invalid "streaming factories are required", registry)
  end.

(* [src/modules/audio/nodes.cpp:97-102] RegisterAudioNodes *)
Definition RegisterAudioNodes (registry : option Registry) (factory : option (Factory IAlsaBackend))
  : Status * option Registry :=
  match registry, factory with
  | Some r, Some f =>
      let '(st, r') := register_types [("AlsaCapture", MakeAlsaCaptureNode f)] r in (st, Some r')
  | _, _ => (Invalid "registry and ALSA backend factory are required", registry)
  end.

(* [src/modules/opencl/nodes.cpp:106-110] RegisterOpenClNodes *)
Definition RegisterOpenClNodes (registry : option Registry) (factory : option (Factory IOpenClBackend))
  : Status * option Registry :=
  match registry, factory with
  | Some r, Some f =>
      let '(st, r') := register_types [("OpenClKernel", MakeOpenClKernelNode f)] r in (st, Some r')
  | _, _ => (Invalid "OpenCL backend factory is required", registry)
  end.

(** Types that are new are all registered; nothing else changes. *)
Lemma register_types_new ts r :
  NoDup ts.*1 -> (forall name, name ∈ ts.*1 -> name <> "" /\ factories_ r !! name = None) ->
  exists r', register_types ts r = (Ok, r') /\
    (forall name t, (name, t) ∈ ts -> Create name r' = Some t) /\
    (forall name, name ∉ ts.*1 -> Create name r' = Create name r).
Proof.
  revert r. induction ts as [|[name t] ts IH]; intros r Hnd Hnew; cbn [register_types].
  { exists r. split_and!; [done|set_solver|done]. }
  apply NoDup_cons in Hnd as [Hn Hnd]. destruct (Hnew name) as [Hne Hf]; [set_solver|].
  unfold Register. rewrite bool_decide_eq_false_2, Hf by done. cbn [ok].
  destruct (IH (mkRegistry (<[name := t]> (factories_ r))) Hnd) as (r' & Hr & Hin & Hout).
  { intros n' Hin'. destruct (Hnew n') as [? ?]; [set_solver|]. split; [done|]. cbn.
    rewrite lookup_insert_ne; [done|]. intros ->. done. }
  exists r'. split_and!; [done| |].
  - intros n' t' [[= -> ->]|Hin']%elem_of_cons; [|by apply Hin].
    rewrite Hout by done. unfold Create. cbn. by rewrite lookup_insert_eq.
  - intros n' Hn'. rewrite Hout by set_solver. unfold Create. cbn. rewrite lookup_insert_ne; [done|set_solver].
Qed.

(** ** Plugins *)

(** What the loader calls: 0 for success.  The factories of the repository's backends are
    arguments. *)
Definition plugin_result (r : Status * option Registry) : Z * option Registry := (if ok r.1 then 0 else -1, r.2).

(* [src/modules/rockchip/plugin.cpp:24-28] rkavp_plugin_init_v2 *)
Definition rockchip_plugin_init (f : RockchipBackendFactory) (registry : option Registry) : Z * option Registry :=
  plugin_result (RegisterRockchipNodes registry (Some f)).
(* [src/modules/streaming/plugin.cpp:8-13] rkavp_plugin_init_v2 *)
Definition streaming_plugin_init (input : Factory IStreamingInputBackend) (output : Factory IStreamingOutputBackend)
    (registry : option Registry) : Z * option Registry :=
  plugin_result (RegisterStreamingNodes registry (Some input) (Some output)).
(* [src/modules/audio/plugin.cpp:7-11] rkavp_plugin_init_v2 *)
Definition audio_plugin_init (f : Factory IAlsaBackend) (registry : option Registry) : Z * option Registry :=
  plugin_result (RegisterAudioNodes registry (Some f)).
(* [src/modules/opencl/plugin.cpp:3-7] rkavp_plugin_init_v2 *)
Definition opencl_plugin_init (f : Factory IOpenClBackend) (registry : option Registry) : Z * option Registry :=
  plugin_result (RegisterOpenClNodes registry (Some f)).

(** A plugin whose types are new succeeds and provides them. *)
Lemma plugin_registers ts r :
  NoDup ts.*1 -> (forall name, name ∈ ts.*1 -> name <> "" /\ factories_ r !! name = None) ->
  exists r', plugin_result (let '(st, r') := register_types ts r in (st, Some r')) = (0, Some r') /\
    (forall name, name ∈ ts.*1 -> is_Some (factories_ r' !! name)) /\
    (forall name, name ∉ ts.*1 -> factories_ r' !! name = factories_ r !! name).
Proof.
  intros Hnd Hnew. destruct (register_types_new ts r Hnd Hnew) as (r' & Hr & Hin & Hout). exists r'. rewrite Hr.
  split_and!; [done| |exact Hout]. intros name Hn. apply list_elem_of_fmap in Hn as ([n t] & -> & Hn).
  specialize (Hin n t Hn). exists t. exact Hin.
Qed.

End registration.
