(* ===== verification/V4l2Backend.v ===== *)
(** * The V4L2 backend

    [src/modules/rockchip/v4l2/backend.cpp]: video capture with memory-mapped buffers of
    the kernel.  A frame that was read is a lease ([V4l2LeaseBuffer]): it shares the
    [CaptureState] with the backend, gives its buffer back to the driver when it is
    dropped, and may outlive the capture it comes from.

    [V4l2] is the backend together with the capture states and the leases that are alive;
    a capture state is destroyed with the last reference to it.  The kernel is the outside
    ([V4lCmd]).

    [v4l2_backend_safe]: descriptors and mappings are used and released exactly while they
    exist, and no two leases share a buffer. *)

From S2P Require Import Prelude Status Timestamp Values Buffer Contract Node Device Backends ModuleNodes CaptureNodes.
From stdpp Require Import gmultiset pretty.
Local Open Scope rkavp_scope.
Local Open Scope Z_scope.

(** ** The kernel *)

Class V4l2Constants := {
  EINTR : Z; EAGAIN : Z; strerror : Z -> string;
  V4L2_CAP_STREAMING : Z;
  V4L2_PIX_FMT_MJPEG : Z; V4L2_PIX_FMT_H264 : Z; V4L2_PIX_FMT_HEVC : Z;
  V4L2_PIX_FMT_NV12 : Z; V4L2_PIX_FMT_NV21 : Z; V4L2_PIX_FMT_YUYV : Z }.

(** The requests, with the fields of the argument that the code sets. *)
Inductive Ioctl :=
| VIDIOC_QUERYCAP
| VIDIOC_S_FMT (width height pixelformat : Z)
| VIDIOC_S_PARM (fps : Z)
| VIDIOC_REQBUFS (count : Z)
| VIDIOC_QUERYBUF (index : Z)
| VIDIOC_EXPBUF (index : Z)
| VIDIOC_QBUF (index : Z)
| VIDIOC_DQBUF
| VIDIOC_STREAMON
| VIDIOC_STREAMOFF.

(** What [VIDIOC_S_FMT] leaves in its argument, and [VIDIOC_DQBUF]. *)
Record PixFormat := mkPix { px_width : Z; px_height : Z; px_bytesperline : Z }.
Record Dequeued := mkDequeued { dq_index : Z; dq_bytesused : Z; dq_sec : Z; dq_usec : Z }.

(** What the code reads of the argument after a request. *)
Definition IoArg (r : Ioctl) : Type :=
  match r with
  | VIDIOC_QUERYCAP => Z
  | VIDIOC_S_FMT _ _ _ => PixFormat
  | VIDIOC_REQBUFS _ => Z
  | VIDIOC_QUERYBUF _ => Z * Z
  | VIDIOC_EXPBUF _ => Z
  | VIDIOC_DQBUF => Dequeued
  | _ => unit
  end.

(** The result of a system call and [errno]. *)
Record Sys := mkSys { sys_result : Z; sys_errno : Z }.

(** [poll]: what is ready, and whether another thread called [RequestStop] while this one
    waited. *)
Record Polled := mkPolled {
  po_sys : Sys; po_frame : bool; po_wake : bool; po_stopped : bool }.

Inductive V4lCmd :=
| VOpenDevice (path : string)
| VPipe
| VIoctl (fd : Z) (r : Ioctl)
| VMmap (fd length offset : Z)
| VMunmap (address length : Z)
| VCloseFd (fd : Z)
| VPoll (fd wake : Z)
| VWrite (fd : Z).

Definition V4lAns (c : V4lCmd) : Type :=
  match c with
  | VOpenDevice _ => Sys
  | VPipe => option (Z * Z)
  | VIoctl _ r => Sys * IoArg r
  | VMmap _ _ _ => option Z
  | VMunmap _ _ => unit
  | VCloseFd _ => unit
  | VPoll _ _ => Polled
  | VWrite _ => Sys
  end.

(** ** The objects *)

(** [nullptr], [MAP_FAILED] or an address. *)
Inductive Address := ANull | AFailed | AAt (a : Z).

Record Mapping := mkMapping { mp_address : Address; mp_length : Z; mp_dma_fd : Z }.
Definition no_mapping : Mapping := mkMapping ANull 0 (-1).

(* [src/modules/rockchip/v4l2/backend.cpp:37-50] CaptureState *)
Record CaptureState := mkCapture {
  cs_fd : Z;
  cs_wake_read : Z;
  cs_wake_write : Z;
  cs_mappings : list Mapping;
  cs_streaming : bool;
  cs_closing : bool }.

(* [src/modules/rockchip/v4l2/backend.cpp:92-98] V4l2LeaseBuffer (fields) *)
Record Lease := mkLease {
  ls_state : Z;
  ls_index : Z;
  ls_bytes_used : Z;
  ls_memory_type : MemoryType;
  ls_planes : list BufferPlane }.

(* [src/modules/rockchip/v4l2/backend.cpp:259-263] LinuxV4l2Backend (fields) *)
Record V4l2 := mkV4l2State {
  captures : gmap Z CaptureState;
  leases : gmap Z Lease;
  next_id : Z;
  state_ : option Z;
  config_ : V4l2CaptureConfig;
  bytes_per_line_ : Z;
  sequence_ : Z;
  stop_ : bool }.

Definition new_v4l2 : V4l2 := mkV4l2State ∅ ∅ 0 None default_capture_config 0 0 false.

Definition set_captures (m : gmap Z CaptureState) (s : V4l2) : V4l2 :=
  mkV4l2State m (leases s) (next_id s) (state_ s) (config_ s) (bytes_per_line_ s) (sequence_ s) (stop_ s).
Definition set_leases (m : gmap Z Lease) (s : V4l2) : V4l2 :=
  mkV4l2State (captures s) m (next_id s) (state_ s) (config_ s) (bytes_per_line_ s) (sequence_ s)
    (stop_ s).
Definition set_state (i : option Z) (s : V4l2) : V4l2 :=
  mkV4l2State (captures s) (leases s) (next_id s) i (config_ s) (bytes_per_line_ s) (sequence_ s)
    (stop_ s).
Definition set_sequence (n : Z) (s : V4l2) : V4l2 :=
  mkV4l2State (captures s) (leases s) (next_id s) (state_ s) (config_ s) (bytes_per_line_ s) n (stop_ s).
Definition set_stop (b : bool) (s : V4l2) : V4l2 :=
  mkV4l2State (captures s) (leases s) (next_id s) (state_ s) (config_ s) (bytes_per_line_ s)
    (sequence_ s) b.

(** [std::make_shared]: an identity that is not in use. *)
Definition add_capture (c : CaptureState) (s : V4l2) : Z * V4l2 :=
  (next_id s, mkV4l2State (<[next_id s := c]> (captures s)) (leases s) (next_id s + 1) (state_ s)
     (config_ s) (bytes_per_line_ s) (sequence_ s) (stop_ s)).
Definition add_lease (l : Lease) (s : V4l2) : Z * V4l2 :=
  (next_id s, mkV4l2State (captures s) (<[next_id s := l]> (leases s)) (next_id s + 1) (state_ s)
     (config_ s) (bytes_per_line_ s) (sequence_ s) (stop_ s)).

Definition with_fd (fd : Z) (c : CaptureState) : CaptureState :=
  mkCapture fd (cs_wake_read c) (cs_wake_write c) (cs_mappings c) (cs_streaming c) (cs_closing c).
Definition with_wake (r w : Z) (c : CaptureState) : CaptureState :=
  mkCapture (cs_fd c) r w (cs_mappings c) (cs_streaming c) (cs_closing c).
Definition with_mappings (l : list Mapping) (c : CaptureState) : CaptureState :=
  mkCapture (cs_fd c) (cs_wake_read c) (cs_wake_write c) l (cs_streaming c) (cs_closing c).
Definition with_streaming (b : bool) (c : CaptureState) : CaptureState :=
  mkCapture (cs_fd c) (cs_wake_read c) (cs_wake_write c) (cs_mappings c) b (cs_closing c).
Definition with_closing (b : bool) (c : CaptureState) : CaptureState :=
  mkCapture (cs_fd c) (cs_wake_read c) (cs_wake_write c) (cs_mappings c) (cs_streaming c) b.
Definition new_capture : CaptureState := mkCapture (-1) (-1) (-1) [] false false.

Abbreviation VProg := (dprog V4lAns V4l2).
Abbreviation vcall := (dcall (Ans := V4lAns) (S := V4l2)).

Section backend.
(** [fuel] bounds how often in a row an interrupted call is made again. *)
Context {VC : V4l2Constants} (fuel : nat).

Definition interrupted (r : Sys) : bool := (sys_result r <? 0) && (sys_errno r =? EINTR).

Fixpoint retry_ioctl (n : nat) (fd : Z) (r : Ioctl) : VProg (Sys * IoArg r) :=
  a <~ vcall (VIoctl fd r);
  match n with
  | O => DRet a
  | S n => if interrupted a.1 then retry_ioctl n fd r else DRet a
  end.

(* [src/modules/rockchip/v4l2/backend.cpp:19-25] IoctlRetry *)
Definition IoctlRetry (fd : Z) (r : Ioctl) : VProg (Sys * IoArg r) := retry_ioctl fuel fd r.

(** Zero for a format that is not supported. *)
(* [src/modules/rockchip/v4l2/backend.cpp:27-35] V4l2Format *)
Definition V4l2Format (format : string) : Z :=
  if bool_decide (format = "mjpeg") || bool_decide (format = "jpeg") then V4L2_PIX_FMT_MJPEG
  else if bool_decide (format = "h264") then V4L2_PIX_FMT_H264
  else if bool_decide (format = "h265") || bool_decide (format = "hevc") then V4L2_PIX_FMT_HEVC
  else if bool_decide (format = "nv12") then V4L2_PIX_FMT_NV12
  else if bool_decide (format = "nv21") then V4L2_PIX_FMT_NV21
  else if bool_decide (format = "yuyv") then V4L2_PIX_FMT_YUYV
  else 0.

Definition close_fd (fd : Z) : VProg unit := if 0 <=? fd then vcall (VCloseFd fd) else DRet tt.

Definition unmap (m : Mapping) : VProg unit :=
  match mp_address m with AAt a => vcall (VMunmap a (mp_length m)) | _ => DRet tt end;~
  close_fd (mp_dma_fd m).

(* [src/modules/rockchip/v4l2/backend.cpp:52-64] CaptureState::~CaptureState *)
Definition DestroyCapture (c : CaptureState) : VProg unit :=
  (if cs_streaming c && (0 <=? cs_fd c) then IoctlRetry (cs_fd c) VIDIOC_STREAMOFF;~ DRet tt else DRet tt);~
  deach (cs_mappings c) unmap;~
  close_fd (cs_fd c);~ close_fd (cs_wake_read c);~ close_fd (cs_wake_write c).

(** A capture state that the backend or a lease refers to. *)
Definition referenced (i : Z) (s : V4l2) : bool :=
  bool_decide (state_ s = Some i) || existsb (fun l => ls_state l.2 =? i) (map_to_list (leases s)).

(** A reference to a capture state is gone. *)
Definition release (i : Z) : VProg unit :=
  r <~ dget (referenced i);
  if (r : bool) then DRet tt else
  c <~ dget (fun s => captures s !! i);
  match c with
  | None => DUndefined "capture state released twice"
  | Some c => dset (fun s => set_captures (delete i (captures s)) s);~ DestroyCapture c
  end.

(** The members of a capture state. *)
Definition capture_of (i : Z) {A} (k : CaptureState -> VProg A) : VProg A :=
  c <~ dget (fun s => captures s !! i);
  match c with None => DUndefined "dangling capture state" | Some c => k c end.
Definition put_capture (i : Z) (c : CaptureState) : VProg unit :=
  dset (fun s => set_captures (<[i := c]> (captures s)) s).

(** The wake byte; other failures than an interruption are ignored. *)
Fixpoint retry_write (n : nat) (fd : Z) : VProg unit :=
  a <~ vcall (VWrite fd);
  match n with
  | O => DRet tt
  | S n => if interrupted a then retry_write n fd else DRet tt
  end.

(* [src/modules/rockchip/v4l2/backend.cpp:232-243] LinuxV4l2Backend::RequestStop *)
Definition RequestStop : VProg unit :=
  dset (set_stop true);~
  st <~ dget state_;
  match st with
  | None => DRet tt
  | Some i => capture_of i (fun c => if 0 <=? cs_wake_write c then retry_write fuel (cs_wake_write c)
                                     else DRet tt)
  end.

(* [src/modules/rockchip/v4l2/backend.cpp:245-256] LinuxV4l2Backend::Close *)
Definition Close : VProg unit :=
  RequestStop;~
  st <~ dget state_;
  match st with
  | None => DRet tt
  | Some i =>
      capture_of i (fun c =>
        (if cs_streaming c then IoctlRetry (cs_fd c) VIDIOC_STREAMOFF;~ DRet tt else DRet tt);~
        put_capture i (with_streaming false (with_closing true c)));~
      dset (set_state None);~
      release i
  end.

(** The buffer [i] of the loop in [Open]; the status and the state so far. *)
Definition prepare_buffer (config : V4l2CaptureConfig) (i : nat) (c : CaptureState)
  : VProg (Status * CaptureState) :=
  q <~ IoctlRetry (cs_fd c) (VIDIOC_QUERYBUF (Z.of_nat i));
  if negb (sys_result q.1 =? 0) then DRet (Unavailable "VIDIOC_QUERYBUF failed", c) else
  let length := fst q.2 in
  a <~ vcall (VMmap (cs_fd c) length (snd q.2));
  match a with
  | None => DRet (Unavailable "mmap V4L2 buffer failed",
                  with_mappings (<[i := mkMapping AFailed length (-1)]> (cs_mappings c)) c)
  | Some address =>
      e <~ IoctlRetry (cs_fd c) (VIDIOC_EXPBUF (Z.of_nat i));
      let dma_fd := if sys_result e.1 =? 0 then e.2 else -1 in
      let c := with_mappings (<[i := mkMapping (AAt address) length dma_fd]> (cs_mappings c)) c in
      if bool_decide (cc_io_mode config = kExportDmaBuf) && (dma_fd <? 0)
      then DRet (Unavailable "V4L2 device cannot export DMA-BUF", c) else
      r <~ IoctlRetry (cs_fd c) (VIDIOC_QBUF (Z.of_nat i));
      DRet (if sys_result r.1 =? 0 then Ok else Unavailable "VIDIOC_QBUF failed", c)
  end.

Fixpoint prepare_buffers (config : V4l2CaptureConfig) (todo : list nat) (c : CaptureState)
  : VProg (Status * CaptureState) :=
  match todo with
  | [] => DRet (Ok, c)
  | i :: todo =>
      r <~ prepare_buffer config i c;
      if ok r.1 then prepare_buffers config todo r.2 else DRet r
  end.

(** What [Open] does with a device that is open: the status, the state and the format. *)
Definition negotiate (config : V4l2CaptureConfig) (pixel_format : Z) (c : CaptureState)
  : VProg (Status * CaptureState * PixFormat) :=
  let none := mkPix 0 0 0 in
  cap <~ IoctlRetry (cs_fd c) VIDIOC_QUERYCAP;
  if negb (sys_result cap.1 =? 0) || (Z.land cap.2 V4L2_CAP_STREAMING =? 0)
  then DRet (Unavailable "V4L2 device does not support streaming", c, none) else
  f <~ IoctlRetry (cs_fd c) (VIDIOC_S_FMT (cc_width config) (cc_height config) pixel_format);
  if negb (sys_result f.1 =? 0)
  then DRet (Unavailable ("VIDIOC_S_FMT failed: " +:+ strerror (sys_errno f.1)), c, none) else
  IoctlRetry (cs_fd c) (VIDIOC_S_PARM (cc_fps config));~
  q <~ IoctlRetry (cs_fd c) (VIDIOC_REQBUFS (u32 (cc_buffer_count config)));
  if negb (sys_result q.1 =? 0) || (q.2 <? 2)
  then DRet (Unavailable "V4L2 buffer allocation failed", c, none) else
  r <~ prepare_buffers config (seq 0 (Z.to_nat q.2))
         (with_mappings (replicate (Z.to_nat q.2) no_mapping) c);
  if negb (ok r.1) then DRet (r.1, r.2, none) else
  o <~ IoctlRetry (cs_fd c) VIDIOC_STREAMON;
  DRet (if sys_result o.1 =? 0 then Ok else Unavailable "VIDIOC_STREAMON failed", r.2, f.2).

Definition opened (config : V4l2CaptureConfig) (f : PixFormat) (c : CaptureState) (s : V4l2) : V4l2 :=
  let '(i, s) := add_capture c s in
  mkV4l2State (captures s) (leases s) (next_id s) (Some i)
    (mkCaptureConfig (cc_device config) (to_int (px_width f)) (to_int (px_height f)) (cc_fps config)
       (cc_format config) (cc_io_mode config) (cc_buffer_count config))
    (px_bytesperline f) 0 false.

(** The capture state of a failed [Open] is destroyed on return. *)
(* [src/modules/rockchip/v4l2/backend.cpp:102-182] LinuxV4l2Backend::Open *)
Definition Open (config : V4l2CaptureConfig) : VProg Status :=
  Close;~
  let pixel_format := V4l2Format (cc_format config) in
  if bool_decide (cc_device config = "") || (pixel_format =? 0) || (cc_width config <=? 0) ||
     (cc_height config <=? 0) || (cc_fps config <=? 0)
  then DRet (Invalid "invalid V4L2 capture configuration") else
  f <~ vcall (VOpenDevice (cc_device config));
  let c := with_fd (sys_result f) new_capture in
  if sys_result f <? 0 then
    DestroyCapture c;~ DRet (Unavailable ("open V4L2 device failed: " +:+ strerror (sys_errno f)))
  else
  w <~ vcall VPipe;
  match w with
  | None => DestroyCapture c;~ DRet (Internal "create V4L2 wake pipe failed")
  | Some w =>
      r <~ negotiate config pixel_format (with_wake w.1 w.2 c);
      let '(st, c, f) := r in
      if ok st then dset (opened config f (with_streaming true c));~ DRet Ok
      else DestroyCapture c;~ DRet st
  end.

(** Signed 64-bit arithmetic that must not overflow. *)
Definition checked {A} (z : Z) (k : VProg A) : VProg A :=
  if bool_decide (is_i64 z) then k else DUndefined "signed overflow".

Definition encoded_format (format : string) : bool :=
  bool_decide (format = "mjpeg") || bool_decide (format = "jpeg") || bool_decide (format = "h264") ||
  bool_decide (format = "h265") || bool_decide (format = "hevc").

(* [src/modules/rockchip/v4l2/backend.cpp:69-77] V4l2LeaseBuffer::V4l2LeaseBuffer *)
Definition make_lease (i : Z) (c : CaptureState) (d : Dequeued) (row_stride : Z) (memory : MemoryType)
  : VProg Z :=
  match cs_mappings c !! Z.to_nat (dq_index d) with
  | None => DUndefined "mappings index out of range"
  | Some m => DLocal (add_lease (mkLease i (dq_index d) (dq_bytesused d) memory
                [mkPlane (mp_dma_fd m) 0 (dq_bytesused d) row_stride 1 0])) DRet
  end.

(** What a dequeued buffer becomes. *)
Definition deliver (i : Z) (c : CaptureState) (d : Dequeued) : VProg Packet :=
  checked (dq_sec d * 1000000)
  (checked (dq_sec d * 1000000 + dq_usec d)
  (let timestamp := FromMicroseconds (dq_sec d * 1000000 + dq_usec d) in
   cfg <~ dget config_;
   stride <~ dget bytes_per_line_;
   payload <~ make_lease i c d stride
     (if bool_decide (cc_io_mode cfg = kExportDmaBuf) then kDmaBuf else kHost);
   if encoded_format (cc_format cfg) then
     DRet (Make (PlEncoded (mkEncodedPacket timestamp timestamp (cc_format cfg) false (Some payload)))
             timestamp)
   else
     n <~ dget sequence_;
     dset (set_sequence (u64 (n + 1)));~
     DRet (Make (PlVideo (mkVideoFrame n timestamp (cc_width cfg) (cc_height cfg) (to_int stride)
                            (cc_height cfg) (cc_format cfg) (Some payload))) timestamp))).

(** [None] when no packet was written. *)
(* [src/modules/rockchip/v4l2/backend.cpp:184-230] LinuxV4l2Backend::Read *)
Definition Read : VProg (Status * option Packet) :=
  st <~ dget state_;
  match st with
  | None => DRet (FailedPrecondition "V4L2 backend is not open", None)
  | Some i =>
      stop <~ dget stop_;
      if (stop : bool) then DRet (Cancelled "V4L2 capture stopped", None) else
      capture_of i (fun c =>
        p <~ vcall (VPoll (cs_fd c) (cs_wake_read c));
        dset (fun s => set_stop (stop_ s || po_stopped p) s);~
        if sys_result (po_sys p) <? 0 then
          DRet (if sys_errno (po_sys p) =? EINTR then Unavailable "V4L2 poll interrupted"
                else Internal ("V4L2 poll failed: " +:+ strerror (sys_errno (po_sys p))), None)
        else if sys_result (po_sys p) =? 0 then DRet (Unavailable "V4L2 poll timed out", None) else
        stop <~ dget stop_;
        if po_wake p || stop then DRet (Cancelled "V4L2 capture stopped", None)
        else if negb (po_frame p) then DRet (Unavailable "V4L2 frame not ready", None) else
        d <~ IoctlRetry (cs_fd c) VIDIOC_DQBUF;
        if negb (sys_result d.1 =? 0) then
          DRet (if sys_errno d.1 =? EAGAIN then Unavailable "V4L2 dequeue would block"
                else Internal ("VIDIOC_DQBUF failed: " +:+ strerror (sys_errno d.1)), None)
        else
          packet <~ deliver i c d.2;
          DRet (Ok, Some packet))
  end.

(** The last reference to a lease is gone. *)
(* [src/modules/rockchip/v4l2/backend.cpp:78-86] V4l2LeaseBuffer::~V4l2LeaseBuffer *)
Definition DropLease (l : Z) : VProg unit :=
  x <~ dget (fun s => leases s !! l);
  match x with
  | None => DRet tt
  | Some x =>
      capture_of (ls_state x) (fun c =>
        if cs_closing c || negb (cs_streaming c) then DRet tt
        else IoctlRetry (cs_fd c) (VIDIOC_QBUF (ls_index x));~ DRet tt);~
      dset (fun s => set_leases (delete l (leases s)) s);~
      release (ls_state x)
  end.

(** [nullptr] for a lease that does not exist. *)
(* [src/modules/rockchip/v4l2/backend.cpp:90-90] V4l2LeaseBuffer::Map *)
Definition LeaseMap (l : Z) (s : V4l2) : Address :=
  match leases s !! l with
  | None => ANull
  | Some x => match captures s !! ls_state x with
              | None => ANull
              | Some c => match cs_mappings c !! Z.to_nat (ls_index x) with
                          | None => ANull
                          | Some m => mp_address m
                          end
              end
  end.

(** The destructor of the backend: its reference is gone, without [Close]. *)
Definition DestroyBackend : VProg unit :=
  st <~ dget state_;
  match st with
  | None => DRet tt
  | Some i => dset (set_state None);~ release i
  end.
End backend.

(** ** What the calls need and leave *)

Definition hfd (fd : Z) : Handle := ("fd", fd).
Definition hmm (length a : Z) : Handle := ("mapping of " +:+ pretty length, a).

(** For a device whose buffers were requested: how many there are, and which of them are
    with the program, not with the driver. *)
Abbreviation Queues := (gmap Z (Z * gset Z)).
Abbreviation V4lGhost := (Held * Queues)%type.

Definition all_buffers (n : Z) : gset Z := list_to_set (map Z.of_nat (seq 0 (Z.to_nat n))).

Definition v4l_effect (ev : devent V4lAns) : Effect Handle :=
  let 'Ev c a := ev in
  match c return V4lAns c -> Effect Handle with
  | VOpenDevice _ => fun r => if sys_result r <? 0 then no_effect else obtaining [hfd (sys_result r)]
  | VPipe => fun w => match w with Some w => obtaining [hfd w.1; hfd w.2] | None => no_effect end
  | VIoctl fd r => fun a =>
      mkEffect [hfd fd] [] []
        (match r return IoArg r -> list Handle with
         | VIDIOC_EXPBUF _ => fun d => if sys_result a.1 =? 0 then [hfd d] else []
         | _ => fun _ => []
         end a.2)
  | VMmap fd len _ => fun a => mkEffect [hfd fd] [] [] (match a with Some a => [hmm len a] | None => [] end)
  | VMunmap a len => fun _ => returning [hmm len a]
  | VCloseFd fd => fun _ => returning [hfd fd]
  | VPoll fd wake => fun _ => needing [hfd fd; hfd wake]
  | VWrite fd => fun _ => needing [hfd fd]
  end a.

(** A buffer is queried and exported if it exists, and queued if the program has it. *)
Definition queue_guard (c : V4lCmd) (q : Queues) : bool :=
  match c with
  | VIoctl fd (VIDIOC_QUERYBUF i) | VIoctl fd (VIDIOC_EXPBUF i) =>
      match q !! fd with Some (n, _) => (0 <=? i) && (i <? n) | None => false end
  | VIoctl fd (VIDIOC_QBUF i) =>
      match q !! fd with Some (_, D) => bool_decide (i ∈ D) | None => false end
  | _ => true
  end.

Definition queue_step (ev : devent V4lAns) (q : Queues) : Queues :=
  let 'Ev c a := ev in
  match c return V4lAns c -> Queues with
  | VIoctl fd r => fun a =>
      if negb (sys_result a.1 =? 0) then q else
      match r return IoArg r -> Queues with
      | VIDIOC_REQBUFS _ => fun n => <[fd := (n, all_buffers n)]> q
      | VIDIOC_QBUF i => fun _ =>
          match q !! fd with Some (n, D) => <[fd := (n, (D ∖ {[i]}))]> q | None => q end
      | VIDIOC_DQBUF => fun d =>
          match q !! fd with Some (n, D) => <[fd := (n, (D ∪ {[dq_index d]}))]> q | None => q end
      | VIDIOC_STREAMOFF => fun _ =>
          match q !! fd with Some (n, _) => <[fd := (n, all_buffers n)]> q | None => q end
      | _ => fun _ => q
      end a.2
  | VCloseFd fd => fun _ => delete fd q
  | _ => fun _ => q
  end a.

Definition v4l_gstep (ev : devent V4lAns) (g : V4lGhost) : option V4lGhost :=
  if queue_guard (ev_cmd ev) g.2 then
    match account (v4l_effect ev) g.1 with
    | Some held => Some (held, queue_step ev g.2)
    | None => None
    end
  else None.

(** New descriptors are not in use; a buffer that the driver hands out is one of those it
    has, with a time of day. *)
Definition v4l_allowed (g : V4lGhost) (ev : devent V4lAns) : Prop :=
  let 'Ev c a := ev in
  match c return V4lAns c -> Prop with
  | VOpenDevice _ => fun r => 0 <= sys_result r -> hfd (sys_result r) ∉ g.1
  | VPipe => fun w => match w with
      | Some x => 0 <= x.1 /\ 0 <= x.2 /\ x.1 <> x.2 /\ (hfd x.1 ∉ g.1) /\ (hfd x.2 ∉ g.1)
      | None => True
      end
  | VIoctl fd r => fun a => sys_result a.1 = 0 ->
      match r return IoArg r -> Prop with
      | VIDIOC_EXPBUF _ => fun d => 0 <= d /\ hfd d ∉ g.1
      | VIDIOC_DQBUF => fun d => match g.2 !! fd with
          | Some (n, D) => 0 <= dq_index d < n /\ (dq_index d ∉ D) /\
                           0 <= dq_sec d < 2 ^ 42 /\ 0 <= dq_usec d < 1000000
          | None => False
          end
      | _ => fun _ => True
      end a.2
  | _ => fun _ => True
  end a.

(** ** The invariant *)

Definition fd_handles (fd : Z) : list Handle := if 0 <=? fd then [hfd fd] else [].
Definition mapping_handles (m : Mapping) : list Handle :=
  match mp_address m with AAt a => [hmm (mp_length m) a] | _ => [] end ++ fd_handles (mp_dma_fd m).
Definition capture_handles (c : CaptureState) : list Handle :=
  concat (map mapping_handles (cs_mappings c)) ++
  fd_handles (cs_fd c) ++ fd_handles (cs_wake_read c) ++ fd_handles (cs_wake_write c).

Definition total (m : gmap Z CaptureState) : Held := hsum capture_handles m.

(** The buffers of the leases of capture [i] are with the program while it streams. *)
Definition leases_ok (s : V4l2) (q : Queues) (i : Z) (c : CaptureState) : Prop :=
  cs_streaming c = true -> exists D, q !! cs_fd c = Some (Z.of_nat (length (cs_mappings c)), D) /\
  (forall l ls, leases s !! l = Some ls -> ls_state ls = i -> ls_index ls ∈ D).

Definition lease_indices (s : V4l2) : Prop :=
  forall l l' ls ls', leases s !! l = Some ls -> leases s !! l' = Some ls' ->
  ls_state ls = ls_state ls' -> ls_index ls = ls_index ls' -> l = l'.

Definition capture_ok (c : CaptureState) : Prop :=
  0 <= cs_fd c /\ 0 <= cs_wake_read c /\ 0 <= cs_wake_write c /\
  cs_closing c = negb (cs_streaming c) /\ Forall (fun m => exists a, mp_address m = AAt a) (cs_mappings c).

(** The capture state [exempt] may have lost its last reference. *)
Record v4l_pre (exempt : option Z) (s : V4l2) (g : V4lGhost) : Prop := mkPre {
  inv_held : g.1 = total (captures s);
  inv_fds : forall x, (multiplicity (hfd x) g.1 <= 1)%nat;
  inv_captures : forall i c, captures s !! i = Some c ->
    capture_ok c /\ leases_ok s g.2 i c /\ (referenced i s = true \/ exempt = Some i);
  inv_indices : lease_indices s;
  inv_leases : forall l ls, leases s !! l = Some ls -> exists c,
    captures s !! ls_state ls = Some c /\ 0 <= ls_index ls < Z.of_nat (length (cs_mappings c));
  inv_state : forall i, state_ s = Some i -> exists c, captures s !! i = Some c /\ cs_streaming c = true;
  inv_ids : (forall i, is_Some (captures s !! i) -> i < next_id s) /\
            (forall l, is_Some (leases s !! l) -> l < next_id s) }.
Abbreviation v4l_inv := (v4l_pre None).

(** ** Calls *)

Section safety.
Context {VC : V4l2Constants} (fuel : nat).
Abbreviation vwp := (wp v4l_gstep v4l_allowed).
Implicit Types (g : V4lGhost) (s : V4l2) (q : Queues) (held rest : Held).

(** A request that changes no handle. *)
Lemma ioctl_step fd r (a : Sys * IoArg r) g :
  hfd fd ∈ g.1 -> queue_guard (VIoctl fd r) g.2 = true ->
  sys_result a.1 <> 0 \/ (forall i, r <> VIDIOC_EXPBUF i) ->
  v4l_gstep (Ev (VIoctl fd r) a) g = Some (g.1, queue_step (Ev (VIoctl fd r) a) g.2).
Proof.
  intros Hin Hg Hr. unfold v4l_gstep. cbn [ev_cmd]. rewrite Hg.
  assert (v4l_effect (Ev (VIoctl fd r) a) = needing [hfd fd]) as ->.
  { destruct r, a as [x d]; try done. simpl in *. destruct (Z.eqb_spec (sys_result x) 0); [|done].
    destruct Hr as [Hr|Hr]; [by destruct Hr|by destruct (Hr index)]. }
  rewrite account_use; [done|]. simpl. multiset_solver.
Qed.

Lemma queue_step_fail fd r (a : Sys * IoArg r) q :
  sys_result a.1 <> 0 -> queue_step (Ev (VIoctl fd r) a) q = q.
Proof. intros Hr. simpl. by rewrite (proj2 (Z.eqb_neq _ _) Hr). Qed.

(** Requests are made again until they succeed or fail for good. *)
Lemma retry_ioctl_wp n fd r (Q : Sys * IoArg r -> V4l2 -> V4lGhost -> Prop) s g :
  hfd fd ∈ g.1 -> queue_guard (VIoctl fd r) g.2 = true ->
  (forall a, sys_result a.1 <> 0 -> Q a s g) ->
  (forall a, sys_result a.1 = 0 -> v4l_allowed g (Ev (VIoctl fd r) a) ->
     exists g', v4l_gstep (Ev (VIoctl fd r) a) g = Some g' /\ Q a s g') ->
  vwp (retry_ioctl n fd r) Q s g.
Proof.
  intros Hin Hg Hbad Hgood. induction n as [|n IH]; cbn [retry_ioctl].
  all: refine (wp_call _ _ (VIoctl fd r) _ _ _ _ _); intros a Ha;
    destruct (Z.eq_dec (sys_result a.1) 0) as [H0|H0].
  1,3: destruct (Hgood a H0 Ha) as (g' & Hs & HQ); exists g'; split; [done|].
  3,4: exists g; split; [rewrite ioctl_step, queue_step_fail by auto; by destruct g|].
  - by wstep.
  - unfold interrupted. rewrite H0. cbn. by wstep.
  - wstep. auto.
  - destruct (interrupted a.1); [apply IH|wstep; auto].
Qed.

(** The same for a request that changes nothing. *)
Lemma plain_ioctl_wp fd r (Q : Sys * IoArg r -> V4l2 -> V4lGhost -> Prop) s g :
  hfd fd ∈ g.1 -> queue_guard (VIoctl fd r) g.2 = true ->
  (forall a q, queue_step (Ev (VIoctl fd r) a) q = q) -> (forall i, r <> VIDIOC_EXPBUF i) ->
  (forall a, Q a s g) -> vwp (IoctlRetry fuel fd r) Q s g.
Proof.
  intros Hin Hg Hq He HQ. apply retry_ioctl_wp; [done|done|auto|]. intros a H0 _. exists g.
  rewrite ioctl_step by auto. rewrite Hq. split; [by destruct g|auto].
Qed.

Lemma streamoff_wp fd (Q : Sys * unit -> V4l2 -> V4lGhost -> Prop) s g :
  hfd fd ∈ g.1 -> (forall a q', (forall x, x <> fd -> q' !! x = g.2 !! x) -> Q a s (g.1, q')) ->
  vwp (IoctlRetry fuel fd VIDIOC_STREAMOFF) Q s g.
Proof.
  intros Hin HQ. apply retry_ioctl_wp; [done|done| |].
  - intros a _. specialize (HQ a g.2). destruct g. by apply HQ.
  - intros [y d] H0 _. eexists. split; [apply ioctl_step; auto|]. apply HQ. intros x Hx. simpl in *.
    rewrite (proj2 (Z.eqb_eq _ _) H0). simpl. destruct (g.2 !! fd) as [[n D]|]; [|done].
    by rewrite lookup_insert_ne.
Qed.

Lemma retry_write_wp n fd (Q : unit -> V4l2 -> V4lGhost -> Prop) s g :
  hfd fd ∈ g.1 -> Q tt s g -> vwp (retry_write n fd) Q s g.
Proof.
  intros Hin HQ. induction n as [|n IH]; cbn [retry_write]; wcall a _.
  1,3: unfold v4l_gstep; simpl; rewrite account_use by (simpl; multiset_solver); reflexivity.
  - destruct g. by wstep.
  - destruct g. destruct (interrupted a); [exact IH|by wstep].
Qed.

(** ** Handles *)

Lemma total_insert m i c : m !! i = None -> total (<[i := c]> m) = hset (capture_handles c) ⊎ total m.
Proof. apply hsum_insert. Qed.
Lemma total_delete m i c : m !! i = Some c -> total m = hset (capture_handles c) ⊎ total (delete i m).
Proof. apply hsum_delete. Qed.
Lemma total_update m i c c' : m !! i = Some c -> capture_handles c' = capture_handles c ->
  total (<[i := c']> m) = total m.
Proof. apply hsum_update. Qed.

Lemma fd_in_handles c : 0 <= cs_fd c -> hfd (cs_fd c) ∈ capture_handles c.
Proof.
  intros Hf. unfold capture_handles, fd_handles. rewrite (proj2 (Z.leb_le _ _) Hf). set_solver.
Qed.
Lemma held_fd m i c x : m !! i = Some c -> x ∈ capture_handles c -> x ∈ total m.
Proof. apply hsum_in. Qed.

(** ** Destruction *)

(** No descriptor is held twice. *)
Definition unique_fds (held : Held) : Prop := forall x, (multiplicity (hfd x) held <= 1)%nat.
(** The buffers of the devices that are still open are where they were. *)
Definition agree (rest : Held) (q q' : Queues) : Prop := forall x, hfd x ∈ rest -> q' !! x = q !! x.

Lemma unique_sub held rest : unique_fds (held ⊎ rest) -> unique_fds rest.
Proof. intros H x. specialize (H x). rewrite multiplicity_disj_union in H. lia. Qed.
Lemma unique_out fd held : unique_fds ({[+ hfd fd +]} ⊎ held) -> hfd fd ∉ held.
Proof.
  intros H Hin. specialize (H fd). rewrite multiplicity_disj_union, multiplicity_singleton in H.
  rewrite decide_True in H by done.
  rewrite elem_of_multiplicity in Hin. lia.
Qed.
Lemma agree_refl rest q : agree rest q q.
Proof. by intros x. Qed.
Lemma agree_trans rest rest' q q' q'' : agree rest q q' -> rest' ⊆ rest -> agree rest' q' q'' ->
  agree rest' q q''.
Proof. intros H Hs H' x Hx. rewrite (H' x Hx). apply H. multiset_solver. Qed.

Lemma give_step c a (l : list Handle) rest q :
  v4l_effect (Ev c a) = returning l -> queue_guard c q = true ->
  v4l_gstep (Ev c a) (hset l ⊎ rest, q) = Some (rest, queue_step (Ev c a) q).
Proof.
  intros He Hg. unfold v4l_gstep. cbn [ev_cmd fst snd]. rewrite Hg, He. unfold returning, hset.
  rewrite account_give; [done|]. simpl. multiset_solver.
Qed.

(** What a destructor does: the handles [l] are released. *)
Definition releases (l : list Handle) (m : VProg unit) : Prop := forall rest q s (Q : unit -> V4l2 -> V4lGhost -> Prop),
  unique_fds (hset l ⊎ rest) -> (forall q', agree rest q q' -> Q tt s (rest, q')) ->
  vwp m Q s (hset l ⊎ rest, q).

Lemma releases_nil : releases [] (DRet tt).
Proof.
  intros rest q s Q _ HQ. wstep. replace (hset [] ⊎ rest) with rest by (unfold hset; simpl; multiset_solver).
  apply HQ, agree_refl.
Qed.

Lemma releases_seq l1 l2 (m1 m2 : VProg unit) : releases l1 m1 -> releases l2 m2 ->
  releases (l1 ++ l2) (m1;~ m2).
Proof.
  intros H1 H2 rest q s Q Hu HQ. rewrite hset_app in *.
  rewrite <- (gmultiset_disj_union_assoc (hset l1)) in *. apply dwp_bind, H1; [done|]. intros q1 Ha1.
  apply H2; [by eapply unique_sub|]. intros q2 Ha2. apply HQ. eapply agree_trans; [exact Ha1| |done].
  multiset_solver.
Qed.

Lemma releases_close fd : releases (fd_handles fd) (close_fd fd).
Proof.
  unfold fd_handles, close_fd. destruct (0 <=? fd); [|apply releases_nil].
  intros rest q s Q Hu HQ. wcall [] _; [by apply give_step|]. apply HQ. intros x Hx. simpl.
  apply lookup_delete_ne. intros ->. apply (unique_out x rest); [|done].
  intros y. specialize (Hu y). unfold hset in Hu. simpl in Hu.
  by rewrite (gmultiset_disj_union_right_id {[+ hfd x +]}) in Hu.
Qed.

Lemma releases_unmap m : releases (mapping_handles m) (unmap m).
Proof.
  unfold mapping_handles, unmap. apply releases_seq; [|apply releases_close].
  destruct (mp_address m) as [| |a]; try apply releases_nil.
  intros rest q s Q Hu HQ. wcall [] _; [by apply give_step|]. apply HQ, agree_refl.
Qed.

Lemma releases_each {A} (l : list A) (f : A -> list Handle) (m : A -> VProg unit) :
  (forall a, releases (f a) (m a)) -> releases (concat (map f l)) (deach l m).
Proof.
  intros Hm. induction l as [|a l IH]; simpl; [apply releases_nil|]. by apply releases_seq.
Qed.

Lemma releases_capture c : 0 <= cs_fd c \/ cs_streaming c = false ->
  releases (capture_handles c) (DestroyCapture fuel c).
Proof.
  intros Hc rest q s Q Hu HQ. unfold DestroyCapture.
  assert (releases (capture_handles c) (deach (cs_mappings c) unmap;~ close_fd (cs_fd c);~
    close_fd (cs_wake_read c);~ close_fd (cs_wake_write c))) as Hr.
  { apply releases_seq; [by apply releases_each; apply releases_unmap|].
    apply releases_seq; [apply releases_close|]. apply releases_seq; apply releases_close. }
  destruct (cs_streaming c && (0 <=? cs_fd c)) eqn:E.
  - apply andb_true_iff in E as [_ E]. apply Z.leb_le in E.
    assert (hfd (cs_fd c) ∈ hset (capture_handles c)) as Hin
      by (apply elem_of_list_to_set_disj; by apply fd_in_handles).
    apply dwp_bind, dwp_bind, streamoff_wp.
    { simpl. multiset_solver. }
    intros a q' Hq'. wstep. apply Hr; [done|]. intros q'' Hq''. apply HQ.
    intros x Hx. rewrite Hq'' by done. apply Hq'. intros ->.
    specialize (Hu (cs_fd c)). rewrite multiplicity_disj_union in Hu.
    rewrite elem_of_multiplicity in Hin, Hx. lia.
  - wstep. by apply Hr.
Qed.
(** ** Operations *)

Lemma referenced_spec i s : referenced i s = true <->
  state_ s = Some i \/ exists l ls, leases s !! l = Some ls /\ ls_state ls = i.
Proof.
  unfold referenced. rewrite orb_true_iff, bool_decide_eq_true, existsb_exists. split.
  - intros [H|([l ls] & Hin & E)]; [by left|right]. exists l, ls.
    apply list_elem_of_In, elem_of_map_to_list in Hin. split; [done|]. by apply Z.eqb_eq.
  - intros [H|(l & ls & Hin & E)]; [by left|right]. exists (l, ls). split.
    + by apply list_elem_of_In, elem_of_map_to_list.
    + by apply Z.eqb_eq.
Qed.

Lemma leases_ok_agree s s' q q' i c : leases s' = leases s -> q' !! cs_fd c = q !! cs_fd c ->
  leases_ok s q i c -> leases_ok s' q' i c.
Proof. unfold leases_ok. intros -> ->. done. Qed.

Lemma pre_set_stop b e s g : v4l_pre e s g -> v4l_pre e (set_stop b s) g.
Proof. intros []. by split. Qed.

Lemma pre_weaken i s g : v4l_pre (Some i) s g -> referenced i s = true -> v4l_inv s g.
Proof.
  intros [Hh Hf Hc ? ? ? ?] Hr. split; try done. intros j c Hj. destruct (Hc j c Hj) as (? & ? & [?|[= ->]]); auto.
Qed.

(** The capture state that nothing refers to is taken out. *)
Lemma pre_delete i c s held q q' : captures s !! i = Some c -> referenced i s = false ->
  v4l_pre (Some i) s (held, q) -> agree (total (delete i (captures s))) q q' ->
  v4l_inv (set_captures (delete i (captures s)) s) (total (delete i (captures s)), q').
Proof.
  intros Hi Hr [Hh Hf Hc Hx Hl Hs [Hid1 Hid2]] Ha.
  assert (forall l ls, leases s !! l = Some ls -> ls_state ls <> i) as Hne.
  { intros l ls Hls <-. apply not_true_iff_false in Hr. apply Hr, referenced_spec. eauto. }
  split; cbn [fst snd captures set_captures leases state_ next_id]; try done.
  - intros x. specialize (Hf x). cbn [fst] in *. subst held. rewrite (total_delete _ _ _ Hi), multiplicity_disj_union in Hf. lia.
  - intros j d Hj. apply lookup_delete_Some in Hj as [Hij Hj].
    destruct (Hc j d Hj) as (Hok & Hlo & Hre). split_and!; [done| |destruct Hre as [?|[= ?]]; [by left|done]].
    eapply leases_ok_agree; [done| |exact Hlo]. apply Ha.
    apply (held_fd _ j d); [by rewrite lookup_delete_ne|]. apply fd_in_handles, Hok.
  - intros l ls Hls. destruct (Hl l ls Hls) as (d & Hd & ?). exists d. split; [|done].
    rewrite lookup_delete_ne; [done|]. intros Heq. by apply (Hne l ls).
  - intros j Hj. destruct (Hs j Hj) as (d & Hd & ?). exists d. split; [|done].
    rewrite lookup_delete_ne; [done|]. intros <-. apply not_true_iff_false in Hr. apply Hr, referenced_spec. auto.
  - split; [|done]. intros j Hj. apply Hid1. destruct Hj as [d [? Hd]%lookup_delete_Some]. eauto.
Qed.

Lemma release_wp i c s g (Q : unit -> V4l2 -> V4lGhost -> Prop) :
  v4l_pre (Some i) s g -> captures s !! i = Some c ->
  (forall s' g', v4l_inv s' g' -> state_ s' = state_ s -> stop_ s' = stop_ s -> Q tt s' g') ->
  vwp (release fuel i) Q s g.
Proof.
  intros Hp Hi HQ. unfold release. wstep. destruct (referenced i s) eqn:Hr.
  { wstep. apply HQ; [by eapply pre_weaken|done|done]. }
  wstep. rewrite Hi. wstep. destruct g as [held q]. pose proof (inv_held _ _ _ Hp) as Hh. cbn [fst] in Hh.
  pose proof (inv_fds _ _ _ Hp) as Hf. cbn [fst] in Hf.
  rewrite Hh, (total_delete _ _ _ Hi) in Hf |- *.
  apply releases_capture; [left; by apply (inv_captures _ _ _ Hp i c Hi)|done|].
  intros q' Ha. apply HQ; [|done|done]. by eapply pre_delete.
Qed.

Lemma stop_wp e s g (Q : unit -> V4l2 -> V4lGhost -> Prop) :
  v4l_pre e s g -> Q tt (set_stop true s) g -> vwp (RequestStop fuel) Q s g.
Proof.
  intros Hp HQ. unfold RequestStop. repeat wstep. cbn [state_ set_stop].
  destruct (state_ s) as [i|] eqn:Hi; [|by wstep]. unfold capture_of. wstep. cbn [captures set_stop].
  destruct (inv_state _ _ _ Hp i Hi) as (c & Hc & _). rewrite Hc.
  destruct (Z.leb_spec 0 (cs_wake_write c)); [|by wstep]. apply retry_write_wp; [|done].
  rewrite (inv_held _ _ _ Hp). eapply held_fd; [exact Hc|]. unfold capture_handles, fd_handles.
  rewrite (proj2 (Z.leb_le 0 (cs_wake_write c))) by done. set_solver.
Qed.

Lemma fds_distinct e s g i j c d : v4l_pre e s g -> captures s !! i = Some c -> captures s !! j = Some d ->
  i <> j -> cs_fd d <> cs_fd c.
Proof.
  intros Hp Hi Hj Hij Heq. pose proof (inv_fds _ _ _ Hp (cs_fd c)) as Hf.
  rewrite (inv_held _ _ _ Hp), (total_delete _ _ _ Hi), multiplicity_disj_union in Hf.
  destruct (inv_captures _ _ _ Hp i c Hi) as ((Hc & _) & _). destruct (inv_captures _ _ _ Hp j d Hj) as ((Hd & _) & _).
  assert (hfd (cs_fd c) ∈ hset (capture_handles c)) as H1
    by (apply elem_of_list_to_set_disj; by apply fd_in_handles).
  assert (hfd (cs_fd c) ∈ total (delete i (captures s))) as H2.
  { apply (held_fd _ j d); [by rewrite lookup_delete_ne|]. rewrite <- Heq. by apply fd_in_handles. }
  rewrite elem_of_multiplicity in H1, H2. lia.
Qed.

Definition closed_capture (c : CaptureState) : CaptureState := with_streaming false (with_closing true c).

Lemma pre_close i c s held q q' : v4l_inv s (held, q) -> state_ s = Some i -> captures s !! i = Some c ->
  (forall x, x <> cs_fd c -> q' !! x = q !! x) ->
  v4l_pre (Some i) (set_state None (set_captures (<[i := closed_capture c]> (captures s)) s)) (held, q').
Proof.
  intros Hp Hs Hi Hq. pose proof Hp as [Hh Hf Hc Hx Hl _ [Hid1 Hid2]].
  split; cbn [fst snd captures set_captures leases state_ next_id set_state] in *; try done.
  - rewrite Hh. symmetry. by eapply total_update.
  - intros j d Hj. destruct (Hc i c Hi) as ((? & ? & ? & ? & ?) & _).
    destruct (decide (j = i)) as [->|Hij].
    { rewrite lookup_insert_eq in Hj. injection Hj as <-. split_and!; [by split_and!|by intros ?|by right]. }
    rewrite lookup_insert_ne in Hj by done. destruct (Hc j d Hj) as (Hok & Hlo & Hre). split_and!; [done| |left].
    + eapply leases_ok_agree; [done| |exact Hlo]. apply Hq. by eapply fds_distinct.
    + destruct Hre as [[Hre|Hre]%referenced_spec|]; [congruence| |done]. apply referenced_spec. by right.
  - intros l ls Hls. destruct (Hl l ls Hls) as (d & Hd & ?).
    destruct (decide (ls_state ls = i)) as [E|]; [|exists d; by rewrite lookup_insert_ne].
    rewrite E in Hd |- *. rewrite Hi in Hd. injection Hd as <-. exists (closed_capture c). by rewrite lookup_insert_eq.
  - split; [|done]. intros j [d Hj]. apply Hid1. destruct (decide (j = i)) as [->|]; [eauto|].
    rewrite lookup_insert_ne in Hj by done. eauto.
Qed.

Lemma v4l2_close_wp s g (Q : unit -> V4l2 -> V4lGhost -> Prop) :
  v4l_inv s g -> (forall s' g', v4l_inv s' g' -> state_ s' = None -> stop_ s' = true -> Q tt s' g') ->
  vwp (Close fuel) Q s g.
Proof.
  intros Hp HQ. unfold Close. apply dwp_bind. eapply stop_wp; [done|]. wstep. cbn [state_ set_stop].
  destruct (state_ s) as [i|] eqn:Hi; [|wstep; apply HQ; [by apply pre_set_stop|done|done]].
  unfold capture_of. apply dwp_bind. wstep. cbn [captures set_stop].
  destruct (inv_state _ _ _ Hp i Hi) as (c & Hc & Hstr). rewrite Hc, Hstr.
  apply dwp_bind, dwp_bind, streamoff_wp.
  { rewrite (inv_held _ _ _ Hp). eapply held_fd; [exact Hc|]. apply fd_in_handles. by apply (inv_captures _ _ _ Hp i c Hc). }
  intros a q' Hq. repeat wstep. unfold put_capture. repeat wstep. destruct g as [held q].
  eapply (release_wp i (closed_capture c)).
  - apply (pre_close i c (set_stop true s) held q q'); [by apply pre_set_stop|done|done|done].
  - cbn. by rewrite lookup_insert_eq.
  - intros s' g' H1 H2 H3. by apply HQ.
Qed.

(** The reference of the backend is dropped without [Close]. *)
Lemma v4l2_destroy_wp s g (Q : unit -> V4l2 -> V4lGhost -> Prop) :
  v4l_inv s g -> (forall s' g', v4l_inv s' g' -> state_ s' = None -> Q tt s' g') ->
  vwp (DestroyBackend fuel) Q s g.
Proof.
  intros Hp HQ. unfold DestroyBackend. wstep. destruct (state_ s) as [i|] eqn:Hi; [|wstep; by apply HQ].
  destruct (inv_state _ _ _ Hp i Hi) as (c & Hc & _). wstep.
  eapply (release_wp i c); [|done|intros s' g' H1 H2 _; by apply HQ].
  destruct Hp as [? ? Hcs ? ? _ ?]. split; try done. intros j d Hj.
  destruct (Hcs j d Hj) as (? & ? & [[Hre|Hre]%referenced_spec|]); split_and!; try done.
  - right. congruence.
  - left. apply referenced_spec. by right.
Qed.

(** Lease [l] is gone, and its buffer may be back with the driver. *)
Lemma pre_drop l x c s held q q' : v4l_inv s (held, q) -> leases s !! l = Some x ->
  captures s !! ls_state x = Some c -> (forall y, y <> cs_fd c -> q' !! y = q !! y) ->
  (forall n D, q !! cs_fd c = Some (n, D) ->
     exists D', q' !! cs_fd c = Some (n, D') /\ D ∖ {[ls_index x]} ⊆ D') ->
  v4l_pre (Some (ls_state x)) (set_leases (delete l (leases s)) s) (held, q').
Proof.
  intros Hp Hl Hi Hq HD. pose proof Hp as [Hh Hf Hc Hx Hls Hs [Hid1 Hid2]].
  split; cbn [fst snd captures set_leases leases state_ next_id] in *; try done.
  - intros j d Hj. destruct (Hc j d Hj) as (Hok & Hlo & Hre). split_and!; [done| |].
    + intros Hstr. destruct (Hlo Hstr) as (D & HqD & Hin). cbn [snd] in HqD.
      destruct (decide (j = ls_state x)) as [->|Hne].
      * assert (d = c) as -> by congruence. destruct (HD _ _ HqD) as (D' & HqD' & Hsub).
        exists D'. split; [done|]. cbn [leases set_leases]. intros l' ls' [Hne Hls']%lookup_delete_Some Hst. apply Hsub.
        specialize (Hin l' ls' Hls' Hst). assert (ls_index ls' <> ls_index x); [|set_solver].
        intros Hidx. apply Hne. by eapply Hx.
      * exists D. rewrite Hq by (by eapply fds_distinct). split; [done|].
        cbn [leases set_leases]. intros l' ls' [_ Hls']%lookup_delete_Some. by eapply Hin.
    + destruct (decide (j = ls_state x)) as [->|Hne]; [by right|left].
      destruct Hre as [[Hre|(l' & ls' & Hl' & Hst)]%referenced_spec|]; [| |done]; apply referenced_spec; [by left|right].
      exists l', ls'. split; [|done]. cbn. rewrite lookup_delete_ne; [done|]. intros ->. congruence.
  - intros l1 l2 ls1 ls2. cbn [leases set_leases]. intros [_ H1]%lookup_delete_Some [_ H2]%lookup_delete_Some. by apply Hx.
  - intros l' ls' [_ Hl']%lookup_delete_Some. by eapply Hls.
  - split; [done|]. intros l' [ls' [_ Hl']%lookup_delete_Some]. eauto.
Qed.

Lemma drop_wp l s g (Q : unit -> V4l2 -> V4lGhost -> Prop) :
  v4l_inv s g -> (forall s' g', v4l_inv s' g' -> state_ s' = state_ s -> Q tt s' g') ->
  vwp (DropLease fuel l) Q s g.
Proof.
  intros Hp HQ. unfold DropLease. wstep. destruct (leases s !! l) as [x|] eqn:Hl; [|wstep; by apply HQ].
  unfold capture_of. apply dwp_bind. wstep. destruct (inv_leases _ _ _ Hp l x Hl) as (c & Hc & Hidx). rewrite Hc.
  destruct g as [held q].
  assert (forall q', (forall y, y <> cs_fd c -> q' !! y = q !! y) ->
    (forall n D, q !! cs_fd c = Some (n, D) ->
       exists D', q' !! cs_fd c = Some (n, D') /\ D ∖ {[ls_index x]} ⊆ D') ->
    vwp (dset (fun s => set_leases (delete l (leases s)) s);~ release fuel (ls_state x)) Q s (held, q')) as Hrest.
  { intros q' H1 H2. wstep. eapply (release_wp (ls_state x) c); [by eapply pre_drop|done|].
    intros s' g' Hs' Hst _. by apply HQ. }
  assert (vwp (dset (fun s => set_leases (delete l (leases s)) s);~ release fuel (ls_state x)) Q s (held, q)) as Hsame.
  { apply Hrest; [done|]. intros n D HD. exists D. split; [done|set_solver]. }
  destruct (inv_captures _ _ _ Hp _ c Hc) as ((Hfd & _ & _ & Hcl & _) & Hlo & _). rewrite Hcl.
  destruct (cs_streaming c) eqn:Hstr; cbn [negb orb]; [|by wstep].
  destruct (Hlo Hstr) as (D & HqD & Hin). cbn [snd] in HqD. apply dwp_bind, retry_ioctl_wp.
  - cbn. pose proof (inv_held _ _ _ Hp) as Hh. cbn in Hh. rewrite Hh. eapply held_fd; [exact Hc|]. by apply fd_in_handles.
  - cbn. rewrite HqD. apply bool_decide_eq_true_2. by eapply Hin.
  - intros a _. by wstep.
  - intros [y []] H0 _. eexists. split.
    { apply ioctl_step; [|cbn; rewrite HqD; apply bool_decide_eq_true_2; by eapply Hin|by right].
      cbn. pose proof (inv_held _ _ _ Hp) as Hh. cbn in Hh. rewrite Hh. eapply held_fd; [exact Hc|]. by apply fd_in_handles. }
    wstep. cbn in H0 |- *. rewrite (proj2 (Z.eqb_eq _ _) H0), HqD. cbn. apply Hrest.
    + intros z Hz. by rewrite lookup_insert_ne.
    + intros n D0 HD0. rewrite lookup_insert_eq. eexists. split; [|reflexivity]. congruence.
Qed.

(** A buffer that the driver handed out becomes a lease. *)
Lemma pre_lease i c ls D s held q : v4l_inv s (held, q) -> captures s !! i = Some c ->
  ls_state ls = i -> 0 <= ls_index ls < Z.of_nat (length (cs_mappings c)) ->
  cs_streaming c = true -> q !! cs_fd c = Some (Z.of_nat (length (cs_mappings c)), D) -> ls_index ls ∉ D ->
  v4l_inv (add_lease ls s).2
    (held, <[cs_fd c := (Z.of_nat (length (cs_mappings c)), D ∪ {[ls_index ls]})]> q).
Proof.
  intros Hp Hi Hst Hidx Hstr HqD Hnot. pose proof Hp as [Hh Hf Hc Hx Hls Hs [Hid1 Hid2]].
  assert (leases s !! next_id s = None) as Hfresh.
  { destruct (leases s !! next_id s) eqn:E; [|done]. assert (next_id s < next_id s); [|lia]. eauto. }
  assert (forall l ls', leases s !! l = Some ls' -> ls_state ls' = i -> ls_index ls' ∈ D) as Hin.
  { destruct (Hc i c Hi) as (_ & Hlo & _). destruct (Hlo Hstr) as (D0 & HD0 & Hin). cbn in HD0.
    assert (D0 = D) as -> by congruence. done. }
  split; cbn [fst snd captures add_lease leases state_ next_id] in *; try done.
  - intros j d Hj. destruct (Hc j d Hj) as (Hok & Hlo & Hre). split_and!; [done| |].
    + intros Hstr'. destruct (decide (j = i)) as [->|Hij].
      * assert (d = c) as -> by congruence. exists (D ∪ {[ls_index ls]}). rewrite lookup_insert_eq.
        split; [done|]. cbn [leases]. intros l' ls' Hl' Hst'.
        apply lookup_insert_Some in Hl' as [[_ <-]|[_ Hl']]; [set_solver|]. specialize (Hin l' ls' Hl' Hst'). set_solver.
      * destruct (Hlo Hstr') as (D0 & HD0 & Hin0). exists D0. rewrite lookup_insert_ne.
        2:{ intros Heq. by apply (fds_distinct _ _ _ i j c d Hp Hi Hj). }
        split; [done|]. cbn [leases]. intros l' ls' Hl' Hst'.
        apply lookup_insert_Some in Hl' as [[_ <-]|[_ Hl']]; [congruence|]. by eapply Hin0.
    + left. destruct Hre as [[Hre|(l' & ls' & Hl' & Hst')]%referenced_spec|]; [| |done]; apply referenced_spec; [by left|right].
      exists l', ls'. split; [|done]. cbn. rewrite lookup_insert_ne; [done|]. intros <-. congruence.
  - intros l1 l2 ls1 ls2. cbn [leases]. rewrite !lookup_insert_Some.
    intros [[<- <-]|[H1n H1]] [[<- <-]|[H2n H2]] Hs1 Hs2; [done| | |by eapply Hx].
    + destruct Hnot. rewrite Hs2. eapply Hin; [exact H2|congruence].
    + destruct Hnot. rewrite <- Hs2. eapply Hin; [exact H1|congruence].
  - intros l' ls' [[_ <-]|[_ Hl']]%lookup_insert_Some; [|by eapply Hls]. exists c. by rewrite Hst.
  - split; [intros j Hj; apply Hid1 in Hj; lia|]. intros l' [ls' [[<- _]|[_ Hl']]%lookup_insert_Some]; [lia|].
    assert (l' < next_id s) by eauto. lia.
Qed.

Lemma pre_set_sequence n e s g : v4l_pre e s g -> v4l_pre e (set_sequence n s) g.
Proof. intros []. by split. Qed.

Lemma v4l2_deliver_wp i c d D s held q (Q : Packet -> V4l2 -> V4lGhost -> Prop) :
  v4l_inv s (held, q) -> captures s !! i = Some c -> cs_streaming c = true ->
  q !! cs_fd c = Some (Z.of_nat (length (cs_mappings c)), D) -> dq_index d ∉ D ->
  0 <= dq_index d < Z.of_nat (length (cs_mappings c)) -> 0 <= dq_sec d < 2 ^ 42 -> 0 <= dq_usec d < 1000000 ->
  (forall p s' g', v4l_inv s' g' -> Q p s' g') ->
  vwp (deliver i c d) Q s
    (held, <[cs_fd c := (Z.of_nat (length (cs_mappings c)), D ∪ {[dq_index d]})]> q).
Proof.
  intros Hp Hi Hstr HqD Hnot Hidx Hsec Husec HQ. unfold deliver, checked.
  rewrite !bool_decide_eq_true_2 by (unfold is_i64; rewrite int64_min_eq, int64_max_eq; lia).
  repeat wstep. unfold make_lease.
  destruct (lookup_lt_is_Some_2 (cs_mappings c) (Z.to_nat (dq_index d)) ltac:(lia)) as [m Hm]. rewrite Hm.
  apply dwp_bind. unfold wp. cbn [wp]. fold (@wp V4lCmd V4lAns V4l2 V4lGhost).
  match goal with |- context [add_lease ?ls s] => set (x := ls) end.
  pose proof (pre_lease i c x D s held q Hp Hi eq_refl Hidx Hstr HqD Hnot) as Hnew. cbn [ls_index x] in Hnew.
  destruct (encoded_format _); repeat wstep; apply HQ; [done|]. by apply pre_set_sequence.
Qed.

Lemma v4l2_read_wp s g (Q : Status * option Packet -> V4l2 -> V4lGhost -> Prop) :
  v4l_inv s g -> (forall r s' g', v4l_inv s' g' -> Q r s' g') -> vwp (Read fuel) Q s g.
Proof.
  intros Hp HQ. unfold Read. wstep. destruct (state_ s) as [i|] eqn:Hi; [|wstep; by apply HQ]. wstep.
  destruct (stop_ s); [wstep; by apply HQ|]. unfold capture_of. wstep.
  destruct (inv_state _ _ _ Hp i Hi) as (c & Hc & Hstr). rewrite Hc.
  destruct (inv_captures _ _ _ Hp i c Hc) as ((Hfd & Hwr & _) & Hlo & _).
  destruct (Hlo Hstr) as (D & HqD & _). destruct g as [held q]. cbn [snd] in HqD.
  pose proof (inv_held _ _ _ Hp) as Hh. cbn [fst] in Hh.
  assert (hset [hfd (cs_fd c); hfd (cs_wake_read c)] ⊆ held) as Hsub.
  { rewrite Hh, (total_delete _ _ _ Hc). unfold capture_handles, fd_handles.
    rewrite (proj2 (Z.leb_le 0 _) Hfd), (proj2 (Z.leb_le 0 _) Hwr), !hset_app. unfold hset. simpl. multiset_solver. }
  assert (hfd (cs_fd c) ∈ held) as Hin by (unfold hset in Hsub; simpl in Hsub; multiset_solver).
  wcall p _. { unfold v4l_gstep. simpl. rewrite account_use by done. reflexivity. }
  cbn [fst snd queue_step]. wstep. set (s1 := set_stop _ s).
  assert (v4l_inv s1 (held, q)) as Hp1 by (by apply pre_set_stop).
  destruct (sys_result (po_sys p) <? 0); [wstep; by apply HQ|].
  destruct (sys_result (po_sys p) =? 0); [wstep; by apply HQ|]. wstep.
  destruct (po_wake p || stop_ s1); [wstep; by apply HQ|]. destruct (negb (po_frame p)); [wstep; by apply HQ|].
  apply dwp_bind, retry_ioctl_wp; [done|done| |].
  - intros a H0. rewrite (proj2 (Z.eqb_neq _ _) H0). cbn [negb]. wstep. by apply HQ.
  - intros [y d] H0 Hd. specialize (Hd H0). cbn [snd] in Hd. rewrite HqD in Hd.
    destruct Hd as (Hidx & Hnot & Hsec & Husec).
    eexists. split; [by apply ioctl_step; auto|]. cbn in H0 |- *.
    rewrite (proj2 (Z.eqb_eq _ _) H0), HqD. cbn. apply dwp_bind.
    eapply (v4l2_deliver_wp i c d D s1 held q); try done. intros. wstep. by apply HQ.
Qed.

(** ** Opening *)

(** A capture state that is being built next to the others. *)
Definition building (s : V4l2) (c : CaptureState) (q : Queues) : Prop :=
  v4l_inv s (total (captures s), q) /\ unique_fds (hset (capture_handles c) ⊎ total (captures s)) /\
  0 <= cs_fd c /\ cs_streaming c = false.
Definition with_building (s : V4l2) (c : CaptureState) (q : Queues) : V4lGhost :=
  (hset (capture_handles c) ⊎ total (captures s), q).

(** The buffers before [k] are mapped, the others are still with the program. *)
Definition prepared (n k : nat) (c : CaptureState) (q : Queues) : Prop :=
  length (cs_mappings c) = n /\
  (forall j, (k <= j < n)%nat -> cs_mappings c !! j = Some no_mapping) /\
  (forall j m, (j < k)%nat -> cs_mappings c !! j = Some m -> exists a, mp_address m = AAt a) /\
  exists D, q !! cs_fd c = Some (Z.of_nat n, D) /\ forall j, (k <= j < n)%nat -> Z.of_nat j ∈ D.

Lemma inv_agree s q q' : v4l_inv s (total (captures s), q) -> agree (total (captures s)) q q' ->
  v4l_inv s (total (captures s), q').
Proof.
  intros [Hh Hf Hc ? ? ? ?] Ha. split; try done. intros j d Hj. destruct (Hc j d Hj) as (Hok & Hlo & ?).
  split_and!; [done| |done]. eapply leases_ok_agree; [done| |exact Hlo]. apply Ha. eapply held_fd; [exact Hj|].
  apply fd_in_handles, Hok.
Qed.

Lemma handles_put i m c : cs_mappings c !! i = Some no_mapping ->
  hset (capture_handles (with_mappings (<[i := m]> (cs_mappings c)) c)) =
  hset (mapping_handles m) ⊎ hset (capture_handles c).
Proof.
  intros Hi. unfold capture_handles. cbn [cs_mappings with_mappings cs_fd cs_wake_read cs_wake_write].
  pose proof (lookup_lt_Some _ _ _ Hi) as Hlt. rewrite insert_take_drop by done.
  rewrite <- (take_drop_middle _ _ _ Hi) at 3.
  rewrite !map_app, !concat_app, !hset_app. cbn [map concat]. rewrite !hset_app.
  change (mapping_handles no_mapping) with (@nil Handle). change (hset []) with (∅ : Held).
  multiset_solver.
Qed.

Lemma building_fd s c q : building s c q -> hfd (cs_fd c) ∈ hset (capture_handles c) ⊎ total (captures s).
Proof.
  intros (_ & _ & Hf & _). apply gmultiset_elem_of_disj_union. left. apply elem_of_list_to_set_disj.
  by apply fd_in_handles.
Qed.

(** Requests on the new device do not touch the others. *)
Lemma building_queue s c q x : building s c q -> building s c (<[cs_fd c := x]> q).
Proof.
  intros (Hp & Hu & Hf & Hs). split_and!; try done. eapply inv_agree; [exact Hp|]. intros y Hy.
  apply lookup_insert_ne. intros <-. specialize (Hu (cs_fd c)). rewrite multiplicity_disj_union in Hu.
  assert (hfd (cs_fd c) ∈ hset (capture_handles c)) as Hin
    by (apply elem_of_list_to_set_disj; by apply fd_in_handles).
  rewrite elem_of_multiplicity in Hin, Hy. lia.
Qed.

Lemma unique_add d held : unique_fds held -> hfd d ∉ held -> unique_fds ({[+ hfd d +]} ⊎ held).
Proof.
  intros Hu Hn x. rewrite multiplicity_disj_union, multiplicity_singleton.
  specialize (Hu x). rewrite elem_of_multiplicity in Hn.
  destruct (decide (hfd x = hfd d)) as [[= ->]|]; lia.
Qed.
Lemma hmm_not_fd x length a : hfd x <> hmm length a.
Proof. unfold hfd, hmm. intros [= H _]. Qed.
Lemma unique_mapping length a held : unique_fds held -> unique_fds ({[+ hmm length a +]} ⊎ held).
Proof.
  intros Hu x. rewrite multiplicity_disj_union, multiplicity_singleton. specialize (Hu x).
  rewrite decide_False by apply hmm_not_fd. lia.
Qed.

(** The mapping of buffer [i] is filled in. *)
Lemma building_put s c q i m : building s c q -> cs_mappings c !! i = Some no_mapping ->
  unique_fds (hset (mapping_handles m) ⊎ (hset (capture_handles c) ⊎ total (captures s))) ->
  let c' := with_mappings (<[i := m]> (cs_mappings c)) c in
  building s c' q /\
  with_building s c' q = (hset (mapping_handles m) ⊎ (hset (capture_handles c) ⊎ total (captures s)), q).
Proof.
  intros (Hp & Hu & Hf & Hs) Hi Hu'. unfold building, with_building. rewrite handles_put by done.
  rewrite <- (gmultiset_disj_union_assoc (hset (mapping_handles m))). done.
Qed.

Lemma prepared_put n k c q m a : prepared n k c q -> mp_address m = AAt a ->
  forall D, (forall j, (S k <= j < n)%nat -> Z.of_nat j ∈ D) ->
  prepared n (S k) (with_mappings (<[k := m]> (cs_mappings c)) c) (<[cs_fd c := (Z.of_nat n, D)]> q).
Proof.
  intros (Hl & Hrest & Hdone & _) Hm D HD. unfold prepared. cbn [cs_mappings with_mappings cs_fd].
  rewrite length_insert. split_and!; [done| | |].
  - intros j Hj. rewrite list_lookup_insert_ne by lia. apply Hrest. lia.
  - intros j m' Hj. destruct (decide (j = k)) as [->|].
    + intros Hm'. apply list_lookup_insert_Some in Hm' as [(_ & <- & _)|(? & _)]; [eauto|done].
    + rewrite list_lookup_insert_ne by done. apply Hdone. lia.
  - exists D. by rewrite lookup_insert_eq.
Qed.

Lemma queue_some n k c q i : prepared n k c q -> (i < n)%nat ->
  exists D, q !! cs_fd c = Some (Z.of_nat n, D) /\ (0 <=? Z.of_nat i) && (Z.of_nat i <? Z.of_nat n) = true /\
  ((k <= i)%nat -> Z.of_nat i ∈ D) /\ forall j, (k <= j < n)%nat -> Z.of_nat j ∈ D.
Proof.
  intros (_ & _ & _ & D & HD & Hin) Hi. exists D. split_and!; [done| |intros; apply Hin; lia|done].
  apply andb_true_iff. split; lia.
Qed.

(** What follows a buffer, whatever became of it. *)
Definition after_buffer (s : V4l2) (n k : nat) (c : CaptureState)
    (Q : Status * CaptureState -> V4l2 -> V4lGhost -> Prop) : Prop :=
  forall st c' q', building s c' q' -> cs_fd c' = cs_fd c -> cs_wake_read c' = cs_wake_read c ->
    cs_wake_write c' = cs_wake_write c -> cs_closing c' = cs_closing c ->
    (ok st = true -> prepared n k c' q') -> Q (st, c') s (with_building s c' q').

(** The last request of [prepare_buffer]. *)
Lemma queue_buffer_wp n k c m a s q (Q : Status * CaptureState -> V4l2 -> V4lGhost -> Prop) :
  let c' := with_mappings (<[k := m]> (cs_mappings c)) c in
  building s c' q -> prepared n k c q -> (k < n)%nat -> mp_address m = AAt a ->
  after_buffer s n (S k) c Q ->
  vwp (r <~ IoctlRetry fuel (cs_fd c') (VIDIOC_QBUF (Z.of_nat k));
       DRet (if sys_result r.1 =? 0 then Ok else Unavailable "VIDIOC_QBUF failed", c'))
      Q s (with_building s c' q).
Proof.
  intros c' Hb Hpr Hk Hm HQ. destruct (queue_some n k c q k Hpr Hk) as (D & HD & Hlt & Hin & Hall).
  assert (queue_guard (VIoctl (cs_fd c') (VIDIOC_QBUF (Z.of_nat k))) q = true) as Hg.
  { cbn. rewrite HD. apply bool_decide_eq_true_2. auto. }
  pose proof (building_fd _ _ _ Hb) as Hfd. apply dwp_bind, retry_ioctl_wp; [done|done| |].
  - intros x Hx. rewrite (proj2 (Z.eqb_neq _ _) Hx). wstep. apply HQ; try done.
  - intros [y []] H0 _. eexists. split; [apply ioctl_step; auto|]. wstep. cbn in H0 |- *.
    rewrite (proj2 (Z.eqb_eq _ _) H0), HD. cbn. apply (HQ Ok c'); try done.
    + by apply (building_queue s c' q).
    + intros _. eapply prepared_put; [done|done|]. intros j Hj. assert (Z.of_nat j ∈ D) by (apply Hall; lia). set_solver by lia.
Qed.

Lemma take_step fd r (a : V4lAns r) (l : list Handle) held q :
  v4l_effect (Ev r a) = mkEffect [hfd fd] [] [] l -> queue_guard r q = true -> hfd fd ∈ held ->
  v4l_gstep (Ev r a) (held, q) = Some (hset l ⊎ held, queue_step (Ev r a) q).
Proof.
  intros He Hg Hin. unfold v4l_gstep. cbn [ev_cmd fst snd]. rewrite Hg, He, account_use_take; [done|].
  simpl. multiset_solver.
Qed.

Lemma mapping_set length a d : hset (mapping_handles (mkMapping (AAt a) length d)) =
  if 0 <=? d then {[+ hfd d +]} ⊎ {[+ hmm length a +]} else {[+ hmm length a +]}.
Proof.
  unfold mapping_handles, fd_handles, hset. cbn [mp_address mp_dma_fd mp_length].
  destruct (0 <=? d); simpl; multiset_solver.
Qed.

Lemma prepare_buffer_wp config n k c s q (Q : Status * CaptureState -> V4l2 -> V4lGhost -> Prop) :
  building s c q -> prepared n k c q -> (k < n)%nat -> after_buffer s n (S k) c Q ->
  vwp (prepare_buffer fuel config k c) Q s (with_building s c q).
Proof.
  intros Hb Hpr Hk HQ. pose proof (building_fd _ _ _ Hb) as Hfd.
  destruct (queue_some n k c q k Hpr Hk) as (D & HD & Hlt & _ & _).
  assert (cs_mappings c !! k = Some no_mapping) as Hnone by (apply Hpr; lia).
  unfold prepare_buffer. apply dwp_bind, plain_ioctl_wp; [done|cbn; by rewrite HD| |done|].
  { intros a q'. cbn. by destruct (negb _). }
  intros [x [len off]]. cbn [fst snd]. destruct (negb _); [wstep; by apply HQ|].
  wcall a _. { apply (take_step (cs_fd c)); [reflexivity|done|done]. }
  destruct a as [a|]; cbn [queue_step].
  2:{ wstep. replace (hset [] ⊎ _) with (hset (capture_handles c) ⊎ total (captures s))
        by (unfold hset; simpl; multiset_solver).
      destruct (building_put s c q k (mkMapping AFailed len (-1)) Hb Hnone) as [Hb' Hg'].
      - intros y. replace (hset (mapping_handles _)) with (∅ : Held) by reflexivity.
        rewrite gmultiset_disj_union_left_id. apply Hb.
      - replace (hset (mapping_handles _)) with (∅ : Held) in Hg' by reflexivity.
        rewrite gmultiset_disj_union_left_id in Hg'. rewrite <- Hg'. by apply HQ. }
  set (T := hset (capture_handles c) ⊎ total (captures s)) in *.
  assert (unique_fds ({[+ hmm len a +]} ⊎ T)) as Hu1 by (apply unique_mapping, Hb).
  replace (hset [hmm len a] ⊎ T) with ({[+ hmm len a +]} ⊎ T) by (unfold hset; simpl; multiset_solver).
  (* the rest, for either answer to the export *)
  assert (forall d, unique_fds ((if 0 <=? d then {[+ hfd d +]} ⊎ {[+ hmm len a +]} else {[+ hmm len a +]}) ⊎ T) ->
    vwp (let c := with_mappings (<[k := mkMapping (AAt a) len d]> (cs_mappings c)) c in
         if bool_decide (cc_io_mode config = kExportDmaBuf) && (d <? 0)
         then DRet (Unavailable "V4L2 device cannot export DMA-BUF", c) else
         r <~ IoctlRetry fuel (cs_fd c) (VIDIOC_QBUF (Z.of_nat k));
         DRet (if sys_result r.1 =? 0 then Ok else Unavailable "VIDIOC_QBUF failed", c)) Q s
        ((if 0 <=? d then {[+ hfd d +]} ⊎ {[+ hmm len a +]} else {[+ hmm len a +]}) ⊎ T, q)) as Hrest.
  { intros d Hu. rewrite <- mapping_set in Hu |- *.
    destruct (building_put s c q k (mkMapping (AAt a) len d) Hb Hnone Hu) as [Hb' Hg']. fold T in Hg'.
    rewrite <- Hg'. cbv zeta. destruct (bool_decide (cc_io_mode config = kExportDmaBuf) && (d <? 0)); [wstep; by apply HQ|]. by eapply queue_buffer_wp. }
  assert (hfd (cs_fd c) ∈ {[+ hmm len a +]} ⊎ T) as Hfd' by multiset_solver.
  apply dwp_bind, retry_ioctl_wp; [done|cbn; by rewrite HD| |].
  - intros e He. rewrite (proj2 (Z.eqb_neq _ _) He). by apply (Hrest (-1)).
  - intros [y d] H0 Hal. destruct (Hal H0) as [Hd Hfresh]. cbn [fst snd] in *.
    eexists. split; [apply (take_step (cs_fd c)); [cbn; rewrite H0; reflexivity|cbn; by rewrite HD|done]|].
    rewrite H0. cbn [Z.eqb queue_step fst snd]. rewrite (proj2 (Z.eqb_eq _ _) H0). cbn [negb].
    specialize (Hrest d). rewrite (proj2 (Z.leb_le 0 d) Hd) in Hrest.
    replace (hset [hfd d] ⊎ ({[+ hmm len a +]} ⊎ T)) with ({[+ hfd d +]} ⊎ {[+ hmm len a +]} ⊎ T)
      by (unfold hset; simpl; multiset_solver).
    apply Hrest. rewrite <- (gmultiset_disj_union_assoc {[+ hfd d +]}). by apply unique_add.
Qed.

Lemma prepare_buffers_wp config n m k c s q (Q : Status * CaptureState -> V4l2 -> V4lGhost -> Prop) :
  (k + m)%nat = n -> building s c q -> prepared n k c q -> after_buffer s n n c Q ->
  vwp (prepare_buffers fuel config (seq k m) c) Q s (with_building s c q).
Proof.
  revert k c q. induction m as [|m IH]; intros k c q Hn Hb Hpr HQ; cbn [seq prepare_buffers].
  - wstep. assert (n = k) as -> by lia. by apply HQ.
  - apply dwp_bind, (prepare_buffer_wp config n); [done|done|lia|].
    intros st c' q' Hb' H1 H2 H3 H4 Hpr'. cbn [fst snd]. destruct (ok st) eqn:E.
    + apply IH; [lia|done|by apply Hpr'|]. intros st2 c2 q2 ? ? ? ? ? ?. apply HQ; try done; congruence.
    + wstep. apply HQ; try done. by rewrite E.
Qed.

Lemma handles_fresh n c : cs_mappings c = [] ->
  capture_handles (with_mappings (replicate n no_mapping) c) = capture_handles c.
Proof.
  intros Hc. unfold capture_handles. rewrite Hc. cbn [cs_mappings with_mappings cs_fd cs_wake_read cs_wake_write].
  f_equal. by induction n.
Qed.

Lemma prepared_fresh n c q : prepared n 0 (with_mappings (replicate n no_mapping) c)
  (<[cs_fd c := (Z.of_nat n, all_buffers (Z.of_nat n))]> q).
Proof.
  unfold prepared. cbn [cs_mappings with_mappings cs_fd]. rewrite length_replicate. split_and!; [done| | |].
  - intros j Hj. apply lookup_replicate_2. lia.
  - lia.
  - rewrite lookup_insert_eq. eexists. split; [done|]. intros j Hj. unfold all_buffers. rewrite Nat2Z.id.
    apply elem_of_list_to_set, (list_elem_of_fmap_2 Z.of_nat), elem_of_seq. lia.
Qed.

(** What [negotiate] leaves, whether it succeeds or not. *)
Definition negotiated (s : V4l2) (c : CaptureState) (Q : Status * CaptureState * PixFormat -> V4l2 -> V4lGhost -> Prop)
  : Prop :=
  forall st c' f q', building s c' q' -> cs_wake_read c' = cs_wake_read c ->
    cs_wake_write c' = cs_wake_write c -> cs_closing c' = cs_closing c ->
    (ok st = true -> exists n, prepared n n c' q') -> Q (st, c', f) s (with_building s c' q').

Lemma negotiate_wp config pf c s q (Q : Status * CaptureState * PixFormat -> V4l2 -> V4lGhost -> Prop) :
  building s c q -> cs_mappings c = [] -> negotiated s c Q ->
  vwp (negotiate fuel config pf c) Q s (with_building s c q).
Proof.
  intros Hb Hm HQ. pose proof (building_fd _ _ _ Hb) as Hfd. unfold negotiate.
  apply dwp_bind, plain_ioctl_wp; [done|done|intros ??; cbn; by destruct (negb _)|done|]. intros cap.
  destruct (_ || _); [wstep; by apply HQ|].
  apply dwp_bind, plain_ioctl_wp; [done|done|intros ??; cbn; by destruct (negb _)|done|]. intros f.
  destruct (negb (sys_result f.1 =? 0)); [wstep; by apply HQ|].
  apply dwp_bind, plain_ioctl_wp; [done|done|intros ??; cbn; by destruct (negb _)|done|]. intros _.
  apply dwp_bind, retry_ioctl_wp; [done|done| |].
  { intros x Hx. rewrite (proj2 (Z.eqb_neq _ _) Hx). cbn [negb orb]. wstep. by apply HQ. }
  intros [y n] H0 _. eexists. split; [apply ioctl_step; auto|]. cbn in H0 |- *.
  rewrite (proj2 (Z.eqb_eq _ _) H0). cbn [negb orb].
  assert (building s c (<[cs_fd c := (n, all_buffers n)]> q)) as Hb' by (by apply building_queue).
  destruct (Z.ltb_spec n 2) as [|Hn]; [wstep; by apply HQ|].
  destruct (Z_of_nat_complete n) as [k ->]; [lia|]. rewrite Nat2Z.id.
  pose proof (handles_fresh k c Hm) as Hfresh. unfold with_building. cbn [fst snd]. rewrite <- Hfresh.
  set (c1 := with_mappings _ c) in *. set (q1 := <[cs_fd c := _]> q) in *.
  assert (building s c1 q1) as Hb1 by (unfold building; by rewrite Hfresh).
  apply dwp_bind, (prepare_buffers_wp config k); [done|done|apply prepared_fresh|].
  intros st c2 q2 Hb2 Hf2 Hr2 Hw2 Hc2 Hpr2. cbn [fst snd]. destruct (ok st) eqn:E; cbn [negb].
  2:{ wstep. apply HQ; try done. by rewrite E. }
  replace (cs_fd c) with (cs_fd c2) by (by rewrite Hf2).
  apply dwp_bind. refine (plain_ioctl_wp _ VIDIOC_STREAMON _ _ _ _ _ _ _ _); [by apply (building_fd s c2 q2)|done|intros ??; cbn; by destruct (negb _)|done|].
  intros o. wstep. apply HQ; try done. intros _. exists k. auto.
Qed.

(** The new capture becomes the one of the backend. *)
Lemma pre_opened config f c n s q : building s c q -> prepared n n c q -> state_ s = None ->
  0 <= cs_wake_read c -> 0 <= cs_wake_write c -> cs_closing c = false ->
  v4l_inv (opened config f (with_streaming true c) s) (with_building s c q).
Proof.
  intros (Hp & Hu & Hfd & Hstr) (Hlen & _ & Hmap & D & HD & _) Hst Hwr Hww Hcl.
  destruct Hp as [_ _ Hc Hx Hl _ [Hid1 Hid2]].
  assert (captures s !! next_id s = None) as Hfresh.
  { destruct (captures s !! next_id s) eqn:E; [|done]. assert (next_id s < next_id s); [|lia]. eauto. }
  split; unfold opened, with_building; cbn [fst snd add_capture captures leases state_ next_id] in *; try done.
  - by rewrite total_insert.
  - intros i d [[<- <-]|[Hne Hi]]%lookup_insert_Some.
    + split; [|split].
      * split_and!; try done. apply Forall_lookup. intros j m Hj. eapply Hmap; [|exact Hj].
        apply lookup_lt_Some in Hj. cbn in Hj. lia.
      * intros _. exists D. cbn [with_streaming cs_fd cs_mappings leases]. rewrite Hlen. split; [done|].
        intros l ls Hls Heq. destruct (Hl l ls Hls) as (d & Hd & _). congruence.
      * left. apply referenced_spec. by left.
    + destruct (Hc i d Hi) as (Hok & Hlo & Hre). split_and!; [done|done|left].
      destruct Hre as [[Hre|Hre]%referenced_spec|]; [congruence| |done]. apply referenced_spec. by right.
  - intros l ls Hls. destruct (Hl l ls Hls) as (d & Hd & ?). exists d. split; [|done].
    rewrite lookup_insert_ne; [done|]. congruence.
  - intros i [= <-]. eexists. by rewrite lookup_insert_eq.
  - split.
    + intros i [d [[<- _]|[_ Hd]]%lookup_insert_Some]; [lia|]. assert (i < next_id s) by eauto. lia.
    + intros l Hls. apply Hid2 in Hls. lia.
Qed.

(** A capture state that was not finished is destroyed. *)
Lemma abandon_wp st c s q (Q : Status -> V4l2 -> V4lGhost -> Prop) :
  v4l_inv s (total (captures s), q) -> unique_fds (hset (capture_handles c) ⊎ total (captures s)) ->
  cs_streaming c = false -> (forall g', v4l_inv s g' -> Q st s g') ->
  vwp (DestroyCapture fuel c;~ DRet st) Q s (with_building s c q).
Proof.
  intros Hp Hu Hs HQ. apply dwp_bind, releases_capture; [by right|done|]. intros q' Ha. wstep. apply HQ.
  by eapply inv_agree.
Qed.

(** A capture state with a device and no wake pipe. *)
Abbreviation device fd := (with_fd fd new_capture).

Lemma no_device_handles fd : fd < 0 -> capture_handles (device fd) = [].
Proof.
  intros Hf. unfold capture_handles, fd_handles. cbn [with_fd new_capture cs_fd cs_mappings cs_wake_read cs_wake_write].
  rewrite (proj2 (Z.leb_gt 0 fd) Hf). reflexivity.
Qed.
Lemma device_handles fd r w : 0 <= fd ->
  capture_handles (with_wake r w (device fd)) = hfd fd :: fd_handles r ++ fd_handles w.
Proof.
  intros Hf. unfold capture_handles, fd_handles.
  cbn [with_fd with_wake new_capture cs_fd cs_mappings cs_wake_read cs_wake_write].
  by rewrite (proj2 (Z.leb_le 0 fd) Hf).
Qed.

Lemma building_device fd s q : v4l_inv s (total (captures s), q) -> 0 <= fd -> hfd fd ∉ total (captures s) ->
  building s (device fd) q /\ with_building s (device fd) q = ({[+ hfd fd +]} ⊎ total (captures s), q).
Proof.
  intros Hp Hf Hn. assert (capture_handles (device fd) = [hfd fd]) as Hh by apply (device_handles fd (-1) (-1) Hf).
  unfold building, with_building. rewrite Hh.
  replace (hset [hfd fd]) with ({[+ hfd fd +]} : Held) by (unfold hset; simpl; multiset_solver).
  split_and!; try done. apply unique_add; [exact (inv_fds _ _ _ Hp)|done].
Qed.

Lemma building_pipe fd r w s q : building s (device fd) q -> 0 <= r -> 0 <= w -> r <> w ->
  hfd r ∉ (with_building s (device fd) q).1 -> hfd w ∉ (with_building s (device fd) q).1 ->
  let c := with_wake r w (device fd) in
  building s c q /\
  with_building s c q = ({[+ hfd r +]} ⊎ ({[+ hfd w +]} ⊎ (with_building s (device fd) q).1), q).
Proof.
  intros Hb Hr Hw Hne Hnr Hnw c. unfold with_building in *. cbn [fst] in *. pose proof Hb as (Hp & Hu & Hf & _).
  assert (hset (capture_handles c) ⊎ total (captures s) =
    {[+ hfd r +]} ⊎ ({[+ hfd w +]} ⊎ (hset (capture_handles (device fd)) ⊎ total (captures s)))) as Heq.
  { unfold c. rewrite device_handles by done. change (device fd) with (with_wake (-1) (-1) (device fd)).
    rewrite device_handles by done. unfold fd_handles.
    rewrite (proj2 (Z.leb_le 0 _) Hr), (proj2 (Z.leb_le 0 _) Hw). unfold hset. simpl. multiset_solver. }
  rewrite Heq. split; [|done]. split_and!; try done. rewrite Heq. apply unique_add; [by apply unique_add|].
  intros [Hi|Hi]%gmultiset_elem_of_disj_union; [|done]. apply gmultiset_elem_of_singleton in Hi.
  unfold hfd in Hi. congruence.
Qed.

(** The part of [Open] after the pipe. *)
Lemma open_pipe_wp config pf c s q (Q : Status -> V4l2 -> V4lGhost -> Prop) :
  building s c q -> cs_mappings c = [] -> state_ s = None -> 0 <= cs_wake_read c -> 0 <= cs_wake_write c ->
  cs_closing c = false -> (forall st s' g', v4l_inv s' g' -> Q st s' g') ->
  vwp (r <~ negotiate fuel config pf c;
       let '(st, c, f) := r in
       if ok st then dset (opened config f (with_streaming true c));~ DRet Ok
       else DestroyCapture fuel c;~ DRet st) Q s (with_building s c q).
Proof.
  intros Hb Hm Hst Hwr Hww Hcl HQ. apply dwp_bind, negotiate_wp; [done|done|].
  intros st c' f q' Hb' Hwr' Hww' Hcl' Hpr'. destruct (ok st) eqn:E.
  - repeat wstep. apply HQ. destruct (Hpr' eq_refl) as [n Hn].
    eapply pre_opened; try done; rewrite ?Hwr', ?Hww', ?Hcl'; done.
  - apply abandon_wp; [apply Hb'|apply Hb'|apply Hb'|]. intros. by apply HQ.
Qed.

Lemma open_wp config s g (Q : Status -> V4l2 -> V4lGhost -> Prop) :
  v4l_inv s g -> (forall st s' g', v4l_inv s' g' -> Q st s' g') -> vwp (Open fuel config) Q s g.
Proof.
  intros Hp0 HQ. unfold Open. apply dwp_bind, v4l2_close_wp; [done|]. intros s1 [held q] Hp Hst _.
  destruct (_ || _); [wstep; by apply HQ|].
  pose proof (inv_held _ _ _ Hp) as Hh. pose proof (inv_fds _ _ _ Hp) as Hu. cbn [fst] in Hh, Hu. subst held.
  refine (wp_call _ _ (VOpenDevice _) _ _ _ _ _). intros f Hf. cbn in Hf.
  destruct (Z.ltb_spec (sys_result f) 0) as [Hneg|Hpos].
  { exists (with_building s1 (device (sys_result f)) q). unfold with_building, v4l_gstep.
    cbn [ev_cmd queue_guard v4l_effect fst snd].
    rewrite (proj2 (Z.ltb_lt _ _) Hneg), account_none, no_device_handles by done. change (hset []) with (∅ : Held).
    rewrite gmultiset_disj_union_left_id. split; [done|].
    rewrite <- (gmultiset_disj_union_left_id (total (captures s1))). change (∅ : Held) with (hset []).
    rewrite <- (no_device_handles (sys_result f) Hneg). apply abandon_wp; [done| |done|by intros; apply HQ].
    rewrite no_device_handles by done. change (hset []) with (∅ : Held). by rewrite gmultiset_disj_union_left_id. }
  destruct (building_device _ _ _ Hp Hpos (Hf Hpos)) as [Hb Hg]. exists (with_building s1 (device (sys_result f)) q). split.
  { unfold v4l_gstep. cbn [ev_cmd queue_guard v4l_effect fst snd]. rewrite (proj2 (Z.ltb_ge _ _) Hpos), account_take, Hg.
    simpl. do 2 f_equal. multiset_solver. }
  refine (wp_call _ _ VPipe _ _ _ _ _). intros [w|] Hw.
  2:{ exists (with_building s1 (device (sys_result f)) q). split; [unfold v4l_gstep; cbn; by rewrite account_none|].
      apply abandon_wp; [done|apply Hb|done|by intros; apply HQ]. }
  destruct Hw as (Hr & Hww & Hne & Hnr & Hnw).
  destruct (building_pipe _ _ _ _ _ Hb Hr Hww Hne Hnr Hnw) as [Hb2 Hg2].
  exists (with_building s1 (with_wake w.1 w.2 (device (sys_result f))) q). split.
  { rewrite Hg2. unfold v4l_gstep. cbn [ev_cmd queue_guard v4l_effect fst snd with_building queue_step]. rewrite account_take.
    simpl. do 2 f_equal. multiset_solver. }
  by apply open_pipe_wp.
Qed.

(** ** The objects over their life *)

Inductive V4lOp :=
| VOpen (config : V4l2CaptureConfig)
| VRead
| VRequestStop
| VClose
| VDrop (lease : Z)
| VDestroy.

Definition v4l_op (op : V4lOp) : VProg unit :=
  match op with
  | VOpen config => Open fuel config;~ DRet tt
  | VRead => Read fuel;~ DRet tt
  | VRequestStop => RequestStop fuel
  | VClose => Close fuel
  | VDrop l => DropLease fuel l
  | VDestroy => DestroyBackend fuel
  end.

Lemma v4l_op_wp op s g : v4l_inv s g ->
  vwp (v4l_op op) (fun _ s' g' => v4l_inv s' g') s g.
Proof.
  intros Hp. destruct op; cbn [v4l_op].
  - apply dwp_bind, open_wp; [done|]. intros. by wstep.
  - apply dwp_bind, v4l2_read_wp; [done|]. intros. by wstep.
  - eapply stop_wp; [done|]. by apply pre_set_stop.
  - by apply v4l2_close_wp.
  - by apply drop_wp.
  - by apply v4l2_destroy_wp.
Qed.

Lemma v4l_ops_wp ops s g : v4l_inv s g -> vwp (deach ops v4l_op) (fun _ s' g' => v4l_inv s' g') s g.
Proof.
  intros Hp. eapply (wp_deach _ _ ops v4l_op (fun _ s g => v4l_inv s g)); [done|].
  intros op l s' g'. apply v4l_op_wp.
Qed.

Lemma v4l_inv_new : v4l_inv new_v4l2 (∅, ∅).
Proof.
  split; cbn [new_v4l2 captures leases state_ fst snd]; try done; try lia.
  - intros x. rewrite multiplicity_empty. lia.
  - split; intros i [? ?]; done.
Qed.
End safety.


#[local] Instance v4l_allowed_dec g ev : Decision (v4l_allowed g ev).
Proof.
  destruct ev as [c a]; destruct c as [p| |fd r| | | | |]; cbn; try apply _.
  - destruct a; apply _.
  - destruct a as [x d]. destruct r; cbn; try apply _. destruct (g.2 !! fd) as [[n D]|]; apply _.
Defined.

(** A camera that works; descriptors are numbered from 3. *)
#[local] Instance demo_constants : V4l2Constants := {|
  EINTR := 4; EAGAIN := 11; strerror := fun _ => "error"; V4L2_CAP_STREAMING := 2 ^ 26;
  V4L2_PIX_FMT_MJPEG := 1; V4L2_PIX_FMT_H264 := 2; V4L2_PIX_FMT_HEVC := 3;
  V4L2_PIX_FMT_NV12 := 4; V4L2_PIX_FMT_NV21 := 5; V4L2_PIX_FMT_YUYV := 6 |}.

Definition demo_kernel : Device V4lAns (Z * Z) := fun c e =>
  let good := mkSys 0 0 in
  match c return V4lAns c * (Z * Z) with
  | VOpenDevice _ => (mkSys e.1 0, (e.1 + 1, e.2))
  | VPipe => (Some (e.1, e.1 + 1), (e.1 + 2, e.2))
  | VIoctl _ VIDIOC_QUERYCAP => ((good, 2 ^ 26), e)
  | VIoctl _ (VIDIOC_S_FMT w h _) => ((good, mkPix w h (2 * w)), e)
  | VIoctl _ (VIDIOC_REQBUFS n) => ((good, n), e)
  | VIoctl _ (VIDIOC_QUERYBUF i) => ((good, (4096, 4096 * i)), e)
  | VIoctl _ (VIDIOC_EXPBUF _) => ((good, e.1), (e.1 + 1, e.2))
  | VIoctl _ VIDIOC_DQBUF => ((good, mkDequeued e.2 4096 100 250000), (e.1, e.2 + 1))
  | VIoctl _ (VIDIOC_S_PARM _) | VIoctl _ (VIDIOC_QBUF _) | VIoctl _ VIDIOC_STREAMON
  | VIoctl _ VIDIOC_STREAMOFF => ((good, tt), e)
  | VMmap _ _ offset => (Some (1000000 + offset), e)
  | VMunmap _ _ | VCloseFd _ => (tt, e)
  | VPoll _ _ => (mkPolled (mkSys 1 0) true false false, e)
  | VWrite _ => (mkSys 1 0, e)
  end.

Definition demo_camera : V4l2CaptureConfig :=
  mkCaptureConfig "/dev/video0" 640 480 30 "nv12" kExportDmaBuf 4.
(** Two frames are read, the capture is closed, and one frame is dropped after that. *)
Definition demo_capture : list V4lOp := [VOpen demo_camera; VRead; VRead; VClose; VDrop 1].


(** ** The backend behind its interface *)

Section implementation.
Context {VC : V4l2Constants} {E : Type} (fuel : nat) (dev : Device V4lAns E).

(** An operation against a kernel; undefined behaviour has the result [bad]. *)
Definition perform {A} (bad : A) (m : VProg A) (b : V4l2 * E) : A * (V4l2 * E) :=
  let '(r, s, e, _) := drun dev m b.1 b.2 in (match r with Some a => a | None => bad end, (s, e)).

(* [src/modules/rockchip/v4l2/backend.cpp:100-264] LinuxV4l2Backend *)
Definition LinuxV4l2Backend : IV4l2Backend (V4l2 * E) :=
  mkV4l2 _ (fun config => perform (Internal "undefined") (Open fuel config))
    (fun b => let '((st, p), b) := perform (Internal "undefined", None) (Read fuel) b in
              ((st, match p with Some p => p | None => EmptyPacket end), b))
    (fun b => (perform tt (RequestStop fuel) b).2)
    (fun b => (perform tt (Close fuel) b).2).

(** Runs a program up to the next test. *)
Ltac unfold_run := lazy beta iota zeta delta [dbind dset dget dcall]; cbn.

Lemma retry_write_state n fd s e : (drun dev (retry_write n fd) s e).1.1.2 = s.
Proof.
  revert e. induction n as [|n IH]; intros e; cbn [retry_write]; rewrite drun_bind; unfold dcall; cbn [drun].
  all: destruct (dev (VWrite fd) e) as [a e']; cbn; try done. destruct (interrupted a); [|done].
  specialize (IH e'). by destruct (drun dev (retry_write n fd) s e') as [[[? ?] ?] ?].
Qed.

(** [RequestStop] is remembered until [Open]. *)
#[export] Instance linux_v4l2_sticky :
  StickyStop (v4l2_Read LinuxV4l2Backend) (v4l2_RequestStop LinuxV4l2Backend).
Proof.
  refine {| stopped := fun b => stop_ b.1 = true |}.
  - intros [s e]. cbn [v4l2_RequestStop LinuxV4l2Backend]. unfold perform, RequestStop, capture_of.
    unfold_run. destruct (state_ s) as [i|]; [|done]. cbn. destruct (captures s !! i) as [c|]; [|done].
    destruct (0 <=? cs_wake_write c); [|done].
    pose proof (retry_write_state fuel (cs_wake_write c) (set_stop true s) e) as Hs.
    destruct (drun dev (retry_write fuel (cs_wake_write c)) (set_stop true s) e) as [[[r s'] e'] evs].
    cbn in Hs |- *. by subst.
  - intros [s e] Hst. cbn in Hst. cbn [v4l2_Read LinuxV4l2Backend]. unfold perform, Read.
    unfold_run. destruct (state_ s) as [i|]; [|done]. cbn. by rewrite Hst.
Defined.
End implementation.

(** So a node that is stopped and started again without [Close] captures nothing. *)
Lemma restarted_camera_is_silent {VC : V4l2Constants} {E W} fuel (dev : Device V4lAns E) (h : Handler W)
    (o : NodeObj (Capturing (V4l2 * E) V4l2CaptureConfig)) w ctx rounds :
  thread_owned o -> Node.state_ o = kRunning -> stop_requested_ o = false ->
  let backend := LinuxV4l2Backend fuel dev in
  let o' := (nrun h (owner_calls (V4l2SourceNode backend) [OStop; OStart ctx]) o w).1.2 in
  Node.state_ o' = kRunning /\
  let '(r, _, e, _) := drun (quiet_device (v4l2_Read backend) (cap_stop (self o')) false)
                            (V4l2Loop (S rounds)) tt (cap_backend (self o'), []) in
  r = Some true /\ e.2 = [].
Proof.
  intros Ho Hr Hs. cbv zeta. destruct (restarted_source_is_silent (LinuxV4l2Backend fuel dev) h o w ctx rounds Ho Hr Hs)
    as (? & _ & _ & ?). done.
Qed.
