(* ===== verification/AlsaBackend.v ===== *)
(** * The ALSA backend

    [src/modules/audio/backend.cpp]: audio capture with alsa-lib, which is the outside
    ([AlsaCmd]).  The capture thread of the node reads; other threads only request a
    stop, which a read notices before and after it waits.

    [alsa_backend_safe]: a device is used only between its opening and its closing, it is
    closed on every path, and what is captured fits into the memory it is captured to. *)

From S2P Require Import Prelude Status Timestamp Values Buffer Contract Node Device Backends ModuleNodes CaptureNodes.
From stdpp Require Import list gmultiset.
Local Open Scope rkavp_scope.
Local Open Scope Z_scope.

(** ** The library *)

(** The formats the code names. *)
Inductive snd_pcm_format_t :=
| SND_PCM_FORMAT_UNKNOWN
| SND_PCM_FORMAT_S16_LE
| SND_PCM_FORMAT_S24_LE
| SND_PCM_FORMAT_S32_LE
| SND_PCM_FORMAT_FLOAT_LE
| SND_PCM_FORMAT_U8.
#[export] Instance snd_pcm_format_eq_dec : EqDecision snd_pcm_format_t.
Proof. solve_decision. Defined.

(** [has_tstamp_type]: whether the preprocessor knows [SND_PCM_TSTAMP_TYPE_MONOTONIC]. *)
Class AlsaLib := {
  EPIPE : Z; ESTRPIPE : Z; EAGAIN : Z;
  snd_strerror : Z -> string;
  snd_pcm_format_physical_width : snd_pcm_format_t -> Z;
  has_tstamp_type : bool }.

(** The hardware parameters of a device that is being configured. *)
Record HwParams := mkHw { hw_format : snd_pcm_format_t; hw_channels : Z; hw_period : Z }.

(** Calls that only succeed or fail. *)
Inductive SndCall :=
| hw_params_any
| hw_params_set_access
| hw_params_set_format (f : snd_pcm_format_t)
| hw_params_set_channels (n : Z)
| hw_params (p : HwParams)
| sw_params_current
| sw_params_set_tstamp_mode
| sw_params_set_tstamp_type
| sw_params
| pcm_prepare.

Inductive AlsaCmd :=
| snd_pcm_open (device : string)
| Snd (pcm : Z) (c : SndCall)
| snd_pcm_hw_params_set_rate_near (pcm rate : Z)
| snd_pcm_hw_params_set_period_size_near (pcm frames : Z)
| snd_pcm_wait (pcm : Z)
| snd_pcm_readi (pcm bytes frames : Z)
| snd_pcm_status (pcm : Z)
| snd_pcm_abort (pcm : Z)
| snd_pcm_close (pcm : Z)
| NewHostBuffer (size : Z).

(** A wait also tells whether a stop was requested meanwhile. *)
Definition AlsaAns (c : AlsaCmd) : Type :=
  match c with
  | snd_pcm_open _ => Z * Z
  | Snd _ _ => Z
  | snd_pcm_hw_params_set_rate_near _ _ => Z * Z
  | snd_pcm_hw_params_set_period_size_near _ _ => Z * Z
  | snd_pcm_wait _ => Z * bool
  | snd_pcm_readi _ _ _ => Z
  | snd_pcm_status _ => Z * (Z * Z)
  | snd_pcm_abort _ => unit
  | snd_pcm_close _ => unit
  | NewHostBuffer _ => Z
  end.

(** ** The object *)

(* [src/modules/audio/backend.cpp:158-164] AlsaBackend (fields) *)
Record Alsa := mkAlsaState {
  pcm_ : option Z;
  config_ : AlsaCaptureConfig;
  format_ : snd_pcm_format_t;
  frames_per_read_ : Z;
  bytes_per_sample_ : Z;
  stop_ : bool }.
Definition new_alsa : Alsa := mkAlsaState None default_alsa_config SND_PCM_FORMAT_UNKNOWN 0 0 true.

Definition set_pcm (p : option Z) (s : Alsa) : Alsa :=
  mkAlsaState p (config_ s) (format_ s) (frames_per_read_ s) (bytes_per_sample_ s) (stop_ s).
Definition set_format (f : snd_pcm_format_t) (s : Alsa) : Alsa :=
  mkAlsaState (pcm_ s) (config_ s) f (frames_per_read_ s) (bytes_per_sample_ s) (stop_ s).
Definition set_stop (b : bool) (s : Alsa) : Alsa :=
  mkAlsaState (pcm_ s) (config_ s) (format_ s) (frames_per_read_ s) (bytes_per_sample_ s) b.

Abbreviation AProg := (dprog AlsaAns Alsa).
Abbreviation acall := (dcall (Ans := AlsaAns) (S := Alsa)).

(* [src/modules/audio/backend.cpp:17-24] AlsaFormat *)
Definition AlsaFormat (format : string) : snd_pcm_format_t :=
  if bool_decide (format = "s16_le") then SND_PCM_FORMAT_S16_LE
  else if bool_decide (format = "s24_le") then SND_PCM_FORMAT_S24_LE
  else if bool_decide (format = "s32_le") then SND_PCM_FORMAT_S32_LE
  else if bool_decide (format = "float32_le") then SND_PCM_FORMAT_FLOAT_LE
  else if bool_decide (format = "u8") then SND_PCM_FORMAT_U8
  else SND_PCM_FORMAT_UNKNOWN.

Section backend.
Context {AL : AlsaLib}.

(** [if (result >= 0) result = call] *)
Definition if_good (result : Z) (m : AProg Z) : AProg Z := if result <? 0 then DRet result else m.
Definition if_near (result value : Z) (m : AProg (Z * Z)) : AProg (Z * Z) :=
  if result <? 0 then DRet (result, value) else m.

(* [src/modules/audio/backend.cpp:144-148] AlsaBackend::RequestStop *)
Definition RequestStop : AProg unit :=
  dset (set_stop true);~
  p <~ dget pcm_;
  match p with None => DRet tt | Some p => acall (snd_pcm_abort p) end.

(* [src/modules/audio/backend.cpp:150-155] AlsaBackend::Close *)
Definition Close : AProg unit :=
  RequestStop;~
  p <~ dget pcm_;
  match p with None => DRet tt | Some p => acall (snd_pcm_close p) end;~
  dset (set_pcm None).

(** The hardware parameters: the last result, the rate and the period.  The product of
    the rate and the frame time is computed in 32 bits. *)
Definition negotiate_hardware (config : AlsaCaptureConfig) (format : snd_pcm_format_t) (pcm : Z)
  : AProg (Z * Z * Z) :=
  r <~ acall (Snd pcm hw_params_any);
  r <~ if_good r (acall (Snd pcm hw_params_set_access));
  r <~ if_good r (acall (Snd pcm (hw_params_set_format format)));
  x <~ if_near r (ac_sample_rate config) (acall (snd_pcm_hw_params_set_rate_near pcm (ac_sample_rate config)));
  let rate := x.2 in
  r <~ if_good x.1 (acall (Snd pcm (hw_params_set_channels (ac_channels config))));
  let period := Z.max 1 (u32 (rate * ac_frame_ms config) / 1000) in
  y <~ if_near r period (acall (snd_pcm_hw_params_set_period_size_near pcm period));
  r <~ if_good y.1 (acall (Snd pcm (hw_params (mkHw format (ac_channels config) y.2))));
  DRet (r, rate, y.2).

Definition negotiate_software (pcm : Z) : AProg Z :=
  r <~ acall (Snd pcm sw_params_current);
  r <~ if_good r (acall (Snd pcm sw_params_set_tstamp_mode));
  r <~ (if has_tstamp_type then if_good r (acall (Snd pcm sw_params_set_tstamp_type)) else DRet r);
  r <~ if_good r (acall (Snd pcm sw_params));
  if_good r (acall (Snd pcm pcm_prepare)).

(** [width / 8] of an [int]. *)
Definition sample_bytes (f : snd_pcm_format_t) : Z := Z.quot (snd_pcm_format_physical_width f) 8.

Definition opened (config : AlsaCaptureConfig) (pcm rate period : Z) (s : Alsa) : Alsa :=
  mkAlsaState (Some pcm)
    (mkAlsaConfig (ac_device config) (to_int rate) (ac_channels config) (ac_format config)
       (ac_frame_ms config))
    (format_ s) period (sample_bytes (format_ s)) false.

(* [src/modules/audio/backend.cpp:30-89] AlsaBackend::Open *)
Definition Open (config : AlsaCaptureConfig) : AProg Status :=
  Close;~
  if (ac_sample_rate config <=? 0) || (ac_channels config <=? 0) || (ac_frame_ms config <=? 0)
  then DRet (Invalid "invalid ALSA capture configuration") else
  let format := AlsaFormat (ac_format config) in
  dset (set_format format);~
  if bool_decide (format = SND_PCM_FORMAT_UNKNOWN)
  then DRet (Invalid ("unsupported ALSA format: " +:+ ac_format config)) else
  o <~ acall (snd_pcm_open (ac_device config));
  if o.1 <? 0 then DRet (Unavailable ("snd_pcm_open failed: " +:+ snd_strerror o.1)) else
  let pcm := o.2 in
  h <~ negotiate_hardware config format pcm;
  let '(r, rate, period) := h in
  if r <? 0 then
    acall (snd_pcm_close pcm);~
    DRet (Unavailable ("ALSA hardware negotiation failed: " +:+ snd_strerror r))
  else
  r <~ negotiate_software pcm;
  if r <? 0 then
    acall (snd_pcm_close pcm);~ DRet (Unavailable ("ALSA prepare failed: " +:+ snd_strerror r))
  else dset (opened config pcm rate period);~ DRet Ok.

(** Signed 64-bit arithmetic that must not overflow. *)
Definition checked {A} (z : Z) (k : AProg A) : AProg A :=
  if bool_decide (is_i64 z) then k else DUndefined "signed overflow".

(** [frames * channels * bytes_per_sample] as a [size_t]. *)
Definition frame_bytes (frames : Z) (s : Alsa) : Z :=
  u64 (u64 (frames * ac_channels (config_ s)) * bytes_per_sample_ s).

(** What the bytes of [captured] frames become. *)
Definition deliver (pcm captured : Z) : AProg AudioFrame :=
  size <~ dget (frame_bytes captured);
  t <~ acall (snd_pcm_status pcm);
  let '(sec, nsec) := if t.1 <? 0 then (0, 0) else t.2 in
  checked (sec * 1000000)
  (checked (sec * 1000000 + Z.quot nsec 1000)
  (cfg <~ dget config_;
   b <~ acall (NewHostBuffer size);
   DRet (mkAudioFrame (FromMicroseconds (sec * 1000000 + Z.quot nsec 1000)) (ac_sample_rate cfg)
           (ac_channels cfg) (to_int captured) (ac_format cfg) (Some b)))).

(** [None] when no frame was written. *)
(* [src/modules/audio/backend.cpp:91-133] AlsaBackend::Read *)
Definition Read : AProg (Status * option AudioFrame) :=
  p <~ dget pcm_;
  match p with
  | None => DRet (FailedPrecondition "ALSA capture is not open", None)
  | Some pcm =>
      stop <~ dget stop_;
      if (stop : bool) then DRet (Cancelled "ALSA capture stopped", None) else
      w <~ acall (snd_pcm_wait pcm);
      dset (fun s => set_stop (stop_ s || w.2) s);~
      stop <~ dget stop_;
      if (stop : bool) then DRet (Cancelled "ALSA capture stopped", None)
      else if w.1 =? 0 then DRet (Unavailable "ALSA capture timeout", None)
      else if w.1 <? 0 then DRet (Unavailable ("ALSA wait failed: " +:+ snd_strerror w.1), None) else
      frames <~ dget frames_per_read_;
      byte_count <~ dget (frame_bytes frames);
      captured <~ acall (snd_pcm_readi pcm byte_count frames);
      if (captured =? - EPIPE) || (captured =? - ESTRPIPE) then DRet (Internal "ALSA capture overrun", None)
      else if captured =? - EAGAIN then DRet (Unavailable "ALSA capture would block", None)
      else if captured <? 0 then
        DRet (Unavailable ("ALSA read failed: " +:+ snd_strerror (to_int captured)), None)
      else
        frame <~ deliver pcm captured;
        DRet (Ok, Some frame)
  end.

(* [src/modules/audio/backend.cpp:135-142] AlsaBackend::RecoverOverrun *)
Definition RecoverOverrun : AProg Status :=
  p <~ dget pcm_;
  match p with
  | None => DRet (FailedPrecondition "ALSA capture is not open")
  | Some pcm =>
      r <~ acall (Snd pcm pcm_prepare);
      DRet (if r <? 0 then Unavailable ("ALSA overrun recovery failed: " +:+ snd_strerror r) else Ok)
  end.
End backend.

(** ** What the calls need and leave *)

Section safety.
Context {AL : AlsaLib}.

Definition hpcm (p : Z) : Handle := ("pcm", p).
Abbreviation AlsaGhost := (Held * gmap Z HwParams)%type.

Definition alsa_effect (ev : devent AlsaAns) : Effect Handle :=
  let 'Ev c a := ev in
  match c return AlsaAns c -> Effect Handle with
  | snd_pcm_open _ => fun r => if r.1 <? 0 then no_effect else obtaining [hpcm r.2]
  | Snd p _ | snd_pcm_abort p => fun _ => needing [hpcm p]
  | snd_pcm_hw_params_set_rate_near p _ | snd_pcm_hw_params_set_period_size_near p _ =>
      fun _ => needing [hpcm p]
  | snd_pcm_wait p => fun _ => needing [hpcm p]
  | snd_pcm_readi p _ _ => fun _ => needing [hpcm p]
  | snd_pcm_status p => fun _ => needing [hpcm p]
  | snd_pcm_close p => fun _ => returning [hpcm p]
  | NewHostBuffer _ => fun _ => no_effect
  end a.

Definition hw_bytes (p : HwParams) (frames : Z) : Z := frames * hw_channels p * sample_bytes (hw_format p).

(** A device is read into memory that holds the frames asked for. *)
Definition alsa_guard (c : AlsaCmd) (m : gmap Z HwParams) : bool :=
  match c with
  | snd_pcm_readi p bytes frames =>
      match m !! p with Some h => hw_bytes h frames <=? bytes | None => false end
  | _ => true
  end.

(** The parameters in force. *)
Definition alsa_params (ev : devent AlsaAns) (m : gmap Z HwParams) : gmap Z HwParams :=
  let 'Ev c a := ev in
  match c return AlsaAns c -> gmap Z HwParams with
  | Snd p (hw_params h) => fun r => if r <? 0 then m else <[p := h]> m
  | snd_pcm_close p => fun _ => delete p m
  | _ => fun _ => m
  end a.

Definition alsa_gstep (ev : devent AlsaAns) (g : AlsaGhost) : option AlsaGhost :=
  if alsa_guard (ev_cmd ev) g.2 then
    match account (alsa_effect ev) g.1 with
    | Some held => Some (held, alsa_params ev g.2)
    | None => None
    end
  else None.

(** A period that is accepted fits into memory; at most the frames asked for are read; the
    time is a time of day. *)
Definition alsa_allowed (g : AlsaGhost) (ev : devent AlsaAns) : Prop :=
  let 'Ev c a := ev in
  match c return AlsaAns c -> Prop with
  | Snd _ (hw_params h) => fun r => 0 <= r ->
      0 <= hw_period h /\ 0 <= sample_bytes (hw_format h) /\ hw_bytes h (hw_period h) < u64_mod
  | snd_pcm_readi _ _ frames => fun r => r <= frames
  | snd_pcm_status _ => fun r => 0 <= r.1 -> 0 <= r.2.1 < 2 ^ 42 /\ 0 <= r.2.2 < 1000000000
  | _ => fun _ => True
  end a.

Definition held_of (s : Alsa) : Held := match pcm_ s with Some p => {[+ hpcm p +]} | None => ∅ end.

Definition alsa_inv (s : Alsa) (g : AlsaGhost) : Prop :=
  g.1 = held_of s /\
  forall p, pcm_ s = Some p -> exists h, g.2 !! p = Some h /\
    hw_channels h = ac_channels (config_ s) /\ sample_bytes (hw_format h) = bytes_per_sample_ s /\
    hw_period h = frames_per_read_ s /\ 0 < hw_channels h /\
    0 <= hw_period h /\ 0 <= sample_bytes (hw_format h) /\ hw_bytes h (hw_period h) < u64_mod.

Abbreviation awp := (wp alsa_gstep alsa_allowed).
Implicit Types (g : AlsaGhost) (s : Alsa) (m : gmap Z HwParams).

(** A call that uses the device. *)
Lemma alsa_use c a p (held : Held) m : alsa_effect (Ev c a) = needing [hpcm p] -> alsa_guard c m = true ->
  hpcm p ∈ held -> alsa_gstep (Ev c a) (held, m) = Some (held, alsa_params (Ev c a) m).
Proof.
  intros He Hg Hin. unfold alsa_gstep. cbn [ev_cmd fst snd]. rewrite Hg, He, account_use; [done|].
  simpl. multiset_solver.
Qed.

Lemma close_step p a m : alsa_gstep (Ev (snd_pcm_close p) a) ({[+ hpcm p +]}, m) = Some (∅, delete p m).
Proof.
  unfold alsa_gstep. cbn [ev_cmd fst snd alsa_guard alsa_effect alsa_params].
  replace ({[+ hpcm p +]} : Held) with (list_to_set_disj [hpcm p] ⊎ ∅ : Held) by (simpl; multiset_solver).
  unfold returning. rewrite account_give; [done|]. simpl. multiset_solver.
Qed.

Lemma request_stop_wp s g (Q : unit -> Alsa -> AlsaGhost -> Prop) :
  alsa_inv s g -> Q tt (set_stop true s) g -> awp RequestStop Q s g.
Proof.
  intros [Hh _] HQ. destruct g as [held m]. cbn [fst] in Hh. unfold RequestStop. repeat wstep. cbn [pcm_ set_stop].
  destruct (pcm_ s) as [p|] eqn:Hp; [|by wstep]. wcall [] _; [apply (alsa_use _ _ p); [done|done|]|done].
  rewrite Hh. unfold held_of. rewrite Hp. multiset_solver.
Qed.

Lemma alsa_inv_stop b s g : alsa_inv s g -> alsa_inv (set_stop b s) g.
Proof. done. Qed.

Lemma alsa_close_wp s g (Q : unit -> Alsa -> AlsaGhost -> Prop) :
  alsa_inv s g -> (forall s' m, pcm_ s' = None -> Q tt s' (∅, m)) -> awp Close Q s g.
Proof.
  intros Hi HQ. unfold Close. apply dwp_bind, request_stop_wp; [done|]. wstep. cbn [pcm_ set_stop].
  destruct g as [held m], Hi as [Hh _]. cbn [fst] in Hh. unfold held_of in Hh.
  destruct (pcm_ s) as [p|]; subst held; [|repeat wstep; by apply HQ].
  wcall [] _; [apply close_step|]. wstep. by apply HQ.
Qed.

(** The chain of configuration calls keeps the device. *)
Lemma if_good_wp c p r (Q : Z -> Alsa -> AlsaGhost -> Prop) s (held : Held) m :
  hpcm p ∈ held -> (forall r', r' < 0 -> Q r' s (held, m)) ->
  (forall r', 0 <= r' -> alsa_allowed (held, m) (Ev (Snd p c) r') ->
     Q r' s (held, alsa_params (Ev (Snd p c) r') m)) ->
  awp (if_good r (acall (Snd p c))) Q s (held, m).
Proof.
  intros Hin Hbad Hgood. unfold if_good. destruct (Z.ltb_spec r 0); [wstep; auto|].
  wcall x Hx; [by apply (alsa_use _ _ p)|]. destruct (Z.lt_ge_cases x 0) as [Hn|Hp]; [|auto].
  replace (alsa_params _ m) with m; [auto|]. cbn. destruct c; try done. by rewrite (proj2 (Z.ltb_lt _ _) Hn).
Qed.

(** The same for a call that changes no parameters. *)
Lemma if_good_plain c p r (Q : Z -> Alsa -> AlsaGhost -> Prop) s (held : Held) m :
  hpcm p ∈ held -> (forall h, c <> hw_params h) -> (forall r', Q r' s (held, m)) ->
  awp (if_good r (acall (Snd p c))) Q s (held, m).
Proof.
  intros Hin Hc HQ. apply if_good_wp; [done|auto|]. intros r' _ _.
  replace (alsa_params _ m) with m; [auto|]. destruct c; try done. by destruct (Hc p0).
Qed.

Lemma hardware_wp config f p (Q : Z * Z * Z -> Alsa -> AlsaGhost -> Prop) s (held : Held) m :
  hpcm p ∈ held ->
  (forall r rate period m', (0 <= r -> m' !! p = Some (mkHw f (ac_channels config) period) /\
     0 <= period /\ 0 <= sample_bytes f /\ hw_bytes (mkHw f (ac_channels config) period) period < u64_mod) ->
     Q (r, rate, period) s (held, m')) ->
  awp (negotiate_hardware config f p) Q s (held, m).
Proof.
  intros Hin HQ. unfold negotiate_hardware. wcall r _; [by apply (alsa_use _ _ p)|]. cbn [alsa_params].
  apply dwp_bind, if_good_plain; [done|done|]. intros r1. apply dwp_bind, if_good_plain; [done|done|]. intros r2.
  apply dwp_bind. unfold if_near at 1. assert (forall x, awp (r <~ if_good x.1 (acall (Snd p (hw_params_set_channels (ac_channels config))));
    (let period := Z.max 1 (u32 (x.2 * ac_frame_ms config) / 1000) in
     y <~ if_near r period (acall (snd_pcm_hw_params_set_period_size_near p period));
     r <~ if_good y.1 (acall (Snd p (hw_params (mkHw f (ac_channels config) y.2))));
     DRet (r, x.2, y.2))) Q s (held, m)) as Hrest.
  { intros x. apply dwp_bind, if_good_plain; [done|done|]. intros r3. cbv zeta. apply dwp_bind.
    assert (forall y, awp (r <~ if_good y.1 (acall (Snd p (hw_params (mkHw f (ac_channels config) y.2))));
      DRet (r, x.2, y.2)) Q s (held, m)) as Hlast.
    { intros y. apply dwp_bind, if_good_wp; [done|intros; wstep; apply HQ; lia|].
      intros r' Hr Ha. wstep. apply HQ. intros _. specialize (Ha Hr). cbn in Ha |- *.
      rewrite (proj2 (Z.ltb_ge _ _) Hr), lookup_insert_eq. done. }
    unfold if_near. destruct (_ <? _); [wstep; apply Hlast|].
    wcall y _; [by apply (alsa_use _ _ p)|]. apply Hlast. }
  destruct (_ <? _); [wstep; apply Hrest|]. wcall x _; [by apply (alsa_use _ _ p)|]. apply Hrest.
Qed.

Lemma software_wp p (Q : Z -> Alsa -> AlsaGhost -> Prop) s (held : Held) m :
  hpcm p ∈ held -> (forall r, Q r s (held, m)) -> awp (negotiate_software p) Q s (held, m).
Proof.
  intros Hin HQ. unfold negotiate_software. wcall r _; [by apply (alsa_use _ _ p)|]. cbn [alsa_params].
  apply dwp_bind, if_good_plain; [done|done|]. intros r1. apply dwp_bind.
  assert (forall r, awp (r <~ if_good r (acall (Snd p sw_params)); if_good r (acall (Snd p pcm_prepare))) Q s (held, m)) as Hrest.
  { intros r2. apply dwp_bind, if_good_plain; [done|done|]. intros r3. by apply if_good_plain. }
  destruct has_tstamp_type; [|wstep; apply Hrest]. apply if_good_plain; [done|done|]. intros r2. apply Hrest.
Qed.

Lemma alsa_inv_closed s m : pcm_ s = None -> alsa_inv s (∅, m).
Proof. intros Hp. split; [unfold held_of; by rewrite Hp|]. intros p. by rewrite Hp. Qed.

Lemma alsa_open_wp config s g (Q : Status -> Alsa -> AlsaGhost -> Prop) :
  alsa_inv s g -> (forall st s' g', alsa_inv s' g' -> Q st s' g') -> awp (Open config) Q s g.
Proof.
  intros Hi HQ. unfold Open. apply dwp_bind, alsa_close_wp; [done|]. intros s1 m Hp.
  destruct (_ || _) eqn:Ev; [wstep; by apply HQ, alsa_inv_closed|].
  apply orb_false_iff in Ev as [[_ Hch]%orb_false_iff _]. apply Z.leb_gt in Hch. wstep.
  set (f := AlsaFormat (ac_format config)). case_bool_decide; [wstep; by apply HQ, alsa_inv_closed|].
  refine (wp_call _ _ (snd_pcm_open _) _ _ _ _ _). intros o _.
  assert (forall m' st, Q st (set_format f s1) (∅, m')) as Hbad by (intros; by apply HQ, alsa_inv_closed).
  destruct (Z.ltb_spec o.1 0) as [Hn|Hg].
  { exists (∅, m). split; [|wstep; apply Hbad]. unfold alsa_gstep. cbn [ev_cmd alsa_guard alsa_effect fst snd].
    by rewrite (proj2 (Z.ltb_lt _ _) Hn), account_none. }
  exists ({[+ hpcm o.2 +]}, m). split.
  { unfold alsa_gstep. cbn [ev_cmd alsa_guard alsa_effect fst snd alsa_params].
    rewrite (proj2 (Z.ltb_ge _ _) Hg), account_take. simpl. do 2 f_equal. multiset_solver. }
  apply dwp_bind, hardware_wp; [multiset_solver|]. intros r rate period m' Hm'.
  destruct (Z.ltb_spec r 0) as [|Hr]; [wcall [] _; [apply close_step|]; wstep; apply Hbad|].
  apply dwp_bind, software_wp; [multiset_solver|]. intros r'.
  destruct (r' <? 0); [wcall [] _; [apply close_step|]; wstep; apply Hbad|]. repeat wstep. apply HQ.
  destruct (Hm' Hr) as (Hl & Hper & Hsb & Hby). split; [done|]. cbn. intros p [= <-].
  eexists. split; [exact Hl|]. split_and!; try done.
Qed.

(** The bytes of the frames of a read. *)
Lemma frame_bytes_hw s h frames : hw_channels h = ac_channels (config_ s) ->
  sample_bytes (hw_format h) = bytes_per_sample_ s -> 0 < hw_channels h -> 0 <= sample_bytes (hw_format h) ->
  0 <= frames -> hw_bytes h frames < u64_mod -> frame_bytes frames s = hw_bytes h frames \/ sample_bytes (hw_format h) = 0.
Proof.
  intros Hc Hb Hc0 Hb0 Hf Hlt. unfold frame_bytes, hw_bytes in *. rewrite <- Hc, <- Hb.
  destruct (Z.eq_dec (sample_bytes (hw_format h)) 0) as [|Hne]; [by right|left].
  set (b := sample_bytes (hw_format h)) in *. set (n := frames * hw_channels h) in *.
  assert (0 <= n) by (apply Z.mul_nonneg_nonneg; lia). assert (1 <= b) by lia. assert (0 <= n <= n * b) by nia.
  unfold u64. rewrite (Z.mod_small n) by lia. rewrite Z.mod_small by lia. done.
Qed.

Lemma alsa_deliver_wp pcm n (Q : AudioFrame -> Alsa -> AlsaGhost -> Prop) s (held : Held) m :
  hpcm pcm ∈ held -> (forall f, Q f s (held, m)) -> awp (deliver pcm n) Q s (held, m).
Proof.
  intros Hin HQ. unfold deliver, checked. wstep. wcall t Ht; [by apply (alsa_use _ _ pcm)|]. cbn [alsa_params].
  assert (exists sec nsec, (if t.1 <? 0 then (0, 0) else t.2) = (sec, nsec) /\ 0 <= sec < 2 ^ 42 /\ 0 <= nsec < 1000000000)
    as (sec & nsec & -> & Hs & Hns).
  { destruct (Z.ltb_spec t.1 0) as [|Hp]; [exists 0, 0; split_and!; (done || lia)|]. destruct (Ht Hp). exists t.2.1, t.2.2.
    split_and!; [by destruct t as [? []]|lia..]. }
  assert (0 <= Z.quot nsec 1000 < 1000000) as Hq.
  { rewrite Z.quot_div_nonneg by lia. split; [apply Z.div_pos; lia|apply Z.div_lt_upper_bound; lia]. }
  rewrite !bool_decide_eq_true_2 by (unfold is_i64; rewrite int64_min_eq, int64_max_eq; lia).
  wstep. wcall b _.
  { unfold alsa_gstep. cbn [ev_cmd alsa_guard alsa_effect fst snd]. by rewrite account_none. }
  wstep. apply HQ.
Qed.

Lemma alsa_read_wp s g (Q : Status * option AudioFrame -> Alsa -> AlsaGhost -> Prop) :
  alsa_inv s g -> (forall r s' g', alsa_inv s' g' -> Q r s' g') -> awp Read Q s g.
Proof.
  intros Hi HQ. unfold Read. wstep. destruct (pcm_ s) as [p|] eqn:Hp; [|wstep; by apply HQ]. wstep.
  destruct (stop_ s); [wstep; by apply HQ|]. destruct g as [held m]. pose proof Hi as [Hh Hpar]. cbn [fst snd] in *.
  assert (hpcm p ∈ held) as Hin by (rewrite Hh; unfold held_of; rewrite Hp; multiset_solver).
  destruct (Hpar p Hp) as (h & Hm & Hc & Hb & Hper & Hc0 & Hp0 & Hb0 & Hlt).
  wcall w _; [by apply (alsa_use _ _ p)|]. cbn [alsa_params]. repeat wstep. set (s1 := set_stop _ s).
  assert (alsa_inv s1 (held, m)) as Hi1 by done.
  destruct (stop_ s1); [wstep; by apply HQ|]. destruct (w.1 =? 0); [wstep; by apply HQ|].
  destruct (w.1 <? 0); [wstep; by apply HQ|]. repeat wstep.
  wcall n _.
  { apply (alsa_use _ _ p); [done| |done]. cbn. rewrite Hm. apply Z.leb_le.
    replace (frames_per_read_ s) with (hw_period h).
    destruct (frame_bytes_hw s1 h (hw_period h)) as [->|Hz]; try done.
    unfold hw_bytes, frame_bytes. rewrite Hz. apply Z.le_trans with 0; [lia|]. apply Z.mod_pos_bound. by compute. }
  cbn [alsa_params]. destruct ((n =? - EPIPE) || (n =? - ESTRPIPE)); [wstep; by apply HQ|]. destruct (n =? - EAGAIN); [wstep; by apply HQ|].
  destruct (n <? 0); [wstep; by apply HQ|]. apply dwp_bind, alsa_deliver_wp; [done|]. intros f. wstep. by apply HQ.
Qed.

(** ** The object over its life *)

Inductive AlsaOp :=
| AOpen (config : AlsaCaptureConfig)
| ARead
| ARecoverOverrun
| ARequestStop
| AClose.

Definition alsa_op (op : AlsaOp) : AProg unit :=
  match op with
  | AOpen config => Open config;~ DRet tt
  | ARead => Read;~ DRet tt
  | ARecoverOverrun => RecoverOverrun;~ DRet tt
  | ARequestStop => RequestStop
  | AClose => Close
  end.

Lemma alsa_op_wp op s g : alsa_inv s g -> awp (alsa_op op) (fun _ s' g' => alsa_inv s' g' /\ (op = AClose -> pcm_ s' = None)) s g.
Proof.
  intros Hi. destruct op; cbn [alsa_op].
  - apply dwp_bind, alsa_open_wp; [done|]. intros. by wstep.
  - apply dwp_bind, alsa_read_wp; [done|]. intros. by wstep.
  - apply dwp_bind. unfold RecoverOverrun. wstep. destruct (pcm_ s) as [p|] eqn:Hp; [|by repeat wstep].
    destruct g as [held m].
    assert (hpcm p ∈ held) as Hin.
    { destruct Hi as [Hh _]. cbn in Hh. rewrite Hh. unfold held_of. rewrite Hp. multiset_solver. }
    wcall r _; [by apply (alsa_use _ _ p)|by repeat wstep].
  - by apply request_stop_wp.
  - apply alsa_close_wp; [done|]. intros s' m Hp. split; [by apply alsa_inv_closed|done].
Qed.

Lemma alsa_ops_wp ops s g : alsa_inv s g -> awp (deach ops alsa_op)
  (fun _ s' g' => alsa_inv s' g' /\ (list.last ops = Some AClose -> pcm_ s' = None)) s g.
Proof.
  revert s g. induction ops as [|op ops IH]; intros s g Hi; cbn [deach]; [by wstep|].
  eapply dwp_seq; [by apply alsa_op_wp|]. intros [] s1 g1 [Hi1 Hcl].
  destruct ops as [|op' ops]; [|by apply IH]. cbn [deach]. wstep. split; [done|]. intros [= ->]. auto.
Qed.
End safety.

(** The ALSA backend is safe in its use of alsa-lib.  Take any sequence of its operations and
    any library that keeps to its documentation (an accepted period fits into memory, a read
    returns at most the frames asked for), with arbitrary failures otherwise: a device is used
    only while it is open and closed once, also on every failing path of [Open]; and although the
    sizes are computed in 64-bit unsigned arithmetic, the memory that a read captures into holds
    at least the frames that are asked for.  The open device at the end is the one the object has,
    and after [Close] there is none. *)
Theorem alsa_backend_safe {E} {AL : AlsaLib} (dev : Device AlsaAns E) e ops :
  let '(r, s, e', evs) := drun dev (deach ops alsa_op) new_alsa e in
  documented alsa_gstep alsa_allowed evs (∅, ∅) ->
  r = Some tt /\ (exists m, gsteps alsa_gstep evs (∅, ∅) = Some (held_of s, m)) /\
  (list.last ops = Some AClose -> held_of s = ∅).
Proof.
  destruct (drun dev (deach ops alsa_op) new_alsa e) as [[[r s] e'] evs] eqn:Er. intros Hd.
  assert (alsa_inv new_alsa (∅, ∅)) as H0 by (by apply alsa_inv_closed).
  destruct (wp_sound _ _ _ _ _ _ _ _ _ _ _ _ (alsa_ops_wp ops _ _ H0) Er Hd)
    as ([] & [held m] & -> & Hg & [Hh _] & Hcl). cbn in Hh. subst held.
  split_and!; [done|by exists m|]. intros Hl. unfold held_of. by rewrite (Hcl Hl).
Qed.

#[local] Instance alsa_allowed_dec {AL : AlsaLib} g ev : Decision (alsa_allowed g ev).
Proof. destruct ev as [c a]; destruct c as [d|p []| | | | | | | |]; cbn; apply _. Defined.

(** A sound card that works. *)
#[local] Instance demo_alsa : AlsaLib := {|
  EPIPE := 32; ESTRPIPE := 86; EAGAIN := 11; snd_strerror := fun _ => "error";
  snd_pcm_format_physical_width := fun f => match f with SND_PCM_FORMAT_S16_LE => 16 | _ => 32 end;
  has_tstamp_type := false |}.

Definition demo_card : Device AlsaAns Z := fun c n =>
  (match c return AlsaAns c with
   | snd_pcm_open _ => (0, n)
   | Snd _ _ => 0
   | snd_pcm_hw_params_set_rate_near _ rate => (0, rate)
   | snd_pcm_hw_params_set_period_size_near _ frames => (0, frames)
   | snd_pcm_wait _ => (1, false)
   | snd_pcm_readi _ _ frames => frames
   | snd_pcm_status _ => (0, (100, 250000))
   | snd_pcm_abort _ | snd_pcm_close _ => tt
   | NewHostBuffer _ => n
   end, n + 1).

Definition demo_recording : list AlsaOp :=
  [AOpen (mkAlsaConfig "hw:0" 48000 2 "s16_le" 10); ARead; ARead; ARequestStop; ARead].

Lemma alsa_backend_safe_witness :
  let '(r, s, _, evs) := drun demo_card (deach demo_recording alsa_op) new_alsa 1 in
  r = Some tt /\ frames_per_read_ s = 480 /\ length evs = 21%nat /\
  exists m, gsteps alsa_gstep evs (∅, ∅) = Some (held_of s, m).
Proof.
  pose proof (alsa_backend_safe demo_card 1 demo_recording) as H.
  destruct (drun demo_card (deach demo_recording alsa_op) new_alsa 1) as [[[r s] e'] evs] eqn:Er.
  assert (s = (drun demo_card (deach demo_recording alsa_op) new_alsa 1).1.1.2 /\
          evs = (drun demo_card (deach demo_recording alsa_op) new_alsa 1).2) as [Hs He]
    by (rewrite Er; split; reflexivity).
  destruct H as (-> & Hg & _).
  { refine (documentedb_sound alsa_gstep alsa_allowed evs _ _). rewrite He. vm_compute. reflexivity. }
  split_and!; [done|rewrite Hs; vm_compute; reflexivity|rewrite He; vm_compute; reflexivity|exact Hg].
Defined.

(** With a long frame time the period is the remainder of a 32-bit product: 100 s at 48 kHz
    are 4.8 million frames, and 505032 are asked for. *)
Example long_frame_wraps :
  let '(_, s, _, _) := drun demo_card (Open (mkAlsaConfig "hw:0" 48000 2 "s16_le" 100000)) new_alsa 1 in
  frames_per_read_ s = 505032.
Proof. vm_compute. reflexivity. Qed.

(** ** The backend behind its interface *)

Section implementation.
Context {AL : AlsaLib} {E : Type} (dev : Device AlsaAns E).

(** An operation against a library; undefined behaviour has the result [bad]. *)
Definition perform {A} (bad : A) (m : AProg A) (b : Alsa * E) : A * (Alsa * E) :=
  let '(r, s, e, _) := drun dev m b.1 b.2 in (match r with Some a => a | None => bad end, (s, e)).

Definition no_audio : AudioFrame := mkAudioFrame Unset 0 0 0 "" None.

(** A null pointer for the frame is not modelled. *)
(* [src/modules/audio/backend.cpp:26-165] AlsaBackend *)
Definition AlsaBackend : IAlsaBackend (Alsa * E) :=
  mkAlsa _ (fun config => perform (Internal "undefined") (Open config))
    (fun b => let '((st, f), b) := perform (Internal "undefined", None) Read b in
              ((st, match f with Some f => f | None => no_audio end), b))
    (perform (Internal "undefined") RecoverOverrun)
    (fun b => (perform tt RequestStop b).2)
    (fun b => (perform tt Close b).2).

Lemma request_stop_sets s e : stop_ (drun dev RequestStop s e).1.1.2 = true.
Proof.
  unfold RequestStop. lazy beta iota zeta delta [dbind dset dget dcall]. cbn.
  destruct (pcm_ s) as [p|]; [|done]. cbn. by destruct (dev (snd_pcm_abort p) e).
Qed.

#[export] Instance alsa_sticky : StickyStop (alsa_Read AlsaBackend) (alsa_RequestStop AlsaBackend).
Proof.
  refine {| stopped := fun b => stop_ b.1 = true |}.
  - intros [s e]. cbn [alsa_RequestStop AlsaBackend]. unfold perform. cbn [fst snd].
    pose proof (request_stop_sets s e) as Hs. by destruct (drun dev RequestStop s e) as [[[? ?] ?] ?].
  - intros [s e] Hst. cbn in Hst. cbn [alsa_Read AlsaBackend]. unfold perform, Read.
    lazy beta iota zeta delta [dbind dset dget dcall]. cbn.
    destruct (pcm_ s) as [p|]; [|done]. cbn. by rewrite Hst.
Defined.
End implementation.
