(* ===== verification/RgaBackend.v ===== *)
(** * The RGA backend

    [src/modules/rockchip/rga/backend.cpp]: scaling, conversion and composition of images with
    librga.  Buffers are imported into the library once and the imported handles are kept in a
    cache of at most 64 entries; a handle is shared by the cache, by the operation that uses it
    and by the fence of an operation that still runs, and released with the last of them.

    [Rga] is the backend together with the handle objects and the fences that are alive.  The
    kernel, librga and the owners of buffers are the outside ([RgaCmd]).  A wait for the fence of
    a source buffer is a call of the outside; when that fence is one of this backend it is the
    operation [FenceWait] at that point.

    [rga_backend_safe]: what the hardware works on stays imported until it is done. *)

From S2P Require Import Prelude Status Timestamp Values Buffer Contract Node Device Backends ModuleNodes.
From Stdlib Require Import SpecFloat.
From stdpp Require Import list gmultiset.
Local Open Scope rkavp_scope.
Local Open Scope Z_scope.

(** ** The library *)

Class RgaLib := {
  RK_FORMAT_YCbCr_420_SP : Z; RK_FORMAT_YCrCb_420_SP : Z; RK_FORMAT_RGB_888 : Z;
  RK_FORMAT_BGR_888 : Z; RK_FORMAT_RGBA_8888 : Z; RK_FORMAT_BGRA_8888 : Z; RK_FORMAT_YUYV_422 : Z;
  IM_STATUS_SUCCESS : Z; imStrError : Z -> string }.

(** [wrapbuffer_handle]: a handle with a geometry. *)
Record rga_buffer_t := wrapbuffer_handle {
  rb_handle : Z; rb_width : Z; rb_height : Z; rb_format : Z; rb_wstride : Z; rb_hstride : Z }.
Inductive Rotation := ROT_NONE | ROT_90 | ROT_180 | ROT_270.

Inductive RgaCmd :=
| HeapOpen (path : string)
| HeapAlloc (fd size : Z)
| HeapClose (fd : Z)
| HeapError
| AdoptDma (fd size : Z)
| BufferExpired (b : Z)
| importbuffer_fd (fd size : Z)
| releasebuffer_handle (h : Z)
| improcess (src dst : rga_buffer_t) (src_rect dst_rect : Rect) (async : bool) (rot : Rotation)
| imcomposite (fg bg dst : rga_buffer_t) (opacity : Z) (async : bool)
| imsync (fd : Z)
| SetFence (b fence : Z)
| GBuf (c : BufCmd).

(** An allocation answers its result and descriptor; an operation its status and the descriptor
    of its release fence. *)
Definition RgaAns (c : RgaCmd) : Type :=
  match c with
  | HeapOpen _ => Z
  | HeapAlloc _ _ => Z * Z
  | HeapClose _ => unit
  | HeapError => string
  | AdoptDma _ _ => Z
  | BufferExpired _ => bool
  | importbuffer_fd _ _ => Z
  | releasebuffer_handle _ => unit
  | improcess _ _ _ _ _ _ => Z * Z
  | imcomposite _ _ _ _ _ => Z * Z
  | imsync _ => Z
  | SetFence _ _ => unit
  | GBuf c => BufAns c
  end.

(** ** The objects *)

(* [src/modules/rockchip/rga/backend.cpp:251-255] CacheEntry *)
Record CacheEntry := mkEntry { ce_handle : Z; ce_last_used : Z }.

(* [src/modules/rockchip/rga/backend.cpp:102-106] RgaFence (fields) *)
Record RgaFence := mkFence { rf_fd : Z; rf_buffers : list Z; rf_handles : list Z }.

(** [objects]: the [ImportedRgaHandle]s by identity, with the handle of the library.  [locals]:
    the references that the variables of the running operation hold. *)
(* [src/modules/rockchip/rga/backend.cpp:294-297] RockchipRgaBackend (fields) *)
Record Rga := mkRgaState {
  handles_ : gmap Z CacheEntry;
  use_counter_ : Z;
  objects : gmap Z Z;
  fences : gmap Z RgaFence;
  locals : list Z;
  next_id : Z }.
Definition new_rga : Rga := mkRgaState ∅ 0 ∅ ∅ [] 0.

Definition set_handles (m : gmap Z CacheEntry) (s : Rga) : Rga :=
  mkRgaState m (use_counter_ s) (objects s) (fences s) (locals s) (next_id s).
Definition set_objects (m : gmap Z Z) (s : Rga) : Rga :=
  mkRgaState (handles_ s) (use_counter_ s) m (fences s) (locals s) (next_id s).
Definition set_fences (m : gmap Z RgaFence) (s : Rga) : Rga :=
  mkRgaState (handles_ s) (use_counter_ s) (objects s) m (locals s) (next_id s).
Definition set_locals (l : list Z) (s : Rga) : Rga :=
  mkRgaState (handles_ s) (use_counter_ s) (objects s) (fences s) l (next_id s).

Abbreviation GProg := (dprog RgaAns Rga).
Abbreviation gcall := (dcall (Ans := RgaAns) (S := Rga)).

(** ** Reference counts *)

(** The references to handle objects. *)
Definition references (s : Rga) : list Z :=
  map (fun e => ce_handle e.2) (map_to_list (handles_ s)) ++
  concat (map (fun f => rf_handles f.2) (map_to_list (fences s))) ++ locals s.

(** A reference to object [i] is gone. *)
(* [src/modules/rockchip/rga/backend.cpp:72-74] ImportedRgaHandle::~ImportedRgaHandle *)
Definition unreference (i : Z) : GProg unit :=
  r <~ dget (fun s => bool_decide (i ∈ references s));
  if (r : bool) then DRet tt else
  o <~ dget (fun s => objects s !! i);
  match o with
  | None => DRet tt
  | Some h =>
      dset (fun s => set_objects (delete i (objects s)) s);~
      if h =? 0 then DRet tt else gcall (releasebuffer_handle h)
  end.

(** The variables of an operation go out of scope. *)
Definition scope {A} (m : GProg A) : GProg A :=
  a <~ m;
  l <~ dget locals;
  dset (set_locals []);~
  deach l unreference;~
  DRet a.

(** [handles_.erase(b)] *)
Definition erase (b : Z) : GProg unit :=
  e <~ dget (fun s => handles_ s !! b);
  match e with
  | None => DRet tt
  | Some e => dset (fun s => set_handles (delete b (handles_ s)) s);~ unreference (ce_handle e)
  end.

Section backend.
Context {RL : RgaLib} {BH : BufferHeap}.

(* [src/modules/rockchip/rga/backend.cpp:29-38] RgaFormat *)
Definition RgaFormat (format : string) : Z :=
  if bool_decide (format = "nv12") then RK_FORMAT_YCbCr_420_SP
  else if bool_decide (format = "nv21") then RK_FORMAT_YCrCb_420_SP
  else if bool_decide (format = "rgb888") then RK_FORMAT_RGB_888
  else if bool_decide (format = "bgr888") then RK_FORMAT_BGR_888
  else if bool_decide (format = "rgba8888") then RK_FORMAT_RGBA_8888
  else if bool_decide (format = "bgra8888") then RK_FORMAT_BGRA_8888
  else if bool_decide (format = "yuyv") then RK_FORMAT_YUYV_422
  else -1.

(** Arithmetic of [std::size_t]. *)
(* [src/modules/rockchip/rga/backend.cpp:40-47] ImageSize *)
Definition ImageSize (width height : Z) (format : string) : Z :=
  let area := u64 (u64 width * u64 height) in
  if bool_decide (format = "nv12") || bool_decide (format = "nv21") then u64 (area * 3) / 2
  else if bool_decide (format = "rgb888") || bool_decide (format = "bgr888") then u64 (area * 3)
  else if bool_decide (format = "rgba8888") || bool_decide (format = "bgra8888") then u64 (area * 4)
  else if bool_decide (format = "yuyv") then u64 (area * 2)
  else 0.

(** The heaps are tried in order. *)
Fixpoint try_heaps (heaps : list string) (size : Z) : GProg (option Z) :=
  match heaps with
  | [] => DRet None
  | heap :: heaps =>
      fd <~ gcall (HeapOpen heap);
      if fd <? 0 then try_heaps heaps size else
      r <~ gcall (HeapAlloc fd size);
      gcall (HeapClose fd);~
      if negb (r.1 =? 0) then try_heaps heaps size
      else if to_int r.2 <? 0 then DUndefined "exception: cannot adopt invalid dma-buf fd"
      else b <~ gcall (AdoptDma (to_int r.2) size); DRet (Some (b : Z))
  end.

(* [src/modules/rockchip/rga/backend.cpp:49-67] AllocateDmaBuffer *)
Definition AllocateDmaBuffer (size : Z) : GProg (Res Z) :=
  if size =? 0 then DRet (Err (Invalid "invalid DMA allocation request")) else
  b <~ try_heaps ["/dev/dma_heap/system-uncached"; "/dev/dma_heap/system"; "/dev/dma_heap/reserved"] size;
  match b with
  | Some b => DRet (Okay b)
  | None => e <~ gcall HeapError; DRet (Err (Unavailable ("DMA heap allocation failed: " +:+ e)))
  end.

(** ** The cache *)

Definition kMaxCachedHandles : nat := 64.

(** [std::min_element] by last use. *)
Definition older (x y : Z * CacheEntry) : Z * CacheEntry :=
  if ce_last_used y.2 <? ce_last_used x.2 then y else x.
Definition oldest (l : list (Z * CacheEntry)) : option (Z * CacheEntry) :=
  match l with [] => None | x :: l => Some (fold_left older l x) end.

Definition importable (b : Z) : bool :=
  match buf_planes b with
  | [] => false
  | p :: _ => negb ((pl_fd p <? 0) || (buf_size b =? 0) || (2147483647 <? buf_size b))
  end.
Definition first_fd (b : Z) : Z := match buf_planes b with [] => -1 | p :: _ => pl_fd p end.

(** A reference in a variable. *)
Definition keep (i : Z) : GProg (option Z) :=
  dset (fun s => set_locals (locals s ++ [i]) s);~ DRet (Some i).

(** [++use_counter_] *)
Definition touch (b : Z) (e : CacheEntry) (s : Rga) : Rga :=
  let n := u64 (use_counter_ s + 1) in
  mkRgaState (<[b := mkEntry (ce_handle e) n]> (handles_ s)) n (objects s) (fences s) (locals s)
    (next_id s).

Definition insert_handle (b h : Z) (s : Rga) : Z * Rga :=
  let n := u64 (use_counter_ s + 1) in
  (next_id s, mkRgaState (<[b := mkEntry (next_id s) n]> (handles_ s)) n (<[next_id s := h]> (objects s))
                (fences s) (locals s) (next_id s + 1)).

Definition evict : GProg unit :=
  n <~ dget (fun s => size (handles_ s));
  if (n <? kMaxCachedHandles)%nat then DRet tt else
  o <~ dget (fun s => oldest (map_to_list (handles_ s)));
  match o with None => DRet tt | Some x => erase x.1 end.

Definition import_new (b : Z) : GProg (option Z) :=
  evict;~
  h <~ gcall (importbuffer_fd (first_fd b) (buf_size b));
  if h =? 0 then DRet None else
  i <~ DLocal (insert_handle b h) DRet;
  keep i.

Definition erase_expired : GProg unit :=
  keys <~ dget (fun s => (map_to_list (handles_ s)).*1);
  deach keys (fun b => x <~ gcall (BufferExpired b); if (x : bool) then erase b else DRet tt).

(** The identity of the handle object, which stays referenced for the rest of the operation. *)
(* [src/modules/rockchip/rga/backend.cpp:257-293] RockchipRgaBackend::Import *)
Definition Import (b : Z) : GProg (option Z) :=
  if negb (importable b) then DRet None else
  erase_expired;~
  e <~ dget (fun s => handles_ s !! b);
  match e with
  | None => import_new b
  | Some e =>
      x <~ gcall (BufferExpired b);
      if (x : bool) then erase b;~ import_new b
      else dset (touch b e);~ keep (ce_handle e)
  end.

(** [handle->get()] *)
Definition handle_of (i : Z) : GProg Z :=
  h <~ dget (fun s => objects s !! i);
  match h with Some h => DRet h | None => DUndefined "handle object is gone" end.

(** ** Operations *)

Definition fence_wait (b : Z) : GProg Status :=
  f <~ gcall (GBuf (BufFence b));
  if (f : bool) then gcall (GBuf (BufFenceWait b)) else DRet Ok.

Definition no_planes (b : Z) : bool := match buf_planes b with [] => true | _ => false end.
Definition or_else (v d : Z) : Z := if 0 <? v then v else d.

(** The fence of an operation that still runs. *)
Definition attach_fence (fd b : Z) (buffers hs : list Z) : GProg unit :=
  if fd <? 0 then DRet tt else
  i <~ DLocal (fun s => (next_id s, mkRgaState (handles_ s) (use_counter_ s) (objects s)
         (<[next_id s := mkFence fd buffers hs]> (fences s)) (locals s) (next_id s + 1))) DRet;
  gcall (SetFence b i).

Definition rotation_of (degrees : Z) : Rotation :=
  if degrees =? 90 then ROT_90 else if degrees =? 180 then ROT_180 else if degrees =? 270 then ROT_270
  else ROT_NONE.

Definition with_buffer (b : BufferPtr) (f : VideoFrame) : VideoFrame :=
  mkVideoFrame (vf_frame_id f) (vf_pts f) (vf_width f) (vf_height f) (vf_horizontal_stride f)
    (vf_vertical_stride f) (vf_format f) b.

(** [Transform] once the destination is allocated. *)
Definition transform_into (source : VideoFrame) (sb : Z) (request : RgaTransformRequest)
    (destination : VideoFrame) (db : Z) : GProg (Status * VideoFrame) :=
  let width := tr_destination_width request in
  let height := tr_destination_height request in
  si <~ Import sb;
  di <~ Import db;
  match si, di with
  | Some si, Some di =>
      sh <~ handle_of si;
      dh <~ handle_of di;
      st <~ fence_wait sb;
      if negb (ok st) then DRet (st, destination) else
      r <~ gcall (improcess
        (wrapbuffer_handle sh (vf_width source) (vf_height source) (RgaFormat (vf_format source))
           (or_else (vf_horizontal_stride source) (vf_width source))
           (or_else (vf_vertical_stride source) (vf_height source)))
        (wrapbuffer_handle dh width height (RgaFormat (tr_destination_format request)) width height)
        (mkRect (rx (tr_source_rect request)) (ry (tr_source_rect request))
           (or_else (rwidth (tr_source_rect request)) (vf_width source))
           (or_else (rheight (tr_source_rect request)) (vf_height source)))
        (mkRect (rx (tr_destination_rect request)) (ry (tr_destination_rect request))
           (or_else (rwidth (tr_destination_rect request)) width)
           (or_else (rheight (tr_destination_rect request)) height))
        (tr_asynchronous request) (rotation_of (tr_rotation_degrees request)));
      if negb (r.1 =? IM_STATUS_SUCCESS) then
        DRet (Unavailable ("RGA transform failed: " +:+ imStrError r.1), destination)
      else
        attach_fence r.2 db [sb] [si; di];~
        DRet (Ok, mkVideoFrame (vf_frame_id source) (vf_pts source) width height width height
                    (tr_destination_format request) (Some db))
  | _, _ => DRet (Unavailable "RGA DMA-BUF import failed", destination)
  end.

(* [src/modules/rockchip/rga/backend.cpp:112-178] RockchipRgaBackend::Transform *)
Definition Transform (source : VideoFrame) (request : RgaTransformRequest) (destination : VideoFrame)
  : GProg (Status * VideoFrame) :=
  match vf_buffer source with
  | None => DRet (Invalid "invalid RGA transform input", destination)
  | Some sb =>
      if no_planes sb then DRet (Invalid "invalid RGA transform input", destination)
      else if (RgaFormat (vf_format source) <? 0) || (RgaFormat (tr_destination_format request) <? 0) ||
              (tr_destination_width request <=? 0) || (tr_destination_height request <=? 0)
      then DRet (Invalid "unsupported RGA format or geometry", destination) else
      b <~ AllocateDmaBuffer (ImageSize (tr_destination_width request) (tr_destination_height request)
                                (tr_destination_format request));
      match b with
      | Err e => DRet (e, destination)
      | Okay db => scope (transform_into source sb request (with_buffer (Some db) destination) db)
      end
  end.

(* [src/modules/rockchip/rga/backend.cpp:180-183] RockchipRgaBackend::Blit *)
Definition Blit := Transform.

(** [std::max(0.0F, std::min(1.0F, alpha)) * 255.0F] as a byte. *)
Definition float_of_Z (z : Z) : spec_float := binary_normalize 24 128 z 0 false.
Definition truncate (f : spec_float) : Z :=
  match f with
  | S754_finite sg m e => let v := if 0 <=? e then Z.pos m * 2 ^ e else Z.pos m / 2 ^ (- e) in
                          if (sg : bool) then - v else v
  | _ => 0
  end.
Definition opacity_of (alpha : spec_float) : Z :=
  let low := if SFltb alpha (float_of_Z 1) then alpha else float_of_Z 1 in
  let clamped := if SFltb (float_of_Z 0) low then low else float_of_Z 0 in
  truncate (SFmul 24 128 clamped (float_of_Z 255)).

Definition rect_is_default (r : Rect) : bool :=
  (rx r =? 0) && (ry r =? 0) && (rwidth r =? 0) && (rheight r =? 0).

(** [Composite] once the destination is allocated. *)
Definition composite_into (foreground background : VideoFrame) (fb bb : Z) (request : RgaCompositeRequest)
    (destination : VideoFrame) (db : Z) : GProg (Status * VideoFrame) :=
  let fg_format := RgaFormat (vf_format foreground) in
  let bg_format := RgaFormat (vf_format background) in
  if (fg_format <? 0) || (bg_format <? 0)
  then DRet (Invalid "unsupported RGA composite format", destination) else
  fi <~ Import fb;
  bi <~ Import bb;
  di <~ Import db;
  match fi, bi, di with
  | Some fi, Some bi, Some di =>
      fh <~ handle_of fi;
      bh <~ handle_of bi;
      dh <~ handle_of di;
      let width := vf_width background in
      let height := vf_height background in
      r <~ gcall (imcomposite
        (wrapbuffer_handle fh (vf_width foreground) (vf_height foreground) fg_format
           (vf_width foreground) (vf_height foreground))
        (wrapbuffer_handle bh width height bg_format width height)
        (wrapbuffer_handle dh width height bg_format width height)
        (opacity_of (co_alpha request)) (co_asynchronous request));
      if negb (r.1 =? IM_STATUS_SUCCESS) then
        DRet (Unavailable ("RGA composite failed: " +:+ imStrError r.1), destination)
      else
        attach_fence r.2 db [fb; bb] [fi; bi; di];~
        DRet (Ok, with_buffer (Some db) background)
  | _, _, _ => DRet (Unavailable "RGA DMA-BUF import failed", destination)
  end.

(* [src/modules/rockchip/rga/backend.cpp:185-243] RockchipRgaBackend::Composite *)
Definition Composite (foreground background : VideoFrame) (request : RgaCompositeRequest)
    (destination : VideoFrame) : GProg (Status * VideoFrame) :=
  match vf_buffer foreground, vf_buffer background with
  | Some fb, Some bb =>
      if no_planes fb || no_planes bb then DRet (Invalid "invalid RGA composite input", destination)
      else if negb (rect_is_default (co_foreground_rect request)) ||
              negb (rect_is_default (co_background_rect request)) ||
              negb (rect_is_default (co_destination_rect request))
      then DRet (Invalid ("RGA composite rectangles are not implemented by this backend; pre-transform "
                          +:+ "inputs before compositing"), destination) else
      st <~ fence_wait fb;
      if negb (ok st) then DRet (st, destination) else
      st <~ fence_wait bb;
      if negb (ok st) then DRet (st, destination) else
      b <~ AllocateDmaBuffer (ImageSize (vf_width background) (vf_height background) (vf_format background));
      match b with
      | Err e => DRet (e, destination)
      | Okay db => scope (composite_into foreground background fb bb request
                            (with_buffer (Some db) destination) db)
      end
  | _, _ => DRet (Invalid "invalid RGA composite input", destination)
  end.

(* [src/modules/rockchip/rga/backend.cpp:245-248] RockchipRgaBackend::ReleaseCachedHandles *)
Definition ReleaseCachedHandles : GProg unit :=
  l <~ dget (fun s => map (fun e => ce_handle e.2) (map_to_list (handles_ s)));
  dset (set_handles ∅);~
  deach l unreference.

(* [src/modules/rockchip/rga/backend.cpp:92-100] RgaFence::Wait *)
Definition FenceWait (i : Z) : GProg Status :=
  f <~ dget (fun s => fences s !! i);
  match f with
  | None => DRet Ok
  | Some f =>
      if rf_fd f <? 0 then DRet Ok else
      r <~ gcall (imsync (rf_fd f));
      dset (fun s => set_fences (<[i := mkFence (-1) [] []]> (fences s)) s);~
      deach (rf_handles f) unreference;~
      DRet (if r =? IM_STATUS_SUCCESS then Ok else Unavailable "RGA fence wait failed")
  end.

(** The buffer that has the fence is destroyed. *)
(* [src/modules/rockchip/rga/backend.cpp:91-91] RgaFence::~RgaFence *)
Definition FenceDestroy (i : Z) : GProg unit :=
  FenceWait i;~
  dset (fun s => set_fences (delete i (fences s)) s).
End backend.

Example opacities :
  map opacity_of [float_of_Z 0; SFdiv 24 128 (float_of_Z 1) (float_of_Z 2); float_of_Z 1; float_of_Z 7;
                  SFopp (float_of_Z 7); S754_nan] = [0; 127; 255; 255; 0; 255].
Proof. vm_compute. reflexivity. Qed.

(** ** What the calls need and leave *)

Definition hheap (fd : Z) : Handle := ("heap", fd).
Definition hdma (fd : Z) : Handle := ("dma-buf", fd).
Definition hrga (h : Z) : Handle := ("rga handle", h).
Definition hfence (fd : Z) : Handle := ("fence", fd).

Section safety.
Context {RL : RgaLib} {BH : BufferHeap}.

(** A release fence comes with success. *)
Definition release_fence (r : Z * Z) : list Handle :=
  if (r.1 =? IM_STATUS_SUCCESS) && (0 <=? r.2) then [hfence r.2] else [].

Definition rga_effect (ev : devent RgaAns) : Effect Handle :=
  let 'Ev c a := ev in
  match c return RgaAns c -> Effect Handle with
  | HeapOpen _ => fun fd => if fd <? 0 then no_effect else obtaining [hheap fd]
  | HeapAlloc fd _ => fun r => mkEffect [hheap fd] [] [] (if r.1 =? 0 then [hdma (to_int r.2)] else [])
  | HeapClose fd => fun _ => returning [hheap fd]
  | AdoptDma fd _ => fun _ => returning [hdma fd]
  | importbuffer_fd _ _ => fun h => if h =? 0 then no_effect else obtaining [hrga h]
  | releasebuffer_handle h => fun _ => returning [hrga h]
  | improcess src dst _ _ _ _ => fun r =>
      mkEffect (remove_dups (map hrga [rb_handle src; rb_handle dst])) [] [] (release_fence r)
  | imcomposite fg bg dst _ _ => fun r =>
      mkEffect (remove_dups (map hrga [rb_handle fg; rb_handle bg; rb_handle dst])) [] [] (release_fence r)
  | imsync fd => fun _ => returning [hfence fd]
  | GBuf c => fun a => buf_effect c a
  | HeapError | BufferExpired _ | SetFence _ _ => fun _ => no_effect
  end a.

Definition rga_gstep (ev : devent RgaAns) (held : Held) : option Held := account (rga_effect ev) held.

(** The kernel returns a descriptor when it allocates. *)
Definition rga_allowed (_ : Held) (ev : devent RgaAns) : Prop :=
  let 'Ev c a := ev in
  match c return RgaAns c -> Prop with
  | HeapAlloc _ _ => fun r => r.1 = 0 -> 0 <= to_int r.2
  | _ => fun _ => True
  end a.

(** ** The invariant *)

Definition object_handles (h : Z) : list Handle := [hrga h].
Definition fence_handles (f : RgaFence) : list Handle := if 0 <=? rf_fd f then [hfence (rf_fd f)] else [].
Definition total (s : Rga) : Held := hsum object_handles (objects s) ⊎ hsum fence_handles (fences s).

(** The objects [ex] may have lost their last reference. *)
Record rga_pre (ex : list Z) (s : Rga) (held : Held) : Prop := mkRgaPre {
  pre_held : held = total s;
  pre_refs : forall i, i ∈ references s -> is_Some (objects s !! i);
  pre_live : forall i, is_Some (objects s !! i) -> i ∈ references s \/ i ∈ ex;
  pre_nonzero : forall i h, objects s !! i = Some h -> h <> 0;
  pre_fences : forall k f, fences s !! k = Some f -> rf_fd f < 0 -> rf_handles f = [];
  pre_bound : (size (handles_ s) <= kMaxCachedHandles)%nat;
  pre_ids : (forall i, is_Some (objects s !! i) -> i < next_id s) /\
            (forall k, is_Some (fences s !! k) -> k < next_id s) }.

Lemma elem_references i s : i ∈ references s <->
  (exists b e, handles_ s !! b = Some e /\ ce_handle e = i) \/
  (exists k f, fences s !! k = Some f /\ i ∈ rf_handles f) \/ i ∈ locals s.
Proof.
  unfold references. rewrite !elem_of_app, list_elem_of_fmap. split.
  - intros [([b e] & -> & Hin)|[Hin|Hin]]; [left|right; left|by right; right].
    + apply elem_of_map_to_list in Hin. eauto.
    + apply list_elem_of_In, in_concat in Hin as (l & Hl & Hi). apply list_elem_of_In in Hl, Hi.
      apply list_elem_of_fmap in Hl as ([k f] & -> & Hin). apply elem_of_map_to_list in Hin. eauto.
  - intros [(b & e & Hb & <-)|[(k & f & Hk & Hi)|Hi]]; [left|right; left|by right; right].
    + exists (b, e). split; [done|]. by apply elem_of_map_to_list.
    + apply list_elem_of_In, in_concat. exists (rf_handles f). split; apply list_elem_of_In; [|done].
      apply (list_elem_of_fmap_2 (fun f : Z * RgaFence => rf_handles f.2) _ (k, f)). by apply elem_of_map_to_list.
Qed.

Abbreviation gwp := (wp rga_gstep rga_allowed).
Implicit Types (s : Rga) (held rest : Held).

Lemma give_one c a h rest : rga_effect (Ev c a) = returning [h] -> rga_gstep (Ev c a) (hset [h] ⊎ rest) = Some rest.
Proof.
  intros He. unfold rga_gstep. rewrite He. unfold returning, hset. rewrite account_give; [done|].
  simpl. multiset_solver.
Qed.
Lemma none_step c a held : rga_effect (Ev c a) = no_effect -> rga_gstep (Ev c a) held = Some held.
Proof. intros He. unfold rga_gstep. by rewrite He, account_none. Qed.

(** ** References *)

Lemma unreference_wp i ex s held (Q : unit -> Rga -> Held -> Prop) :
  rga_pre (i :: ex) s held ->
  (forall m held', rga_pre ex (set_objects m s) held' -> Q tt (set_objects m s) held') ->
  gwp (unreference i) Q s held.
Proof.
  intros Hp HQ. unfold unreference. wstep. case_bool_decide as Hr.
  { wstep. specialize (HQ (objects s) held). destruct s; apply HQ. destruct Hp as [Hh H1 H2 H3 H4 H5 H6].
    split; try done. intros j Hj. destruct (H2 j Hj) as [?|[->|?]%elem_of_cons]; auto. }
  wstep. destruct (objects s !! i) as [h|] eqn:Hi.
  2:{ wstep. specialize (HQ (objects s) held). destruct s; apply HQ. destruct Hp as [Hh H1 H2 H3 H4 H5 H6].
      split; try done. intros j Hj. destruct (H2 j Hj) as [?|[->|?]%elem_of_cons]; auto. cbn in *. by destruct Hj; congruence. }
  wstep. pose proof Hp as [Hh H1 H2 H3 H4 H5 [H6 H7]]. rewrite (proj2 (Z.eqb_neq _ _) (H3 i h Hi)).
  assert (held = hset [hrga h] ⊎ total (set_objects (delete i (objects s)) s)) as ->.
  { rewrite Hh. unfold total. rewrite (hsum_delete object_handles _ _ _ Hi). cbn [objects fences set_objects].
    unfold object_handles at 1. multiset_solver. }
  wcall [] _; [by apply give_one|]. apply HQ. split; cbn [objects fences set_objects handles_ next_id]; try done.
  - intros j Hj. assert (j <> i) by (intros ->; by apply Hr). rewrite lookup_delete_ne by done. by apply H1.
  - intros j [x [Hne Hx]%lookup_delete_Some]. destruct (H2 j) as [?|[->|?]%elem_of_cons]; eauto. done.
  - intros j x [_ Hx]%lookup_delete_Some. eauto.
  - split; [|done]. intros j [x [_ Hx]%lookup_delete_Some]. eauto.
Qed.

Lemma unreferences_wp l ex s held (Q : unit -> Rga -> Held -> Prop) :
  rga_pre (l ++ ex) s held ->
  (forall m held', rga_pre ex (set_objects m s) held' -> Q tt (set_objects m s) held') ->
  gwp (deach l unreference) Q s held.
Proof.
  revert s held. induction l as [|i l IH]; intros s held Hp HQ; cbn [deach].
  - wstep. specialize (HQ (objects s) held). destruct s; by apply HQ.
  - apply dwp_bind, (unreference_wp i (l ++ ex)); [done|]. intros m held' Hp'. apply IH; [done|].
    intros m' held'' Hp''. by apply (HQ m').
Qed.

Lemma scope_wp {A} (m : GProg A) s held (Q : A -> Rga -> Held -> Prop) :
  gwp m (fun a s' held' => rga_pre [] s' held' /\
    forall m' held'', rga_pre [] (set_objects m' (set_locals [] s')) held'' ->
                      Q a (set_objects m' (set_locals [] s')) held'') s held ->
  gwp (scope m) Q s held.
Proof.
  intros Hm. unfold scope. eapply dwp_seq; [exact Hm|]. intros a s' held' [Hp HQ]. repeat wstep.
  apply dwp_bind, (unreferences_wp (locals s') []).
  - destruct Hp as [Hh H1 H2 H3 H4 H5 H6]. rewrite app_nil_r. split; try done.
    + intros i Hi. apply H1. apply elem_references in Hi. apply elem_references. cbn in Hi. destruct Hi as [?|[?|Hi]]; auto.
      by apply elem_of_nil in Hi.
    + intros i Hi. destruct (H2 i Hi) as [Hr|Hr]; [|by apply elem_of_nil in Hr].
      apply elem_references in Hr as [Hr|[Hr|Hr]]; [left..|by right]; apply elem_references; cbn; auto.
  - intros m' held'' Hp'. wstep. by apply HQ.
Qed.

Lemma erase_wp b s held (Q : unit -> Rga -> Held -> Prop) :
  rga_pre [] s held ->
  (forall m held', let s' := set_objects m (set_handles (delete b (handles_ s)) s) in
     rga_pre [] s' held' -> Q tt s' held') ->
  gwp (erase b) Q s held.
Proof.
  intros Hp HQ. unfold erase. wstep. destruct (handles_ s !! b) as [e|] eqn:Hb.
  2:{ wstep. specialize (HQ (objects s) held). rewrite delete_id in HQ by done. destruct s; by apply HQ. }
  wstep. apply (unreference_wp (ce_handle e) []); [|intros m held' Hp'; by apply HQ].
  destruct Hp as [Hh H1 H2 H3 H4 H5 H6]. split; cbn [handles_ set_handles objects fences next_id]; try done.
  - intros i Hi. apply H1. apply elem_references in Hi. apply elem_references. cbn in Hi.
    destruct Hi as [(b' & e' & [_ Hb']%lookup_delete_Some & ?)|?]; eauto.
  - intros i Hi. destruct (H2 i Hi) as [Hr|Hr]; [|by apply elem_of_nil in Hr].
    apply elem_references in Hr as [(b' & e' & Hb' & <-)|Hr]; [|left; apply elem_references; cbn; auto].
    destruct (decide (b' = b)) as [->|Hne].
    + right. assert (e' = e) as -> by congruence. by left.
    + left. apply elem_references. left. exists b', e'. cbn. by rewrite lookup_delete_ne.
  - rewrite map_size_delete_Some by eauto. lia.
Qed.

(** ** The cache *)

Lemma older_fold l x : fold_left older l x = x \/ fold_left older l x ∈ l.
Proof.
  revert x. induction l as [|y l IH]; intros x; cbn [fold_left]; [by left|].
  destruct (IH (older x y)) as [->|Hin]; [|right; by right].
  unfold older. destruct (_ <? _); [right; by left|by left].
Qed.
Lemma oldest_elem l x : oldest l = Some x -> x ∈ l.
Proof.
  destruct l as [|y l]; cbn; [done|]. intros [= <-]. destruct (older_fold l y) as [->|]; [by left|by right].
Qed.

(** The entry that is evicted was used the longest time ago. *)
Lemma oldest_least l x y : oldest l = Some x -> y ∈ l -> ce_last_used x.2 <= ce_last_used y.2.
Proof.
  assert (forall l z, (forall y, y = z \/ y ∈ l -> ce_last_used (fold_left older l z).2 <= ce_last_used y.2)) as Hf.
  { clear. induction l as [|w l IH]; intros z y; cbn [fold_left].
    - intros [->|Hy]; [lia|by apply elem_of_nil in Hy].
    - intros Hy. pose proof (IH (older z w) (older z w) (or_introl eq_refl)) as Ho.
      assert (ce_last_used (older z w).2 <= ce_last_used z.2 /\ ce_last_used (older z w).2 <= ce_last_used w.2) as [Hz Hw].
      { unfold older. destruct (Z.ltb_spec (ce_last_used w.2) (ce_last_used z.2)); lia. }
      destruct Hy as [->|[->|Hy]%elem_of_cons]; [lia|lia|]. apply IH. by right. }
  destruct l as [|z l]; cbn; [done|]. intros [= <-] Hy. apply Hf. by apply elem_of_cons in Hy.
Qed.

(** What importing leaves as it is. *)
Definition same_but_cache (s s' : Rga) : Prop := fences s' = fences s /\ locals s' = locals s.
Lemma same_trans s s' s'' : same_but_cache s s' -> same_but_cache s' s'' -> same_but_cache s s''.
Proof. intros [H1 H2] [H3 H4]. split; congruence. Qed.

Lemma evict_wp s held (Q : unit -> Rga -> Held -> Prop) :
  rga_pre [] s held ->
  (forall s' held', rga_pre [] s' held' -> same_but_cache s s' -> handles_ s' ⊆ handles_ s ->
     (size (handles_ s') < kMaxCachedHandles)%nat -> Q tt s' held') ->
  gwp evict Q s held.
Proof.
  intros Hp HQ. unfold evict. wstep. destruct (Nat.ltb_spec (size (handles_ s)) kMaxCachedHandles) as [Hlt|Hge].
  { wstep. by apply HQ. }
  wstep. destruct (oldest (map_to_list (handles_ s))) as [[b e]|] eqn:Ho.
  - apply oldest_elem, elem_of_map_to_list in Ho. apply erase_wp; [done|]. intros m held' s' Hp'. apply HQ; try done.
    + apply delete_subseteq.
    + cbn. rewrite map_size_delete_Some by eauto. pose proof (pre_bound _ _ _ Hp). unfold kMaxCachedHandles in *. lia.
  - exfalso. destruct (map_to_list (handles_ s)) eqn:E; [|done]. apply map_to_list_empty_iff in E.
    rewrite E, map_size_empty in Hge. unfold kMaxCachedHandles in Hge. lia.
Qed.

Lemma erase_expired_wp s held (Q : unit -> Rga -> Held -> Prop) :
  rga_pre [] s held ->
  (forall s' held', rga_pre [] s' held' -> same_but_cache s s' -> Q tt s' held') ->
  gwp erase_expired Q s held.
Proof.
  intros Hp HQ. unfold erase_expired. wstep.
  eapply dwp_mono; [|eapply (wp_deach _ _ _ _ (fun _ s' held' => rga_pre [] s' held' /\ same_but_cache s s'))]; [|done|].
  - intros [] s' held' [? ?]. by apply HQ.
  - intros b l s' held' [Hp' Hs']. wcall x _; [by apply none_step|]. destruct x; [|by wstep].
    apply erase_wp; [done|]. intros m held'' s'' Hp''. split; [done|]. by eapply same_trans.
Qed.

(** The answer of an import: a new local reference. *)
Definition imported (s : Rga) (r : option Z) (s' : Rga) (held' : Held) : Prop :=
  rga_pre [] s' held' /\ fences s' = fences s /\
  locals s' = locals s ++ match r with Some i => [i] | None => [] end.

Lemma keep_pre i s held : rga_pre [] s held -> is_Some (objects s !! i) ->
  rga_pre [] (set_locals (locals s ++ [i]) s) held.
Proof.
  intros [Hh H1 H2 H3 H4 H5 H6] Hi. split; try done.
  - intros j Hj. apply elem_references in Hj. cbn in Hj. rewrite elem_of_app, list_elem_of_singleton in Hj.
    destruct Hj as [Hj|[Hj|[Hj| ->]]]; [apply H1, elem_references..|done]; auto.
  - intros j Hj. destruct (H2 j Hj) as [Hr|Hr]; [|by right]. left. apply elem_references in Hr.
    apply elem_references. cbn. rewrite elem_of_app. destruct Hr as [?|[?|?]]; auto.
Qed.

Lemma insert_pre b h s held : rga_pre [] s held -> h <> 0 -> handles_ s !! b = None ->
  (size (handles_ s) < kMaxCachedHandles)%nat ->
  rga_pre [] (insert_handle b h s).2 (hset [hrga h] ⊎ held).
Proof.
  intros [Hh H1 H2 H3 H4 H5 [H6 H7]] Hne Hb Hsz.
  assert (objects s !! next_id s = None) as Hfresh.
  { destruct (objects s !! next_id s) eqn:E; [|done]. assert (next_id s < next_id s); [|lia]. eauto. }
  split; unfold insert_handle; cbn [handles_ objects fences next_id locals snd]; try done.
  - rewrite Hh. unfold total. cbn [objects fences]. rewrite hsum_insert by done. unfold object_handles at 2. multiset_solver.
  - intros i Hi. apply elem_references in Hi. cbn in Hi. destruct (decide (i = next_id s)) as [->|Hn]; [by rewrite lookup_insert_eq|].
    rewrite lookup_insert_ne by done. apply H1, elem_references.
    destruct Hi as [(b' & e & [[_ <-]|[_ Hb']]%lookup_insert_Some & He)|Hi]; [cbn in He; congruence|eauto|auto].
  - intros i [x [[<- _]|[Hn Hx]]%lookup_insert_Some].
    + left. apply elem_references. left. exists b. eexists. cbn. by rewrite lookup_insert_eq.
    + destruct (H2 i) as [Hr|Hr]; [eauto| |by right]. left. apply elem_references in Hr. apply elem_references. cbn.
      destruct Hr as [(b' & e & Hb' & He)|Hr]; [left|by right]. exists b', e. rewrite lookup_insert_ne; [done|]. congruence.
  - intros i x [[_ <-]|[_ Hx]]%lookup_insert_Some; [done|eauto].
  - rewrite map_size_insert_None by done. lia.
  - split.
    + intros i [x [[<- _]|[_ Hx]]%lookup_insert_Some]; [lia|]. assert (i < next_id s) by eauto. lia.
    + intros k Hk. apply H7 in Hk. lia.
Qed.

Lemma import_new_wp b s held (Q : option Z -> Rga -> Held -> Prop) :
  rga_pre [] s held -> handles_ s !! b = None ->
  (forall r s' held', imported s r s' held' -> Q r s' held') -> gwp (import_new b) Q s held.
Proof.
  intros Hp Hb HQ. unfold import_new. apply dwp_bind, evict_wp; [done|]. intros s1 held1 Hp1 [Hf1 Hl1] Hsub Hsz.
  assert (handles_ s1 !! b = None) as Hb1 by (by eapply lookup_weaken_None).
  refine (wp_call _ _ (importbuffer_fd _ _) _ _ _ _ _). intros h _. destruct (Z.eqb_spec h 0) as [->|Hne].
  { exists held1. split; [by apply none_step|]. wstep. apply HQ. split_and!; [done|done|by rewrite app_nil_r]. }
  exists (hset [hrga h] ⊎ held1). split.
  { unfold rga_gstep. cbn [rga_effect]. rewrite (proj2 (Z.eqb_neq _ _) Hne), account_take. done. }
  apply dwp_bind. unfold wp at 1. cbn. unfold keep. repeat wstep. apply HQ.
  pose proof (insert_pre b h s1 held1 Hp1 Hne Hb1 Hsz) as Hp2. split_and!.
  - apply (keep_pre (next_id s1) (insert_handle b h s1).2); [done|]. cbn. rewrite lookup_insert_eq. eauto.
  - done.
  - cbn. by rewrite Hl1.
Qed.

Lemma import_wp b s held (Q : option Z -> Rga -> Held -> Prop) :
  rga_pre [] s held -> (forall r s' held', imported s r s' held' -> Q r s' held') -> gwp (Import b) Q s held.
Proof.
  intros Hp HQ. unfold Import. destruct (importable b); cbn [negb].
  2:{ wstep. apply HQ. split_and!; [done|done|by rewrite app_nil_r]. }
  apply dwp_bind, erase_expired_wp; [done|]. intros s1 held1 Hp1 [Hf1 Hl1]. wstep.
  assert (forall r s' held', imported s1 r s' held' -> Q r s' held') as HQ1.
  { intros r s' held' (? & ? & ?). apply HQ. split_and!; [done|congruence|congruence]. }
  destruct (handles_ s1 !! b) as [e|] eqn:Hb; [|by apply import_new_wp].
  wcall x _; [by apply none_step|]. destruct x.
  - apply dwp_bind, erase_wp; [done|]. intros m held2 s2 Hp2. apply import_new_wp; [done|apply lookup_delete_eq|].
    intros r s' held' (? & ? & ?). apply HQ1. split_and!; done.
  - wstep. unfold keep. repeat wstep. apply HQ1. split_and!; [|done|done].
    assert (rga_pre [] (touch b e s1) held1) as Hp2.
    { destruct Hp1 as [Hh H1 H2 H3 H4 H5 H6].
      assert (forall i, i ∈ references (touch b e s1) <-> i ∈ references s1) as Hr.
      { intros i. rewrite !elem_references. cbn. split; (intros [(b' & e' & Hb' & He)|?]; [left|by right]).
        - apply lookup_insert_Some in Hb' as [[<- <-]|[_ Hb']]; [exists b, e|]; eauto.
        - destruct (decide (b' = b)) as [->|]; [|exists b', e'; by rewrite lookup_insert_ne].
          exists b. eexists. rewrite lookup_insert_eq. split; [done|]. cbn. congruence. }
      split; try done; cbn [handles_ touch objects].
      - intros i Hi. by apply H1, Hr.
      - intros i Hi. destruct (H2 i Hi) as [Hr'|]; [left; by apply Hr|by right].
      - rewrite map_size_insert_Some by eauto. done. }
    apply (keep_pre (ce_handle e) (touch b e s1)); [done|]. cbn. apply (pre_refs _ _ _ Hp1), elem_references. left. eauto.
Qed.

(** ** Operations *)

(** A local reference keeps its handle. *)
Lemma local_handle i s held : rga_pre [] s held -> i ∈ locals s ->
  exists h, objects s !! i = Some h /\ hrga h ∈ held.
Proof.
  intros Hp Hi. destruct (pre_refs _ _ _ Hp i) as [h Hh]; [apply elem_references; auto|].
  exists h. split; [done|]. rewrite (pre_held _ _ _ Hp). unfold total. apply gmultiset_elem_of_disj_union. left.
  eapply hsum_in; [exact Hh|]. by left.
Qed.

Lemma handle_of_wp i s held (Q : Z -> Rga -> Held -> Prop) :
  rga_pre [] s held -> i ∈ locals s -> (forall h, objects s !! i = Some h -> hrga h ∈ held -> Q h s held) ->
  gwp (handle_of i) Q s held.
Proof.
  intros Hp Hi HQ. destruct (local_handle i s held Hp Hi) as (h & Hh & Hin). unfold handle_of. wstep. rewrite Hh.
  wstep. auto.
Qed.

Lemma fence_wait_wp b s held (Q : Status -> Rga -> Held -> Prop) :
  (forall st, Q st s held) -> gwp (fence_wait b) Q s held.
Proof.
  intros HQ. unfold fence_wait. wcall f _; [by apply none_step|]. destruct f; [|wstep; auto].
  wcall st _; [by apply none_step|]. auto.
Qed.

(** A hardware operation on handles that are alive. *)
Lemma operation_step c r (hs : list Z) held :
  rga_effect (Ev c r) = mkEffect (remove_dups (map hrga hs)) [] [] [] ->
  (forall h, h ∈ hs -> hrga h ∈ held) -> rga_gstep (Ev c r) held = Some held.
Proof.
  intros He Hin. unfold rga_gstep. rewrite He. rewrite account_use_take.
  - simpl. f_equal. multiset_solver.
  - apply hset_sub; [apply NoDup_remove_dups|]. intros x. rewrite elem_of_remove_dups, list_elem_of_fmap.
    intros (h & -> & Hh). auto.
Qed.
Lemma operation_fence_step c r (hs : list Z) fd held :
  rga_effect (Ev c r) = mkEffect (remove_dups (map hrga hs)) [] [] [hfence fd] ->
  (forall h, h ∈ hs -> hrga h ∈ held) -> rga_gstep (Ev c r) held = Some (hset [hfence fd] ⊎ held).
Proof.
  intros He Hin. unfold rga_gstep. rewrite He. rewrite account_use_take; [done|].
  apply hset_sub; [apply NoDup_remove_dups|]. intros x. rewrite elem_of_remove_dups, list_elem_of_fmap.
  intros (h & -> & Hh). auto.
Qed.

Lemma attach_pre fd buffers hs s held : rga_pre [] s held -> 0 <= fd -> (forall i, i ∈ hs -> i ∈ locals s) ->
  rga_pre [] (mkRgaState (handles_ s) (use_counter_ s) (objects s)
      (<[next_id s := mkFence fd buffers hs]> (fences s)) (locals s) (next_id s + 1)) (hset [hfence fd] ⊎ held).
Proof.
  intros [Hh H1 H2 H3 H4 H5 [H6 H7]] Hfd Hhs.
  assert (fences s !! next_id s = None) as Hfresh.
  { destruct (fences s !! next_id s) eqn:E; [|done]. assert (next_id s < next_id s); [|lia]. eauto. }
  split; cbn [handles_ objects fences next_id locals]; try done.
  - rewrite Hh. unfold total. cbn [objects fences]. rewrite (hsum_insert fence_handles) by done.
    unfold fence_handles at 2. cbn [rf_fd]. rewrite (proj2 (Z.leb_le 0 fd) Hfd). multiset_solver.
  - intros i Hi. apply H1. apply elem_references in Hi. apply elem_references. cbn in Hi.
    destruct Hi as [Hi|[(k & f & [[_ <-]|[_ Hk]]%lookup_insert_Some & Hi)|Hi]]; [auto| |right; left; eauto|auto].
    right. right. by apply Hhs.
  - intros i Hi. destruct (H2 i Hi) as [Hr|Hr]; [|by right]. left. apply elem_references in Hr. apply elem_references. cbn.
    destruct Hr as [Hr|[(k & f & Hk & Hr)|Hr]]; [auto| |auto]. right. left. exists k, f.
    rewrite lookup_insert_ne; [done|]. congruence.
  - intros k f [[_ <-]|[_ Hk]]%lookup_insert_Some; [cbn; lia|eauto].
  - split; [intros i Hi; apply H6 in Hi; lia|]. intros k [f [[<- _]|[_ Hk]]%lookup_insert_Some]; [lia|].
    assert (k < next_id s) by eauto. lia.
Qed.

(** A hardware operation, by its answer. *)
Lemma operation_wp {A} c (hs : list Z) (res : RgaAns c -> Z * Z) s held (k : RgaAns c -> GProg A)
    (Q : A -> Rga -> Held -> Prop) :
  (forall r, rga_effect (Ev c r) = mkEffect (remove_dups (map hrga hs)) [] [] (release_fence (res r))) ->
  (forall h, h ∈ hs -> hrga h ∈ held) ->
  (forall r, (res r).1 <> IM_STATUS_SUCCESS \/ (res r).2 < 0 -> gwp (k r) Q s held) ->
  (forall r, (res r).1 = IM_STATUS_SUCCESS -> 0 <= (res r).2 ->
     gwp (k r) Q s (hset [hfence (res r).2] ⊎ held)) ->
  gwp (dbind (gcall c) k) Q s held.
Proof.
  intros He Hin Hplain Hfence. refine (wp_call _ _ c _ _ _ _ _). intros r _. specialize (He r).
  unfold release_fence in He. destruct (Z.eqb_spec (res r).1 IM_STATUS_SUCCESS) as [Hs|Hs].
  - destruct (Z.leb_spec 0 (res r).2) as [Hf|Hf]; cbn [andb] in He.
    + exists (hset [hfence (res r).2] ⊎ held). split; [by apply (operation_fence_step _ _ hs)|auto].
    + exists held. split; [by apply (operation_step _ _ hs)|auto].
  - exists held. split; [by apply (operation_step _ _ hs)|auto].
Qed.

Lemma attach_wp {A} fd b buffers ids (a : A) s held (Q : A -> Rga -> Held -> Prop) :
  rga_pre [] s held -> 0 <= fd -> (forall i, i ∈ ids -> i ∈ locals s) ->
  (forall a s' held', rga_pre [] s' held' -> Q a s' held') ->
  gwp (attach_fence fd b buffers ids;~ DRet a) Q s (hset [hfence fd] ⊎ held).
Proof.
  intros Hp Hfd Hids HQ. unfold attach_fence. rewrite (proj2 (Z.ltb_ge _ _) Hfd).
  apply dwp_bind, dwp_bind. unfold wp at 1. cbn. wcall [] _; [by apply none_step|]. wstep. apply HQ. by apply attach_pre.
Qed.

Lemma transform_into_wp source sb request destination db s held (Q : Status * VideoFrame -> Rga -> Held -> Prop) :
  rga_pre [] s held -> (forall r s' held', rga_pre [] s' held' -> Q r s' held') ->
  gwp (transform_into source sb request destination db) Q s held.
Proof.
  intros Hp HQ. unfold transform_into.
  apply dwp_bind, import_wp; [done|]. intros si s1 held1 (Hp1 & _ & Hl1).
  apply dwp_bind, import_wp; [done|]. intros di s2 held2 (Hp2 & _ & Hl2).
  destruct si as [si|]; [|wstep; by apply HQ]. destruct di as [di|]; [|wstep; by apply HQ].
  assert (si ∈ locals s2 /\ di ∈ locals s2) as [Hsi Hdi] by (rewrite Hl2, Hl1; set_solver).
  apply dwp_bind, handle_of_wp; [done|done|]. intros sh _ Hsh.
  apply dwp_bind, handle_of_wp; [done|done|]. intros dh _ Hdh.
  apply dwp_bind, fence_wait_wp. intros st. destruct (negb (ok st)); [wstep; by apply HQ|].
  apply (operation_wp (improcess _ _ _ _ _ _) [sh; dh] (fun r => r)); [done|set_solver| |]; cbn beta.
  - intros r [Hs|Hs]; [rewrite (proj2 (Z.eqb_neq _ _) Hs); cbn [negb]; wstep; by apply HQ|].
    destruct (negb _); [wstep; by apply HQ|]. unfold attach_fence. rewrite (proj2 (Z.ltb_lt _ _) Hs).
    repeat wstep. by apply HQ.
  - intros r Hs Hf. rewrite (proj2 (Z.eqb_eq _ _) Hs). cbn [negb]. apply attach_wp; [done|done|set_solver|done].
Qed.

Lemma composite_into_wp fg bg fb bb request destination db s held (Q : Status * VideoFrame -> Rga -> Held -> Prop) :
  rga_pre [] s held -> (forall r s' held', rga_pre [] s' held' -> Q r s' held') ->
  gwp (composite_into fg bg fb bb request destination db) Q s held.
Proof.
  intros Hp HQ. unfold composite_into. destruct (_ || _); [wstep; by apply HQ|].
  apply dwp_bind, import_wp; [done|]. intros fi s1 held1 (Hp1 & _ & Hl1).
  apply dwp_bind, import_wp; [done|]. intros bi s2 held2 (Hp2 & _ & Hl2).
  apply dwp_bind, import_wp; [done|]. intros di s3 held3 (Hp3 & _ & Hl3).
  destruct fi as [fi|]; [|wstep; by apply HQ]. destruct bi as [bi|]; [|wstep; by apply HQ].
  destruct di as [di|]; [|wstep; by apply HQ].
  assert (fi ∈ locals s3 /\ bi ∈ locals s3 /\ di ∈ locals s3) as (Hfi & Hbi & Hdi)
    by (rewrite Hl3, Hl2, Hl1; set_solver).
  apply dwp_bind, handle_of_wp; [done|done|]. intros fh _ Hfh.
  apply dwp_bind, handle_of_wp; [done|done|]. intros bh _ Hbh.
  apply dwp_bind, handle_of_wp; [done|done|]. intros dh _ Hdh.
  apply (operation_wp (imcomposite _ _ _ _ _) [fh; bh; dh] (fun r => r)); [done|set_solver| |]; cbn beta.
  - intros r [Hs|Hs]; [rewrite (proj2 (Z.eqb_neq _ _) Hs); cbn [negb]; wstep; by apply HQ|].
    destruct (negb _); [wstep; by apply HQ|]. unfold attach_fence. rewrite (proj2 (Z.ltb_lt _ _) Hs).
    repeat wstep. by apply HQ.
  - intros r Hs Hf. rewrite (proj2 (Z.eqb_eq _ _) Hs). cbn [negb]. apply attach_wp; [done|done|set_solver|done].
Qed.

Lemma try_heaps_wp heaps size s held (Q : option Z -> Rga -> Held -> Prop) :
  (forall r, Q r s held) -> gwp (try_heaps heaps size) Q s held.
Proof.
  intros HQ. induction heaps as [|heap heaps IH]; cbn [try_heaps]; [wstep; auto|].
  refine (wp_call _ _ (HeapOpen _) _ _ _ _ _). intros fd _. destruct (Z.ltb_spec fd 0) as [Hn|Hp].
  { exists held. split; [|done]. apply none_step. cbn. by rewrite (proj2 (Z.ltb_lt _ _) Hn). }
  exists (hset [hheap fd] ⊎ held). split.
  { unfold rga_gstep. cbn [rga_effect]. by rewrite (proj2 (Z.ltb_ge _ _) Hp), account_take. }
  refine (wp_call _ _ (HeapAlloc _ _) _ _ _ _ _). intros r Hr. cbn in Hr.
  destruct (Z.eqb_spec r.1 0) as [H0|H0]; cbn [negb].
  - exists (hset [hheap fd] ⊎ (hset [hdma (to_int r.2)] ⊎ held)). split.
    { unfold rga_gstep. cbn [rga_effect]. rewrite (proj2 (Z.eqb_eq _ _) H0), account_use_take.
      - unfold hset. simpl. f_equal. multiset_solver.
      - unfold hset. simpl. multiset_solver. }
    wcall [] _; [by apply give_one|]. rewrite (proj2 (Z.ltb_ge _ _) (Hr H0)).
    wcall b _; [by apply give_one|]. wstep. auto.
  - exists (hset [hheap fd] ⊎ held). split.
    { unfold rga_gstep. cbn [rga_effect]. rewrite (proj2 (Z.eqb_neq _ _) H0), account_use_take.
      - unfold hset. simpl. f_equal. multiset_solver.
      - unfold hset. simpl. multiset_solver. }
    wcall [] _; [by apply give_one|]. done.
Qed.

Lemma allocate_wp size s held (Q : Res Z -> Rga -> Held -> Prop) :
  (forall r, Q r s held) -> gwp (AllocateDmaBuffer size) Q s held.
Proof.
  intros HQ. unfold AllocateDmaBuffer. destruct (_ =? _); [wstep; auto|]. apply dwp_bind, try_heaps_wp.
  intros [b|]; [wstep; auto|]. wcall e _; [by apply none_step|]. wstep. auto.
Qed.

(** Between operations. *)
Definition rga_inv (s : Rga) (held : Held) : Prop := rga_pre [] s held /\ locals s = [].

Lemma scoped_wp (m : GProg (Status * VideoFrame)) s held (Q : Status * VideoFrame -> Rga -> Held -> Prop) :
  (forall Q' : Status * VideoFrame -> Rga -> Held -> Prop,
     (forall r s' held', rga_pre [] s' held' -> Q' r s' held') -> gwp m Q' s held) ->
  (forall r s' held', rga_inv s' held' -> Q r s' held') -> gwp (scope m) Q s held.
Proof.
  intros Hm HQ. apply scope_wp, Hm. intros r s' held' Hp. split; [done|]. intros m' held'' Hp'. apply HQ. by split.
Qed.

Lemma transform_wp source request destination s held (Q : Status * VideoFrame -> Rga -> Held -> Prop) :
  rga_inv s held -> (forall r s' held', rga_inv s' held' -> Q r s' held') ->
  gwp (Transform source request destination) Q s held.
Proof.
  intros Hi HQ. unfold Transform. destruct (vf_buffer source) as [sb|]; [|wstep; by apply HQ].
  destruct (no_planes sb); [wstep; by apply HQ|]. destruct (_ || _); [wstep; by apply HQ|].
  apply dwp_bind, allocate_wp. intros [db|e]; [|wstep; by apply HQ].
  apply scoped_wp; [|done]. intros Q' HQ'. apply transform_into_wp; [apply Hi|done].
Qed.

Lemma composite_wp fg bg request destination s held (Q : Status * VideoFrame -> Rga -> Held -> Prop) :
  rga_inv s held -> (forall r s' held', rga_inv s' held' -> Q r s' held') ->
  gwp (Composite fg bg request destination) Q s held.
Proof.
  intros Hi HQ. unfold Composite. destruct (vf_buffer fg) as [fb|]; [|wstep; by apply HQ].
  destruct (vf_buffer bg) as [bb|]; [|wstep; by apply HQ].
  destruct (no_planes fb || no_planes bb); [wstep; by apply HQ|]. destruct (_ || _); [wstep; by apply HQ|].
  apply dwp_bind, fence_wait_wp. intros st. destruct (negb _); [wstep; by apply HQ|].
  apply dwp_bind, fence_wait_wp. intros st'. destruct (negb _); [wstep; by apply HQ|].
  apply dwp_bind, allocate_wp. intros [db|e]; [|wstep; by apply HQ].
  apply scoped_wp; [|done]. intros Q' HQ'. apply composite_into_wp; [apply Hi|done].
Qed.

Lemma release_cached_wp s held (Q : unit -> Rga -> Held -> Prop) :
  rga_inv s held -> (forall s' held', rga_inv s' held' -> handles_ s' = ∅ -> Q tt s' held') ->
  gwp ReleaseCachedHandles Q s held.
Proof.
  intros [[Hh H1 H2 H3 H4 H5 H6] Hl] HQ. unfold ReleaseCachedHandles. repeat wstep.
  apply (unreferences_wp _ []); [|intros m held' Hp'; apply HQ; [by split|done]].
  rewrite app_nil_r. split; cbn [handles_ set_handles objects fences next_id]; try done.
  - intros i Hi. apply H1. apply elem_references in Hi. apply elem_references. cbn in Hi.
    destruct Hi as [(b & e & Hb & _)|?]; [by rewrite lookup_empty in Hb|auto].
  - intros i Hi. destruct (H2 i Hi) as [Hr|Hr]; [|by apply elem_of_nil in Hr].
    apply elem_references in Hr as [(b & e & Hb & <-)|Hr]; [right|left; apply elem_references; cbn; auto].
    apply (list_elem_of_fmap_2 (fun e : Z * CacheEntry => ce_handle e.2) _ (b, e)). by apply elem_of_map_to_list.
  - rewrite map_size_empty. lia.
Qed.

(** The fence is over: its descriptor is closed and its references are gone. *)
Lemma finished_pre k f s held rest : rga_pre [] s held -> fences s !! k = Some f -> 0 <= rf_fd f ->
  held = hset [hfence (rf_fd f)] ⊎ rest ->
  rga_pre (rf_handles f) (set_fences (<[k := mkFence (-1) [] []]> (fences s)) s) rest.
Proof.
  intros [Hh H1 H2 H3 H4 H5 [H6 H7]] Hk Hfd Hr.
  split; cbn [handles_ set_fences objects fences next_id locals]; try done.
  - unfold total in *. cbn [objects fences set_fences].
    rewrite <- insert_delete_eq, (hsum_insert fence_handles) by apply lookup_delete_eq.
    rewrite (hsum_delete fence_handles _ _ _ Hk) in Hh. unfold fence_handles at 1 in Hh.
    rewrite (proj2 (Z.leb_le 0 _) Hfd) in Hh. change (fence_handles (mkFence (-1) [] [])) with (@nil Handle).
    change (hset []) with (∅ : Held). multiset_solver.
  - intros i Hi. apply H1. apply elem_references in Hi. apply elem_references. cbn in Hi.
    destruct Hi as [?|[(k' & f' & [[_ <-]|[_ Hk']]%lookup_insert_Some & Hi)|?]]; [auto| |right; left; eauto|auto].
    by apply elem_of_nil in Hi.
  - intros i Hi. destruct (H2 i Hi) as [Hre|Hre]; [|by apply elem_of_nil in Hre].
    apply elem_references in Hre as [Hre|[(k' & f' & Hk' & Hre)|Hre]]; [left; apply elem_references; auto| |left; apply elem_references; auto].
    destruct (decide (k' = k)) as [->|Hne]; [right; congruence|left]. apply elem_references. right. left.
    exists k', f'. cbn. by rewrite lookup_insert_ne.
  - intros k' f' [[_ <-]|[_ Hk']]%lookup_insert_Some; [done|eauto].
  - split; [done|]. intros k' [f' [[<- _]|[_ Hk']]%lookup_insert_Some]; eauto.
Qed.

Lemma held_fence k f s held : rga_pre [] s held -> fences s !! k = Some f -> 0 <= rf_fd f ->
  exists rest, held = hset [hfence (rf_fd f)] ⊎ rest.
Proof.
  intros Hp Hk Hfd. exists (held ∖ hset [hfence (rf_fd f)]). apply gmultiset_disj_union_difference.
  assert (hfence (rf_fd f) ∈ held) as Hin; [|unfold hset; simpl; multiset_solver].
  rewrite (pre_held _ _ _ Hp). unfold total. apply gmultiset_elem_of_disj_union. right.
  eapply hsum_in; [exact Hk|]. unfold fence_handles. rewrite (proj2 (Z.leb_le 0 _) Hfd). by left.
Qed.

Lemma wait_wp k s held (Q : Status -> Rga -> Held -> Prop) :
  rga_inv s held ->
  (forall st s' held', rga_inv s' held' -> (forall f, fences s' !! k = Some f -> rf_fd f < 0) -> Q st s' held') ->
  gwp (FenceWait k) Q s held.
Proof.
  intros [Hp Hl] HQ. unfold FenceWait. wstep. destruct (fences s !! k) as [f|] eqn:Hk.
  2:{ wstep. apply HQ; [by split|]. intros f Hf. congruence. }
  destruct (Z.ltb_spec (rf_fd f) 0) as [Hn|Hfd].
  { wstep. apply HQ; [by split|]. intros f' Hf'. congruence. }
  destruct (held_fence k f s held Hp Hk Hfd) as [rest ->].
  wcall r _; [by apply give_one|]. wstep. apply dwp_bind, (unreferences_wp _ []).
  - rewrite app_nil_r. by eapply finished_pre.
  - intros m held' Hp'. wstep. apply HQ; [by split|]. cbn. intros f'. rewrite lookup_insert_eq. by intros [= <-].
Qed.

Lemma fence_destroy_wp k s held (Q : unit -> Rga -> Held -> Prop) :
  rga_inv s held -> (forall s' held', rga_inv s' held' -> Q tt s' held') -> gwp (FenceDestroy k) Q s held.
Proof.
  intros Hi HQ. unfold FenceDestroy. apply dwp_bind, wait_wp; [done|]. intros _ s1 held1 [Hp Hl] Hk. wstep. apply HQ.
  split; [|done]. destruct (fences s1 !! k) as [f|] eqn:Hf; [|rewrite delete_id by done; by destruct s1].
  destruct Hp as [Hh H1 H2 H3 H4 H5 [H6 H7]]. specialize (Hk f eq_refl).
  assert (forall i, i ∈ references (set_fences (delete k (fences s1)) s1) <-> i ∈ references s1) as Hr.
  { intros i. rewrite !elem_references. cbn. split; (intros [?|[(k' & f' & Hk' & Hin)|?]]; [by left| |by right; right]; right; left).
    - apply lookup_delete_Some in Hk' as [_ Hk']. eauto.
    - exists k', f'. rewrite lookup_delete_ne; [done|]. intros <-.
      assert (f' = f) as -> by congruence. rewrite (H4 k f Hf Hk) in Hin. by apply elem_of_nil in Hin. }
  split; cbn [handles_ set_fences objects fences next_id locals]; try done.
  - rewrite Hh. unfold total. cbn [objects fences set_fences]. rewrite (hsum_delete fence_handles _ _ _ Hf).
    unfold fence_handles at 1. rewrite (proj2 (Z.leb_gt 0 _) Hk). change (hset []) with (∅ : Held). multiset_solver.
  - intros i Hin. by apply H1, Hr.
  - intros i Hin. destruct (H2 i Hin) as [?|?]; [left; by apply Hr|by right].
  - intros k' f' [_ Hk']%lookup_delete_Some. eauto.
  - split; [done|]. intros k' [f' [_ Hk']%lookup_delete_Some]. eauto.
Qed.

(** ** The object over its life *)

Inductive RgaOp :=
| GTransform (source : VideoFrame) (request : RgaTransformRequest)
| GComposite (foreground background : VideoFrame) (request : RgaCompositeRequest)
| GReleaseCachedHandles
| GFenceWait (fence : Z)
| GFenceDestroy (fence : Z).

Definition no_frame : VideoFrame := mkVideoFrame 0 Unset 0 0 0 0 "" None.

Definition rga_op (op : RgaOp) : GProg unit :=
  match op with
  | GTransform source request => Transform source request no_frame;~ DRet tt
  | GComposite fg bg request => Composite fg bg request no_frame;~ DRet tt
  | GReleaseCachedHandles => ReleaseCachedHandles
  | GFenceWait k => FenceWait k;~ DRet tt
  | GFenceDestroy k => FenceDestroy k
  end.

Lemma rga_op_wp op s held : rga_inv s held -> gwp (rga_op op) (fun _ s' held' => rga_inv s' held') s held.
Proof.
  intros Hi. destruct op; cbn [rga_op].
  - apply dwp_bind, transform_wp; [done|]. intros. by wstep.
  - apply dwp_bind, composite_wp; [done|]. intros. by wstep.
  - by apply release_cached_wp.
  - apply dwp_bind, wait_wp; [done|]. intros. by wstep.
  - by apply fence_destroy_wp.
Qed.

Lemma rga_ops_wp ops s held : rga_inv s held ->
  gwp (deach ops rga_op) (fun _ s' held' => rga_inv s' held') s held.
Proof.
  intros Hp. eapply (wp_deach _ _ ops rga_op (fun _ s held => rga_inv s held)); [done|].
  intros op l s' held'. apply rga_op_wp.
Qed.
End safety.


#[local] Instance rga_allowed_dec g ev : Decision (rga_allowed g ev).
Proof. destruct ev as [c a]; destruct c; cbn; apply _. Defined.

(** A library that works; every operation is asynchronous. *)
#[local] Instance demo_rga : RgaLib := {|
  RK_FORMAT_YCbCr_420_SP := 1; RK_FORMAT_YCrCb_420_SP := 2; RK_FORMAT_RGB_888 := 3;
  RK_FORMAT_BGR_888 := 4; RK_FORMAT_RGBA_8888 := 5; RK_FORMAT_BGRA_8888 := 6; RK_FORMAT_YUYV_422 := 7;
  IM_STATUS_SUCCESS := 1; imStrError := fun _ => "error" |}.
#[local] Instance demo_buffers : BufferHeap :=
  {| buf_size := fun _ => 460800; buf_planes := fun b => [mkPlane b 0 460800 0 0 0] |}.

Definition demo_librga : Device RgaAns Z := fun c n =>
  (match c return RgaAns c with
   | HeapOpen _ => n
   | HeapAlloc _ _ => (0, n)
   | HeapClose _ | releasebuffer_handle _ | SetFence _ _ => tt
   | HeapError => "error"
   | AdoptDma fd _ => fd
   | BufferExpired _ => false
   | importbuffer_fd _ _ => n
   | improcess _ _ _ _ _ _ => (1, n)
   | imcomposite _ _ _ _ _ => (1, n)
   | imsync _ => 1
   | GBuf (BufFence _) => false
   | GBuf (BufFenceWait _) | GBuf (BufBegin _ _) | GBuf (BufEnd _ _) => Ok
   | GBuf (BufMap _ _) => true
   | GBuf (BufUnmap _) => tt
   | GBuf (BufNewHost _) => n
   end, n + 1).

Definition demo_frame : VideoFrame := mkVideoFrame 7 (FromMicroseconds 40000) 640 480 640 480 "nv12" (Some 99).
(** The cache is released while the transform runs. *)
Definition demo_transform : list RgaOp :=
  [GTransform demo_frame (mkTransform rect0 rect0 320 240 "rgb888" 90 true); GReleaseCachedHandles].

