(* ===== verification/OpenClBackend.v ===== *)
(** * The OpenCL backend

    [src/modules/opencl/backend.cpp]: kernels on the GPU.  [Run] copies the inputs to the device,
    starts the kernel and returns a fence that owns what the running kernel needs: the event, the
    memory objects and a reference to the queue, so that it survives [Close].  [Wait] of the fence
    copies the results to the output buffers.

    [OpenCl] is the backend together with its fences.  The OpenCL library, the buffers and the
    clock are the outside ([ClCmd]); a memory object carries the size it was created with.  A wait
    takes fuel, one unit a round of a millisecond; a wait that runs out of fuel ends with
    [out_of_fuel], like a timeout.

    [opencl_backend_safe]: every object is used while it is alive and released once, and no copy
    leaves its memory. *)

From S2P Require Import Prelude Status Timestamp Values Buffer Contract Node Device Backends ModuleNodes.
From stdpp Require Import list gmultiset pretty.
Local Open Scope rkavp_scope.
Local Open Scope Z_scope.

(** ** The library *)

Class ClLib := { CL_SUCCESS : Z; CL_COMPLETE : Z }.

Record cl_mem := mkClMem { cm_id : Z; cm_size : Z }.

(** Objects are numbers, 0 is null. *)
Inductive ClCmd :=
| clGetPlatformCount
| clGetPlatformIDs (n : Z)
| clGetDeviceIDs (platform : Z)
| clCreateContext (device : Z)
| clCreateCommandQueue (ctx device : Z)
| clCreateProgramWithSource (ctx : Z) (source : string)
| clBuildProgram (program device : Z) (options : string)
| clBuildLogSize (program device : Z)
| clBuildLog (program device n : Z)
| clCreateKernel (program : Z) (name : string)
| clCreateInputBuffer (ctx b size : Z)
| clCreateOutputBuffer (ctx size : Z)
| clSetKernelArg (kernel index : Z) (m : cl_mem)
| clEnqueueNDRangeKernel (queue kernel : Z) (dims : list Z)
| clFlush (queue : Z)
| clRetainCommandQueue (queue : Z)
| clGetEventInfo (event : Z)
| clEnqueueReadBuffer (queue : Z) (m : cl_mem) (size b : Z)
| clReleaseEvent (event : Z)
| clReleaseMemObject (m : cl_mem)
| clReleaseKernel (kernel : Z)
| clReleaseProgram (program : Z)
| clReleaseCommandQueue (queue : Z)
| clReleaseContext (ctx : Z)
| ClNow
| ClSleep
| CBuf (c : BufCmd).

(** Creations answer the result and the object. *)
Definition ClAns (c : ClCmd) : Type :=
  match c with
  | clGetPlatformCount => Z * Z
  | clGetPlatformIDs _ => Z * list Z
  | clGetDeviceIDs _ => Z * Z
  | clCreateContext _ | clCreateCommandQueue _ _ | clCreateProgramWithSource _ _
  | clCreateKernel _ _ | clCreateInputBuffer _ _ _ | clCreateOutputBuffer _ _ => Z * Z
  | clBuildProgram _ _ _ => Z
  | clBuildLogSize _ _ => Z
  | clBuildLog _ _ _ => string
  | clSetKernelArg _ _ _ => Z
  | clEnqueueNDRangeKernel _ _ _ => Z * Z
  | clFlush _ | clRetainCommandQueue _ => unit
  | clGetEventInfo _ => Z * Z
  | clEnqueueReadBuffer _ _ _ _ => Z
  | clReleaseEvent _ | clReleaseMemObject _ | clReleaseKernel _ | clReleaseProgram _
  | clReleaseCommandQueue _ | clReleaseContext _ => unit
  | ClNow => Z
  | ClSleep => unit
  | CBuf c => BufAns c
  end.

(** ** The objects *)

(* [src/modules/opencl/backend.cpp:240-243] CompiledKernel *)
Record CompiledKernel := mkKernel { ck_program : Z; ck_kernel : Z }.

(* [src/modules/opencl/backend.cpp:82-90] OpenClFence (fields) *)
Record OpenClFence := mkClFence {
  of_queue : Z;
  of_event : Z;
  of_memory : list cl_mem;
  of_outputs : list BufferPtr;
  of_input_count : nat;
  of_completed : bool;
  of_status : Status }.
Definition with_status (st : Status) (f : OpenClFence) : OpenClFence :=
  mkClFence (of_queue f) (of_event f) (of_memory f) (of_outputs f) (of_input_count f) (of_completed f) st.
Definition done_fence (f : OpenClFence) : OpenClFence :=
  mkClFence (of_queue f) (of_event f) (of_memory f) (of_outputs f) (of_input_count f) true Ok.

(* [src/modules/opencl/backend.cpp:275-279] OpenClBackend (fields) *)
Record OpenCl := mkOpenClState {
  device_ : Z;
  context_ : Z;
  queue_ : Z;
  kernels_ : gmap string CompiledKernel;
  fences : gmap Z OpenClFence;
  next_id : Z }.
Definition new_opencl : OpenCl := mkOpenClState 0 0 0 ∅ ∅ 0.

Definition set_device (d : Z) (s : OpenCl) : OpenCl :=
  mkOpenClState d (context_ s) (queue_ s) (kernels_ s) (fences s) (next_id s).
Definition set_context (c : Z) (s : OpenCl) : OpenCl :=
  mkOpenClState (device_ s) c (queue_ s) (kernels_ s) (fences s) (next_id s).
Definition set_queue (q : Z) (s : OpenCl) : OpenCl :=
  mkOpenClState (device_ s) (context_ s) q (kernels_ s) (fences s) (next_id s).
Definition set_kernels (m : gmap string CompiledKernel) (s : OpenCl) : OpenCl :=
  mkOpenClState (device_ s) (context_ s) (queue_ s) m (fences s) (next_id s).
Definition set_fences (m : gmap Z OpenClFence) (s : OpenCl) : OpenCl :=
  mkOpenClState (device_ s) (context_ s) (queue_ s) (kernels_ s) m (next_id s).

Abbreviation CProg := (dprog ClAns OpenCl).
Abbreviation ccall := (dcall (Ans := ClAns) (S := OpenCl)).

Section backend.
Context {CL : ClLib} {BH : BufferHeap} (fuel : nat).

(* [src/modules/opencl/backend.cpp:19-23] OpenClStatus *)
Definition OpenClStatus (result : Z) (operation : string) : Status :=
  if result =? CL_SUCCESS then Ok else Unavailable (operation +:+ " failed: " +:+ pretty result).

(** The first platform with a GPU. *)
Fixpoint find_device (platforms : list Z) : CProg unit :=
  match platforms with
  | [] => DRet tt
  | p :: platforms =>
      r <~ ccall (clGetDeviceIDs p);
      if r.1 =? CL_SUCCESS then dset (set_device r.2)
      else dset (set_device 0);~ find_device platforms
  end.

(* [src/modules/opencl/backend.cpp:249-274] OpenClBackend::InitializeLocked *)
Definition InitializeLocked : CProg Status :=
  c <~ dget context_;
  if negb (c =? 0) then DRet Ok else
  n <~ ccall clGetPlatformCount;
  if negb (n.1 =? CL_SUCCESS) || (n.2 =? 0) then DRet (Unavailable "no OpenCL platform available") else
  p <~ ccall (clGetPlatformIDs n.2);
  if negb (p.1 =? CL_SUCCESS) then DRet (OpenClStatus p.1 "clGetPlatformIDs") else
  find_device p.2;~
  d <~ dget device_;
  if d =? 0 then DRet (Unavailable "no OpenCL GPU device available") else
  c <~ ccall (clCreateContext d);
  dset (set_context c.2);~
  if negb (c.1 =? CL_SUCCESS) then DRet (OpenClStatus c.1 "clCreateContext") else
  q <~ ccall (clCreateCommandQueue c.2 d);
  dset (set_queue q.2);~
  if negb (q.1 =? CL_SUCCESS) then
    ccall (clReleaseContext c.2);~ dset (set_context 0);~
    DRet (OpenClStatus q.1 "clCreateCommandQueue")
  else DRet Ok.

Definition release_kernel (k : CompiledKernel) : CProg unit :=
  ccall (clReleaseKernel (ck_kernel k));~ ccall (clReleaseProgram (ck_program k)).

(* [src/modules/opencl/backend.cpp:97-131] OpenClBackend::Compile *)
Definition Compile (config : OpenClKernelConfig) : CProg Status :=
  if bool_decide (kc_name config = "") || bool_decide (kc_source config = "")
  then DRet (Invalid "OpenCL kernel name and source are required") else
  st <~ InitializeLocked;
  if negb (ok st) then DRet st else
  ctx <~ dget context_;
  p <~ ccall (clCreateProgramWithSource ctx (kc_source config));
  if negb (p.1 =? CL_SUCCESS) then DRet (OpenClStatus p.1 "clCreateProgramWithSource") else
  let program := p.2 in
  d <~ dget device_;
  r <~ ccall (clBuildProgram program d (kc_build_options config));
  if negb (r =? CL_SUCCESS) then
    n <~ ccall (clBuildLogSize program d);
    log <~ (if n =? 0 then DRet "" else ccall (clBuildLog program d n));
    ccall (clReleaseProgram program);~
    DRet (Invalid ("OpenCL program build failed: " +:+ log))
  else
  k <~ ccall (clCreateKernel program (kc_name config));
  if negb (k.1 =? CL_SUCCESS) then
    ccall (clReleaseProgram program);~ DRet (OpenClStatus k.1 "clCreateKernel")
  else
  existing <~ dget (fun s => kernels_ s !! kc_name config);
  match existing with Some x => release_kernel x | None => DRet tt end;~
  dset (fun s => set_kernels (<[kc_name config := mkKernel program k.2]> (kernels_ s)) s);~
  DRet Ok.

(* [src/modules/opencl/backend.cpp:245-247] OpenClBackend::ReleaseMemory *)
Definition ReleaseMemory (memory : list cl_mem) : CProg unit :=
  deach memory (fun m => ccall (clReleaseMemObject m)).

Definition fence_wait (b : Z) : CProg Status :=
  f <~ ccall (CBuf (BufFence b));
  if (f : bool) then ccall (CBuf (BufFenceWait b)) else DRet Ok.

(** One input: its memory object, or the status that ends [Run]. *)
Definition copy_input (ctx : Z) (input : BufferPtr) : CProg (Res cl_mem) :=
  match input with
  | None => DRet (Err (Invalid "OpenCL input buffer is null"))
  | Some b =>
      st <~ fence_wait b;
      if negb (ok st) then DRet (Err st) else
      st <~ ccall (CBuf (BufBegin b kRead));
      if negb (ok st) then DRet (Err st) else
      data <~ ccall (CBuf (BufMap b kRead));
      if negb data then
        ccall (CBuf (BufEnd b kRead));~ DRet (Err (Invalid "OpenCL input buffer is not CPU mappable"))
      else
      r <~ ccall (clCreateInputBuffer ctx b (buf_size b));
      let object := mkClMem r.2 (buf_size b) in
      ccall (CBuf (BufUnmap b));~
      st <~ ccall (CBuf (BufEnd b kRead));
      if negb (ok st) then
        (if r.2 =? 0 then DRet tt else ccall (clReleaseMemObject object));~ DRet (Err st)
      else if negb (r.1 =? CL_SUCCESS) then DRet (Err (OpenClStatus r.1 "clCreateBuffer input"))
      else DRet (Okay object)
  end.

Definition make_output (ctx : Z) (output : BufferPtr) : CProg (Res cl_mem) :=
  match output with
  | None => DRet (Err (Invalid "OpenCL output buffer is invalid"))
  | Some b =>
      if buf_size b =? 0 then DRet (Err (Invalid "OpenCL output buffer is invalid")) else
      r <~ ccall (clCreateOutputBuffer ctx (buf_size b));
      if negb (r.1 =? CL_SUCCESS) then DRet (Err (OpenClStatus r.1 "clCreateBuffer output"))
      else DRet (Okay (mkClMem r.2 (buf_size b)))
  end.

(** [make] on every buffer; the memory objects so far are released when one fails. *)
Fixpoint make_memory (make : BufferPtr -> CProg (Res cl_mem)) (l : list BufferPtr) (memory : list cl_mem)
  : CProg (Res (list cl_mem)) :=
  match l with
  | [] => DRet (Okay memory)
  | b :: l =>
      r <~ make b;
      match r with
      | Err st => ReleaseMemory memory;~ DRet (Err st)
      | Okay m => make_memory make l (memory ++ [m])
      end
  end.

Definition set_args (kernel : Z) (memory : list cl_mem) : CProg (option Z) :=
  dfor (imap pair memory) (fun x =>
    r <~ ccall (clSetKernelArg kernel (u32 (Z.of_nat x.1)) x.2);
    DRet (if r =? CL_SUCCESS then None else Some r)).

Definition add_fence (f : OpenClFence) (s : OpenCl) : Z * OpenCl :=
  (next_id s, mkOpenClState (device_ s) (context_ s) (queue_ s) (kernels_ s)
                (<[next_id s := f]> (fences s)) (next_id s + 1)).

Definition update_fence (i : Z) (f : OpenClFence) : CProg unit :=
  dset (fun s => set_fences (<[i := f]> (fences s)) s).

(** The kernel is started and its fence made. *)
Definition launch (kernel : Z) (inputs outputs : list BufferPtr) (dims : list Z) (memory : list cl_mem)
  : CProg (Res Z) :=
  r <~ set_args kernel memory;
  match r with
  | Some r => ReleaseMemory memory;~ DRet (Err (OpenClStatus r "clSetKernelArg"))
  | None =>
      q <~ dget queue_;
      e <~ ccall (clEnqueueNDRangeKernel q kernel dims);
      if negb (e.1 =? CL_SUCCESS) then
        ReleaseMemory memory;~ DRet (Err (OpenClStatus e.1 "clEnqueueNDRangeKernel"))
      else
      ccall (clFlush q);~
      ccall (clRetainCommandQueue q);~
      i <~ DLocal (add_fence (mkClFence q e.2 memory outputs (length inputs) false Ok)) DRet;
      DRet (Okay i)
  end.

(** [Run] up to the fence. *)
Definition start (kernel_name : string) (inputs outputs : list BufferPtr) (dims : list Z) : CProg (Res Z) :=
  if (length dims =? 0)%nat || (3 <? length dims)%nat
  then DRet (Err (Invalid "OpenCL work size rank must be 1 to 3")) else
  st <~ InitializeLocked;
  if negb (ok st) then DRet (Err st) else
  k <~ dget (fun s => kernels_ s !! kernel_name);
  match k with
  | None => DRet (Err (NotFound ("OpenCL kernel is not compiled: " +:+ kernel_name)))
  | Some k =>
      ctx <~ dget context_;
      r <~ make_memory (copy_input ctx) inputs [];
      match r with
      | Err st => DRet (Err st)
      | Okay memory =>
          r <~ make_memory (make_output ctx) outputs memory;
          match r with
          | Err st => DRet (Err st)
          | Okay memory => launch (ck_kernel k) inputs outputs dims memory
          end
      end
  end.

(** ** Fences *)

(** The loop until the kernel is done; the status that ends the wait, and whether it is kept. *)
Fixpoint poll_event (n : nat) (event start_ms timeout_ms : Z) : CProg (option (Status * bool)) :=
  match n with
  | O => DRet (Some (out_of_fuel, false))
  | S n =>
      r <~ ccall (clGetEventInfo event);
      if negb (r.1 =? CL_SUCCESS) then DRet (Some (OpenClStatus r.1 "clGetEventInfo", true))
      else if r.2 =? CL_COMPLETE then DRet None
      else if r.2 <? 0 then DRet (Some (Unavailable "OpenCL kernel execution failed", true)) else
      now <~ (if 0 <=? timeout_ms then ccall ClNow else DRet start_ms);
      if (0 <=? timeout_ms) && (timeout_ms <=? now - start_ms)
      then DRet (Some (Unavailable "OpenCL fence wait timed out", false)) else
      ccall ClSleep;~ poll_event n event start_ms timeout_ms
  end.

(** One output is copied back: [None] when it is done. *)
Definition copy_output (queue : Z) (memory : list cl_mem) (input_count : nat) (x : nat * BufferPtr)
  : CProg (option Status) :=
  match x.2 with
  | None => DRet (Some (Invalid "OpenCL output buffer is null"))
  | Some b =>
      st <~ ccall (CBuf (BufBegin b kWrite));
      if negb (ok st) then DRet (Some st) else
      destination <~ ccall (CBuf (BufMap b kWrite));
      if negb destination then
        ccall (CBuf (BufEnd b kWrite));~
        DRet (Some (Invalid "OpenCL output buffer is not CPU mappable"))
      else
      match memory !! (input_count + x.1)%nat with
      | None => DUndefined "memory index out of range"
      | Some m =>
          r <~ ccall (clEnqueueReadBuffer queue m (buf_size b) b);
          ccall (CBuf (BufUnmap b));~
          st <~ ccall (CBuf (BufEnd b kWrite));
          if negb (ok st) then DRet (Some st)
          else if negb (r =? CL_SUCCESS) then DRet (Some (OpenClStatus r "clEnqueueReadBuffer"))
          else DRet None
      end
  end.

(* [src/modules/opencl/backend.cpp:42-80] OpenClFence::Wait *)
Definition Wait (i : Z) (timeout_ms : Z) : CProg Status :=
  f <~ dget (fun s => fences s !! i);
  match f with
  | None => DUndefined "fence is gone"
  | Some f =>
      if of_completed f then DRet (of_status f) else
      start_ms <~ ccall ClNow;
      r <~ poll_event fuel (of_event f) start_ms timeout_ms;
      match r with
      | Some (st, kept) => (if (kept : bool) then update_fence i (with_status st f) else DRet tt);~ DRet st
      | None =>
          r <~ dfor (imap pair (of_outputs f)) (copy_output (of_queue f) (of_memory f) (of_input_count f));
          match r with
          | Some st => update_fence i (with_status st f);~ DRet st
          | None => update_fence i (done_fence f);~ DRet Ok
          end
      end
  end.

(** The last reference to the fence is gone. *)
(* [src/modules/opencl/backend.cpp:36-40] OpenClFence::~OpenClFence *)
Definition DestroyFence (i : Z) : CProg unit :=
  f <~ dget (fun s => fences s !! i);
  match f with
  | None => DRet tt
  | Some f =>
      dset (fun s => set_fences (delete i (fences s)) s);~
      (if of_event f =? 0 then DRet tt else ccall (clReleaseEvent (of_event f)));~
      deach (of_memory f) (fun m => ccall (clReleaseMemObject m));~
      ccall (clReleaseCommandQueue (of_queue f))
  end.

(** With a null [fence] pointer the fence is waited for and dropped. *)
(* [src/modules/opencl/backend.cpp:133-223] OpenClBackend::Run *)
Definition Run (kernel_name : string) (inputs outputs : list BufferPtr) (dims : list Z) (fence : bool)
  : CProg (Status * option Z) :=
  r <~ start kernel_name inputs outputs dims;
  match r with
  | Err st => DRet (st, None)
  | Okay i =>
      if fence then DRet (Ok, Some i)
      else st <~ Wait i (-1); DestroyFence i;~ DRet (st, None)
  end.

Definition closed (s : OpenCl) : OpenCl := mkOpenClState 0 0 0 ∅ (fences s) (next_id s).

(* [src/modules/opencl/backend.cpp:225-237] OpenClBackend::Close *)
Definition Close : CProg unit :=
  ks <~ dget (fun s => (map_to_list (kernels_ s)).*2);
  deach ks release_kernel;~
  q <~ dget queue_;
  (if q =? 0 then DRet tt else ccall (clReleaseCommandQueue q));~
  c <~ dget context_;
  (if c =? 0 then DRet tt else ccall (clReleaseContext c));~
  dset closed.
End backend.

(** ** What the calls need and leave *)

Definition hctx (c : Z) : Handle := ("context", c).
Definition hqueue (q : Z) : Handle := ("queue", q).
Definition hprogram (p : Z) : Handle := ("program", p).
Definition hkernel (k : Z) : Handle := ("kernel", k).
Definition hevent (e : Z) : Handle := ("event", e).
Definition hcmem (m : cl_mem) : Handle := ("memory of " +:+ pretty (cm_size m), cm_id m).

Section safety.
Context {CL : ClLib} {BH : BufferHeap} (fuel : nat).

Definition cl_effect (ev : devent ClAns) : Effect Handle :=
  let 'Ev c a := ev in
  match c return ClAns c -> Effect Handle with
  | clCreateContext _ => fun r => obtaining (created r.2 (hctx r.2))
  | clCreateCommandQueue ctx _ => fun r => mkEffect [hctx ctx] [] [] (created r.2 (hqueue r.2))
  | clCreateProgramWithSource ctx _ => fun r => mkEffect [hctx ctx] [] [] (created r.2 (hprogram r.2))
  | clBuildProgram p _ _ => fun _ => needing [hprogram p]
  | clBuildLogSize p _ => fun _ => needing [hprogram p]
  | clBuildLog p _ _ => fun _ => needing [hprogram p]
  | clCreateKernel p _ => fun r => mkEffect [hprogram p] [] [] (created r.2 (hkernel r.2))
  | clCreateInputBuffer ctx b n => fun r =>
      mkEffect [hctx ctx; hmap b] [] [] (created r.2 (hcmem (mkClMem r.2 n)))
  | clCreateOutputBuffer ctx n => fun r => mkEffect [hctx ctx] [] [] (created r.2 (hcmem (mkClMem r.2 n)))
  | clSetKernelArg k _ m => fun _ => needing [hkernel k; hcmem m]
  | clEnqueueNDRangeKernel q k _ => fun r => mkEffect [hqueue q; hkernel k] [] [] (created r.2 (hevent r.2))
  | clFlush q => fun _ => needing [hqueue q]
  | clRetainCommandQueue q => fun _ => mkEffect [hqueue q] [] [] [hqueue q]
  | clGetEventInfo e => fun _ => needing [hevent e]
  | clEnqueueReadBuffer q m _ b => fun _ => needing [hqueue q; hcmem m; hmap b]
  | clReleaseEvent e => fun _ => returning [hevent e]
  | clReleaseMemObject m => fun _ => returning [hcmem m]
  | clReleaseKernel k => fun _ => returning [hkernel k]
  | clReleaseProgram p => fun _ => returning [hprogram p]
  | clReleaseCommandQueue q => fun _ => returning [hqueue q]
  | clReleaseContext c => fun _ => returning [hctx c]
  | CBuf c => fun a => buf_effect c a
  | clGetPlatformCount | clGetPlatformIDs _ | clGetDeviceIDs _ | ClNow | ClSleep => fun _ => no_effect
  end a.

(** Copies stay within the buffer and within the memory object. *)
Definition cl_guard (c : ClCmd) : bool :=
  match c with
  | clCreateInputBuffer _ b n => n <=? buf_size b
  | clEnqueueReadBuffer _ m n b => (n <=? cm_size m) && (n <=? buf_size b)
  | _ => true
  end.

Abbreviation cl_gstep := (handle_step cl_effect cl_guard).

(** An object is null exactly when its creation failed. *)
Definition cl_allowed (_ : Held) (ev : devent ClAns) : Prop :=
  let 'Ev c a := ev in
  match c return ClAns c -> Prop with
  | clCreateContext _ => fun r => r.1 = CL_SUCCESS <-> r.2 <> 0
  | clCreateCommandQueue _ _ => fun r => r.1 = CL_SUCCESS <-> r.2 <> 0
  | clCreateProgramWithSource _ _ => fun r => r.1 = CL_SUCCESS <-> r.2 <> 0
  | clCreateKernel _ _ => fun r => r.1 = CL_SUCCESS <-> r.2 <> 0
  | clCreateInputBuffer _ _ _ => fun r => r.1 = CL_SUCCESS <-> r.2 <> 0
  | clCreateOutputBuffer _ _ => fun r => r.1 = CL_SUCCESS <-> r.2 <> 0
  | clEnqueueNDRangeKernel _ _ _ => fun r => r.1 = CL_SUCCESS <-> r.2 <> 0
  | _ => fun _ => True
  end a.

(** ** The invariant *)

Definition base_handles (s : OpenCl) : list Handle :=
  created (context_ s) (hctx (context_ s)) ++ created (queue_ s) (hqueue (queue_ s)).
Definition kernel_handles (k : CompiledKernel) : list Handle := [hkernel (ck_kernel k); hprogram (ck_program k)].
Definition fence_handles (f : OpenClFence) : list Handle :=
  hevent (of_event f) :: map hcmem (of_memory f) ++ [hqueue (of_queue f)].
Definition total (s : OpenCl) : Held :=
  hset (base_handles s) ⊎ hsum kernel_handles (kernels_ s) ⊎ hsum fence_handles (fences s).

(** The memory object of an output has the size of its buffer. *)
Definition fence_ok (f : OpenClFence) : Prop :=
  of_event f <> 0 /\
  forall j b, of_outputs f !! j = Some (Some b) ->
    exists m, of_memory f !! (of_input_count f + j)%nat = Some m /\ cm_size m = buf_size b.

Record cl_inv (s : OpenCl) (held : Held) : Prop := mkClInv {
  cl_held : held = total s;
  cl_none : context_ s = 0 -> queue_ s = 0 /\ kernels_ s = ∅;
  cl_some : context_ s <> 0 -> queue_ s <> 0;
  cl_fences : forall i f, fences s !! i = Some f -> fence_ok f;
  cl_ids : forall i, is_Some (fences s !! i) -> i < next_id s }.

Abbreviation cwp := (wp cl_gstep cl_allowed).
Implicit Types (s : OpenCl) (held rest : Held).

(** ** Calls *)

Lemma cl_buf_step c a held held' : account (buf_effect c a) held = Some held' ->
  cl_gstep (Ev (CBuf c) a) held = Some held'.
Proof. done. Qed.

Lemma release_memory_wp memory s rest (Q : unit -> OpenCl -> Held -> Prop) :
  Q tt s rest ->
  cwp (deach memory (fun m => ccall (clReleaseMemObject m))) Q s (hset (map hcmem memory) ⊎ rest).
Proof.
  intros HQ. revert Q HQ. induction memory as [|m memory IH]; intros Q HQ; cbn [deach map].
  - wstep. replace (hset [] ⊎ rest) with rest by (unfold hset; simpl; multiset_solver). done.
  - rewrite hset_cons, <- (gmultiset_disj_union_assoc (hset [hcmem m])).
    wcall [] _; [by apply step_give|]. by apply IH.
Qed.

(** ** Initialisation and kernels *)

Lemma OpenClStatus_bad r w : r <> CL_SUCCESS -> ok (OpenClStatus r w) = false.
Proof. intros Hr. unfold OpenClStatus. by rewrite (proj2 (Z.eqb_neq _ _) Hr). Qed.

Lemma inv_device d s held : cl_inv s held -> cl_inv (set_device d s) held.
Proof. intros []. by split. Qed.

Lemma find_device_wp ps s held (Q : unit -> OpenCl -> Held -> Prop) :
  (forall d, Q tt (set_device d s) held) -> cwp (find_device ps) Q s held.
Proof.
  revert s. induction ps as [|p ps IH]; intros s HQ; cbn [find_device].
  - wstep. specialize (HQ (device_ s)). by destruct s.
  - wcall r _; [by apply step_none|]. destruct (_ =? _); [wstep; apply HQ|]. wstep. apply IH. intros d. apply (HQ d).
Qed.

(** What initialisation leaves: a context and a queue, or nothing new. *)
Lemma init_wp s held (Q : Status -> OpenCl -> Held -> Prop) :
  cl_inv s held ->
  (forall st s' held', cl_inv s' held' -> kernels_ s' = kernels_ s -> (ok st = true -> context_ s' <> 0) ->
     Q st s' held') ->
  cwp InitializeLocked Q s held.
Proof.
  intros Hi HQ. unfold InitializeLocked. wstep. destruct (Z.eqb_spec (context_ s) 0) as [Hc|Hc]; cbn [negb].
  2:{ wstep. by apply HQ. }
  wcall n _; [by apply step_none|]. destruct (_ || _); [wstep; by apply HQ|].
  wcall p _; [by apply step_none|]. destruct (Z.eqb_spec p.1 CL_SUCCESS) as [|Hp]; cbn [negb].
  2:{ wstep. apply HQ; [done|done|]. by rewrite OpenClStatus_bad. }
  apply dwp_bind, find_device_wp. intros d. wstep. cbn [device_ set_device].
  pose proof (inv_device d s held Hi) as Hi1. destruct (Z.eqb_spec d 0); [wstep; by apply HQ|].
  set (s1 := set_device d s) in *. pose proof Hi1 as [Hh Hn _ Hf Hid]. destruct (Hn Hc) as [Hq Hk].
  wcall c Hcc; [by apply (step_take _ _ _ _ []); [..|unfold hset; simpl; multiset_solver]|]. wstep. destruct (Z.eqb_spec c.1 CL_SUCCESS) as [Hs|Hs]; cbn [negb].
  2:{ assert (c.2 = 0) as Hc0 by (destruct (Z.eq_dec c.2 0) as [|Hne]; [done|]; by apply Hcc in Hne).
      wstep. rewrite Hc0. replace (hset (created 0 (hctx 0)) ⊎ held) with held by (unfold hset; simpl; multiset_solver).
      apply HQ; [|done|by rewrite OpenClStatus_bad]. replace (set_context 0 s1) with s1; [done|].
      destruct s; cbn in *; by subst. }
  apply Hcc in Hs. rewrite created_some by done.
  assert (total (set_context c.2 s1) = hset [hctx c.2] ⊎ held) as Ht.
  { rewrite Hh. unfold total, base_handles. cbn [context_ queue_ set_context kernels_ fences]. cbn in Hc.
    change (context_ s1) with (context_ s). rewrite Hc. rewrite (created_some c.2) by done.
    rewrite !hset_app. change (created 0 (hctx 0)) with (@nil Handle). change (hset []) with (∅ : Held). multiset_solver. }
  wcall q Hqq; [apply (step_take _ _ _ _ [hctx c.2]); [done|done|unfold hset; simpl; multiset_solver]|]. wstep.
  destruct (Z.eqb_spec q.1 CL_SUCCESS) as [Hs'|Hs']; cbn [negb].
  - apply Hqq in Hs'. rewrite created_some by done. wstep. apply HQ; [|done|done].
    split; cbn [context_ queue_ set_context set_queue kernels_ fences next_id]; try done.
    rewrite <- Ht. unfold total, base_handles. cbn [context_ queue_ set_context set_queue kernels_ fences].
    change (queue_ s1) with (queue_ s) in *. rewrite Hq. rewrite (created_some q.2) by done. rewrite !hset_app.
    change (created 0 (hqueue 0)) with (@nil Handle). change (hset []) with (∅ : Held). multiset_solver.
  - assert (q.2 = 0) as Hq0 by (destruct (Z.eq_dec q.2 0) as [|Hne]; [done|]; by apply Hqq in Hne).
    rewrite Hq0. replace (hset (created 0 (hqueue 0)) ⊎ (hset [hctx c.2] ⊎ held)) with (hset [hctx c.2] ⊎ held)
      by (unfold hset; simpl; multiset_solver).
    wcall [] _; [by apply step_give|]. repeat wstep. apply HQ; [|done|by rewrite OpenClStatus_bad].
    replace (set_context 0 _) with s1; [done|]. destruct s; cbn in *; by subst.
Qed.

Lemma release_kernel_wp k rest s (Q : unit -> OpenCl -> Held -> Prop) :
  Q tt s rest -> cwp (release_kernel k) Q s (hset (kernel_handles k) ⊎ rest).
Proof.
  intros HQ. unfold release_kernel, kernel_handles. rewrite hset_cons, <- (gmultiset_disj_union_assoc (hset [hkernel _])).
  wcall [] _; [by apply step_give|]. wcall [] _; [by apply step_give|]. done.
Qed.

Lemma held_shift (k b x d f : Held) : k ⊎ (b ⊎ (x ⊎ d) ⊎ f) = x ⊎ (k ⊎ (b ⊎ d ⊎ f)).
Proof. multiset_solver. Qed.

(** A compiled kernel replaces the one of the same name. *)
Lemma inv_kernel name k s held : cl_inv s held -> context_ s <> 0 ->
  cl_inv (set_kernels (<[name := k]> (kernels_ s)) s)
    (hset (kernel_handles k) ⊎ (hset (base_handles s) ⊎ hsum kernel_handles (delete name (kernels_ s)) ⊎
                                hsum fence_handles (fences s))).
Proof.
  intros [Hh Hn Hs Hf Hid] Hc. split; cbn [context_ queue_ set_kernels kernels_ fences next_id]; try done.
  unfold total. cbn [context_ queue_ set_kernels kernels_ fences].
  rewrite <- insert_delete_eq, hsum_insert by apply lookup_delete_eq.
  change (base_handles (set_kernels _ s)) with (base_handles s). multiset_solver.
Qed.

Lemma base_context s : context_ s <> 0 -> hctx (context_ s) ∈ total s.
Proof.
  intros Hc. unfold total, base_handles. rewrite created_some by done.
  rewrite !gmultiset_elem_of_disj_union. left. left. apply elem_of_list_to_set_disj. by left.
Qed.
Lemma compile_wp config s held (Q : Status -> OpenCl -> Held -> Prop) :
  cl_inv s held -> (forall st s' held', cl_inv s' held' -> Q st s' held') -> cwp (Compile config) Q s held.
Proof.
  intros Hi0 HQ. unfold Compile. destruct (_ || _); [wstep; by apply HQ|].
  apply dwp_bind, init_wp; [done|]. intros st s1 held1 Hi _ Hok. clear s held Hi0.
  rename s1 into s, held1 into held.
  destruct (ok st); cbn [negb]; [specialize (Hok eq_refl)|wstep; by apply HQ]. wstep.
  pose proof (base_context s Hok) as Hctx. rewrite <- (cl_held _ _ Hi) in Hctx.
  wcall p Hp; [apply (step_take _ _ _ _ [hctx (context_ s)]); [done|done|by apply hset_one]|].
  destruct (Z.eqb_spec p.1 CL_SUCCESS) as [Hs|Hs]; cbn [negb].
  2:{ assert (p.2 = 0) as -> by (destruct (Z.eq_dec p.2 0) as [|Hne]; [done|]; by apply Hp in Hne).
      replace (hset (created 0 _) ⊎ held) with held by (unfold hset; simpl; multiset_solver). wstep. by apply HQ. }
  apply Hp in Hs. rewrite created_some by done. wstep. set (P := hset [hprogram p.2] ⊎ held).
  assert (hset [hprogram p.2] ⊆ P) as HP by (unfold P; multiset_solver).
  wcall r _; [by eapply step_use|]. destruct (r =? CL_SUCCESS); cbn [negb].
  2:{ wcall n _; [by eapply step_use|]. apply dwp_bind.
      assert (forall log, cwp (ccall (clReleaseProgram p.2);~ DRet (Invalid ("OpenCL program build failed: " +:+ log))) Q s P) as Hl.
      { intros log. wcall [] _; [by apply step_give|]. wstep. by apply HQ. }
      destruct (n =? 0); [wstep; apply Hl|]. wcall log _; [by eapply step_use|]. apply Hl. }
  wcall k Hk; [by apply (step_take _ _ _ _ [hprogram p.2])|]. destruct (Z.eqb_spec k.1 CL_SUCCESS) as [Hs'|Hs']; cbn [negb].
  2:{ assert (k.2 = 0) as -> by (destruct (Z.eq_dec k.2 0) as [|Hne]; [done|]; by apply Hk in Hne).
      replace (hset (created 0 _) ⊎ P) with P by (unfold hset; simpl; multiset_solver).
      wcall [] _; [by apply step_give|]. wstep. by apply HQ. }
  apply Hk in Hs'. rewrite created_some by done. wstep. apply dwp_bind.
  set (kh := mkKernel p.2 k.2).
  assert (forall rest, held = rest -> hset [hkernel k.2] ⊎ P = hset (kernel_handles kh) ⊎ rest) as HK.
  { intros rest <-. unfold P, kernel_handles. rewrite (hset_cons (hkernel _)). cbn [ck_kernel ck_program]. multiset_solver. }
  pose proof (inv_kernel (kc_name config) kh s held Hi Hok) as Hnew. pose proof (cl_held _ _ Hi) as Hh. unfold total in Hh.
  destruct (kernels_ s !! kc_name config) as [x|] eqn:Hx.
  - rewrite (hsum_delete kernel_handles _ _ _ Hx) in Hh. rewrite (HK _ eq_refl), Hh.
    rewrite held_shift. apply release_kernel_wp. repeat wstep. by apply HQ.
  - repeat wstep. apply HQ. rewrite delete_id in Hnew by done. rewrite (HK _ Hh). exact Hnew.
Qed.
(** ** Memory objects *)

Lemma cl_fence_wait_wp b s held (Q : Status -> OpenCl -> Held -> Prop) :
  (forall st, Q st s held) -> cwp (fence_wait b) Q s held.
Proof.
  intros HQ. unfold fence_wait. wcall f _; [by apply step_none|]. destruct f; [|wstep; auto].
  wcall st _; [by apply step_none|]. auto.
Qed.

Definition made (b : BufferPtr) (m : cl_mem) : Prop := exists i, b = Some i /\ cm_size m = buf_size i.

Lemma copy_input_wp ctx b s held (Q : Res cl_mem -> OpenCl -> Held -> Prop) :
  hctx ctx ∈ held -> (forall st, Q (Err st) s held) ->
  (forall m, made b m -> Q (Okay m) s (hset [hcmem m] ⊎ held)) -> cwp (copy_input ctx b) Q s held.
Proof.
  intros Hc He Hm. unfold copy_input. destruct b as [b|]; [|wstep; auto].
  apply dwp_bind, cl_fence_wait_wp. intros st. destruct (negb (ok st)); [wstep; auto|].
  wcall st1 _; [apply cl_buf_step, account_begin|]. destruct (ok st1); cbn [negb]; [|wstep; auto].
  wcall x _; [apply cl_buf_step, account_map|]. destruct x; cbn [negb].
  2:{ wcall st2 _; [apply cl_buf_step, account_end|]. wstep. auto. }
  apply (wp_create _ _ _ (clCreateInputBuffer ctx b (buf_size b)) CL_SUCCESS [hctx ctx; hmap b]
           (fun o => hcmem (mkClMem o (buf_size b))) (fun r => r)); [cbn; apply Z.leb_refl|done|done| |..]; cbn beta.
  { apply hset_sub; [by repeat constructor; set_solver|]. set_solver. }
  - intros r Hs H0. rewrite H0. wcall [] _; [apply cl_buf_step, account_unmap|]. wcall st2 _; [apply cl_buf_step, account_end|].
    destruct (ok st2); cbn [negb]; [|change (0 =? 0) with true; cbv iota; repeat wstep; auto]. rewrite (proj2 (Z.eqb_neq _ _) Hs). cbn [negb]. wstep. auto.
  - intros r Hs H0. set (m := mkClMem r.2 (buf_size b)).
    rewrite (gmultiset_disj_union_comm (hset [hcmem m])), <- !gmultiset_disj_union_assoc.
    wcall [] _; [apply cl_buf_step, account_unmap|]. wcall st2 _; [apply cl_buf_step, account_end|].
    rewrite (gmultiset_disj_union_comm held). destruct (ok st2); cbn [negb].
    + rewrite (proj2 (Z.eqb_eq _ _) Hs). cbn [negb]. wstep. apply Hm. by exists b.
    + rewrite (proj2 (Z.eqb_neq _ _) H0). wcall [] _; [by apply step_give|]. wstep. auto.
Qed.

Lemma make_output_wp ctx b s held (Q : Res cl_mem -> OpenCl -> Held -> Prop) :
  hctx ctx ∈ held -> (forall st, Q (Err st) s held) ->
  (forall m, made b m -> Q (Okay m) s (hset [hcmem m] ⊎ held)) -> cwp (make_output ctx b) Q s held.
Proof.
  intros Hc He Hm. unfold make_output. destruct b as [b|]; [|wstep; auto]. destruct (_ =? 0); [wstep; auto|].
  apply (wp_create _ _ _ (clCreateOutputBuffer ctx (buf_size b)) CL_SUCCESS [hctx ctx]
           (fun o => hcmem (mkClMem o (buf_size b))) (fun r => r)); [done|done|done|by apply hset_one|..]; cbn beta.
  - intros r Hs _. rewrite (proj2 (Z.eqb_neq _ _) Hs). cbn [negb]. wstep. auto.
  - intros r Hs _. rewrite (proj2 (Z.eqb_eq _ _) Hs). cbn [negb]. wstep. apply Hm. by exists b.
Qed.

Lemma make_memory_wp make ctx l memory s rest (Q : Res (list cl_mem) -> OpenCl -> Held -> Prop) :
  (forall b held (Q' : Res cl_mem -> OpenCl -> Held -> Prop), hctx ctx ∈ held -> (forall st, Q' (Err st) s held) ->
     (forall m, made b m -> Q' (Okay m) s (hset [hcmem m] ⊎ held)) -> cwp (make b) Q' s held) ->
  hctx ctx ∈ rest -> (forall st, Q (Err st) s rest) ->
  (forall ms, Forall2 made l ms -> Q (Okay (memory ++ ms)) s (hset (map hcmem (memory ++ ms)) ⊎ rest)) ->
  cwp (make_memory make l memory) Q s (hset (map hcmem memory) ⊎ rest).
Proof.
  intros Hmake Hc He. revert memory. induction l as [|b l IH]; intros memory HQ; cbn [make_memory].
  - wstep. specialize (HQ []). rewrite app_nil_r in HQ. by apply HQ.
  - apply dwp_bind, Hmake; [set_solver| |].
    + intros st. apply dwp_bind, release_memory_wp. wstep. auto.
    + intros m Hm. rewrite gmultiset_disj_union_assoc.
      replace (hset [hcmem m] ⊎ hset (map hcmem memory)) with (hset (map hcmem (memory ++ [m]))).
      2:{ rewrite map_app, hset_app. simpl. apply gmultiset_disj_union_comm. }
      apply IH. intros ms Hms. rewrite <- app_assoc. apply HQ. by constructor.
Qed.
(** ** Launch *)

Lemma set_args_wp k memory s held (Q : option Z -> OpenCl -> Held -> Prop) :
  hkernel k ∈ held -> (forall m, m ∈ memory -> hcmem m ∈ held) -> (forall r, Q r s held) ->
  cwp (set_args k memory) Q s held.
Proof.
  intros Hk Hm HQ. unfold set_args.
  apply (wp_dfor _ _ _ _ (fun l s' held' => s' = s /\ held' = held /\ forall x, x ∈ l -> x.2 ∈ memory)).
  - split_and!; [done|done|]. intros x Hx. apply list_elem_of_lookup in Hx as [j Hj].
    apply list_lookup_imap_Some in Hj as (m & Hj & ->). by eapply list_elem_of_lookup_2.
  - intros x l s' held' (-> & -> & Hl). wcall r _.
    + eapply step_use; [done|done|]. apply hset_sub; [by repeat constructor; set_solver|].
      intros h [->|[->|[]%elem_of_nil]%elem_of_cons]%elem_of_cons; [done|]. apply Hm, Hl. by left.
    + wstep. destruct (r =? CL_SUCCESS); [|auto]. split_and!; [done|done|]. intros y Hy. apply Hl. by right.
  - intros s' held' (-> & -> & _). auto.
Qed.

(** A fence takes over the event, the memory and a reference to the queue. *)
Lemma inv_fence f s : cl_inv s (total s) -> fence_ok f ->
  cl_inv (add_fence f s).2 (hset (fence_handles f) ⊎ total s).
Proof.
  intros [_ Hn Hs Hf Hid] Hok.
  assert (fences s !! next_id s = None) as Hfresh.
  { destruct (fences s !! next_id s) eqn:E; [|done]. assert (next_id s < next_id s); [|lia]. eauto. }
  split; unfold add_fence; cbn [context_ queue_ kernels_ fences next_id snd]; try done.
  - unfold total. cbn [fences kernels_]. rewrite (hsum_insert fence_handles) by done.
    change (base_handles (mkOpenClState _ _ _ _ _ _)) with (base_handles s). multiset_solver.
  - intros i g [[_ <-]|[_ Hi]]%lookup_insert_Some; [done|eauto].
  - intros i [g [[<- _]|[_ Hi]]%lookup_insert_Some]; [lia|]. assert (i < next_id s) by eauto. lia.
Qed.

Lemma kernel_in name k s : kernels_ s !! name = Some k -> hkernel (ck_kernel k) ∈ total s.
Proof.
  intros Hk. unfold total. rewrite !gmultiset_elem_of_disj_union. left. right.
  eapply hsum_in; [exact Hk|]. by left.
Qed.
Lemma base_queue s : queue_ s <> 0 -> hqueue (queue_ s) ∈ total s.
Proof.
  intros Hq. unfold total, base_handles. rewrite (created_some (queue_ s)) by done.
  rewrite !gmultiset_elem_of_disj_union. left. left. apply elem_of_list_to_set_disj. set_solver.
Qed.

Lemma memory_in m memory rest : m ∈ memory -> hcmem m ∈ hset (map hcmem memory) ⊎ rest.
Proof.
  intros Hm. apply gmultiset_elem_of_disj_union. left. apply elem_of_list_to_set_disj.
  by apply (list_elem_of_fmap_2 hcmem).
Qed.

Lemma made_memory inputs outputs ms ms' (e q : Z) c st : e <> 0 ->
  Forall2 made inputs ms -> Forall2 made outputs ms' ->
  fence_ok (mkClFence q e (ms ++ ms') outputs (length inputs) c st).
Proof.
  intros He Hi Ho. split; [done|]. cbn. intros j b Hj.
  destruct (Forall2_lookup_l _ _ _ _ _ Ho Hj) as (m & Hm & i & [= <-] & Hs). exists m. split; [|done].
  rewrite (Forall2_length _ _ _ Hi). rewrite lookup_app_r by lia. by rewrite Nat.add_comm, Nat.add_sub.
Qed.

Lemma launch_wp name k inputs outputs dims ms ms' s (Q : Res Z -> OpenCl -> Held -> Prop) :
  cl_inv s (total s) -> context_ s <> 0 -> kernels_ s !! name = Some k ->
  Forall2 made inputs ms -> Forall2 made outputs ms' ->
  (forall st, Q (Err st) s (total s)) ->
  (forall i s' held', cl_inv s' held' -> is_Some (fences s' !! i) -> Q (Okay i) s' held') ->
  cwp (launch (ck_kernel k) inputs outputs dims (ms ++ ms')) Q s (hset (map hcmem (ms ++ ms')) ⊎ total s).
Proof.
  intros Hi Hc Hk Hin Hout He HQ. unfold launch.
  assert (forall st, cwp (ReleaseMemory (ms ++ ms');~ DRet (Err st)) Q s (hset (map hcmem (ms ++ ms')) ⊎ total s)) as Hfail.
  { intros st. apply dwp_bind, release_memory_wp. wstep. auto. }
  pose proof (kernel_in _ _ _ Hk) as Hkin. pose proof (base_queue s (cl_some _ _ Hi Hc)) as Hqin.
  apply dwp_bind, set_args_wp; [set_solver|intros m Hm; by apply memory_in|]. intros [r|]; [apply Hfail|]. wstep.
  apply (wp_create _ _ _ (clEnqueueNDRangeKernel (queue_ s) (ck_kernel k) dims) CL_SUCCESS [hqueue (queue_ s); hkernel (ck_kernel k)]
           hevent (fun r => r)); [done|done|done| |..]; cbn beta.
  { apply hset_sub; [by repeat constructor; set_solver|]. set_solver. }
  - intros e Hs _. rewrite (proj2 (Z.eqb_neq _ _) Hs). cbn [negb]. apply Hfail.
  - intros e Hs He0. rewrite (proj2 (Z.eqb_eq _ _) Hs). cbn [negb].
    wcall [] _; [eapply step_use; [done|done|apply hset_one; set_solver]|].
    wcall [] _; [apply (step_take _ _ _ _ [hqueue (queue_ s)] [hqueue (queue_ s)]); [done|done|apply hset_one; set_solver]|].
    set (f := mkClFence _ _ _ _ _ _ _).
    replace (hset [hqueue (queue_ s)] ⊎ _) with (hset (fence_handles f) ⊎ total s).
    2:{ unfold fence_handles, f. cbn [of_event of_memory of_queue]. rewrite (hset_cons (hevent _)), hset_app.
        generalize (hset (map hcmem (ms ++ ms'))) (hset [hevent e.2]) (hset [hqueue (queue_ s)]) (total s). multiset_solver. }
    apply dwp_bind. unfold wp at 1. cbn. apply HQ; [|cbn; rewrite lookup_insert_eq; eauto].
    apply inv_fence; [done|]. by apply made_memory.
Qed.

Lemma start_wp name inputs outputs dims s held (Q : Res Z -> OpenCl -> Held -> Prop) :
  cl_inv s held ->
  (forall r s' held', cl_inv s' held' -> (forall i, r = Okay i -> is_Some (fences s' !! i)) -> Q r s' held') ->
  cwp (start name inputs outputs dims) Q s held.
Proof.
  intros Hi0 HQ. unfold start. destruct (_ || _); [wstep; by apply HQ|].
  apply dwp_bind, init_wp; [done|]. intros st s1 held1 Hi _ Hok. clear s held Hi0. rename s1 into s, held1 into held.
  destruct (ok st); cbn [negb]; [specialize (Hok eq_refl)|wstep; by apply HQ]. wstep.
  destruct (kernels_ s !! name) as [k|] eqn:Hk; [|wstep; by apply HQ]. wstep.
  pose proof (base_context s Hok) as Hctx. pose proof (cl_held _ _ Hi). subst held.
  assert (forall st, Q (Err st) s (total s)) as He by (intros; by apply HQ).
  apply dwp_bind. rewrite <- (gmultiset_disj_union_left_id (total s)). change ∅ with (hset (map hcmem [])).
  apply (make_memory_wp _ (context_ s)); [intros; by apply copy_input_wp|done|intros; wstep; auto|].
  intros ms Hms. cbn [app]. apply dwp_bind, (make_memory_wp _ (context_ s)); [intros; by apply make_output_wp|done|intros; wstep; auto|].
  intros ms' Hms'. eapply launch_wp; eauto. intros i s' held' Hi' Hf. apply HQ; [done|]. by intros ? [= <-].
Qed.
(** ** Waiting *)

Lemma poll_event_wp n e start_ms timeout_ms s held (Q : option (Status * bool) -> OpenCl -> Held -> Prop) :
  hevent e ∈ held -> (forall r, Q r s held) -> cwp (poll_event n e start_ms timeout_ms) Q s held.
Proof.
  intros He HQ. induction n as [|n IH]; cbn [poll_event]; [wstep; auto|].
  wcall r _; [eapply step_use; [done|done|by apply hset_one]|].
  destruct (negb _); [wstep; auto|]. destruct (_ =? _); [wstep; auto|]. destruct (_ <? 0); [wstep; auto|].
  assert (forall now, cwp (if (0 <=? timeout_ms) && (timeout_ms <=? now - start_ms)
      then DRet (Some (Unavailable "OpenCL fence wait timed out", false)) else
      ccall ClSleep;~ poll_event n e start_ms timeout_ms) Q s held) as Hrest.
  { intros now. destruct (_ && _); [wstep; auto|]. wcall [] _; [by apply step_none|]. done. }
  apply dwp_bind. destruct (0 <=? timeout_ms); [|wstep; apply Hrest]. wcall now _; [by apply step_none|]. apply Hrest.
Qed.

Lemma copy_output_wp q memory n x s held (Q : option Status -> OpenCl -> Held -> Prop) :
  hqueue q ∈ held -> (forall m, m ∈ memory -> hcmem m ∈ held) ->
  (forall b, x.2 = Some b -> exists m, memory !! (n + x.1)%nat = Some m /\ cm_size m = buf_size b) ->
  (forall r, Q r s held) -> cwp (copy_output q memory n x) Q s held.
Proof.
  intros Hq Hm Hx HQ. unfold copy_output. destruct x.2 as [b|]; [|wstep; auto].
  destruct (Hx b eq_refl) as (m & Hlk & Hsz). rewrite Hlk. apply list_elem_of_lookup_2, Hm in Hlk.
  wcall st1 _; [apply cl_buf_step, account_begin|]. destruct (ok st1); cbn [negb]; [|wstep; auto].
  wcall y _; [apply cl_buf_step, account_map|]. destruct y; cbn [negb].
  2:{ wcall st2 _; [apply cl_buf_step, account_end|]. wstep. auto. }
  wcall r _.
  { eapply step_use; [|done|].
    - cbn [cl_guard]. rewrite Hsz, Z.leb_refl. done.
    - apply hset_sub; [by repeat constructor; set_solver|]. set_solver. }
  wcall [] _; [apply cl_buf_step, account_unmap|]. wcall st2 _; [apply cl_buf_step, account_end|].
  destruct (negb (ok st2)); [wstep; auto|]. destruct (negb _); wstep; auto.
Qed.

Lemma fence_held f x s i : fences s !! i = Some f -> x ∈ fence_handles f -> x ∈ total s.
Proof.
  intros Hi Hx. unfold total. rewrite !gmultiset_elem_of_disj_union. right. eapply hsum_in; eauto.
Qed.

(** A wait changes only what the fence has found out. *)
Lemma inv_update i f f' s held : cl_inv s held -> fences s !! i = Some f ->
  fence_handles f' = fence_handles f -> fence_ok f' -> cl_inv (set_fences (<[i := f']> (fences s)) s) held.
Proof.
  intros [Hh Hn Hs Hf Hid] Hi He Hok. split; cbn [context_ queue_ kernels_ fences next_id set_fences]; try done.
  - rewrite Hh. unfold total. cbn [fences kernels_ set_fences]. by rewrite (hsum_update fence_handles _ _ _ _ Hi He).
  - intros j g [[_ <-]|[_ Hj]]%lookup_insert_Some; [done|eauto].
  - intros j [g [[<- _]|[_ Hj]]%lookup_insert_Some]; eauto.
Qed.

Lemma cl_wait_wp i t f s held (Q : Status -> OpenCl -> Held -> Prop) :
  cl_inv s held -> fences s !! i = Some f -> (forall st s' held', cl_inv s' held' -> Q st s' held') ->
  cwp (Wait fuel i t) Q s held.
Proof.
  intros Hi Hf HQ. unfold Wait. wstep. rewrite Hf. destruct (of_completed f); [wstep; by apply HQ|].
  assert (forall x, x ∈ fence_handles f -> x ∈ held) as Hin
    by (intros x Hx; rewrite (cl_held _ _ Hi); by eapply fence_held).
  destruct (cl_fences _ _ Hi _ _ Hf) as [He0 Hout].
  assert (forall f', fence_handles f' = fence_handles f -> fence_ok f' -> forall st,
            cwp (update_fence i f';~ DRet st) Q s held) as Hupd.
  { intros f' Hh Hok st. unfold update_fence. repeat wstep. apply HQ. by eapply inv_update. }
  wcall now _; [by apply step_none|]. apply dwp_bind, poll_event_wp; [apply Hin; by left|]. intros [[st [|]]|].
  - by apply Hupd.
  - repeat wstep. by apply HQ.
  - eapply dwp_seq.
    + apply (wp_dfor _ _ _ _ (fun l s' held' => s' = s /\ held' = held /\ forall x, x ∈ l -> of_outputs f !! x.1 = Some x.2)
              (fun _ s' held' => s' = s /\ held' = held)).
      * split_and!; [done|done|]. intros x Hx. apply list_elem_of_lookup in Hx as [j Hj].
        apply list_lookup_imap_Some in Hj as (b & Hj & ->). done.
      * intros x l s' held' (-> & -> & Hl). apply copy_output_wp.
        -- apply Hin. unfold fence_handles. set_solver.
        -- intros m Hm. apply Hin. unfold fence_handles. right. apply elem_of_app. left. by apply (list_elem_of_fmap_2 hcmem).
        -- intros b Hb. apply Hout. rewrite <- Hb. apply Hl. by left.
        -- intros [st|]; split_and!; try done. intros y Hy. apply Hl. by right.
      * intros s' held' (-> & -> & _). done.
    + intros [st|] s' held' [-> ->]; by apply Hupd.
Qed.

Lemma cl_destroy_wp i s held (Q : unit -> OpenCl -> Held -> Prop) :
  cl_inv s held -> (forall s' held', cl_inv s' held' -> Q tt s' held') -> cwp (DestroyFence i) Q s held.
Proof.
  intros Hi HQ. unfold DestroyFence. wstep. destruct (fences s !! i) as [f|] eqn:Hf; [|wstep; by apply HQ]. wstep.
  destruct (cl_fences _ _ Hi _ _ Hf) as [He0 _]. rewrite (proj2 (Z.eqb_neq _ _) He0).
  set (s' := set_fences (delete i (fences s)) s).
  assert (cl_inv s' (total s')) as Hi'.
  { destruct Hi as [Hh Hn Hs Hfs Hid]. split; cbn [context_ queue_ kernels_ fences next_id set_fences s']; try done.
    - intros j g [_ Hj]%lookup_delete_Some. eauto.
    - intros j [g [_ Hj]%lookup_delete_Some]. eauto. }
  assert (held = hset [hevent (of_event f)] ⊎ (hset (map hcmem (of_memory f)) ⊎ (hset [hqueue (of_queue f)] ⊎ total s'))) as ->.
  { rewrite (cl_held _ _ Hi). unfold total. rewrite (hsum_delete fence_handles _ _ _ Hf).
    unfold fence_handles at 1. rewrite hset_cons, hset_app. unfold s'. cbn [fences set_fences kernels_].
    change (base_handles (set_fences _ s)) with (base_handles s).
    generalize (hset [hevent (of_event f)]) (hset (map hcmem (of_memory f))) (hset [hqueue (of_queue f)])
      (hset (base_handles s)) (hsum kernel_handles (kernels_ s)) (hsum fence_handles (delete i (fences s))).
    clear. multiset_solver. }
  wcall [] _; [by apply step_give|]. apply dwp_bind, release_memory_wp. wcall [] _; [by apply step_give|]. by apply HQ.
Qed.

(** ** Closing *)

Lemma release_kernels_wp ks rest s (Q : unit -> OpenCl -> Held -> Prop) :
  Q tt s rest -> cwp (deach ks release_kernel) Q s (hset (concat (map kernel_handles ks)) ⊎ rest).
Proof.
  intros HQ. induction ks as [|k ks IH]; cbn [deach map concat].
  - wstep. by rewrite gmultiset_disj_union_left_id.
  - rewrite hset_app, <- gmultiset_disj_union_assoc. apply dwp_bind, release_kernel_wp. apply IH.
Qed.

Lemma cl_close_wp s held (Q : unit -> OpenCl -> Held -> Prop) :
  cl_inv s held -> (forall s' held', cl_inv s' held' -> Q tt s' held') -> cwp Close Q s held.
Proof.
  intros Hi HQ. unfold Close. wstep. pose proof Hi as [Hh Hn Hs Hf Hid].
  assert (cl_inv (closed s) (hsum fence_handles (fences s))) as Hi'.
  { split; cbn [context_ queue_ kernels_ fences next_id closed]; try done.
    unfold total. change (hset (base_handles _)) with (∅ : Held). change (hsum kernel_handles _) with (∅ : Held).
    by rewrite !gmultiset_disj_union_left_id. }
  assert (held = hset (concat (map kernel_handles (map_to_list (kernels_ s)).*2)) ⊎
            (hset (created (queue_ s) (hqueue (queue_ s))) ⊎ (hset (created (context_ s) (hctx (context_ s))) ⊎
              hsum fence_handles (fences s)))) as ->.
  { rewrite Hh. unfold total, base_handles. rewrite hset_app, (hsum_list kernel_handles).
    generalize (hset (created (queue_ s) (hqueue (queue_ s)))) (hset (created (context_ s) (hctx (context_ s))))
      (hset (concat (map kernel_handles (map_to_list (kernels_ s)).*2))) (hsum fence_handles (fences s)).
    clear. multiset_solver. }
  apply dwp_bind, release_kernels_wp. wstep.
  assert (cwp (c <~ dget context_; (if c =? 0 then DRet tt else ccall (clReleaseContext c));~ dset closed) Q s
            (hset (created (context_ s) (hctx (context_ s))) ⊎ hsum fence_handles (fences s))) as Hctx.
  { wstep. apply dwp_bind. unfold created. destruct (context_ s =? 0).
    - wstep. change (hset []) with (∅ : Held). rewrite gmultiset_disj_union_left_id. wstep. by apply HQ.
    - wcall [] _; [by apply step_give|]. wstep. by apply HQ. }
  apply dwp_bind. unfold created at 1. destruct (queue_ s =? 0).
  - wstep. change (hset []) with (∅ : Held). rewrite gmultiset_disj_union_left_id. exact Hctx.
  - wcall [] _; [by apply step_give|]. exact Hctx.
Qed.

(** ** Every operation *)

(** A fence can be waited for and dropped while it exists. *)
Inductive ClOp :=
| CCompile (config : OpenClKernelConfig)
| CRun (name : string) (inputs outputs : list BufferPtr) (dims : list Z) (fence : bool)
| CWait (fence timeout_ms : Z)
| CDestroyFence (fence : Z)
| CClose.

Definition cl_op (op : ClOp) : CProg unit :=
  match op with
  | CCompile config => Compile config;~ DRet tt
  | CRun name inputs outputs dims fence => Run fuel name inputs outputs dims fence;~ DRet tt
  | CWait i t =>
      f <~ dget (fun s => fences s !! i);
      match f with None => DRet tt | Some _ => Wait fuel i t;~ DRet tt end
  | CDestroyFence i => DestroyFence i
  | CClose => Close
  end.

Lemma run_wp name inputs outputs dims fence s held (Q : Status * option Z -> OpenCl -> Held -> Prop) :
  cl_inv s held -> (forall r s' held', cl_inv s' held' -> Q r s' held') ->
  cwp (Run fuel name inputs outputs dims fence) Q s held.
Proof.
  intros Hi HQ. unfold Run. apply dwp_bind, start_wp; [done|]. intros [i|st] s' held' Hi' Hf; [|wstep; by apply HQ].
  destruct fence; [wstep; by apply HQ|]. destruct (Hf i eq_refl) as [f Hif].
  eapply dwp_bind, cl_wait_wp; [done|done|]. intros st s2 held2 Hi2. apply dwp_bind, cl_destroy_wp; [done|].
  intros s3 held3 Hi3. wstep. by apply HQ.
Qed.

Lemma cl_op_wp op s held : cl_inv s held -> cwp (cl_op op) (fun _ s' held' => cl_inv s' held') s held.
Proof.
  intros Hi. destruct op; cbn [cl_op].
  - apply dwp_bind, compile_wp; [done|]. intros. by wstep.
  - apply dwp_bind, run_wp; [done|]. intros. by wstep.
  - wstep. destruct (fences s !! fence) as [f|] eqn:Hf; [|by wstep].
    eapply dwp_bind, cl_wait_wp; [done|done|]. intros. by wstep.
  - by apply cl_destroy_wp.
  - by apply cl_close_wp.
Qed.

Lemma cl_ops_wp ops s held : cl_inv s held -> cwp (deach ops cl_op) (fun _ s' held' => cl_inv s' held') s held.
Proof.
  intros Hi. eapply (wp_deach _ _ ops cl_op (fun _ s held => cl_inv s held)); [done|].
  intros op l s' held'. apply cl_op_wp.
Qed.
End safety.

Abbreviation cl_gstep := (handle_step cl_effect cl_guard).

(** C18: Kernels run on objects that are alive, and their results fit.  Take any sequence of
    compilations, runs with and without a fence, waits, destructions of fences and closings, against
    any OpenCL library and any buffers, with arbitrary failures: no context, queue, program, kernel,
    event, memory object or mapping is used or released unless it is held, none is released twice
    or lost, and every copy between a buffer and the device stays inside both.  At the end exactly
    the objects of the backend, of its compiled kernels and of the fences are held; a fence has
    its event, its memory and its queue even if the backend was closed meanwhile; and a closed
    backend without fences holds nothing. *)
Theorem opencl_backend_safe {E} {CL : ClLib} {BH : BufferHeap} (dev : Device ClAns E) e fuel ops :
  let '(r, s, e', evs) := drun dev (deach ops (cl_op fuel)) new_opencl e in
  documented cl_gstep cl_allowed evs ∅ ->
  r = Some tt /\ gsteps cl_gstep evs ∅ = Some (total s) /\
  (forall i f x, fences s !! i = Some f -> x ∈ fence_handles f -> x ∈ total s) /\
  (context_ s = 0 -> total s = hsum fence_handles (fences s)) /\
  (context_ s = 0 -> fences s = ∅ -> total s = ∅).
Proof.
  destruct (drun dev (deach ops (cl_op fuel)) new_opencl e) as [[[r s] e'] evs] eqn:Er. intros Hd.
  assert (cl_inv new_opencl ∅) as H0.
  { split; cbn; try done. by intros i [? ?]. }
  destruct (wp_sound _ _ _ _ _ _ _ _ _ _ _ _ (cl_ops_wp fuel ops _ _ H0) Er Hd) as ([] & held & -> & Hg & Hi).
  pose proof Hi as [Hh Hn _ _ _]. subst held.
  assert (context_ s = 0 -> total s = hsum fence_handles (fences s)) as Hc.
  { intros Hc. destruct (Hn Hc) as [Hq Hk]. unfold total, base_handles. rewrite Hc, Hq, Hk.
    change (hset _) with (∅ : Held). change (hsum kernel_handles ∅) with (∅ : Held). multiset_solver. }
  split_and!; try done.
  - intros i f x. apply fence_held.
  - intros H1 H2. rewrite (Hc H1), H2. done.
Qed.

#[local] Instance cl_allowed_dec {CL : ClLib} g ev : Decision (cl_allowed g ev).
Proof. destruct ev as [c a]; destruct c; cbn; apply _. Defined.

(** A library that works. *)
#[local] Instance demo_cl : ClLib := {| CL_SUCCESS := 0; CL_COMPLETE := 0 |}.
#[local] Instance demo_buffers : BufferHeap := {| buf_size := fun _ => 64; buf_planes := fun _ => [] |}.

Definition demo_opencl : Device ClAns Z := fun c n =>
  (match c return ClAns c with
   | clGetPlatformCount => (0, 1)
   | clGetPlatformIDs _ => (0, [n])
   | clGetDeviceIDs _ | clCreateContext _ | clCreateCommandQueue _ _ | clCreateProgramWithSource _ _
   | clCreateKernel _ _ | clCreateInputBuffer _ _ _ | clCreateOutputBuffer _ _
   | clEnqueueNDRangeKernel _ _ _ => (0, n)
   | clBuildProgram _ _ _ | clBuildLogSize _ _ | clSetKernelArg _ _ _ | clEnqueueReadBuffer _ _ _ _ => 0
   | clBuildLog _ _ _ => ""
   | clGetEventInfo _ => (0, if n <? 40 then 1 else 0)
   | clFlush _ | clRetainCommandQueue _ | clReleaseEvent _ | clReleaseMemObject _ | clReleaseKernel _
   | clReleaseProgram _ | clReleaseCommandQueue _ | clReleaseContext _ | ClSleep => tt
   | ClNow => n
   | CBuf (BufFence _) => false
   | CBuf (BufFenceWait _) | CBuf (BufBegin _ _) | CBuf (BufEnd _ _) => Ok
   | CBuf (BufMap _ _) => true
   | CBuf (BufUnmap _) => tt
   | CBuf (BufNewHost _) => n
   end, n + 1).

(** The backend is closed while the kernel runs, then the results are fetched. *)
Definition demo_kernel : list ClOp :=
  [CCompile (mkKernelConfig "add" "kernel void add() {}" ""); CRun "add" [Some 1] [Some 2] [16] true; CClose;
   CWait 0 (-1); CDestroyFence 0].

Lemma opencl_backend_safe_witness :
  let '(r, s, _, evs) := drun demo_opencl (deach demo_kernel (cl_op 20)) new_opencl 1 in
  r = Some tt /\ context_ s = 0 /\ total s = ∅ /\
  existsb (fun ev => match ev_cmd ev with clEnqueueReadBuffer _ _ _ _ => true | _ => false end) evs = true.
Proof.
  pose proof (opencl_backend_safe demo_opencl 1 20 demo_kernel) as H.
  destruct (drun demo_opencl (deach demo_kernel (cl_op 20)) new_opencl 1) as [[[r s] e'] evs] eqn:Er.
  assert (s = (drun demo_opencl (deach demo_kernel (cl_op 20)) new_opencl 1).1.1.2 /\
          evs = (drun demo_opencl (deach demo_kernel (cl_op 20)) new_opencl 1).2) as [Hs He]
    by (rewrite Er; split; reflexivity).
  destruct H as (-> & _ & _ & _ & Hf).
  { refine (documentedb_sound cl_gstep cl_allowed evs _ _). rewrite He. vm_compute. reflexivity. }
  split_and!; [done|rewrite Hs; vm_compute; reflexivity| |rewrite He; vm_compute; reflexivity].
  apply Hf; rewrite Hs; vm_compute; reflexivity.
Defined.
