(* ===== verification/MppBackend.v ===== *)
(** * The MPP backends

    [src/modules/rockchip/mpp/backend.cpp]: hardware decoder and encoder.  A decoded frame leaves
    the decoder as an [MppFrameBuffer], which owns the frame and a reference to its memory and
    lives until the last packet that carries it is gone; the encoder takes such a buffer as it is
    and imports any other one by its descriptor.

    [Mpp] is one decoder and one encoder, with the frame buffers that are alive.  The MPP library
    and the buffers are the outside ([MppCmd]).  The table of functions [api_] comes and goes with
    the context and is not kept.

    [mpp_backend_safe]: contexts, groups, packets, frames and references to memory are used while
    they are alive and released once. *)

From S2P Require Import Prelude Status Timestamp Values Buffer Contract Node Device Backends ModuleNodes.
From stdpp Require Import list gmultiset pretty.
Local Open Scope rkavp_scope.
Local Open Scope Z_scope.

(** ** The library *)

Class MppLib := {
  MPP_OK : Z;
  MPP_VIDEO_CodingUnused : Z; MPP_VIDEO_CodingAVC : Z; MPP_VIDEO_CodingHEVC : Z; MPP_VIDEO_CodingMJPEG : Z;
  MPP_FMT_YUV420SP : Z; MPP_FMT_YUV420SP_VU : Z; MPP_FMT_YUV422_YUYV : Z; MPP_FMT_RGB888 : Z;
  MPP_FMT_RGBA8888 : Z; MPP_FRAME_FMT_MASK : Z;
  MPP_ENC_RC_MODE_CBR : Z; MPP_ENC_RC_MODE_VBR : Z; MPP_ENC_RC_MODE_FIXQP : Z; MPP_ENC_RC_MODE_AVBR : Z;
  MPP_ENC_RC_MODE_SMTRC : Z; MPP_ENC_RC_MODE_SE : Z }.

Inductive MppCtxType := MPP_CTX_DEC | MPP_CTX_ENC.

(** What is read from a frame, and what is written to it. *)
Inductive FrameField :=
| FInfoChange | FBufSize | FEos | FBuffer | FPts | FWidth | FHeight | FHorStride | FVerStride | FFmt.

(** A packet with the buffer whose mapping it refers to. *)
Record mpp_packet := mkMppPacket { mp_id : Z; mp_data : option Z }.

(** The requests of [MppApi::control], with the object they pass. *)
Inductive MpiCmd :=
| MPP_SET_OUTPUT_TIMEOUT
| MPP_DEC_SET_EXT_BUF_GROUP (group : Z)
| MPP_DEC_SET_INFO_CHANGE_READY
| MPP_ENC_SET_CFG (cfg : Z)
| MPP_ENC_SET_IDR_FRAME.

(** Objects are numbers, 0 is null.  [mpp_frame_init] is told whether the frame is the one that ends
    the stream, and [mpp_buffer_inc_ref] the frame that the buffer belongs to: the library does not
    need it, what is said about the calls does. *)
Inductive MppCmd :=
| mpp_create
| mpp_init (ctx : Z) (type : MppCtxType) (coding : Z)
| mpp_destroy (ctx : Z)
| control (ctx : Z) (c : MpiCmd)
| mpp_buffer_group_get_external
| mpp_buffer_group_limit_config (group size count : Z)
| mpp_buffer_group_put (group : Z)
| mpp_packet_init (data : option Z) (size : Z)
| mpp_packet_set_pts (p : mpp_packet) (pts : Z)
| mpp_packet_set_eos (p : mpp_packet)
| mpp_packet_deinit (p : mpp_packet)
| decode_put_packet (ctx : Z) (p : mpp_packet)
| decode_get_frame (ctx : Z)
| mpp_frame_init (eos : bool)
| mpp_frame_get (f : FrameField) (frame : Z)
| mpp_frame_set (f : FrameField) (frame value : Z)
| mpp_frame_deinit (frame : Z)
| mpp_buffer_inc_ref (frame buffer : Z)
| mpp_buffer_get_fd (buffer : Z)
| mpp_buffer_get_size (buffer : Z)
| mpp_buffer_get_ptr (buffer : Z)
| mpp_buffer_import (fd size : Z)
| mpp_buffer_put (buffer : Z)
| mpp_enc_cfg_init
| mpp_enc_cfg_set_s32 (cfg : Z) (key : string) (value : Z)
| mpp_enc_cfg_deinit (cfg : Z)
| encode_put_frame (ctx frame : Z)
| encode_get_packet (ctx : Z)
| mpp_packet_get_length (p : mpp_packet)
| mpp_packet_get_eos (p : mpp_packet)
| mpp_packet_get_pts (p : mpp_packet)
| CopyPacket (p : mpp_packet) (size : Z)
| MBuf (c : BufCmd).

(** Creations answer the result and the object. *)
Definition MppAns (c : MppCmd) : Type :=
  match c with
  | mpp_create | mpp_buffer_group_get_external | mpp_packet_init _ _ | decode_get_frame _
  | mpp_frame_init _ | mpp_buffer_import _ _ | mpp_enc_cfg_init | encode_get_packet _ => Z * Z
  | mpp_init _ _ _ | control _ _ | decode_put_packet _ _ | encode_put_frame _ _ => Z
  | mpp_frame_get _ _ | mpp_buffer_get_fd _ | mpp_buffer_get_size _ | mpp_buffer_get_ptr _
  | mpp_packet_get_length _ | mpp_packet_get_eos _ | mpp_packet_get_pts _ => Z
  | mpp_destroy _ | mpp_buffer_group_limit_config _ _ _ | mpp_buffer_group_put _ | mpp_packet_set_pts _ _
  | mpp_packet_set_eos _ | mpp_packet_deinit _ | mpp_frame_set _ _ _ | mpp_frame_deinit _
  | mpp_buffer_inc_ref _ _ | mpp_buffer_put _ | mpp_enc_cfg_set_s32 _ _ _ | mpp_enc_cfg_deinit _
  | CopyPacket _ _ => unit
  | MBuf c => BufAns c
  end.

(** ** The objects *)

(* [src/modules/rockchip/mpp/backend.cpp:116-118] MppFrameBuffer (fields) *)
Record MppFrameBuffer := mkFrameBuffer { fb_frame : Z; fb_buffer : Z; fb_planes : list BufferPlane }.

(* [src/modules/rockchip/mpp/backend.cpp:230-234] MppDecoderBackend (fields) *)
Record MppDecoder := mkDecoder {
  d_context : Z; d_group : Z; d_config : MppDecoderConfig; d_sequence : Z }.

(* [src/modules/rockchip/mpp/backend.cpp:370-372] MppEncoderBackend (fields) *)
Record MppEncoder := mkEncoder { e_context : Z; e_config : MppEncoderConfig }.

Record Mpp := mkMpp {
  decoder : MppDecoder;
  encoder : MppEncoder;
  frame_buffers : gmap Z MppFrameBuffer;
  next_id : Z }.
Definition new_mpp : Mpp :=
  mkMpp (mkDecoder 0 0 default_decoder_config 0) (mkEncoder 0 default_encoder_config) ∅ 0.

Definition set_decoder (d : MppDecoder) (s : Mpp) : Mpp := mkMpp d (encoder s) (frame_buffers s) (next_id s).
Definition set_encoder (e : MppEncoder) (s : Mpp) : Mpp := mkMpp (decoder s) e (frame_buffers s) (next_id s).
Definition set_buffers (m : gmap Z MppFrameBuffer) (s : Mpp) : Mpp := mkMpp (decoder s) (encoder s) m (next_id s).
Definition set_d_context (c : Z) (s : Mpp) : Mpp :=
  set_decoder (mkDecoder c (d_group (decoder s)) (d_config (decoder s)) (d_sequence (decoder s))) s.
Definition set_d_group (g : Z) (s : Mpp) : Mpp :=
  set_decoder (mkDecoder (d_context (decoder s)) g (d_config (decoder s)) (d_sequence (decoder s))) s.
Definition set_d_config (c : MppDecoderConfig) (s : Mpp) : Mpp :=
  set_decoder (mkDecoder (d_context (decoder s)) (d_group (decoder s)) c (d_sequence (decoder s))) s.
Definition set_e_context (c : Z) (s : Mpp) : Mpp := set_encoder (mkEncoder c (e_config (encoder s))) s.
Definition set_e_config (c : MppEncoderConfig) (s : Mpp) : Mpp := set_encoder (mkEncoder (e_context (encoder s)) c) s.

(** [sequence_++] *)
Definition next_sequence (s : Mpp) : Z * Mpp :=
  let d := decoder s in
  (d_sequence d, set_decoder (mkDecoder (d_context d) (d_group d) (d_config d) (u64 (d_sequence d + 1))) s).

(** [std::make_shared<MppFrameBuffer>] *)
Definition add_buffer (b : MppFrameBuffer) (s : Mpp) : Z * Mpp :=
  (next_id s, mkMpp (decoder s) (encoder s) (<[next_id s := b]> (frame_buffers s)) (next_id s + 1)).

Abbreviation MProg := (dprog MppAns Mpp).
Abbreviation mcall := (dcall (Ans := MppAns) (S := Mpp)).

Section backend.
Context {ML : MppLib} {BH : BufferHeap}.

(* [src/modules/rockchip/mpp/backend.cpp:16-21] CodingType *)
Definition CodingType (codec : string) : Z :=
  if bool_decide (codec = "h264") || bool_decide (codec = "avc") then MPP_VIDEO_CodingAVC
  else if bool_decide (codec = "h265") || bool_decide (codec = "hevc") then MPP_VIDEO_CodingHEVC
  else if bool_decide (codec = "mjpeg") || bool_decide (codec = "jpeg") then MPP_VIDEO_CodingMJPEG
  else MPP_VIDEO_CodingUnused.

(* [src/modules/rockchip/mpp/backend.cpp:23-30] FrameFormat *)
Definition FrameFormat (format : string) : Z :=
  if bool_decide (format = "nv12") then MPP_FMT_YUV420SP
  else if bool_decide (format = "nv21") then MPP_FMT_YUV420SP_VU
  else if bool_decide (format = "yuyv") then MPP_FMT_YUV422_YUYV
  else if bool_decide (format = "rgb888") then MPP_FMT_RGB888
  else if bool_decide (format = "rgba8888") then MPP_FMT_RGBA8888
  else MPP_FMT_YUV420SP.

(* [src/modules/rockchip/mpp/backend.cpp:32-49] RateControlMode *)
Definition RateControlMode (name : string) : Res Z :=
  if bool_decide (name = "cbr") then Okay MPP_ENC_RC_MODE_CBR
  else if bool_decide (name = "vbr") then Okay MPP_ENC_RC_MODE_VBR
  else if bool_decide (name = "fixqp") then Okay MPP_ENC_RC_MODE_FIXQP
  else if bool_decide (name = "avbr") then Okay MPP_ENC_RC_MODE_AVBR
  else if bool_decide (name = "smtrc") then Okay MPP_ENC_RC_MODE_SMTRC
  else if bool_decide (name = "se") then Okay MPP_ENC_RC_MODE_SE
  else Err (Invalid ("unsupported MPP rate_control: " +:+ name)).

(** The profile of the caller stays 0 when no name is given. *)
(* [src/modules/rockchip/mpp/backend.cpp:51-71] ProfileValue *)
Definition ProfileValue (coding : Z) (name : string) : Res Z :=
  if bool_decide (name = "") then Okay 0
  else if coding =? MPP_VIDEO_CodingAVC then
    if bool_decide (name = "baseline") then Okay 66
    else if bool_decide (name = "main") then Okay 77
    else if bool_decide (name = "high") then Okay 100
    else Err (Invalid "H.264 profile must be baseline, main, or high")
  else if coding =? MPP_VIDEO_CodingHEVC then
    if negb (bool_decide (name = "main")) then Err (Invalid "H.265 profile must be main") else Okay 1
  else Err (Invalid "profile is only supported for H.264 and H.265").

(* [src/modules/rockchip/mpp/backend.cpp:73-88] FrameFormatName *)
Definition FrameFormatName (format : Z) : string :=
  let f := Z.land format MPP_FRAME_FMT_MASK in
  if f =? MPP_FMT_YUV420SP then "nv12"
  else if f =? MPP_FMT_YUV420SP_VU then "nv21"
  else if f =? MPP_FMT_YUV422_YUYV then "yuyv"
  else if f =? MPP_FMT_RGB888 then "rgb888"
  else if f =? MPP_FMT_RGBA8888 then "rgba8888"
  else "unknown".

(** ** Frame buffers *)

(* [src/modules/rockchip/mpp/backend.cpp:92-100] MppFrameBuffer::MppFrameBuffer *)
Definition NewFrameBuffer (frame : Z) : MProg Z :=
  b <~ mcall (mpp_frame_get FBuffer frame);
  fb <~ (if b =? 0 then DRet (mkFrameBuffer frame 0 []) else
         mcall (mpp_buffer_inc_ref frame b);~
         fd <~ mcall (mpp_buffer_get_fd b);
         size <~ mcall (mpp_buffer_get_size b);
         stride <~ mcall (mpp_frame_get FHorStride frame);
         DRet (mkFrameBuffer frame b [mkPlane fd 0 size (u64 stride) 1 0]));
  DLocal (add_buffer fb) DRet.

(** The last reference to the buffer is gone. *)
(* [src/modules/rockchip/mpp/backend.cpp:101-104] MppFrameBuffer::~MppFrameBuffer *)
Definition DestroyFrameBuffer (i : Z) : MProg unit :=
  fb <~ dget (fun s => frame_buffers s !! i);
  match fb with
  | None => DRet tt
  | Some fb =>
      dset (fun s => set_buffers (delete i (frame_buffers s)) s);~
      (if fb_buffer fb =? 0 then DRet tt else mcall (mpp_buffer_put (fb_buffer fb)));~
      (if fb_frame fb =? 0 then DRet tt else mcall (mpp_frame_deinit (fb_frame fb)))
  end.

(* [src/modules/rockchip/mpp/backend.cpp:106-108] MppFrameBuffer::size *)
Definition FrameBufferSize (fb : MppFrameBuffer) : MProg Z :=
  if fb_buffer fb =? 0 then DRet 0 else mcall (mpp_buffer_get_size (fb_buffer fb)).
(* [src/modules/rockchip/mpp/backend.cpp:110-112] MppFrameBuffer::Map *)
Definition FrameBufferMap (fb : MppFrameBuffer) : MProg Z :=
  if fb_buffer fb =? 0 then DRet 0 else mcall (mpp_buffer_get_ptr (fb_buffer fb)).

(** ** Decoder *)

(* [src/modules/rockchip/mpp/backend.cpp:221-227] MppDecoderBackend::Close *)
Definition DecoderClose : MProg unit :=
  c <~ dget (fun s => d_context (decoder s));
  (if c =? 0 then DRet tt else mcall (mpp_destroy c));~
  dset (set_d_context 0);~
  g <~ dget (fun s => d_group (decoder s));
  (if g =? 0 then DRet tt else mcall (mpp_buffer_group_put g));~
  dset (set_d_group 0).

(** [mpp_create(...) != MPP_OK || mpp_init(...) != MPP_OK], negated. *)
Definition create_context (set : Z -> Mpp -> Mpp) (type : MppCtxType) (coding : Z) : MProg bool :=
  r <~ mcall mpp_create;
  dset (set r.2);~
  if negb (r.1 =? MPP_OK) then DRet false else
  i <~ mcall (mpp_init r.2 type coding);
  DRet (i =? MPP_OK).

(* [src/modules/rockchip/mpp/backend.cpp:124-149] MppDecoderBackend::Open *)
Definition DecoderOpen (config : MppDecoderConfig) : MProg Status :=
  DecoderClose;~
  let coding := CodingType (dc_codec config) in
  if coding =? MPP_VIDEO_CodingUnused
  then DRet (Invalid ("unsupported MPP decoder codec: " +:+ dc_codec config)) else
  ok <~ create_context set_d_context MPP_CTX_DEC coding;
  if negb ok then DecoderClose;~ DRet (Unavailable "MPP decoder initialization failed") else
  c <~ dget (fun s => d_context (decoder s));
  mcall (control c MPP_SET_OUTPUT_TIMEOUT);~
  if negb (dc_external_buffer_group config) then dset (set_d_config config);~ DRet Ok else
  g <~ mcall mpp_buffer_group_get_external;
  dset (set_d_group g.2);~
  if negb (g.1 =? MPP_OK) then
    DecoderClose;~ DRet (Unavailable "MPP external buffer group creation failed")
  else
  (if (0 <? dc_width config) && (0 <? dc_height config) then
     mcall (mpp_buffer_group_limit_config g.2 (u64 (u64 (u64 (dc_width config) * dc_height config) * 3) / 2)
              (to_int (dc_buffer_count config)))
   else DRet tt);~
  mcall (control c (MPP_DEC_SET_EXT_BUF_GROUP g.2));~
  dset (set_d_config config);~
  DRet Ok.

Definition pts_or_zero (t : Timestamp) : Z := if is_range_value t then microseconds t else 0.

(* [src/modules/rockchip/mpp/backend.cpp:151-174] MppDecoderBackend::Submit *)
Definition DecoderSubmit (packet : EncodedPacket) : MProg Status :=
  c <~ dget (fun s => d_context (decoder s));
  match ep_buffer packet with
  | Some b =>
      if c =? 0 then DRet (FailedPrecondition "MPP decoder is not open or packet is empty") else
      st <~ mcall (MBuf (BufBegin b kRead));
      if negb (ok st) then DRet st else
      data <~ mcall (MBuf (BufMap b kRead));
      if negb data then
        mcall (MBuf (BufEnd b kRead));~ DRet (Invalid "encoded packet buffer is not CPU mappable")
      else
      r <~ mcall (mpp_packet_init (Some b) (buf_size b));
      if negb (r.1 =? MPP_OK) then
        mcall (MBuf (BufUnmap b));~ mcall (MBuf (BufEnd b kRead));~ DRet (Internal "mpp_packet_init failed")
      else
      let p := mkMppPacket r.2 (Some b) in
      mcall (mpp_packet_set_pts p (pts_or_zero (ep_pts packet)));~
      result <~ mcall (decode_put_packet c p);
      mcall (mpp_packet_deinit p);~
      mcall (MBuf (BufUnmap b));~
      st <~ mcall (MBuf (BufEnd b kRead));
      if negb (ok st) then DRet st
      else DRet (if result =? MPP_OK then Ok else Unavailable "MPP decoder input queue is full")
  | None => DRet (FailedPrecondition "MPP decoder is not open or packet is empty")
  end.

(** [output] is what the caller's frame holds; the caller's flag is false. *)
(* [src/modules/rockchip/mpp/backend.cpp:176-208] MppDecoderBackend::Receive *)
Definition DecoderReceive (output : VideoFrame) : MProg (Received VideoFrame) :=
  c <~ dget (fun s => d_context (decoder s));
  if c =? 0 then DRet (mkReceived (FailedPrecondition "MPP decoder is not open or output is null") output false) else
  r <~ mcall (decode_get_frame c);
  let frame := r.2 in
  if negb (r.1 =? MPP_OK) || (frame =? 0)
  then DRet (mkReceived (Unavailable "MPP decoder has no output frame") output false) else
  change <~ mcall (mpp_frame_get FInfoChange frame);
  if negb (change =? 0) then
    g <~ dget (fun s => d_group (decoder s));
    (if g =? 0 then DRet tt else
     size <~ mcall (mpp_frame_get FBufSize frame);
     count <~ dget (fun s => dc_buffer_count (d_config (decoder s)));
     mcall (mpp_buffer_group_limit_config g size (to_int count)));~
    mcall (control c MPP_DEC_SET_INFO_CHANGE_READY);~
    mcall (mpp_frame_deinit frame);~
    DRet (mkReceived (Unavailable "MPP decoder applied info change") output false)
  else
  eos <~ mcall (mpp_frame_get FEos frame);
  let end_of_stream := negb (eos =? 0) in
  b <~ mcall (mpp_frame_get FBuffer frame);
  if b =? 0 then mcall (mpp_frame_deinit frame);~ DRet (mkReceived Ok output end_of_stream) else
  pts <~ mcall (mpp_frame_get FPts frame);
  id <~ DLocal next_sequence DRet;
  width <~ mcall (mpp_frame_get FWidth frame);
  height <~ mcall (mpp_frame_get FHeight frame);
  hstride <~ mcall (mpp_frame_get FHorStride frame);
  vstride <~ mcall (mpp_frame_get FVerStride frame);
  fmt <~ mcall (mpp_frame_get FFmt frame);
  i <~ NewFrameBuffer frame;
  DRet (mkReceived Ok (mkVideoFrame id (FromMicroseconds pts) (to_int width) (to_int height) (to_int hstride)
                         (to_int vstride) (FrameFormatName fmt) (Some i)) end_of_stream).

(* [src/modules/rockchip/mpp/backend.cpp:210-219] MppDecoderBackend::Drain *)
Definition DecoderDrain : MProg Status :=
  c <~ dget (fun s => d_context (decoder s));
  if c =? 0 then DRet (FailedPrecondition "MPP decoder is not open") else
  r <~ mcall (mpp_packet_init None 0);
  if negb (r.1 =? MPP_OK) then DRet (Internal "create MPP EOS packet failed") else
  let p := mkMppPacket r.2 None in
  mcall (mpp_packet_set_eos p);~
  result <~ mcall (decode_put_packet c p);
  mcall (mpp_packet_deinit p);~
  DRet (if result =? MPP_OK then Ok else Unavailable "MPP decoder rejected EOS").

(** ** Encoder *)

(* [src/modules/rockchip/mpp/backend.cpp:363-367] MppEncoderBackend::Close *)
Definition EncoderClose : MProg unit :=
  c <~ dget (fun s => e_context (encoder s));
  (if c =? 0 then DRet tt else mcall (mpp_destroy c));~
  dset (set_e_context 0).

(** A product of type [int]; an overflow is undefined. *)
Definition int_product (a b : Z) : MProg Z :=
  if bool_decide (-2 ^ 31 <= a * b < 2 ^ 31) then DRet (a * b) else DUndefined "signed overflow".

(** The settings of [MppEncCfg], in the order of the calls. *)
Definition encoder_settings (config : MppEncoderConfig) (coding rate_control profile gop bps_min bps_max : Z)
  : list (string * Z) :=
  [("prep:width", ec_width config); ("prep:height", ec_height config);
   ("prep:hor_stride", ec_width config); ("prep:ver_stride", ec_height config);
   ("prep:format", MPP_FMT_YUV420SP);
   ("rc:fps_in_num", ec_fps config); ("rc:fps_in_denom", 1);
   ("rc:fps_out_num", ec_fps config); ("rc:fps_out_denom", 1);
   ("rc:mode", rate_control); ("rc:gop", gop); ("rc:bps_target", ec_bitrate config);
   ("rc:bps_min", bps_min); ("rc:bps_max", bps_max); ("codec:type", coding)] ++
  if bool_decide (ec_profile config = "") then []
  else if coding =? MPP_VIDEO_CodingAVC then [("h264:profile", profile)]
  else if coding =? MPP_VIDEO_CodingHEVC then [("h265:profile", profile)] else [].

(** The products are computed before the first setting. *)
(* [src/modules/rockchip/mpp/backend.cpp:240-288] MppEncoderBackend::Open *)
Definition EncoderOpen (config : MppEncoderConfig) : MProg Status :=
  EncoderClose;~
  let coding := CodingType (ec_codec config) in
  if (coding =? MPP_VIDEO_CodingUnused) || (ec_width config <=? 0) || (ec_height config <=? 0) ||
     (ec_fps config <=? 0)
  then DRet (Invalid "invalid MPP encoder configuration") else
  match RateControlMode (ec_rate_control config) with
  | Err st => DRet st
  | Okay rate_control =>
  match ProfileValue coding (ec_profile config) with
  | Err st => DRet st
  | Okay profile =>
      ok <~ create_context set_e_context MPP_CTX_ENC coding;
      if negb ok then EncoderClose;~ DRet (Unavailable "MPP encoder initialization failed") else
      c <~ dget (fun s => e_context (encoder s));
      r <~ mcall mpp_enc_cfg_init;
      if negb (r.1 =? MPP_OK) then DRet (Internal "mpp_enc_cfg_init failed") else
      gop <~ (if 0 <? ec_gop config then DRet (ec_gop config) else int_product (ec_fps config) 2);
      low <~ int_product (ec_bitrate config) 8;
      high <~ int_product (ec_bitrate config) 12;
      deach (encoder_settings config coding rate_control profile gop (Z.quot low 10) (Z.quot high 10))
        (fun x => mcall (mpp_enc_cfg_set_s32 r.2 x.1 x.2));~
      result <~ mcall (control c (MPP_ENC_SET_CFG r.2));
      mcall (mpp_enc_cfg_deinit r.2);~
      if negb (result =? MPP_OK) then EncoderClose;~ DRet (Unavailable "MPP encoder configuration failed")
      else dset (set_e_config config);~ DRet Ok
  end
  end.

(** The frame is given its memory: the MPP buffer of an [MppFrameBuffer], or an imported one,
    which is returned. *)
Definition attach_memory (frame b : Z) : MProg (Res Z) :=
  fb <~ dget (fun s => frame_buffers s !! b);
  match fb with
  | Some fb => mcall (mpp_frame_set FBuffer frame (fb_buffer fb));~ DRet (Okay 0)
  | None =>
      match buf_planes b with
      | p :: _ =>
          if pl_fd p <? 0 then DRet (Err (Invalid "MPP encoder requires MPP or DMA-BUF input")) else
          r <~ mcall (mpp_buffer_import (pl_fd p) (buf_size b));
          if negb (r.1 =? MPP_OK) then DRet (Err (Unavailable "MPP import DMA-BUF failed")) else
          mcall (mpp_frame_set FBuffer frame r.2);~ DRet (Okay r.2)
      | [] => DRet (Err (Invalid "MPP encoder requires MPP or DMA-BUF input"))
      end
  end.

(* [src/modules/rockchip/mpp/backend.cpp:290-324] MppEncoderBackend::Submit *)
Definition EncoderSubmit (input : VideoFrame) : MProg Status :=
  c <~ dget (fun s => e_context (encoder s));
  match vf_buffer input with
  | Some b =>
      if c =? 0 then DRet (FailedPrecondition "MPP encoder is not open or frame is empty") else
      r <~ mcall (mpp_frame_init false);
      if negb (r.1 =? MPP_OK) then DRet (Internal "mpp_frame_init failed") else
      let frame := r.2 in
      mcall (mpp_frame_set FWidth frame (vf_width input));~
      mcall (mpp_frame_set FHeight frame (vf_height input));~
      mcall (mpp_frame_set FHorStride frame
               (if 0 <? vf_horizontal_stride input then vf_horizontal_stride input else vf_width input));~
      mcall (mpp_frame_set FVerStride frame
               (if 0 <? vf_vertical_stride input then vf_vertical_stride input else vf_height input));~
      mcall (mpp_frame_set FFmt frame (FrameFormat (vf_format input)));~
      mcall (mpp_frame_set FPts frame (pts_or_zero (vf_pts input)));~
      imported <~ attach_memory frame b;
      match imported with
      | Err st => mcall (mpp_frame_deinit frame);~ DRet st
      | Okay imported =>
          result <~ mcall (encode_put_frame c frame);
          mcall (mpp_frame_deinit frame);~
          (if imported =? 0 then DRet tt else mcall (mpp_buffer_put imported));~
          DRet (if result =? MPP_OK then Ok else Unavailable "MPP encoder rejected frame")
      end
  | None => DRet (FailedPrecondition "MPP encoder is not open or frame is empty")
  end.

(* [src/modules/rockchip/mpp/backend.cpp:326-345] MppEncoderBackend::Receive *)
Definition EncoderReceive (output : EncodedPacket) : MProg (Received EncodedPacket) :=
  c <~ dget (fun s => e_context (encoder s));
  if c =? 0 then DRet (mkReceived (FailedPrecondition "MPP encoder is not open or output is null") output false) else
  r <~ mcall (encode_get_packet c);
  if negb (r.1 =? MPP_OK) || (r.2 =? 0)
  then DRet (mkReceived (Unavailable "MPP encoder has no output packet") output false) else
  let p := mkMppPacket r.2 None in
  length <~ mcall (mpp_packet_get_length p);
  eos <~ mcall (mpp_packet_get_eos p);
  (if length =? 0 then DRet tt else mcall (CopyPacket p length));~
  pts <~ mcall (mpp_packet_get_pts p);
  codec <~ dget (fun s => ec_codec (e_config (encoder s)));
  b <~ mcall (MBuf (BufNewHost length));
  mcall (mpp_packet_deinit p);~
  DRet (mkReceived Ok (mkEncodedPacket (FromMicroseconds pts) (FromMicroseconds pts) codec
                         (ep_key_frame output) (Some b)) (negb (eos =? 0))).

(* [src/modules/rockchip/mpp/backend.cpp:347-355] MppEncoderBackend::Drain *)
Definition EncoderDrain : MProg Status :=
  c <~ dget (fun s => e_context (encoder s));
  if c =? 0 then DRet (FailedPrecondition "MPP encoder is not open") else
  r <~ mcall (mpp_frame_init true);
  let frame := r.2 in
  mcall (mpp_frame_set FEos frame 1);~
  result <~ mcall (encode_put_frame c frame);
  mcall (mpp_frame_deinit frame);~
  DRet (if result =? MPP_OK then Ok else Unavailable "MPP encoder rejected EOS").

(* [src/modules/rockchip/mpp/backend.cpp:357-361] MppEncoderBackend::ForceKeyFrame *)
Definition EncoderForceKeyFrame : MProg Status :=
  c <~ dget (fun s => e_context (encoder s));
  if c =? 0 then DRet (Unavailable "MPP force key frame failed") else
  r <~ mcall (control c MPP_ENC_SET_IDR_FRAME);
  DRet (if r =? MPP_OK then Ok else Unavailable "MPP force key frame failed").
End backend.

(** ** What the calls need and leave *)

Definition hctx (c : Z) : Handle := ("context", c).
Definition hgroup (g : Z) : Handle := ("group", g).
Definition hframe (f : Z) : Handle := ("frame", f).
Definition hmem (b : Z) : Handle := ("memory", b).
Definition hcfg (c : Z) : Handle := ("encoder configuration", c).
Definition hpacket (p : mpp_packet) : Handle :=
  (match mp_data p with None => "packet" | Some b => "packet on " +:+ pretty b end, mp_id p).

Section safety.
Context {ML : MppLib} {BH : BufferHeap}.

(** The mapping that a packet refers to. *)
Definition data_handles (data : option Z) : list Handle :=
  match data with None => [] | Some b => [hmap b] end.
Definition control_handles (c : MpiCmd) : list Handle :=
  match c with
  | MPP_DEC_SET_EXT_BUF_GROUP g => [hgroup g]
  | MPP_ENC_SET_CFG c => [hcfg c]
  | _ => []
  end.

Definition mpp_effect (ev : devent MppAns) : Effect Handle :=
  let 'Ev c a := ev in
  match c return MppAns c -> Effect Handle with
  | mpp_create => fun r => obtaining (created r.2 (hctx r.2))
  | mpp_init ctx _ _ => fun _ => needing [hctx ctx]
  | mpp_destroy ctx => fun _ => returning [hctx ctx]
  | control ctx c => fun _ => needing (hctx ctx :: control_handles c)
  | mpp_buffer_group_get_external => fun r => obtaining (created r.2 (hgroup r.2))
  | mpp_buffer_group_limit_config g _ _ => fun _ => needing [hgroup g]
  | mpp_buffer_group_put g => fun _ => returning [hgroup g]
  | mpp_packet_init data _ => fun r =>
      mkEffect (data_handles data) [] [] (created r.2 (hpacket (mkMppPacket r.2 data)))
  | mpp_packet_set_pts p _ => fun _ => needing [hpacket p]
  | mpp_packet_set_eos p => fun _ => needing [hpacket p]
  | mpp_packet_deinit p => fun _ => returning [hpacket p]
  | decode_put_packet ctx p => fun _ => needing ([hctx ctx; hpacket p] ++ data_handles (mp_data p))
  | decode_get_frame ctx => fun r =>
      mkEffect [hctx ctx] [] [] (if r.1 =? MPP_OK then created r.2 (hframe r.2) else [])
  | mpp_frame_init _ => fun r => obtaining (created r.2 (hframe r.2))
  | mpp_frame_get _ f => fun _ => needing [hframe f]
  | mpp_frame_set FBuffer f v => fun _ => needing (hframe f :: created v (hmem v))
  | mpp_frame_set _ f _ => fun _ => needing [hframe f]
  | mpp_frame_deinit f => fun _ => returning [hframe f]
  | mpp_buffer_inc_ref f b => fun _ => mkEffect [hframe f] [] [] [hmem b]
  | mpp_buffer_get_fd b => fun _ => needing [hmem b]
  | mpp_buffer_get_size b => fun _ => needing [hmem b]
  | mpp_buffer_get_ptr b => fun _ => needing [hmem b]
  | mpp_buffer_import _ _ => fun r => obtaining (created r.2 (hmem r.2))
  | mpp_buffer_put b => fun _ => returning [hmem b]
  | mpp_enc_cfg_init => fun r => obtaining (created r.2 (hcfg r.2))
  | mpp_enc_cfg_set_s32 c _ _ => fun _ => needing [hcfg c]
  | mpp_enc_cfg_deinit c => fun _ => returning [hcfg c]
  | encode_put_frame ctx f => fun _ => needing [hctx ctx; hframe f]
  | encode_get_packet ctx => fun r =>
      mkEffect [hctx ctx] [] [] (if r.1 =? MPP_OK then created r.2 (hpacket (mkMppPacket r.2 None)) else [])
  | mpp_packet_get_length p => fun _ => needing [hpacket p]
  | mpp_packet_get_eos p => fun _ => needing [hpacket p]
  | mpp_packet_get_pts p => fun _ => needing [hpacket p]
  | CopyPacket p _ => fun _ => needing [hpacket p]
  | MBuf c => fun a => buf_effect c a
  end a.

(** A packet stays inside the buffer it refers to. *)
Definition mpp_guard (c : MppCmd) : bool :=
  match c with
  | mpp_packet_init None n => n =? 0
  | mpp_packet_init (Some b) n => n <=? buf_size b
  | _ => true
  end.

(** An object is null exactly when its creation failed; the frame that ends a stream is created. *)
Definition mpp_allowed (_ : Held) (ev : devent MppAns) : Prop :=
  let 'Ev c a := ev in
  match c return MppAns c -> Prop with
  | mpp_create => fun r => r.1 = MPP_OK <-> r.2 <> 0
  | mpp_buffer_group_get_external => fun r => r.1 = MPP_OK <-> r.2 <> 0
  | mpp_packet_init _ _ => fun r => r.1 = MPP_OK <-> r.2 <> 0
  | mpp_frame_init false => fun r => r.1 = MPP_OK <-> r.2 <> 0
  | mpp_frame_init true => fun r => r.1 = MPP_OK /\ r.2 <> 0
  | mpp_buffer_import _ _ => fun r => r.1 = MPP_OK <-> r.2 <> 0
  | mpp_enc_cfg_init => fun r => r.1 = MPP_OK <-> r.2 <> 0
  | _ => fun _ => True
  end a.

(** ** The invariant *)

Definition buffer_handles (b : MppFrameBuffer) : list Handle :=
  created (fb_buffer b) (hmem (fb_buffer b)) ++ [hframe (fb_frame b)].

(** What is held besides what the decoder, or the encoder, holds. *)
Definition beside_decoder (s : Mpp) : Held :=
  hset (created (e_context (encoder s)) (hctx (e_context (encoder s)))) ⊎ hsum buffer_handles (frame_buffers s).
Definition total (s : Mpp) : Held :=
  hset (created (d_context (decoder s)) (hctx (d_context (decoder s)))) ⊎
  (hset (created (d_group (decoder s)) (hgroup (d_group (decoder s)))) ⊎ beside_decoder s).
Definition beside_encoder (s : Mpp) : Held :=
  hset (created (d_context (decoder s)) (hctx (d_context (decoder s)))) ⊎
  (hset (created (d_group (decoder s)) (hgroup (d_group (decoder s)))) ⊎ hsum buffer_handles (frame_buffers s)).

Definition buffers_ok (m : gmap Z MppFrameBuffer) (n : Z) : Prop :=
  forall i b, m !! i = Some b -> fb_frame b <> 0 /\ i < n.
Definition mpp_inv (s : Mpp) (held : Held) : Prop :=
  held = total s /\ buffers_ok (frame_buffers s) (next_id s).

Abbreviation mpp_gstep := (handle_step mpp_effect mpp_guard).
Abbreviation mwp := (wp mpp_gstep mpp_allowed).
Implicit Types (s : Mpp) (held rest : Held).

Lemma total_encoder s :
  total s = hset (created (e_context (encoder s)) (hctx (e_context (encoder s)))) ⊎ beside_encoder s.
Proof.
  unfold total, beside_encoder, beside_decoder.
  generalize (hset (created (e_context (encoder s)) (hctx (e_context (encoder s)))))
    (hset (created (d_context (decoder s)) (hctx (d_context (decoder s)))))
    (hset (created (d_group (decoder s)) (hgroup (d_group (decoder s))))) (hsum buffer_handles (frame_buffers s)).
  clear. multiset_solver.
Qed.

Lemma held_swap (a b c : Held) : a ⊎ (b ⊎ c) = b ⊎ (a ⊎ c).
Proof. multiset_solver. Qed.

Lemma mpp_buf_step c a held held' : account (buf_effect c a) held = Some held' ->
  mpp_gstep (Ev (MBuf c) a) held = Some held'.
Proof. done. Qed.

(** A call that only uses what is held. *)
Ltac uses := eapply step_use; [done|done|cbn [control_handles data_handles mp_data app]; solve [eauto 12 with held]].
Ltac gives := by apply step_give.

(** ** Decoder *)

Lemma decoder_close_wp s rest (Q : unit -> Mpp -> Held -> Prop) :
  Q tt (set_d_group 0 (set_d_context 0 s)) rest ->
  mwp DecoderClose Q s (hset (created (d_context (decoder s)) (hctx (d_context (decoder s)))) ⊎
                        (hset (created (d_group (decoder s)) (hgroup (d_group (decoder s)))) ⊎ rest)).
Proof.
  intros HQ. unfold DecoderClose. wstep. apply dwp_bind, wp_release; [intros Q' H'; wcall [] _; [gives|done]|].
  repeat wstep. apply dwp_bind, wp_release; [intros Q' H'; wcall [] _; [gives|done]|]. wstep. done.
Qed.

Lemma create_context_wp set type coding s held (Q : bool -> Mpp -> Held -> Prop) :
  (forall b c, (b = true -> c <> 0) -> Q b (set c s) (hset (created c (hctx c)) ⊎ held)) ->
  mwp (create_context set type coding) Q s held.
Proof.
  intros HQ. unfold create_context.
  apply (wp_create _ _ _ mpp_create MPP_OK [] hctx (fun r => r)); [done|done|done|apply hset_sub; [constructor|set_solver]|..];
    cbn beta; intros r Hr H0; wstep.
  - rewrite (proj2 (Z.eqb_neq _ _) Hr). cbn [negb]. wstep. rewrite H0.
    specialize (HQ false 0). change (created 0 (hctx 0)) with (@nil Handle) in HQ. rewrite hset_none in HQ. by apply HQ.
  - rewrite (proj2 (Z.eqb_eq _ _) Hr). cbn [negb]. wcall i _; [uses|]. wstep.
    specialize (HQ (i =? MPP_OK) r.2). rewrite created_some in HQ by done. by apply HQ.
Qed.

(** A failed [Open] leaves nothing of the decoder. *)
Lemma decoder_open_wp config s held (Q : Status -> Mpp -> Held -> Prop) :
  mpp_inv s held ->
  (forall st s' held', mpp_inv s' held' ->
     (if ok st then d_context (decoder s') <> 0 else total s' = beside_decoder s') -> Q st s' held') ->
  mwp (DecoderOpen config) Q s held.
Proof.
  intros [-> Hok] HQ. unfold DecoderOpen. apply dwp_bind, decoder_close_wp.
  set (s0 := set_d_group 0 (set_d_context 0 s)).
  assert (forall c g, mpp_inv (set_d_group g (set_d_context c s))
            (hset (created c (hctx c)) ⊎ (hset (created g (hgroup g)) ⊎ beside_decoder s))) as Hinv by done.
  assert (total s0 = beside_decoder s) as H00.
  { specialize (Hinv 0 0). change (created 0 _) with (@nil Handle) in Hinv. rewrite !hset_none in Hinv. symmetry. apply Hinv. }
  assert (forall st, ok st = false -> Q st s0 (beside_decoder s)) as Hclosed.
  { intros st Hst. apply HQ; [|by rewrite Hst]. by split. }
  destruct (_ =? _); [wstep; by apply Hclosed|].
  apply dwp_bind, create_context_wp. intros b c Hc. destruct b; cbn [negb].
  2:{ rewrite <- (hset_none (beside_decoder s)). change [] with (created 0 (hgroup 0)).
      eapply dwp_bind, (decoder_close_wp (set_d_context c s0)). wstep. by apply Hclosed. }
  specialize (Hc eq_refl). wstep. cbn [set_d_context set_decoder decoder d_context].
  wcall y _; [uses|]. destruct (dc_external_buffer_group config); cbn [negb].
  2:{ repeat wstep. apply HQ; [|done]. specialize (Hinv c 0). change (created 0 (hgroup 0)) with (@nil Handle) in Hinv.
      rewrite hset_none in Hinv. exact Hinv. }
  apply (wp_create _ _ _ mpp_buffer_group_get_external MPP_OK [] hgroup (fun r => r));
    [done|done|done|apply hset_sub; [constructor|set_solver]|..]; cbn beta; intros r Hr H0; wstep.
  - rewrite (proj2 (Z.eqb_neq _ _) Hr). cbn [negb]. rewrite H0.
    rewrite <- (hset_none (beside_decoder s)). change [] with (created 0 (hgroup 0)).
    eapply dwp_bind, (decoder_close_wp (set_d_group 0 (set_d_context c s0))). wstep. by apply Hclosed.
  - rewrite (proj2 (Z.eqb_eq _ _) Hr). cbn [negb].
    assert (mwp (mcall (control c (MPP_DEC_SET_EXT_BUF_GROUP r.2));~ dset (set_d_config config);~ DRet Ok) Q
              (set_d_group r.2 (set_d_context c s0))
              (hset [hgroup r.2] ⊎ (hset (created c (hctx c)) ⊎ beside_decoder s))) as Hend.
    { wcall y1 _; [uses|]. repeat wstep. apply HQ; [|done]. specialize (Hinv c r.2). split; [|apply Hinv].
      rewrite <- (created_some _ (hgroup r.2) H0).
      apply held_swap. }
    apply dwp_bind. destruct (_ && _); [wcall [] _; [uses|exact Hend]|wstep; exact Hend].
Qed.
Lemma decoder_context s : d_context (decoder s) <> 0 -> hctx (d_context (decoder s)) ∈ total s.
Proof. intros Hc. unfold total. auto with held. Qed.

Lemma decoder_submit_wp packet s held (Q : Status -> Mpp -> Held -> Prop) :
  mpp_inv s held -> (forall st, Q st s held) -> mwp (DecoderSubmit packet) Q s held.
Proof.
  intros [-> _] HQ. unfold DecoderSubmit. wstep. destruct (ep_buffer packet) as [b|]; [|wstep; auto].
  destruct (Z.eqb_spec (d_context (decoder s)) 0) as [|Hc]; [wstep; auto|].
  pose proof (decoder_context s Hc) as Hctx.
  wcall st1 _; [apply mpp_buf_step, account_begin|]. destruct (ok st1); cbn [negb]; [|wstep; auto].
  wcall x _; [apply mpp_buf_step, account_map|]. destruct x; cbn [negb].
  2:{ wcall st2 _; [apply mpp_buf_step, account_end|]. wstep. auto. }
  apply (wp_create _ _ _ (mpp_packet_init (Some b) (buf_size b)) MPP_OK [hmap b]
           (fun o => hpacket (mkMppPacket o (Some b))) (fun r => r));
    [cbn; apply Z.leb_refl|done|done|auto with held|..]; cbn beta; intros r Hr H0.
  - rewrite (proj2 (Z.eqb_neq _ _) Hr). cbn [negb]. wcall [] _; [apply mpp_buf_step, account_unmap|].
    wcall st2 _; [apply mpp_buf_step, account_end|]. wstep. auto.
  - rewrite (proj2 (Z.eqb_eq _ _) Hr). cbn [negb]. set (p := mkMppPacket r.2 (Some b)).
    wcall [] _; [uses|]. wcall result _.
    { eapply step_use; [done|done|]. apply hset_sub; [by repeat constructor; set_solver|].
      intros h [->|[->|[->|[]%elem_of_nil]%elem_of_cons]%elem_of_cons]%elem_of_cons; auto 6 with held. }
    wcall [] _; [gives|]. wcall [] _; [apply mpp_buf_step, account_unmap|].
    wcall st2 _; [apply mpp_buf_step, account_end|]. destruct (negb (ok st2)); wstep; auto.
Qed.

(** A call that may hand out an object. *)
Lemma fetch_wp {A} c (ctx : Z) (h : Z -> Handle) (res : MppAns c -> Z * Z) s held
    (k : MppAns c -> MProg A) (Q : A -> Mpp -> Held -> Prop) :
  mpp_guard c = true ->
  (forall r, mpp_effect (Ev c r) =
     mkEffect [hctx ctx] [] [] (if (res r).1 =? MPP_OK then created (res r).2 (h (res r).2) else [])) ->
  hctx ctx ∈ held ->
  (forall r, negb ((res r).1 =? MPP_OK) || ((res r).2 =? 0) = true -> mwp (k r) Q s held) ->
  (forall r, negb ((res r).1 =? MPP_OK) || ((res r).2 =? 0) = false -> (res r).2 <> 0 ->
     mwp (k r) Q s (hset [h (res r).2] ⊎ held)) ->
  mwp (dbind (mcall c) k) Q s held.
Proof.
  intros Hg He Hctx Hnone Hsome. refine (wp_call _ _ c _ _ _ _ _). intros r _. eexists.
  split; [apply (step_take _ _ _ _ [hctx ctx]); [done|done|by apply hset_one]|].
  destruct (Z.eqb_spec (res r).1 MPP_OK) as [H1|H1].
  - destruct (Z.eq_dec (res r).2 0) as [H2|H2].
    + rewrite H2. change (created 0 (h 0)) with (@nil Handle). rewrite hset_none. apply Hnone. by rewrite H1, H2, Z.eqb_refl.
    + rewrite created_some by done. apply Hsome; [|done]. by rewrite H1, Z.eqb_refl, (proj2 (Z.eqb_neq _ _) H2).
  - rewrite hset_none. apply Hnone. by rewrite (proj2 (Z.eqb_neq _ _) H1).
Qed.

(** A new frame buffer takes over the frame. *)
Lemma add_buffer_inv f b planes s : mpp_inv s (total s) -> f <> 0 ->
  mpp_inv (add_buffer (mkFrameBuffer f b planes) s).2 (hset (created b (hmem b)) ⊎ (hset [hframe f] ⊎ total s)).
Proof.
  intros [_ Hok] Hf. unfold add_buffer. cbn [snd]. split.
  - assert (frame_buffers s !! next_id s = None) as Hfresh.
    { destruct (frame_buffers s !! next_id s) eqn:E; [|done]. apply Hok in E. lia. }
    unfold total, beside_decoder. cbn [decoder encoder frame_buffers]. rewrite (hsum_insert buffer_handles) by done.
    unfold buffer_handles at 2. cbn [fb_buffer fb_frame]. rewrite hset_app.
    generalize (hset (created b (hmem b))) (hset [hframe f]) (hsum buffer_handles (frame_buffers s))
      (hset (created (e_context (encoder s)) (hctx (e_context (encoder s)))))
      (hset (created (d_context (decoder s)) (hctx (d_context (decoder s)))))
      (hset (created (d_group (decoder s)) (hgroup (d_group (decoder s))))).
    clear. multiset_solver.
  - cbn [frame_buffers next_id]. intros i x [[<- <-]|[_ Hi]]%lookup_insert_Some; cbn; [split; [done|lia]|]. apply Hok in Hi as [? ?]. split; [done|lia].
Qed.

Lemma new_frame_buffer_wp f s (Q : Z -> Mpp -> Held -> Prop) :
  mpp_inv s (total s) -> f <> 0 -> (forall i s' held', mpp_inv s' held' -> Q i s' held') ->
  mwp (NewFrameBuffer f) Q s (hset [hframe f] ⊎ total s).
Proof.
  intros Hi Hf HQ. unfold NewFrameBuffer. wcall b _; [uses|]. apply dwp_bind.
  assert (forall planes, mwp (DLocal (add_buffer (mkFrameBuffer f b planes)) DRet) Q s
            (hset (created b (hmem b)) ⊎ (hset [hframe f] ⊎ total s))) as Hadd.
  { intros planes. unfold wp. cbn. apply HQ. by apply add_buffer_inv. }
  destruct (Z.eqb_spec b 0) as [->|Hb].
  - wstep. rewrite <- (hset_none (hset [hframe f] ⊎ total s)). apply Hadd.
  - rewrite created_some in Hadd by done.
    wcall [] _; [apply (step_take _ _ _ _ [hframe f] [hmem b]); [done|done|auto with held]|].
    wcall fd _; [uses|]. wcall n _; [uses|]. wcall st _; [uses|]. wstep. apply Hadd.
Qed.

Lemma decoder_receive_wp output s held (Q : Received VideoFrame -> Mpp -> Held -> Prop) :
  mpp_inv s held -> (forall r s' held', mpp_inv s' held' -> Q r s' held') -> mwp (DecoderReceive output) Q s held.
Proof.
  intros Hi HQ. pose proof Hi as [-> Hok]. unfold DecoderReceive. wstep.
  destruct (Z.eqb_spec (d_context (decoder s)) 0) as [|Hc]; [wstep; by apply HQ|].
  pose proof (decoder_context s Hc) as Hctx.
  apply (fetch_wp (decode_get_frame (d_context (decoder s))) (d_context (decoder s)) hframe (fun r => r)); [done|done|done|..]; cbn beta; intros r Hr.
  { rewrite Hr. wstep. by apply HQ. }
  intros H0. rewrite Hr. set (f := r.2) in *. wcall change _; [uses|]. destruct (change =? 0); cbn [negb].
  2:{ wstep. apply dwp_bind.
      assert (mwp (mcall (control (d_context (decoder s)) MPP_DEC_SET_INFO_CHANGE_READY);~ mcall (mpp_frame_deinit f);~
                DRet (mkReceived (Unavailable "MPP decoder applied info change") output false)) Q s
                (hset [hframe f] ⊎ total s)) as Hend.
      { wcall y _; [uses|]. wcall [] _; [gives|]. wstep. by apply HQ. }
      destruct (Z.eqb_spec (d_group (decoder s)) 0) as [|Hg]; [wstep; exact Hend|].
      wcall n _; [uses|]. wstep. wcall [] _; [|exact Hend]. eapply step_use; [done|done|]. unfold total. auto 6 with held. }
  wcall eos _; [uses|]. wcall b _; [uses|]. destruct (b =? 0); [wcall [] _; [gives|]; wstep; by apply HQ|].
  wcall pts _; [uses|]. wstep. cbn [next_sequence fst snd]. set (s1 := set_decoder _ s).
  change (total s) with (total s1) in *.
  wcall w _; [uses|]. wcall h _; [uses|]. wcall hs _; [uses|]. wcall vs _; [uses|]. wcall fmt _; [uses|].
  apply dwp_bind, new_frame_buffer_wp; [done|done|]. intros i s' held' Hi'. wstep. by apply HQ.
Qed.

Lemma decoder_drain_wp s held (Q : Status -> Mpp -> Held -> Prop) :
  mpp_inv s held -> (forall st, Q st s held) -> mwp DecoderDrain Q s held.
Proof.
  intros [-> _] HQ. unfold DecoderDrain. wstep. destruct (Z.eqb_spec (d_context (decoder s)) 0) as [|Hc]; [wstep; auto|].
  pose proof (decoder_context s Hc) as Hctx.
  apply (wp_create _ _ _ (mpp_packet_init None 0) MPP_OK [] (fun o => hpacket (mkMppPacket o None)) (fun r => r));
    [done|done|done|apply hset_sub; [constructor|set_solver]|..]; cbn beta; intros r Hr H0.
  - rewrite (proj2 (Z.eqb_neq _ _) Hr). cbn [negb]. wstep. auto.
  - rewrite (proj2 (Z.eqb_eq _ _) Hr). cbn [negb]. wcall [] _; [uses|]. wcall result _; [uses|].
    wcall [] _; [gives|]. wstep. auto.
Qed.
(** ** Encoder *)

Lemma encoder_context s : e_context (encoder s) <> 0 -> hctx (e_context (encoder s)) ∈ total s.
Proof. intros Hc. rewrite total_encoder. auto with held. Qed.

Lemma encoder_close_wp s rest (Q : unit -> Mpp -> Held -> Prop) :
  Q tt (set_e_context 0 s) rest ->
  mwp EncoderClose Q s (hset (created (e_context (encoder s)) (hctx (e_context (encoder s)))) ⊎ rest).
Proof.
  intros HQ. unfold EncoderClose. wstep. apply dwp_bind, wp_release; [intros Q' H'; wcall [] _; [gives|done]|]. by wstep.
Qed.

(** The products of [Open] fit into an [int]. *)
Definition encoder_fits (config : MppEncoderConfig) : Prop :=
  (ec_gop config <= 0 -> ec_fps config * 2 < 2 ^ 31) /\ - 2 ^ 31 <= ec_bitrate config * 12 < 2 ^ 31.
#[global] Instance encoder_fits_dec config : Decision (encoder_fits config).
Proof. unfold encoder_fits. apply _. Defined.

Lemma int_product_wp a b s held (Q : Z -> Mpp -> Held -> Prop) :
  - 2 ^ 31 <= a * b < 2 ^ 31 -> Q (a * b) s held -> mwp (int_product a b) Q s held.
Proof. intros Hr HQ. unfold int_product. rewrite bool_decide_eq_true_2 by done. by wstep. Qed.

Lemma settings_wp cfg (l : list (string * Z)) s held (Q : unit -> Mpp -> Held -> Prop) :
  hcfg cfg ∈ held -> Q tt s held -> mwp (deach l (fun x => mcall (mpp_enc_cfg_set_s32 cfg x.1 x.2))) Q s held.
Proof.
  intros Hc HQ. induction l as [|x l IH]; cbn [deach]; [by wstep|]. wcall [] _; [uses|]. exact IH.
Qed.

Lemma encoder_inv c s : buffers_ok (frame_buffers s) (next_id s) ->
  mpp_inv (set_e_context c s) (hset (created c (hctx c)) ⊎ beside_encoder s).
Proof. intros Hok. split; [by rewrite total_encoder|done]. Qed.

Lemma rate_control_error name st : RateControlMode name = Err st -> ok st = false.
Proof. unfold RateControlMode. intros H. repeat case_match; naive_solver. Qed.
Lemma profile_error coding name st : ProfileValue coding name = Err st -> ok st = false.
Proof. unfold ProfileValue. intros H. repeat case_match; naive_solver. Qed.

(** A failed [Open] leaves nothing of the encoder, unless the configuration object could not be
    created. *)
Lemma encoder_open_wp config s held (Q : Status -> Mpp -> Held -> Prop) :
  mpp_inv s held -> encoder_fits config ->
  (forall st s' held', mpp_inv s' held' ->
     (if ok st then e_context (encoder s') <> 0
      else total s' = beside_encoder s' \/ st = Internal "mpp_enc_cfg_init failed") -> Q st s' held') ->
  mwp (EncoderOpen config) Q s held.
Proof.
  intros [-> Hok] [Hfps Hrate] HQ. unfold EncoderOpen. rewrite total_encoder. apply dwp_bind, encoder_close_wp.
  assert (forall st, ok st = false -> Q st (set_e_context 0 s) (beside_encoder s)) as Hclosed.
  { intros st Hst. apply HQ.
    - rewrite <- (hset_none (beside_encoder s)). by apply encoder_inv.
    - rewrite Hst. left. rewrite total_encoder. apply hset_none. }
  destruct (_ || (ec_fps config <=? 0)) eqn:Hcheck; [wstep; by apply Hclosed|].
  apply orb_false_iff in Hcheck as [_ Hpos%Z.leb_gt].
  destruct (RateControlMode _) as [mode|st] eqn:Hm; [|wstep; apply Hclosed; by eapply rate_control_error].
  destruct (ProfileValue _ _) as [profile|st] eqn:Hp; [|wstep; apply Hclosed; by eapply profile_error].
  apply dwp_bind, create_context_wp. intros b c Hc. change (set_e_context c (set_e_context 0 s)) with (set_e_context c s).
  assert (forall st, ok st = false -> mwp (EncoderClose;~ DRet st) Q (set_e_context c s)
            (hset (created c (hctx c)) ⊎ beside_encoder s)) as Hfail.
  { intros st Hst. eapply dwp_bind, (encoder_close_wp (set_e_context c s)). wstep. by apply Hclosed. }
  destruct b; cbn [negb]; [specialize (Hc eq_refl)|by apply Hfail].
  pose proof (encoder_inv c s Hok) as Hinv. wstep. cbn [set_e_context set_encoder encoder e_context].
  apply (wp_create _ _ _ mpp_enc_cfg_init MPP_OK [] hcfg (fun r => r));
    [done|done|done|apply hset_sub; [constructor|set_solver]|..]; cbn beta; intros r Hr H0.
  { rewrite (proj2 (Z.eqb_neq _ _) Hr). cbn [negb]. wstep. apply HQ; [done|by right]. }
  rewrite (proj2 (Z.eqb_eq _ _) Hr). cbn [negb]. apply dwp_bind.
  assert (forall gop, mwp (low <~ int_product (ec_bitrate config) 8; high <~ int_product (ec_bitrate config) 12;
      deach (encoder_settings config (CodingType (ec_codec config)) mode profile gop (Z.quot low 10) (Z.quot high 10))
        (fun x => mcall (mpp_enc_cfg_set_s32 r.2 x.1 x.2));~
      result <~ mcall (control c (MPP_ENC_SET_CFG r.2));
      mcall (mpp_enc_cfg_deinit r.2);~
      if negb (result =? MPP_OK) then EncoderClose;~ DRet (Unavailable "MPP encoder configuration failed")
      else dset (set_e_config config);~ DRet Ok) Q (set_e_context c s)
      (hset [hcfg r.2] ⊎ (hset (created c (hctx c)) ⊎ beside_encoder s))) as Hrest.
  { intros gop. apply dwp_bind, int_product_wp; [lia|]. apply dwp_bind, int_product_wp; [lia|].
    apply dwp_bind, settings_wp; [auto with held|]. wcall result _; [uses|]. wcall [] _; [gives|].
    destruct (negb _); [by apply Hfail|]. repeat wstep. apply HQ; [exact Hinv|done]. }
  destruct (Z.ltb_spec 0 (ec_gop config)); [wstep; apply Hrest|]. apply int_product_wp; [lia|]. apply Hrest.
Qed.

Lemma buffer_memory i b s : frame_buffers s !! i = Some b -> fb_buffer b <> 0 -> hmem (fb_buffer b) ∈ total s.
Proof.
  intros Hi Hb. unfold total, beside_decoder. do 3 apply elem_deeper. eapply hsum_in; [exact Hi|].
  unfold buffer_handles. rewrite created_some by done. by left.
Qed.

(** The memory of the frame is held until the frame is submitted. *)
Lemma attach_memory_wp f b s (Q : Res Z -> Mpp -> Held -> Prop) :
  (forall st, Q (Err st) s (hset [hframe f] ⊎ total s)) ->
  (forall m, Q (Okay m) s (hset (created m (hmem m)) ⊎ (hset [hframe f] ⊎ total s))) ->
  mwp (attach_memory f b) Q s (hset [hframe f] ⊎ total s).
Proof.
  intros He HQ. unfold attach_memory. wstep. destruct (frame_buffers s !! b) as [fb|] eqn:Hb.
  { wcall [] _.
    - eapply step_use; [done|done|]. destruct (Z.eq_dec (fb_buffer fb) 0) as [->|Hm]; [auto with held|].
      rewrite created_some by done. pose proof (buffer_memory _ _ _ Hb Hm). auto with held.
    - wstep. specialize (HQ 0). change (created 0 _) with (@nil Handle) in HQ. by rewrite hset_none in HQ. }
  destruct (buf_planes b) as [|p planes]; [wstep; auto|]. destruct (_ <? 0); [wstep; auto|].
  apply (wp_create _ _ _ (mpp_buffer_import (pl_fd p) (buf_size b)) MPP_OK [] hmem (fun r => r));
    [done|done|done|apply hset_sub; [constructor|set_solver]|..]; cbn beta; intros r Hr H0.
  - rewrite (proj2 (Z.eqb_neq _ _) Hr). cbn [negb]. wstep. auto.
  - rewrite (proj2 (Z.eqb_eq _ _) Hr). cbn [negb]. wcall [] _.
    + eapply step_use; [done|done|]. rewrite created_some by done. auto with held.
    + wstep. specialize (HQ r.2). by rewrite created_some in HQ.
Qed.

Lemma encoder_submit_wp input s held (Q : Status -> Mpp -> Held -> Prop) :
  mpp_inv s held -> (forall st, Q st s held) -> mwp (EncoderSubmit input) Q s held.
Proof.
  intros [-> _] HQ. unfold EncoderSubmit. wstep. destruct (vf_buffer input) as [b|]; [|wstep; auto].
  destruct (Z.eqb_spec (e_context (encoder s)) 0) as [|Hc]; [wstep; auto|].
  pose proof (encoder_context s Hc) as Hctx.
  apply (wp_create _ _ _ (mpp_frame_init false) MPP_OK [] hframe (fun r => r));
    [done|done|done|apply hset_sub; [constructor|set_solver]|..]; cbn beta; intros r Hr H0.
  - rewrite (proj2 (Z.eqb_neq _ _) Hr). cbn [negb]. wstep. auto.
  - rewrite (proj2 (Z.eqb_eq _ _) Hr). cbn [negb]. cbv zeta. do 6 (wcall [] _; [uses|]).
    apply dwp_bind, attach_memory_wp; [intros st; wcall [] _; [gives|]; wstep; auto|].
    intros m. wcall result _; [uses|]. rewrite held_swap. wcall [] _; [gives|].
    apply dwp_bind, wp_release; [intros Q' H'; wcall [] _; [gives|done]|]. wstep. auto.
Qed.

Lemma encoder_receive_wp output s held (Q : Received EncodedPacket -> Mpp -> Held -> Prop) :
  mpp_inv s held -> (forall r, Q r s held) -> mwp (EncoderReceive output) Q s held.
Proof.
  intros [-> _] HQ. unfold EncoderReceive. wstep.
  destruct (Z.eqb_spec (e_context (encoder s)) 0) as [|Hc]; [wstep; auto|]. pose proof (encoder_context s Hc) as Hctx.
  apply (fetch_wp (encode_get_packet (e_context (encoder s))) (e_context (encoder s))
           (fun o => hpacket (mkMppPacket o None)) (fun r => r)); [done|done|done|..]; cbn beta; intros r Hr.
  { rewrite Hr. wstep. auto. }
  intros H0. rewrite Hr. cbv zeta. set (p := mkMppPacket r.2 None).
  wcall n _; [uses|]. wcall eos _; [uses|]. apply dwp_bind.
  assert (mwp (pts <~ mcall (mpp_packet_get_pts p);
      codec <~ dget (fun s => ec_codec (e_config (encoder s)));
      b <~ mcall (MBuf (BufNewHost n)); mcall (mpp_packet_deinit p);~
      DRet (mkReceived Ok (mkEncodedPacket (FromMicroseconds pts) (FromMicroseconds pts) codec
                             (ep_key_frame output) (Some b)) (negb (eos =? 0)))) Q s (hset [hpacket p] ⊎ total s)) as Hend.
  { wcall pts _; [uses|]. wstep. wcall b _; [by apply step_none|]. wcall [] _; [gives|]. wstep. auto. }
  destruct (n =? 0); [wstep; exact Hend|]. wcall [] _; [uses|]. exact Hend.
Qed.

Lemma encoder_drain_wp s held (Q : Status -> Mpp -> Held -> Prop) :
  mpp_inv s held -> (forall st, Q st s held) -> mwp EncoderDrain Q s held.
Proof.
  intros [-> _] HQ. unfold EncoderDrain. wstep. destruct (Z.eqb_spec (e_context (encoder s)) 0) as [|Hc]; [wstep; auto|].
  pose proof (encoder_context s Hc) as Hctx.
  wcall r Hr; [apply (step_take _ _ _ _ []); [done|done|apply hset_sub; [constructor|set_solver]]|].
  destruct Hr as [_ H0]. rewrite created_some by done. cbv zeta. wcall [] _; [uses|]. wcall result _; [uses|].
  wcall [] _; [gives|]. wstep. auto.
Qed.

Lemma encoder_key_frame_wp s held (Q : Status -> Mpp -> Held -> Prop) :
  mpp_inv s held -> (forall st, Q st s held) -> mwp EncoderForceKeyFrame Q s held.
Proof.
  intros [-> _] HQ. unfold EncoderForceKeyFrame. wstep.
  destruct (Z.eqb_spec (e_context (encoder s)) 0) as [|Hc]; [wstep; auto|].
  pose proof (encoder_context s Hc) as Hctx. wcall r _; [uses|]. wstep. auto.
Qed.

Lemma destroy_buffer_wp i s held (Q : unit -> Mpp -> Held -> Prop) :
  mpp_inv s held -> (forall s' held', mpp_inv s' held' -> Q tt s' held') -> mwp (DestroyFrameBuffer i) Q s held.
Proof.
  intros [-> Hok] HQ. unfold DestroyFrameBuffer. wstep.
  destruct (frame_buffers s !! i) as [b|] eqn:Hb; [|wstep; by apply HQ]. wstep.
  set (s' := set_buffers (delete i (frame_buffers s)) s).
  assert (mpp_inv s' (total s')) as Hi'.
  { split; [done|]. cbn [frame_buffers next_id set_buffers s']. intros j x [_ Hj]%lookup_delete_Some. by apply Hok in Hj. }
  assert (total s = hset (created (fb_buffer b) (hmem (fb_buffer b))) ⊎ (hset [hframe (fb_frame b)] ⊎ total s')) as ->.
  { unfold total, beside_decoder. rewrite (hsum_delete buffer_handles _ _ _ Hb). unfold buffer_handles at 1.
    rewrite hset_app. unfold s'. cbn [frame_buffers set_buffers decoder encoder].
    generalize (hset (created (fb_buffer b) (hmem (fb_buffer b)))) (hset [hframe (fb_frame b)])
      (hsum buffer_handles (delete i (frame_buffers s)))
      (hset (created (e_context (encoder s)) (hctx (e_context (encoder s)))))
      (hset (created (d_context (decoder s)) (hctx (d_context (decoder s)))))
      (hset (created (d_group (decoder s)) (hgroup (d_group (decoder s))))).
    clear. multiset_solver. }
  apply dwp_bind, wp_release; [intros Q' H'; wcall [] _; [gives|done]|].
  rewrite (proj2 (Z.eqb_neq _ _) (proj1 (Hok _ _ Hb))). wcall [] _; [gives|]. by apply HQ.
Qed.

(** ** Every operation *)

(** A frame buffer can be used while it exists. *)
Inductive MppOp :=
| DOpen (config : MppDecoderConfig)
| DSubmit (packet : EncodedPacket)
| DReceive
| DDrain
| DClose
| EOpen (config : MppEncoderConfig)
| ESubmit (frame : VideoFrame)
| EReceive
| EDrain
| EForceKeyFrame
| EClose
| FSize (buffer : Z)
| FMap (buffer : Z)
| FDestroy (buffer : Z).

Definition with_frame_buffer (i : Z) (m : MppFrameBuffer -> MProg Z) : MProg unit :=
  b <~ dget (fun s => frame_buffers s !! i);
  match b with None => DRet tt | Some b => m b;~ DRet tt end.

Definition mpp_op (op : MppOp) : MProg unit :=
  match op with
  | DOpen config => DecoderOpen config;~ DRet tt
  | DSubmit packet => DecoderSubmit packet;~ DRet tt
  | DReceive => DecoderReceive NoFrame;~ DRet tt
  | DDrain => DecoderDrain;~ DRet tt
  | DClose => DecoderClose
  | EOpen config => EncoderOpen config;~ DRet tt
  | ESubmit frame => EncoderSubmit frame;~ DRet tt
  | EReceive => EncoderReceive NoEncoded;~ DRet tt
  | EDrain => EncoderDrain;~ DRet tt
  | EForceKeyFrame => EncoderForceKeyFrame;~ DRet tt
  | EClose => EncoderClose
  | FSize i => with_frame_buffer i FrameBufferSize
  | FMap i => with_frame_buffer i FrameBufferMap
  | FDestroy i => DestroyFrameBuffer i
  end.

Definition op_fits (op : MppOp) : Prop := match op with EOpen config => encoder_fits config | _ => True end.

#[global] Instance op_fits_dec op : Decision (op_fits op).
Proof. destruct op; cbn; apply _. Defined.

Lemma with_frame_buffer_wp i m s held :
  mpp_inv s held ->
  (forall b (Q : Z -> Mpp -> Held -> Prop), frame_buffers s !! i = Some b -> (forall z, Q z s held) -> mwp (m b) Q s held) ->
  mwp (with_frame_buffer i m) (fun _ s' held' => mpp_inv s' held') s held.
Proof.
  intros Hi Hm. unfold with_frame_buffer. wstep. destruct (frame_buffers s !! i) as [b|] eqn:Hb; [|by wstep].
  apply dwp_bind, Hm; [done|]. intros z. by wstep.
Qed.

Lemma mpp_op_wp op s held : mpp_inv s held -> op_fits op ->
  mwp (mpp_op op) (fun _ s' held' => mpp_inv s' held') s held.
Proof.
  intros Hi Hf. destruct op; cbn [mpp_op].
  - apply dwp_bind, decoder_open_wp; [done|]. intros. by wstep.
  - apply dwp_bind, decoder_submit_wp; [done|]. intros. by wstep.
  - apply dwp_bind, decoder_receive_wp; [done|]. intros. by wstep.
  - apply dwp_bind, decoder_drain_wp; [done|]. intros. by wstep.
  - destruct Hi as [-> Hok]. apply decoder_close_wp. split; [|done].
    unfold total. change (created _ _) with (@nil Handle). by rewrite !hset_none.
  - apply dwp_bind, encoder_open_wp; [done|done|]. intros. by wstep.
  - apply dwp_bind, encoder_submit_wp; [done|]. intros. by wstep.
  - apply dwp_bind, encoder_receive_wp; [done|]. intros. by wstep.
  - apply dwp_bind, encoder_drain_wp; [done|]. intros. by wstep.
  - apply dwp_bind, encoder_key_frame_wp; [done|]. intros. by wstep.
  - destruct Hi as [-> Hok]. rewrite total_encoder. apply encoder_close_wp.
    rewrite <- (hset_none (beside_encoder s)). by apply encoder_inv.
  - apply with_frame_buffer_wp; [done|]. intros b Q Hb HQ. unfold FrameBufferSize.
    destruct (Z.eqb_spec (fb_buffer b) 0) as [|H0]; [wstep; auto|]. destruct Hi as [-> _].
    pose proof (buffer_memory _ _ _ Hb H0). wcall n _; [uses|]. auto.
  - apply with_frame_buffer_wp; [done|]. intros b Q Hb HQ. unfold FrameBufferMap.
    destruct (Z.eqb_spec (fb_buffer b) 0) as [|H0]; [wstep; auto|]. destruct Hi as [-> _].
    pose proof (buffer_memory _ _ _ Hb H0). wcall n _; [uses|]. auto.
  - by apply destroy_buffer_wp.
Qed.

Lemma mpp_ops_wp ops s held : mpp_inv s held -> Forall op_fits ops ->
  mwp (deach ops mpp_op) (fun _ s' held' => mpp_inv s' held') s held.
Proof.
  intros Hi Hf. eapply dwp_mono; [|apply (wp_deach _ _ ops mpp_op (fun l s held => mpp_inv s held /\ Forall op_fits l))].
  - by intros ? s' held' [? _].
  - done.
  - intros op l s' held' [Hi' [Hop Hl]%Forall_cons]. eapply dwp_mono; [|by apply mpp_op_wp]. intros ? s2 held2 H2. by split.
Qed.

Lemma new_mpp_inv : mpp_inv new_mpp ∅.
Proof. split; [done|]. intros i b Hi. done. Qed.
End safety.

Abbreviation mpp_gstep := (handle_step mpp_effect mpp_guard).


(** Opening is all or nothing.  After any operations a decoder that opens has a context, and one
    that fails to open holds neither a context nor a buffer group; the same holds for an encoder,
    except that it keeps its context when the configuration object cannot be created. *)
Theorem mpp_open_all_or_nothing {E} {ML : MppLib} {BH : BufferHeap} (dev : Device MppAns E) e ops dconfig econfig :
  Forall op_fits ops -> encoder_fits econfig ->
  (let '(r, s, _, evs) := drun dev (deach ops mpp_op;~ DecoderOpen dconfig) new_mpp e in
   documented mpp_gstep mpp_allowed evs ∅ ->
   exists st, r = Some st /\ gsteps mpp_gstep evs ∅ = Some (total s) /\
     if ok st then d_context (decoder s) <> 0 else total s = beside_decoder s) /\
  (let '(r, s, _, evs) := drun dev (deach ops mpp_op;~ EncoderOpen econfig) new_mpp e in
   documented mpp_gstep mpp_allowed evs ∅ ->
   exists st, r = Some st /\ gsteps mpp_gstep evs ∅ = Some (total s) /\
     if ok st then e_context (encoder s) <> 0
     else total s = beside_encoder s \/ st = Internal "mpp_enc_cfg_init failed").
Proof.
  intros Hf He. split.
  - destruct (drun dev _ new_mpp e) as [[[r s] e'] evs] eqn:Er. intros Hd.
    refine ((fun H => _) (wp_sound mpp_gstep mpp_allowed dev _ (fun st s held => mpp_inv s held /\
      if ok st then d_context (decoder s) <> 0 else total s = beside_decoder s) _ _ _ _ _ _ _ _ Er Hd)).
    + destruct H as (st & held & -> & Hg & [-> _] & Hst). eauto.
    + eapply dwp_seq; [apply mpp_ops_wp; [apply new_mpp_inv|done]|]. intros ? s1 held1 Hi. by apply decoder_open_wp.
  - destruct (drun dev _ new_mpp e) as [[[r s] e'] evs] eqn:Er. intros Hd.
    refine ((fun H => _) (wp_sound mpp_gstep mpp_allowed dev _ (fun st s held => mpp_inv s held /\
      if ok st then e_context (encoder s) <> 0 else total s = beside_encoder s \/ st = Internal "mpp_enc_cfg_init failed")
      _ _ _ _ _ _ _ _ Er Hd)).
    + destruct H as (st & held & -> & Hg & [-> _] & Hst). eauto.
    + eapply dwp_seq; [apply mpp_ops_wp; [apply new_mpp_inv|done]|]. intros ? s1 held1 Hi. by apply encoder_open_wp.
Qed.

#[local] Instance mpp_allowed_dec {ML : MppLib} g ev : Decision (mpp_allowed g ev).
Proof. destruct ev as [c a]; destruct c; cbn; try apply _. destruct eos; apply _. Defined.

(** A library that works. *)
#[local] Instance demo_mpp : MppLib := {|
  MPP_OK := 0; MPP_VIDEO_CodingUnused := 0; MPP_VIDEO_CodingAVC := 7; MPP_VIDEO_CodingHEVC := 16777220;
  MPP_VIDEO_CodingMJPEG := 8; MPP_FMT_YUV420SP := 0; MPP_FMT_YUV420SP_VU := 5; MPP_FMT_YUV422_YUYV := 3;
  MPP_FMT_RGB888 := 65542; MPP_FMT_RGBA8888 := 65546; MPP_FRAME_FMT_MASK := 1048575;
  MPP_ENC_RC_MODE_CBR := 1; MPP_ENC_RC_MODE_VBR := 0; MPP_ENC_RC_MODE_FIXQP := 2; MPP_ENC_RC_MODE_AVBR := 3;
  MPP_ENC_RC_MODE_SMTRC := 4; MPP_ENC_RC_MODE_SE := 5 |}.
#[local] Instance demo_buffers : BufferHeap := {| buf_size := fun _ => 4096; buf_planes := fun _ => [] |}.

(** [cfg] says whether encoder configurations can be created. *)
Definition demo_library (cfg : bool) : Device MppAns Z := fun c n =>
  (match c return MppAns c with
   | mpp_create | mpp_buffer_group_get_external | mpp_packet_init _ _ | decode_get_frame _
   | mpp_frame_init _ | mpp_buffer_import _ _ | encode_get_packet _ => (0, n)
   | mpp_enc_cfg_init => if cfg then (0, n) else (-1, 0)
   | mpp_frame_get FBuffer _ | mpp_frame_get FPts _ => 1000
   | mpp_frame_get FWidth _ | mpp_frame_get FHorStride _ => 64
   | mpp_frame_get FHeight _ | mpp_frame_get FVerStride _ => 32
   | mpp_init _ _ _ | control _ _ | decode_put_packet _ _ | encode_put_frame _ _ | mpp_frame_get _ _
   | mpp_buffer_get_fd _ | mpp_buffer_get_size _ | mpp_buffer_get_ptr _
   | mpp_packet_get_length _ | mpp_packet_get_eos _ | mpp_packet_get_pts _ => 0
   | mpp_destroy _ | mpp_buffer_group_limit_config _ _ _ | mpp_buffer_group_put _ | mpp_packet_set_pts _ _
   | mpp_packet_set_eos _ | mpp_packet_deinit _ | mpp_frame_set _ _ _ | mpp_frame_deinit _
   | mpp_buffer_inc_ref _ _ | mpp_buffer_put _ | mpp_enc_cfg_set_s32 _ _ _ | mpp_enc_cfg_deinit _
   | CopyPacket _ _ => tt
   | MBuf (BufFence _) => false
   | MBuf (BufFenceWait _) | MBuf (BufBegin _ _) | MBuf (BufEnd _ _) => Ok
   | MBuf (BufMap _ _) => true
   | MBuf (BufUnmap _) => tt
   | MBuf (BufNewHost _) => n
   end, n + 1).

Definition demo_encoder : MppEncoderConfig := mkEncoderConfig "h264" 64 32 30 4000000 0 "high" "cbr" 2000.
Definition demo_packet : EncodedPacket := mkEncodedPacket (FromMicroseconds 1000) Unset "h264" true (Some 77).
(** A packet is decoded and the decoder closed; its frame is encoded again. *)
Definition demo_transcode : list MppOp :=
  [DOpen (mkDecoderConfig "h264" 64 32 8 true 2000); EOpen demo_encoder; DSubmit demo_packet; DReceive; DClose;
   ESubmit (mkVideoFrame 0 Unset 64 32 64 32 "nv12" (Some 0)); EReceive; EDrain; EClose].


(** Both outcomes of an encoder: it opens, or its configuration object cannot be created. *)
Lemma mpp_open_all_or_nothing_witness :
  let '(r, s, _, _) := drun (demo_library true) (deach demo_transcode mpp_op;~ EncoderOpen demo_encoder) new_mpp 1 in
  r = Some Ok /\ e_context (encoder s) <> 0.
Proof.
  assert (Forall op_fits demo_transcode) as Hf.
  { eapply bool_decide_eq_true_1. vm_compute. reflexivity. }
  destruct (mpp_open_all_or_nothing (demo_library true) 1 demo_transcode default_decoder_config demo_encoder Hf) as [_ H];
    [eapply bool_decide_eq_true_1; vm_compute; reflexivity|].
  destruct (drun (demo_library true) (deach demo_transcode mpp_op;~ EncoderOpen demo_encoder) new_mpp 1)
    as [[[r s] e'] evs] eqn:Er.
  assert (r = (drun (demo_library true) (deach demo_transcode mpp_op;~ EncoderOpen demo_encoder) new_mpp 1).1.1.1 /\
          evs = (drun (demo_library true) (deach demo_transcode mpp_op;~ EncoderOpen demo_encoder) new_mpp 1).2) as [Hr He]
    by (rewrite Er; split; reflexivity).
  destruct H as (st & Hst & _ & Hc).
  { refine (documentedb_sound mpp_gstep mpp_allowed evs _ _). rewrite He. vm_compute. reflexivity. }
  assert (r = Some Ok) as Hok by (rewrite Hr; vm_compute; reflexivity).
  rewrite Hok in Hst. injection Hst as <-. by split.
Defined.

(** An encoder that failed to open stays half open and takes frames. *)
Example encoder_half_open :
  let '(r, s, _, _) := drun (demo_library false) (EncoderOpen demo_encoder) new_mpp 1 in
  r = Some (Internal "mpp_enc_cfg_init failed") /\ e_context (encoder s) <> 0.
Proof. vm_compute. by split. Qed.
