(* ===== verification/ZlmInput.v ===== *)
(** * The input side of the streaming backend

    [src/modules/streaming/backend.cpp], [ZlmInputBackend]: a player of ZLMediaKit whose callbacks
    run on threads of the library, a reader, and the owner that opens and closes the session.

    The threads interleave at the critical sections of [mutex_] and [player_mutex_], at the
    accesses to the atomic [stopped_] and at the calls of the library ([Atomic]).  The library is a
    part of the state: the players and delegates that exist, whether a call named one that does
    not ([wrong]), and what the next creation answers, which the environment changes at will; 0 is
    null.  Callbacks may start at any time, also before a session and after its end.  A wait with a
    timeout may end at any moment, so it is the section that follows it.

    [zlm_input_safe] is about every interleaving. *)

From S2P Require Import Prelude Text Status Timestamp Values Atomic Backends.
From Stdlib Require Import SpecFloat.
From stdpp Require Import list gmultiset.
Local Open Scope prog_scope.
Local Open Scope Z_scope.

(** ** The state *)

(** A track and the tag of the delegate. *)
Abbreviation Delegate := (Z * Z)%type.

(** What became of a packet that was queued. *)
Inductive Fate := Delivered | Dropped | Cleared.

(** The fields of the object, with the packets that were ever queued and what became of them. *)
(* [src/modules/streaming/backend.cpp:193-202] ZlmInputBackend (fields) *)
Record ZlmInput := mkZlmInput {
  config_ : StreamingSessionConfig;
  player_ : Z;
  delegates_ : list Delegate;
  packets_ : list EncodedPacket;
  stopped_ : bool;
  reconnect_required_ : bool;
  attempts_ : Z;
  queued : list EncodedPacket;
  gone : list (Fate * EncodedPacket) }.

Record Library := mkLibrary {
  players : gmultiset Z;
  registered : gmultiset Delegate;
  wrong : bool;
  answer : Z }.

(** [busy]: an [Open] or [Close] of the owner is under way. *)
Record Zlm := mkZlm { input : ZlmInput; lib : Library; busy : bool }.

Definition new_input : ZlmInput := mkZlmInput default_session 0 [] [] true false 0 [] [].
Definition new_zlm : Zlm := mkZlm new_input (mkLibrary ∅ ∅ false 0) false.

Definition on_input (f : ZlmInput -> ZlmInput) (s : Zlm) : Zlm := mkZlm (f (input s)) (lib s) (busy s).
Definition on_lib (f : Library -> Library) (s : Zlm) : Zlm := mkZlm (input s) (f (lib s)) (busy s).
Definition set_busy (b : bool) (s : Zlm) : Zlm := mkZlm (input s) (lib s) b.

Definition set_config (c : StreamingSessionConfig) (i : ZlmInput) : ZlmInput :=
  mkZlmInput c (player_ i) (delegates_ i) (packets_ i) (stopped_ i) (reconnect_required_ i) (attempts_ i)
    (queued i) (gone i).
Definition set_player (p : Z) (i : ZlmInput) : ZlmInput :=
  mkZlmInput (config_ i) p (delegates_ i) (packets_ i) (stopped_ i) (reconnect_required_ i) (attempts_ i)
    (queued i) (gone i).
Definition set_delegates (d : list Delegate) (i : ZlmInput) : ZlmInput :=
  mkZlmInput (config_ i) (player_ i) d (packets_ i) (stopped_ i) (reconnect_required_ i) (attempts_ i)
    (queued i) (gone i).
Definition set_stopped (b : bool) (i : ZlmInput) : ZlmInput :=
  mkZlmInput (config_ i) (player_ i) (delegates_ i) (packets_ i) b (reconnect_required_ i) (attempts_ i)
    (queued i) (gone i).
Definition set_reconnect (b : bool) (i : ZlmInput) : ZlmInput :=
  mkZlmInput (config_ i) (player_ i) (delegates_ i) (packets_ i) (stopped_ i) b (attempts_ i)
    (queued i) (gone i).
Definition set_attempts (n : Z) (i : ZlmInput) : ZlmInput :=
  mkZlmInput (config_ i) (player_ i) (delegates_ i) (packets_ i) (stopped_ i) (reconnect_required_ i) n
    (queued i) (gone i).
(** The first [n] packets leave the queue. *)
Definition take_packets (fate : Fate) (n : nat) (i : ZlmInput) : ZlmInput :=
  mkZlmInput (config_ i) (player_ i) (delegates_ i) (drop n (packets_ i)) (stopped_ i) (reconnect_required_ i)
    (attempts_ i) (queued i) (gone i ++ map (pair fate) (take n (packets_ i))).
Definition push_packet (p : EncodedPacket) (i : ZlmInput) : ZlmInput :=
  mkZlmInput (config_ i) (player_ i) (delegates_ i) (packets_ i ++ [p]) (stopped_ i) (reconnect_required_ i)
    (attempts_ i) (queued i ++ [p]) (gone i).

(** ** The library *)

Definition fail (l : Library) : Library := mkLibrary (players l) (registered l) true (answer l).

Definition mk_player_create (l : Library) : Library :=
  mkLibrary (if answer l =? 0 then players l else {[+ answer l +]} ⊎ players l) (registered l) (wrong l) (answer l).
(** Options, callbacks and [mk_player_play]: the player must exist. *)
Definition mk_player_call (p : Z) (l : Library) : Library := if bool_decide (p ∈ players l) then l else fail l.
Definition mk_player_release (p : Z) (l : Library) : Library :=
  if bool_decide (p ∈ players l)
  then mkLibrary (players l ∖ {[+ p +]}) (registered l) (wrong l) (answer l) else fail l.
Definition mk_track_add_delegate (track : Z) (l : Library) : Library :=
  mkLibrary (players l) (if answer l =? 0 then registered l else {[+ (track, answer l) +]} ⊎ registered l)
    (wrong l) (answer l).
Definition mk_track_del_delegate (d : Delegate) (l : Library) : Library :=
  if bool_decide (d ∈ registered l)
  then mkLibrary (players l) (registered l ∖ {[+ d +]}) (wrong l) (answer l) else fail l.

Abbreviation ZProg := (prog Zlm).

(** ** Owner *)

(* [src/modules/streaming/backend.cpp:104-107] ZlmInputBackend::RequestStop *)
Definition RequestStop : ZProg unit := update (on_input (set_stopped true)).

(** The section of [Close] on [mutex_]. *)
Definition swap_delegates (s : Zlm) : list Delegate * Zlm :=
  (delegates_ (input s),
   on_input (fun i => set_reconnect false (take_packets Cleared (length (packets_ i)) (set_delegates [] i))) s).

(** The section of [Close] on [player_mutex_]. *)
Definition release_player (ds : list Delegate) (s : Zlm) : Zlm :=
  let p := player_ (input s) in
  if p =? 0 then s else
  on_input (set_player 0)
    (on_lib (fun l => mk_player_release p
       (foldl (fun l d => mk_track_del_delegate d l) (mk_player_call p (mk_player_call p l)) ds)) s).

(* [src/modules/streaming/backend.cpp:109-126] ZlmInputBackend::Close *)
Definition Close : ZProg unit :=
  RequestStop;;;
  ds <-- atomically swap_delegates;
  update (release_player ds).

(** The first section of [Open] on [player_mutex_]. *)
Definition create_player (s : Zlm) : bool * Zlm :=
  let p := answer (lib s) in
  let s' := on_input (set_player p) (on_lib mk_player_create s) in
  if p =? 0 then (false, s')
  else (true, on_lib (fun l => mk_player_call p (mk_player_call p (mk_player_call p l))) s').

Definition play (s : Zlm) : Zlm :=
  let p := player_ (input s) in if p =? 0 then s else on_lib (mk_player_call p) s.

(* [src/modules/streaming/backend.cpp:44-67] ZlmInputBackend::Open *)
Definition Open (config : StreamingSessionConfig) : ZProg Status :=
  Close;;;
  if bool_decide (sc_url config = "") then Ret (Invalid "streaming input URL is empty") else
  update (on_input (set_config config));;;
  ok <-- atomically create_player;
  if negb ok then Ret (Unavailable "mk_player_create failed") else
  update (on_input (fun i => set_attempts 0 (set_stopped false i)));;;
  update play;;;
  Ret Ok.

(** ** Reader *)

(** What the first section of [Read] decides: its result, or to reconnect after a delay. *)
Inductive ReadStep :=
| ReadDone (st : Status) (packet : EncodedPacket)
| ReadReconnect (delay_ms : Z).

Section read.
(** [std::pow], and the conversion of a [double] to an [int]. *)
Context (pow : spec_float -> Z -> spec_float) (int_of_double : spec_float -> Z).

Definition reconnect_delay (r : ReconnectPolicy) (attempt : Z) : Z :=
  let one := double_of_Z 1 in
  let multiplier := if SFltb one (rp_multiplier r) then rp_multiplier r else one in
  let delay := SFmul 53 1024 (double_of_Z (rp_initial_delay_ms r)) (pow multiplier attempt) in
  Z.min (rp_maximum_delay_ms r) (int_of_double delay).

Definition read_section (s : Zlm) : ReadStep * Zlm :=
  let i := input s in
  if stopped_ i then (ReadDone (Cancelled "streaming input stopped") NoEncoded, s)
  else match packets_ i with
  | p :: _ => (ReadDone Ok p, on_input (take_packets Delivered 1) s)
  | [] =>
      if reconnect_required_ i then
        let r := sc_reconnect (config_ i) in
        if (0 <=? rp_max_attempts r) && (rp_max_attempts r <=? attempts_ i)
        then (ReadDone (Unavailable "streaming input reconnect attempts exhausted") NoEncoded, s)
        else (ReadReconnect (reconnect_delay r (attempts_ i)),
              on_input (fun i => set_attempts (attempts_ i + 1) (set_reconnect false i)) s)
      else (ReadDone (Unavailable "streaming input has no packet") NoEncoded, s)
  end.

(* [src/modules/streaming/backend.cpp:69-102] ZlmInputBackend::Read *)
Definition Read : ZProg (Status * EncodedPacket) :=
  r <-- atomically read_section;
  match r with
  | ReadDone st p => Ret (st, p)
  | ReadReconnect _ =>
      stopped <-- read (fun s => stopped_ (input s));
      if (stopped : bool) then Ret (Cancelled "streaming input stopped", NoEncoded) else
      update play;;;
      Ret (Unavailable "streaming input reconnecting", NoEncoded)
  end.
End read.

(** ** Callbacks *)

(** One track of a stream that plays. *)
Definition add_track (t : Z * bool) : ZProg unit :=
  if negb t.2 then Ret tt else
  tag <-- atomically (fun s => (answer (lib s), on_lib (mk_track_add_delegate t.1) s));
  if tag =? 0 then Ret tt else
  remove_delegate <-- atomically (fun s =>
    if stopped_ (input s) then (true, s)
    else (false, on_input (fun i => set_delegates (delegates_ i ++ [(t.1, tag)]) i) s));
  if (remove_delegate : bool) then update (on_lib (mk_track_del_delegate (t.1, tag))) else Ret tt.

(** Lost connections ask for a reconnect, unless the session is stopped. *)
(* [src/modules/streaming/backend.cpp:162-167] ZlmInputBackend::OnShutdown *)
Definition OnShutdown : ZProg unit := update (on_input (fun i => set_reconnect (negb (stopped_ i)) i)).

(** [tracks]: the tracks, and whether each is a video track. *)
(* [src/modules/streaming/backend.cpp:134-160] ZlmInputBackend::OnPlay *)
Definition OnPlay (error : Z) (tracks : list (Z * bool)) : ZProg unit :=
  if negb (error =? 0) then OnShutdown else
  go <-- atomically (fun s => if stopped_ (input s) then (false, s) else (true, on_input (set_attempts 0) s));
  if negb go then Ret tt else for_each tracks add_track.

(** A frame of the library; [fr_copy] is the host buffer that gets its bytes. *)
Record mk_frame := mkFrame {
  fr_is_video : bool; fr_pts : Z; fr_dts : Z; fr_codec : string; fr_key : bool; fr_copy : Z }.

Definition kCapacity : nat := 64.

Definition frame_packet (f : mk_frame) : EncodedPacket :=
  mkEncodedPacket (FromMicroseconds (i64 (fr_pts f) * 1000)) (FromMicroseconds (i64 (fr_dts f) * 1000))
    (to_lower (fr_codec f)) (fr_key f) (Some (fr_copy f)).

Definition queue_packet (p : EncodedPacket) (i : ZlmInput) : ZlmInput :=
  push_packet p (if (length (packets_ i) =? kCapacity)%nat then take_packets Dropped 1 i else i).

(* [src/modules/streaming/backend.cpp:169-191] ZlmInputBackend::OnFrame *)
Definition OnFrame (f : mk_frame) : ZProg unit :=
  stopped <-- read (fun s => stopped_ (input s));
  if (stopped : bool) || negb (fr_is_video f) then Ret tt
  else update (on_input (queue_packet (frame_packet f))).

(** ** Threads *)

Section pool.
Context (pow : spec_float -> Z -> spec_float) (int_of_double : spec_float -> Z).

(** The owner makes one call after the other; everybody else calls at any time. *)
Inductive spawns (s : Zlm) : ZProg unit -> Zlm -> Prop :=
| spawn_open config : busy s = false ->
    spawns s (Open config;;; update (set_busy false)) (set_busy true s)
| spawn_close : busy s = false -> spawns s (Close;;; update (set_busy false)) (set_busy true s)
| spawn_stop : spawns s RequestStop s
| spawn_read : spawns s (Read pow int_of_double;;; Ret tt) s
| spawn_play error tracks : spawns s (OnPlay error tracks) s
| spawn_shutdown : spawns s OnShutdown s
| spawn_frame f : spawns s (OnFrame f) s.

Definition set_answer (a : Z) (l : Library) : Library := mkLibrary (players l) (registered l) (wrong l) a.
Definition answers (s s' : Zlm) : Prop := exists a, s' = on_lib (set_answer a) s.

Definition zlm_step : Zlm * list (ZProg unit) -> Zlm * list (ZProg unit) -> Prop := pstep spawns answers.

(** ** The invariant *)

(** What a thread holds: a delegate that is registered and not yet in the list, or any more; and the
    owner's knowledge: the player, whether the session is stopped, whether the list is empty. *)
Record Owner := mkOwner { ow_player : Z; ow_stopped : bool; ow_empty : bool }.
#[global] Instance Owner_eq_dec : EqDecision Owner.
Proof. solve_decision. Defined.
#[global] Instance Owner_countable : Countable Owner.
Proof.
  refine (inj_countable' (fun o => (ow_player o, ow_stopped o, ow_empty o)) (fun x => mkOwner x.1.1 x.1.2 x.2) _).
  by intros [].
Qed.
Abbreviation Obl := (Delegate + Owner)%type.

Definition owner_knows (o : Owner) (i : ZlmInput) : Prop :=
  ow_player o = player_ i /\ (ow_stopped o = true -> stopped_ i = true) /\ 
  (ow_empty o = true -> stopped_ i = true /\ delegates_ i = []).

Record history_ok (i : ZlmInput) : Prop := mkHistory {
  history_queue : queued i = (gone i).*2 ++ packets_ i;
  history_bound : (length (packets_ i) <= kCapacity)%nat }.

Record zlm_inv (s : Zlm) (M : gmultiset Obl) : Prop := mkZlmInv {
  zi_right : wrong (lib s) = false;
  zi_players : players (lib s) = if player_ (input s) =? 0 then ∅ else {[+ player_ (input s) +]};
  zi_registered : forall d, multiplicity d (registered (lib s)) =
    (multiplicity d (list_to_set_disj (delegates_ (input s)) : gmultiset Delegate) + multiplicity (inl d) M)%nat;
  zi_open : stopped_ (input s) = false -> player_ (input s) <> 0;
  zi_delegates : delegates_ (input s) <> [] -> player_ (input s) <> 0;
  zi_owner : forall o, inr o ∈ M -> owner_knows o (input s) /\ busy s = true;
  zi_unique : forall o o' F, M = {[+ inr o +]} ⊎ F -> inr o' ∉ F;
  zi_history : history_ok (input s) }.

Abbreviation zwp := (Atomic.wp zlm_inv).
Abbreviation zneutral := (Atomic.neutral zlm_inv).

Implicit Types (s : Zlm) (M F : gmultiset Obl) (i : ZlmInput).

(** A change of the object that only concerns the session. *)
Record same_objects (i i' : ZlmInput) : Prop := mkSame {
  same_player : player_ i' = player_ i;
  same_delegates : delegates_ i' = delegates_ i;
  same_stopped : stopped_ i = true -> stopped_ i' = true;
  same_running : stopped_ i' = false -> player_ i <> 0;
  same_history : history_ok i -> history_ok i' }.

Lemma inv_same s M i' : zlm_inv s M -> same_objects (input s) i' -> zlm_inv (mkZlm i' (lib s) (busy s)) M.
Proof.
  intros [H1 H2 H3 H4 H5 H6 H7 H8] [E1 E2 E3 E4 E5]. split; cbn [input lib busy]; rewrite ?E1, ?E2; auto.
  intros o Ho. destruct (H6 o Ho) as [(Ha & Hb & Hc) Hbusy]. split; [|done]. split_and!; [congruence|auto|].
  intros He. rewrite E2. destruct (Hc He). auto.
Qed.

Lemma neutral_input (f : ZlmInput -> ZlmInput) :
  (forall s M, zlm_inv s M -> same_objects (input s) (f (input s))) -> zneutral (update (on_input f)).
Proof. intros Hf. apply neutral_atomically. intros s M HI. cbn. apply inv_same; eauto. Qed.

(** Calls on the player of the session are right. *)
Lemma player_call s M : zlm_inv s M -> player_ (input s) <> 0 ->
  mk_player_call (player_ (input s)) (lib s) = lib s.
Proof.
  intros HI Hp. unfold mk_player_call. rewrite bool_decide_eq_true_2; [done|].
  rewrite (zi_players _ _ HI), (proj2 (Z.eqb_neq _ _) Hp). multiset_solver.
Qed.

Lemma neutral_play : zneutral (update play).
Proof.
  apply neutral_atomically. intros s M HI. cbn. unfold play. destruct (Z.eqb_spec (player_ (input s)) 0) as [|Hp]; [done|].
  unfold on_lib. rewrite (player_call s M HI Hp). by destruct s.
Qed.

Lemma history_take fate n i : history_ok i -> history_ok (take_packets fate n i).
Proof.
  intros [Hq Hb]. split; cbn.
  - rewrite Hq, fmap_app, <- app_assoc. f_equal. rewrite <- (list_fmap_compose (pair fate) snd).
    rewrite (list_fmap_ext _ id) by done. rewrite list_fmap_id. by rewrite take_drop.
  - rewrite length_drop. lia.
Qed.

Lemma history_queue_packet p i : history_ok i -> history_ok (queue_packet p i).
Proof.
  intros H. assert (history_ok (if (length (packets_ i) =? kCapacity)%nat then take_packets Dropped 1 i else i)) as H'
    by (destruct (_ =? _)%nat; [by apply history_take|done]).
  unfold queue_packet. destruct H' as [Hq Hb]. split; cbn [push_packet queued gone packets_].
  - by rewrite Hq, app_assoc.
  - rewrite length_app. cbn [length].
    destruct (Nat.eqb_spec (length (packets_ i)) kCapacity) as [E|E].
    + cbn [take_packets packets_]. rewrite length_drop, E. unfold kCapacity. lia.
    + destruct H as [_ Hb0]. lia.
Qed.

Lemma same_refl s M : zlm_inv s M -> same_objects (input s) (input s).
Proof. intros HI. split; try done. apply (zi_open _ _ HI). Qed.
(** ** Everybody but the owner *)

Lemma neutral_request_stop : zneutral RequestStop.
Proof. apply neutral_input. intros s M HI. split; try done. intros []. by split. Qed.

Lemma neutral_shutdown : zneutral OnShutdown.
Proof.
  apply neutral_input. intros s M HI. split; try done; [apply (zi_open _ _ HI)|]. intros []. by split.
Qed.

Lemma neutral_read_section : zneutral (atomically (read_section pow int_of_double)).
Proof.
  apply neutral_atomically. intros s M HI. unfold read_section. pose proof (zi_open _ _ HI) as Ho.
  destruct (stopped_ (input s)) eqn:Hs; [done|]. destruct (packets_ (input s)) as [|p ps] eqn:Hp.
  - destruct (reconnect_required_ _); [|done]. cbv zeta. destruct (_ && _); [done|]. cbn [snd].
    apply inv_same; [done|]. split; [done|done|done|intros _; by apply Ho|]. intros []. by split.
  - apply inv_same; [done|]. split; [done|done|done|intros _; by apply Ho|]. apply history_take.
Qed.

Lemma neutral_read_program : zneutral (Read pow int_of_double;;; Ret tt).
Proof.
  unfold Read. apply neutral_bind; [|done]. apply neutral_bind; [apply neutral_read_section|].
  intros [st p|delay]; [done|]. apply neutral_bind; [apply neutral_read|]. intros []; [done|].
  apply neutral_bind; [apply neutral_play|done].
Qed.

Lemma neutral_frame f : zneutral (OnFrame f).
Proof.
  unfold OnFrame. apply neutral_bind; [apply neutral_read|]. intros stopped. destruct (_ || _); [done|].
  apply neutral_input. intros s M HI.
  assert (forall i, player_ (queue_packet (frame_packet f) i) = player_ i /\
                    delegates_ (queue_packet (frame_packet f) i) = delegates_ i /\
                    stopped_ (queue_packet (frame_packet f) i) = stopped_ i) as Hq
    by (intros i; unfold queue_packet; destruct (_ =? _)%nat; done).
  destruct (Hq (input s)) as (E1 & E2 & E3). split; [done|done|congruence|rewrite E3; apply (zi_open _ _ HI)|].
  apply history_queue_packet.
Qed.

(** A thread that has a delegate of its own. *)
Lemma mult_del d d' : multiplicity (inl d) ({[+ inl d' +]} : gmultiset Obl) = if decide (d = d') then 1%nat else 0%nat.
Proof.
  rewrite multiplicity_singleton. destruct (decide (d = d')) as [->|Hn]; [by rewrite decide_True|].
  rewrite decide_False; [done|]. intros [= ?]. done.
Qed.
Lemma mult_owner d o : multiplicity (inl d) ({[+ inr o +]} : gmultiset Obl) = 0%nat.
Proof. rewrite multiplicity_singleton. by rewrite decide_False. Qed.

(** Delegates change hands; owners do not notice. *)
Lemma inv_delegates s M M' i' l' : zlm_inv s M -> wrong l' = false -> players l' = players (lib s) ->
  player_ i' = player_ (input s) -> stopped_ i' = stopped_ (input s) ->
  (delegates_ i' <> [] -> player_ i' <> 0) ->
  (forall o, inr o ∈ M -> ow_empty o = true -> delegates_ i' = []) ->
  (forall d, multiplicity d (registered l') =
    (multiplicity d (list_to_set_disj (delegates_ i') : gmultiset Delegate) + multiplicity (inl d) M')%nat) ->
  (forall o, multiplicity (inr o) M' = multiplicity (inr o) M) -> history_ok i' ->
  zlm_inv (mkZlm i' l' (busy s)) M'.
Proof.
  intros [H1 H2 H3 H4 H5 H6 H7 H8] Hw Hp Hpl Hst Hd He Hr Ho Hh. split; cbn [input lib busy]; try done.
  - by rewrite Hp, Hpl.
  - rewrite Hst, Hpl. done.
  - intros o Hin. rewrite elem_of_multiplicity, Ho, <- elem_of_multiplicity in Hin.
    destruct (H6 o Hin) as [(Ha & Hb & Hc) Hbusy]. split; [|done]. split_and!; [congruence|rewrite Hst; done|].
    intros Ht. rewrite Hst. split; [by apply Hc|eauto].
  - intros o o' F HM Hin. subst M'. apply (H7 o o' (M ∖ {[+ inr o +]})).
    + specialize (Ho o). rewrite multiplicity_disj_union, multiplicity_singleton_eq in Ho.
      apply gmultiset_disj_union_difference'. rewrite elem_of_multiplicity. lia.
    + specialize (Ho o'). rewrite multiplicity_disj_union in Ho. rewrite elem_of_multiplicity in *.
      rewrite multiplicity_difference. lia.
Qed.

(** A registered delegate goes to the list, or back. *)
Lemma keep_delegate_wp (d : Delegate) :
  zwp {[+ inl d +]} (remove_delegate <-- atomically (fun s =>
      if stopped_ (input s) then (true, s) else (false, on_input (fun i => set_delegates (delegates_ i ++ [d]) i) s));
    if (remove_delegate : bool) then update (on_lib (mk_track_del_delegate d)) else Ret tt) (fun _ O => O = ∅).
Proof.
  apply Atomic.wp_bind. intros s F b s' HI Hb. destruct (stopped_ (input s)) eqn:Hs; injection Hb as <- <-.
  - exists {[+ inl d +]}. split; [done|]. clear HI. intros s1 F1 b1 s2 HI1 [= <- <-]. exists ∅. split; [|done].
    rewrite (left_id_L ∅ (⊎)). pose proof HI1 as [H1 H2 H3 H4 H5 H6 H7 H8]. unfold on_lib, mk_track_del_delegate.
    rewrite bool_decide_eq_true_2.
    2:{ apply elem_of_multiplicity. rewrite H3, multiplicity_disj_union, mult_del, decide_True by done. lia. }
    eapply inv_delegates; try done; cbn [registered].
    + intros o Ho He. by apply (H6 o Ho).
    + intros d'. rewrite multiplicity_difference, H3, multiplicity_disj_union, mult_del, multiplicity_singleton. destruct (decide _); lia.
    + intros o. rewrite multiplicity_disj_union, multiplicity_singleton, decide_False by done. lia.
  - exists ∅. split; [|done]. rewrite (left_id_L ∅ (⊎)). pose proof HI as [H1 H2 H3 H4 H5 H6 H7 H8].
    eapply inv_delegates; try done; cbn [registered lib delegates_ set_delegates player_].
    + intros _. by apply H4.
    + intros o Ho He. destruct (H6 o Ho) as [(_ & _ & Hc) _]. destruct (Hc He). congruence.
    + intros d'. rewrite H3, list_to_set_disj_app, !multiplicity_disj_union, mult_del. cbn [list_to_set_disj].
      rewrite multiplicity_disj_union, multiplicity_singleton, multiplicity_empty. destruct (decide _); lia.
    + intros o. rewrite multiplicity_disj_union, multiplicity_singleton, decide_False by done. lia.
    + destruct H8. by split.
Qed.

Lemma add_track_wp t : zneutral (add_track t).
Proof.
  unfold add_track. destruct t.2; cbn [negb]; [|done]. unfold neutral. apply Atomic.wp_bind.
  intros s F b s' HI [= <- <-]. rewrite (left_id_L ∅ (⊎)) in HI. cbn [Atomic.wp].
  destruct (Z.eqb_spec (answer (lib s)) 0) as [H0|H0].
  { exists ∅. rewrite (left_id_L ∅ (⊎)). split; [|done].
    unfold on_lib, mk_track_add_delegate. rewrite H0. cbn. destruct HI. by split. }
  exists {[+ inl (t.1, answer (lib s)) +]}. split; [|apply keep_delegate_wp].
  unfold on_lib, mk_track_add_delegate. rewrite (proj2 (Z.eqb_neq _ _) H0). pose proof HI as [H1 H2 H3 H4 H5 H6 H7 H8].
  eapply inv_delegates; try done; cbn [registered lib].
  - intros o Ho He. by apply (H6 o Ho).
  - intros d'. rewrite !multiplicity_disj_union, H3, mult_del, multiplicity_singleton. destruct (decide _); lia.
  - intros o. rewrite multiplicity_disj_union, multiplicity_singleton, decide_False by done. lia.
Qed.

Lemma neutral_play_callback error tracks : zneutral (OnPlay error tracks).
Proof.
  unfold OnPlay. destruct (negb _); [apply neutral_shutdown|]. apply neutral_bind.
  - apply neutral_atomically. intros s M HI. destruct (stopped_ (input s)) eqn:Hs; [done|]. cbn [snd].
    apply inv_same; [done|]. split; [done|done|done|intros _; by apply (zi_open _ _ HI)|]. intros []. by split.
  - intros []; cbn [negb]; [|done]. apply neutral_for_each, add_track_wp.
Qed.
(** ** The owner *)

Definition token (p : Z) (stopped empty : bool) : gmultiset Obl := {[+ inr (mkOwner p stopped empty) +]}.
Definition holding (ds : list Delegate) : gmultiset Obl := list_to_set_disj (map inl ds).

Lemma mult_holding d ds : multiplicity (inl d) (holding ds) = multiplicity d (list_to_set_disj ds : gmultiset Delegate).
Proof.
  unfold holding. induction ds as [|d' ds IH]; [done|]. cbn [map list_to_set_disj].
  rewrite !multiplicity_disj_union, IH, mult_del, multiplicity_singleton. done.
Qed.
Lemma holding_no_owner o ds : inr o ∉ holding ds.
Proof. unfold holding. rewrite elem_of_list_to_set_disj, list_elem_of_fmap. by intros (d & ? & _). Qed.

Lemma owner_alone s p a e F : zlm_inv s (token p a e ⊎ F) ->
  (forall o, inr o ∉ F) /\ owner_knows (mkOwner p a e) (input s) /\ busy s = true.
Proof.
  intros HI. split; [|apply (zi_owner _ _ HI); unfold token; multiset_solver].
  intros o. by eapply (zi_unique _ _ HI).
Qed.

Lemma mult_token d p a e : multiplicity (inl d) (token p a e) = 0%nat.
Proof. apply mult_owner. Qed.

Lemma only_owner o F : (forall o, inr o ∉ F) ->
  forall o1 o2 G, ({[+ inr o +]} ⊎ F : gmultiset Obl) = {[+ inr o1 +]} ⊎ G -> inr o2 ∉ G.
Proof.
  intros HF o1 o2 G HG Hin. assert (o1 = o) as ->.
  { assert (inr o1 ∈ ({[+ inr o +]} ⊎ F : gmultiset Obl)) as H1 by (rewrite HG; multiset_solver).
    apply gmultiset_elem_of_disj_union in H1 as [H1|H1]; [|by apply HF in H1].
    apply gmultiset_elem_of_singleton in H1. by injection H1. }
  apply (inj _) in HG. subst G. by apply HF in Hin.
Qed.

(** What the owner does is his own business. *)
Lemma inv_owner s p a e F i' l' a' e' F' :
  zlm_inv s (token p a e ⊎ F) -> (forall o, inr o ∉ F') -> wrong l' = false ->
  players l' = (if player_ i' =? 0 then ∅ else {[+ player_ i' +]}) ->
  (forall d, multiplicity d (registered l') =
    (multiplicity d (list_to_set_disj (delegates_ i') : gmultiset Delegate) + multiplicity (inl d) F')%nat) ->
  (stopped_ i' = false -> player_ i' <> 0) -> (delegates_ i' <> [] -> player_ i' <> 0) ->
  (a' = true -> stopped_ i' = true) -> (e' = true -> stopped_ i' = true /\ delegates_ i' = []) -> history_ok i' ->
  zlm_inv (mkZlm i' l' (busy s)) (token (player_ i') a' e' ⊎ F').
Proof.
  intros HI HF' Hw Hp Hr Ho Hd Ha He Hh. apply owner_alone in HI as (_ & _ & Hbusy). split; cbn [input lib busy]; try done.
  - intros d. by rewrite multiplicity_disj_union, mult_token, Hr.
  - intros o [Hin|Hin]%gmultiset_elem_of_disj_union; [|by apply HF' in Hin].
    apply gmultiset_elem_of_singleton in Hin. injection Hin as ->. done.
  - by apply only_owner.
Qed.

Lemma fold_delegates ds l :
  (forall d, (multiplicity d (list_to_set_disj ds : gmultiset Delegate) <= multiplicity d (registered l))%nat) ->
  foldl (fun l d => mk_track_del_delegate d l) l ds =
  mkLibrary (players l) (registered l ∖ list_to_set_disj ds) (wrong l) (answer l).
Proof.
  revert l. induction ds as [|d ds IH]; intros l Hd; cbn [foldl].
  - destruct l; cbn. f_equal. cbn [list_to_set_disj]. multiset_solver.
  - assert (d ∈ registered l) as Hin.
    { apply elem_of_multiplicity. specialize (Hd d). cbn [list_to_set_disj] in Hd.
      rewrite multiplicity_disj_union, multiplicity_singleton_eq in Hd. lia. }
    unfold mk_track_del_delegate at 2. rewrite bool_decide_eq_true_2 by done. rewrite IH.
    + cbn [players registered wrong answer list_to_set_disj]. f_equal. apply gmultiset_eq. intros x. rewrite !multiplicity_difference, multiplicity_disj_union. lia.
    + intros x. cbn [registered]. specialize (Hd x). cbn [list_to_set_disj] in Hd.
      rewrite multiplicity_disj_union in Hd. rewrite multiplicity_difference. lia.
Qed.

(** The player is released with the delegates that were in the list. *)
Lemma release_player_wp p ds : (ds <> [] -> p <> 0) ->
  zwp (token p true true ⊎ holding ds) (update (release_player ds)) (fun _ O => O = token 0 true true).
Proof.
  intros Hds s F b s' HI [= <- <-]. rewrite <- (assoc_L (⊎)) in HI. pose proof HI as [H1 H2 H3 H4 H5 _ _ H8].
  pose proof (owner_alone _ _ _ _ _ HI) as (HF & (Hp & Hs & He) & _). cbn in Hp, Hs, He. specialize (Hs eq_refl).
  destruct (He eq_refl) as [_ Hempty]. exists (token 0 true true). split; [|done].
  assert (forall o, inr o ∉ F) as HF' by (intros o Ho; apply (HF o); multiset_solver).
  unfold release_player. rewrite <- Hp. destruct (Z.eqb_spec p 0) as [->|Hp0].
  - assert (ds = []) as -> by (destruct ds; [done|]; exfalso; by apply Hds).
    pose proof (inv_owner s 0 true true (holding [] ⊎ F) (input s) (lib s) true true F HI HF') as HI'.
    rewrite <- Hp in HI'. destruct s. apply HI'; cbn [input lib busy] in *; try done.
    + rewrite H2. by rewrite <- Hp.
    + intros d. rewrite H3, !multiplicity_disj_union, mult_token, mult_holding. done.
    + by rewrite Hs.
  - rewrite Hp in Hp0 |- *. unfold on_lib, on_input. cbn [lib input busy]. rewrite !(player_call s _ HI Hp0).
    rewrite fold_delegates.
    2:{ intros d. rewrite H3, !multiplicity_disj_union, mult_holding. lia. }
    unfold mk_player_release. cbn [players registered]. rewrite H2, (proj2 (Z.eqb_neq _ _) Hp0).
    rewrite bool_decide_eq_true_2 by multiset_solver.
    apply (inv_owner s p true true (holding ds ⊎ F) (set_player 0 (input s)) _ true true F HI HF');
      cbn [players registered wrong player_ delegates_ stopped_ set_player]; try done.
    + change (0 =? 0) with true. cbv iota. multiset_solver.
    + intros d. rewrite multiplicity_difference, H3, !multiplicity_disj_union, mult_token, mult_holding. lia.
    + congruence.
    + destruct H8. by split.
Qed.

Lemma zlm_close_wp p a e : zwp (token p a e) Close (fun _ O => O = token 0 true true).
Proof.
  unfold Close. apply Atomic.wp_bind. intros s F b s' HI [= <- <-].
  pose proof (owner_alone _ _ _ _ _ HI) as (HF & (Hp & _ & _) & _). cbn in Hp. pose proof HI as [H1 H2 H3 H4 H5 _ _ H8].
  exists (token p true false). split.
  { rewrite Hp. apply (inv_owner s p a e F (set_stopped true (input s)) (lib s) true false F HI HF); try done.
    - intros d. rewrite H3, multiplicity_disj_union, mult_token. done.
    - destruct H8. by split. }
  cbn [Atomic.wp]. clear s F HI HF Hp H1 H2 H3 H4 H5 H8. apply Atomic.wp_bind. intros s F ds s' HI [= <- <-].
  pose proof (owner_alone _ _ _ _ _ HI) as (HF & (Hp & Hs & _) & _). cbn in Hp, Hs. specialize (Hs eq_refl).
  pose proof HI as [H1 H2 H3 H4 H5 _ _ H8].
  exists (token p true true ⊎ holding (delegates_ (input s))). split.
  - rewrite <- (assoc_L (⊎)), Hp.
    apply (inv_owner s p true false F (set_reconnect false (take_packets Cleared (length (packets_ (input s)))
             (set_delegates [] (input s)))) (lib s) true true (holding (delegates_ (input s)) ⊎ F) HI); try done.
    + intros o [Ho|Ho]%gmultiset_elem_of_disj_union; [by apply holding_no_owner in Ho|by apply HF in Ho].
    + intros d. cbn. rewrite H3, !multiplicity_disj_union, mult_token, mult_holding. done.
    + destruct (history_take Cleared (length (packets_ (input s))) _ H8). by split.
  - apply release_player_wp. rewrite Hp. exact H5.
Qed.

Lemma finish_wp p a e : zwp (token p a e) (update (set_busy false)) (fun _ O => O = ∅).
Proof.
  intros s F b s' HI [= <- <-]. pose proof (owner_alone _ _ _ _ _ HI) as (HF & _ & _). exists ∅. split; [|done].
  rewrite (left_id_L ∅ (⊎)). destruct HI as [H1 H2 H3 H4 H5 H6 H7 H8]. split; cbn [set_busy input lib busy]; try done.
  - intros d. rewrite H3, multiplicity_disj_union, mult_token. done.
  - intros o Ho. by apply HF in Ho.
  - intros o o' G -> Ho. apply (HF o). multiset_solver.
Qed.

Lemma zlm_open_wp config p a e : zwp (token p a e) (Open config) (fun _ O => exists p' a' e', O = token p' a' e').
Proof.
  unfold Open. apply Atomic.wp_bind. eapply Atomic.wp_mono; [apply zlm_close_wp|]. intros [] O ->.
  case_bool_decide as Hu; [by do 3 eexists|].
  apply neutral_seq.
  { apply neutral_input. intros s M HI. split; try done; [apply (zi_open _ _ HI)|]. intros []. by split. }
  intros []. apply Atomic.wp_bind. intros s F ok s' HI Hb. unfold create_player in Hb.
  pose proof (owner_alone _ _ _ _ _ HI) as (HF & (Hp & Hs & He) & _). cbn in Hp, Hs, He. specialize (Hs eq_refl).
  destruct (He eq_refl) as [_ Hempty]. pose proof HI as [H1 H2 H3 H4 H5 _ _ H8]. rewrite <- Hp in H2. cbn in H2.
  assert (forall q l', wrong l' = false -> players l' = (if q =? 0 then ∅ else {[+ q +]}) -> registered l' = registered (lib s) ->
            zlm_inv (mkZlm (set_player q (input s)) l' (busy s)) (token q true true ⊎ F)) as Hset.
  { intros q l' Hw Hpl Hr. apply (inv_owner s 0 true true F (set_player q (input s)) l' true true F HI HF); try done.
    - intros d. cbn. rewrite Hr, H3, multiplicity_disj_union, mult_token. done.
    - cbn. congruence.
    - destruct H8. by split. }
  destruct (Z.eqb_spec (answer (lib s)) 0) as [H0|H0]; injection Hb as <- <-.
  - exists (token 0 true true). split; [|by do 3 eexists]. unfold on_input, on_lib, mk_player_create. cbn [input lib busy].
    rewrite H0. by apply Hset.
  - exists (token (answer (lib s)) true true).
    assert (players (mk_player_create (lib s)) = {[+ answer (lib s) +]}) as Hpl.
    { unfold mk_player_create. cbn [players]. rewrite (proj2 (Z.eqb_neq _ _) H0), H2. apply (right_id_L ∅ (⊎)). }
    assert (mk_player_call (answer (lib s)) (mk_player_create (lib s)) = mk_player_create (lib s)) as Hcall.
    { unfold mk_player_call. rewrite bool_decide_eq_true_2; [done|]. rewrite Hpl. by apply gmultiset_elem_of_singleton. }
    split.
    + unfold on_input, on_lib. cbn [input lib busy]. rewrite !Hcall. apply Hset; [done| |done].
      by rewrite Hpl, (proj2 (Z.eqb_neq _ _) H0).
    + cbn [Atomic.wp negb]. revert H0. generalize (answer (lib s)). clear. intros q Hq.
      apply Atomic.wp_bind. intros s F b s' HI [= <- <-].
      pose proof (owner_alone _ _ _ _ _ HI) as (HF & (Hp & Hs & He) & _). cbn in Hp, Hs, He. pose proof HI as [H1 H2 H3 H4 H5 _ _ H8].
      exists (token q false false). split.
      * rewrite Hp. apply (inv_owner s q true true F (set_attempts 0 (set_stopped false (input s))) (lib s) false false F HI HF); try done.
        -- intros d. cbn. rewrite H3, multiplicity_disj_union, mult_token. done.
        -- cbn. congruence.
        -- destruct H8. by split.
      * cbn [Atomic.wp]. apply neutral_seq; [apply neutral_play|]. intros []. by do 3 eexists.
Qed.

(** ** Every interleaving *)

Lemma zlm_spawn s p s' M : zlm_inv s M -> spawns s p s' ->
  exists O, zlm_inv s' (M ⊎ O) /\ zwp O p (fun _ O' => O' = ∅).
Proof.
  intros HI Hs.
  assert (busy s = false -> zlm_inv (set_busy true s) (M ⊎ token (player_ (input s)) false false)) as Hnew.
  { intros Hb. destruct HI as [H1 H2 H3 H4 H5 H6 H7 H8].
    assert (forall o, inr o ∉ M) as HM by (intros o Ho; apply H6 in Ho as [_ Ho]; congruence).
    rewrite (comm_L (⊎)). split; cbn [set_busy input lib busy]; try done.
    - intros d. by rewrite multiplicity_disj_union, mult_token, H3.
    - intros o [Hin|Hin]%gmultiset_elem_of_disj_union; [|by apply HM in Hin].
      apply gmultiset_elem_of_singleton in Hin. injection Hin as ->. done.
    - by apply only_owner. }
  assert (forall q : ZProg unit, zneutral q -> exists O, zlm_inv s (M ⊎ O) /\ zwp O q (fun _ O' => O' = ∅)) as Hold.
  { intros q Hq. exists ∅. by rewrite (right_id_L ∅ (⊎)). }
  destruct Hs as [config Hb|Hb| | |error tracks| |f].
  - eexists. split; [by apply Hnew|]. apply Atomic.wp_bind. eapply Atomic.wp_mono; [apply zlm_open_wp|].
    intros st O (p' & a' & e' & ->). apply finish_wp.
  - eexists. split; [by apply Hnew|]. apply Atomic.wp_bind. eapply Atomic.wp_mono; [apply zlm_close_wp|].
    intros [] O ->. apply finish_wp.
  - apply Hold, neutral_request_stop.
  - apply Hold, neutral_read_program.
  - apply Hold, neutral_play_callback.
  - apply Hold, neutral_shutdown.
  - apply Hold, neutral_frame.
Qed.

Lemma zlm_reachable c : rtc zlm_step (new_zlm, []) c -> pool_inv zlm_inv c.
Proof.
  intros Hr. eapply (pool_inv_reachable spawns answers zlm_inv); [apply zlm_spawn| | |exact Hr].
  - intros s s' M [H1 H2 H3 H4 H5 H6 H7 H8] [x ->]. by split.
  - exists []. split_and!; [done|done|]. split; try done.
    + intros o Ho. by apply gmultiset_not_elem_of_empty in Ho.
    + intros o o' F HF. exfalso. assert (inr o ∈ (∅ : gmultiset Obl)) as Hin.
      { change (inr o ∈ (⋃+ (([] : list (gmultiset Obl * ZProg unit)).*1))). rewrite HF. apply gmultiset_elem_of_disj_union. left. by apply gmultiset_elem_of_singleton. }
      by apply gmultiset_not_elem_of_empty in Hin.
    + split; cbn; [done|lia].
Qed.
End pool.


(** ** A session *)

(** [Open], the stream plays with one video track, a frame comes, [Close]. *)
Definition demo_session : StreamingSessionConfig := mkSession "rtsp://host/stream" "tcp" (sc_reconnect default_session).
Definition demo_frame : mk_frame := mkFrame true 40 40 "H264" true 9.

(** The state after a thread has run alone. *)
Definition after (p : ZProg unit) (s : Zlm) : Zlm := match run p s with Some (_, s') => s' | None => s end.
Definition runs (p : ZProg unit) (s : Zlm) : bool := match run p s with Some _ => true | None => false end.

Section demo.
Context (pow : spec_float -> Z -> spec_float) (int_of_double : spec_float -> Z).

Lemma spawn_run s ts p s1 : spawns pow int_of_double s p s1 -> runs p s1 = true ->
  rtc (zlm_step pow int_of_double) (s, ts) (after p s1, ts ++ [Ret tt]).
Proof.
  intros Hs Hr. eapply rtc_l; [by apply (pstep_spawn (spawns pow int_of_double) answers), Hs|].
  apply (run_steps (spawns pow int_of_double) answers). unfold runs, after in *. by destruct (run p s1) as [[[] s2]|].
Qed.
Lemma answer_step a s ts : rtc (zlm_step pow int_of_double) (s, ts) (on_lib (set_answer a) s, ts).
Proof. apply rtc_once, pstep_env. by exists a. Qed.
End demo.

Definition demo_pow (x : spec_float) (n : Z) : spec_float := double_of_Z 1.
Definition demo_int (x : spec_float) : Z := 0.

Definition demo_opened : Zlm :=
  after (Open demo_session;;; update (set_busy false)) (set_busy true (on_lib (set_answer 5) new_zlm)).
Definition demo_playing : Zlm := after (OnPlay 0 [(1, true); (2, false)]) (on_lib (set_answer 6) demo_opened).
Definition demo_queued : Zlm := after (OnFrame demo_frame) demo_playing.
Definition demo_closed : Zlm := after (Close;;; update (set_busy false)) (set_busy true demo_queued).

