(* ===== verification/ZlmOutput.v ===== *)
(** * The output side of the streaming backend

    [src/modules/streaming/backend.cpp], [ZlmOutputBackend]: the first packet that is published
    creates a media source and a pusher of ZLMediaKit, whose callbacks ask for key frames.  The
    library, the buffers and the application's callback are the outside ([ZlmCmd]); 0 is null.

    [zlm_output_safe]: the objects of the library are used while they exist and released once. *)

From S2P Require Import Prelude Status Timestamp Values Buffer Device Backends.
From stdpp Require Import list gmultiset pretty.
Local Open Scope rkavp_scope.
Local Open Scope Z_scope.

(** ** The library *)

Class ZlmLib := { MKCodecH264 : Z; MKCodecH265 : Z; MKCodecJPEG : Z }.

Inductive PusherCall :=
| pusher_set_option (value : string)
| pusher_set_on_result (set : bool)
| pusher_set_on_shutdown (set : bool)
| pusher_publish (url : string).

(** A frame with the buffer whose mapping it refers to. *)
Record zlm_frame := mkZlmFrame { zf_id : Z; zf_data : Z }.

Inductive ZlmCmd :=
| mk_media_create (stream_id : string)
| mk_media_init_video (media codec : Z)
| mk_media_init_complete (media : Z)
| mk_media_input_frame (media : Z) (f : zlm_frame)
| mk_media_release (media : Z)
| mk_pusher_create (stream_id : string)
| mk_pusher (pusher : Z) (c : PusherCall)
| mk_pusher_release (pusher : Z)
| mk_frame_create (codec dts pts b size : Z)
| mk_frame_unref (f : zlm_frame)
| KeyFrameRequest
| ZBuf (c : BufCmd).

Definition ZlmAns (c : ZlmCmd) : Type :=
  match c with
  | mk_media_create _ | mk_pusher_create _ | mk_frame_create _ _ _ _ _ => Z
  | mk_media_init_video _ _ | mk_media_input_frame _ _ => bool
  | mk_media_init_complete _ | mk_media_release _ | mk_pusher _ _ | mk_pusher_release _ | mk_frame_unref _
  | KeyFrameRequest => unit
  | ZBuf c => BufAns c
  end.

(** ** The object *)

(* [src/modules/streaming/backend.cpp:295-300] ZlmOutputBackend (fields) *)
Record ZlmOutput := mkZlmOutput {
  config_ : StreamingSessionConfig;
  stream_id_ : string;
  media_ : Z;
  pusher_ : Z;
  connected_ : bool;
  key_frame_callback_ : bool }.
Definition new_output (id : string) : ZlmOutput := mkZlmOutput default_session id 0 0 false false.

Definition set_config (c : StreamingSessionConfig) (s : ZlmOutput) : ZlmOutput :=
  mkZlmOutput c (stream_id_ s) (media_ s) (pusher_ s) (connected_ s) (key_frame_callback_ s).
Definition set_media (m : Z) (s : ZlmOutput) : ZlmOutput :=
  mkZlmOutput (config_ s) (stream_id_ s) m (pusher_ s) (connected_ s) (key_frame_callback_ s).
Definition set_pusher (p : Z) (s : ZlmOutput) : ZlmOutput :=
  mkZlmOutput (config_ s) (stream_id_ s) (media_ s) p (connected_ s) (key_frame_callback_ s).
Definition set_connected (b : bool) (s : ZlmOutput) : ZlmOutput :=
  mkZlmOutput (config_ s) (stream_id_ s) (media_ s) (pusher_ s) b (key_frame_callback_ s).
Definition set_callback (b : bool) (s : ZlmOutput) : ZlmOutput :=
  mkZlmOutput (config_ s) (stream_id_ s) (media_ s) (pusher_ s) (connected_ s) b.

Abbreviation OProg := (dprog ZlmAns ZlmOutput).
Abbreviation ocall := (dcall (Ans := ZlmAns) (S := ZlmOutput)).

Section backend.
Context {ZL : ZlmLib} {BH : BufferHeap}.

(* [src/modules/streaming/backend.cpp:33-38] CodecId *)
Definition CodecId (codec : string) : Z :=
  if bool_decide (codec = "h264") || bool_decide (codec = "avc") then MKCodecH264
  else if bool_decide (codec = "h265") || bool_decide (codec = "hevc") then MKCodecH265
  else if bool_decide (codec = "mjpeg") || bool_decide (codec = "jpeg") then MKCodecJPEG
  else -1.

(* [src/modules/streaming/backend.cpp:269-281] ZlmOutputBackend::Close *)
Definition Close : OProg unit :=
  p <~ dget pusher_;
  (if p =? 0 then DRet tt else
   ocall (mk_pusher p (pusher_set_on_result false));~
   ocall (mk_pusher p (pusher_set_on_shutdown false));~
   ocall (mk_pusher_release p));~
  dset (set_pusher 0);~
  m <~ dget media_;
  (if m =? 0 then DRet tt else ocall (mk_media_release m));~
  dset (set_media 0);~
  dset (set_connected false).

(* [src/modules/streaming/backend.cpp:209-215] ZlmOutputBackend::Open *)
Definition Open (config : StreamingSessionConfig) : OProg Status :=
  Close;~
  if bool_decide (sc_url config = "") then DRet (Invalid "streaming output URL is empty") else
  dset (set_config config);~ DRet Ok.

(** The media source and the pusher are created. *)
Definition create_session (codec_id : Z) : OProg Status :=
  id <~ dget stream_id_;
  m <~ ocall (mk_media_create id);
  dset (set_media m);~
  good <~ (if m =? 0 then DRet false else ocall (mk_media_init_video m codec_id));
  if negb good then Close;~ DRet (Unavailable "ZLMediaKit media source initialization failed") else
  ocall (mk_media_init_complete m);~
  p <~ ocall (mk_pusher_create id);
  dset (set_pusher p);~
  if p =? 0 then Close;~ DRet (Unavailable "mk_pusher_create failed") else
  config <~ dget config_;
  ocall (mk_pusher p (pusher_set_option (if bool_decide (sc_transport config = "udp") then "0" else "1")));~
  ocall (mk_pusher p (pusher_set_on_result true));~
  ocall (mk_pusher p (pusher_set_on_shutdown true));~
  ocall (mk_pusher p (pusher_publish (sc_url config)));~
  DRet Ok.

Definition fence_wait (b : Z) : OProg Status :=
  f <~ ocall (ZBuf (BufFence b));
  if (f : bool) then ocall (ZBuf (BufFenceWait b)) else DRet Ok.

Definition milliseconds (t : Timestamp) : Z := if is_range_value t then u64 (Z.quot (microseconds t) 1000) else 0.

(** The packet is handed to the media source. *)
Definition input_packet (packet : EncodedPacket) (b codec_id : Z) : OProg Status :=
  st <~ fence_wait b;
  if negb (ok st) then DRet st else
  st <~ ocall (ZBuf (BufBegin b kRead));
  if negb (ok st) then DRet st else
  data <~ ocall (ZBuf (BufMap b kRead));
  if negb data then
    ocall (ZBuf (BufEnd b kRead));~ DRet (Invalid "streaming packet is not CPU mappable")
  else
  frame <~ ocall (mk_frame_create codec_id (milliseconds (ep_dts packet)) (milliseconds (ep_pts packet)) b (buf_size b));
  media <~ dget media_;
  accepted <~ (if frame =? 0 then DRet false else
               a <~ ocall (mk_media_input_frame media (mkZlmFrame frame b));
               ocall (mk_frame_unref (mkZlmFrame frame b));~ DRet (a : bool));
  ocall (ZBuf (BufUnmap b));~
  st <~ ocall (ZBuf (BufEnd b kRead));
  if negb (ok st) then DRet st
  else if frame =? 0 then DRet (Unavailable "mk_frame_create failed")
  else DRet (if (accepted : bool) then Ok else Unavailable "ZLMediaKit rejected encoded packet").

(* [src/modules/streaming/backend.cpp:217-263] ZlmOutputBackend::Publish *)
Definition Publish (packet : EncodedPacket) : OProg Status :=
  match ep_buffer packet with
  | None => DRet (Invalid "streaming output packet has no buffer")
  | Some b =>
      let codec_id := CodecId (ep_codec packet) in
      if codec_id <? 0 then DRet (Invalid ("unsupported streaming codec: " +:+ ep_codec packet)) else
      m <~ dget media_;
      st <~ (if m =? 0 then create_session codec_id else DRet Ok);
      if negb (ok st) then DRet st else input_packet packet b codec_id
  end.

(* [src/modules/streaming/backend.cpp:265-267] ZlmOutputBackend::SetKeyFrameRequestCallback *)
Definition SetKeyFrameRequestCallback (present : bool) : OProg unit := dset (set_callback present).

Definition request_key_frame : OProg unit :=
  c <~ dget key_frame_callback_;
  if (c : bool) then ocall KeyFrameRequest else DRet tt.

(* [src/modules/streaming/backend.cpp:284-288] ZlmOutputBackend::OnPublish *)
Definition OnPublish (error : Z) : OProg unit :=
  dset (set_connected (error =? 0));~
  if error =? 0 then request_key_frame else DRet tt.

(* [src/modules/streaming/backend.cpp:289-293] ZlmOutputBackend::OnShutdown *)
Definition OnShutdown : OProg unit := dset (set_connected false);~ request_key_frame.
End backend.

(** ** What the calls need and leave *)

Definition hmedia (m : Z) : Handle := ("media", m).
Definition hpusher (p : Z) : Handle := ("pusher", p).
Definition hzframe (f : zlm_frame) : Handle := ("frame on " +:+ pretty (zf_data f), zf_id f).

Section safety.
Context {ZL : ZlmLib} {BH : BufferHeap}.

Definition zlm_effect (ev : devent ZlmAns) : Effect Handle :=
  let 'Ev c a := ev in
  match c return ZlmAns c -> Effect Handle with
  | mk_media_create _ => fun m => obtaining (created m (hmedia m))
  | mk_media_init_video m _ => fun _ => needing [hmedia m]
  | mk_media_init_complete m => fun _ => needing [hmedia m]
  | mk_media_input_frame m f => fun _ => needing [hmedia m; hzframe f; hmap (zf_data f)]
  | mk_media_release m => fun _ => returning [hmedia m]
  | mk_pusher_create _ => fun p => obtaining (created p (hpusher p))
  | mk_pusher p _ => fun _ => needing [hpusher p]
  | mk_pusher_release p => fun _ => returning [hpusher p]
  | mk_frame_create _ _ _ b _ => fun f => mkEffect [hmap b] [] [] (created f (hzframe (mkZlmFrame f b)))
  | mk_frame_unref f => fun _ => returning [hzframe f]
  | KeyFrameRequest => fun _ => no_effect
  | ZBuf c => fun a => buf_effect c a
  end a.

(** A frame stays inside its buffer. *)
Definition zlm_guard (c : ZlmCmd) : bool :=
  match c with mk_frame_create _ _ _ b n => n <=? buf_size b | _ => true end.

(** Nothing is assumed of the answers. *)
Definition zlm_allowed (_ : Held) (_ : devent ZlmAns) : Prop := True.

(** A session has both its media source and its pusher, or neither. *)
Definition total (s : ZlmOutput) : Held :=
  hset (created (pusher_ s) (hpusher (pusher_ s))) ⊎ hset (created (media_ s) (hmedia (media_ s))).
Definition out_inv (s : ZlmOutput) (held : Held) : Prop := held = total s /\ (media_ s = 0 <-> pusher_ s = 0).

Abbreviation out_gstep := (handle_step zlm_effect zlm_guard).
Abbreviation owp := (wp out_gstep zlm_allowed).
Implicit Types (s : ZlmOutput) (held rest : Held).

Ltac uses := eapply step_use; [done|done|solve [eauto 12 with held]].
Ltac gives := by apply step_give.

Lemma out_buf_step c a held held' : account (buf_effect c a) held = Some held' ->
  out_gstep (Ev (ZBuf c) a) held = Some held'.
Proof. done. Qed.

(** A creation without a result code. *)
Lemma make_wp {A} c (needs : list Handle) (h : Z -> Handle) (obj : ZlmAns c -> Z) s held
    (k : ZlmAns c -> OProg A) (Q : A -> ZlmOutput -> Held -> Prop) :
  zlm_guard c = true -> (forall r, zlm_effect (Ev c r) = mkEffect needs [] [] (created (obj r) (h (obj r)))) ->
  hset needs ⊆ held ->
  (forall r, owp (k r) Q s (hset (created (obj r) (h (obj r))) ⊎ held)) -> owp (dbind (ocall c) k) Q s held.
Proof.
  intros Hg He Hn Hk. refine (wp_call _ _ c _ _ _ _ _). intros r _. eexists. split; [by apply (step_take _ _ _ _ needs)|done].
Qed.

Lemma out_close_wp s (Q : unit -> ZlmOutput -> Held -> Prop) :
  Q tt (set_connected false (set_media 0 (set_pusher 0 s))) ∅ -> owp Close Q s (total s).
Proof.
  intros HQ. unfold Close, total. wstep. apply dwp_bind, wp_release.
  { intros Q' H'. wcall [] _; [uses|]. wcall [] _; [uses|]. wcall [] _; [gives|done]. }
  repeat wstep. cbn [media_ set_pusher].
  rewrite <- (gmultiset_disj_union_right_id (hset (created (media_ s) _))).
  apply dwp_bind, wp_release; [intros Q' H'; wcall [] _; [gives|done]|]. repeat wstep. done.
Qed.
Lemma out_closed_inv s : out_inv (set_connected false (set_media 0 (set_pusher 0 s))) ∅.
Proof. by split. Qed.

(** A session that cannot be completed is taken down. *)
Lemma create_session_wp codec s held (Q : Status -> ZlmOutput -> Held -> Prop) :
  out_inv s held -> media_ s = 0 ->
  (forall st s' held', out_inv s' held' -> (ok st = true -> media_ s' <> 0) -> Q st s' held') ->
  owp (create_session codec) Q s held.
Proof.
  intros [-> Hboth] Hm HQ. pose proof (proj1 Hboth Hm) as Hp.
  assert (total s = ∅) as -> by (unfold total; by rewrite Hm, Hp).
  unfold create_session. wstep.
  apply (make_wp (mk_media_create (stream_id_ s)) [] hmedia (fun m => m)); [done|done|done|]. cbn beta. intros m. wstep.
  rewrite gmultiset_disj_union_right_id. apply dwp_bind.
  assert (forall st, ok st = false -> owp (Close;~ DRet st) Q (set_media m s) (hset (created m (hmedia m)))) as Hfail.
  { intros st Hst. replace (hset (created m (hmedia m))) with (total (set_media m s)).
    - apply dwp_bind, out_close_wp. wstep. apply HQ; [apply out_closed_inv|congruence].
    - unfold total. cbn [pusher_ media_ set_media]. rewrite Hp. change (created 0 _) with (@nil Handle). apply hset_none. }
  destruct (Z.eqb_spec m 0) as [->|H0]; [wstep; cbn [negb]; by apply Hfail|].
  rewrite created_some in * by done.
  assert (hmedia m ∈ hset [hmedia m]) as Hin by (unfold hset; simpl; multiset_solver).
  wcall good _; [uses|]. destruct good; cbn [negb]; [|by apply Hfail]. wcall [] _; [uses|].
  apply (make_wp (mk_pusher_create (stream_id_ s)) [] hpusher (fun p => p)); [done|done|apply hset_sub; [constructor|set_solver]|].
  cbn beta. intros p. wstep.
  assert (hset (created p (hpusher p)) ⊎ hset [hmedia m] = total (set_pusher p (set_media m s))) as Ht
    by (unfold total; cbn [pusher_ media_ set_media set_pusher]; by rewrite (created_some m)).
  destruct (Z.eqb_spec p 0) as [Hp0|Hp0].
  { rewrite Ht. apply dwp_bind, out_close_wp. wstep. by apply HQ. }
  wstep. do 4 (wcall [] _; [uses|]). wstep. apply HQ; [|done]. split; [exact Ht|]. cbn. done.
Qed.

Lemma out_fence_wait_wp b s held (Q : Status -> ZlmOutput -> Held -> Prop) :
  (forall st, Q st s held) -> owp (fence_wait b) Q s held.
Proof.
  intros HQ. unfold fence_wait. wcall f _; [by apply step_none|]. destruct f; [|wstep; auto].
  wcall st _; [by apply step_none|]. auto.
Qed.

Lemma input_packet_wp packet b codec s (Q : Status -> ZlmOutput -> Held -> Prop) :
  media_ s <> 0 -> (forall st, Q st s (total s)) -> owp (input_packet packet b codec) Q s (total s).
Proof.
  intros Hm HQ. unfold input_packet. apply dwp_bind, out_fence_wait_wp. intros st. destruct (negb (ok st)); [wstep; auto|].
  wcall st1 _; [apply out_buf_step, account_begin|]. destruct (ok st1); cbn [negb]; [|wstep; auto].
  wcall x _; [apply out_buf_step, account_map|]. destruct x; cbn [negb].
  2:{ wcall st2 _; [apply out_buf_step, account_end|]. wstep. auto. }
  apply (make_wp (mk_frame_create codec (milliseconds (ep_dts packet)) (milliseconds (ep_pts packet)) b (buf_size b)) [hmap b]
           (fun f => hzframe (mkZlmFrame f b)) (fun f => f)); [cbn; apply Z.leb_refl|done|auto with held|]. cbn beta. intros f.
  wstep. apply dwp_bind.
  assert (forall a : bool, owp (ocall (ZBuf (BufUnmap b));~ st <~ ocall (ZBuf (BufEnd b kRead));
      if negb (ok st) then DRet st else if f =? 0 then DRet (Unavailable "mk_frame_create failed")
      else DRet (if a then Ok else Unavailable "ZLMediaKit rejected encoded packet")) Q s
      ({[+ hmap b +]} ⊎ ({[+ hcpu b +]} ⊎ total s))) as Hend.
  { intros a. wcall [] _; [apply out_buf_step, account_unmap|]. wcall st2 _; [apply out_buf_step, account_end|].
    destruct (negb (ok st2)); [wstep; auto|]. destruct (f =? 0); wstep; auto. }
  destruct (Z.eqb_spec f 0) as [H0|H0].
  - unfold created. rewrite (proj2 (Z.eqb_eq _ _) H0), hset_none. wstep. exact (Hend false).
  - rewrite created_some by done.
    assert (hmedia (media_ s) ∈ total s) as Hin by (unfold total; rewrite (comm_L (⊎)); auto with held).
    wcall a _.
    { eapply step_use; [done|done|]. apply hset_sub; [by repeat constructor; set_solver|].
      intros h [->|[->|[->|[]%elem_of_nil]%elem_of_cons]%elem_of_cons]%elem_of_cons; cbn [zf_data]; auto 6 with held. }
    wcall [] _; [gives|]. wstep. apply Hend.
Qed.

Lemma publish_wp packet s held (Q : Status -> ZlmOutput -> Held -> Prop) :
  out_inv s held -> (forall st s' held', out_inv s' held' -> Q st s' held') -> owp (Publish packet) Q s held.
Proof.
  intros Hi HQ. unfold Publish. destruct (ep_buffer packet) as [b|]; [|wstep; by apply HQ].
  cbv zeta. destruct (_ <? 0); [wstep; by apply HQ|]. wstep. apply dwp_bind.
  assert (forall st s' held', out_inv s' held' -> (ok st = true -> media_ s' <> 0) ->
            owp (if negb (ok st) then DRet st else input_packet packet b (CodecId (ep_codec packet))) Q s' held') as Hrest.
  { intros st s' held' Hi' Hm. destruct (ok st); cbn [negb]; [|wstep; by apply HQ]. destruct Hi' as [-> Hboth].
    apply input_packet_wp; [by apply Hm|]. intros st'. by apply HQ. }
  destruct (Z.eqb_spec (media_ s) 0) as [Hm|Hm]; [by apply create_session_wp|]. wstep. by apply Hrest.
Qed.

(** ** Every operation *)

Inductive OutOp :=
| OOpen (config : StreamingSessionConfig)
| OPublish (packet : EncodedPacket)
| OSetCallback (present : bool)
| OClose
| OOnPublish (error : Z)
| OOnShutdown.

Definition out_op (op : OutOp) : OProg unit :=
  match op with
  | OOpen config => Open config;~ DRet tt
  | OPublish packet => Publish packet;~ DRet tt
  | OSetCallback b => SetKeyFrameRequestCallback b
  | OClose => Close
  | OOnPublish error => OnPublish error
  | OOnShutdown => OnShutdown
  end.

Lemma key_frame_wp s held : out_inv s held -> owp request_key_frame (fun _ s' held' => out_inv s' held') s held.
Proof.
  intros Hi. unfold request_key_frame. wstep. destruct (key_frame_callback_ s); [|by wstep]. wcall [] _; [by apply step_none|done].
Qed.

Lemma out_op_wp op s held : out_inv s held -> owp (out_op op) (fun _ s' held' => out_inv s' held') s held.
Proof.
  intros Hi. destruct op; cbn [out_op].
  - destruct Hi as [-> _]. unfold Open. apply dwp_bind, dwp_bind, out_close_wp. case_bool_decide; repeat wstep; apply out_closed_inv.
  - apply dwp_bind, publish_wp; [done|]. intros. by wstep.
  - unfold SetKeyFrameRequestCallback. by wstep.
  - destruct Hi as [-> _]. apply out_close_wp, out_closed_inv.
  - unfold OnPublish. wstep. destruct (error =? 0); [by apply key_frame_wp|by wstep].
  - unfold OnShutdown. wstep. by apply key_frame_wp.
Qed.

Lemma out_ops_wp ops s held : out_inv s held -> owp (deach ops out_op) (fun _ s' held' => out_inv s' held') s held.
Proof.
  intros Hi. eapply (wp_deach _ _ ops out_op (fun _ s held => out_inv s held)); [done|].
  intros op l s' held'. apply out_op_wp.
Qed.
End safety.

Abbreviation out_gstep := (handle_step zlm_effect zlm_guard).

(** A publisher has a whole session or none.  Take any sequence of openings, publications and
    closings and of the library's callbacks, with arbitrary failures: no media source, pusher, frame
    or mapping is used or released unless it exists, none is released twice or lost, and a frame
    stays inside its buffer.  After every sequence the media source exists exactly if the pusher
    does, they are all that is held, and nothing is left after a close. *)
Theorem zlm_output_safe {E} {ZL : ZlmLib} {BH : BufferHeap} (dev : Device ZlmAns E) e id ops :
  let '(r, s, e', evs) := drun dev (deach ops out_op) (new_output id) e in
  r = Some tt /\ gsteps out_gstep evs ∅ = Some (total s) /\
  (media_ s = 0 <-> pusher_ s = 0) /\ (media_ s = 0 -> total s = ∅).
Proof.
  destruct (drun dev (deach ops out_op) (new_output id) e) as [[[r s] e'] evs] eqn:Er.
  assert (out_inv (new_output id) ∅) as H0 by by split.
  destruct (wp_sound _ _ _ _ _ _ _ _ _ _ _ _ (out_ops_wp ops _ _ H0) Er (documented_any _ _ _ _ (fun _ _ => I))) as ([] & held & -> & Hg & -> & Hb).
  split_and!; try done. intros Hm. unfold total. by rewrite Hm, (proj1 Hb Hm).
Qed.
