(* ===== verification/HardwareContext.v ===== *)
(** * Clocks and the hardware context

    [include/rkavp/clock.hpp]: the clock that tests set by hand.  [include/rkavp/hardware_context.hpp]:
    the service through which the module backends share buffer pools, device contexts and imported
    DMA buffers.  A pool, a context and a handle are identities; the type of a context or handle is a
    name, as for services.

    The table of imports is keyed by strings that are put together from a backend's name and a
    descriptor; [hardware_imports_refine] shows that it implements a table keyed by the pairs. *)

From S2P Require Import Prelude Text Status Timestamp Values Buffer Device Backends Services.
From Stdlib Require Import String Ascii.
From stdpp Require Import pretty.
Import Services.ServiceRegistry.
Local Open Scope rkavp_scope.
Local Open Scope Z_scope.

(** ** A clock for tests *)

(* [include/rkavp/clock.hpp:40-43] FakeClock (fields) *)
Record FakeClock := mkClock { now_us_ : Z }.
(* [include/rkavp/clock.hpp:27-30] FakeClock::NowMicros *)
Definition NowMicros (c : FakeClock) : Z := now_us_ c.
(** An overflow of the sum is undefined; a test does not advance the clock that far. *)
(* [include/rkavp/clock.hpp:31-34] FakeClock::AdvanceMicros *)
Definition AdvanceMicros (amount : Z) (c : FakeClock) : FakeClock := mkClock (now_us_ c + amount).
(* [include/rkavp/clock.hpp:35-38] FakeClock::SetMicros *)
Definition SetMicros (value : Z) (c : FakeClock) : FakeClock := mkClock value.

(** ** The service *)

(** [pool_objects]: the pools that were made, by identity. *)
(* [include/rkavp/hardware_context.hpp:93-98] HardwareContextService (fields) *)
Record HardwareContext := mkHardware {
  imports_ : gmap string Z;
  contexts_ : gmap string ServiceEntry;
  import_handles_ : gmap string ServiceEntry;
  pools_ : gmap string nat;
  pool_objects : list Pool.BufferPool }.
Definition new_hardware : HardwareContext := mkHardware ∅ ∅ ∅ ∅ [].

(* [include/rkavp/hardware_context.hpp:21-31] HardwareContextService::GetOrCreatePool *)
Definition GetOrCreatePool (name : string) (size capacity : nat) (s : HardwareContext) : Res nat * HardwareContext :=
  if bool_decide (name = "") || (size =? 0)%nat || (capacity =? 0)%nat
  then (Err (Invalid "buffer pool name, size, capacity and output are required"), s)
  else match pools_ s !! name with
       | Some p => (Okay p, s)
       | None =>
           let p := length (pool_objects s) in
           (Okay p, mkHardware (imports_ s) (contexts_ s) (import_handles_ s) (<[name := p]> (pools_ s))
                      (pool_objects s ++ [Pool.NewPool size capacity]))
       end.

(* [include/rkavp/hardware_context.hpp:32-39] HardwareContextService::SetBackendContext *)
Definition SetBackendContext (T backend : string) (context : option nat) (s : HardwareContext) : Status * HardwareContext :=
  match context with
  | Some v =>
      if bool_decide (backend = "") then (Invalid "backend context is required", s)
      else (Ok, mkHardware (imports_ s) (<[backend := mkEntry T v]> (contexts_ s)) (import_handles_ s) (pools_ s)
                  (pool_objects s))
  | None => (Invalid "backend context is required", s)
  end.

(** [std::type_index] and [std::static_pointer_cast]. *)
Definition typed (T : string) (e : option ServiceEntry) : option nat :=
  match e with
  | Some e => if bool_decide (entry_type e = T) then Some (entry_value e) else None
  | None => None
  end.

(* [include/rkavp/hardware_context.hpp:40-46] HardwareContextService::GetBackendContext *)
Definition GetBackendContext (T backend : string) (s : HardwareContext) : option nat :=
  typed T (contexts_ s !! backend).

(** [backend + ":" + std::to_string(fd)] *)
Definition import_key (backend : string) (fd : Z) : string := backend +:+ ":" +:+ pretty fd.

(* [include/rkavp/hardware_context.hpp:47-57] HardwareContextService::CacheImport *)
Definition CacheImport (T backend : string) (fd : Z) (handle : option nat) (s : HardwareContext)
  : Status * HardwareContext :=
  match handle with
  | Some v =>
      if bool_decide (backend = "") || (fd <? 0) then (Invalid "DMA import key and handle are required", s) else
      let key := import_key backend fd in
      let counts := match imports_ s !! key with None => <[key := 1]> (imports_ s) | Some _ => imports_ s end in
      (Ok, mkHardware counts (contexts_ s) (<[key := mkEntry T v]> (import_handles_ s)) (pools_ s) (pool_objects s))
  | None => (Invalid "DMA import key and handle are required", s)
  end.

(* [include/rkavp/hardware_context.hpp:58-64] HardwareContextService::FindImport *)
Definition FindImport (T backend : string) (fd : Z) (s : HardwareContext) : option nat :=
  typed T (import_handles_ s !! import_key backend fd).

(* [include/rkavp/hardware_context.hpp:78-81] HardwareContextService::RecordImport *)
Definition RecordImport (backend : string) (fd : Z) (s : HardwareContext) : HardwareContext :=
  let key := import_key backend fd in
  mkHardware (<[key := u64 (default 0 (imports_ s !! key) + 1)]> (imports_ s)) (contexts_ s) (import_handles_ s)
    (pools_ s) (pool_objects s).

(* [include/rkavp/hardware_context.hpp:82-86] HardwareContextService::ImportCount *)
Definition ImportCount (backend : string) (fd : Z) (s : HardwareContext) : Z :=
  default 0 (imports_ s !! import_key backend fd).

(** Buffers are used through their methods. *)
(* [include/rkavp/hardware_context.hpp:65-68] HardwareContextService::WaitFence *)
Definition WaitFence (buffer : BufferPtr) : dprog BufAns unit Status :=
  match buffer with
  | None => DRet (Invalid "buffer is required")
  | Some b => f <~ dcall (BufFence b); if (f : bool) then dcall (BufFenceWait b) else DRet Ok
  end.
(* [include/rkavp/hardware_context.hpp:72-74] HardwareContextService::BeginCpuAccess *)
Definition ContextBeginCpuAccess (buffer : BufferPtr) (a : MapAccess) : dprog BufAns unit Status :=
  match buffer with None => DRet (Invalid "buffer is required") | Some b => dcall (BufBegin b a) end.
(* [include/rkavp/hardware_context.hpp:75-77] HardwareContextService::EndCpuAccess *)
Definition ContextEndCpuAccess (buffer : BufferPtr) (a : MapAccess) : dprog BufAns unit Status :=
  match buffer with None => DRet (Invalid "buffer is required") | Some b => dcall (BufEnd b a) end.

(** ** Pools *)

(** A pool is found under its name ever after, and its size is the one it was made with. *)
Lemma pool_shared name size cap size' cap' s p s' :
  name <> "" -> size' <> 0%nat -> cap' <> 0%nat ->
  GetOrCreatePool name size cap s = (Okay p, s') -> GetOrCreatePool name size' cap' s' = (Okay p, s').
Proof.
  intros Hn Hs Hc. unfold GetOrCreatePool. rewrite (bool_decide_eq_false_2 (name = "")) by done. cbn [orb].
  rewrite (proj2 (Nat.eqb_neq size' 0) Hs), (proj2 (Nat.eqb_neq cap' 0) Hc). cbn [orb].
  destruct (_ || _); [done|]. destruct (pools_ s !! name) as [q|] eqn:Hq; intros [= <- <-].
  - by rewrite Hq.
  - cbn [pools_]. by rewrite lookup_insert_eq.
Qed.

(** A later request for larger buffers gets the pool of the small ones. *)
Example pool_size_ignored :
  let '(_, s) := GetOrCreatePool "video" 128 2 new_hardware in
  GetOrCreatePool "video" 4096 2 s = (Okay 0%nat, s) /\ pool_objects s = [Pool.NewPool 128 2].
Proof. vm_compute. by split. Qed.

(** ** Keys *)

Lemma digit_not_colon n : pretty_N_char n <> ":"%char.
Proof. unfold pretty_N_char. repeat case_match; done. Qed.

Lemma pretty_N_go_no_colon n s : ":"%char ∉ chars s -> ":"%char ∉ chars (pretty_N_go n s).
Proof.
  revert s. induction (N.lt_wf_0 n) as [n _ IH]; intros s Hs. destruct (N.eq_dec n 0%N) as [->|Hn]; [by rewrite pretty_N_go_0|].
  rewrite pretty_N_go_step by lia. apply IH; [apply N.div_lt; lia|]. cbn.
  intros [Hc|Hc]%elem_of_cons; [by apply (digit_not_colon (n `mod` 10)%N)|done].
Qed.

Lemma pretty_no_colon (z : Z) : ":"%char ∉ chars (pretty z).
Proof.
  assert (forall n : N, ":"%char ∉ chars (pretty n)) as HN.
  { intros n. unfold pretty, pretty_N. case_decide; [cbn; set_solver|]. apply pretty_N_go_no_colon. cbn. set_solver. }
  unfold pretty, pretty_Z. destruct z as [|p|p]; [cbn; set_solver|apply (HN (N.pos p))|].
  cbn. intros [Hc|Hc]%elem_of_cons; [done|]. by apply (HN (N.pos p)) in Hc.
Qed.

(** A list is cut in one way only at the last separator. *)
Lemma last_separator {A} (c : A) l1 l2 l1' l2' : c ∉ l2 -> c ∉ l2' ->
  l1 ++ c :: l2 = l1' ++ c :: l2' -> l1 = l1' /\ l2 = l2'.
Proof.
  intros H2 H2'. revert l1'. induction l1 as [|x l1 IH]; intros [|x' l1'] Heq; simplify_eq/=.
  - done.
  - exfalso. apply H2. set_solver.
  - exfalso. apply H2'. set_solver.
  - match goal with H : l1 ++ _ = _ |- _ => by destruct (IH _ H) as [-> ->] end.
Qed.

Lemma import_key_inj b fd b' fd' : import_key b fd = import_key b' fd' -> b = b' /\ fd = fd'.
Proof.
  intros H. apply (f_equal chars) in H. unfold import_key in H. rewrite !chars_app in H. cbn [chars list_ascii_of_string app] in H.
  apply last_separator in H as [Hb Hf]; [|apply pretty_no_colon..]. split; [by apply chars_inj|].
  apply chars_inj in Hf. by apply (inj pretty) in Hf.
Qed.

(** ** The table of imports *)

Inductive HardwareOp :=
| HPool (name : string) (size capacity : nat)
| HContext (T backend : string) (context : option nat)
| HCache (T backend : string) (fd : Z) (handle : option nat)
| HRecord (backend : string) (fd : Z).

Definition hardware_op (s : HardwareContext) (op : HardwareOp) : HardwareContext :=
  match op with
  | HPool name size capacity => (GetOrCreatePool name size capacity s).2
  | HContext T backend context => (SetBackendContext T backend context s).2
  | HCache T backend fd handle => (CacheImport T backend fd handle s).2
  | HRecord backend fd => RecordImport backend fd s
  end.

(** The promise: for every backend and descriptor, a handle and the number of imports. *)
Record Imports := mkImports { handles : gmap (string * Z) ServiceEntry; counts : gmap (string * Z) Z }.

Definition import_op (a : Imports) (op : HardwareOp) : Imports :=
  match op with
  | HCache T backend fd (Some v) =>
      if bool_decide (backend <> "" /\ 0 <= fd)
      then mkImports (<[(backend, fd) := mkEntry T v]> (handles a))
             (<[(backend, fd) := default 1 (counts a !! (backend, fd))]> (counts a))
      else a
  | HRecord backend fd => mkImports (handles a) (<[(backend, fd) := u64 (default 0 (counts a !! (backend, fd)) + 1)]> (counts a))
  | _ => a
  end.

Definition implements (s : HardwareContext) (a : Imports) : Prop :=
  forall b fd, import_handles_ s !! import_key b fd = handles a !! (b, fd) /\
               imports_ s !! import_key b fd = counts a !! (b, fd).

Lemma insert_key {V} (m : gmap string V) (m' : gmap (string * Z) V) b fd v :
  (forall b fd, m !! import_key b fd = m' !! (b, fd)) ->
  forall b' fd', <[import_key b fd := v]> m !! import_key b' fd' = <[(b, fd) := v]> m' !! (b', fd').
Proof.
  intros Hm b' fd'. destruct (decide (import_key b fd = import_key b' fd')) as [Heq|Hne].
  - rewrite Heq, lookup_insert_eq. apply import_key_inj in Heq as [-> ->]. by rewrite lookup_insert_eq.
  - rewrite !lookup_insert_ne; [apply Hm| |done]. intros [= -> ->]. done.
Qed.

Lemma implements_op s a op : implements s a -> implements (hardware_op s op) (import_op a op).
Proof.
  intros H. destruct op as [name size cap|T b [v|]|T b fd [v|]|b fd]; cbn [hardware_op import_op].
  - unfold GetOrCreatePool. destruct (_ || _); [done|]. by destruct (pools_ s !! name).
  - unfold SetBackendContext. by case_bool_decide.
  - done.
  - unfold CacheImport. destruct (bool_decide (b = "") || (fd <? 0)) eqn:Hc.
    + rewrite bool_decide_eq_false_2; [done|]. apply orb_true_iff in Hc as [Hc%bool_decide_eq_true|Hc%Z.ltb_lt]; [by intros [? _]|lia].
    + apply orb_false_iff in Hc as [Hb%bool_decide_eq_false Hf%Z.ltb_ge]. rewrite bool_decide_eq_true_2 by done.
      intros b' fd'. cbn [snd import_handles_ imports_ handles counts]. split; [apply insert_key; intros; apply H|].
      destruct (H b fd) as [_ Hk]. rewrite Hk. destruct (counts a !! (b, fd)) as [n|] eqn:Hn; cbn [default].
      * rewrite insert_id by done. apply H.
      * apply insert_key. intros. apply H.
  - done.
  - intros b' fd'. cbn [RecordImport import_handles_ imports_ handles counts]. split; [apply H|].
    destruct (H b fd) as [_ ->]. apply insert_key. intros. apply H.
Qed.

(** C22: The table of imports is keyed by backend and descriptor.  Its keys are strings put together
    from both; whatever the names of the backends (colons included) and whatever operations come
    before, the service finds and counts exactly what a table keyed by the pairs would: imports of
    different buffers are never mixed up, and a handle is found under its type only. *)
Theorem hardware_imports_refine ops T b fd :
  let s := foldl hardware_op new_hardware ops in
  let a := foldl import_op (mkImports ∅ ∅) ops in
  FindImport T b fd s = typed T (handles a !! (b, fd)) /\ ImportCount b fd s = default 0 (counts a !! (b, fd)).
Proof.
  cbv zeta. assert (implements (foldl hardware_op new_hardware ops) (foldl import_op (mkImports ∅ ∅) ops)) as H.
  { assert (implements new_hardware (mkImports ∅ ∅)) as H0 by done. revert H0. generalize new_hardware (mkImports ∅ ∅).
    induction ops as [|op ops IH]; intros s a Hsa; cbn [foldl]; [done|]. by apply IH, implements_op. }
  destruct (H b fd) as [Hh Hc]. unfold FindImport, ImportCount. by rewrite Hh, Hc.
Qed.
