(* ===== verification/Logging.v ===== *)
(** * Logging

    [include/rkavp/logging.hpp], [src/core/logging.cpp]: levels, the context that scopes
    attach to the records of a thread, the sink, and the text of a record.

    [Logging] is the global state of the file with the thread-local contexts as a map from
    threads; [events] is what logging does to the outside: calls of the application's sink,
    text on the standard error, and the end of the process after a fatal record.  A time
    point is the number of nanoseconds since the epoch.  The conversion of a time to a
    calendar date is the C library's; [gmtime] models it. *)

From S2P Require Import Prelude Text.
From stdpp Require Import pretty.
From Stdlib Require Import Ascii.
Local Open Scope Z_scope.

(** ** Data *)

(* [include/rkavp/logging.hpp:14-14] LogLevel *)
Inductive LogLevel := kTrace | kDebug | kInfo | kWarning | kError | kFatal.

#[export] Instance LogLevel_eq_dec : EqDecision LogLevel.
Proof. solve_decision. Defined.

(** [static_cast<int>]. *)
Definition level_value (l : LogLevel) : Z :=
  match l with kTrace => 0 | kDebug => 1 | kInfo => 2 | kWarning => 3 | kError => 4 | kFatal => 5 end.

(* [include/rkavp/logging.hpp:16-24] LogContext *)
Record LogContext := mkLogContext {
  lc_graph : string;
  lc_node : string;
  lc_source : string;
  lc_frame_id : option Z;
  lc_executor : string;
  lc_stream : string;
  lc_pts_us : option Z }.
Definition empty_context : LogContext := mkLogContext "" "" "" None "" "" None.

(** A null [file] is [None]. *)
(* [include/rkavp/logging.hpp:26-34] LogRecord *)
Record LogRecord := mkLogRecord {
  lr_timestamp : Z;
  lr_level : LogLevel;
  lr_thread_id : nat;
  lr_file : option string;
  lr_line : Z;
  lr_message : string;
  lr_context : LogContext }.

(* [include/rkavp/logging.hpp:36-39] LoggingOptions *)
Record LoggingOptions := mkLoggingOptions { lo_min_level : LogLevel; lo_include_source : bool }.
Definition default_logging_options : LoggingOptions := mkLoggingOptions kInfo true.

(** An application's sink is its identity. *)
Inductive LogEvent :=
| SinkCalled (sink : nat) (r : LogRecord)
| StandardError (text : string)
| Aborted.

(* [src/core/logging.cpp:16-20] g_min_level, g_include_source, g_sink, g_context *)
Record Logging := mkLogging {
  g_min_level : LogLevel;
  g_include_source : bool;
  g_sink : option nat;
  g_context : gmap nat LogContext;
  events : list LogEvent }.
Definition initial_logging : Logging := mkLogging kInfo true None ∅ [].

Definition context_of (t : nat) (s : Logging) : LogContext := default empty_context (g_context s !! t).
Definition set_context (t : nat) (c : LogContext) (s : Logging) : Logging :=
  mkLogging (g_min_level s) (g_include_source s) (g_sink s) (<[t := c]> (g_context s)) (events s).
Definition emit (es : list LogEvent) (s : Logging) : Logging :=
  mkLogging (g_min_level s) (g_include_source s) (g_sink s) (g_context s) (events s ++ es).

(** ** Levels *)

(* [src/core/logging.cpp:68-80] ParseLogLevel *)
Definition ParseLogLevel (value : string) (fallback : LogLevel) : LogLevel :=
  let normalized := to_lower value in
  if bool_decide (normalized = "trace") then kTrace
  else if bool_decide (normalized = "debug") then kDebug
  else if bool_decide (normalized = "info") then kInfo
  else if bool_decide (normalized = "warning") || bool_decide (normalized = "warn") then kWarning
  else if bool_decide (normalized = "error") then kError
  else if bool_decide (normalized = "fatal") then kFatal
  else fallback.

(* [src/core/logging.cpp:82-98] LogLevelName *)
Definition LogLevelName (l : LogLevel) : string :=
  match l with
  | kTrace => "TRACE"
  | kDebug => "DEBUG"
  | kInfo => "INFO"
  | kWarning => "WARNING"
  | kError => "ERROR"
  | kFatal => "FATAL"
  end.

(* [src/core/logging.cpp:59-62] InitializeLogging *)
Definition InitializeLogging (o : LoggingOptions) (s : Logging) : Logging :=
  mkLogging (lo_min_level o) (lo_include_source o) (g_sink s) (g_context s) (events s).

(* [src/core/logging.cpp:64-64] SetMinLogLevel *)
Definition SetMinLogLevel (l : LogLevel) (s : Logging) : Logging :=
  mkLogging l (g_include_source s) (g_sink s) (g_context s) (events s).

(* [src/core/logging.cpp:66-66] GetMinLogLevel *)
Definition GetMinLogLevel (s : Logging) : LogLevel := g_min_level s.

(* [src/core/logging.cpp:100-102] ShouldLog *)
Definition ShouldLog (l : LogLevel) (s : Logging) : bool := level_value (g_min_level s) <=? level_value l.

(** An empty [std::function] is [None]. *)
(* [src/core/logging.cpp:104-107] SetLogSink *)
Definition SetLogSink (sink : option nat) (s : Logging) : Logging :=
  mkLogging (g_min_level s) (g_include_source s) sink (g_context s) (events s).

(* [src/core/logging.cpp:109-112] ResetLogSink *)
Definition ResetLogSink (s : Logging) : Logging := SetLogSink None s.

(** ** The calendar *)

(** The broken-down time of the C library, months from 1. *)
Record tm := mkTm { tm_year : Z; tm_mon : Z; tm_mday : Z; tm_hour : Z; tm_min : Z; tm_sec : Z }.

Definition leap (y : Z) : bool := (y mod 4 =? 0) && (negb (y mod 100 =? 0) || (y mod 400 =? 0)).

(** Days from 0000-01-01 to the first day of a year. *)
Definition days_before_year (y : Z) : Z := 365 * y + (y + 3) / 4 - (y + 99) / 100 + (y + 399) / 400.

(** The year of a day, from the mean length of a year. *)
Definition year_of_day (n : Z) : Z :=
  let y := n * 400 / 146097 in
  if days_before_year (y + 1) <=? n then y + 1
  else if n <? days_before_year y then y - 1 else y.

Definition month_lengths (y : Z) : list Z :=
  [31; if leap y then 29 else 28; 31; 30; 31; 30; 31; 31; 30; 31; 30; 31].

Fixpoint month_walk (lengths : list Z) (m d : Z) : Z * Z :=
  match lengths with
  | [] => (m, d + 1)
  | n :: t => if d <? n then (m, d + 1) else month_walk t (m + 1) (d - n)
  end.

Definition days_to_epoch : Z := 719528.

Definition gmtime (seconds : Z) : tm :=
  let n := seconds / 86400 + days_to_epoch in
  let r := seconds mod 86400 in
  let y := year_of_day n in
  let '(m, d) := month_walk (month_lengths y) 1 (n - days_before_year y) in
  mkTm y m d (r / 3600) (r mod 3600 / 60) (r mod 60).

(** The other direction. *)
Definition timegm (t : tm) : Z :=
  let days := days_before_year (tm_year t) +
              foldr Z.add 0 (take (Z.to_nat (tm_mon t - 1)) (month_lengths (tm_year t))) +
              tm_mday t - 1 - days_to_epoch in
  86400 * days + 3600 * tm_hour t + 60 * tm_min t + tm_sec t.

Definition date_ok (t : tm) : Prop :=
  1 <= tm_mon t <= 12 /\
  (exists n, month_lengths (tm_year t) !! Z.to_nat (tm_mon t - 1) = Some n /\ 1 <= tm_mday t <= n) /\
  0 <= tm_hour t < 24 /\ 0 <= tm_min t < 60 /\ 0 <= tm_sec t < 60.

(** Divisions by constants become equations for [lia]. *)
#[local] Ltac Zify.zify_post_hook ::= Z.to_euclidean_division_equations.

Lemma year_of_day_spec n :
  days_before_year (year_of_day n) <= n < days_before_year (year_of_day n + 1).
Proof.
  unfold year_of_day. set (y := n * 400 / 146097).
  assert (146097 * y <= n * 400 < 146097 * y + 146097) as Hy by (unfold y; lia). clearbody y.
  destruct (days_before_year (y + 1) <=? n) eqn:E1; [|destruct (n <? days_before_year y) eqn:E2];
    unfold days_before_year in *; lia.
Qed.

Lemma year_length y :
  days_before_year (y + 1) - days_before_year y = foldr Z.add 0 (month_lengths y).
Proof.
  unfold days_before_year, month_lengths, leap. cbn [foldr].
  destruct (y mod 4 =? 0) eqn:E4, (y mod 100 =? 0) eqn:E100, (y mod 400 =? 0) eqn:E400;
    cbn [andb orb negb]; lia.
Qed.

Lemma month_walk_spec lengths m d : Forall (fun n => 0 < n) lengths -> 0 <= d < foldr Z.add 0 lengths ->
  exists i n, month_walk lengths m d = (m + Z.of_nat i, d - foldr Z.add 0 (take i lengths) + 1) /\
    lengths !! i = Some n /\ 1 <= d - foldr Z.add 0 (take i lengths) + 1 <= n.
Proof.
  revert m d. induction lengths as [|n t IH]; intros m d Hf Hd; cbn [foldr month_walk] in *; [lia|].
  apply Forall_cons in Hf as [Hn Hf]. destruct (d <? n) eqn:E.
  - exists 0%nat, n. simpl. split_and!; [f_equal; lia|done|lia|lia].
  - destruct (IH (m + 1) (d - n) Hf ltac:(lia)) as (i & k & Hw & Hi & Hb).
    exists (S i), k. rewrite Hw. simpl. split_and!; [f_equal; lia|done|lia|lia].
Qed.

(** The date is a date of the calendar, and it is the date of that second. *)
Lemma gmtime_spec seconds : date_ok (gmtime seconds) /\ timegm (gmtime seconds) = seconds.
Proof.
  unfold gmtime. set (n := seconds / 86400 + days_to_epoch). set (y := year_of_day n).
  pose proof (year_of_day_spec n) as Hy. fold y in Hy. pose proof (year_length y) as Hl.
  destruct (month_walk_spec (month_lengths y) 1 (n - days_before_year y)) as (i & k & Hw & Hi & Hb).
  { unfold month_lengths. destruct (leap y); repeat constructor. }
  { lia. }
  rewrite Hw. assert (i < 12)%nat by (by apply lookup_lt_Some in Hi).
  unfold date_ok, timegm. cbn [tm_year tm_mon tm_mday tm_hour tm_min tm_sec].
  replace (Z.to_nat (1 + Z.of_nat i - 1)) with i by lia. split.
  - split_and!; try lia. exists k. split; [done|]. lia.
  - assert (n = seconds / 86400 + days_to_epoch) as Hn by done. clearbody n y. lia.
Qed.

(** ** Text *)

(* [src/core/logging.cpp:22-26] BaseName *)
Definition BaseName (file : option string) : string :=
  let path := default "" file in
  after_last (fun c => bool_decide (c = "/"%char) || bool_decide (c = "\"%char)) path.

(* [src/core/logging.cpp:28-39] TimestampText *)
Definition TimestampText (timestamp : Z) : string :=
  let time := timestamp ÷ 1000000000 in
  let utc := gmtime time in
  let milliseconds := Z.rem (timestamp ÷ 1000000) 1000 in
  pretty (tm_year utc) +:+ "-" +:+ pad 2 (tm_mon utc) +:+ "-" +:+ pad 2 (tm_mday utc) +:+ "T" +:+
  pad 2 (tm_hour utc) +:+ ":" +:+ pad 2 (tm_min utc) +:+ ":" +:+ pad 2 (tm_sec utc) +:+ "." +:+
  pad 3 milliseconds +:+ "Z".

Definition field (name value : string) : string :=
  if bool_decide (value = "") then "" else " " +:+ name +:+ "=" +:+ value.
Definition number_field (name : string) (value : option Z) : string :=
  match value with None => "" | Some z => " " +:+ name +:+ "=" +:+ pretty z end.

(* [src/core/logging.cpp:41-55] DefaultSink *)
Definition DefaultSink (include_source : bool) (r : LogRecord) : string :=
  let c := lr_context r in
  TimestampText (lr_timestamp r) +:+ " " +:+ LogLevelName (lr_level r) +:+
  " tid=" +:+ pretty (lr_thread_id r) +:+
  field "graph" (lc_graph c) +:+ field "node" (lc_node c) +:+ field "source" (lc_source c) +:+
  number_field "frame" (lc_frame_id c) +:+ field "executor" (lc_executor c) +:+
  field "stream" (lc_stream c) +:+ number_field "pts_us" (lc_pts_us c) +:+
  (if include_source then " " +:+ BaseName (lr_file r) +:+ ":" +:+ pretty (lr_line r) else "") +:+
  " | " +:+ lr_message r +:+ newline.

(** ** Records *)

(* [src/core/logging.cpp:114-126] WriteLog *)
Definition WriteLog (r : LogRecord) (s : Logging) : Logging :=
  if negb (ShouldLog (lr_level r) s) then s
  else
    let s := match g_sink s with
             | Some sink => emit [SinkCalled sink r] s
             | None => emit [StandardError (DefaultSink (g_include_source s) r)] s
             end in
    if bool_decide (lr_level r = kFatal) then emit [Aborted] s else s.

(* [src/core/logging.cpp:134-135] LogMessage::LogMessage *)
Record LogMessage := mkLogMessage {
  lm_level : LogLevel;
  lm_file : option string;
  lm_line : Z;
  lm_stream : string }.

(** [now]: what the system clock says. *)
(* [src/core/logging.cpp:137-140] LogMessage::~LogMessage *)
Definition destroy_message (t : nat) (now : Z) (m : LogMessage) (s : Logging) : Logging :=
  WriteLog (mkLogRecord now (lm_level m) t (lm_file m) (lm_line m) (lm_stream m) (context_of t s)) s.

(** [RKAVP_LOG(level) << text]: the text is only made when the level is enabled. *)
(* [include/rkavp/logging.hpp:86-90] RKAVP_LOG *)
Definition RKAVP_LOG (t : nat) (now : Z) (l : LogLevel) (file : string) (line : Z) (text : string)
    (s : Logging) : Logging :=
  if negb (ShouldLog l s) then s else destroy_message t now (mkLogMessage l (Some file) line text) s.

(* [include/rkavp/logging.hpp:53-63] ScopedLogContext *)
Record ScopedLogContext := mkScopedLogContext { previous_ : LogContext }.

(* [src/core/logging.cpp:128-130] ScopedLogContext::ScopedLogContext *)
Definition enter_context (t : nat) (c : LogContext) (s : Logging) : ScopedLogContext * Logging :=
  (mkScopedLogContext (context_of t s), set_context t c s).

(* [src/core/logging.cpp:132-132] ScopedLogContext::~ScopedLogContext *)
Definition leave_context (t : nat) (scope : ScopedLogContext) (s : Logging) : Logging :=
  set_context t (previous_ scope) s.

(** ** Levels and texts *)

(** Every name is read back as its level, in any case, and the order of the levels is
    total with the fatal ones at the top: they can never be turned off. *)
Lemma parse_level_name l fallback value :
  ParseLogLevel (LogLevelName l) fallback = l /\
  ParseLogLevel (to_lower value) fallback = ParseLogLevel value fallback.
Proof. split; [by destruct l|]. unfold ParseLogLevel. by rewrite to_lower_idem. Qed.

Lemma fatal_never_filtered s : ShouldLog kFatal s = true.
Proof. unfold ShouldLog. by destruct (g_min_level s). Qed.

Example timestamp_text :
  TimestampText 951827696789000000 = "2000-02-29T12:34:56.789Z" /\
  TimestampText 0 = "1970-01-01T00:00:00.000Z" /\
  TimestampText 4107542399000000000 = "2100-02-28T23:59:59.000Z".
Proof. by vm_compute. Qed.

(** Before the epoch the milliseconds are negative and the text is not a time. *)
Example timestamp_before_epoch : TimestampText (-5000000) = "1970-01-01T00:00:00.0-5Z".
Proof. by vm_compute. Qed.

(** A reader of the text, by the positions of its fields. *)
Definition digits_at (i n : nat) (l : list ascii) : Z := decimal (take n (drop i l)).
Definition ParseTimestamp (text : string) : Z :=
  let l := chars text in
  1000 * timegm (mkTm (digits_at 0 4 l) (digits_at 5 2 l) (digits_at 8 2 l)
                      (digits_at 11 2 l) (digits_at 14 2 l) (digits_at 17 2 l)) +
  digits_at 20 3 l.

(** The years of the 64-bit count of nanoseconds have four digits. *)
Lemma gmtime_year seconds : 0 <= seconds <= 9223372036 -> 1970 <= tm_year (gmtime seconds) <= 2262.
Proof.
  intros Hs. unfold gmtime. set (n := seconds / 86400 + days_to_epoch).
  pose proof (year_of_day_spec n) as Hy. set (y := year_of_day n) in *.
  assert (719528 <= n <= 826279) as Hn by (unfold n, days_to_epoch; lia). clearbody n y.
  destruct (month_walk _ _ _) as [m d]. cbn [tm_year]. unfold days_before_year in Hy. lia.
Qed.

Lemma pad2 z : 0 <= z < 100 -> length (chars (pad 2 z)) = 2%nat /\ decimal (chars (pad 2 z)) = z.
Proof. intros Hz. apply pad_spec; [lia|]. change (10 ^ Z.of_nat 2) with 100. lia. Qed.

(** A list in fixed fields: the numbers stand where their widths put them. *)
Lemma date_fields (y mo d h mi s ms : list ascii) (c1 c2 c3 c4 c5 c6 : ascii) rest :
  length y = 4%nat -> length mo = 2%nat -> length d = 2%nat -> length h = 2%nat -> length mi = 2%nat ->
  length s = 2%nat -> length ms = 3%nat ->
  let l := y ++ c1 :: mo ++ c2 :: d ++ c3 :: h ++ c4 :: mi ++ c5 :: s ++ c6 :: ms ++ rest in
  digits_at 0 4 l = decimal y /\ digits_at 5 2 l = decimal mo /\ digits_at 8 2 l = decimal d /\
  digits_at 11 2 l = decimal h /\ digits_at 14 2 l = decimal mi /\ digits_at 17 2 l = decimal s /\
  digits_at 20 3 l = decimal ms.
Proof.
  intros Hy Hmo Hd Hh Hmi Hs Hms. cbv zeta.
  repeat match goal with H : length ?l = _ |- _ =>
    destruct l as [|? [|? [|? [|? [|? ?]]]]]; try discriminate H; clear H end.
  by split_and!.
Qed.

(** The time of a log line can be read back: for every time point from the epoch to the
    end of the 64-bit range, the text of the time has the 24 characters of an ISO 8601 time in
    UTC, its fields are a date of the calendar, and reading them gives the time point to the
    millisecond. *)
Theorem log_timestamp_roundtrip timestamp :
  0 <= timestamp <= int64_max ->
  length (chars (TimestampText timestamp)) = 24%nat /\
  date_ok (gmtime (timestamp ÷ 1000000000)) /\
  ParseTimestamp (TimestampText timestamp) = timestamp / 1000000.
Proof.
  intros Ht. rewrite int64_max_eq in Ht. unfold ParseTimestamp, TimestampText.
  set (t := timestamp ÷ 1000000000). set (ms := Z.rem (timestamp ÷ 1000000) 1000).
  assert (1000 * t + ms = timestamp / 1000000 /\ 0 <= ms < 1000 /\ 0 <= t <= 9223372036)
    as (Hsum & Hms & Hts) by (unfold t, ms; lia). clearbody t ms.
  pose proof (gmtime_year t Hts) as Hy. destruct (gmtime_spec t) as [Hok Heq].
  pose proof Hok as (Hmo & (n & Hn & Hd) & Hh & Hmi & Hs).
  assert (n <= 31) as Hn31.
  { apply list_elem_of_lookup_2 in Hn. unfold month_lengths in Hn. destruct (leap _);
      repeat (apply elem_of_cons in Hn as [->|Hn]; [lia|]); by apply elem_of_nil in Hn. }
  revert Hy Hmo Hd Hh Hmi Hs Heq Hok. destruct (gmtime t) as [y mo d h mi s]; simpl.
  intros Hy Hmo Hd Hh Hmi Hs Heq Hok.
  destruct (pad2 mo) as [L1 D1]; [lia|]. destruct (pad2 d) as [L2 D2]; [lia|].
  destruct (pad2 h) as [L3 D3]; [lia|]. destruct (pad2 mi) as [L4 D4]; [lia|].
  destruct (pad2 s) as [L5 D5]; [lia|].
  destruct (pad_spec 3 ms) as [L6 D6]; [lia|change (10 ^ Z.of_nat 3) with 1000; lia|].
  pose proof (pretty_width 3 y ltac:(change (10 ^ Z.of_nat 3) with 1000; change (10 ^ Z.of_nat 4) with 10000; lia)) as L0.
  destruct (pretty_Z_digits y) as [_ D0]; [lia|]. rewrite !chars_app. simpl chars.
  destruct (date_fields _ _ _ _ _ _ _ "-"%char "-"%char "T"%char ":"%char ":"%char "."%char ["Z"%char]
              L0 L1 L2 L3 L4 L5 L6) as (E0 & E1 & E2 & E3 & E4 & E5 & E6).
  simpl app. rewrite E0, E1, E2, E3, E4, E5, E6, D0, D1, D2, D3, D4, D5, D6, Heq.
  split_and!; [|done|done]. repeat (rewrite length_app; cbn [length]). by rewrite L0, L1, L2, L3, L4, L5, L6.
Qed.

Lemma log_timestamp_roundtrip_witness :
  0 <= 1700000000123456789 <= int64_max /\
  ParseTimestamp (TimestampText 1700000000123456789) = 1700000000123.
Proof.
  assert (0 <= 1700000000123456789 <= int64_max) as H by (rewrite int64_max_eq; lia).
  split; [exact H|]. exact (proj2 (proj2 (log_timestamp_roundtrip _ H))).
Defined.

(** ** Scopes *)

(** What a thread does between the scopes of its code, with what the other threads do
    to the shared state in between: they may change the settings and the sink, write records,
    and enter or leave scopes of their own. *)
Inductive LogOp :=
| OInitialize (o : LoggingOptions)
| OSetMin (l : LogLevel)
| OSetSink (sink : option nat)
| OReset
| OWrite (r : LogRecord)
| OContext (u : nat) (c : LogContext).

Inductive Code :=
| Skip
| Seq (a b : Code)
| Log (now : Z) (l : LogLevel) (file : string) (line : Z) (text : string)
| Scoped (c : LogContext) (body : Code)
| Throw
| Operation (o : LogOp).

(** The end of a piece of code: normal, by an exception, or with the process. *)
Inductive Outcome := Normal | Thrown | Dead.

Definition ended (l : LogLevel) : Outcome := if bool_decide (l = kFatal) then Dead else Normal.

Definition log_op (o : LogOp) (s : Logging) : Outcome * Logging :=
  match o with
  | OInitialize o => (Normal, InitializeLogging o s)
  | OSetMin l => (Normal, SetMinLogLevel l s)
  | OSetSink sink => (Normal, SetLogSink sink s)
  | OReset => (Normal, ResetLogSink s)
  | OWrite r => (ended (lr_level r), WriteLog r s)
  | OContext u c => (Normal, set_context u c s)
  end.

(** The code of thread [t]: a scope saves the context, and its destructor restores it when the
    body ends or throws. *)
Fixpoint exec (t : nat) (p : Code) (s : Logging) : Outcome * Logging :=
  match p with
  | Skip => (Normal, s)
  | Seq a b => match exec t a s with (Normal, s) => exec t b s | r => r end
  | Log now l file line text => (ended l, RKAVP_LOG t now l file line text s)
  | Scoped c body =>
      let '(scope, s) := enter_context t c s in
      match exec t body s with
      | (Dead, s) => (Dead, s)
      | (o, s) => (o, leave_context t scope s)
      end
  | Throw => (Thrown, s)
  | Operation o => log_op o s
  end.

(** The reference: the context of a record is that of the innermost scope in the text. *)
Fixpoint lexical (t : nat) (c : LogContext) (p : Code) (s : Logging) : Outcome * Logging :=
  match p with
  | Skip => (Normal, s)
  | Seq a b => match lexical t c a s with (Normal, s) => lexical t c b s | r => r end
  | Log now l file line text =>
      (ended l, WriteLog (mkLogRecord now l t (Some file) line text c) s)
  | Scoped c body => lexical t c body s
  | Throw => (Thrown, s)
  | Operation o => log_op o s
  end.

(** The operations in [p] leave the context of [t] alone. *)
Fixpoint leaves_alone (t : nat) (p : Code) : Prop :=
  match p with
  | Seq a b => leaves_alone t a /\ leaves_alone t b
  | Scoped _ body => leaves_alone t body
  | Operation (OContext u _) => u <> t
  | _ => True
  end.

(** Equal but for the context of [t]. *)
Record same_but (t : nat) (s s' : Logging) : Prop := mkSameBut {
  sb_min : g_min_level s = g_min_level s';
  sb_source : g_include_source s = g_include_source s';
  sb_sink : g_sink s = g_sink s';
  sb_events : events s = events s';
  sb_contexts : forall u, u <> t -> g_context s !! u = g_context s' !! u }.

Lemma write_same t r s s' : same_but t s s' -> same_but t (WriteLog r s) (WriteLog r s').
Proof.
  intros [H1 H2 H3 H4 H5]. unfold WriteLog, ShouldLog. rewrite H1, H2, H3.
  destruct (_ <=? _); simpl; [|done]. destruct (g_sink s') eqn:?; case_bool_decide; split; simpl; auto; congruence.
Qed.

Lemma write_context r s : g_context (WriteLog r s) = g_context s.
Proof. unfold WriteLog. destruct (negb _); [done|]. destruct (g_sink s); by case_bool_decide. Qed.

Lemma log_op_same t o s s' : same_but t s s' -> leaves_alone t (Operation o) ->
  (log_op o s).1 = (log_op o s').1 /\ same_but t (log_op o s).2 (log_op o s').2 /\
  context_of t (log_op o s).2 = context_of t s.
Proof.
  intros H Ho. pose proof H as [H1 H2 H3 H4 H5]. destruct o as [o|l|sink| |r|u c]; cbn [log_op fst snd].
  1-4: split_and!; [done|split; simpl; auto; congruence|done].
  - split_and!; [done|by apply write_same|]. unfold context_of. by rewrite write_context.
  - split_and!; [done| |].
    + split; simpl; try done. intros v Hv. destruct (decide (u = v)) as [->|]; [by rewrite !lookup_insert_eq|].
      rewrite !lookup_insert_ne by done. auto.
    + unfold context_of. simpl. by rewrite lookup_insert_ne by done.
Qed.

Lemma log_macro t now l file line text s :
  RKAVP_LOG t now l file line text s =
  WriteLog (mkLogRecord now l t (Some file) line text (context_of t s)) s.
Proof. unfold RKAVP_LOG, destroy_message, WriteLog. simpl. destruct (ShouldLog l s); done. Qed.

Lemma same_context t s s' c : same_but t s s' -> same_but t (set_context t c s) s'.
Proof. intros [H1 H2 H3 H4 H5]. split; simpl; try done. intros u Hu. rewrite lookup_insert_ne by done. auto. Qed.

(** What [exec] does from [s], compared to the reference from [s']. *)
Definition agrees (t : nat) (s s' : Logging) (r r' : Outcome * Logging) : Prop :=
  r.1 = r'.1 /\ same_but t r.2 r'.2 /\ (r.1 <> Dead -> context_of t r.2 = context_of t s).

Lemma exec_lexical t p s s' : leaves_alone t p -> same_but t s s' ->
  agrees t s s' (exec t p s) (lexical t (context_of t s) p s').
Proof.
  revert s s'. induction p as [|a IHa b IHb|now l file line text|c body IH| |o]; intros s s' Hp Hs;
    unfold agrees; cbn [exec lexical leaves_alone] in *; try done.
  - destruct Hp as [Ha Hb]. destruct (IHa s s' Ha Hs) as (E1 & E2 & E3).
    destruct (exec t a s) as [o s1], (lexical _ _ a s') as [o' s1']; simpl in *; subst o'.
    destruct o; [|done..]. rewrite <- E3 by done. destruct (IHb s1 s1' Hb E2) as (F1 & F2 & F3).
    split_and!; [done..|]. intros Hd. by rewrite F3.
  - rewrite log_macro. split_and!; [done|by apply write_same|]. intros _. unfold context_of.
    simpl. by rewrite write_context.
  - unfold enter_context. specialize (IH (set_context t c s) s' Hp (same_context _ _ _ c Hs)).
    assert (context_of t (set_context t c s) = c) as Hc by (unfold context_of; simpl; by rewrite lookup_insert_eq).
    rewrite Hc in IH. destruct IH as (E1 & E2 & E3).
    destruct (exec t body _) as [o s1], (lexical _ _ body s') as [o' s1']; simpl in *; subst o'.
    assert (context_of t (leave_context t (mkScopedLogContext (context_of t s)) s1) = context_of t s) as Hl
      by (unfold leave_context, context_of; simpl; by rewrite lookup_insert_eq).
    destruct o; simpl; (split_and!; [done| |done]); try done; by apply same_context.
  - destruct (log_op_same t o s s' Hs Hp) as (E1 & E2 & E3). by split_and!.
Qed.

(** C33: Scopes of log contexts are lexical: whatever the code of a thread, and whatever the
    other threads do to the settings, the sink and their own contexts in between, the records
    that reach the sink or the standard error are, in order, exactly those of the reference
    in which every record carries the context of the innermost enclosing scope; and when
    the code ends, normally or by an exception, the thread's context is what it was. *)
Theorem log_scopes_lexical t p s :
  leaves_alone t p ->
  (exec t p s).1 = (lexical t (context_of t s) p s).1 /\
  events (exec t p s).2 = events (lexical t (context_of t s) p s).2 /\
  g_min_level (exec t p s).2 = g_min_level (lexical t (context_of t s) p s).2 /\
  g_sink (exec t p s).2 = g_sink (lexical t (context_of t s) p s).2 /\
  ((exec t p s).1 <> Dead -> context_of t (exec t p s).2 = context_of t s).
Proof.
  intros Hp. destruct (exec_lexical t p s s Hp) as (E1 & [H1 H2 H3 H4 H5] & E3); [by split|].
  by split_and!.
Qed.

Definition in_graph (g : string) : LogContext := mkLogContext g "" "" None "" "" None.
Definition nested_scopes : Code :=
  Seq (Scoped (in_graph "a")
         (Seq (Operation (OContext 2 (in_graph "other")))
              (Seq (Scoped (in_graph "b") (Seq (Log 0 kInfo "x/y.cpp" 7 "inner") Skip))
                   (Log 0 kDebug "x/y.cpp" 8 "hidden"))))
      (Log 0 kError "x/y.cpp" 9 "outer").

Lemma log_scopes_lexical_witness :
  leaves_alone 1 nested_scopes /\
  events (exec 1 nested_scopes (SetLogSink (Some 4%nat) initial_logging)).2 =
    [SinkCalled 4 (mkLogRecord 0 kInfo 1 (Some "x/y.cpp") 7 "inner" (in_graph "b"));
     SinkCalled 4 (mkLogRecord 0 kError 1 (Some "x/y.cpp") 9 "outer" empty_context)].
Proof.
  assert (leaves_alone 1 nested_scopes) as H by (simpl; split_and!; done).
  split; [exact H|].
  destruct (log_scopes_lexical 1 nested_scopes (SetLogSink (Some 4%nat) initial_logging) H) as (_ & E & _).
  rewrite E. reflexivity.
Defined.

(** The text of a record on the standard error. *)
Example default_sink_line :
  events (exec 1 (Scoped (mkLogContext "g" "n" "" (Some 12) "" "" None)
                    (Log 0 kWarning "src/core/node.cpp" 40 "late")) initial_logging).2 =
  [StandardError ("1970-01-01T00:00:00.000Z WARNING tid=1 graph=g node=n frame=12 node.cpp:40 | late" +:+ newline)].
Proof. by vm_compute. Qed.
