(* ===== verification/HostSystem.v ===== *)
(** * The host

    What platform probing and the command line tools ask of the operating system: files and
    directories, the dynamic loader, the environment, and the standard streams.  The host is
    not part of the repository: [HostCmd] are the calls, a program of them is a [dprog], and it
    runs against any host that answers.

    [host_step] accounts for the directory streams and libraries that are open; it refuses the
    use of one that is not.  [StaticHost] is a host whose files do not change; [static_host]
    answers every call from it. *)

From stdpp Require Import gmultiset.
From S2P Require Import Prelude Text Device.
Local Open Scope Z_scope.
Local Open Scope rkavp_scope.

Inductive HostCmd :=
(** [std::filesystem], with an error code: an error is [false] or [None]. *)
| FileExists (path : string)
| DirectoryIterator (path : string)
| Canonical (path : string)
| WeaklyCanonical (path : string)
| CreateDirectories (path : string)
(** Without an error code: an error is an exception, [None]. *)
| IsRegularFile (path : string)
| IsDirectory (path : string)
| DirectoryEntries (path : string)
(** Streams: [None] or [false] when the file cannot be opened. *)
| ReadFile (path : string)
| WriteFile (path text : string)
| Stdout (text : string)
| Stderr (text : string)
(** Directory streams; [ReadDir] is the loop over [readdir]. *)
| OpenDir (path : string)
| ReadDir (directory : Z)
| CloseDir (directory : Z)
(** The dynamic loader; [CallString] calls a function and copies the text it points to. *)
| Dlopen (name : string)
| Dlsym (library : Z) (symbol : string)
| CallString (library function : Z) (argument : option Z)
| Dlclose (library : Z)
| Uname
| Getenv (name : string).

Definition HostAns (c : HostCmd) : Type :=
  match c with
  | FileExists _ | WriteFile _ _ => bool
  | DirectoryIterator _ | DirectoryEntries _ => option (list string)
  | Canonical _ | WeaklyCanonical _ | ReadFile _ | Uname | Getenv _ => option string
  | CallString _ _ _ => option string
  (** The message of the error, if there is one. *)
  | CreateDirectories _ => option string
  | IsRegularFile _ | IsDirectory _ => option bool
  | Stdout _ | Stderr _ | CloseDir _ | Dlclose _ => unit
  | OpenDir _ | Dlopen _ | Dlsym _ _ => Z
  | ReadDir _ => list string
  end.

Definition hdir (d : Z) : Handle := ("directory", d).
Definition hlib (l : Z) : Handle := ("library", l).

Definition host_effect (ev : devent HostAns) : Effect Handle :=
  let 'Ev c a := ev in
  match c return HostAns c -> Effect Handle with
  | OpenDir _ => fun d => obtaining (created d (hdir d))
  | ReadDir d => fun _ => needing [hdir d]
  | CloseDir d => fun _ => returning [hdir d]
  | Dlopen _ => fun l => obtaining (created l (hlib l))
  | Dlsym l _ => fun _ => needing [hlib l]
  | CallString l _ _ => fun _ => needing [hlib l]
  | Dlclose l => fun _ => returning [hlib l]
  | _ => fun _ => no_effect
  end a.

(** A null function is never called. *)
Definition host_guard (c : HostCmd) : bool :=
  match c with CallString _ f _ => negb (f =? 0) | _ => true end.

Abbreviation host_step := (handle_step host_effect host_guard).
(** Nothing is assumed of the answers. *)
Definition host_allowed (_ : Held) (_ : devent HostAns) : Prop := True.

Lemma host_documented evs held : documented host_step host_allowed evs held.
Proof. by apply documented_any. Qed.

(** Calls that open nothing. *)
Definition plain (c : HostCmd) : bool :=
  match c with
  | OpenDir _ | ReadDir _ | CloseDir _ | Dlopen _ | Dlsym _ _ | CallString _ _ _ | Dlclose _ => false
  | _ => true
  end.

Section rules.
Context {S : Type}.
Abbreviation hwp := (wp (S := S) host_step host_allowed).

Lemma wp_plain {A} c (k : HostAns c -> dprog HostAns S A) Q s held :
  plain c = true -> (forall a, hwp (k a) Q s held) -> hwp (dbind (dcall c) k) Q s held.
Proof.
  intros Hp Hk. refine (wp_call _ _ c _ _ _ _ _). intros a _. exists held. split; [|done].
  apply step_none; destruct c; done.
Qed.

Lemma wp_plain_last c (Q : HostAns c -> S -> Held -> Prop) s held :
  plain c = true -> (forall a, Q a s held) -> hwp (dcall c) Q s held.
Proof.
  intros Hp Hk. refine (wp_call_last _ _ c _ _ _ _). intros a _. exists held. split; [|done].
  apply step_none; destruct c; done.
Qed.

(** Something is opened, used and closed again. *)
Lemma wp_open {A} c (h : Z -> Handle) (obj : HostAns c -> Z) (k : HostAns c -> dprog HostAns S A) Q s held :
  host_guard c = true -> (forall r, host_effect (Ev c r) = obtaining (created (obj r) (h (obj r)))) ->
  (forall r, obj r = 0 -> hwp (k r) Q s held) ->
  (forall r, obj r <> 0 -> hwp (k r) Q s (hset [h (obj r)] ⊎ held)) ->
  hwp (dbind (dcall c) k) Q s held.
Proof.
  intros Hg He Hnull Hk. refine (wp_call _ _ c _ _ _ _ _). intros r _. eexists.
  split; [apply (step_take _ _ c r [] (created (obj r) (h (obj r)))); [done|apply He|by apply hset_sub; [constructor|set_solver]]|].
  destruct (Z.eq_dec (obj r) 0) as [H0|H0].
  - unfold created. rewrite H0. simpl (0 =? 0). cbn iota. rewrite hset_none. by apply Hnull.
  - rewrite created_some by done. by apply Hk.
Qed.
End rules.

(** ** Collecting answers

    A ghost state that never refuses a call and collects what two functions make of the
    events; it relates the result of a program to what the host answered. *)

Section collect.
Context {X Y : Type} (f : devent HostAns -> list X) (h : devent HostAns -> list Y).

Definition collect_step (ev : devent HostAns) (g : list X * list Y) : option (list X * list Y) :=
  Some (g.1 ++ f ev, g.2 ++ h ev).
Definition any_answer (_ : list X * list Y) (_ : devent HostAns) : Prop := True.

Lemma collect_steps evs g :
  gsteps collect_step evs g = Some (g.1 ++ concat (map f evs), g.2 ++ concat (map h evs)).
Proof.
  revert g. induction evs as [|ev evs IH]; intros [ds vs]; simpl; [by rewrite !app_nil_r|].
  rewrite IH. simpl. by rewrite <- !(assoc_L (++)).
Qed.

Lemma collect_documented evs g : documented collect_step any_answer evs g.
Proof. by apply documented_any. Qed.

Lemma collect_none c a g : f (Ev c a) = [] -> h (Ev c a) = [] -> collect_step (Ev c a) g = Some g.
Proof. intros Hf Hh. destruct g as [ds vs]. unfold collect_step. rewrite Hf, Hh. simpl. by rewrite !app_nil_r. Qed.

Context {S : Type}.
Abbreviation cwp := (wp (S := S) collect_step any_answer).

(** A call that is not looked at. *)
Lemma cwp_call {A} c (k : HostAns c -> dprog HostAns S A) Q s g :
  (forall a, f (Ev c a) = [] /\ h (Ev c a) = []) -> (forall a, cwp (k a) Q s g) -> cwp (dbind (dcall c) k) Q s g.
Proof.
  intros Hc Hk. refine (wp_call _ _ c _ _ _ _ _). intros a _. exists g. destruct (Hc a).
  split; [by apply collect_none|done].
Qed.
Lemma cwp_call_last c (Q : HostAns c -> S -> list X * list Y -> Prop) s g :
  (forall a, f (Ev c a) = [] /\ h (Ev c a) = []) -> (forall a, Q a s g) -> cwp (dcall c) Q s g.
Proof.
  intros Hc Hk. refine (wp_call_last _ _ c _ _ _ _). intros a _. exists g. destruct (Hc a).
  split; [by apply collect_none|done].
Qed.

(** What a run collected. *)
Lemma collect_sound {E A} (dev : Device HostAns E) (m : dprog HostAns S A) Q s e r s' e' evs :
  cwp m Q s ([], []) -> drun dev m s e = (r, s', e', evs) ->
  exists a, r = Some a /\ Q a s' (concat (map f evs), concat (map h evs)).
Proof.
  intros Hw Hr. destruct (wp_sound _ _ _ _ _ _ _ _ _ _ _ _ Hw Hr (collect_documented _ _)) as (a & g & -> & Hg & HQ).
  rewrite collect_steps in Hg. injection Hg as <-. eauto.
Qed.
End collect.

(** [quiet] goes through calls that are not looked at. *)
Ltac quiet :=
  repeat lazymatch goal with
  | |- wp (collect_step _ _) _ (dbind (dcall _) _) _ _ _ => apply cwp_call; [by intros|]; intros ?
  | |- wp (collect_step _ _) _ (dcall _) _ _ _ => apply cwp_call_last; [by intros|]; intros ?
  | |- wp _ _ (dbind (if ?b then _ else _) _) _ _ _ => apply dwp_bind; destruct b
  | |- wp _ _ (if ?b then _ else _) _ _ _ => destruct b
  | |- wp _ _ (dbind (DRet _) _) _ _ _ => wstep
  | |- wp _ _ (DRet _) _ _ _ => wstep
  end; auto.

(** ** A host whose files do not change *)

Record Library := mkLibrary {
  (** The functions a library has, by symbol, with what a call returns. *)
  lib_functions : gmap string (option Z -> option string) }.

Class StaticHost := {
  st_files : gmap string string;
  st_directories : gmap string (list string);
  st_libraries : gmap string Library;
  st_environment : gmap string string;
  st_kernel : option string;
  st_canonical : string -> option string;
  st_writable : string -> bool }.

Section static.
Context {H : StaticHost}.

(** A path exists as a file, as a directory, or as the entry of one. *)
Definition static_exists (path : string) : bool :=
  bool_decide (is_Some (st_files !! path)) || bool_decide (is_Some (st_directories !! path)) ||
  existsb (fun d => existsb (fun n => bool_decide (path_append d.1 n = path)) d.2)
          (map_to_list st_directories).

(** Handles are positions in the tables, from 1; functions are found by name. *)
Definition position (k : string) (l : list string) : Z :=
  match list_find (eq k) l with Some (i, _) => Z.of_nat i + 1 | None => 0 end.
Definition at_position (z : Z) (l : list string) : option string :=
  if z <=? 0 then None else l !! Z.to_nat (z - 1).
Definition directory_names : list string := (map_to_list st_directories).*1.
Definition library_names : list string := (map_to_list st_libraries).*1.
Definition functions_of (z : Z) : gmap string (option Z -> option string) :=
  match at_position z library_names with
  | Some n => default ∅ (lib_functions <$> st_libraries !! n)
  | None => ∅
  end.

Definition static_host : Device HostAns unit := fun c _ =>
  (match c return HostAns c with
   | FileExists p => static_exists p
   | DirectoryIterator p => st_directories !! p
   | Canonical p => st_canonical p
   | WeaklyCanonical p => st_canonical p
   | CreateDirectories p => if st_writable p then None else Some "Permission denied"
   | IsRegularFile p => Some (bool_decide (is_Some (st_files !! p)))
   | IsDirectory p => Some (bool_decide (is_Some (st_directories !! p)))
   | DirectoryEntries p => st_directories !! p
   | ReadFile p => st_files !! p
   | WriteFile p _ => st_writable p
   | Stdout _ => tt
   | Stderr _ => tt
   | OpenDir p => position p directory_names
   | ReadDir d => match at_position d directory_names with
                  | Some n => "." :: ".." :: default [] (st_directories !! n)
                  | None => []
                  end
   | CloseDir _ => tt
   | Dlopen n => position n library_names
   | Dlsym l f => position f (map_to_list (functions_of l)).*1
   | CallString l f x => match at_position f (map_to_list (functions_of l)).*1 with
                         | Some n => match functions_of l !! n with Some g => g x | None => None end
                         | None => None
                         end
   | Dlclose _ => tt
   | Uname => st_kernel
   | Getenv n => st_environment !! n
   end, tt).

(** A handle names its table entry. *)
Lemma at_position_spec k l : k ∈ l -> at_position (position k l) l = Some k /\ position k l <> 0.
Proof.
  intros Hk. unfold position. destruct (list_find (eq k) l) as [[i x]|] eqn:E.
  - apply list_find_Some in E as (Hi & <- & _). unfold at_position.
    rewrite (proj2 (Z.leb_gt _ _)) by lia. replace (Z.to_nat (Z.of_nat i + 1 - 1)) with i by lia.
    split; [done|lia].
  - apply list_find_None in E. rewrite Forall_forall in E. by destruct (E k Hk).
Qed.
Lemma position_none k l : k ∉ l -> position k l = 0.
Proof.
  intros Hk. unfold position. destruct (list_find (eq k) l) as [[i x]|] eqn:E; [|done].
  apply list_find_Some in E as (Hi & <- & _). by apply list_elem_of_lookup_2 in Hi.
Qed.
Lemma in_keys {A} (m : gmap string A) k : k ∈ (map_to_list m).*1 <-> is_Some (m !! k).
Proof.
  rewrite list_elem_of_fmap. split.
  - intros ([k' v] & -> & Hin%elem_of_map_to_list). eauto.
  - intros [v Hv]. exists (k, v). split; [done|]. by apply elem_of_map_to_list.
Qed.
End static.
