(* ===== verification/Platform.v ===== *)
(** * Platform probing

    [include/rkavp/platform.hpp], [src/core/platform.cpp]: what a host offers, from its device
    tree, its device files and the vendor libraries that can be loaded.  Every function that
    asks the host is a program of [HostSystem]. *)

From stdpp Require Import gmultiset.
From S2P Require Import Prelude Text Device HostSystem.
From stdpp Require Import pretty.
From Stdlib Require Import Ascii.
Local Open Scope Z_scope.
Local Open Scope rkavp_scope.

(* [include/rkavp/platform.hpp:9-24] PlatformCapabilities *)
Record PlatformCapabilities := mkPlatform {
  pc_compatible : string;
  pc_soc : string;
  pc_kernel : string;
  pc_has_video : bool;
  pc_has_drm : bool;
  pc_has_rga : bool;
  pc_has_npu : bool;
  pc_has_audio : bool;
  pc_video_device_count : nat;
  pc_mpp_version : string;
  pc_rga_version : string;
  pc_rknn_runtime : string;
  pc_rknn_driver_version : string;
  pc_devices : list string }.

Abbreviation HProg := (dprog HostAns unit).
Abbreviation hcall := (dcall (Ans := HostAns) (S := unit)).

(** ** Reading files *)

(** The characters that are taken off the end of a text. *)
Definition trailing (c : ascii) : bool :=
  bool_decide (c = ","%char) || bool_decide (c = "010"%char) || bool_decide (c = "013"%char).
Fixpoint drop_while (f : ascii -> bool) (l : list ascii) : list ascii :=
  match l with c :: t => if f c then drop_while f t else l | [] => [] end.
Definition trim (s : string) : string := of_chars (rev (drop_while trailing (rev (chars s)))).
Definition replace_zero (c : ascii) : ascii := if bool_decide (c = "000"%char) then ","%char else c.

(* [src/core/platform.cpp:21-33] ReadText *)
Definition ReadText (path : string) (replace_nul : bool) : HProg string :=
  text <~ hcall (ReadFile path);
  DRet (match (text : option string) with
        | None => ""
        | Some value => trim (if replace_nul then of_chars (map replace_zero (chars value)) else value)
        end).

(* [src/core/platform.cpp:35-41] ReadFirstAvailable *)
Fixpoint ReadFirstAvailable (paths : list string) : HProg string :=
  match paths with
  | [] => DRet ""
  | path :: rest =>
      value <~ ReadText path false;
      if bool_decide (value = "") then ReadFirstAvailable rest else DRet value
  end.

(** ** Vendor libraries *)

(** A library is opened, one function of it called if it is there, and closed; the text that
    the function points to is copied before. *)
Definition query_library (name symbol : string) (argument : option Z) : HProg string :=
  library <~ hcall (Dlopen name);
  if library =? 0 then DRet "" else
  function <~ hcall (Dlsym library symbol);
  value <~ (if function =? 0 then DRet None else hcall (CallString library function argument));
  hcall (Dlclose library);~
  DRet (default "" (value : option string)).

(* [src/core/platform.cpp:43-52] QueryMppVersion *)
Definition QueryMppVersion : HProg string := query_library "librockchip_mpp.so" "get_mpp_version" None.

(* [src/core/platform.cpp:54-63] QueryRgaVersion *)
Definition QueryRgaVersion : HProg string := query_library "librga.so" "querystring" (Some 1).

(* [src/core/platform.cpp:65-70] CanLoadLibrary *)
Definition CanLoadLibrary (name : string) : HProg bool :=
  library <~ hcall (Dlopen name);
  if library =? 0 then DRet false else hcall (Dlclose library);~ DRet true.

(** ** Devices *)

Definition is_video (name : string) : bool := has_prefix "video" name.
Definition is_media_device (name : string) : bool :=
  is_video name || has_prefix "media" name || has_prefix "v4l-subdev" name || has_prefix "camera" name.

(** The entries of [/dev] that are media devices. *)
Definition ScanDev : HProg (list string) :=
  directory <~ hcall (OpenDir "/dev");
  if directory =? 0 then DRet [] else
  names <~ hcall (ReadDir directory);
  hcall (CloseDir directory);~
  DRet (names : list string).

Fixpoint ScanRoots (roots : list string) : HProg (list string) :=
  match roots with
  | [] => DRet []
  | root :: rest =>
      names <~ hcall (DirectoryIterator root);
      more <~ ScanRoots rest;
      DRet (map (path_append root) (default [] (names : option (list string))) ++ more)
  end.

Definition device_roots : list string := ["/dev/dri"; "/dev/dma_heap"; "/dev/snd"; "/dev/v4l/by-id"].

Definition soc_of (compatible : string) : string :=
  if contains "rk3588" compatible then "rk3588"
  else if contains "rk3576" compatible then "rk3576" else "unknown".

(* [src/core/platform.cpp:74-120] ProbePlatformCapabilities *)
Definition ProbePlatformCapabilities : HProg PlatformCapabilities :=
  compatible <~ ReadText "/proc/device-tree/compatible" true;
  kernel <~ hcall Uname;
  names <~ ScanDev;
  others <~ ScanRoots device_roots;
  let video_device_count := length (filter (fun n => is_video n = true) names) in
  let devices := sort_unique
    (map (fun n => "/dev/" +:+ n) (filter (fun n => is_media_device n = true) names) ++ others) in
  d128 <~ hcall (FileExists "/dev/dri/renderD128");
  drm <~ (if (d128 : bool) then DRet true else hcall (FileExists "/dev/dri/renderD129"));
  rga <~ hcall (FileExists "/dev/rga");
  npu <~ hcall (FileExists "/dev/rknpu");
  audio <~ hcall (FileExists "/dev/snd/controlC0");
  mpp_version <~ QueryMppVersion;
  rga_version <~ QueryRgaVersion;
  runtime <~ CanLoadLibrary "librknnrt.so";
  driver <~ ReadFirstAvailable ["/sys/kernel/debug/rknpu/driver_version";
                                "/sys/kernel/debug/rknpu/version"; "/proc/rknpu/version"];
  DRet (mkPlatform compatible (soc_of compatible) (default "" (kernel : option string))
          (negb (video_device_count =? 0)%nat) (drm : bool) ((rga : bool) || (drm : bool))
          ((npu : bool) || (drm : bool)) (audio : bool) video_device_count mpp_version rga_version
          (if (runtime : bool) then "loadable" else "unavailable") driver devices).

Definition yes_no (b : bool) : string := if b then "yes" else "no".
Definition or_unavailable (s : string) : string := if bool_decide (s = "") then "unavailable" else s.

(* [src/core/platform.cpp:122-141] FormatPlatformCapabilities *)
Definition FormatPlatformCapabilities (v : PlatformCapabilities) : string :=
  "soc=" +:+ pc_soc v +:+ newline +:+ "compatible=" +:+ pc_compatible v +:+
  newline +:+ "kernel=" +:+ pc_kernel v +:+ newline +:+ "video=" +:+ yes_no (pc_has_video v) +:+
  newline +:+ "drm=" +:+ yes_no (pc_has_drm v) +:+ newline +:+ "rga=" +:+ yes_no (pc_has_rga v) +:+
  newline +:+ "npu=" +:+ yes_no (pc_has_npu v) +:+
  newline +:+ "audio=" +:+ yes_no (pc_has_audio v) +:+
  newline +:+ "video_device_count=" +:+ pretty (pc_video_device_count v) +:+
  newline +:+ "mpp_version=" +:+ or_unavailable (pc_mpp_version v) +:+
  newline +:+ "rga_version=" +:+ or_unavailable (pc_rga_version v) +:+
  newline +:+ "rknn_runtime=" +:+ pc_rknn_runtime v +:+ newline +:+ "rknn_driver_version=" +:+
  or_unavailable (pc_rknn_driver_version v) +:+
  newline +:+ "devices=" +:+ String.concat "," (pc_devices v) +:+ newline.

(** ** What probing does *)

Section safety.
Abbreviation pwp := (wp (S := unit) host_step host_allowed).

Lemma read_text_wp path b s held (Q : string -> unit -> Held -> Prop) :
  (forall v, Q v s held) -> pwp (ReadText path b) Q s held.
Proof. intros HQ. unfold ReadText. apply wp_plain; [done|]. intros a. wstep. apply HQ. Qed.

Lemma read_first_wp paths s held (Q : string -> unit -> Held -> Prop) :
  (forall v, Q v s held) -> pwp (ReadFirstAvailable paths) Q s held.
Proof.
  intros HQ. induction paths as [|p paths IH]; cbn [ReadFirstAvailable]; [wstep; apply HQ|].
  apply dwp_bind, read_text_wp. intros v. case_bool_decide; [done|]. wstep. apply HQ.
Qed.

Lemma query_library_wp name symbol x s held (Q : string -> unit -> Held -> Prop) :
  (forall v, Q v s held) -> pwp (query_library name symbol x) Q s held.
Proof.
  intros HQ. unfold query_library. apply (wp_open (Dlopen name) hlib (fun l => l)); [done|done|..]; cbn beta; intros l Hl.
  - rewrite (proj2 (Z.eqb_eq _ _) Hl). wstep. apply HQ.
  - rewrite (proj2 (Z.eqb_neq _ _) Hl). wcall f _; [eapply step_use; [done|done|auto with held]|].
    apply dwp_bind.
    assert (forall v, pwp (hcall (Dlclose l);~ DRet (default "" v)) Q s (hset [hlib l] ⊎ held)) as Hend.
    { intros v. wcall [] _; [by apply step_give|]. wstep. apply HQ. }
    destruct (Z.eqb_spec f 0) as [H0|H0]; [wstep; apply Hend|].
    wcall v _; [eapply step_use; [cbn; by rewrite (proj2 (Z.eqb_neq _ _) H0)|done|auto with held]|]. apply Hend.
Qed.

Lemma can_load_wp name s held (Q : bool -> unit -> Held -> Prop) :
  (forall b, Q b s held) -> pwp (CanLoadLibrary name) Q s held.
Proof.
  intros HQ. unfold CanLoadLibrary. apply (wp_open (Dlopen name) hlib (fun l => l)); [done|done|..]; cbn beta; intros l Hl.
  - rewrite (proj2 (Z.eqb_eq _ _) Hl). wstep. apply HQ.
  - rewrite (proj2 (Z.eqb_neq _ _) Hl). wcall [] _; [by apply step_give|]. wstep. apply HQ.
Qed.

Lemma scan_dev_wp s held (Q : list string -> unit -> Held -> Prop) :
  (forall l, Q l s held) -> pwp ScanDev Q s held.
Proof.
  intros HQ. unfold ScanDev. apply (wp_open (OpenDir "/dev") hdir (fun d => d)); [done|done|..]; cbn beta; intros d Hd.
  - rewrite (proj2 (Z.eqb_eq _ _) Hd). wstep. apply HQ.
  - rewrite (proj2 (Z.eqb_neq _ _) Hd). wcall names _; [eapply step_use; [done|done|auto with held]|].
    wcall [] _; [by apply step_give|]. wstep. apply HQ.
Qed.

Lemma scan_roots_wp roots s held (Q : list string -> unit -> Held -> Prop) :
  (forall l, Q l s held) -> pwp (ScanRoots roots) Q s held.
Proof.
  revert Q. induction roots as [|r roots IH]; intros Q HQ; cbn [ScanRoots]; [wstep; apply HQ|].
  apply wp_plain; [done|]. intros names. apply dwp_bind, IH. intros l. wstep. apply HQ.
Qed.

(** Nothing stays open. *)
Lemma probe_wp s held (Q : PlatformCapabilities -> unit -> Held -> Prop) :
  (forall v, Q v s held) -> pwp ProbePlatformCapabilities Q s held.
Proof.
  intros HQ. unfold ProbePlatformCapabilities.
  apply dwp_bind, read_text_wp. intros compatible. apply wp_plain; [done|]. intros kernel.
  apply dwp_bind, scan_dev_wp. intros names. apply dwp_bind, scan_roots_wp. intros others. cbv zeta.
  apply wp_plain; [done|]. intros d128. apply dwp_bind.
  assert (forall Q' : bool -> unit -> Held -> Prop, (forall b, Q' b s held) ->
    pwp (if (d128 : bool) then DRet true else hcall (FileExists "/dev/dri/renderD129")) Q' s held) as Hdrm.
  { intros Q' H'. destruct d128; [by wstep|]. by apply wp_plain_last. }
  apply Hdrm. intros drm. do 3 (apply wp_plain; [done|]; intros ?).
  do 2 (apply dwp_bind, query_library_wp; intros ?). apply dwp_bind, can_load_wp. intros runtime.
  apply dwp_bind, read_first_wp. intros driver. wstep. apply HQ.
Qed.
End safety.

(** ** What probing finds *)

(** The media devices among the answers of the host: the entries of [/dev] with one of the
    prefixes, and all entries of the other directories. *)
Definition event_devices (ev : devent HostAns) : list string :=
  let 'Ev c a := ev in
  match c return HostAns c -> list string with
  | ReadDir _ => fun names => map (fun n => "/dev/" +:+ n) (filter (fun n => is_media_device n = true) names)
  | DirectoryIterator root => fun names => map (path_append root) (default [] names)
  | _ => fun _ => []
  end a.
Definition event_videos (ev : devent HostAns) : list string :=
  let 'Ev c a := ev in
  match c return HostAns c -> list string with
  | ReadDir _ => fun names => filter (fun n => is_video n = true) names
  | _ => fun _ => []
  end a.

Section found.
Abbreviation fwp := (wp (S := unit) (collect_step event_devices event_videos) any_answer).
Abbreviation Found := (list string * list string)%type.

Lemma read_text_found path b s g (Q : string -> unit -> Found -> Prop) :
  (forall v, Q v s g) -> fwp (ReadText path b) Q s g.
Proof. intros HQ. unfold ReadText. quiet. Qed.

Lemma read_first_found paths s g (Q : string -> unit -> Found -> Prop) :
  (forall v, Q v s g) -> fwp (ReadFirstAvailable paths) Q s g.
Proof.
  intros HQ. induction paths as [|p paths IH]; cbn [ReadFirstAvailable]; [quiet|].
  apply dwp_bind, read_text_found. intros v. quiet.
Qed.

Lemma query_found name symbol x s g (Q : string -> unit -> Found -> Prop) :
  (forall v, Q v s g) -> fwp (query_library name symbol x) Q s g.
Proof. intros HQ. unfold query_library. quiet. Qed.

Lemma scan_roots_found roots s g (Q : list string -> unit -> Found -> Prop) :
  (forall l, Q l s (g.1 ++ l, g.2)) -> fwp (ScanRoots roots) Q s g.
Proof.
  revert g Q. induction roots as [|r roots IH]; intros [ds vs] Q HQ; cbn [ScanRoots].
  - wstep. specialize (HQ []). by rewrite app_nil_r in HQ.
  - wcall names _; [done|]. apply dwp_bind, IH. intros l. wstep. simpl. rewrite app_nil_r, <- (assoc_L (++)). apply HQ.
Qed.

Lemma scan_dev_found s g (Q : list string -> unit -> Found -> Prop) :
  (forall l, Q l s (g.1 ++ map (fun n => "/dev/" +:+ n) (filter (fun n => is_media_device n = true) l),
                    g.2 ++ filter (fun n => is_video n = true) l)) ->
  fwp ScanDev Q s g.
Proof.
  intros HQ. destruct g as [ds vs]. unfold ScanDev. apply cwp_call; [done|]. intros d. destruct (d =? 0).
  - wstep. specialize (HQ []). simpl in HQ. by rewrite !app_nil_r in HQ.
  - wcall names _; [done|]. apply cwp_call; [done|]. intros []. wstep. apply HQ.
Qed.

Record probed (v : PlatformCapabilities) (g : Found) : Prop := mkProbed {
  pd_devices : pc_devices v = sort_unique g.1;
  pd_videos : pc_video_device_count v = length g.2;
  pd_video : pc_has_video v = negb (length g.2 =? 0)%nat;
  pd_drm : pc_has_drm v = true -> pc_has_rga v = true /\ pc_has_npu v = true;
  pd_soc : pc_soc v = soc_of (pc_compatible v) }.

Lemma probe_found s : fwp ProbePlatformCapabilities (fun v _ g => probed v g) s ([], []).
Proof.
  unfold ProbePlatformCapabilities.
  apply dwp_bind, read_text_found. intros compatible. apply cwp_call; [done|]. intros kernel.
  apply dwp_bind, scan_dev_found. intros names. apply dwp_bind, scan_roots_found. intros others. cbv zeta. simpl.
  assert (forall drm rga npu audio, fwp
    (mpp_version <~ QueryMppVersion; rga_version <~ QueryRgaVersion; runtime <~ CanLoadLibrary "librknnrt.so";
     driver <~ ReadFirstAvailable ["/sys/kernel/debug/rknpu/driver_version";
                                   "/sys/kernel/debug/rknpu/version"; "/proc/rknpu/version"];
     DRet (mkPlatform compatible (soc_of compatible) (default "" (kernel : option string))
          (negb (length (filter (fun n => is_video n = true) names) =? 0)%nat) drm (rga || drm) (npu || drm) audio
          (length (filter (fun n => is_video n = true) names)) mpp_version rga_version
          (if (runtime : bool) then "loadable" else "unavailable") driver
          (sort_unique (map (fun n => "/dev/" +:+ n) (filter (fun n => is_media_device n = true) names) ++ others))))
    (fun v _ g => probed v g) s
    (map (fun n => "/dev/" +:+ n) (filter (fun n => is_media_device n = true) names) ++ others,
     filter (fun n => is_video n = true) names)) as Hrest.
  { intros drm rga npu audio. do 2 (apply dwp_bind, query_found; intros ?). unfold CanLoadLibrary. apply dwp_bind.
    apply cwp_call; [done|]. intros l. destruct (l =? 0); [wstep|apply cwp_call; [done|]; intros []; wstep];
      apply dwp_bind, read_first_found; intros driver; wstep; split; try done;
      intros Hd; cbn in Hd; cbn; subst drm; by rewrite !orb_true_r. }
  apply cwp_call; [done|]. intros d128. apply dwp_bind.
  destruct d128; [wstep|apply cwp_call_last; [done|]; intros drm]; do 3 (apply cwp_call; [done|]; intros ?); apply Hrest.
Qed.
End found.


(** A host with a camera and a render node. *)
Definition demo_board : StaticHost := {|
  st_files := {["/proc/device-tree/compatible" := "rockchip,rk3588s" +:+ String "000"%char (String "000"%char "")]};
  st_directories := {["/dev" := ["video1"; "null"; "video0"]; "/dev/dri" := ["renderD128"]]};
  st_libraries := {["librga.so" := mkLibrary {["querystring" := fun _ => Some "1.10"]}]};
  st_environment := ∅;
  st_kernel := Some "6.1";
  st_canonical := Some;
  st_writable := fun _ => true |}.

Example probe_demo_board :
  (drun (static_host (H := demo_board)) ProbePlatformCapabilities tt tt).1.1.1 =
  Some (mkPlatform "rockchip,rk3588s" "rk3588" "6.1" true true true true false 2 "" "1.10"
          "unavailable" "" ["/dev/dri/renderD128"; "/dev/video0"; "/dev/video1"]).
Proof. by vm_compute. Qed.
