(* ===== verification/CtkTool.v ===== *)
(** * The container toolkit

    [tools/rkavp-ctk/main.cpp]: a command line tool that finds the media devices and vendor
    libraries of a host and writes the CDI specifications (container device interface) by
    which a container gets them.  Programs are those of [HostSystem]; the result of [main] is the
    exit code.  [RKAVP_VERSION] is set by the build and is an argument.

    [cdi_generate_exact]: the files that are written, for any host. *)

From stdpp Require Import gmultiset.
From S2P Require Import Prelude Text Device HostSystem Platform.
From Stdlib Require Import Ascii.
Local Open Scope Z_scope.
Local Open Scope rkavp_scope.

(* [tools/rkavp-ctk/main.cpp:13-18] Device *)
Record CdiDevice := mkCdiDevice {
  host_path : string;
  container_path : string;
  logical_name : string;
  device_class : string }.

#[export] Instance CdiDevice_eq_dec : EqDecision CdiDevice.
Proof. solve_decision. Defined.

(** ** Classes *)

(* [tools/rkavp-ctk/main.cpp:20-23] Matches *)
Definition Matches (name : string) (prefixes : list string) : bool :=
  existsb (fun prefix => has_prefix prefix name) prefixes.

Definition camera_prefixes : list string := ["video"; "media"; "v4l-subdev"; "camera"].

(* [tools/rkavp-ctk/main.cpp:25-38] DeviceClass *)
Definition DeviceClass (path : string) : string :=
  let name := filename path in
  if Matches name camera_prefixes || has_prefix "/dev/v4l/by-id/" path then "camera"
  else if bool_decide (name = "rga") then "rga"
  else if bool_decide (name = "rknpu") then "rknpu"
  else if bool_decide (name = "mpp_service") || bool_decide (name = "iep") || bool_decide (name = "ion") ||
          contains "/dma_heap/" path then "mpp"
  else if contains "/snd/" path then "audio"
  else if contains "/dri/" path then "drm"
  else "other".

(** ** Discovery *)

(** An entry of [/dev]. *)
Definition dev_entry (entry : string) : list CdiDevice :=
  let path := path_append "/dev" entry in
  let name := filename path in
  if Matches name camera_prefixes || bool_decide (name = "rga") || bool_decide (name = "rknpu") ||
     bool_decide (name = "mpp_service") || bool_decide (name = "iep") || bool_decide (name = "ion")
  then [mkCdiDevice path path name (DeviceClass path)] else [].

(** An entry of one of the other directories. *)
Definition directory_entry (directory entry : string) : CdiDevice :=
  let path := path_append directory entry in mkCdiDevice path path (filename path) (DeviceClass path).

Definition device_directories : list string := ["/dev/dri"; "/dev/dma_heap"; "/dev/snd"].

Fixpoint ScanDirectories (directories : list string) : HProg (list CdiDevice) :=
  match directories with
  | [] => DRet []
  | d :: rest =>
      names <~ hcall (DirectoryIterator d);
      more <~ ScanDirectories rest;
      DRet (map (directory_entry d) (default [] (names : option (list string))) ++ more)
  end.

(** The links in [/dev/v4l/by-id] are followed. *)
Fixpoint ScanById (entries : list string) : HProg (list CdiDevice) :=
  match entries with
  | [] => DRet []
  | entry :: rest =>
      let container := path_append "/dev/v4l/by-id" entry in
      host <~ hcall (WeaklyCanonical container);
      more <~ ScanById rest;
      DRet (match (host : option string) with
            | Some h => if bool_decide (h = "") then more
                        else mkCdiDevice h container (filename container) "camera" :: more
            | None => more
            end)
  end.

Definition container_le (a b : CdiDevice) : Prop := String.le (container_path a) (container_path b).
#[export] Instance container_le_dec : RelDecision container_le.
Proof. intros a b. unfold container_le. apply _. Defined.

#[export] Instance container_le_trans : Transitive container_le.
Proof. intros a b c. unfold container_le. apply transitivity. Qed.
#[export] Instance container_le_total : Total container_le.
Proof. intros a b. unfold container_le. apply total, _. Qed.

Definition same_container (a b : CdiDevice) : bool := bool_decide (container_path a = container_path b).
(** [std::sort] and [std::unique] by container path. *)
Definition sort_devices (l : list CdiDevice) : list CdiDevice := unique same_container (merge_sort container_le l).

(** Every device that is found, in the order of the directories. *)
Definition CollectDevices : HProg (list CdiDevice) :=
  dev <~ hcall (DirectoryIterator "/dev");
  others <~ ScanDirectories device_directories;
  links <~ hcall (DirectoryIterator "/dev/v4l/by-id");
  by_id <~ ScanById (default [] (links : option (list string)));
  DRet (concat (map dev_entry (default [] (dev : option (list string)))) ++ others ++ by_id).

(* [tools/rkavp-ctk/main.cpp:40-78] DiscoverDevices *)
Definition DiscoverDevices : HProg (list CdiDevice) :=
  found <~ CollectDevices;
  DRet (sort_devices found).

Definition is_vendor_library (name : string) : bool :=
  has_prefix "librga.so" name || has_prefix "librknnrt.so" name || has_prefix "librockchip_mpp.so" name.

Fixpoint ScanLibraries (roots : list string) : HProg (list string) :=
  match roots with
  | [] => DRet []
  | root :: rest =>
      names <~ hcall (DirectoryIterator root);
      more <~ ScanLibraries rest;
      DRet (filter (fun p => is_vendor_library (filename p) = true)
              (map (path_append root) (default [] (names : option (list string)))) ++ more)
  end.

(* [tools/rkavp-ctk/main.cpp:80-95] DiscoverVendorLibraries *)
Definition DiscoverVendorLibraries : HProg (list string) :=
  libraries <~ ScanLibraries ["/usr/lib/aarch64-linux-gnu"; "/usr/lib64"; "/vendor/lib64"];
  DRet (sort_unique libraries).

(** ** Specifications *)

Definition between (lo hi c : ascii) : bool :=
  ((N_of_ascii lo <=? N_of_ascii c) && (N_of_ascii c <=? N_of_ascii hi))%N.
Definition name_char (c : ascii) : bool :=
  between "a"%char "z"%char c || between "A"%char "Z"%char c || between "0"%char "9"%char c ||
  bool_decide (c = "_"%char) || bool_decide (c = "-"%char) || bool_decide (c = "."%char).

(* [tools/rkavp-ctk/main.cpp:97-104] Sanitize *)
Definition Sanitize (value : string) : string :=
  of_chars (map (fun c => if name_char c then c else "-"%char) (chars value)).

Definition quote : string := String "034"%char EmptyString.

Definition device_node (d : CdiDevice) : string :=
  "        - path: " +:+ container_path d +:+ newline +:+
  "          hostPath: " +:+ host_path d +:+ newline +:+
  "          permissions: rw" +:+ newline.
Definition library_mount (library : string) : string :=
  "        - hostPath: " +:+ library +:+ newline +:+
  "          containerPath: /opt/rkavp/host-libs/" +:+ filename library +:+ newline +:+
  "          options: [ro, bind]" +:+ newline.

(** The lambda [emit_edits]. *)
(* [tools/rkavp-ctk/main.cpp:112-129] emit_edits *)
Definition emit_edits (kind : string) (libraries : list string) (selected : list CdiDevice) : string :=
  "    containerEdits:" +:+ newline +:+ "      env:" +:+ newline +:+
  "        - RKAVP_DEVICE_CLASS=" +:+ kind +:+ newline +:+
  "        - LD_LIBRARY_PATH=/opt/rkavp/host-libs:/opt/rkavp/lib" +:+ newline +:+
  "      deviceNodes:" +:+ newline +:+
  String.concat "" (map device_node selected) +:+
  (if bool_decide (libraries = []) then "" else "      mounts:" +:+ newline) +:+
  String.concat "" (map library_mount libraries).

Definition is_by_id (d : CdiDevice) : bool := has_prefix "/dev/v4l/by-id/" (container_path d).

Definition cdi_text (kind : string) (devices : list CdiDevice) (libraries : list string) : string :=
  "cdiVersion: " +:+ quote +:+ "0.6.0" +:+ quote +:+ newline +:+
  "kind: " +:+ quote +:+ "rockchip.com/" +:+ kind +:+ quote +:+ newline +:+ "devices:" +:+ newline +:+
  "  - name: all" +:+ newline +:+ emit_edits kind libraries devices +:+
  (if bool_decide (kind = "camera") then
     String.concat "" (map (fun d => "  - name: " +:+ Sanitize (logical_name d) +:+ newline +:+
                                     emit_edits kind libraries [d])
                           (filter (fun d => is_by_id d = true) devices))
   else "").

Definition cdi_file (output kind : string) : string := path_append output ("rkavp-" +:+ kind +:+ ".yaml").

(* [tools/rkavp-ctk/main.cpp:106-140] WriteCdi *)
Definition WriteCdi (output kind : string) (devices : list CdiDevice) (libraries : list string) : HProg bool :=
  if bool_decide (devices = []) then DRet true
  else hcall (WriteFile (cdi_file output kind) (cdi_text kind devices libraries)).

(** ** The tool *)

Section tool.
Variable RKAVP_VERSION : string.

(* [tools/rkavp-ctk/main.cpp:142-148] Usage *)
Definition Usage : HProg unit :=
  hcall (Stdout ("usage:" +:+ newline +:+ "  rkavp-ctk discover" +:+ newline +:+ "  rkavp-ctk doctor" +:+ newline +:+
                 "  rkavp-ctk compatibility" +:+ newline +:+
                 "  rkavp-ctk cdi generate --output <directory>" +:+ newline)).

Definition kinds : list string := ["camera"; "rga"; "mpp"; "rknpu"; "audio"; "drm"].
Definition of_class (kind : string) (devices : list CdiDevice) : list CdiDevice :=
  filter (fun d => device_class d = kind) devices.

Fixpoint write_all (output : string) (devices : list CdiDevice) (libraries : list string)
    (ks : list string) : HProg (option string) :=
  match ks with
  | [] => DRet None
  | kind :: rest =>
      written <~ WriteCdi output kind (of_class kind devices) libraries;
      if (written : bool) then write_all output devices libraries rest else DRet (Some kind)
  end.

(** [operator<<] of a path quotes it. *)
Fixpoint escape (s : string) : string :=
  match s with
  | EmptyString => ""
  | String c t => if bool_decide (c = "034"%char) || bool_decide (c = "\"%char)
                  then String "\"%char (String c (escape t)) else String c (escape t)
  end.
Definition quoted (s : string) : string := quote +:+ escape s +:+ quote.

Definition compatibility_text (v : PlatformCapabilities) : string :=
  "rkavp=" +:+ RKAVP_VERSION +:+ newline +:+ "soc=" +:+ pc_soc v +:+ newline +:+ "mpp=" +:+
  or_unavailable (pc_mpp_version v) +:+ newline +:+ "rga=" +:+ or_unavailable (pc_rga_version v) +:+
  newline +:+ "rknn_runtime=" +:+ pc_rknn_runtime v +:+ newline +:+ "rknn_driver=" +:+
  or_unavailable (pc_rknn_driver_version v) +:+ newline.

Definition discover_line (d : CdiDevice) : string :=
  device_class d +:+ " " +:+ logical_name d +:+ " " +:+ host_path d +:+ " -> " +:+ container_path d +:+ newline.

(** The specifications of all kinds. *)
(* [tools/rkavp-ctk/main.cpp:184-201] main (cdi generate) *)
Definition generate (devices : list CdiDevice) (output : string) : HProg Z :=
  error <~ hcall (CreateDirectories output);
  match (error : option string) with
  | Some message => hcall (Stderr ("cannot create output directory: " +:+ message +:+ newline));~ DRet 1
  | None =>
      libraries <~ DiscoverVendorLibraries;
      failed <~ write_all output devices libraries kinds;
      match (failed : option string) with
      | Some kind => hcall (Stderr ("cannot write CDI specification for " +:+ kind +:+ newline));~ DRet 1
      | None => hcall (Stdout ("generated CDI specifications in " +:+ quoted output +:+ newline));~ DRet 0
      end
  end.

(** [argv], the name of the program first. *)
(* [tools/rkavp-ctk/main.cpp:152-205] main *)
Definition main (argv : list string) : HProg Z :=
  match argv with
  | _ :: command :: rest =>
      if bool_decide (command = "doctor") then
        v <~ ProbePlatformCapabilities; hcall (Stdout (FormatPlatformCapabilities v));~ DRet 0
      else if bool_decide (command = "compatibility") then
        v <~ ProbePlatformCapabilities; hcall (Stdout (compatibility_text v));~ DRet 0
      else
        devices <~ DiscoverDevices;
        if bool_decide (command = "discover") then
          deach devices (fun d => hcall (Stdout (discover_line d)));~ DRet 0
        else match rest with
        | [sub; option; output] =>
            if bool_decide (command = "cdi") && bool_decide (sub = "generate") && bool_decide (option = "--output")
            then generate devices output
            else Usage;~ DRet 2
        | _ => Usage;~ DRet 2
        end
  | _ => Usage;~ DRet 2
  end.
End tool.

(** ** Classes of discovered devices *)

(** Membership in a list that is written out. *)
Ltac listed := repeat first [apply list_elem_of_here|apply list_elem_of_further].

Lemma kinds_NoDup : NoDup kinds.
Proof. unfold kinds. apply (bool_decide_eq_true_1 _). by vm_compute. Qed.

Lemma dev_entry_class entry d : d ∈ dev_entry entry -> device_class d ∈ kinds.
Proof.
  unfold dev_entry. set (path := path_append "/dev" entry).
  destruct (_ || _) eqn:E; [|by intros ?%elem_of_nil]. intros ->%list_elem_of_singleton. simpl.
  unfold DeviceClass. repeat rewrite orb_true_iff in E. rewrite !bool_decide_eq_true in E.
  destruct (Matches (filename path) camera_prefixes || _) eqn:Ec; [listed|].
  apply orb_false_iff in Ec as [Ec _]. rewrite Ec in E.
  destruct E as [[[[[E|E]|E]|E]|E]|E]; [done|rewrite E; cbn; listed..].
Qed.

(** The class of an entry of one of the directories is, at the latest, that of the directory. *)
Lemma directory_entry_class directory entry : directory ∈ device_directories ->
  device_class (directory_entry directory entry) ∈ kinds.
Proof.
  intros Hd. unfold directory_entry. cbn [device_class]. unfold DeviceClass.
  set (path := path_append directory entry).
  assert (contains "/dma_heap/" path || contains "/snd/" path || contains "/dri/" path = true) as Hc.
  { rewrite !orb_true_iff, !contains_spec. unfold device_directories in Hd.
    apply elem_of_cons in Hd as [->|Hd]; [right; by exists "/dev", entry|].
    apply elem_of_cons in Hd as [->|Hd]; [left; left; by exists "/dev", entry|].
    apply elem_of_cons in Hd as [->|Hd]; [left; right; by exists "/dev", entry|]. by apply elem_of_nil in Hd. }
  unfold kinds.
  destruct (_ || has_prefix _ _); [set_solver|]. destruct (bool_decide _); [set_solver|].
  destruct (bool_decide (_ = "rknpu")); [set_solver|].
  destruct (contains "/dma_heap/" path); [rewrite orb_true_r; set_solver|].
  destruct (_ || false); [set_solver|]. destruct (contains "/snd/" path); [set_solver|].
  simpl in Hc. rewrite Hc. listed.
Qed.

(** Devices fall into the kinds. *)
Lemma partition_by {A} (key : A -> string) (ks : list string) (l : list A) :
  NoDup ks -> Forall (fun x => key x ∈ ks) l ->
  concat (map (fun k => filter (fun x => key x = k) l) ks) ≡ₚ l.
Proof.
  intros Hnd. revert l. induction Hnd as [|k ks Hk Hnd IH]; intros l Hl; simpl.
  - destruct l as [|x l]; [done|]. apply Forall_cons in Hl as [Hx _]. by apply elem_of_nil in Hx.
  - etrans; [|apply (filter_app_complement (fun x => key x = k) l)]. f_equiv.
    rewrite <- (IH (filter (fun x => ~ key x = k) l)).
    + f_equiv. apply reflexive_eq, map_ext_in. intros k' Hk'%list_elem_of_In.
      rewrite list_filter_filter. apply list_filter_iff. intros x. split; [|tauto].
      intros Hx. split; [done|]. intros Hk2. apply Hk. by rewrite <- Hk2, Hx.
    + apply Forall_forall. intros x [Hne Hx]%list_elem_of_filter. rewrite Forall_forall in Hl.
      specialize (Hl x Hx). set_solver.
Qed.

(** ** What is found and written *)

(** The devices among the answers of the host. *)
Definition event_found (ev : devent HostAns) : list CdiDevice :=
  let 'Ev c a := ev in
  match c return HostAns c -> list CdiDevice with
  | DirectoryIterator d => fun names =>
      if bool_decide (d = "/dev") then concat (map dev_entry (default [] names))
      else if bool_decide (d ∈ device_directories) then map (directory_entry d) (default [] names)
      else []
  | WeaklyCanonical container => fun host =>
      match host with
      | Some h => if bool_decide (h = "") then []
                  else [mkCdiDevice h container (filename container) "camera"]
      | None => []
      end
  | _ => fun _ => []
  end a.

(** The files that are written, and whether they could be opened. *)
Definition event_written (ev : devent HostAns) : list (string * string * bool) :=
  let 'Ev c a := ev in
  match c return HostAns c -> list (string * string * bool) with
  | WriteFile path text => fun opened => [(path, text, opened)]
  | _ => fun _ => []
  end a.

(** The files of all kinds that have a device. *)
Definition cdi_files (output : string) (devices : list CdiDevice) (libraries ks : list string)
  : list (string * string) :=
  concat (map (fun kind =>
    let group := of_class kind devices in
    if bool_decide (group = []) then [] else [(cdi_file output kind, cdi_text kind group libraries)]) ks).

Section collected.
Abbreviation Found := (list CdiDevice * list (string * string * bool))%type.
Abbreviation dwp := (wp (S := unit) (collect_step event_found event_written) any_answer).

Lemma scan_directories_found ds s (g : Found) (Q : list CdiDevice -> unit -> Found -> Prop) :
  (forall d, d ∈ ds -> d ∈ device_directories) ->
  (forall l, Forall (fun d => device_class d ∈ kinds) l -> Q l s (g.1 ++ l, g.2)) -> dwp (ScanDirectories ds) Q s g.
Proof.
  revert g Q. induction ds as [|d ds IH]; intros [fs ws] Q Hds HQ; cbn [ScanDirectories].
  - wstep. specialize (HQ [] (Forall_nil_2 _)). by rewrite app_nil_r in HQ.
  - assert (d ∈ device_directories) as Hd by (apply Hds; listed).
    wcall names _; [done|]. apply dwp_bind, IH; [intros d' Hd'; apply Hds; by apply list_elem_of_further|].
    intros l Hl. wstep. cbn [fst snd event_found event_written].
    rewrite (bool_decide_eq_true_2 (d ∈ device_directories)) by done.
    rewrite bool_decide_eq_false_2 by (intros ->; by apply (bool_decide_eq_true_2 _) in Hd).
    rewrite app_nil_r, <- (assoc_L (++)). apply HQ, Forall_app. split; [|done].
    apply Forall_forall. intros x (n & -> & _)%list_elem_of_fmap. by apply directory_entry_class.
Qed.

Lemma scan_by_id_found entries s (g : Found) (Q : list CdiDevice -> unit -> Found -> Prop) :
  (forall l, Forall (fun d => device_class d ∈ kinds) l -> Q l s (g.1 ++ l, g.2)) -> dwp (ScanById entries) Q s g.
Proof.
  revert g Q. induction entries as [|n entries IH]; intros [fs ws] Q HQ; cbn [ScanById].
  - wstep. specialize (HQ [] (Forall_nil_2 _)). by rewrite app_nil_r in HQ.
  - wcall host _; [done|]. apply dwp_bind, IH. intros l Hl. wstep. cbn [fst snd event_found event_written].
    rewrite app_nil_r, <- (assoc_L (++)).
    destruct host as [h|]; [|by apply HQ]. case_bool_decide; [by apply HQ|]. apply HQ. constructor; [|done]. cbn. listed.
Qed.

Lemma collect_devices_found s ws (Q : list CdiDevice -> unit -> Found -> Prop) :
  (forall l, Forall (fun d => device_class d ∈ kinds) l -> Q l s (l, ws)) -> dwp CollectDevices Q s ([], ws).
Proof.
  intros HQ. unfold CollectDevices. wcall names _; [done|]. apply dwp_bind, scan_directories_found; [done|].
  intros others Ho. apply cwp_call; [intros a; split; [|done]; cbn [event_found]; by rewrite !bool_decide_eq_false_2 by by vm_compute|].
  intros links. apply dwp_bind, scan_by_id_found. intros by_id Hb. wstep. cbn [fst snd event_found event_written].
  rewrite bool_decide_eq_true_2 by done. simpl app. rewrite app_nil_r, <- (assoc_L (++)). apply HQ.
  repeat (apply Forall_app; split); try done. apply Forall_forall. intros d Hd.
  apply list_elem_of_In, in_concat in Hd as (l & (n & <- & _)%in_map_iff & Hd%list_elem_of_In). by apply dev_entry_class in Hd.
Qed.
Lemma scan_libraries_found roots s (g : Found) (Q : list string -> unit -> Found -> Prop) :
  Forall (fun r => r <> "/dev" /\ r ∉ device_directories) roots ->
  (forall l, Q l s g) -> dwp (ScanLibraries roots) Q s g.
Proof.
  revert Q. induction roots as [|r roots IH]; intros Q Hr HQ; cbn [ScanLibraries]; [by wstep|].
  apply Forall_cons in Hr as [[Hr1 Hr2] Hr].
  apply cwp_call; [intros a; split; [|done]; cbn [event_found]; by rewrite !bool_decide_eq_false_2|].
  intros names. apply dwp_bind, IH; [done|]. intros l. wstep. apply HQ.
Qed.

Lemma libraries_found s (g : Found) (Q : list string -> unit -> Found -> Prop) :
  (forall l, StronglySorted string_lt l -> Q l s g) -> dwp DiscoverVendorLibraries Q s g.
Proof.
  intros HQ. unfold DiscoverVendorLibraries. apply dwp_bind, scan_libraries_found.
  - repeat constructor; try done; by apply (bool_decide_eq_true_1 _).
  - intros l. wstep. apply HQ, sort_unique_sorted.
Qed.

(** The kinds are written in order, up to the first file that cannot be opened. *)
Lemma write_all_found output devices libraries ks s (g : Found) (Q : option string -> unit -> Found -> Prop) :
  Q None s (g.1, g.2 ++ map (fun f => (f, true)) (cdi_files output devices libraries ks)) ->
  (forall kind done file rest, cdi_files output devices libraries ks = done ++ file :: rest ->
     Q (Some kind) s (g.1, g.2 ++ map (fun f => (f, true)) done ++ [(file, false)])) ->
  dwp (write_all output devices libraries ks) Q s g.
Proof.
  revert g Q. induction ks as [|kind ks IH]; intros [fs ws] Q Hok Hfail; cbn [write_all].
  - wstep. cbn in Hok. by rewrite app_nil_r in Hok.
  - unfold WriteCdi. cbn [cdi_files map concat] in Hok, Hfail. fold (cdi_files output devices libraries ks) in Hok, Hfail.
    case_bool_decide as He; apply dwp_bind; [wstep; by apply IH|].
    wcall opened _; [done|]. cbn [fst snd event_found event_written]. rewrite app_nil_r. destruct opened.
    + apply IH; cbn [fst snd].
      * rewrite <- (assoc_L (++)). exact Hok.
      * intros k l file rest Hl. rewrite <- !(assoc_L (++)). apply (Hfail k (_ :: l) file rest). by rewrite Hl.
    + wstep. by apply (Hfail kind [] _ (cdi_files output devices libraries ks)).
Qed.

(** The outcome of [generate]: all files, all files before one that cannot be opened, or none
    because the directory cannot be created. *)
Inductive generated (output : string) (devices : list CdiDevice) (libraries : list string)
  : Z -> list (string * string * bool) -> Prop :=
| generated_all :
    generated output devices libraries 0 (map (fun f => (f, true)) (cdi_files output devices libraries kinds))
| generated_some l file rest :
    cdi_files output devices libraries kinds = l ++ file :: rest ->
    generated output devices libraries 1 (map (fun f => (f, true)) l ++ [(file, false)])
| generated_none : generated output devices libraries 1 [].

Lemma generate_found output devices s fs :
  dwp (generate devices output)
      (fun code _ g => g.1 = fs /\ exists libraries, StronglySorted string_lt libraries /\
                       generated output devices libraries code g.2) s (fs, []).
Proof.
  unfold generate. apply cwp_call; [done|]. intros [message|].
  - apply cwp_call; [done|]. intros []. wstep. split; [done|]. exists []. split; constructor.
  - apply dwp_bind, libraries_found. intros libraries Hl. apply dwp_bind, write_all_found; cbn [fst snd app].
    + apply cwp_call; [done|]. intros []. wstep. split; [done|]. exists libraries. split; [done|constructor].
    + intros kind l file rest Hf. apply cwp_call; [done|]. intros []. wstep. split; [done|].
      exists libraries. split; [done|]. by econstructor.
Qed.

Lemma main_generate_found version program output s :
  dwp (main version [program; "cdi"; "generate"; "--output"; output])
      (fun code _ g => Forall (fun d => device_class d ∈ kinds) g.1 /\
         exists libraries, StronglySorted string_lt libraries /\
           generated output (sort_devices g.1) libraries code g.2) s ([], []).
Proof.
  unfold main. rewrite !bool_decide_eq_false_2 by done. rewrite !bool_decide_eq_true_2 by done. cbn [andb].
  unfold DiscoverDevices. apply dwp_bind, dwp_bind, collect_devices_found. intros l Hl. wstep.
  eapply dwp_mono; [|apply generate_found]. intros code [] [fs ws] [Hfs Hg]. cbn in *. by subst.
Qed.
End collected.

Lemma sort_devices_sorted l :
  StronglySorted (fun a b => string_lt (container_path a) (container_path b)) (sort_devices l).
Proof.
  apply (unique_sorted container_path). apply (StronglySorted_merge_sort container_le).
Qed.

Lemma sort_devices_sub l d : d ∈ sort_devices l -> d ∈ l.
Proof.
  intros Hd. rewrite <- (merge_sort_Permutation container_le l).
  eapply sublist_subseteq; [|exact Hd]. apply unique_sublist.
Qed.

Lemma sort_devices_paths l p : p ∈ container_path <$> sort_devices l <-> p ∈ container_path <$> l.
Proof.
  split; intros (d & -> & Hd)%list_elem_of_fmap.
  - apply list_elem_of_fmap. eauto using sort_devices_sub.
  - apply (unique_keys container_path). by rewrite merge_sort_Permutation.
Qed.

(** The order in which [std::sort] leaves equal elements does not matter as long as the
    container paths are different, which those of different entries are. *)
Lemma sort_devices_any_order l k : NoDup (container_path <$> l) -> k ≡ₚ l ->
  StronglySorted container_le k -> sort_devices l = k.
Proof.
  intros Hnd Hk Hs. pose proof (StronglySorted_merge_sort container_le l) as Hm.
  unfold sort_devices. assert (merge_sort container_le l = k) as ->.
  { apply (StronglySorted_unique_strong container_le); [|done..|by rewrite merge_sort_Permutation].
    intros x y Hx Hy H1 H2. assert (container_path x = container_path y) as Hp by by apply (anti_symm String.le).
    rewrite merge_sort_Permutation in Hx. rewrite Hk in Hy.
    apply list_elem_of_lookup in Hx as [i Hi]. apply list_elem_of_lookup in Hy as [j Hj].
    assert (i = j) as ->; [|congruence].
    eapply NoDup_lookup; [exact Hnd|by rewrite list_lookup_fmap, Hi|by rewrite list_lookup_fmap, Hj, Hp]. }
  assert (forall x t, NoDup (container_path <$> x :: t) -> unique_from same_container x t = t) as Hu.
  { intros x t. revert x. induction t as [|y t IH]; intros x Hn; [done|]. cbn [unique_from].
    rewrite !fmap_cons in Hn. apply NoDup_cons in Hn as [Hx Hn].
    unfold same_container at 1. rewrite bool_decide_eq_false_2 by (intros Hxy; apply Hx; rewrite Hxy; listed).
    f_equal. apply IH. done. }
  destruct k as [|x t]; [done|]. cbn [unique]. f_equal. apply Hu. by rewrite Hk.
Qed.


(** Names of devices are made of the permitted characters, and those that already are stay. *)
Lemma sanitize_spec s :
  Forall (fun c => name_char c = true) (chars (Sanitize s)) /\
  (Forall (fun c => name_char c = true) (chars s) -> Sanitize s = s).
Proof.
  unfold Sanitize. rewrite chars_of_chars. split.
  - induction (chars s) as [|c l IH]; simpl; constructor; [|done]. by destruct (name_char c) eqn:E.
  - intros Hs. rewrite <- (of_chars_chars s) at 2. f_equal. induction Hs as [|c l Hc _ IH]; simpl; [done|]. by rewrite Hc, IH.
Qed.

(** Two cameras whose names differ only in a forbidden character get the same name. *)
Example sanitize_collision : Sanitize "usb-Cam:0" = Sanitize "usb-Cam 0".
Proof. done. Qed.

Example cdi_demo :
  let '(r, _, _, evs) := drun (static_host (H := demo_board))
    (main "1.0" ["rkavp-ctk"; "cdi"; "generate"; "--output"; "/etc/cdi"]) tt tt in
  r = Some 0 /\ (concat (map event_written evs)).*1.*1 = ["/etc/cdi/rkavp-camera.yaml"; "/etc/cdi/rkavp-drm.yaml"].
Proof. by vm_compute. Qed.
