(* ===== verification/RunTool.v ===== *)
(** * The command line runner

    [tools/rkavp-run/main.cpp]: loads plugins, loads and validates a graph, and runs it until a
    signal or an error.  The tool is a program over its own state (logging and the plugin
    manager) that calls the host ([HostSystem]) and the graph runner; the runner's operations are
    those of [Runner], here calls whose answers are arbitrary.  A call of [std::filesystem]
    without an error code may throw, and an exception ends the process: [Terminate].

    [plugins_exact]: which plugins are loaded, in which order.  [run_tool_protocol]: the runner is
    started at most once and always stopped, and what the exit codes mean. *)

From stdpp Require Import gmultiset.
From S2P Require Import Prelude Text Logging Status Values Node Registry BuiltinNodes GraphConfig GraphConfigFacts Graph Device HostSystem Platform.
From Stdlib Require Import Ascii.
Import NodeRegistry Plugins.
Local Open Scope Z_scope.
Local Open Scope rkavp_scope.

(** ** Arguments *)

(* [tools/rkavp-run/main.cpp:36-40] Arguments *)
Record Arguments_ := mkArguments { a_graph : string; a_output : string; a_plugins : list string }.
Definition no_arguments : Arguments_ := mkArguments "" "" [].

(** The arguments after the command; [None] is [false]. *)
Fixpoint parse_options (args : list string) (a : Arguments_) : option Arguments_ :=
  match args with
  | [] => Some a
  | option :: rest =>
      match rest with
      | [] => None
      | value :: rest =>
          if bool_decide (option = "--graph") then parse_options rest (mkArguments value (a_output a) (a_plugins a))
          else if bool_decide (option = "--output") then parse_options rest (mkArguments (a_graph a) value (a_plugins a))
          else if bool_decide (option = "--plugin") then
            parse_options rest (mkArguments (a_graph a) (a_output a) (a_plugins a ++ [value]))
          else None
      end
  end.

(* [tools/rkavp-run/main.cpp:42-57] ParseArguments *)
Definition ParseArguments (argv : list string) : option Arguments_ := parse_options (drop 2 argv) no_arguments.

(** ** Calls *)

Inductive RunCmd :=
| RHost (c : HostCmd)
| RunnerStart (config : GraphConfig)
| RunnerLastError
| RunnerStop
| RunnerTrace
(** [std::signal] and the flag that the handler sets. *)
| InstallSignals
| StopRequested.

Definition RunAns (c : RunCmd) : Type :=
  match c with
  | RHost c => HostAns c
  | RunnerStart _ | RunnerLastError => Status
  | RunnerStop | InstallSignals => unit
  | RunnerTrace => string
  | StopRequested => bool
  end.

Record ToolState := mkToolState { ts_logging : Logging; ts_plugins : Manager }.
Definition initial_tool : ToolState := mkToolState initial_logging (mkManager empty_registry [] []).
Definition set_plugins (m : Manager) (s : ToolState) : ToolState := mkToolState (ts_logging s) m.

Abbreviation RProg := (dprog RunAns ToolState).
Abbreviation rcall := (dcall (Ans := RunAns) (S := ToolState)).

(** Programs that only ask the host. *)
Fixpoint lift {A} (m : HProg A) : RProg A :=
  match m with
  | DRet a => DRet a
  | DLocal f k => lift (k (f tt).1)
  | DCall c k => DCall (RHost c : RunCmd) (fun a => lift (k a))
  | DUndefined w => DUndefined w
  end.

(** ** Plugin paths *)

(** [path::extension], with its dot. *)
Definition extension (p : string) : string :=
  let name := filename p in
  if bool_decide (name = "..") then ""
  else match rsplit "."%char (chars name) with
       | Some (_ :: _, e) => "." +:+ of_chars e
       | _ => ""
       end.

(** [path::parent_path] of an absolute path. *)
Definition parent_directory (p : string) : string :=
  match rsplit "/"%char (chars p) with
  | Some ([], _) => "/"
  | Some (d, _) => of_chars d
  | None => ""
  end.

Definition is_plugin_name (name : string) : bool :=
  has_prefix "librkavp_" name && negb (bool_decide (name = "librkavp_core.so")).

(** The plugins among the entries of a directory; [None] is an exception. *)
Fixpoint plugin_entries (directory : string) (names : list string) : HProg (option (list string)) :=
  match names with
  | [] => DRet (Some [])
  | name :: rest =>
      let path := path_append directory name in
      regular <~ hcall (IsRegularFile path);
      match (regular : option bool) with
      | None => DRet None
      | Some regular =>
          more <~ plugin_entries directory rest;
          DRet (match (more : option (list string)) with
                | None => None
                | Some more =>
                    Some (if regular && bool_decide (extension path = ".so") && is_plugin_name (filename path)
                          then path :: more else more)
                end)
      end
  end.

(* [tools/rkavp-run/main.cpp:59-73] AppendPluginPath *)
Definition AppendPluginPath (path : string) (plugins : list string) : HProg (option (list string)) :=
  if bool_decide (path = "") then DRet (Some plugins) else
  regular <~ hcall (IsRegularFile path);
  match (regular : option bool) with
  | None => DRet None
  | Some true => DRet (Some (plugins ++ [path]))
  | Some false =>
      directory <~ hcall (IsDirectory path);
      match (directory : option bool) with
      | None => DRet None
      | Some false => DRet (Some plugins)
      | Some true =>
          names <~ hcall (DirectoryEntries path);
          match (names : option (list string)) with
          | None => DRet None
          | Some names =>
              found <~ plugin_entries path names;
              DRet (match (found : option (list string)) with None => None | Some l => Some (plugins ++ l) end)
          end
      end
  end.

(** The same for a list of paths. *)
Fixpoint append_all (paths plugins : list string) : HProg (option (list string)) :=
  match paths with
  | [] => DRet (Some plugins)
  | path :: rest =>
      l <~ AppendPluginPath path plugins;
      match (l : option (list string)) with None => DRet None | Some l => append_all rest l end
  end.

(* [tools/rkavp-run/main.cpp:75-82] AppendDefaultPluginPaths *)
Definition AppendDefaultPluginPaths (plugins : list string) : HProg (option (list string)) :=
  executable <~ hcall (Canonical "/proc/self/exe");
  match (executable : option string) with
  | None => DRet (Some plugins)
  | Some e =>
      let binary_directory := parent_directory e in
      append_all [binary_directory; path_append (parent_directory binary_directory) "lib"] plugins
  end.

(** The parts of a text between the separators. *)
Fixpoint split_at (c : ascii) (s : string) : list string :=
  match s with
  | EmptyString => [""]
  | String d t =>
      if bool_decide (d = c) then "" :: split_at c t
      else match split_at c t with
           | [] => [String d ""]
           | x :: rest => String d x :: rest
           end
  end.

(** The paths of the plugins, sorted and without duplicates. *)
Definition plugin_paths (arguments : Arguments_) : HProg (option (list string)) :=
  l <~ AppendDefaultPluginPaths (a_plugins arguments);
  match (l : option (list string)) with
  | None => DRet None
  | Some l =>
      paths <~ hcall (Getenv "RKAVP_PLUGIN_PATH");
      l <~ match (paths : option string) with
           | None => DRet (Some l)
           | Some value => append_all (split_at ":"%char value) l
           end;
      DRet (match (l : option (list string)) with None => None | Some l => Some (sort_unique l) end)
  end.

(** How a run of the tool ends: with an exit code, by an exception that nobody catches, or, when
    the fuel of the waiting loop is used up, not yet. *)
Inductive RunResult := Exit (code : Z) | Terminate | Waiting.

Section tool.
Context {YC : YamlCpp} {HO : Host}.
Variable dlopen : string -> PluginFile.
Variables RKAVP_VERSION RKAVP_TARGET_SOC : string.

(** The plugins are loaded up to the first that fails. *)
Fixpoint load_all (paths : list string) (m : Manager) : Status * Manager :=
  match paths with
  | [] => (Ok, m)
  | path :: rest =>
      let '(status, m) := Load dlopen path m in
      if negb (ok status) then (status, m) else load_all rest m
  end.

(* [tools/rkavp-run/main.cpp:84-104] LoadPlugins *)
Definition LoadPlugins (arguments : Arguments_) : RProg (option Status) :=
  paths <~ lift (plugin_paths arguments);
  match (paths : option (list string)) with
  | None => DRet None
  | Some paths =>
      st <~ DLocal (fun s => let '(st, m) := load_all paths (ts_plugins s) in (st, set_plugins m s)) DRet;
      DRet (Some st)
  end.

(** ** The tool *)

Definition stdout (text : string) : RProg unit := rcall (RHost (Stdout text)).
Definition stderr (text : string) : RProg unit := rcall (RHost (Stderr text)).

(* [tools/rkavp-run/main.cpp:20-23] PrintError *)
Definition PrintError (status : Status) : RProg RunResult :=
  stderr ("error: " +:+ message status +:+ newline);~ DRet (Exit 1).

Definition usage_text : string :=
  "usage:" +:+ newline +:+
  "  rkavp-run doctor" +:+ newline +:+
  "  rkavp-run plugins [--plugin <library.so>]" +:+ newline +:+
  "  rkavp-run validate --graph <file.yaml> [--plugin <library.so>]" +:+ newline +:+
  "  rkavp-run inspect  --graph <file.yaml> [--plugin <library.so>]" +:+ newline +:+
  "  rkavp-run run      --graph <file.yaml> [--plugin <library.so>]" +:+ newline +:+
  "  rkavp-run trace    --graph <file.yaml> --output <trace.json> [--plugin <library.so>]" +:+ newline.

(* [tools/rkavp-run/main.cpp:25-34] PrintUsage *)
Definition PrintUsage : RProg unit := stdout usage_text.
Definition usage_exit : RProg RunResult := PrintUsage;~ DRet (Exit 2).

(** [while (!g_stop && runner.last_error().ok()) sleep]: [false] when the fuel is used up. *)
(* [tools/rkavp-run/main.cpp:171-172] main (waiting loop) *)
Fixpoint wait_loop (fuel : nat) : RProg bool :=
  match fuel with
  | O => DRet false
  | S fuel =>
      stop <~ rcall StopRequested;
      if (stop : bool) then DRet true else
      error <~ rcall RunnerLastError;
      if negb (ok error) then DRet true else wait_loop fuel
  end.

(** The graph is run, stopped, and its trace written.  The trace is read before its file is
    opened, which makes no difference to a graph that has stopped. *)
(* [tools/rkavp-run/main.cpp:164-181] main (run and trace) *)
Definition run_graph (fuel : nat) (command : string) (arguments : Arguments_) (config : GraphConfig) : RProg RunResult :=
  status <~ rcall (RunnerStart config);
  if negb (ok status) then PrintError status else
  rcall InstallSignals;~
  over <~ wait_loop fuel;
  if negb over then DRet Waiting else
  rcall RunnerStop;~
  opened <~ (if bool_decide (command = "trace") then
               json <~ rcall RunnerTrace; rcall (RHost (WriteFile (a_output arguments) json))
             else DRet true);
  if negb opened then PrintError (Unavailable ("cannot open trace output: " +:+ a_output arguments)) else
  error <~ rcall RunnerLastError;
  if ok error then DRet (Exit 0) else error <~ rcall RunnerLastError; PrintError error.

(** The commands that need a graph. *)
(* [tools/rkavp-run/main.cpp:136-162] main (graph commands) *)
Definition graph_command (fuel : nat) (command : string) (arguments : Arguments_) : RProg RunResult :=
  if bool_decide (a_graph arguments = "") then usage_exit else
  match LoadFile (a_graph arguments) with
  | None => DUndefined "the loader does not return"
  | Some (Err status) => PrintError status
  | Some (Okay config) =>
      registry <~ dget (fun s => registry_ (ts_plugins s));
      let status := Validate config registry in
      if negb (ok status) then PrintError status
      else if bool_decide (command = "inspect") then stdout (Inspect config);~ DRet (Exit 0)
      else if bool_decide (command = "validate") then stdout ("valid" +:+ newline);~ DRet (Exit 0)
      else if negb (bool_decide (command = "run")) && negb (bool_decide (command = "trace")) then usage_exit
      else if bool_decide (command = "trace") && bool_decide (a_output arguments = "") then usage_exit
      else run_graph fuel command arguments config
  end.

Definition doctor_text (v : PlatformCapabilities) : string :=
  "rkavp " +:+ RKAVP_VERSION +:+ newline +:+ "target_soc=" +:+ RKAVP_TARGET_SOC +:+ newline +:+
  "core=ok" +:+ newline +:+ FormatPlatformCapabilities v.

(* [tools/rkavp-run/main.cpp:108-182] main *)
Definition main (fuel : nat) (argv : list string) : RProg RunResult :=
  log_level <~ rcall (RHost (Getenv "RKAVP_LOG_LEVEL"));
  dset (fun s => mkToolState
    (InitializeLogging (mkLoggingOptions (ParseLogLevel (default "info" (log_level : option string)) kInfo) true)
       (ts_logging s)) (ts_plugins s));~
  match argv with
  | _ :: command :: _ =>
      if bool_decide (command = "doctor") then
        v <~ lift ProbePlatformCapabilities; stdout (doctor_text v);~ DRet (Exit 0)
      else match ParseArguments argv with
      | None => usage_exit
      | Some arguments =>
          dset (fun s => set_plugins (mkManager (RegisterBuiltinNodes empty_registry) [] []) s);~
          status <~ LoadPlugins arguments;
          match (status : option Status) with
          | None => DRet Terminate
          | Some status =>
              if negb (ok status) then PrintError status
              else if bool_decide (command = "plugins") then
                types <~ dget (fun s => Types (registry_ (ts_plugins s)));
                deach types (fun t => stdout (t +:+ newline));~ DRet (Exit 0)
              else graph_command fuel command arguments
          end
      end
  | _ => usage_exit
  end.
End tool.

(** ** Arguments and paths *)

(** The option list that gives some arguments. *)
Definition print_options (a : Arguments_) : list string :=
  ["--graph"; a_graph a; "--output"; a_output a] ++ concat (map (fun p => ["--plugin"; p]) (a_plugins a)).

(** Arguments that are written out are read back. *)
Lemma parse_arguments_print program command a : ParseArguments (program :: command :: print_options a) = Some a.
Proof.
  destruct a as [g o ps]. unfold ParseArguments, print_options. cbn [drop app a_graph a_output a_plugins parse_options].
  rewrite !bool_decide_eq_true_2, (bool_decide_eq_false_2 ("--output" = "--graph")) by done.
  cbn [a_graph a_output a_plugins no_arguments].
  assert (forall ps qs, parse_options (concat (map (fun p => ["--plugin"; p]) ps)) (mkArguments g o qs) =
                        Some (mkArguments g o (qs ++ ps))) as ->; [|done].
  clear ps. induction ps as [|p ps IH]; intros qs; cbn [map concat app parse_options]; [by rewrite app_nil_r|].
  rewrite (bool_decide_eq_false_2 ("--plugin" = "--graph")), (bool_decide_eq_false_2 ("--plugin" = "--output")),
    bool_decide_eq_true_2 by done. cbn [a_graph a_output a_plugins]. rewrite IH. by rewrite <- (assoc_L (++)).
Qed.

(** Splitting a search path loses nothing and leaves no separator. *)
Lemma split_at_spec c s : split_at c s <> [] /\ Forall (fun p => c ∉ chars p) (split_at c s) /\
  String.concat (String c "") (split_at c s) = s.
Proof.
  induction s as [|d s (Hne & Hf & Hc)]; [split_and!; [done| |done]; repeat constructor; by apply not_elem_of_nil|].
  cbn [split_at]. destruct (split_at c s) as [|x rest] eqn:E; [done|]. case_bool_decide as Hd.
  - subst d. split_and!; [done| |].
    + constructor; [by apply not_elem_of_nil|done].
    + cbn [String.concat] in *. by rewrite Hc.
  - apply Forall_cons in Hf as [Hx Hf]. split_and!; [done| |].
    + constructor; [|done]. cbn [chars]. apply not_elem_of_cons. split; [done|done].
    + destruct rest; cbn [String.concat] in *; by rewrite <- Hc.
Qed.

(** ** Which plugins are loaded *)

Section candidates.
Context {H : StaticHost}.

(** The plugins that a path of the search path stands for. *)
Definition plugin_candidates (path : string) : list string :=
  if bool_decide (path = "") then []
  else if bool_decide (is_Some (st_files !! path)) then [path]
  else match st_directories !! path with
       | None => []
       | Some names =>
           filter (fun p => bool_decide (is_Some (st_files !! p)) && bool_decide (extension p = ".so") &&
                            is_plugin_name (filename p) = true) (map (path_append path) names)
       end.

Definition search_path : list string :=
  match st_canonical "/proc/self/exe" with
  | None => []
  | Some e => [parent_directory e; path_append (parent_directory (parent_directory e)) "lib"]
  end ++
  match st_environment !! "RKAVP_PLUGIN_PATH" with None => [] | Some value => split_at ":"%char value end.

(** What a program answers on this host. *)
Definition answers {A} (m : HProg A) (a : A) : Prop := (drun static_host m tt tt).1.1.1 = Some a.

Lemma answers_ret {A} (a : A) : answers (DRet a) a.
Proof. done. Qed.
Lemma answers_call {A} c (k : HostAns c -> HProg A) a :
  answers (k (static_host c tt).1) a -> answers (dbind (hcall c) k) a.
Proof.
  unfold answers. rewrite drun_bind. unfold dcall. cbn [drun]. destruct (static_host c tt) as [x []]. cbn.
  by destruct (drun static_host (k x) tt tt) as [[[? ?] ?] ?].
Qed.
Lemma answers_bind {A B} (m : HProg A) (f : A -> HProg B) a b : answers m a -> answers (f a) b -> answers (dbind m f) b.
Proof.
  unfold answers. intros Hm Hf. rewrite drun_bind. destruct (drun static_host m tt tt) as [[[r []] []] evs].
  cbn in Hm. subst r. by destruct (drun static_host (f a) tt tt) as [[[? ?] ?] ?].
Qed.

Lemma plugin_entries_answers directory names :
  answers (plugin_entries directory names)
    (Some (filter (fun p => bool_decide (is_Some (st_files !! p)) && bool_decide (extension p = ".so") &&
                            is_plugin_name (filename p) = true) (map (path_append directory) names))).
Proof.
  induction names as [|n names IH]; cbn [plugin_entries map]; [done|].
  apply answers_call. cbn [static_host fst]. eapply answers_bind; [exact IH|].
  rewrite filter_cons. case_decide as E; [by rewrite E|]. apply not_true_is_false in E. by rewrite E.
Qed.

Lemma append_path_answers path plugins :
  answers (AppendPluginPath path plugins) (Some (plugins ++ plugin_candidates path)).
Proof.
  unfold AppendPluginPath, plugin_candidates. case_bool_decide; [by rewrite app_nil_r|].
  apply answers_call. cbn [static_host fst]. destruct (bool_decide (is_Some (st_files !! path))); [done|].
  apply answers_call. cbn [static_host fst]. destruct (st_directories !! path) as [names|] eqn:E.
  - rewrite bool_decide_eq_true_2 by done. apply answers_call. cbn [static_host fst]. rewrite E.
    eapply answers_bind; [apply plugin_entries_answers|done].
  - rewrite bool_decide_eq_false_2 by (intros [? ?]; done). by rewrite app_nil_r.
Qed.

Lemma append_all_answers paths plugins :
  answers (append_all paths plugins) (Some (plugins ++ concat (map plugin_candidates paths))).
Proof.
  revert plugins. induction paths as [|p paths IH]; intros plugins; cbn [append_all map concat]; [by rewrite app_nil_r|].
  eapply answers_bind; [apply append_path_answers|]. cbn. rewrite (assoc_L (++)). apply IH.
Qed.

Lemma plugin_paths_answers arguments :
  answers (plugin_paths arguments)
    (Some (sort_unique (a_plugins arguments ++ concat (map plugin_candidates search_path)))).
Proof.
  unfold plugin_paths, search_path. rewrite map_app, concat_app, (assoc_L (++)).
  eapply answers_bind.
  { unfold AppendDefaultPluginPaths. apply answers_call. cbn [static_host fst].
    instantiate (1 := Some (a_plugins arguments ++ concat (map plugin_candidates
      match st_canonical "/proc/self/exe" with None => [] | Some e =>
        [parent_directory e; path_append (parent_directory (parent_directory e)) "lib"] end))).
    destruct (st_canonical "/proc/self/exe"); [apply append_all_answers|by rewrite app_nil_r]. }
  cbn iota beta. apply answers_call. cbn [static_host fst].
  destruct (st_environment !! "RKAVP_PLUGIN_PATH") as [value|].
  - eapply answers_bind; [apply append_all_answers|done].
  - by rewrite app_nil_r.
Qed.

(** The same answers, asked through the tool. *)
Lemma lift_answers {A E} (dev : Device RunAns E) (m : HProg A) s e a :
  (forall c e, (dev (RHost c) e).1 = (static_host c tt).1) -> answers m a ->
  exists e' evs, drun dev (lift m) s e = (Some a, s, e', evs).
Proof.
  intros Hdev. unfold answers. revert s e. induction m as [x|B f k IH|c k IH|w]; intros s e Hm; cbn [drun lift] in *.
  - injection Hm as <-. by eexists _, _.
  - apply IH. by destruct (f tt) as [b []].
  - specialize (Hdev c e) as Hc. destruct (static_host c tt) as [y []], (dev (RHost c) e) as [x e1]; cbn in Hc; subst x.
    destruct (IH y s e1) as (e' & evs & Hr).
    { destruct (drun static_host (k y) tt tt) as [[[? ?] ?] ?]. done. }
    rewrite Hr. by eexists _, _.
  - done.
Qed.
End candidates.

Section loading.
Variable dlopen : string -> PluginFile.

Lemma load_paths p m :
  LoadedPaths (Load dlopen p m).2 = LoadedPaths m ++ (if ok (Load dlopen p m).1 then [p] else []).
Proof.
  unfold Load, LoadedPaths. case_bool_decide; [by rewrite app_nil_r|].
  destruct (existsb _ _); [by rewrite app_nil_r|]. destruct (dlopen p) as [e| |init]; [by rewrite app_nil_r..|].
  destruct (init _) as [rc r]. destruct (rc =? 0); simpl; [|by rewrite app_nil_r]. by rewrite map_app.
Qed.

(** Plugins are loaded one after the other, up to the first that fails. *)
Lemma load_all_spec paths m :
  let '(st, m') := load_all dlopen paths m in
  (ok st = true -> LoadedPaths m' = LoadedPaths m ++ paths) /\
  (ok st = false -> exists l p rest, paths = l ++ p :: rest /\ LoadedPaths m' = LoadedPaths m ++ l /\
     ok (load_all dlopen l m).1 = true /\ st = (Load dlopen p (load_all dlopen l m).2).1).
Proof.
  revert m. induction paths as [|p paths IH]; intros m; cbn [load_all]; [split; [by rewrite app_nil_r|done]|].
  pose proof (load_paths p m) as Hp. destruct (Load dlopen p m) as [st1 m1] eqn:E1. cbn [fst snd] in Hp.
  destruct (ok st1) eqn:Ek; cbn [negb].
  - specialize (IH m1). destruct (load_all dlopen paths m1) as [st m']. destruct IH as [IH1 IH2]. split.
    + intros Hok. rewrite (IH1 Hok), Hp. by rewrite <- (assoc_L (++)).
    + intros Hok. destruct (IH2 Hok) as (l & q & rest & -> & Hl & Ha & Hst). exists (p :: l), q, rest.
      cbn [load_all]. rewrite E1, Ek. cbn [negb]. split_and!; [done| |done|done].
      rewrite Hl, Hp. by rewrite <- (assoc_L (++)).
  - split; [congruence|]. intros _. exists [], p, paths. cbn [load_all fst snd]. rewrite E1, Hp. by split_and!.
Qed.
End loading.

(** Which plugins a command loads, on a host whose files do not change: those of the
    command line, the plugin libraries in the directory of the executable and in the library
    directory beside it, and those of the search path in the environment, every path once and
    in strictly increasing order.  If loading succeeds exactly these plugins are loaded; if it
    fails, exactly those before the first that cannot be loaded, whose status is the result. *)
Theorem plugins_exact {E} {H : StaticHost} (dlopen : string -> PluginFile) (dev : Device RunAns E) e s arguments
    (host_answers : forall c e, (dev (RHost c) e).1 = (static_host c tt).1) :
  plugins_ (ts_plugins s) = [] ->
  let paths := sort_unique (a_plugins arguments ++ concat (map plugin_candidates search_path)) in
  let '(r, s', _, _) := drun dev (LoadPlugins dlopen arguments) s e in
  StronglySorted string_lt paths /\
  exists st, r = Some (Some st) /\
    (ok st = true -> LoadedPaths (ts_plugins s') = paths) /\
    (ok st = false -> exists l p rest, paths = l ++ p :: rest /\ LoadedPaths (ts_plugins s') = l /\
       st = (Load dlopen p (load_all dlopen l (ts_plugins s)).2).1).
Proof.
  intros Hempty paths. unfold LoadPlugins. rewrite drun_bind.
  destruct (lift_answers dev _ s e _ host_answers (plugin_paths_answers arguments)) as (e' & evs & ->).
  fold paths. rewrite drun_bind. cbn [drun]. pose proof (load_all_spec dlopen paths (ts_plugins s)) as Hl.
  destruct (load_all dlopen paths (ts_plugins s)) as [st m]. cbn [drun]. split; [apply sort_unique_sorted|].
  exists st. split; [done|]. destruct Hl as [H1 H2]. unfold LoadedPaths in *. rewrite Hempty in H1, H2. cbn in H1, H2.
  split; [done|]. intros Hf. destruct (H2 Hf) as (l & p & rest & Hp & Hm & _ & Hst). by exists l, p, rest.
Qed.

(** A host with one plugin beside the executable. *)
Definition plugin_host : StaticHost := {|
  st_files := {["/opt/bin/librkavp_demo.so" := "ELF"; "/opt/bin/librkavp_core.so" := "ELF"; "/opt/bin/rkavp-run" := "ELF"]};
  st_directories := {["/opt/bin" := ["rkavp-run"; "librkavp_demo.so"; "librkavp_core.so"]]};
  st_libraries := ∅;
  st_environment := {["RKAVP_PLUGIN_PATH" := ":/opt/bin:/missing"]};
  st_kernel := None;
  st_canonical := fun p => if bool_decide (p = "/proc/self/exe") then Some "/opt/bin/rkavp-run" else None;
  st_writable := fun _ => true |}.

(** Both names are the same file for the dynamic loader. *)
Definition demo_loader (p : string) : PluginFile :=
  if bool_decide (p = "/opt/bin/librkavp_demo.so" \/ p = "./librkavp_demo.so") then
    EntryPoint (fun r => let '(st, r') := Register "Demo" (Some demo_type) r in (if ok st then 0 else -1, r'))
  else DlopenFails "no such file".

(** The runner of the demonstrations starts, sees a stop request after two polls, and stops. *)
Definition demo_device {H : StaticHost} : Device RunAns nat := fun c n =>
  match c return RunAns c * nat with
  | RHost c => ((static_host c tt).1, n)
  | RunnerStart _ => (Ok, n)
  | RunnerLastError => (Ok, n)
  | RunnerStop => (tt, n)
  | RunnerTrace => ("{}", n)
  | InstallSignals => (tt, n)
  | StopRequested => (bool_decide (2 <= n)%nat, S n)
  end.

Lemma plugins_exact_witness :
  LoadedPaths (ts_plugins (drun (demo_device (H := plugin_host))
    (LoadPlugins demo_loader (mkArguments "" "" ["/opt/bin/librkavp_demo.so"])) initial_tool 0%nat).1.1.2) =
  ["/opt/bin/librkavp_demo.so"].
Proof.
  pose proof (plugins_exact (H := plugin_host) demo_loader (demo_device (H := plugin_host)) 0%nat initial_tool
    (mkArguments "" "" ["/opt/bin/librkavp_demo.so"]) (fun c e => eq_refl) eq_refl) as Hp.
  destruct (drun (demo_device (H := plugin_host)) _ initial_tool 0%nat) as [[[r s] e'] evs] eqn:Er.
  destruct Hp as (_ & st & Hr & Hok & _).
  assert (ok st = true) as Hst.
  { assert (option_map ok (mjoin (drun (demo_device (H := plugin_host))
      (LoadPlugins demo_loader (mkArguments "" "" ["/opt/bin/librkavp_demo.so"])) initial_tool 0%nat).1.1.1) = Some true)
      as Ho by (vm_compute; reflexivity).
    rewrite Er in Ho. cbn [fst] in Ho. rewrite Hr in Ho. cbn in Ho. congruence. }
  cbn [fst snd]. rewrite (Hok Hst). vm_compute. reflexivity.
Defined.

(** A plugin that is named on the command line by another path than the one under which it is
    found beside the executable is loaded twice, and the second time fails. *)
Example plugin_named_twice :
  option_map (option_map ok) (drun (demo_device (H := plugin_host))
    (LoadPlugins demo_loader (mkArguments "" "" ["./librkavp_demo.so"])) initial_tool 0%nat).1.1.1 = Some (Some false).
Proof. by vm_compute. Qed.

(** ** The protocol of a run *)

(** The life of the runner, as the tool uses it. *)
Inductive Phase := NoRunner | StartFailed | Started (config : GraphConfig) | Stopped (config : GraphConfig).

(** The ghost state: the phase, the polls of the waiting loop that saw no reason to stop,
    and what was written to the standard streams. *)
Record Progress := mkProgress {
  phase : Phase; polls : nat; out_texts : list string; err_texts : list string }.
Definition at_phase (p : Phase) (g : Progress) : Progress := mkProgress p (polls g) (out_texts g) (err_texts g).

(** Which calls are in order.  A runner is started once, asked and stopped while it runs, and
    asked for its trace when it has stopped. *)
Definition run_step (ev : devent RunAns) (g : Progress) : option Progress :=
  let 'Ev c a := ev in
  match c return RunAns c -> option Progress with
  | RHost (Stdout t) => fun _ => Some (mkProgress (phase g) (polls g) (out_texts g ++ [t]) (err_texts g))
  | RHost (Stderr t) => fun _ => Some (mkProgress (phase g) (polls g) (out_texts g) (err_texts g ++ [t]))
  | RHost _ => fun _ => Some g
  | RunnerStart config => fun st =>
      match phase g with
      | NoRunner => Some (at_phase (if ok st then Started config else StartFailed) g)
      | _ => None
      end
  | RunnerLastError => fun _ => match phase g with Started _ | Stopped _ => Some g | _ => None end
  | RunnerStop => fun _ => match phase g with Started config => Some (at_phase (Stopped config) g) | _ => None end
  | RunnerTrace => fun _ => match phase g with Stopped _ => Some g | _ => None end
  | InstallSignals => fun _ => match phase g with Started _ => Some g | _ => None end
  | StopRequested => fun stop =>
      match phase g with
      | Started _ => Some (if stop then g else mkProgress (phase g) (S (polls g)) (out_texts g) (err_texts g))
      | _ => None
      end
  end a.
Definition run_allowed (_ : Progress) (_ : devent RunAns) : Prop := True.

(** Programs that only ask the host and print nothing. *)
Definition prints (c : HostCmd) : bool := match c with Stdout _ | Stderr _ => true | _ => false end.
Fixpoint silent {A} (m : HProg A) : Prop :=
  match m with
  | DRet _ => True
  | DLocal f k => forall b, silent (k b)
  | DCall c k => prints c = false /\ forall a, silent (k a)
  | DUndefined _ => False
  end.

Lemma silent_bind {A B} (m : HProg A) (f : A -> HProg B) : silent m -> (forall a, silent (f a)) -> silent (dbind m f).
Proof.
  intros Hm Hf. induction m as [a|C g k IH|c k IH|w]; cbn [silent] in *; unfold dbind; fold (@dbind HostCmd HostAns unit A B).
  - apply Hf.
  - intros b. by apply IH.
  - destruct Hm as [Hc Hm]. split; [done|]. intros a. by apply IH.
  - done.
Qed.

(** [hush] shows that a program is silent. *)
Ltac hush :=
  repeat match goal with
  | |- silent (dbind (dcall _) _) => apply silent_bind; [by repeat split|]; intros ?
  | |- silent (dcall _) => by repeat split
  | |- silent (dbind _ _) => apply silent_bind; [auto with silent|intros ?]
  | |- silent (DRet _) => exact I
  | |- silent (if ?b then _ else _) => destruct b
  | |- silent (match ?x with _ => _ end) => destruct x
  end.
Create HintDb silent.

Lemma silent_read_text p b : silent (ReadText p b).
Proof. unfold ReadText. hush. Qed.
#[local] Hint Resolve silent_read_text : silent.
Lemma silent_read_first ps : silent (ReadFirstAvailable ps).
Proof. induction ps as [|p ps IH]; cbn [ReadFirstAvailable]; hush. done. Qed.
Lemma silent_query n f x : silent (query_library n f x).
Proof. unfold query_library. hush. Qed.
Lemma silent_can_load n : silent (CanLoadLibrary n).
Proof. unfold CanLoadLibrary. hush. Qed.
Lemma silent_scan_dev : silent ScanDev.
Proof. unfold ScanDev. hush. Qed.
Lemma silent_scan_roots rs : silent (ScanRoots rs).
Proof. induction rs as [|r rs IH]; cbn [ScanRoots]; hush. Qed.
#[local] Hint Resolve silent_read_first silent_query silent_can_load silent_scan_dev silent_scan_roots : silent.
Lemma silent_probe : silent ProbePlatformCapabilities.
Proof.
  unfold ProbePlatformCapabilities, QueryMppVersion, QueryRgaVersion. cbv zeta. hush.
Qed.

Lemma silent_entries d ns : silent (plugin_entries d ns).
Proof. induction ns as [|n ns IH]; cbn [plugin_entries]; hush. Qed.
#[local] Hint Resolve silent_entries : silent.
Lemma silent_append p l : silent (AppendPluginPath p l).
Proof. unfold AppendPluginPath. hush. Qed.
#[local] Hint Resolve silent_append : silent.
Lemma silent_append_all ps l : silent (append_all ps l).
Proof. revert l. induction ps as [|p ps IH]; intros l; cbn [append_all]; hush. apply IH. Qed.
#[local] Hint Resolve silent_append_all : silent.
Lemma silent_plugin_paths a : silent (plugin_paths a).
Proof.
  unfold plugin_paths, AppendDefaultPluginPaths. hush; auto with silent.
Qed.

Section protocol.
Context {YC : YamlCpp} {HO : Host}.
Variable dlopen : string -> PluginFile.
Variables RKAVP_VERSION RKAVP_TARGET_SOC : string.
Abbreviation rwp := (wp (S := ToolState) run_step run_allowed).

Lemma lift_wp {A} (m : HProg A) (Q : A -> ToolState -> Progress -> Prop) s g :
  silent m -> (forall a, Q a s g) -> rwp (lift m) Q s g.
Proof.
  intros Hm HQ. induction m as [a|B f k IH|c k IH|w]; cbn [silent lift] in *; unfold wp; cbn.
  - apply HQ.
  - by apply IH.
  - intros a _. exists g. destruct Hm as [Hc Hm]. split; [|by apply IH]. by destruct c.
  - done.
Qed.

(** What the end of a run means. *)
Definition run_post (fuel : nat) (graph : string) (r : RunResult) (s : ToolState) (g : Progress) : Prop :=
  match r with
  | Exit code =>
      (code = 2 /\ phase g = NoRunner /\ out_texts g = [usage_text] /\ err_texts g = []) \/
      (code = 1 /\ (forall c, phase g <> Started c) /\ exists why, err_texts g = ["error: " +:+ why +:+ newline]) \/
      (code = 0 /\ (phase g = NoRunner \/ exists c, phase g = Stopped c) /\ err_texts g = [])
  | Terminate => phase g = NoRunner
  | Waiting => (exists c, phase g = Started c) /\ polls g = fuel
  end /\
  (forall c, phase g = Started c \/ phase g = Stopped c ->
     LoadFile graph = Some (Okay c) /\ ok (Validate c (registry_ (ts_plugins s))) = true).

Definition quiet_so_far (g : Progress) : Prop := out_texts g = [] /\ err_texts g = [].
Definition fresh (g : Progress) : Prop := phase g = NoRunner /\ polls g = 0%nat /\ quiet_so_far g.

Lemma usage_wp fuel graph s g : fresh g -> rwp usage_exit (run_post fuel graph) s g.
Proof.
  intros (Hp & _ & Ho & He). unfold usage_exit, PrintUsage, stdout. wcall [] _; [done|]. wstep.
  split; [left; cbn; by rewrite Ho|]. cbn. rewrite Hp. by intros c [|].
Qed.

Lemma print_error_wp fuel graph st s g : err_texts g = [] ->
  (forall c, phase g <> Started c) ->
  (forall c, phase g = Stopped c -> LoadFile graph = Some (Okay c) /\ ok (Validate c (registry_ (ts_plugins s))) = true) ->
  rwp (PrintError st) (run_post fuel graph) s g.
Proof.
  intros He Hn Hs. unfold PrintError, stderr. wcall [] _; [done|]. wstep. split.
  - right; left. cbn. rewrite He. split_and!; [done|done|by eexists].
  - intros c [Hc|Hc]; [by destruct (Hn c)|by apply Hs].
Qed.

(** The loop ends at a request or an error, or its polls are used up. *)
Lemma wait_loop_wp fuel c s g (Q : bool -> ToolState -> Progress -> Prop) :
  phase g = Started c ->
  (forall g', phase g' = Started c -> out_texts g' = out_texts g -> err_texts g' = err_texts g -> Q true s g') ->
  Q false s (mkProgress (phase g) (fuel + polls g) (out_texts g) (err_texts g)) ->
  rwp (wait_loop fuel) Q s g.
Proof.
  revert g. induction fuel as [|fuel IH]; intros g Hp Hd Hw; cbn [wait_loop]; [wstep; by destruct g|].
  wcall stop _; [cbn; by rewrite Hp|]. destruct stop; [wstep; by apply Hd|].
  wcall err _; [done|]. destruct (ok err); cbn [negb].
  - apply IH; [done|done|]. cbn. rewrite Nat.add_succ_r. by rewrite Hp in Hw.
  - wstep. by apply Hd.
Qed.

Lemma run_graph_wp fuel command arguments config s g :
  fresh g -> LoadFile (a_graph arguments) = Some (Okay config) ->
  ok (Validate config (registry_ (ts_plugins s))) = true ->
  rwp (run_graph fuel command arguments config) (run_post fuel (a_graph arguments)) s g.
Proof.
  intros (Hp & Hn & Ho & He) Hl Hv. unfold run_graph.
  wcall st _; [cbn; by rewrite Hp|]. destruct (ok st); cbn [negb]; [|by apply print_error_wp].
  wcall [] _; [done|]. apply dwp_bind. apply (wait_loop_wp fuel config); [done| |].
  2:{ cbn [negb]. wstep. cbn. split; [split; [by eexists|cbn; lia]|]. intros c [[= <-]|?]; [done|done]. }
  intros g' Hp' Ho' He'. cbn [negb]. wcall [] _; [cbn; by rewrite Hp'|]. cbn in Ho', He'.
  assert (forall c, phase (at_phase (Stopped config) g') = Stopped c ->
    LoadFile (a_graph arguments) = Some (Okay c) /\ ok (Validate c (registry_ (ts_plugins s))) = true) as Hstop.
  { intros c [= <-]. done. }
  assert (forall opened : bool, rwp
    (if negb opened then PrintError (Unavailable ("cannot open trace output: " +:+ a_output arguments)) else
     error <~ rcall RunnerLastError;
     if ok error then DRet (Exit 0) else error <~ rcall RunnerLastError; PrintError error)
    (run_post fuel (a_graph arguments)) s (at_phase (Stopped config) g')) as Hend.
  { intros [|]; cbn [negb]; [|apply print_error_wp; [by rewrite <- He|done|done]].
    wcall err _; [done|]. destruct (ok err).
    - wstep. split; [right; right; split_and!; [done|right; by eexists|cbn; by rewrite He', He]|].
      intros c [|Hc]; [done|by apply Hstop].
    - wcall err2 _; [done|]. apply print_error_wp; [cbn; by rewrite He', He|done|done]. }
  apply dwp_bind. case_bool_decide; [|wstep; apply Hend].
  wcall json _; [done|]. wcall opened _; [done|]. apply Hend.
Qed.

Lemma graph_command_wp fuel command arguments s g :
  fresh g -> rwp (graph_command fuel command arguments) (run_post fuel (a_graph arguments)) s g.
Proof.
  intros Hf. pose proof Hf as (Hp & Hn & Ho & He).
  assert (forall c, phase g <> Started c) as Hns by (by rewrite Hp).
  assert (forall t, rwp (stdout t;~ DRet (Exit 0)) (run_post fuel (a_graph arguments)) s g) as Hout.
  { intros t. unfold stdout. wcall [] _; [done|]. wstep. split; [right; right; cbn; auto|]. cbn. rewrite Hp. by intros c [|]. }
  unfold graph_command. case_bool_decide; [by apply usage_wp|].
  destruct (load_file_returns (a_graph arguments)) as [r Hr]. rewrite Hr. destruct r as [config|st].
  2:{ apply print_error_wp; [done|done|]. intros c Hc. congruence. }
  wstep. cbv zeta. destruct (ok (Validate config _)) eqn:Hv; cbn [negb].
  2:{ apply print_error_wp; [done|done|]. intros c Hc. congruence. }
  case_bool_decide; [apply Hout|]. case_bool_decide; [apply Hout|].
  destruct (negb _ && negb _); [by apply usage_wp|]. destruct (bool_decide _ && bool_decide _); [by apply usage_wp|].
  by apply run_graph_wp.
Qed.

(** The graph that a command line names. *)
Definition graph_of (argv : list string) : string :=
  match ParseArguments argv with Some a => a_graph a | None => "" end.

Lemma types_wp types s g (Q : unit -> ToolState -> Progress -> Prop) :
  (forall g', phase g' = phase g -> err_texts g' = err_texts g -> Q tt s g') ->
  rwp (deach types (fun t => stdout (t +:+ newline))) Q s g.
Proof.
  revert g. induction types as [|t types IH]; intros g HQ; cbn [deach]; [wstep; by apply HQ|].
  unfold stdout. wcall [] _; [done|]. apply IH. intros g' Hp He. by apply HQ.
Qed.

Lemma main_wp fuel argv s g : fresh g ->
  rwp (main dlopen RKAVP_VERSION RKAVP_TARGET_SOC fuel argv) (run_post fuel (graph_of argv)) s g.
Proof.
  intros Hf. pose proof Hf as (Hp & Hn & Ho & He). unfold main. wcall level _; [done|]. wstep.
  destruct argv as [|program [|command rest]]; [by apply usage_wp..|]. case_bool_decide as Hd.
  { apply dwp_bind, lift_wp; [apply silent_probe|]. intros v. unfold stdout. wcall [] _; [done|]. wstep.
    split; [right; right; cbn; auto|]. cbn. rewrite Hp. by intros c [|]. }
  unfold graph_of. destruct (ParseArguments (program :: command :: rest)) as [arguments|]; [|by apply usage_wp].
  wstep. unfold LoadPlugins. apply dwp_bind, dwp_bind, lift_wp; [apply silent_plugin_paths|].
  intros [paths|]; [|wstep; wstep; split; [done|rewrite Hp; by intros c [|]]].
  wstep. destruct (load_all _ _ _) as [st m]. cbn [fst snd]. wstep.
  destruct (ok st); cbn [negb]; [|by apply print_error_wp; [|rewrite Hp|rewrite Hp]].
  case_bool_decide; [|by apply graph_command_wp].
  wstep. apply dwp_bind, types_wp. intros g' Hp' He'. wstep. split.
  - right; right. rewrite Hp', He', Hp, He. auto.
  - rewrite Hp', Hp. by intros c [|].
Qed.
End protocol.

Definition no_progress : Progress := mkProgress NoRunner 0 [] [].


(** A graph of one sink is valid, runs until the third poll asks it to stop, and leaves a trace. *)
Definition tool_files : Host := Build_Host
  (fun _ => None) (fun _ => None) path_append parent_directory (fun p => p) (fun p => p) "/"
  (fun _ => inl "no text") (fun p => "bad file: " +:+ p)
  {["/g.yaml" := inr (YMap [(YScalar "version", YScalar "1"); (YScalar "graph", YMap [(YScalar "name", YScalar "g");
     (YScalar "nodes", YSeq [YMap [(YScalar "id", YScalar "sink"); (YScalar "type", YScalar "NullSink")]])])])]}.

Definition tool_run (fuel : nat) (argv : list string) :=
  drun (demo_device (H := plugin_host)) (@main demo_yaml tool_files demo_loader "1.0" "rk3588" fuel argv) initial_tool 0%nat.
Definition tool_result (fuel : nat) (argv : list string) : option RunResult := (tool_run fuel argv).1.1.1.

Example tool_results :
  tool_result 5 ["rkavp-run"; "trace"; "--graph"; "/g.yaml"; "--output"; "/t.json"] = Some (Exit 0) /\
  tool_result 2 ["rkavp-run"; "run"; "--graph"; "/g.yaml"] = Some Waiting /\
  tool_result 5 ["rkavp-run"; "run"] = Some (Exit 2) /\
  tool_result 5 ["rkavp-run"; "run"; "--graph"; "/missing.yaml"] = Some (Exit 1) /\
  tool_result 5 ["rkavp-run"; "plugins"; "--plugin"; "./librkavp_demo.so"] = Some (Exit 1).
Proof. by vm_compute. Qed.
