(* ===== verification/HelloGraph.v ===== *)
(** * The example application

    [examples/hello_graph/main.cpp]: loads [graphs/hello_graph.yaml], observes its output, starts
    it, sends one greeting through it and prints what comes out.

    [main] is a thread of the runner of [Runner]: it calls the operations of the runner
    themselves, so that it runs among the workers of the executors and of its own observer.  What
    it prints and the exit code are its result, the [Outcome]; a pool of threads over the state of
    the runner and a place for the outcome says which outcomes there are.

    [hello_outcome]: the program prints its greeting and nothing else, or one error.

    The built-in node types have private states of different types; a runner of the model has one
    such type.  [builtin_classes] is the registry of the built-in types over the sum of their
    private states. *)

From stdpp Require Import gmultiset.
From S2P Require Import Prelude Text Status Timestamp Values BoundedQueue Telemetry Contract Node Registry Services BuiltinNodes GraphConfig GraphConfigFacts Graph InputSync Observers Sources Atomic RunnerState Runner RunnerFacts Typing.
Local Open Scope nat_scope.
Local Open Scope prog_scope.

#[local] Arguments Atomic.bind : simpl never.
#[local] Arguments Atomic.wp : simpl never.

(** ** The built-in types over one type of states *)

Section embed.
Context {X Y : Type} (inj : X -> Y) (proj : Y -> option X) (init : X).

(** A state that is not of the class does not occur; [init] stands for it. *)
Definition on_part {B} (f : X -> B * X) (y : Y) : B * Y :=
  let '(b, x) := f (default init (proj y)) in (b, inj x).

Fixpoint embed {A} (m : NodeM X A) : NodeM Y A :=
  match m with
  | NRet a => NRet a
  | NLocal f k => NLocal (on_part f) (fun b => embed (k b))
  | NEmit port p k => NEmit port p (fun r => embed (k r))
  | NIncrement n k => NIncrement n (embed k)
  | NSetGauge n v k => NSetGauge n v (embed k)
  | NTimed f k => NTimed (fun t => on_part (f t)) (fun b => embed (k b))
  end.

Definition embed_class (cls : NodeClass X) : NodeClass Y * Y :=
  (mkNodeClass (Contract cls) (concurrency cls) (fun o => embed (OnConfigure cls o)) (embed (OnOpen cls))
     (fun c => embed (OnStart cls c)) (fun c => embed (OnProcess cls c)) (embed (OnRequestStop cls))
     (embed (OnStop cls)) (embed (OnClose cls)), inj init).

(** A node does in the sum what it does on its own. *)
Lemma nrun_embed {W A} (h : Handler W) (m : NodeM X A) x w : (forall x, proj (inj x) = Some x) ->
  nrun h (embed m) (inj x) w = let '(a, x', w') := nrun h m x w in (a, inj x', w').
Proof.
  intros Hp. revert x w. induction m as [a|B f k IH|port p k IH|n k IH|n v k IH|B f k IH]; intros x w; simpl.
  - done.
  - unfold on_part. rewrite Hp. simpl. destruct (f x). apply IH.
  - destruct (h_emit h port p w). apply IH.
  - apply IH.
  - apply IH.
  - destruct (h_now h w) as [t w']. unfold on_part. rewrite Hp. simpl. destruct (f t x). apply IH.
Qed.

Lemma typed_embed {A} D id (m : NodeM X A) :
  typed_prog (NS := X) (mkDiscipline (d_in D) (d_out D) (d_stream D) (fun _ _ => True)) (fun _ => True) id m ->
  typed_prog (NS := Y) D (fun _ => True) id (embed m).
Proof.
  induction m as [a|B f k IH|port p k IH|n k IH|n v k IH|B f k IH]; simpl; intros Hm.
  - done.
  - intros y _. split; [done|]. unfold on_part. destruct (Hm (default init (proj y)) Logic.I) as [_ Hk].
    destruct (f (default init (proj y))). by apply IH.
  - destruct Hm as [H1 H2]. split; [exact H1|]. intros r. by apply IH.
  - by apply IH.
  - by apply IH.
  - intros t y _. split; [done|]. unfold on_part. destruct (Hm t (default init (proj y)) Logic.I) as [_ Hk].
    destruct (f t (default init (proj y))). by apply IH.
Qed.
End embed.

Inductive BuiltinState :=
| BNone
| BLimiter (x : Limiter.FlowLimiter)
| BBatch (x : Batch.AdaptiveBatch)
| BRing (x : Ring.RingBuffer).

Definition no_state (cls : NodeClass unit) : NodeClass BuiltinState * BuiltinState :=
  embed_class (fun _ => BNone) (fun _ => Some tt) tt cls.

(* [src/core/builtin_nodes.cpp:391-403] RegisterBuiltinNodes *)
Definition builtin_classes : gmap string (NodeClass BuiltinState * BuiltinState) :=
  list_to_map
    [("Passthrough", no_state PassthroughNode);
     ("NullSink", no_state NullSinkNode);
     ("FlowLimiter", embed_class BLimiter (fun y => match y with BLimiter x => Some x | _ => None end)
                       Limiter.new_limiter Limiter.FlowLimiterNode);
     ("AdaptiveBatch", embed_class BBatch (fun y => match y with BBatch x => Some x | _ => None end)
                         Batch.new_batch Batch.AdaptiveBatchNode);
     ("StreamDemux", no_state Demux.StreamDemuxNode);
     ("EncodedPacketRingBuffer", embed_class BRing (fun y => match y with BRing x => Some x | _ => None end)
                                   Ring.new_ring Ring.EncodedPacketRingBufferNode)].

(** The types and their contracts are those that are registered. *)
Example builtin_classes_registered :
  NodeRegistry.Types (registry_ builtin_classes) = NodeRegistry.Types (RegisterBuiltinNodes NodeRegistry.empty_registry) /\
  Forall (fun type => (fun ci => Contract ci.1) <$> builtin_classes !! type =
                      (fun t => Contract (nt_class t)) <$>
                        NodeRegistry.factories_ (RegisterBuiltinNodes NodeRegistry.empty_registry) !! type)
    ["AdaptiveBatch"; "EncodedPacketRingBuffer"; "FlowLimiter"; "NullSink"; "Passthrough"; "StreamDemux"].
Proof. split; [vm_compute; reflexivity|]. repeat (apply Forall_cons_2; [reflexivity|]). apply Forall_nil_2. Qed.

(** ** Packets with a string *)

(** The string is kept as its code. *)
Definition PlString (t : string) : Payload := PlOther "std::string" (Zpos (encode t)).

(** [Is<std::string>] and [Get<std::string>]. *)
(* [include/rkavp/packet.hpp:59-70] Packet::Is, Packet::Get *)
Definition packet_string (p : Packet) : option string :=
  match data p with
  | PlOther type (Zpos c) => if bool_decide (type = "std::string") then decode c else None
  | _ => None
  end.

Lemma packet_string_make t ts : packet_string (Make (PlString t) ts) = Some t.
Proof. unfold packet_string. cbn [data Make PlString]. rewrite bool_decide_eq_true_2 by done. apply decode_encode. Qed.

(** ** The program *)

(** The exit code and what is printed. *)
Record Outcome := mkOutcome { exit_code : Z; out : string; err : string }.

(* [examples/hello_graph/main.cpp:13-16] Fail *)
Definition Fail (status : Status) : Outcome := mkOutcome 1 "" ("error: " +:+ message status +:+ newline).

(* [examples/hello_graph/main.cpp:21-21] main (graph path) *)
Definition graph_path (argv : list string) : string :=
  match argv with _ :: path :: _ => path | _ => "graphs/hello_graph.yaml" end.

(* [examples/hello_graph/main.cpp:50-51] main (packet) *)
Definition greeting : Packet := Make (PlString "hello RK-AVP") (FromMicroseconds 0).

(* [examples/hello_graph/main.cpp:38-45] main (callback) *)
Definition on_output (result : string) (p : Packet) : string :=
  match packet_string p with None => result | Some t => t end.

(** How the waits with a timeout end: whether their time passes, and how often the graph is polled. *)
Record Timing := mkTiming { done_expired : bool; done_polls : nat; output_expired : bool }.

Section app.
Context {YC : YamlCpp} {HO : Host}.
Abbreviation St := (State BuiltinState).

(** The variable [result], which the callback of the observer [k] assigns. *)
Definition result_of (k : nat) (s : St) : string :=
  match observer_objects s !! k with
  | Some o => fold_left on_output (received o) ""
  | None => ""
  end.

Definition wait_output (expired : bool) (k : nat) : prog St bool :=
  blocking (fun s => if negb (bool_decide (result_of k s = "")) then Some (true, s)
                     else if expired then Some (false, s) else None).

(* [examples/hello_graph/main.cpp:37-67] main (session) *)
Definition run_session (t : Timing) (config : GraphConfig) : prog St Outcome :=
  handle <-- ObserveOutputDefault config "output" true;
  match handle with
  | Err status => Ret (Fail status)
  | Okay k =>
      status <-- Runner.Start config builtin_classes;
      if negb (ok status) then Ret (Fail status) else
      status <-- AddPacket "input" greeting;
      status <-- (if ok status then CloseInputStream "input" else Ret status);
      status <-- (if ok status then WaitUntilDone (done_expired t) (done_polls t) else Ret status);
      if negb (ok status) then Runner.Stop;;; Ret (Fail status) else
      observed <-- wait_output (output_expired t) k;
      Runner.Stop;;;
      if negb observed then Ret (Fail (Unavailable "graph produced no output"))
      else result <-- read (result_of k); Ret (mkOutcome 0 (result +:+ newline) "")
  end.

(** The runner is destroyed when [main] returns; a loader that does not return blocks it. *)
(* [examples/hello_graph/main.cpp:20-68] main *)
Definition main (t : Timing) (argv : list string) : prog St Outcome :=
  match LoadFile (graph_path argv) with
  | None => blocking (fun _ => None)
  | Some (Err status) => Ret (Fail status)
  | Some (Okay config) =>
      let status := Validate config (registry_ builtin_classes) in
      if negb (ok status) then Ret (Fail status)
      else outcome <-- run_session t config; Runner.Destroy;;; Ret outcome
  end.
End app.

(** ** Pools with a place for a result *)

Section left.
Context {S C : Type}.

(** A program over the first part of the state. *)
Definition set_left (s : S) (sc : S * C) : S * C := (s, sc.2).
Definition on_left {A} (m : prog S A) : prog (S * C) A := zoom fst set_left m.

Definition left_env (R : S -> S -> Prop) (x y : S * C) : Prop := R x.1 y.1 /\ y.2 = x.2.
Inductive left_spawn (R : S -> prog S unit -> S -> Prop) : S * C -> prog (S * C) unit -> S * C -> Prop :=
| left_spawns s m s' c : R s m s' -> left_spawn R (s, c) (on_left m) (s', c).

Context `{Countable Debt} (I : S -> gmultiset Debt -> Prop) (K : C -> Prop).
Definition both (sc : S * C) (M : gmultiset Debt) : Prop := I sc.1 M /\ K sc.2.

Lemma wp_left {A} O (m : prog S A) Q : Atomic.wp I O m Q -> Atomic.wp both O (on_left m) Q.
Proof.
  intros Hm. eapply wp_mono; [apply (wp_zoom fst set_left I both (fun M => M)); [|exact Hm]|].
  - intros [s c] O' F [HI HK]. exists F. split; [done|]. intros s' O'' HI'. by split.
  - intros a O' (O0 & -> & HQ). done.
Qed.

(** The last action of a program writes its result. *)
Lemma wp_record {A} O (m : prog S A) (w : A -> C) :
  Atomic.wp I O m (fun a O' => O' = ∅ /\ K (w a)) ->
  Atomic.wp both O (bind (on_left m) (fun a => update (fun sc => (sc.1, w a)))) (fun _ O' => O' = ∅).
Proof.
  intros Hm. apply wp_bind. eapply wp_mono; [by apply wp_left|]. intros a O' [-> Ha].
  intros [s c] F b sc [HI HK] [= <- <-]. exists ∅. by split.
Qed.
End left.

(** ** Which outcomes there are *)

(** The threads beside [main]: the workers of the executors and the worker of the observer. *)
Inductive hello_spawn : State BuiltinState -> prog (State BuiltinState) unit -> State BuiltinState -> Prop :=
| hello_task s name e st rest thread :
    executors_ s !! name = Some e -> ex_tasks e = st :: rest -> ex_active e < workers e ->
    hello_spawn s (drain_task thread st;;; update (finish_task name))
      (set_executors (<[name := mkExec (workers e) (ex_running e) rest (S (ex_active e))]> (executors_ s)) s)
| hello_observer s fuel k : hello_spawn s (RunObserver fuel (fun _ => false) k) s.

Definition hello_step := pstep (S := State BuiltinState * option Outcome)
  (left_spawn hello_spawn) (left_env typed_environment).

Definition process {YC : YamlCpp} {HO : Host} (t : Timing) (argv : list string)
  : prog (State BuiltinState * option Outcome) unit :=
  outcome <-- on_left (main t argv); update (fun sc => (sc.1, Some outcome)).

(** The file [graphs/hello_graph.yaml] as yaml-cpp reads it, and the graph it is. *)
Definition hello_yaml : Yaml :=
  YMap [entry "version" (YScalar "1");
    entry "graph" (YMap
    [entry "name" (YScalar "hello-graph");
     entry "inputs" (YMap [entry "input" (YScalar "echo.in")]);
     entry "outputs" (YMap [entry "output" (YScalar "echo.out")]);
     entry "nodes" (YSeq [YMap [entry "id" (YScalar "echo"); entry "type" (YScalar "Passthrough")]])])].

Definition hello_host : Host := Build_Host
  (fun _ => None) (fun _ => None) (fun a b => b) (fun p => "") (fun p => p) (fun p => p) ""
  (fun _ => inr hello_yaml) (fun p => "bad file: " +:+ p) {[ "graphs/hello_graph.yaml" := inr hello_yaml ]}.

(* [graphs/hello_graph.yaml:1-10] graph *)
Definition hello_config : GraphConfig :=
  mkGraphConfig 1 "hello-graph" [default_executor]
    [mkNodeConfig "echo" "Passthrough" "default" (∅ : NodeOptions) false kAny ""] []
    [mkGraphPort "input" "echo" "in" (mkQueueConfig 8 kBlock)]
    [mkGraphPort "output" "echo" "out" (mkQueueConfig 64 kDropOldest)] [] ∅ default_flow_control.

Example hello_loads : @LoadFile demo_yaml hello_host "graphs/hello_graph.yaml" = Some (Okay hello_config).
Proof. vm_compute. reflexivity. Qed.

Lemma hello_valid : Validate hello_config (registry_ builtin_classes) = Ok.
Proof. vm_compute. reflexivity. Qed.

(** Only the greeting moves through this graph. *)
Definition greets (p : Packet) : Prop := data p = PlString "hello RK-AVP".
Definition hello_types : Discipline BuiltinState :=
  mkDiscipline (fun _ _ => greets) (fun _ => greets) (fun _ => greets) (fun _ _ => True).

Lemma echo_typed id : typed_class hello_types id (no_state PassthroughNode).1.
Proof.
  split; simpl; try done. intros c Hc Hin. apply typed_embed. unfold Input.
  destruct (context_inputs c !! "in") as [p|] eqn:Hp; [|done]. apply Hin in Hp.
  unfold Node.Emit. destruct (has_emit c); [|done]. split; [|done]. unfold out_ok. rewrite control_inherit.
  destruct Hp as [Hp|Hp]; [by left|right]. cbn [d_out hello_types] in *. unfold greets.
  by rewrite (proj1 (inherit_all_fields _ _)).
Qed.

Lemma hello_graph_typed : typed_graph hello_config builtin_classes hello_types.
Proof.
  split; simpl.
  - intros e p He. by apply not_elem_of_nil in He.
  - intros e He. by apply not_elem_of_nil in He.
  - intros o p Ho%list_elem_of_singleton. subst. intros [?|Hp]; [by left|by right].
  - intros c ci Hc%list_elem_of_singleton Hci. subst. split; [|done].
    assert (Some ci = Some (no_state PassthroughNode)) as [= ->]; [|apply echo_typed].
    rewrite <- Hci. reflexivity.
Qed.

(** What [result] can be. *)
Lemma result_string (l : list Packet) r : fold_left on_output l r <> r ->
  exists p, p ∈ l /\ is_Some (packet_string p).
Proof.
  revert r. induction l as [|p l IH]; intros r; [done|]. simpl. intros Hr.
  destruct (packet_string p) as [t|] eqn:E; [exists p; split; [set_solver|by rewrite E]|].
  unfold on_output at 2 in Hr. rewrite E in Hr. destruct (IH r Hr) as (q & Hq & Hs). exists q. split; [set_solver|done].
Qed.

Lemma string_not_control p : is_Some (packet_string p) -> control p = false.
Proof. unfold packet_string, control. intros [t Ht]. destruct (data p); try done. by rewrite andb_false_r. Qed.

Lemma greets_string p : greets p -> packet_string p = Some "hello RK-AVP".
Proof. intros E. unfold greets in E. unfold packet_string. rewrite E. reflexivity. Qed.

Lemma control_no_string p : control p = true -> packet_string p = None.
Proof.
  intros Hc. destruct (packet_string p) as [t|] eqn:E; [|done]. exfalso.
  assert (control p = false); [apply string_not_control; by rewrite E|congruence].
Qed.

Lemma result_greeting (l : list Packet) r : Forall (fun p => control p = true \/ greets p) l ->
  r = "hello RK-AVP" \/ (exists p, p ∈ l /\ control p = false) -> fold_left on_output l r = "hello RK-AVP".
Proof.
  revert r. induction l as [|p l IH]; intros r Hl; [intros [?|(p & Hp & _)]; [done|by apply not_elem_of_nil in Hp]|].
  apply Forall_cons_1 in Hl as [[Hp|Hp] Hl]; intros Hr; simpl; apply IH; [done| |done|].
  - unfold on_output. rewrite (control_no_string p Hp). destruct Hr as [?|(q & Hq & Ec)]; [by left|right].
    apply elem_of_cons in Hq as [->|Hq]; [congruence|eauto].
  - left. unfold on_output. by rewrite (greets_string p Hp).
Qed.

Abbreviation hello_TI := (TI hello_config hello_types).

(** The outcome of the program. *)
Definition greeted_or_failed (r : Outcome) : Prop :=
  r = mkOutcome 0 ("hello RK-AVP" +:+ newline) "" \/ exists status, ok status = false /\ r = Fail status.

(** The wait for the output is over in time only when the observer has been called. *)
Lemma wp_wait_output expired k :
  Atomic.wp hello_TI {[+ Watching k "output" +]} (wait_output expired k)
    (fun b O => O = if (b : bool) then {[+ Heard k +]} ⊎ {[+ Watching k "output" +]} else {[+ Watching k "output" +]}).
Proof.
  intros s F b s' HI Hs. case_bool_decide as E; cbn [negb] in Hs.
  - destruct expired; [|done]. injection Hs as <- <-. by exists {[+ Watching k "output" +]}.
  - injection Hs as <- <-. exists ({[+ Heard k +]} ⊎ {[+ Watching k "output" +]}). split; [|done].
    unfold result_of in E. destruct (observer_objects s !! k) as [o|] eqn:Ho; [|done].
    destruct (result_string _ _ E) as (p & Hp & Hstr). rewrite <- (assoc_L (⊎)).
    eapply TI_hear; [exact HI|exact Ho|exact Hp|by apply string_not_control].
Qed.

(** Then what is printed is the greeting. *)
Lemma wp_print k :
  Atomic.wp hello_TI ({[+ Heard k +]} ⊎ {[+ Watching k "output" +]})
    (result <-- read (result_of k); Ret (mkOutcome 0 (result +:+ newline) "")) (fun r _ => greeted_or_failed r).
Proof.
  apply wp_read. intros s F HI. exists ∅. split; [eapply TI_weaken; [|exact HI]; multiset_solver|].
  left. do 2 f_equal. unfold result_of.
  destruct (to_heard _ _ _ _ _ (ti_observers _ _ _ _ HI) k) as (o & p & Ho & Hp & Ec); [multiset_solver|].
  rewrite Ho. apply result_greeting; [|right; eauto].
  by destruct (to_typed _ _ _ _ _ (ti_observers _ _ _ _ HI) _ _ Ho).
Qed.

Lemma wp_run_session t :
  Atomic.wp hello_TI {[+ Cold +]} (run_session t hello_config) (fun r _ => greeted_or_failed r).
Proof.
  unfold run_session, ObserveOutputDefault. rewrite <- (left_id_L ∅ (⊎) {[+ Cold +]}).
  eapply wp_seq; [apply (wp_ObserveOutput _ _ _ hello_graph_typed true)|]. intros [k|status] O HO; [subst|right; by exists status; destruct HO].
  rewrite (comm_L (⊎)). eapply wp_seq; [apply wp_Start, hello_graph_typed|]. intros started O ->.
  rewrite (left_id_L ∅ (⊎)). destruct (ok started) eqn:E; cbn [negb]; [|right; by exists started].
  apply neutral_seq; [apply typed_AddPacket|intros added].
  { intros c Hc%list_elem_of_singleton _. subst. by right. }
  apply neutral_seq; [destruct (ok added); [apply typed_CloseInputStream|done]|intros closed].
  apply neutral_seq; [destruct (ok closed); [apply typed_WaitUntilDone|done]|intros waited].
  destruct (ok waited) eqn:Ew; cbn [negb].
  - apply wp_bind. eapply wp_mono; [apply wp_wait_output|]. intros observed O ->.
    apply neutral_seq; [apply (typed_Stop _ _ _ hello_graph_typed)|intros _].
    destruct observed; cbn [negb]; [apply wp_print|]. right. by exists (Unavailable "graph produced no output").
  - apply neutral_seq; [apply (typed_Stop _ _ _ hello_graph_typed)|intros _]. right. by exists waited.
Qed.

Lemma wp_main {YC : YamlCpp} {HO : Host} t argv : LoadFile (graph_path argv) = Some (Okay hello_config) ->
  Atomic.wp hello_TI {[+ Cold +]} (main t argv) (fun r O => O = ∅ /\ greeted_or_failed r).
Proof.
  intros Hl. unfold main. rewrite Hl. cbv zeta. rewrite hello_valid. cbn [ok Ok negb].
  apply wp_bind. eapply wp_mono; [apply wp_run_session|]. intros r O Hr. apply (wp_forget _ _ _ hello_graph_typed).
  change (Atomic.wp hello_TI ∅ (Runner.Destroy;;; Ret r) (fun r O => O = ∅ /\ greeted_or_failed r)).
  apply wp_bind. eapply wp_mono; [apply (typed_Destroy _ _ _ hello_graph_typed)|]. by intros _ O' ->.
Qed.

Lemma hello_spawn_typed load s m s' : hello_spawn s m s' ->
  typed_spawn hello_config builtin_classes hello_types load s m s'.
Proof. destruct 1; [by eapply typed_spawn_task|apply typed_spawn_client, typed_client_observer]. Qed.

(** C29: The example application, run with its graph: however its thread, the workers of the
    executors and the worker of its observer interleave, and however its waits end, when [main]
    has returned it has printed the greeting that it sent through the graph and exited with 0, or
    it has printed one error and exited with 1.  It never prints an empty or another line. *)
Theorem hello_outcome {YC : YamlCpp} {HO : Host} t argv now s r ts :
  LoadFile (graph_path argv) = Some (Okay hello_config) ->
  rtc hello_step ((NewGraphRunner now, None), [process t argv]) ((s, Some r), ts) ->
  greeted_or_failed r.
Proof.
  intros Hl Hr. set (K := fun o : option Outcome => match o with None => True | Some r => greeted_or_failed r end).
  assert (pool_inv (both hello_TI K) ((s, Some r), ts)) as (ots & _ & _ & _ & HK); [|exact HK].
  eapply pool_inv_reachable; [..|exact Hr].
  - intros x m x' M [HI Hc] Hm. destruct Hm as [s0 m s1 c Hm].
    destruct (typed_spawn_inv _ _ _ hello_graph_typed no_templates _ _ _ _ HI (hello_spawn_typed no_templates _ _ _ Hm)) as (O & HI' & Hw).
    exists O. split; [by split|]. by apply wp_left.
  - intros [s0 c] [s1 c'] M [HI Hc] [He Ec]. simpl in *. subst. split; [|done]. by eapply typed_environment_inv.
  - exists [({[+ Cold +]}, process t argv)]. split_and!; [done| |].
    + apply Forall_singleton. cbn [fst snd]. apply wp_record. by apply wp_main.
    + simpl. rewrite (right_id_L ∅ (⊎)). split; [apply typed_new|done].
Qed.

(** ** A schedule *)

Abbreviation Pool := ((State BuiltinState * option Outcome) * list (prog (State BuiltinState * option Outcome) unit))%type.

(** A worker takes the next task of an executor; the observer's worker starts. *)
Definition begin_task (name : string) (c : Pool) : Pool :=
  match executors_ c.1.1 !! name with
  | Some e =>
      match ex_tasks e with
      | st :: rest =>
          if decide (ex_active e < workers e) then
            ((set_executors (<[name := mkExec (workers e) (ex_running e) rest (S (ex_active e))]> (executors_ c.1.1)) c.1.1, c.1.2),
             c.2 ++ [on_left (drain_task 0 st;;; update (finish_task name))])
          else c
      | [] => c
      end
  | None => c
  end.
Definition begin_observer (fuel k : nat) (c : Pool) : Pool :=
  (c.1, c.2 ++ [on_left (RunObserver fuel (fun _ => false) k)]).

Lemma begin_task_steps name c : rtc hello_step c (begin_task name c).
Proof.
  destruct c as [[s o] ts]. unfold begin_task. cbn [fst snd]. destruct (executors_ s !! name) as [e|] eqn:He; [|done].
  destruct (ex_tasks e) as [|st rest] eqn:Ht; [done|]. case_decide; [|done].
  apply rtc_once. apply pstep_spawn, left_spawns. by eapply hello_task.
Qed.
Lemma begin_observer_steps fuel k c : rtc hello_step c (begin_observer fuel k c).
Proof. destruct c as [[s o] ts]. apply rtc_once. apply pstep_spawn, left_spawns. apply hello_observer. Qed.

Definition hello_start : Pool :=
  ((NewGraphRunner 0, None), [@process demo_yaml hello_host (mkTiming false 0 false) ["hello_graph"]]).
(** [main] sends the greeting and closes the input; the workers handle both packets; the observer
    is called; [main] goes on to its end. *)
Definition hello_sent : Pool := advance 0 34 hello_start.
Definition hello_worked : Pool :=
  advance 2 1000 (begin_task "default" (advance 1 1000 (begin_task "default" hello_sent))).
Definition hello_end : Pool := advance 0 1000 (advance 3 1000 (begin_observer 2 1 hello_worked)).

Lemma hello_end_reachable : rtc hello_step hello_start hello_end.
Proof.
  transitivity hello_sent; [apply advance_steps|]. transitivity hello_worked.
  - etrans; [apply (begin_task_steps "default")|]. etrans; [apply (advance_steps _ _ 1 1000)|].
    etrans; [apply (begin_task_steps "default")|]. apply (advance_steps _ _ 2 1000).
  - etrans; [apply (begin_observer_steps 2 1)|]. etrans; [apply (advance_steps _ _ 3 1000)|]. apply (advance_steps _ _ 0 1000).
Qed.

Lemma hello_outcome_witness : exists s ts r,
  rtc hello_step hello_start ((s, Some r), ts) /\ exit_code r = 0%Z /\ out r = "hello RK-AVP" +:+ newline /\
  greeted_or_failed r.
Proof.
  pose proof hello_end_reachable as Hr.
  assert (hello_end.1.2 = Some (mkOutcome 0 ("hello RK-AVP" +:+ newline) "")) as E by (vm_compute; reflexivity).
  destruct hello_end as [[s o] ts]. cbn [fst snd] in E. subst o. exists s, ts. eexists. split; [exact Hr|].
  split; [reflexivity|]. split; [reflexivity|].
  exact (@hello_outcome demo_yaml hello_host (mkTiming false 0 false) ["hello_graph"] 0%Z _ _ _ hello_loads Hr).
Defined.
