(* ===== verification/PythonValues.v ===== *)
(** * Values across the Python boundary

    [python/bindings.cpp]: the conversion of Python objects to option values and back, and the
    dictionaries that describe packets and the health of sources.

    pybind11 and the interpreter are not part of the repository.  [PyObject] are the kinds of
    objects that the conversions distinguish; [Pybind11] is what the conversions use of the
    library, and [Pybind11Laws] what its documentation says: a Python integer is cast to a 64-bit
    one or the cast throws, a [str] becomes its UTF-8 encoding and a text that is valid UTF-8
    becomes a [str].  [None] is an exception. *)

From S2P Require Import Prelude Text Status Timestamp Values Sources.
From Stdlib Require Import SpecFloat.
Local Open Scope Z_scope.

(** A dictionary is the list of its items in insertion order; [PyOther] is any other object. *)
Inductive PyObject :=
| PyNone
| PyBool (b : bool)
| PyInt (z : Z)
| PyFloat (d : spec_float)
| PyStr (s : string)
| PyBytes (s : string)
| PyList (l : list PyObject)
| PyTuple (l : list PyObject)
| PyDict (l : list (PyObject * PyObject))
| PyOther (type_name : string).

(** [py::isinstance]; [bool] is a subclass of [int]. *)
Definition is_none (o : PyObject) : bool := match o with PyNone => true | _ => false end.
Definition isinstance_bool (o : PyObject) : bool := match o with PyBool _ => true | _ => false end.
Definition isinstance_int (o : PyObject) : bool := match o with PyBool _ | PyInt _ => true | _ => false end.
Definition isinstance_float (o : PyObject) : bool := match o with PyFloat _ => true | _ => false end.
Definition isinstance_str (o : PyObject) : bool := match o with PyStr _ => true | _ => false end.
Definition isinstance_dict (o : PyObject) : bool := match o with PyDict _ => true | _ => false end.
Definition isinstance_list (o : PyObject) : bool := match o with PyList _ => true | _ => false end.
Definition isinstance_tuple (o : PyObject) : bool := match o with PyTuple _ => true | _ => false end.

Class Pybind11 := {
  (** [value.cast<T>()]. *)
  cast_bool : PyObject -> option bool;
  cast_int64 : PyObject -> option Z;
  cast_double : PyObject -> option spec_float;
  cast_string : PyObject -> option string;
  (** [py::str(text)]. *)
  make_str : string -> option PyObject;
  valid_text : string -> Prop }.

Class Pybind11Laws `{Pybind11} : Prop := {
  cast_bool_bool b : cast_bool (PyBool b) = Some b;
  cast_int64_int z : cast_int64 (PyInt z) = if bool_decide (int64_min <= z <= int64_max) then Some z else None;
  cast_double_float d : cast_double (PyFloat d) = Some d;
  cast_string_str s : cast_string (PyStr s) = Some s;
  make_str_valid s : valid_text s -> make_str s = Some (PyStr s) }.

Section conversions.
Context `{PB : Pybind11}.

(** The values of a sequence, up to the first exception. *)
Fixpoint sequence {A} (l : list (option A)) : option (list A) :=
  match l with
  | [] => Some []
  | x :: l => a ← x; t ← sequence l; Some (a :: t)
  end.

(** [object.emplace]: a key that is there stays. *)
Definition emplace (key : string) (v : ConfigValue) (o : gmap string ConfigValue) : gmap string ConfigValue :=
  match o !! key with Some _ => o | None => <[key := v]> o end.

(** Items in order: the key is cast, the value converted, the pair put in. *)
Fixpoint emplace_items (l : list (PyObject * option ConfigValue)) (o : gmap string ConfigValue)
  : option (gmap string ConfigValue) :=
  match l with
  | [] => Some o
  | (k, v) :: l => key ← cast_string k; value ← v; emplace_items l (emplace key value o)
  end.

(** The tests are made in this order; [o] is taken apart first because the recursion is
    structural. *)
(* [python/bindings.cpp:25-44] ConfigFromPython *)
Fixpoint ConfigFromPython (o : PyObject) : option ConfigValue :=
  let items := match o with
               | PyDict l => map (fun kv => (kv.1, ConfigFromPython kv.2)) l
               | _ => []
               end in
  let elements := match o with
                  | PyList l | PyTuple l => map ConfigFromPython l
                  | _ => []
                  end in
  if is_none o then Some CNull
  else if isinstance_bool o then CBool <$> cast_bool o
  else if isinstance_int o then CInt <$> cast_int64 o
  else if isinstance_float o then CDouble <$> cast_double o
  else if isinstance_str o then CString <$> cast_string o
  else if isinstance_dict o then CObject <$> emplace_items items ∅
  else if isinstance_list o || isinstance_tuple o then CArray <$> sequence elements
  else None.

(** An item of a dictionary under construction; the keys of an object are different, so an
    assignment adds an item. *)
Definition dict_item (k : string) (v : option PyObject) : option (PyObject * PyObject) :=
  key ← make_str k; value ← v; Some (key, value).

(** The items of an [unordered_map] come in some order, here that of the map. *)
(* [python/bindings.cpp:46-60] ConfigToPython *)
Fixpoint ConfigToPython (v : ConfigValue) : option PyObject :=
  match v with
  | CNull => Some PyNone
  | CBool b => Some (PyBool b)
  | CInt z => Some (PyInt z)
  | CDouble d => Some (PyFloat d)
  | CString s => make_str s
  | CArray a => PyList <$> sequence (map ConfigToPython a)
  | CObject o => PyDict <$> sequence (map_fold (fun k x l => dict_item k (ConfigToPython x) :: l) [] o)
  end.

(** ** Packets and health *)

Definition event_number (e : ControlEvent) : Z :=
  match e with
  | kNone => 0 | kEndOfStream => 1 | kTimestampBound => 2 | kFlush => 3 | kPause => 4 | kResume => 5
  | kReconfigure => 6 | kForceKeyFrame => 7
  end.

Definition timestamp_object (t : Timestamp) : PyObject :=
  if is_range_value t then PyInt (microseconds t) else PyNone.

(* [python/bindings.cpp:62-72] PacketToPython *)
Definition PacketToPython (p : Packet) : option PyObject :=
  value ← match data p with PlConfig v => ConfigToPython v | _ => Some PyNone end;
  Some (PyDict [(PyStr "timestamp_us", timestamp_object (timestamp p));
                (PyStr "event", PyInt (event_number (event p)));
                (PyStr "value", value)]).

(* [python/bindings.cpp:74-85] HealthStateName *)
Definition HealthStateName (s : StreamHealthState) : string :=
  match s with
  | kConnecting => "connecting"
  | kStreaming => "streaming"
  | kStalled => "stalled"
  | kReconnecting => "reconnecting"
  | kEos => "eos"
  | kFailed => "failed"
  | kStopped => "stopped"
  end.

(* [python/bindings.cpp:87-95] HealthToPython *)
Definition HealthToPython (h : StreamHealth) : option PyObject :=
  text ← make_str (h_message h);
  Some (PyDict [(PyStr "state", PyStr (HealthStateName (h_state h)));
                (PyStr "last_packet_time_us", PyInt (last_packet_time_us h));
                (PyStr "reconnect_count", PyInt (reconnect_count h));
                (PyStr "dropped_packets", PyInt (dropped_packets h));
                (PyStr "message", text)]).
End conversions.

(** ** Induction on option values *)

Fixpoint value_size (v : ConfigValue) : nat :=
  match v with
  | CArray a => S (sum_list (map value_size a))
  | CObject o => S (map_fold (fun _ x n => (value_size x + n)%nat) 0%nat o)
  | _ => 1
  end.

Lemma array_size x a : x ∈ a -> (value_size x < value_size (CArray a))%nat.
Proof.
  intros Hx. cbn. induction a as [|y a IH]; [by apply elem_of_nil in Hx|]. cbn.
  apply elem_of_cons in Hx as [->|Hx]; [lia|]. specialize (IH Hx). cbn in IH. lia.
Qed.

Lemma object_size k x o : o !! k = Some x -> (value_size x < value_size (CObject o))%nat.
Proof.
  intros Hx. cbn. rewrite <- (insert_delete_id o k x Hx), map_fold_insert_L;
    [lia|intros; lia|by rewrite lookup_delete_eq].
Qed.

Lemma ConfigValue_induction (P : ConfigValue -> Prop) :
  P CNull -> (forall b, P (CBool b)) -> (forall z, P (CInt z)) -> (forall d, P (CDouble d)) ->
  (forall s, P (CString s)) -> (forall a, Forall P a -> P (CArray a)) ->
  (forall o, map_Forall (fun _ => P) o -> P (CObject o)) -> forall v, P v.
Proof.
  intros Hn Hb Hz Hd Hs Ha Ho v. remember (value_size v) as n eqn:Hv. revert v Hv.
  induction (lt_wf n) as [n _ IH]. intros v ->. destruct v as [|b|z|d|s|a|o]; auto.
  - apply Ha, Forall_forall. intros x Hx. eapply IH; [|done]. by apply array_size.
  - apply Ho. intros k x Hx. eapply IH; [|done]. by eapply object_size.
Qed.

(** ** Round trips *)

Section round_trip.
Context `{PB : Pybind11} {PL : Pybind11Laws}.

(** The values that the framework itself makes: integers of 64 bits, texts in UTF-8. *)
Fixpoint convertible (v : ConfigValue) : Prop :=
  match v with
  | CInt z => is_i64 z
  | CString s => valid_text s
  | CArray a => foldr (fun x P => convertible x /\ P) True a
  | CObject o => map_fold (fun k x P => valid_text k /\ convertible x /\ P) True o
  | _ => True
  end.

Lemma convertible_array a : convertible (CArray a) <-> Forall convertible a.
Proof. cbn. induction a as [|x a IH]; cbn; [done|]. by rewrite Forall_cons, IH. Qed.

Lemma convertible_object o :
  convertible (CObject o) <-> Forall (fun kx => valid_text kx.1 /\ convertible kx.2) (map_to_list o).
Proof.
  cbn. rewrite map_fold_foldr. induction (map_to_list o) as [|[k x] l IH]; cbn; [done|]. rewrite Forall_cons, IH. cbn. tauto.
Qed.

Lemma dict_items o :
  map_fold (fun k x l => dict_item k (ConfigToPython x) :: l) [] o =
  map (fun kx => dict_item kx.1 (ConfigToPython kx.2)) (map_to_list o).
Proof. rewrite map_fold_foldr. induction (map_to_list o) as [|[k x] l IH]; cbn; [done|]. by rewrite IH. Qed.

Lemma emplace_all kvs acc : NoDup kvs.*1 -> (forall k, k ∈ kvs.*1 -> acc !! k = None) ->
  emplace_items (map (fun kv => (PyStr kv.1, Some kv.2)) kvs) acc = Some (list_to_map kvs ∪ acc).
Proof.
  revert acc. induction kvs as [|[k v] kvs IH]; intros acc Hnd Hacc; cbn; [by rewrite (left_id_L ∅ (∪))|].
  rewrite fmap_cons in Hnd. apply NoDup_cons in Hnd as [Hk Hnd]. cbn in Hk.
  rewrite cast_string_str. cbn. unfold emplace. rewrite (Hacc k) by (rewrite fmap_cons; cbn; apply list_elem_of_here).
  rewrite IH; [|done|].
  - f_equal. rewrite <- insert_union_r; [by rewrite insert_union_l|].
    by apply not_elem_of_list_to_map_1.
  - intros k' Hk'. rewrite lookup_insert_ne by (intros ->; done). apply Hacc. rewrite fmap_cons. by apply list_elem_of_further.
Qed.

(** A value that converts to an object which converts back to it. *)
Definition survives (v : ConfigValue) : Prop :=
  convertible v -> exists o, ConfigToPython v = Some o /\ ConfigFromPython o = Some v.

Lemma survives_array a : Forall survives a -> Forall convertible a ->
  exists l, sequence (map ConfigToPython a) = Some l /\ sequence (map ConfigFromPython l) = Some a.
Proof.
  induction 1 as [|x a Hx _ IH]; intros Hc; [by exists []|]. apply Forall_cons in Hc as [Hcx Hc].
  destruct (Hx Hcx) as (o & Ho & Hb), (IH Hc) as (l & Hl & Hr). exists (o :: l). cbn. by rewrite Ho, Hl, Hb, Hr.
Qed.

Lemma survives_items kxs : Forall (fun kx => survives kx.2) kxs ->
  Forall (fun kx => valid_text kx.1 /\ convertible kx.2) kxs ->
  exists l, sequence (map (fun kx => dict_item kx.1 (ConfigToPython kx.2)) kxs) = Some l /\
    map (fun kv => (kv.1, ConfigFromPython kv.2)) l = map (fun kv => (PyStr kv.1, Some kv.2)) kxs.
Proof.
  induction 1 as [|[k x] kxs Hx _ IH]; intros Hc; [by exists []|]. apply Forall_cons in Hc as [[Hk Hcx] Hc].
  destruct (Hx Hcx) as (o & Ho & Hb), (IH Hc) as (l & Hl & Hr). cbn in *. exists ((PyStr k, o) :: l).
  assert (dict_item k (ConfigToPython x) = Some (PyStr k, o)) as Hi by (unfold dict_item; by rewrite make_str_valid, Ho).
  cbn. by rewrite Hi, Hl, Hb, Hr.
Qed.

(** C28: Values survive the way to Python and back: every option value whose integers have
    64 bits and whose texts are UTF-8, however nested, becomes a Python object without an
    exception, and that object is converted back to exactly the same value; in particular
    a boolean stays one although it is an integer to Python. *)
Theorem python_value_roundtrip v :
  convertible v -> exists o, ConfigToPython v = Some o /\ ConfigFromPython o = Some v.
Proof.
  induction v as [|b|z|d|s|a Ha|o Ho] using ConfigValue_induction; intros Hc.
  - by exists PyNone.
  - exists (PyBool b). cbn. by rewrite cast_bool_bool.
  - exists (PyInt z). cbn. rewrite cast_int64_int, bool_decide_eq_true_2; done.
  - exists (PyFloat d). cbn. by rewrite cast_double_float.
  - exists (PyStr s). cbn. by rewrite make_str_valid, cast_string_str.
  - apply convertible_array in Hc. destruct (survives_array a Ha Hc) as (l & Hl & Hr).
    exists (PyList l). cbn. by rewrite Hl, Hr.
  - apply convertible_object in Hc.
    assert (Forall (fun kx => survives kx.2) (map_to_list o)) as Hs.
    { apply Forall_forall. intros [k x] Hx%elem_of_map_to_list. exact (Ho k x Hx). }
    destruct (survives_items _ Hs Hc) as (l & Hl & Hr).
    exists (PyDict l). cbn [ConfigToPython]. rewrite dict_items, Hl. split; [done|]. cbn. rewrite Hr, emplace_all.
    + cbn. by rewrite list_to_map_to_list, (right_id_L ∅ (∪)).
    + apply NoDup_fst_map_to_list.
    + intros k _. apply lookup_empty.
Qed.

(** What is refused: integers beyond 64 bits, and objects of any other type at any depth. *)
Lemma python_refused z name :
  ~ is_i64 z -> ConfigFromPython (PyInt z) = None /\ ConfigFromPython (PyList [PyNone; PyOther name]) = None.
Proof. intros Hz. split; [|done]. cbn. by rewrite cast_int64_int, bool_decide_eq_false_2. Qed.
End round_trip.

(** An interpreter that has only what the laws say. *)
#[export] Instance plain_python : Pybind11 := {|
  cast_bool o := match o with PyBool b => Some b | _ => None end;
  cast_int64 o := match o with
                  | PyInt z => if bool_decide (int64_min <= z <= int64_max) then Some z else None
                  | PyBool b => Some (if b then 1 else 0)
                  | _ => None
                  end;
  cast_double o := match o with PyFloat d => Some d | _ => None end;
  cast_string o := match o with PyStr s | PyBytes s => Some s | _ => None end;
  make_str s := Some (PyStr s);
  valid_text _ := True |}.
#[export] Instance plain_python_laws : Pybind11Laws.
Proof. by split. Qed.

Lemma python_value_roundtrip_witness :
  let v := CObject {["n" := CInt 5; "flags" := CArray [CBool true; CNull; CString "x"]]} in
  convertible v /\ exists o, ConfigToPython v = Some o /\ ConfigFromPython o = Some v.
Proof.
  intros v. assert (convertible v) as Hv by (vm_compute; repeat split; discriminate).
  split; [exact Hv|]. exact (python_value_roundtrip v Hv).
Defined.

(** A [bytes] key and a [str] key with the same text are one key, whose first value stays. *)
Example duplicate_keys :
  ConfigFromPython (PyDict [(PyBytes "a", PyInt 1); (PyStr "a", PyInt 2)]) = Some (CObject {["a" := CInt 1]}).
Proof. reflexivity. Qed.
