(* ===== verification/PythonObserver.v ===== *)
(** * Callbacks into Python

    [python/bindings.cpp], [PythonObserver]: packets for a Python callback go through a bounded
    queue to a thread of the observer, which takes the global interpreter lock (GIL) for every
    call.  The operations are the critical sections of the code; [PyStep] interleaves them
    with the threads that hold the GIL.  The callback is application code: it returns or throws.

    The model is over any type of item, and over an unbounded queue too, because the runner's
    thread for the error callback has the same structure and its callback takes the GIL as
    well ([src/core/graph_runner.cpp], [SetErrorCallback]).

    [python_observer_history] is the history of an observer, [python_shutdown_delivers] the end of
    a shutdown without the GIL; [join_with_gil_stuck] shows why the GIL must be released. *)

From S2P Require Import Prelude Status Timestamp Values.
Local Open Scope nat_scope.

(** [capacity_] is [None] for a queue without a bound. *)
(* [python/bindings.cpp:148-156] PythonObserver (fields) *)
Record PythonObserver (T : Type) := mkPythonObserver {
  capacity_ : option nat;
  errors_ : nat;
  dropped_ : nat;
  queue_ : list T;
  stopped_ : bool }.
Arguments mkPythonObserver {T} _ _ _ _ _.
Arguments capacity_ {T} _.
Arguments errors_ {T} _.
Arguments dropped_ {T} _.
Arguments queue_ {T} _.
Arguments stopped_ {T} _.

Section observer.
Context {T : Type}.
Implicit Types (o : PythonObserver T) (p : T).

(* [python/bindings.cpp:99-102] PythonObserver::PythonObserver *)
Definition new_python_observer (capacity : option nat) : PythonObserver T := mkPythonObserver capacity 0 0 [] false.

(* [python/bindings.cpp:106-115] PythonObserver::Enqueue *)
Definition Enqueue p o : PythonObserver T :=
  if stopped_ o then o
  else if bool_decide (capacity_ o = Some (length (queue_ o))) then
    mkPythonObserver (capacity_ o) (errors_ o) (S (dropped_ o)) (tail (queue_ o) ++ [p]) (stopped_ o)
  else mkPythonObserver (capacity_ o) (errors_ o) (dropped_ o) (queue_ o ++ [p]) (stopped_ o).

(** The critical section of [Shutdown]; the join follows. *)
(* [python/bindings.cpp:117-122] PythonObserver::Shutdown (stop) *)
Definition request_shutdown o : PythonObserver T :=
  mkPythonObserver (capacity_ o) (errors_ o) (dropped_ o) (queue_ o) true.

(** The next item, or the end of the thread; [None] is a wait. *)
(* [python/bindings.cpp:127-136] PythonObserver::Run (take) *)
Definition run_take o : option (option T * PythonObserver T) :=
  match queue_ o with
  | [] => if stopped_ o then Some (None, o) else None
  | p :: rest => Some (Some p, mkPythonObserver (capacity_ o) (errors_ o) (dropped_ o) rest (stopped_ o))
  end.

(** The callback returned, or threw an exception that is counted. *)
(* [python/bindings.cpp:138-144] PythonObserver::Run (callback) *)
Definition run_called (thrown : bool) o : PythonObserver T :=
  if thrown then mkPythonObserver (capacity_ o) (S (errors_ o)) (dropped_ o) (queue_ o) (stopped_ o) else o.

(** ** The threads *)

(** The observer's thread: at the top of its loop, with an item and waiting for the GIL, inside
    the callback, or at its end. *)
Inductive Position := PIdle | PWaits (p : T) | PCalls (p : T) | PDone.
(** The thread that shuts the observer down. *)
Inductive Owner := OActive | OJoining | OJoined.
Inductive Holder := HOwner | HWorker | HOther.

#[export] Instance Holder_eq_dec : EqDecision Holder.
Proof. solve_decision. Defined.

Record World := mkWorld {
  wo_observer : PythonObserver T;
  wo_position : Position;
  wo_owner : Owner;
  wo_gil : option Holder;
  wo_offered : list T;
  wo_received : list T }.

Definition new_world (capacity : option nat) : World :=
  mkWorld (new_python_observer capacity) PIdle OActive (Some HOwner) [] [].

(** The owner holds the GIL and lets go of it as it likes until it joins; other threads of
    the interpreter take and release it. *)
Inductive PyStep : World -> World -> Prop :=
| py_enqueue o w ow g off rec p :
    PyStep (mkWorld o w ow g off rec)
           (mkWorld (Enqueue p o) w ow g (if stopped_ o then off else off ++ [p]) rec)
| py_shutdown o w g off rec :
    PyStep (mkWorld o w OActive g off rec) (mkWorld (request_shutdown o) w OJoining g off rec)
| py_joined o g off rec :
    PyStep (mkWorld o PDone OJoining g off rec) (mkWorld o PDone OJoined g off rec)
| py_acquire o w off rec h : h <> HWorker ->
    PyStep (mkWorld o w OActive None off rec) (mkWorld o w OActive (Some h) off rec)
| py_release_owner o w off rec :
    PyStep (mkWorld o w OActive (Some HOwner) off rec) (mkWorld o w OActive None off rec)
| py_acquire_other o w ow off rec :
    PyStep (mkWorld o w ow None off rec) (mkWorld o w ow (Some HOther) off rec)
| py_release_other o w ow off rec :
    PyStep (mkWorld o w ow (Some HOther) off rec) (mkWorld o w ow None off rec)
| py_take o o' p ow g off rec : run_take o = Some (Some p, o') ->
    PyStep (mkWorld o PIdle ow g off rec) (mkWorld o' (PWaits p) ow g off rec)
| py_leave o o' ow g off rec : run_take o = Some (None, o') ->
    PyStep (mkWorld o PIdle ow g off rec) (mkWorld o' PDone ow g off rec)
| py_enter o p ow off rec :
    PyStep (mkWorld o (PWaits p) ow None off rec) (mkWorld o (PCalls p) ow (Some HWorker) off rec)
| py_called o p ow off rec thrown :
    PyStep (mkWorld o (PCalls p) ow (Some HWorker) off rec)
           (mkWorld (run_called thrown o) PIdle ow None off (rec ++ [p])).

Definition in_flight (w : Position) : list T := match w with PWaits p | PCalls p => [p] | _ => [] end.

Record py_inv (x : World) : Prop := mkPyInv {
  py_bounded : forall n, capacity_ (wo_observer x) = Some n -> length (queue_ (wo_observer x)) <= n /\ 0 < n;
  py_order : wo_received x ++ in_flight (wo_position x) ++ queue_ (wo_observer x) `sublist_of` wo_offered x;
  py_conserved : length (wo_offered x) = length (wo_received x) + length (in_flight (wo_position x)) +
                   length (queue_ (wo_observer x)) + dropped_ (wo_observer x);
  py_errors : errors_ (wo_observer x) <= length (wo_received x);
  py_gil : wo_gil x = Some HWorker <-> exists p, wo_position x = PCalls p;
  py_done : wo_position x = PDone -> stopped_ (wo_observer x) = true /\ queue_ (wo_observer x) = [];
  py_stopped : wo_owner x <> OActive -> stopped_ (wo_observer x) = true;
  py_join : wo_owner x = OJoined -> wo_position x = PDone }.

Lemma enqueue_py_inv o w ow g off rec p : py_inv (mkWorld o w ow g off rec) ->
  py_inv (mkWorld (Enqueue p o) w ow g (if stopped_ o then off else off ++ [p]) rec).
Proof.
  intros [H1 H2 H3 H4 H5 H6 H7 H8]; simpl in *. unfold Enqueue. destruct (stopped_ o) eqn:Hs; [by split; simpl; rewrite ?Hs|].
  assert (w <> PDone) as Hw by (intros ->; destruct (H6 eq_refl); congruence).
  assert (ow = OActive) as -> by (destruct ow; [done|by specialize (H7 ltac:(done))..]).
  case_bool_decide as Hc.
  - destruct (H1 _ Hc) as [_ Hpos]. split; simpl; try done.
    + intros n Hn. rewrite Hc in Hn. injection Hn as <-. rewrite length_app, length_tl. simpl. lia.
    + rewrite !(assoc_L (++)). apply sublist_app; [|done]. etrans; [|exact H2]. rewrite !(assoc_L (++)).
      apply sublist_app; [done|]. destruct (queue_ o); [done|]. by apply sublist_cons.
    + rewrite !length_app, length_tl. simpl. lia.
  - split; simpl; try done.
    + intros n Hn. destruct (H1 n Hn). rewrite length_app. simpl. split; [|done].
      assert (length (queue_ o) <> n) by congruence. lia.
    + rewrite !(assoc_L (++)). apply sublist_app; [|done]. by rewrite <- (assoc_L (++)).
    + rewrite !length_app. simpl. lia.
Qed.

Lemma py_step_inv x y : py_inv x -> PyStep x y -> py_inv y.
Proof.
  intros Hx Hs. destruct Hs; [by apply enqueue_py_inv|..]; destruct Hx as [H1 H2 H3 H4 H5 H6 H7 H8]; simpl in *.
  - split; simpl; try done. intros Hd. by destruct (H6 Hd).
  - split; simpl; try done. intros _. by apply H7.
  - split; simpl; try done. split; [intros [= ->]; done|]. intros Hp. by apply H5 in Hp.
  - split; simpl; try done. split; [done|]. intros Hp. by apply H5 in Hp.
  - split; simpl; try done. split; [done|]. intros Hp. by apply H5 in Hp.
  - split; simpl; try done. split; [done|]. intros Hp. by apply H5 in Hp.
  - match goal with H : run_take _ = _ |- _ => rename H into Ht end. unfold run_take in Ht.
    destruct (queue_ o) as [|q rest] eqn:Hq; [by destruct (stopped_ o)|].
    injection Ht as <- <-. split; simpl in *; try done.
    + intros n Hn. destruct (H1 n Hn). lia.
    + lia.
    + split; [intros Hg; apply H5 in Hg as [? ?]; done|by intros [? ?]].
    + intros Ho. by specialize (H8 Ho).
  - match goal with H : run_take _ = _ |- _ => rename H into Ht end. unfold run_take in Ht.
    destruct (queue_ o) as [|q rest] eqn:Hq; [|done]. destruct (stopped_ o) eqn:Hst; [|done]. injection Ht as <-.
    split; simpl; rewrite ?Hq; try done. split; [intros Hg; by apply H5 in Hg as [? ?]|by intros [? ?]].
  - split; simpl; try done; [split; [eauto|done]|]. intros Ho. by specialize (H8 Ho).
  - assert (forall b, queue_ (run_called b o) = queue_ o /\ dropped_ (run_called b o) = dropped_ o /\
              capacity_ (run_called b o) = capacity_ o /\ stopped_ (run_called b o) = stopped_ o) as Hrun by by intros [].
    destruct (Hrun thrown) as (Eq & Ed & Ec & Es). split; simpl; rewrite ?Eq, ?Ed, ?Ec, ?Es; try done.
    + by rewrite <- (assoc_L (++)).
    + rewrite length_app. simpl in *. lia.
    + rewrite length_app. simpl. destruct thrown; simpl; lia.
    + split; [done|by intros [? ?]].
    + intros Ho. by specialize (H8 Ho).
Qed.

Lemma py_reachable_inv capacity x : capacity <> Some 0 -> rtc PyStep (new_world capacity) x -> py_inv x.
Proof.
  intros Hc Hr. assert (py_inv (new_world capacity)) as H0.
  { split; simpl; [intros n ->; split; [lia|]; destruct n; [done|lia]|done|done|lia| |done|done|done].
    split; [done|by intros [? ?]]. }
  revert H0. induction Hr as [|y z u Hyz _ IH]; [done|]. intros H. apply IH. by eapply py_step_inv.
Qed.
(** ** Shutdown *)

(** The worker and the holders of the GIL, without the owner. *)
Definition shutting_down (x : World) : Prop := wo_owner x = OJoining /\ wo_gil x <> Some HOwner.

(** The number of steps that are left: three for every item, two for the end, one to free the GIL. *)
Definition steps_left (x : World) : nat :=
  3 * length (queue_ (wo_observer x)) +
  match wo_position x with PIdle => 2 | PWaits _ => 4 | PCalls _ => 3 | PDone => 1 end +
  match wo_gil x with Some HOther => 1 | _ => 0 end.

(** What is still to be delivered. *)
Definition remaining (x : World) : list T := in_flight (wo_position x) ++ queue_ (wo_observer x).

Lemma shutdown_step x : py_inv x -> shutting_down x -> exists y, PyStep x y /\
  ((wo_owner y = OJoined /\ remaining x = [] /\ wo_received y = wo_received x) \/
   (shutting_down y /\ steps_left y < steps_left x /\ wo_received y ++ remaining y = wo_received x ++ remaining x)).
Proof.
  intros [H1 H2 H3 H4 H5 H6 H7 H8] [Ho Hg]. destruct x as [o w ow g off rec]; simpl in *. subst ow.
  assert (stopped_ o = true) as Hst by (by apply H7).
  destruct g as [[| |]|]; [done| | |].
  - destruct (proj1 H5 eq_refl) as [p ->]. eexists. split; [apply (py_called _ _ _ _ _ false)|]. right.
    unfold shutting_down, steps_left, remaining; simpl. split_and!; [done|done|lia|]. by rewrite <- (assoc_L (++)).
  - eexists. split; [apply py_release_other|]. right. unfold shutting_down, steps_left, remaining; simpl. split_and!; [done|done|lia|done].
  - destruct w as [|p|p|].
    + destruct (queue_ o) as [|p rest] eqn:Hq.
      * eexists. split; [eapply py_leave; unfold run_take; by rewrite Hq, Hst|]. right.
        unfold shutting_down, steps_left, remaining; simpl. rewrite Hq. split_and!; [done|done|simpl; lia|done].
      * eexists. split; [eapply py_take; unfold run_take; by rewrite Hq|]. right.
        unfold shutting_down, steps_left, remaining; simpl. rewrite Hq. split_and!; [done|done|simpl; lia|done].
    + eexists. split; [apply py_enter|]. right. unfold shutting_down, steps_left, remaining; simpl. split_and!; [done|done|lia|done].
    + assert (None = Some HWorker) as Hn by (apply H5; eauto). done.
    + eexists. split; [apply py_joined|]. left. unfold remaining; simpl. destruct (H6 eq_refl) as [_ ->]. done.
Qed.

Lemma shutdown_ends x : py_inv x -> shutting_down x -> exists y, rtc PyStep x y /\
  wo_owner y = OJoined /\ wo_received y = wo_received x ++ remaining x.
Proof.
  remember (steps_left x) as n eqn:Hn. revert x Hn. induction (lt_wf n) as [n _ IH]. intros x -> Hi Hs.
  destruct (shutdown_step x Hi Hs) as (y & Hxy & [(Hj & Hr & He)|(Hsd & Hlt & He)]).
  - exists y. split; [by apply rtc_once|]. split; [done|]. by rewrite He, Hr, app_nil_r.
  - destruct (IH _ Hlt y eq_refl (py_step_inv _ _ Hi Hxy) Hsd) as (z & Hyz & Hj & Hr).
    exists z. split; [by eapply rtc_l|]. split; [done|]. by rewrite Hr, He.
Qed.

(** While the owner joins, nobody adds to what is to be delivered: every step other than those of
    foreign threads with the GIL brings the end nearer. *)
Lemma shutdown_measure x y : py_inv x -> shutting_down x -> PyStep x y -> wo_owner y <> OJoined ->
  shutting_down y /\ (steps_left y <= steps_left x + 1) /\
  (wo_position y <> wo_position x -> steps_left y < steps_left x).
Proof.
  intros [H1 H2 H3 H4 H5 H6 H7 H8] [Ho Hg] Hs Hn. destruct Hs; simpl in *; subst; try done;
    unfold shutting_down, steps_left; simpl in *.
  - unfold Enqueue. rewrite H7 by done. split_and!; [done|done|lia|done].
  - split_and!; [done|done|lia|done].
  - split_and!; [done|done|lia|done].
  - match goal with H : run_take _ = _ |- _ => unfold run_take in H; destruct (queue_ o) as [|q rest]; [by destruct (stopped_ o)|]; injection H as <- <- end.
    simpl. split_and!; [done|done|lia|lia].
  - match goal with H : run_take _ = _ |- _ => unfold run_take in H; destruct (queue_ o) as [|q rest] eqn:Hq; [|done]; destruct (stopped_ o); [|done]; injection H as <- end.
    rewrite Hq. simpl. split_and!; [done|done|lia|lia].
  - split_and!; [done|done|lia|lia].
  - assert (queue_ (run_called thrown o) = queue_ o) as -> by by destruct thrown. split_and!; [done|done|lia|lia].
Qed.

(** An owner that joins while it holds the GIL, with an item that waits for it, never returns. *)
Lemma join_with_gil_stuck o p off rec y : stopped_ o = true ->
  rtc PyStep (mkWorld o (PWaits p) OJoining (Some HOwner) off rec) y ->
  y = mkWorld o (PWaits p) OJoining (Some HOwner) off rec.
Proof.
  intros Hs Hr. remember (mkWorld o (PWaits p) OJoining (Some HOwner) off rec) as x eqn:Hx.
  induction Hr as [|x y z Hxy _ IH]; [done|]. subst x.
  assert (y = mkWorld o (PWaits p) OJoining (Some HOwner) off rec) as Hy; [|rewrite <- Hy; by apply IH].
  inversion Hxy; subst; try done. unfold Enqueue. by rewrite Hs.
Qed.

(** ... and such a state can be reached: the callback's thread has taken an item when the owner, with
    the GIL, asks for the shutdown. *)
Lemma join_with_gil_reachable p :
  rtc PyStep (new_world None) (mkWorld (mkPythonObserver None 0 0 [] true) (PWaits p) OJoining (Some HOwner) [p] []).
Proof.
  eapply rtc_l; [apply (py_enqueue _ _ _ _ _ _ p)|]. cbn.
  eapply rtc_l; [eapply py_take; reflexivity|]. eapply rtc_l; [apply py_shutdown|]. apply rtc_refl.
Qed.
End observer.


Definition py_tick (n : Z) : Packet := Make (PlOther "int" n) (FromMicroseconds n).

(** Two packets in a queue of one: the older is dropped, the newer delivered. *)
Definition delivered_world : World (T := Packet) :=
  mkWorld (mkPythonObserver (Some 1) 1 1 [] false) PIdle OActive None [py_tick 1; py_tick 2] [py_tick 2].
Lemma delivered_world_reachable : rtc PyStep (new_world (Some 1)) delivered_world.
Proof.
  eapply rtc_l; [apply (py_enqueue _ _ _ _ _ _ (py_tick 1))|]. eapply rtc_l; [apply (py_enqueue _ _ _ _ _ _ (py_tick 2))|].
  cbn. eapply rtc_l; [apply py_release_owner|]. eapply rtc_l; [eapply py_take; reflexivity|].
  eapply rtc_l; [apply py_enter|]. eapply rtc_l; [apply (py_called _ _ _ _ _ true)|]. apply rtc_refl.
Qed.



Definition joining_world : World (T := Packet) :=
  mkWorld (mkPythonObserver (Some 2) 0 0 [py_tick 2] true) (PWaits (py_tick 1)) OJoining None [py_tick 1; py_tick 2] [].
Lemma joining_world_reachable : rtc PyStep (new_world (Some 2)) joining_world.
Proof.
  eapply rtc_l; [apply (py_enqueue _ _ _ _ _ _ (py_tick 1))|]. eapply rtc_l; [apply (py_enqueue _ _ _ _ _ _ (py_tick 2))|].
  cbn. eapply rtc_l; [eapply py_take; reflexivity|]. eapply rtc_l; [apply py_release_owner|].
  eapply rtc_l; [apply py_shutdown|]. apply rtc_refl.
Qed.

