(* ===== verification/PythonSession.v ===== *)
(** * The Python interface of a graph

    [python/bindings.cpp], [GraphSession] and the module: a graph is loaded and validated with the
    built-in nodes, and the operations of its runner are offered to Python, their statuses turned
    into exceptions.  Calls that wait are made without the global interpreter lock (GIL).

    The runner is the component of [Runner] and an observer that of [PythonObserver]; here they are
    the outside ([SessionCmd]) and their answers are arbitrary.  [gil_step] says which calls are
    permitted with and without the GIL: whatever waits for a thread that may itself need the GIL
    must be called without it.

    [python_session_safe]: the operations and the destructor keep to that as long as no error
    callback is set; [error_callback_destructor] shows that they do not once there is one. *)

From S2P Require Import Prelude Text Status Timestamp Values Registry BuiltinNodes GraphConfig GraphConfigFacts Graph Sources Device PythonValues.
From stdpp Require Import pretty.
Import NodeRegistry.
Local Open Scope Z_scope.
Local Open Scope rkavp_scope.

(** ** The runner's answers *)

(** As the code has them: the state of a node is printed, executors have their statistics. *)
Record NodeInfo := mkPyNodeInfo { pn_id : string; pn_executor : string; pn_state : string; pn_pending : Z }.
Record ExecutorInfo := mkPyExecutorInfo {
  px_name : string; px_queued : Z; px_active : Z; px_starvation : Z; px_max_wait : Z }.
Record StreamInfo := mkPyStreamInfo {
  ps_name : string; ps_open : bool; ps_last : Timestamp; ps_bound : Timestamp; ps_depth : Z; ps_dropped : Z }.
Record RuntimeInfo := mkRuntimeInfo {
  ri_running : bool; ri_cancelled : bool; ri_nodes : list NodeInfo; ri_executors : list ExecutorInfo;
  ri_streams : list StreamInfo }.

(** Calls of the runner that answer a status.  A callback is its identity. *)
Inductive RunnerCall :=
| CStart
| CSetSidePacket (name : string) (p : Packet)
| CAddPacket (stream : string) (p : Packet)
| CSetBound (stream : string) (t : Timestamp)
| CCloseInput (stream : string)
| CAddSource (slot id : string) (options : ConfigValue)
| CAddSourcePacket (id : string) (p : Packet)
| CRemoveSource (id : string) (drain_timeout_ms : Z)
| CRestartSource (id : string)
| CWaitUntilIdle (timeout_ms : Z)
| CWaitUntilDone (timeout_ms : Z)
| CObserveOutput (stream : string) (observer : Z)
| CSetErrorCallback.

Inductive SessionCmd :=
| GilRelease
| GilAcquire
| RunnerNew (config : GraphConfig)
| RunnerCallOf (c : RunnerCall)
| RunnerStop
| RunnerCancel
| RunnerListSources
| RunnerSourceHealth (id : string)
| RunnerRunning
| RunnerCancelled
| RunnerMetrics
| RunnerTrace
| RunnerInfo
| RunnerDestroy
| ObserverNew (callback : Z) (capacity : Z)
| ObserverShutdown (observer : Z).

Definition SessionAns (c : SessionCmd) : Type :=
  match c with
  | GilRelease | GilAcquire | RunnerNew _ | RunnerStop | RunnerCancel | RunnerDestroy | ObserverShutdown _ => unit
  | RunnerCallOf _ => Status
  | RunnerListSources => list SourceInfo
  | RunnerSourceHealth _ => StreamHealth
  | RunnerRunning | RunnerCancelled => bool
  | RunnerMetrics | RunnerTrace => string
  | RunnerInfo => RuntimeInfo
  | ObserverNew _ _ => Z
  end.

(** ** The session *)

(* [python/bindings.cpp:309-318] GraphSession (fields) *)
Record GraphSession := mkGraphSession {
  registry_ : Registry;
  config_ : GraphConfig;
  inspection_ : string;
  runner_ : bool;
  error_callback_ : option Z;
  callback_errors_ : Z;
  observer_dropped_ : Z;
  observers_ : list Z }.
Definition blank_session : GraphSession := mkGraphSession empty_registry empty_config "" false None 0 0 [].

Definition set_runner (b : bool) (s : GraphSession) : GraphSession :=
  mkGraphSession (registry_ s) (config_ s) (inspection_ s) b (error_callback_ s) (callback_errors_ s)
    (observer_dropped_ s) (observers_ s).
Definition set_error_callback (c : option Z) (s : GraphSession) : GraphSession :=
  mkGraphSession (registry_ s) (config_ s) (inspection_ s) (runner_ s) c (callback_errors_ s)
    (observer_dropped_ s) (observers_ s).
Definition set_observers (l : list Z) (s : GraphSession) : GraphSession :=
  mkGraphSession (registry_ s) (config_ s) (inspection_ s) (runner_ s) (error_callback_ s) (callback_errors_ s)
    (observer_dropped_ s) l.

(** What a call from Python ends with. *)
Inductive PyResult := Returned (o : PyObject) | Raised (type what : string).

Abbreviation SProg := (dprog SessionAns GraphSession).
Abbreviation scall := (dcall (Ans := SessionAns) (S := GraphSession)).

(* [python/bindings.cpp:21-23] ThrowOnError *)
Definition ThrowOnError (st : Status) : PyResult :=
  if ok st then Returned PyNone else Raised "RuntimeError" (message st).

(** [py::gil_scoped_release] around the rest of a block. *)
Definition without_gil {A} (m : SProg A) : SProg A :=
  scall GilRelease;~ r <~ m; scall GilAcquire;~ DRet r.

Definition status_call (c : RunnerCall) : SProg PyResult := st <~ scall (RunnerCallOf c); DRet (ThrowOnError st).

Section session.
Context `{PB : Pybind11} {YC : YamlCpp} {HO : Host}.

(** A Python value as a packet; the conversion throws before the runner is called. *)
Definition with_value (value : PyObject) (f : ConfigValue -> SProg PyResult) : SProg PyResult :=
  match ConfigFromPython value with
  | Some v => f v
  | None => DRet (Raised "TypeError" "packet value must be bool, int, float, str, list, dict, or None")
  end.
Definition returned (o : option PyObject) : PyResult :=
  match o with Some o => Returned o | None => Raised "UnicodeDecodeError" "invalid text" end.

(** The fields of a new session, or the status that the constructor throws. *)
(* [python/bindings.cpp:161-168] GraphSession::GraphSession *)
Definition NewSession (path : string) : SProg PyResult :=
  match LoadFile path with
  | None => DUndefined "the loader does not return"
  | Some (Err st) => DRet (Raised "RuntimeError" (message st))
  | Some (Okay config) =>
      let registry := RegisterBuiltinNodes empty_registry in
      let st := Validate config registry in
      if negb (ok st) then DRet (ThrowOnError st) else
      scall (RunnerNew config);~
      dset (fun s => mkGraphSession registry config (Inspect config) true None 0 0 []);~
      DRet (Returned PyNone)
  end.

(* [python/bindings.cpp:176-176] GraphSession::Start *)
Definition Start : SProg PyResult := status_call CStart.

(* [python/bindings.cpp:177-181] GraphSession::Stop *)
Definition Stop : SProg PyResult :=
  present <~ dget runner_;
  if negb present then DRet (Returned PyNone)
  else without_gil (scall RunnerStop);~ DRet (Returned PyNone).

(* [python/bindings.cpp:182-185] GraphSession::Cancel *)
Definition Cancel : SProg PyResult := without_gil (scall RunnerCancel);~ DRet (Returned PyNone).

(* [python/bindings.cpp:186-189] GraphSession::SetSidePacket *)
Definition SetSidePacket (name : string) (value : PyObject) : SProg PyResult :=
  with_value value (fun v => status_call (CSetSidePacket name (Make (PlConfig v) (FromMicroseconds 0)))).

(* [python/bindings.cpp:190-193] GraphSession::AddPacket *)
Definition AddPacket (stream : string) (value : PyObject) (timestamp_us : Z) : SProg PyResult :=
  with_value value (fun v => status_call (CAddPacket stream (Make (PlConfig v) (FromMicroseconds timestamp_us)))).

(* [python/bindings.cpp:194-197] GraphSession::SetInputTimestampBound *)
Definition SetInputTimestampBound (stream : string) (timestamp_us : Z) : SProg PyResult :=
  status_call (CSetBound stream (FromMicroseconds timestamp_us)).

(* [python/bindings.cpp:198-198] GraphSession::CloseInput *)
Definition CloseInput (stream : string) : SProg PyResult := status_call (CCloseInput stream).

(* [python/bindings.cpp:199-201] GraphSession::AddSource *)
Definition AddSource (slot source_id : string) (options : PyObject) : SProg PyResult :=
  with_value options (fun v => status_call (CAddSource slot source_id v)).

(* [python/bindings.cpp:202-207] GraphSession::AddSourcePacket *)
Definition AddSourcePacket (source_id : string) (value : PyObject) (timestamp_us : Z) : SProg PyResult :=
  with_value value (fun v => status_call (CAddSourcePacket source_id (Make (PlConfig v) (FromMicroseconds timestamp_us)))).

(* [python/bindings.cpp:208-211] GraphSession::RemoveSource *)
Definition RemoveSource (source_id : string) (drain_timeout_ms : Z) : SProg PyResult :=
  without_gil (status_call (CRemoveSource source_id drain_timeout_ms)).

(* [python/bindings.cpp:212-214] GraphSession::RestartSource *)
Definition RestartSource (source_id : string) : SProg PyResult := status_call (CRestartSource source_id).

Definition source_object (s : SourceInfo) : option PyObject :=
  slot ← make_str (si_slot s); id ← make_str (si_id s); health ← HealthToPython (si_health s);
  Some (PyDict [(PyStr "slot", slot); (PyStr "source_id", id); (PyStr "health", health)]).

(* [python/bindings.cpp:215-225] GraphSession::ListSources *)
Definition ListSources : SProg PyResult :=
  l <~ scall RunnerListSources; DRet (returned (PyList <$> sequence (map source_object (l : list SourceInfo)))).

(* [python/bindings.cpp:226-228] GraphSession::SourceHealth *)
Definition SourceHealth (source_id : string) : SProg PyResult :=
  h <~ scall (RunnerSourceHealth source_id); DRet (returned (HealthToPython h)).

(* [python/bindings.cpp:229-232] GraphSession::WaitUntilIdle *)
Definition WaitUntilIdle (timeout_ms : Z) : SProg PyResult := without_gil (status_call (CWaitUntilIdle timeout_ms)).

(* [python/bindings.cpp:233-236] GraphSession::WaitUntilDone *)
Definition WaitUntilDone (timeout_ms : Z) : SProg PyResult := without_gil (status_call (CWaitUntilDone timeout_ms)).

(** If the runner refuses the observer its only owner lets go of it, and its destructor shuts
    it down. *)
(* [python/bindings.cpp:237-245] GraphSession::ObserveOutput *)
Definition ObserveOutput (stream : string) (callback queue_capacity : Z) : SProg PyResult :=
  if queue_capacity =? 0 then DRet (Raised "ValueError" "queue_capacity must be positive") else
  observer <~ scall (ObserverNew callback queue_capacity);
  st <~ scall (RunnerCallOf (CObserveOutput stream observer));
  if negb (ok st) then scall (ObserverShutdown observer);~ DRet (ThrowOnError st) else
  dset (fun s => set_observers (observers_ s ++ [observer]) s);~
  DRet (Returned PyNone).

(* [python/bindings.cpp:246-258] GraphSession::SetErrorCallback *)
Definition SetErrorCallback (callback : Z) : SProg PyResult :=
  dset (set_error_callback (Some callback));~
  status_call CSetErrorCallback.

(* [python/bindings.cpp:259-259] GraphSession::running *)
Definition running : SProg PyResult :=
  present <~ dget runner_;
  if negb present then DRet (Returned (PyBool false)) else b <~ scall RunnerRunning; DRet (Returned (PyBool b)).

(* [python/bindings.cpp:260-260] GraphSession::cancelled *)
Definition cancelled : SProg PyResult :=
  present <~ dget runner_;
  if negb present then DRet (Returned (PyBool false)) else b <~ scall RunnerCancelled; DRet (Returned (PyBool b)).

(* [python/bindings.cpp:261-261] GraphSession::inspect *)
Definition inspect : SProg PyResult := t <~ dget inspection_; DRet (returned (make_str t)).
(* [python/bindings.cpp:262-262] GraphSession::metrics *)
Definition metrics : SProg PyResult := t <~ scall RunnerMetrics; DRet (returned (make_str t)).
(* [python/bindings.cpp:263-263] GraphSession::trace_json *)
Definition trace_json : SProg PyResult := t <~ scall RunnerTrace; DRet (returned (make_str t)).

Definition node_object (n : NodeInfo) : option PyObject :=
  id ← make_str (pn_id n); executor ← make_str (pn_executor n); state ← make_str (pn_state n);
  Some (PyDict [(PyStr "id", id); (PyStr "executor", executor); (PyStr "state", state);
                (PyStr "pending_packets", PyInt (pn_pending n))]).
Definition executor_object (x : ExecutorInfo) : option PyObject :=
  name ← make_str (px_name x);
  Some (PyDict [(PyStr "name", name); (PyStr "queued", PyInt (px_queued x)); (PyStr "active", PyInt (px_active x));
                (PyStr "starvation_events", PyInt (px_starvation x)); (PyStr "max_wait_us", PyInt (px_max_wait x))]).
Definition stream_object (x : StreamInfo) : option PyObject :=
  name ← make_str (ps_name x);
  Some (PyDict [(PyStr "name", name); (PyStr "open", PyBool (ps_open x));
                (PyStr "last_timestamp_us", timestamp_object (ps_last x)); (PyStr "bound_us", timestamp_object (ps_bound x));
                (PyStr "queue_depth", PyInt (ps_depth x)); (PyStr "dropped", PyInt (ps_dropped x))]).
Definition info_object (i : RuntimeInfo) : option PyObject :=
  nodes ← sequence (map node_object (ri_nodes i));
  executors ← sequence (map executor_object (ri_executors i));
  streams ← sequence (map stream_object (ri_streams i));
  Some (PyDict [(PyStr "running", PyBool (ri_running i)); (PyStr "cancelled", PyBool (ri_cancelled i));
                (PyStr "nodes", PyList nodes); (PyStr "executors", PyList executors); (PyStr "streams", PyList streams)]).

(* [python/bindings.cpp:264-305] GraphSession::runtime_info *)
Definition runtime_info : SProg PyResult := i <~ scall RunnerInfo; DRet (returned (info_object i)).

(* [python/bindings.cpp:306-306] GraphSession::callback_errors *)
Definition callback_errors : SProg PyResult := n <~ dget callback_errors_; DRet (Returned (PyInt n)).
(* [python/bindings.cpp:307-307] GraphSession::observer_dropped *)
Definition observer_dropped : SProg PyResult := n <~ dget observer_dropped_; DRet (Returned (PyInt n)).

(** The destructor, then those of the members in reverse order: of the runner last, with the
    GIL that has been taken again. *)
(* [python/bindings.cpp:170-174] GraphSession::~GraphSession *)
Definition DestroySession : SProg unit :=
  Stop;~
  without_gil (l <~ dget observers_; deach l (fun o => scall (ObserverShutdown o)));~
  dset (set_observers []);~
  dset (set_error_callback None);~
  present <~ dget runner_;
  (if (present : bool) then scall RunnerDestroy else DRet tt);~
  dset (set_runner false).

(** The function [validate] of the module. *)
(* [python/bindings.cpp:324-331] PYBIND11_MODULE (validate) *)
Definition validate (path : string) : option PyResult :=
  match LoadFile path with
  | None => None
  | Some (Err st) => Some (Raised "RuntimeError" (message st))
  | Some (Okay config) =>
      let st := Validate config (RegisterBuiltinNodes empty_registry) in
      Some (if ok st then Returned (PyBool true) else ThrowOnError st)
  end.

(** ** The operations of the class *)

Inductive SessionOp :=
| OpStart | OpStop | OpCancel
| OpSetSidePacket (name : string) (value : PyObject)
| OpAddPacket (stream : string) (value : PyObject) (timestamp_us : Z)
| OpSetInputTimestampBound (stream : string) (timestamp_us : Z)
| OpCloseInput (stream : string)
| OpAddSource (slot source_id : string) (options : PyObject)
| OpAddSourcePacket (source_id : string) (value : PyObject) (timestamp_us : Z)
| OpRemoveSource (source_id : string) (drain_timeout_ms : Z)
| OpRestartSource (source_id : string)
| OpListSources
| OpSourceHealth (source_id : string)
| OpWaitUntilIdle (timeout_ms : Z)
| OpWaitUntilDone (timeout_ms : Z)
| OpObserveOutput (stream : string) (callback queue_capacity : Z)
| OpSetErrorCallback (callback : Z)
| OpRunning | OpCancelled | OpInspect | OpMetrics | OpTraceJson | OpRuntimeInfo | OpCallbackErrors | OpObserverDropped.

(** The methods and properties that the module defines. *)
(* [python/bindings.cpp:332-364] PYBIND11_MODULE (Graph) *)
Definition session_op (op : SessionOp) : SProg PyResult :=
  match op with
  | OpStart => Start
  | OpStop => Stop
  | OpCancel => Cancel
  | OpSetSidePacket name value => SetSidePacket name value
  | OpAddPacket stream value t => AddPacket stream value t
  | OpSetInputTimestampBound stream t => SetInputTimestampBound stream t
  | OpCloseInput stream => CloseInput stream
  | OpAddSource slot id options => AddSource slot id options
  | OpAddSourcePacket id value t => AddSourcePacket id value t
  | OpRemoveSource id timeout => RemoveSource id timeout
  | OpRestartSource id => RestartSource id
  | OpListSources => ListSources
  | OpSourceHealth id => SourceHealth id
  | OpWaitUntilIdle timeout => WaitUntilIdle timeout
  | OpWaitUntilDone timeout => WaitUntilDone timeout
  | OpObserveOutput stream callback capacity => ObserveOutput stream callback capacity
  | OpSetErrorCallback callback => SetErrorCallback callback
  | OpRunning => running
  | OpCancelled => cancelled
  | OpInspect => inspect
  | OpMetrics => metrics
  | OpTraceJson => trace_json
  | OpRuntimeInfo => runtime_info
  | OpCallbackErrors => callback_errors
  | OpObserverDropped => observer_dropped
  end.
End session.

(** ** The discipline of the GIL *)

(** Whether the calling thread has the GIL, whether there is a runner and a thread for its error
    callback, and the observers that exist, with whether the runner may put packets into them. *)
Record Gil := mkGil {
  gil_held : bool;
  gil_runner : bool;
  gil_error_thread : bool;
  gil_observers : gmap Z bool }.
Definition gil_start : Gil := mkGil true false false ∅.

(** Calls that wait for other threads. *)
Definition waits (c : RunnerCall) : bool :=
  match c with CRemoveSource _ _ | CWaitUntilIdle _ | CWaitUntilDone _ => true | _ => false end.

Definition when {A} (b : bool) (a : A) : option A := if b then Some a else None.

(** A call that is not permitted is [None].  Setting the error callback and the end of the runner
    wait for the thread of the previous callback, which takes the GIL; the end of an observer
    waits for its thread, which takes the GIL for every packet that it was given. *)
Definition gil_step (ev : devent SessionAns) (g : Gil) : option Gil :=
  let 'Ev c a := ev in
  match c return SessionAns c -> option Gil with
  | GilRelease => fun _ => when (gil_held g) (mkGil false (gil_runner g) (gil_error_thread g) (gil_observers g))
  | GilAcquire => fun _ => when (negb (gil_held g)) (mkGil true (gil_runner g) (gil_error_thread g) (gil_observers g))
  | RunnerNew _ => fun _ => when (negb (gil_runner g)) (mkGil (gil_held g) true false (gil_observers g))
  | RunnerCallOf (CObserveOutput _ o) => fun st =>
      when (gil_runner g && bool_decide (gil_observers g !! o = Some false))
        (if ok st then mkGil (gil_held g) true (gil_error_thread g) (<[o := true]> (gil_observers g)) else g)
  | RunnerCallOf CSetErrorCallback => fun st =>
      if ok st then when (gil_runner g && negb (gil_held g && gil_error_thread g))
                      (mkGil (gil_held g) true true (gil_observers g))
      else when (gil_runner g) g
  | RunnerCallOf c => fun _ => when (gil_runner g && negb (waits c && gil_held g)) g
  | RunnerStop => fun _ => when (gil_runner g && negb (gil_held g)) g
  | RunnerDestroy => fun _ =>
      when (gil_runner g && negb (gil_held g && gil_error_thread g)) (mkGil (gil_held g) false false (gil_observers g))
  | ObserverNew _ _ => fun o => Some (mkGil (gil_held g) (gil_runner g) (gil_error_thread g) (<[o := false]> (gil_observers g)))
  | ObserverShutdown o => fun _ =>
      match gil_observers g !! o with
      | Some fed => when (negb (fed && gil_held g))
                      (mkGil (gil_held g) (gil_runner g) (gil_error_thread g) (delete o (gil_observers g)))
      | None => None
      end
  | RunnerCancel | RunnerListSources | RunnerSourceHealth _ | RunnerRunning | RunnerCancelled
  | RunnerMetrics | RunnerTrace | RunnerInfo => fun _ => when (gil_runner g) g
  end a.

(** A new observer is none of those that exist. *)
Definition gil_allowed (g : Gil) (ev : devent SessionAns) : Prop :=
  let 'Ev c a := ev in
  match c return SessionAns c -> Prop with
  | ObserverNew _ _ => fun o => gil_observers g !! o = None
  | _ => fun _ => True
  end a.
#[export] Instance gil_allowed_dec g ev : Decision (gil_allowed g ev).
Proof. destruct ev as [c a]. destruct c; simpl; apply _. Defined.

(** The observers of the session, all of them fed by the runner. *)
Definition fed (l : list Z) : gmap Z bool := list_to_map (map (fun o => (o, true)) l).
Definition session_inv (s : GraphSession) (g : Gil) : Prop :=
  g = mkGil true true false (fed (observers_ s)) /\ NoDup (observers_ s) /\ runner_ s = true.

Lemma fed_lookup l o : fed l !! o = if bool_decide (o ∈ l) then Some true else None.
Proof.
  unfold fed. induction l as [|x l IH]; cbn; [by rewrite bool_decide_eq_false_2 by apply not_elem_of_nil|].
  destruct (decide (x = o)) as [->|Hne].
  - rewrite lookup_insert_eq, bool_decide_eq_true_2; [done|apply list_elem_of_here].
  - rewrite lookup_insert_ne, IH by done. repeat case_bool_decide; try done; set_solver.
Qed.

Lemma fed_snoc l o : o ∉ l -> <[o := true]> (fed l) = fed (l ++ [o]).
Proof.
  intros Ho. apply map_eq. intros x. rewrite fed_lookup. destruct (decide (x = o)) as [->|Hne].
  - rewrite lookup_insert_eq, bool_decide_eq_true_2 by set_solver. done.
  - rewrite lookup_insert_ne, fed_lookup by done. repeat case_bool_decide; try done; set_solver.
Qed.

Section safety.
Context `{PB : Pybind11} {YC : YamlCpp} {HO : Host}.
Abbreviation swp := (wp (S := GraphSession) gil_step gil_allowed).
Implicit Types (s : GraphSession).

Definition ordinary (c : RunnerCall) : bool :=
  match c with CObserveOutput _ _ | CSetErrorCallback => false | _ => true end.

Lemma ordinary_call_wp c s g (Q : PyResult -> GraphSession -> Gil -> Prop) :
  gil_runner g = true -> waits c && gil_held g = false -> ordinary c = true ->
  (forall r, Q r s g) -> swp (status_call c) Q s g.
Proof.
  intros Hr Hw Hc HQ. unfold status_call. wcall st _; [|wstep; apply HQ].
  destruct c; try done; cbn in *; rewrite Hr, ?Hw; done.
Qed.

Lemma without_gil_wp {A} (m : SProg A) s g (Q : A -> GraphSession -> Gil -> Prop) :
  gil_held g = true ->
  swp m (fun a s' g' => gil_held g' = false /\
           Q a s' (mkGil true (gil_runner g') (gil_error_thread g') (gil_observers g'))) s
      (mkGil false (gil_runner g) (gil_error_thread g) (gil_observers g)) ->
  swp (without_gil m) Q s g.
Proof.
  intros Hg Hm. unfold without_gil. wcall [] _; [cbn; by rewrite Hg|]. eapply dwp_seq; [exact Hm|].
  intros a s' g' [Hg' HQ]. wcall [] _; [cbn; by rewrite Hg'|]. by wstep.
Qed.

Lemma value_call_wp value f s g (Q : PyResult -> GraphSession -> Gil -> Prop) :
  (forall r, Q r s g) -> (forall v, swp (f v) Q s g) -> swp (with_value value f) Q s g.
Proof. intros HQ Hf. unfold with_value. destruct (ConfigFromPython value); [apply Hf|wstep; apply HQ]. Qed.

Lemma waiting_call_wp c s g (Q : PyResult -> GraphSession -> Gil -> Prop) :
  gil_runner g = true -> gil_held g = true -> ordinary c = true -> (forall r, Q r s g) -> swp (without_gil (status_call c)) Q s g.
Proof.
  intros Hr Hg Hc HQ. apply without_gil_wp; [done|]. apply ordinary_call_wp; [done|apply andb_false_r|done|].
  intros r. split; [done|]. cbn. destruct g; cbn in *; subst. apply HQ.
Qed.

Lemma query_wp c s g (k : SessionAns c -> SProg PyResult) (Q : PyResult -> GraphSession -> Gil -> Prop) :
  (forall a, gil_step (Ev c a) g = Some g) -> (forall a, swp (k a) Q s g) -> swp (dbind (scall c) k) Q s g.
Proof. intros Hc Hk. refine (wp_call _ _ c _ _ _ _ _). intros a _. exists g. split; [apply Hc|apply Hk]. Qed.

Lemma session_stop_wp s g (Q : PyResult -> GraphSession -> Gil -> Prop) :
  gil_held g = true -> gil_runner g = true -> (forall r, Q r s g) -> swp Stop Q s g.
Proof.
  intros Hg Hr HQ. unfold Stop. wstep. destruct (runner_ s); cbn [negb]; [|wstep; apply HQ].
  apply dwp_bind, without_gil_wp; [done|]. wcall [] _; [cbn; by rewrite Hr|]. cbn. split; [done|]. wstep.
  destruct g; cbn in *; subst. apply HQ.
Qed.

Lemma observe_wp stream callback capacity s g (Q : PyResult -> GraphSession -> Gil -> Prop) :
  session_inv s g -> (forall r s' g', session_inv s' g' -> Q r s' g') -> swp (ObserveOutput stream callback capacity) Q s g.
Proof.
  intros Hi HQ. pose proof Hi as (-> & Hnd & Hr). unfold ObserveOutput. destruct (capacity =? 0); [wstep; by apply HQ|].
  wcall o Ho; [done|]. cbn in Ho. rewrite fed_lookup in Ho.
  assert (o ∉ observers_ s) as Hnin by (intros Hin; by rewrite bool_decide_eq_true_2 in Ho).
  wcall st _; [cbn; by rewrite lookup_insert_eq|]. destruct (ok st); cbn [negb].
  - wstep. wstep. apply HQ. split_and!; [|cbn; apply NoDup_app; split_and!; [done|set_solver|apply NoDup_singleton]|done].
    cbn. by rewrite insert_insert_eq, fed_snoc.
  - wcall [] _; [cbn; by rewrite lookup_insert_eq|]. wstep. cbn.
    rewrite delete_insert_eq, delete_id by (by rewrite fed_lookup, bool_decide_eq_false_2). by apply HQ.
Qed.

(** Every operation but one keeps the discipline. *)
Definition sets_no_error_callback (op : SessionOp) : Prop := match op with OpSetErrorCallback _ => False | _ => True end.

Lemma session_op_wp op s g (Q : PyResult -> GraphSession -> Gil -> Prop) :
  session_inv s g -> sets_no_error_callback op -> (forall r s' g', session_inv s' g' -> Q r s' g') ->
  swp (session_op op) Q s g.
Proof.
  intros Hi Hop HQ. pose proof Hi as (Hg & Hnd & Hr).
  assert (gil_held g = true /\ gil_runner g = true) as [Hheld Hrun] by by subst.
  assert (forall r, Q r s g) as HQs by by intros; apply HQ.
  destruct op; cbn [session_op];
    try (by apply value_call_wp; [done|intros v; by apply ordinary_call_wp]); try (by apply ordinary_call_wp);
    try (by apply waiting_call_wp); try (by apply observe_wp); try done.
  - by apply session_stop_wp.
  - unfold Cancel. apply dwp_bind, without_gil_wp; [done|]. wcall [] _; [cbn; by rewrite Hrun|]. cbn.
    split; [done|]. wstep. destruct g; cbn in *; subst. apply HQs.
  - apply query_wp; [intros a; cbn; by rewrite Hrun|]. intros a. by wstep.
  - apply query_wp; [intros a; cbn; by rewrite Hrun|]. intros a. by wstep.
  - unfold running. wstep. destruct (runner_ s); cbn [negb]; [|by wstep].
    apply query_wp; [intros a; cbn; by rewrite Hrun|]. intros a. by wstep.
  - unfold cancelled. wstep. destruct (runner_ s); cbn [negb]; [|by wstep].
    apply query_wp; [intros a; cbn; by rewrite Hrun|]. intros a. by wstep.
  - unfold inspect. wstep. by wstep.
  - apply query_wp; [intros a; cbn; by rewrite Hrun|]. intros a. by wstep.
  - apply query_wp; [intros a; cbn; by rewrite Hrun|]. intros a. by wstep.
  - apply query_wp; [intros a; cbn; by rewrite Hrun|]. intros a. by wstep.
  - unfold callback_errors. wstep. by wstep.
  - unfold observer_dropped. wstep. by wstep.
Qed.

Lemma shutdown_all_wp l s r e (Q : unit -> GraphSession -> Gil -> Prop) :
  NoDup l -> Q tt s (mkGil false r e ∅) ->
  swp (deach l (fun o => scall (ObserverShutdown o))) Q s (mkGil false r e (fed l)).
Proof.
  intros Hnd HQ. induction Hnd as [|o l Ho _ IH]; cbn [deach]; [by wstep|].
  change (fed (o :: l)) with (<[o := true]> (fed l)). wcall [] _; [cbn; by rewrite lookup_insert_eq|].
  cbn [gil_held gil_runner gil_error_thread gil_observers].
  rewrite delete_insert_eq, delete_id by (rewrite fed_lookup, bool_decide_eq_false_2; done). exact IH.
Qed.

Lemma destroy_wp s g (Q : unit -> GraphSession -> Gil -> Prop) :
  session_inv s g -> (forall s', observers_ s' = [] -> runner_ s' = false -> Q tt s' gil_start) -> swp DestroySession Q s g.
Proof.
  intros (-> & Hnd & Hr) HQ. unfold DestroySession. apply dwp_bind, session_stop_wp; [done|done|]. intros _.
  apply dwp_bind, without_gil_wp; [done|]. wstep. apply shutdown_all_wp; [done|]. split; [done|]. cbn.
  do 3 wstep. cbn [runner_ set_error_callback set_observers]. rewrite Hr. wcall [] _; [done|]. wstep. by apply HQ.
Qed.

(** The life of a graph object: it is made from a file, used, and destroyed. *)
Definition session_life (path : string) (ops : list SessionOp) : SProg bool :=
  r <~ NewSession path;
  match r with
  | Raised _ _ => DRet false
  | Returned _ => deach ops (fun op => session_op op;~ DRet tt);~ DestroySession;~ DRet true
  end.

Lemma session_life_wp path ops :
  Forall sets_no_error_callback ops ->
  swp (session_life path ops)
    (fun made s g => g = gil_start /\ observers_ s = [] /\ runner_ s = false /\
       (made = true <-> validate path = Some (Returned (PyBool true)))) blank_session gil_start.
Proof.
  intros Hops. unfold session_life, NewSession, validate. destruct (load_file_returns path) as [r Hr]. rewrite Hr.
  destruct r as [config|st].
  - cbv zeta. destruct (ok (Validate config _)) eqn:Hv; cbn [negb].
    + apply dwp_bind. wcall [] _; [done|]. wstep. wstep.
      eapply dwp_seq; [apply (wp_deach _ _ ops _ (fun l s g => session_inv s g /\ Forall sets_no_error_callback l))|].
      * split; [|done]. split_and!; [done|constructor|done].
      * intros op l s g [Hi [Hop Hl]%Forall_cons]. apply dwp_bind, session_op_wp; [done|done|]. intros. by wstep.
      * intros [] s g [Hi _]. apply dwp_bind, destroy_wp; [done|]. intros s' Ho Hr'. wstep. by split_and!.
    + apply dwp_bind. wstep. unfold ThrowOnError. rewrite Hv. wstep. by split_and!.
  - apply dwp_bind. wstep. wstep. by split_and!.
Qed.
End safety.


(** A graph of one sink, and a runner that says yes to everything. *)
Definition sink_files : Host := Build_Host
  (fun _ => None) (fun _ => None) (fun a b => b) (fun p => "") (fun p => p) (fun p => p) "/"
  (fun _ => inl "no text") (fun p => "bad file: " +:+ p)
  {["/g.yaml" := inr (YMap [entry "version" (YScalar "1"); entry "graph" (YMap [entry "name" (YScalar "g");
     entry "nodes" (YSeq [YMap [entry "id" (YScalar "sink"); entry "type" (YScalar "NullSink")]])])])]}.

Definition yes_runner : Device SessionAns Z := fun c n =>
  match c return SessionAns c * Z with
  | GilRelease => (tt, n) | GilAcquire => (tt, n) | RunnerNew _ => (tt, n)
  | RunnerCallOf _ => (Ok, n)
  | RunnerStop => (tt, n) | RunnerCancel => (tt, n)
  | RunnerListSources => ([], n)
  | RunnerSourceHealth _ => (health_in kStopped, n)
  | RunnerRunning => (true, n) | RunnerCancelled => (false, n)
  | RunnerMetrics => ("", n) | RunnerTrace => ("{}", n)
  | RunnerInfo => (mkRuntimeInfo true false [] [] [], n)
  | RunnerDestroy => (tt, n)
  | ObserverNew _ _ => (n, n + 1)
  | ObserverShutdown _ => (tt, n)
  end.

Definition demo_ops : list SessionOp :=
  [OpObserveOutput "out" 7 64; OpObserveOutput "out" 8 2; OpStart; OpAddPacket "in" (PyInt 3) 10;
   OpAddPacket "in" (PyOther "socket") 11; OpWaitUntilIdle (-1); OpStop].

Definition demo_life (ops : list SessionOp) :=
  drun yes_runner (@session_life plain_python demo_yaml sink_files "/g.yaml" ops) blank_session 1.


(** With an error callback the destructor of the runner waits for the thread of that callback while
    the GIL is held; [PythonObserver.join_with_gil_stuck] is what can happen then. *)
Example error_callback_destructor :
  gsteps gil_step (demo_life [OpSetErrorCallback 5]).2 gil_start = None.
Proof. by vm_compute. Qed.

(** So does a second error callback, which replaces the first. *)
Example second_error_callback :
  gsteps gil_step (drun yes_runner (deach [OpSetErrorCallback 5; OpSetErrorCallback 6] (fun op => session_op op;~ DRet tt))
    (set_runner true blank_session) 1).2 (mkGil true true false ∅) = None.
Proof. by vm_compute. Qed.

(** An error callback that the runner refuses, because it is running, takes the place of the old one
    all the same. *)
Lemma refused_callback_replaces {E} (dev : Device SessionAns E) e s callback st :
  (dev (RunnerCallOf CSetErrorCallback) e).1 = st -> ok st = false ->
  let '(r, s', _, _) := drun dev (SetErrorCallback callback) s e in
  r = Some (Raised "RuntimeError" (message st)) /\ error_callback_ s' = Some callback.
Proof.
  intros Hst Hok. unfold SetErrorCallback, status_call. rewrite drun_bind. unfold dset at 1. cbn [drun].
  rewrite drun_bind. unfold dcall. cbn [drun]. destruct (dev (RunnerCallOf CSetErrorCallback) e) as [st' e'].
  cbn [fst] in Hst. subst st'. unfold ThrowOnError. by rewrite Hok.
Qed.
